(* ===== verification/_CoqProject ===== *)
-Q . S2P
Prelude.v
GoFloat.v
Sha256.v
Json.v
Base64.v
GoTime.v
Manifest.v
Cas.v
CasInvariant.v
CasChunks.v
CasTheorems.v
CasRoundtrip.v
CasPull.v
CasEvict.v
CasGC.v
Scheduler.v
SchedulerTheorems.v
RegistryTheorems.v
Suspension.v
SuspensionTheorems.v
Quota.v
QuotaTheorems.v
Metering.v
Usage.v
MeteringTheorems.v
UsageTheorems.v
CollectorTheorems.v
Billing.v
BillingTheorems.v
SpendCapTheorems.v
CapToken.v
CapTokenTheorems.v
GoStrings.v
GoNet.v
Atomic.v
Saas.v
Accounts.v
Invites.v
Sessions.v
SaasTheorems.v
MembershipTheorems.v
SessionsTheorems.v
GoUrl.v
GoHttp.v
Gateway.v
GatewayTheorems.v
Netconf.v
NetconfTheorems.v
Allowlist.v
AllowlistTheorems.v
Nft.v
NftTheorems.v
Firewall.v
FirewallTheorems.v
DnsProxy.v
NetworkTheorems.v
EgressProxy.v
AddressTheorems.v
ProxyTheorems.v
Engine.v
EngineTheorems.v
Ownership.v
ForkTheorems.v
RecoveryTheorems.v
Preview.v
PreviewTheorems.v
PreviewRoutes.v
PreviewRoutesTheorems.v
PreviewProxy.v
PreviewProxyTheorems.v
PreviewLoginTheorems.v
GoMux.v
Daemon.v
DaemonTheorems.v
ExposeTheorems.v
DaemonConns.v
DaemonConnsTheorems.v
DaemonServer.v
DaemonServerTheorems.v
