(* ===== verification/Prelude.v ===== *)
(** * A verification of mitos

    mitos runs sandboxes, virtual machines that are forked from snapshots, on the nodes of
    a cluster and sells them as a service.  This library models the parts of its Go
    sources (under src/) whose correctness is a matter of state and algorithms, and proves
    what makes each of them correct.  Pure functions are functions; code that holds a lock
    or calls outside is a function on an explicit state, or a program whose steps are the
    atomic parts; errors are values; everything can be evaluated.

    ** The parts and how they interact

    A node agent (forkd) keeps snapshots in a content-addressed store, forks sandboxes from
    them, gives each a network identity, a uid and firewall rules, and recovers all of it
    from a journal.  The controller schedules forks onto nodes.  The service part keeps
    accounts, keys and sessions; its gateway admits requests by key, scope, suspension and
    quota; metering reports become usage records, which are billed against a ledger, and a
    spend cap may suspend an organization, which the quota enforcer then refuses.  A preview
    proxy publishes ports of sandboxes under host names: the controller pushes it the routes
    of the sandboxes, it authenticates and authorizes visitors and forwards what they send
    to the node agent with the bearer of the sandbox.  The node agent introduces each fork
    to its guest, and serves the sandbox to who has its token.

    - Go itself: this file (integers at their width, [result] for errors, times, sorting,
      strings, ranges over maps), GoFloat (float64), GoTime (the calendar), GoStrings
      (package strings, with its lemmas), GoNet (package net), GoUrl (net/url and path, with
      their round trips), GoHttp (headers, cookies, redirects, the reverse proxy of
      net/http/httputil), GoMux (the patterns of net/http.ServeMux), Sha256 (SHA-256, HMAC,
      hex), Base64, Json (the part of encoding/json in use).  [sort.Slice] and ranges over
      maps are classes, [SliceSort] and [MapRange], of which only the documented behaviour
      is used; Unicode tables are the class [Unicode].  Atomic has programs over a shared
      store and their interleavings, with invariants ([keeps]) and tokens ([honest]); Ownership adds
      resources that programs take and give back ([owns]), things they have to clean up
      ([answers]), and facts that hold when they return ([assures]).
    - internal/cas, internal/casgc.  Manifest has digests and the manifest with its
      canonical form; Cas every operation of the store over a world of files in which any
      system call may fail or crash.  The world has the files below the root of the store
      (class [Root]) and those elsewhere, and a path that is read or written may lead to
      either.  CasInvariant, CasChunks, CasTheorems, CasRoundtrip,
      CasPull, CasEvict and CasGC (with the collector) their theorems: content is
      addressed by its digest after every crash, as long as nothing is materialized into the
      store itself, a snapshot is read back as it was stored,
      an untrusted peer cannot damage the store, eviction is by last use and spares what
      is pinned.
    - internal/controller.  Scheduler is node_registry.go, scheduler.go, isolation_tier.go
      and forkd_discovery.go; SchedulerTheorems and RegistryTheorems show which node a
      fork gets, which error it is refused with and what that says, whatever the clock
      reads between the looks at a node, and that no connection is lost.
    - internal/fork with internal/firecracker/jailer.go.  Engine has admission, fork, live
      fork, terminate, the journal and the recovery; the host's network is behind the class
      [Manager], and the outcomes of outside calls are arguments, those of the files of the
      journal among them ([system]).  EngineTheorems: the
      ceiling on sandboxes; ForkTheorems: in every interleaving each address and uid has
      one holder, nothing leaks, and a fork succeeds when there is room; RecoveryTheorems:
      while it can be read and written the journal describes the live sandboxes through any
      restarts.
    - internal/netconf, internal/network, internal/husk/netfilter.go, internal/dnsproxy,
      internal/egressproxy, internal/sniproxy.  Netconf has identities and their
      allocator; Allowlist the allowlists; Nft what nftables does with statements and
      packets (documented behaviour of that program, class [Host] for what may fail);
      Firewall the rendered rule sets and the command sequences; DnsProxy the resolver;
      EgressProxy both proxies.  NetconfTheorems, AllowlistTheorems, NftTheorems,
      FirewallTheorems, AddressTheorems, ProxyTheorems and NetworkTheorems show where the
      packets of a guest can go whatever happens on other taps after its set-up, which names
      resolve, which addresses are refused, and what the proxies dial.
    - internal/saas.  Saas (model.go, store.go), Accounts (keys.go, account.go), Invites,
      Sessions (session.go, oidc.go), Gateway (gateway.go and what it calls, with the
      request that gateway_ws.go proxies a WebSocket with); SaasTheorems,
      MembershipTheorems, SessionsTheorems and GatewayTheorems: the store stays well formed
      under concurrent calls, a key that verifies was issued and not revoked, ownership is
      kept and passed on by owners, sessions refine a table, and what the gateway forwards, for
      whom, and with which credentials.
    - internal/saas/quota, internal/saas/controlplane/livecounter.go, internal/saas/billing,
      cmd/console/drawdown.go.  Suspension, Quota (with the count of running sandboxes),
      Billing; SuspensionTheorems, QuotaTheorems, BillingTheorems and
      SpendCapTheorems: holds survive, the sandboxes of creates one after the other stay
      within a tier (their number as the gateway is wired, their sizes too once those are),
      settlements add up to the cent, a cap suspends exactly on the prepaid credit spent.
    - internal/metering, internal/usage.  Metering, Usage; MeteringTheorems, UsageTheorems,
      CollectorTheorems: memory is divided to the byte, usage is billed once, the collector
      computes the integral of all samples.
    - internal/captoken.  CapToken, CapTokenTheorems: tokens verify exactly when they are
      chains of attenuations, and never widen.
    - internal/preview, internal/controller/expose_*.go, internal/tenant.  Preview has the
      signed links, sessions and grants; PreviewRoutes the route table, who may pass a
      route, and the controller's part, from a list of sandboxes to the push; PreviewProxy
      the proxy, the auth origin and the forward-auth subrequest.  PreviewTheorems: what is
      signed is accepted, until it expires, as nothing else, and a grant once;
      PreviewRoutesTheorems: the table follows the sandboxes and each route carries its own
      sandbox's token; PreviewProxyTheorems: exactly which requests reach a sandbox, and
      what of them; PreviewLoginTheorems: the login leads back to where it began, and how
      far the session it ends with reaches.
    - internal/daemon, internal/sandboxrpc/interceptor.go: what forkd, and the stub of a husk
      pod, serve.  Daemon has the registrations of sandboxes, the gates in front of every
      route, the lifecycle handlers and the proxy to a guest's ports; DaemonConns the same
      API as concurrent programs that open and close streams, tunnels and forwarded ports;
      DaemonServer the fork service over Engine and Daemon: fork, introduce the guest at the
      socket of its machine, reap.
      DaemonTheorems: without the token of a sandbox a request has no effect on it but that
      the report on the node samples its vitals, and what forkd's listener leads to;
      ExposeTheorems: what the preview proxy forwards reaches the guest of the route and no
      other, and which path, query and host it is sent; DaemonConnsTheorems: limits hold
      and nothing is left open in any interleaving; DaemonServerTheorems: a fork that is
      reported has, at its own socket, reseeded under a generation of its own and been given
      its secrets, and calls that do not overlap keep engine, tokens and sockets in agreement.

    ** Conventions

    A definition has the name of the Go function or type it models where there is one;
    the doc comments give the correspondence where there is none.  A w-bit integer is a [Z]
    kept in its range by the wrap-around of the language, a string or []byte a [string], a
    map a [gmap], an IP address its list of bytes, a time a number of nanoseconds.  What is
    not under src/ is an argument or a class with its documented behaviour as laws, each
    with an instance: upstream resolvers, name look-up, URL and handshake parsing, payment
    and identity providers, random bytes, the process table, auth servers ([HttpClient]).

    ** Fuel

    Loops that are not structural have fuel that is proved or seen to be enough: reading a
    stream in chunks, JSON and base64 by the length of the input; the windows of an interval
    by their number (interval_loop_terminates); [acquire_loop] by the number of blocks in
    use plus one ([acquire_loop_spec]) or of uids in the range ([acquire_loop_none]); the
    embedded forms of an address by two rounds, since an embedded address is IPv4.

    ** Not modelled

    Kubernetes reconcilers and API types, HTTP and gRPC handlers beyond the gateway, the
    preview proxy and the daemon, what flows between the daemon and a guest agent, the
    daemon's templates, listings and audit, TLS certificates, the Postgres stores and payment
    providers (clients of other systems; the stores are classes here); the command-line and server programs (wiring); firecracker's API, userfaultfd,
    mounts, vsock and the guest agent (system calls); metrics and logs; client libraries and
    web applications (other languages).  Of modelled parts, error texts, tickers, time-outs,
    listeners and the copying of streams are left out.  Concurrency is modelled where the
    code is written for it: the account store, sessions, the gateway, the suspension cache,
    the engine and the daemon; elsewhere operations are one after the other, as their locks
    make them, except that nothing orders the count of running sandboxes before a create
    with other creates (example parallel_creates_overshoot in QuotaTheorems). *)

From Stdlib Require Export ZArith Lia.
From stdpp Require Export base tactics option list gmap strings sorting.

#[global] Open Scope Z_scope.

(** ** Go integers

    A Go [intN] is a [Z] together with the wrap-around that the language
    defines for its arithmetic. *)

Definition wrap (w z : Z) : Z := (z + 2 ^ (w - 1)) mod 2 ^ w - 2 ^ (w - 1).

Definition int32 (z : Z) : Z := wrap 32 z.
Definition int64 (z : Z) : Z := wrap 64 z.

Definition min_int32 : Z := - 2 ^ 31.
Definition max_int32 : Z := 2 ^ 31 - 1.
Definition min_int64 : Z := - 2 ^ 63.
Definition max_int64 : Z := 2 ^ 63 - 1.

Definition is_int32 (z : Z) : Prop := min_int32 ≤ z ≤ max_int32.
Definition is_int64 (z : Z) : Prop := min_int64 ≤ z ≤ max_int64.

#[global] Instance is_int32_dec z : Decision (is_int32 z).
Proof. unfold is_int32. apply _. Defined.
#[global] Instance is_int64_dec z : Decision (is_int64 z).
Proof. unfold is_int64. apply _. Defined.

(** Decide a closed proposition by evaluation. *)
Ltac by_eval := apply (bool_decide_unpack _); vm_compute; exact I.

Lemma wrap_id w z : 0 < w → - 2 ^ (w - 1) ≤ z < 2 ^ (w - 1) → wrap w z = z.
Proof.
  intros Hw Hz. unfold wrap.
  assert (2 ^ w = 2 * 2 ^ (w - 1)) as Hp.
  { rewrite <- Z.pow_succ_r by lia. f_equal. lia. }
  rewrite Z.mod_small by lia. lia.
Qed.

Lemma int32_id z : is_int32 z → int32 z = z.
Proof. intros Hz. apply wrap_id; unfold is_int32, min_int32, max_int32 in Hz; lia. Qed.

Lemma int64_id z : is_int64 z → int64 z = z.
Proof. intros Hz. apply wrap_id; unfold is_int64, min_int64, max_int64 in Hz; lia. Qed.

Lemma wrap_range w z : 0 < w → - 2 ^ (w - 1) ≤ wrap w z < 2 ^ (w - 1).
Proof.
  intros Hw. unfold wrap.
  assert (2 ^ w = 2 * 2 ^ (w - 1)) as Hp.
  { rewrite <- Z.pow_succ_r by lia. f_equal. lia. }
  pose proof (Z.mod_pos_bound (z + 2 ^ (w - 1)) (2 ^ w)).
  assert (0 < 2 ^ w) by (apply Z.pow_pos_nonneg; lia). lia.
Qed.

Lemma int64_range z : is_int64 (int64 z).
Proof.
  pose proof (wrap_range 64 z). unfold is_int64, int64, min_int64, max_int64. lia.
Qed.

(** Sums wrap as a whole. *)
Lemma int64_add_l a b : int64 (int64 a + b) = int64 (a + b).
Proof.
  unfold int64, wrap. f_equal.
  replace ((a + 2 ^ (64 - 1)) mod 2 ^ 64 - 2 ^ (64 - 1) + b + 2 ^ (64 - 1))
    with ((a + 2 ^ (64 - 1)) mod 2 ^ 64 + b) by lia.
  rewrite Z.add_mod_idemp_l by done. f_equal. lia.
Qed.

Lemma int64_add_r a b : int64 (a + int64 b) = int64 (a + b).
Proof. rewrite Z.add_comm, int64_add_l. f_equal. lia. Qed.

(** ** Results *)

Inductive result (E A : Type) : Type :=
| Ok (a : A)
| Err (e : E).
Arguments Ok {E A} a.
Arguments Err {E A} e.

Definition rbind {E A B} (m : result E A) (k : A → result E B) : result E B :=
  match m with Ok a => k a | Err e => Err e end.

Declare Scope go_scope.
Delimit Scope go_scope with go.
#[global] Open Scope go_scope.

Notation "'let?' x := m 'in' k" := (rbind m (fun x => k))
  (at level 200, x pattern, m at level 100, k at level 200, right associativity) : go_scope.

Definition is_ok {E A} (r : result E A) : bool :=
  match r with Ok _ => true | Err _ => false end.

#[global] Instance Ok_inj {E A} : Inj (=) (=) (@Ok E A).
Proof. by intros ?? [= ->]. Qed.

Lemma rbind_ok {E A B} (m : result E A) (k : A → result E B) b :
  rbind m k = Ok b ↔ ∃ a, m = Ok a ∧ k a = Ok b.
Proof. destruct m; naive_solver. Qed.

(** ** [time.Time] and [time.Duration]

    A [time.Time] is the number of nanoseconds since the zero time (January 1,
    year 1, UTC), so the zero value is [0]; a [time.Duration] is an int64 number
    of nanoseconds. *)

Definition nanosecond : Z := 1.
Definition second : Z := 1000000000.
Definition minute : Z := 60 * second.
Definition hour : Z := 60 * minute.

Definition time_is_zero (t : Z) : bool := t =? 0.

(** [Time.Sub] saturates at the limits of a [Duration]. *)
Definition time_sub (t u : Z) : Z := Z.max min_int64 (Z.min max_int64 (t - u)).

Lemma time_sub_ge t u d : is_int64 d → (d ≤ time_sub t u ↔ d ≤ t - u ∨ (d = min_int64)).
Proof. unfold time_sub, is_int64. lia. Qed.

(** ** [sort.Slice]

    The documented contract of [sort.Slice]: the result is a permutation of the
    input in which no element is less than an earlier one; the order of equal
    elements is not specified.  The components that sort are proved against
    this interface, for every implementation of it. *)

Class StrictWeak {A} (less : A → A → bool) : Prop := {
  sw_irrefl x : less x x = false;
  sw_trans x y z : less x y = true → less y z = true → less x z = true;
  sw_incomp x y z : less x y = false → less y z = false → less x z = false;
}.

Definition not_after {A} (less : A → A → bool) (x y : A) : Prop := less y x = false.

#[global] Instance not_after_dec {A} (less : A → A → bool) : RelDecision (not_after less).
Proof. intros x y. unfold not_after. apply _. Defined.

Class SliceSort := {
  sort_slice {A} (less : A → A → bool) : list A → list A;
  sort_slice_perm {A} (less : A → A → bool) l : sort_slice less l ≡ₚ l;
  sort_slice_sorted {A} (less : A → A → bool) `{!StrictWeak less} l :
    StronglySorted (not_after less) (sort_slice less l);
}.

#[global] Instance not_after_total {A} (less : A → A → bool) `{!StrictWeak less} :
  Total (not_after less).
Proof.
  intros x y. unfold not_after.
  destruct (less x y) eqn:E1, (less y x) eqn:E2; auto.
  pose proof (sw_trans x y x E1 E2) as H. rewrite sw_irrefl in H. done.
Qed.

#[global] Instance not_after_trans {A} (less : A → A → bool) `{!StrictWeak less} :
  Transitive (not_after less).
Proof. intros x y z H1 H2. unfold not_after in *. eauto using sw_incomp. Qed.

#[global] Instance Zltb_sw : StrictWeak Z.ltb.
Proof. split; intros *; lia. Qed.

(** An order on keys orders what has them. *)
Lemma sw_on {A B} (f : A → B) (less : B → B → bool) `{!StrictWeak less} :
  StrictWeak (λ x y, less (f x) (f y)).
Proof.
  split; intros *; [apply sw_irrefl|intros; by eapply sw_trans|intros; by eapply sw_incomp].
Qed.

Lemma StronglySorted_filter {A} (R : relation A) (P : A → Prop) `{!∀ x, Decision (P x)} l :
  StronglySorted R l → StronglySorted R (filter P l).
Proof.
  induction 1 as [|x l Hl IH Hx]; [constructor|]. rewrite filter_cons. destruct (decide (P x)); [|done].
  constructor; [done|]. rewrite Forall_forall in *. intros y Hy. apply Hx.
  by apply list_elem_of_filter in Hy as [_ ?].
Qed.

(** A sorted list without ties is determined by its elements. *)
Lemma sorted_ext {A} (less : A → A → bool) (l1 l2 : list A) :
  StronglySorted (not_after less) l1 → StronglySorted (not_after less) l2 → NoDup l1 → NoDup l2 →
  (∀ x y, x ∈ l1 → y ∈ l1 → less x y = false → less y x = false → x = y) →
  (∀ x, x ∈ l1 ↔ x ∈ l2) → l1 = l2.
Proof.
  intros H1 H2 Hn1 Hn2 Htie He. apply (StronglySorted_unique_strong (not_after less)); [|done|done|].
  - intros x y Hx Hy ??. apply Htie; [done|by apply He|done|done].
  - by apply NoDup_Permutation.
Qed.

(** Merge sort is one implementation. *)
Lemma merge_sort_slice_sorted {A} (less : A → A → bool) `{!StrictWeak less} l :
  StronglySorted (not_after less) (merge_sort (not_after less) l).
Proof. apply StronglySorted_merge_sort; apply _. Qed.

#[global] Instance merge_slice_sort : SliceSort := {|
  sort_slice A less l := merge_sort (not_after less) l;
  sort_slice_perm A less l := merge_sort_Permutation (not_after less) l;
  sort_slice_sorted A less _ l := merge_sort_slice_sorted less l;
|}.

(** Two sorts of permuted inputs agree when no two elements tie. *)
Lemma sort_slice_unique {A} (S1 S2 : SliceSort) (less : A → A → bool)
    `{!StrictWeak less} l1 l2 :
  l1 ≡ₚ l2 →
  (∀ x y, x ∈ l1 → y ∈ l1 → less x y = false → less y x = false → x = y) →
  @sort_slice S1 _ less l1 = @sort_slice S2 _ less l2.
Proof.
  intros Hp Htie.
  apply (StronglySorted_unique_strong (not_after less)).
  - intros x1 x2. rewrite !sort_slice_perm, <- Hp. intros Hx1 Hx2 H1 H2.
    apply Htie; auto.
  - apply sort_slice_sorted. done.
  - apply sort_slice_sorted. done.
  - by rewrite !sort_slice_perm.
Qed.

(** ** Go strings

    A Go string (and a [[]byte]) is a [string] of 8-bit characters. *)

Lemma str_app_nil_l (s : string) : "" +:+ s = s.
Proof. done. Qed.

Lemma str_app_cons c (s t : string) : String c s +:+ t = String c (s +:+ t).
Proof. done. Qed.

Lemma str_app_nil_r (s : string) : s +:+ "" = s.
Proof. induction s as [|c s IH]; [done|]. by rewrite str_app_cons, IH. Qed.

Lemma str_app_assoc (s t u : string) : (s +:+ t) +:+ u = s +:+ t +:+ u.
Proof. induction s as [|c s IH]; [done|]. by rewrite !str_app_cons, IH. Qed.

Lemma str_length_app (s t : string) :
  String.length (s +:+ t) = (String.length s + String.length t)%nat.
Proof. induction s as [|c s IH]; [done|]. rewrite str_app_cons. simpl. lia. Qed.

Lemma str_app_inj_l (s t u : string) : s +:+ t = s +:+ u → t = u.
Proof. induction s as [|c s IH]; [done|]. intros [= Ha]. by apply IH. Qed.

(** Texts are put together to the right. *)
Create Rewrite HintDb str.
#[export] Hint Rewrite str_app_nil_l str_app_cons str_app_nil_r str_app_assoc : str.

Ltac str_simpl := autorewrite with str.

Definition str_concat (l : list string) : string := foldr String.append "" l.

Lemma str_concat_app l1 l2 : str_concat (l1 ++ l2) = str_concat l1 +:+ str_concat l2.
Proof.
  induction l1 as [|s l1 IH]; [done|].
  change (s +:+ str_concat (l1 ++ l2) = (s +:+ str_concat l1) +:+ str_concat l2).
  by rewrite IH, str_app_assoc.
Qed.

(** Go's [<] on strings: bytewise, lexicographic. *)
Definition str_ltb (s t : string) : bool := String.ltb s t.

Lemma str_ltb_le s t : str_ltb s t = false ↔ String.le t s.
Proof.
  unfold str_ltb, String.le, String.ltb, String.leb.
  rewrite (String.compare_antisym t s).
  destruct (String.compare s t); simpl; naive_solver.
Qed.

Lemma str_ltb_lt s t : str_ltb s t = true ↔ ¬ String.le t s.
Proof. rewrite <- str_ltb_le. destruct (str_ltb s t); naive_solver. Qed.

#[global] Instance str_ltb_sw : StrictWeak str_ltb.
Proof.
  split.
  - intros s. by apply str_ltb_le.
  - intros s t u. rewrite !str_ltb_lt. intros Hts Hut Hus. apply Hut.
    destruct (String.le_total s t) as [Hst|]; [by etrans|done].
  - intros s t u. rewrite !str_ltb_le. intros. by etrans.
Qed.

Lemma str_ltb_tie s t : str_ltb s t = false → str_ltb t s = false → s = t.
Proof. rewrite !str_ltb_le. intros. by apply (anti_symm String.le). Qed.

(** ** The best element of a scan

    A loop that keeps the better of the best so far and the next element. *)

Definition keep_better {A} (better : A → A → bool) (best x : A) : A :=
  if better x best then x else best.

Lemma keep_better_elem {A} (better : A → A → bool) l x :
  foldl (keep_better better) x l ∈ x :: l.
Proof.
  revert x. induction l as [|y l IH]; intros x; simpl; [set_solver|].
  specialize (IH (keep_better better x y)). unfold keep_better in *.
  destruct (better y x); set_solver.
Qed.

Lemma keep_better_best {A} (better : A → A → bool) `{!StrictWeak better} l x y :
  y ∈ x :: l → better y (foldl (keep_better better) x l) = false.
Proof.
  revert x y. induction l as [|z l IH]; intros x y Hy; simpl.
  - apply list_elem_of_singleton in Hy as ->. apply sw_irrefl.
  - assert (better x (keep_better better x z) = false ∧ better z (keep_better better x z) = false)
      as [Hx Hz].
    { unfold keep_better. destruct (better z x) eqn:E; [|auto using sw_irrefl].
      split; [|apply sw_irrefl]. destruct (better x z) eqn:E'; [|done].
      rewrite <- (sw_irrefl (less := better) x). symmetry. eauto using sw_trans. }
    apply elem_of_cons in Hy as [->|Hy]; [|apply elem_of_cons in Hy as [->|Hy]].
    + eapply sw_incomp; [exact Hx|]. apply IH. set_solver.
    + eapply sw_incomp; [exact Hz|]. apply IH. set_solver.
    + apply IH. set_solver.
Qed.

(** ** Sums and maxima over lists *)

Definition zsum {A} (f : A → Z) (l : list A) : Z := foldr (λ x, Z.add (f x)) 0 l.

(** At least [0], as the accumulators of the code start. *)
Definition zmax {A} (f : A → Z) (l : list A) : Z := foldr (λ x, Z.max (f x)) 0 l.

Section sums.
Context {A : Type}.
Implicit Types (f g : A → Z) (l : list A).

Lemma zsum_cons f x l : zsum f (x :: l) = f x + zsum f l.
Proof. done. Qed.

Lemma zsum_app f l1 l2 : zsum f (l1 ++ l2) = zsum f l1 + zsum f l2.
Proof. induction l1 as [|x l1 IH]; simpl; lia. Qed.

Lemma zmax_app f l1 l2 : zmax f (l1 ++ l2) = Z.max (zmax f l1) (zmax f l2).
Proof. induction l1 as [|x l1 IH]; simpl; [|lia]. induction l2; simpl in *; lia. Qed.

#[global] Instance zsum_perm f : Proper ((≡ₚ) ==> (=)) (zsum f).
Proof. induction 1; simpl; lia. Qed.

#[global] Instance zmax_perm f : Proper ((≡ₚ) ==> (=)) (zmax f).
Proof. induction 1; simpl; lia. Qed.

Lemma zmax_nonneg f l : 0 ≤ zmax f l.
Proof. induction l; simpl; lia. Qed.

Lemma zmax_ge f l x : x ∈ l → f x ≤ zmax f l.
Proof. induction l as [|y l IH]; [set_solver|]. intros [->|Hx]%elem_of_cons; simpl; [lia|]. specialize (IH Hx). lia. Qed.

Lemma zmax_attained f l : 0 < zmax f l → ∃ x, x ∈ l ∧ f x = zmax f l.
Proof.
  induction l as [|y l IH]; simpl; [lia|]. intros H. destruct (Z.max_spec (f y) (zmax f l)) as [[? He]|[? He]].
  - destruct IH as (x & Hx & Hf); [change (foldr _ 0 l) with (zmax f l) in *; lia|]. exists x.
    split; [set_solver|]. by rewrite Hf.
  - exists y. split; [set_solver|done].
Qed.

Lemma zsum_ext f g l : (∀ x, x ∈ l → f x = g x) → zsum f l = zsum g l.
Proof.
  induction l as [|x l IH]; intros H; simpl; [done|]. rewrite (H x), IH; [done| |set_solver].
  intros y Hy. apply H. set_solver.
Qed.

Lemma zsum_add f g l : zsum (λ x, f x + g x) l = zsum f l + zsum g l.
Proof. induction l; simpl; lia. Qed.

Lemma zsum_const c l : zsum (λ _, c) l = c * Z.of_nat (length l).
Proof. induction l; simpl length; simpl zsum; lia. Qed.

Lemma zsum_nonneg f l : Forall (λ x, 0 ≤ f x) l → 0 ≤ zsum f l.
Proof. induction 1; simpl; lia. Qed.

Lemma zsum_le f g l : Forall (λ x, f x ≤ g x) l → zsum f l ≤ zsum g l.
Proof. induction 1; simpl; lia. Qed.

Lemma zmax_le_zsum f l : Forall (λ x, 0 ≤ f x) l → zmax f l ≤ zsum f l.
Proof. induction 1 as [|x l Hx Hl IH]; simpl; [lia|]. pose proof (zsum_nonneg f l Hl). lia. Qed.

Lemma zsum_filter_le f (P : A → Prop) `{!∀ x, Decision (P x)} l :
  Forall (λ x, 0 ≤ f x) l → zsum f (filter P l) ≤ zsum f l.
Proof.
  induction 1 as [|x l Hx Hl IH]; [done|]. rewrite filter_cons. destruct (decide (P x)); simpl; lia.
Qed.

Lemma zsum_fmap {B} (h : B → A) f (l : list B) : zsum f (h <$> l) = zsum (λ x, f (h x)) l.
Proof. induction l as [|x l IH]; [done|]. rewrite fmap_cons. cbn [zsum foldr]. f_equal. exact IH. Qed.

Lemma zsum_zero f l : (∀ x, x ∈ l → f x = 0) → zsum f l = 0.
Proof. intros H. rewrite (zsum_ext f (λ _, 0)) by done. rewrite zsum_const. lia. Qed.

Lemma zsum_filter f (P : A → Prop) `{!∀ x, Decision (P x)} l :
  zsum f (filter P l) = zsum (λ x, if decide (P x) then f x else 0) l.
Proof. induction l as [|x l IH]; [done|]. rewrite filter_cons. simpl. destruct (decide (P x)); simpl; lia. Qed.

End sums.

(** Summing over the classes of a key. *)
Lemma zsum_by_key {A K} `{!EqDecision K} (key : A → K) (f : A → Z) (ks : list K) (l : list A) :
  NoDup ks → (∀ x, x ∈ l → key x ∈ ks) →
  zsum f l = zsum (λ k, zsum f (filter (λ x, key x = k) l)) ks.
Proof.
  intros Hnd Hk. induction l as [|x l IH].
  { symmetry. apply zsum_zero. done. }
  assert (zsum (λ k, if decide (key x = k) then f x else 0) ks = f x) as Hx.
  { clear IH. assert (key x ∈ ks) as Hin by (apply Hk; set_solver). clear Hk.
    induction Hnd as [|k ks Hni Hnd IH]; [set_solver|]. simpl. destruct (decide (key x = k)) as [<-|Hne].
    - rewrite zsum_zero; [lia|]. intros k' Hk'. by destruct (decide (key x = k')) as [<-|].
    - rewrite IH by set_solver. lia. }
  simpl. rewrite IH by set_solver. rewrite <- Hx at 1. rewrite <- zsum_add. apply zsum_ext.
  intros k _. rewrite filter_cons. by destruct (decide (key x = k)).
Qed.

(** ** Ranges over maps

    The iteration order of a Go map is not specified and differs from loop to
    loop; a range is one at a call site. *)

Class MapRange := {
  map_range {K A} `{!EqDecision K, !Countable K} (site : string) (m : gmap K A) : list (K * A);
  map_range_perm {K A} `{!EqDecision K, !Countable K} site (m : gmap K A) :
    map_range site m ≡ₚ map_to_list m;
}.

#[global] Instance list_map_range : MapRange := {|
  map_range K A _ _ site m := map_to_list m;
  map_range_perm K A _ _ site m := reflexivity (map_to_list m);
|}.

Lemma elem_of_map_range `{!MapRange} {K A} `{!EqDecision K, !Countable K} site (m : gmap K A) k x :
  (k, x) ∈ map_range site m ↔ m !! k = Some x.
Proof. by rewrite map_range_perm, elem_of_map_to_list. Qed.

Lemma NoDup_map_range `{!MapRange} {K A} `{!EqDecision K, !Countable K} site (m : gmap K A) :
  NoDup (map_range site m).*1.
Proof. rewrite map_range_perm. apply NoDup_fst_map_to_list. Qed.
