(* ===== verification/GoFloat.v ===== *)
(** * Go's float64

    IEEE 754 binary64 arithmetic, round to nearest even, on the standard
    library's executable specification floats; every operation rounds, as the
    compiler does on amd64, which fuses none.  A conversion from float64 to
    int64 truncates; for a value outside the range of int64 the language leaves
    the result to the implementation, which the class [GoPlatform] stands for. *)

From Stdlib Require Import SpecFloat.
From S2P Require Import Prelude.

Module GoFloat.

Definition float64 : Type := spec_float.

Definition prec : Z := 53.
Definition emax : Z := 1024.

Definition fadd (x y : float64) : float64 := SFadd prec emax x y.
Definition fsub (x y : float64) : float64 := SFsub prec emax x y.
Definition fmul (x y : float64) : float64 := SFmul prec emax x y.
Definition fdiv (x y : float64) : float64 := SFdiv prec emax x y.
Definition fltb (x y : float64) : bool := SFltb x y.
Definition fleb (x y : float64) : bool := SFleb x y.

(** [float64(z)] of an integer. *)
Definition of_int (z : Z) : float64 := binary_normalize prec emax z 0 false.

(** The integer part of a finite value. *)
Definition trunc (x : float64) : option Z :=
  match x with
  | S754_zero _ => Some 0
  | S754_finite s m e =>
      let a := if 0 <=? e then Z.pos m * 2 ^ e else Z.pos m / 2 ^ (- e) in
      Some (if s then - a else a)
  | S754_infinity _ | S754_nan => None
  end.

(** [math.Round]: to the nearest integer, halves away from zero. *)
Definition fround (x : float64) : float64 :=
  match x with
  | S754_finite s m e =>
      if 0 <=? e then x
      else
        let q := (Z.pos m + 2 ^ (- e - 1)) / 2 ^ (- e) in
        binary_normalize prec emax (if s then - q else q) 0 s
  | _ => x
  end.

(** What the implementation makes of a value that no int64 represents. *)
Class GoPlatform := {
  unrepresentable : float64 → Z;
  unrepresentable_range x : is_int64 (unrepresentable x);
}.

(** amd64 gives the smallest int64. *)
#[global, refine] Instance amd64 : GoPlatform := {| unrepresentable := λ _, min_int64 |}.
Proof. intros _. unfold is_int64, min_int64, max_int64. lia. Defined.

Section conv.
Context `{!GoPlatform}.

(** [int64(x)] of a float. *)
Definition to_int64 (x : float64) : Z :=
  match trunc x with
  | Some z => if bool_decide (is_int64 z) then z else unrepresentable x
  | None => unrepresentable x
  end.

Lemma to_int64_range x : is_int64 (to_int64 x).
Proof.
  unfold to_int64. destruct (trunc x); [|apply unrepresentable_range].
  case_bool_decide; [done|apply unrepresentable_range].
Qed.

End conv.

(** [Duration.Seconds]. *)
Definition Seconds (d : Z) : float64 :=
  fadd (of_int (Z.quot d second)) (fdiv (of_int (Z.rem d second)) (of_int second)).

(** 0.1 + 0.2 and 2^53 + 1, as IEEE 754 has them. *)
Example float_tenths :
  fadd (fdiv (of_int 1) (of_int 10)) (fdiv (of_int 2) (of_int 10)) =
  fadd (fdiv (of_int 3) (of_int 10)) (fdiv (of_int 1) (of_int (2 ^ 54))).
Proof. vm_compute. reflexivity. Qed.

Example float_big : of_int (2 ^ 53 + 1) = of_int (2 ^ 53).
Proof. vm_compute. reflexivity. Qed.

End GoFloat.
