(* ===== verification/Sha256.v ===== *)
(** * SHA-256, HMAC-SHA256 and hex: the part of Go's crypto and encoding
    packages the store and the capability tokens call.

    [Sum256] is [crypto/sha256.Sum256], [hmac_sha256] is an [crypto/hmac] MAC over
    it, [EncodeToString] is [encoding/hex].  Byte strings are [string]s; the
    arithmetic is on 32-bit words kept as [Z] with the wrap-around of FIPS 180-4
    written out. *)

From Stdlib Require Import Ascii.
From S2P Require Import Prelude.

Module Sha256.

Definition mask32 : Z := 4294967295.
Definition w32 (z : Z) : Z := Z.land z mask32.
Definition add32 (a b : Z) : Z := w32 (a + b).
Definition shr (n x : Z) : Z := Z.shiftr x n.
Definition rotr (n x : Z) : Z := Z.lor (Z.shiftr x n) (w32 (Z.shiftl x (32 - n))).
Definition xor3 (a b c : Z) : Z := Z.lxor a (Z.lxor b c).

Definition ch (x y z : Z) : Z := Z.lxor (Z.land x y) (Z.land (Z.lxor x mask32) z).
Definition maj (x y z : Z) : Z := xor3 (Z.land x y) (Z.land x z) (Z.land y z).
Definition bsig0 (x : Z) : Z := xor3 (rotr 2 x) (rotr 13 x) (rotr 22 x).
Definition bsig1 (x : Z) : Z := xor3 (rotr 6 x) (rotr 11 x) (rotr 25 x).
Definition ssig0 (x : Z) : Z := xor3 (rotr 7 x) (rotr 18 x) (shr 3 x).
Definition ssig1 (x : Z) : Z := xor3 (rotr 17 x) (rotr 19 x) (shr 10 x).

(** The constants are the first 32 bits of the fractional parts of the square roots
    (initial state) and cube roots (round constants) of the first primes. *)
Definition is_prime (n : Z) : bool :=
  forallb (λ d, negb (n mod Z.of_nat d =? 0)) (seq 2 (Z.to_nat (Z.sqrt n) - 1)).

Definition primes (count : nat) : list Z :=
  take count (filter (λ n, is_prime n = true) (Z.of_nat <$> seq 2 310)).

(** The integer cube root, bit by bit from the top. *)
Fixpoint cube_root (bits : nat) (acc z : Z) : Z :=
  match bits with
  | O => acc
  | S b =>
      let acc' := acc + 2 ^ Z.of_nat b in
      cube_root b (if acc' ^ 3 <=? z then acc' else acc) z
  end.

Definition sqrt_word (p : Z) : Z := Z.sqrt (p * 2 ^ 64) mod 2 ^ 32.
Definition cbrt_word (p : Z) : Z := cube_root 36 0 (p * 2 ^ 96) mod 2 ^ 32.

Definition K : list Z := Eval vm_compute in cbrt_word <$> primes 64.

Record state := State { ha : Z; hb : Z; hc : Z; hd : Z; he : Z; hf : Z; hg : Z; hh : Z }.

Definition H0 : state :=
  Eval vm_compute in
    match sqrt_word <$> primes 8 with
    | [a; b; c; d; e; f; g; h] => State a b c d e f g h
    | _ => State 0 0 0 0 0 0 0 0
    end.

Definition round (s : state) (kw : Z * Z) : state :=
  let t1 := add32 (hh s) (add32 (bsig1 (he s))
              (add32 (ch (he s) (hf s) (hg s)) (add32 kw.1 kw.2))) in
  let t2 := add32 (bsig0 (ha s)) (maj (ha s) (hb s) (hc s)) in
  State (add32 t1 t2) (ha s) (hb s) (hc s) (add32 (hd s) t1) (he s) (hf s) (hg s).

(** The message schedule, most recent word first. *)
Fixpoint schedule (n : nat) (ws : list Z) : list Z :=
  match n with
  | O => ws
  | S n' =>
      let w i := nth i ws 0 in
      schedule n' (add32 (ssig1 (w 1%nat)) (add32 (w 6%nat) (add32 (ssig0 (w 14%nat)) (w 15%nat))) :: ws)
  end.

Definition compress (s : state) (block : list Z) : state :=
  let ws := reverse (schedule 48 (reverse block)) in
  let s' := foldl round s (zip K ws) in
  State (add32 (ha s) (ha s')) (add32 (hb s) (hb s')) (add32 (hc s) (hc s'))
        (add32 (hd s) (hd s')) (add32 (he s) (he s')) (add32 (hf s) (hf s'))
        (add32 (hg s) (hg s')) (add32 (hh s) (hh s')).

Definition byte_of (c : ascii) : Z := Z.of_N (N_of_ascii c).
Definition of_byte (z : Z) : ascii := ascii_of_N (Z.to_N z).

Fixpoint bytes_of (s : string) : list Z :=
  match s with "" => [] | String c s' => byte_of c :: bytes_of s' end.

Fixpoint string_of_bytes (l : list Z) : string :=
  match l with [] => "" | z :: l' => String (of_byte z) (string_of_bytes l') end.

Definition be_bytes (n : nat) (z : Z) : list Z :=
  (fun i => Z.land (Z.shiftr z (8 * Z.of_nat i)) 255) <$> reverse (seq 0 n).

Definition pad (msg : list Z) : list Z :=
  let n := Z.of_nat (length msg) in
  let zeros := Z.to_nat ((55 - n) mod 64) in
  msg ++ [128] ++ replicate zeros 0 ++ be_bytes 8 (8 * n).

Fixpoint words_of (l : list Z) : list Z :=
  match l with
  | a :: b :: c :: d :: l' =>
      Z.lor (Z.shiftl a 24) (Z.lor (Z.shiftl b 16) (Z.lor (Z.shiftl c 8) d)) :: words_of l'
  | _ => []
  end.

(** Sixteen words at a time; [n] is the number of blocks. *)
Fixpoint blocks (n : nat) (ws : list Z) (s : state) : state :=
  match n with
  | O => s
  | S n' => blocks n' (drop 16 ws) (compress s (take 16 ws))
  end.

Definition sum_bytes (msg : list Z) : list Z :=
  let ws := words_of (pad msg) in
  let s := blocks (length ws / 16) ws H0 in
  be_bytes 4 (ha s) ++ be_bytes 4 (hb s) ++ be_bytes 4 (hc s) ++ be_bytes 4 (hd s) ++
  be_bytes 4 (he s) ++ be_bytes 4 (hf s) ++ be_bytes 4 (hg s) ++ be_bytes 4 (hh s).

(** [sha256.Sum256]. *)
Definition Sum256 (s : string) : string := string_of_bytes (sum_bytes (bytes_of s)).

(** [hmac.New(sha256.New, key)], written to and summed. *)
Definition hmac_sha256 (key msg : string) : string :=
  let k0 := bytes_of key in
  let k1 := if (64 <? length k0)%nat then sum_bytes k0 else k0 in
  let k := k1 ++ replicate (64 - length k1) 0 in
  let inner := sum_bytes ((Z.lxor 0x36 <$> k) ++ bytes_of msg) in
  string_of_bytes (sum_bytes ((Z.lxor 0x5c <$> k) ++ inner)).

(** [hex.EncodeToString]. *)
Definition hex_digit (z : Z) : ascii :=
  match z with
  | 0 => "0" | 1 => "1" | 2 => "2" | 3 => "3" | 4 => "4" | 5 => "5" | 6 => "6" | 7 => "7"
  | 8 => "8" | 9 => "9" | 10 => "a" | 11 => "b" | 12 => "c" | 13 => "d" | 14 => "e" | _ => "f"
  end%char.

Fixpoint hex_of_bytes (l : list Z) : string :=
  match l with
  | [] => ""
  | z :: l' =>
      String (hex_digit (Z.land (Z.shiftr z 4) 15)) (String (hex_digit (Z.land z 15)) (hex_of_bytes l'))
  end.

Definition EncodeToString (s : string) : string := hex_of_bytes (bytes_of s).

(** The published test vectors. *)
Example sum256_empty : EncodeToString (Sum256 "") =
  "e3b0c44298fc1c149afbf4c8996fb92427ae41e4649b934ca495991b7852b855".
Proof. vm_compute. reflexivity. Qed.

Example sum256_abc : EncodeToString (Sum256 "abc") =
  "ba7816bf8f01cfea414140de5dae2223b00361a396177a9cb410ff61f20015ad".
Proof. vm_compute. reflexivity. Qed.

Example sum256_two_blocks :
  EncodeToString (Sum256 "abcdbcdecdefdefgefghfghighijhijkijkljklmklmnlmnomnopnopq") =
  "248d6a61d20638b8e5c026930c3e6039a33ce45964ff2167f6ecedd419db06c1".
Proof. vm_compute. reflexivity. Qed.

Example hmac_jefe :
  EncodeToString (hmac_sha256 "Jefe" "what do ya want for nothing?") =
  "5bdcc146bf60754e6a042426089575c75a003f089d2739839dec58b964ec3843".
Proof. vm_compute. reflexivity. Qed.

(** A digest has 64 hex characters, whatever was hashed. *)
Lemma length_hex_of_bytes l : String.length (hex_of_bytes l) = (2 * length l)%nat.
Proof. induction l as [|z l IH]; cbn [hex_of_bytes String.length length]; lia. Qed.

Lemma length_bytes_of s : length (bytes_of s) = String.length s.
Proof. induction s; simpl; auto. Qed.

Lemma length_string_of_bytes l : String.length (string_of_bytes l) = length l.
Proof. induction l; simpl; auto. Qed.

Lemma length_be_bytes n z : length (be_bytes n z) = n.
Proof. unfold be_bytes. by rewrite length_fmap, length_reverse, length_seq. Qed.

Lemma length_sum_bytes msg : length (sum_bytes msg) = 32%nat.
Proof. unfold sum_bytes. rewrite !length_app, !length_be_bytes. done. Qed.

Lemma length_Sum256 s : String.length (Sum256 s) = 32%nat.
Proof. unfold Sum256. by rewrite length_string_of_bytes, length_sum_bytes. Qed.

Lemma length_hex_Sum256 s : String.length (EncodeToString (Sum256 s)) = 64%nat.
Proof.
  unfold EncodeToString. rewrite length_hex_of_bytes, length_bytes_of, length_Sum256. done.
Qed.

Definition is_hex_char (c : ascii) : bool :=
  let n := byte_of c in
  ((48 <=? n) && (n <=? 57)) || ((97 <=? n) && (n <=? 102)).

Fixpoint all_chars (p : ascii → bool) (s : string) : bool :=
  match s with "" => true | String c s' => p c && all_chars p s' end.

Lemma hex_digit_is_hex z : is_hex_char (hex_digit z) = true.
Proof. repeat (destruct z as [|z|z]; try reflexivity). Qed.

Lemma hex_of_bytes_is_hex l : all_chars is_hex_char (hex_of_bytes l) = true.
Proof. induction l; simpl; rewrite ?hex_digit_is_hex; auto. Qed.

End Sha256.
