(* ===== verification/Json.v ===== *)
(** * The fragment of Go's encoding/json the program uses

    [quote] is [json.Marshal] on a string (HTML escaping on, as [Marshal] has it),
    [fmt_int] is [json.Marshal] on an integer, [render] is the compact form
    [Marshal] prints, and [parse] is the syntax accepted by [json.Unmarshal].  The
    [get_*] functions are [Unmarshal]'s conversions into Go fields.

    The round trip [parse_render] says that parsing what was printed gives the
    printed value back, for ASCII strings. *)

From Stdlib Require Import Ascii DecimalString DecimalFacts DecimalPos DecimalZ.
From S2P Require Import Prelude Sha256.
Import Sha256.

Module Json.

Inductive json :=
| JNull
| JBool (b : bool)
| JNum (lit : string)
| JStr (s : string)
| JArr (l : list json)
| JObj (l : list (string * json)).

(** ** Printing *)

Definition chr (n : Z) : ascii := of_byte n.
Definition dquote : ascii := "034".
Definition backslash : ascii := "092".

(** [\u00XX] *)
Definition u_escape (n : Z) : string :=
  String backslash (String "u" (String "0" (String "0"
    (String (hex_digit (Z.land (Z.shiftr n 4) 15)) (String (hex_digit (Z.land n 15)) ""))))).

Definition esc (c : ascii) : string := String backslash (String c "").

(** The escape of a character below 0x80. *)
Definition escape_ascii (c : ascii) : string :=
  let n := byte_of c in
  if n =? 34 then esc dquote
  else if n =? 92 then esc backslash
  else if n =? 8 then esc "b"
  else if n =? 12 then esc "f"
  else if n =? 10 then esc "n"
  else if n =? 13 then esc "r"
  else if n =? 9 then esc "t"
  else if (n <? 32) || (n =? 60) || (n =? 62) || (n =? 38) then u_escape n
  else String c "".

(** [utf8.DecodeRune]: the rune at the head of a string whose first byte is not
    ASCII and its width, [None] for an invalid encoding (width 1, [RuneError]). *)
Definition cont (c : ascii) : bool := (128 <=? byte_of c) && (byte_of c <=? 191).

Definition decode_rune (s : string) : option (Z * nat) :=
  match s with
  | "" => None
  | String c0 s1 =>
      let b0 := byte_of c0 in
      let low c := Z.land (byte_of c) 63 in
      if b0 <? 194 then None
      else if b0 <=? 223 then
        match s1 with
        | String c1 _ => if cont c1 then Some (Z.lor (Z.shiftl (Z.land b0 31) 6) (low c1), 2%nat) else None
        | _ => None
        end
      else if b0 <=? 239 then
        match s1 with
        | String c1 (String c2 _) =>
            let b1 := byte_of c1 in
            let lo := if b0 =? 224 then 160 else 128 in
            let hi := if b0 =? 237 then 159 else 191 in
            if (lo <=? b1) && (b1 <=? hi) && cont c2
            then Some (Z.lor (Z.shiftl (Z.land b0 15) 12) (Z.lor (Z.shiftl (low c1) 6) (low c2)), 3%nat)
            else None
        | _ => None
        end
      else if b0 <=? 244 then
        match s1 with
        | String c1 (String c2 (String c3 _)) =>
            let b1 := byte_of c1 in
            let lo := if b0 =? 240 then 144 else 128 in
            let hi := if b0 =? 244 then 143 else 191 in
            if (lo <=? b1) && (b1 <=? hi) && cont c2 && cont c3
            then Some (Z.lor (Z.shiftl (Z.land b0 7) 18)
                        (Z.lor (Z.shiftl (low c1) 12) (Z.lor (Z.shiftl (low c2) 6) (low c3))), 4%nat)
            else None
        | _ => None
        end
      else None
  end.

Definition esc_fffd : string := String backslash "ufffd".
Definition esc_2028 : string := String backslash "u2028".
Definition esc_2029 : string := String backslash "u2029".

Inductive mode := Head | Copy (k : nat) | Drop (k : nat).

Definition mode_next (m : nat → mode) (k : nat) : mode :=
  match k with O => Head | S _ => m k end.

(** The body of a quoted string.  A valid multi-byte rune is copied byte by byte
    except U+2028 and U+2029, which are escaped; an invalid byte becomes
    the escape of U+FFFD. *)
Fixpoint quote_body (m : mode) (s : string) : string :=
  match s with
  | "" => ""
  | String c s' =>
      match m with
      | Copy k => String c (quote_body (mode_next Copy (pred k)) s')
      | Drop k => quote_body (mode_next Drop (pred k)) s'
      | Head =>
          if byte_of c <? 128 then escape_ascii c +:+ quote_body Head s'
          else match decode_rune s with
               | None => esc_fffd +:+ quote_body Head s'
               | Some (r, w) =>
                   if r =? 8232 then esc_2028 +:+ quote_body (mode_next Drop (pred w)) s'
                   else if r =? 8233 then esc_2029 +:+ quote_body (mode_next Drop (pred w)) s'
                   else String c (quote_body (mode_next Copy (pred w)) s')
               end
      end
  end.

Definition quote (s : string) : string :=
  String dquote (quote_body Head s +:+ String dquote "").

(** Decimal, as [strconv.AppendInt] prints. *)
Definition fmt_int (z : Z) : string := NilZero.string_of_int (Z.to_int z).

Fixpoint commas (l : list string) : string :=
  match l with
  | [] => ""
  | [s] => s
  | s :: l' => s +:+ "," +:+ commas l'
  end.

Fixpoint render (v : json) : string :=
  match v with
  | JNull => "null"
  | JBool true => "true"
  | JBool false => "false"
  | JNum lit => lit
  | JStr s => quote s
  | JArr l => "[" +:+ commas (map render l) +:+ "]"
  | JObj l => "{" +:+ commas (map (fun '(k, v) => quote k +:+ ":" +:+ render v) l) +:+ "}"
  end.

(** ** Parsing *)

Definition is_ws (c : ascii) : bool :=
  let n := byte_of c in (n =? 32) || (n =? 9) || (n =? 10) || (n =? 13).

Fixpoint skip_ws (s : string) : string :=
  match s with
  | String c s' => if is_ws c then skip_ws s' else s
  | "" => ""
  end.

Definition is_digit (c : ascii) : bool := (48 <=? byte_of c) && (byte_of c <=? 57).

Fixpoint scan_digits (s : string) : string * string :=
  match s with
  | String c s' =>
      if is_digit c then let '(d, r) := scan_digits s' in (String c d, r) else ("", s)
  | "" => ("", "")
  end.

Definition nonempty (s : string) : bool := match s with "" => false | _ => true end.

(** [0] or a nonzero digit followed by digits. *)
Definition scan_int (s : string) : option (string * string) :=
  match s with
  | String c s' =>
      if negb (is_digit c) then None
      else if byte_of c =? 48 then Some ("0", s')
      else Some (scan_digits s)
  | "" => None
  end.

Definition scan_frac (s : string) : option (string * string) :=
  match s with
  | String "." s' =>
      let '(d, r) := scan_digits s' in
      if nonempty d then Some (String "." d, r) else None
  | _ => Some ("", s)
  end.

Definition scan_exp (s : string) : option (string * string) :=
  match s with
  | String c s' =>
      if (byte_of c =? 101) || (byte_of c =? 69) then
        let '(sg, s'') := match s' with
                          | String "+" t => ("+", t)
                          | String "-" t => ("-", t)
                          | _ => ("", s')
                          end in
        let '(d, r) := scan_digits s'' in
        if nonempty d then Some (String c (sg +:+ d), r) else None
      else Some ("", s)
  | "" => Some ("", "")
  end.

Definition scan_number (s : string) : option (string * string) :=
  let '(sg, s0) := match s with String "-" t => ("-", t) | _ => ("", s) end in
  '(i, s1) ← scan_int s0;
  '(f, s2) ← scan_frac s1;
  '(e, s3) ← scan_exp s2;
  Some (sg +:+ i +:+ f +:+ e, s3).

Definition hex_val (c : ascii) : option Z :=
  let n := byte_of c in
  if (48 <=? n) && (n <=? 57) then Some (n - 48)
  else if (97 <=? n) && (n <=? 102) then Some (n - 87)
  else if (65 <=? n) && (n <=? 70) then Some (n - 55)
  else None.

Definition is_hex (c : ascii) : bool := match hex_val c with Some _ => true | None => false end.

Definition is_simple_esc (c : ascii) : bool :=
  let n := byte_of c in
  (n =? 34) || (n =? 92) || (n =? 47) || (n =? 98) || (n =? 102) || (n =? 110) || (n =? 114) || (n =? 116).

(** The raw contents of a string literal up to its closing quote, and the rest. *)
Fixpoint lex_string (s : string) : option (string * string) :=
  match s with
  | "" => None
  | String c s1 =>
      if byte_of c =? 34 then Some ("", s1)
      else if byte_of c =? 92 then
        match s1 with
        | "" => None
        | String e s2 =>
            if is_simple_esc e then
              '(raw, r) ← lex_string s2; Some (String c (String e raw), r)
            else if byte_of e =? 117 then
              match s2 with
              | String h1 (String h2 (String h3 (String h4 s3))) =>
                  if is_hex h1 && is_hex h2 && is_hex h3 && is_hex h4 then
                    '(raw, r) ← lex_string s3;
                    Some (String c (String e (String h1 (String h2 (String h3 (String h4 raw))))), r)
                  else None
              | _ => None
              end
            else None
        end
      else if byte_of c <? 32 then None
      else '(raw, r) ← lex_string s1; Some (String c raw, r)
  end.

(** [utf8.EncodeRune]; an invalid rune encodes as U+FFFD. *)
Definition encode_rune (r : Z) : string :=
  let b := string_of_bytes in
  let r := if (r <? 0) || (1114111 <? r) || ((55296 <=? r) && (r <=? 57343)) then 65533 else r in
  if r <? 128 then b [r]
  else if r <? 2048 then b [Z.lor 192 (Z.shiftr r 6); Z.lor 128 (Z.land r 63)]
  else if r <? 65536 then
    b [Z.lor 224 (Z.shiftr r 12); Z.lor 128 (Z.land (Z.shiftr r 6) 63); Z.lor 128 (Z.land r 63)]
  else b [Z.lor 240 (Z.shiftr r 18); Z.lor 128 (Z.land (Z.shiftr r 12) 63);
          Z.lor 128 (Z.land (Z.shiftr r 6) 63); Z.lor 128 (Z.land r 63)].

(** [getu4]: the four hex digits of a [\uXXXX] escape at the head of [s]. *)
Definition getu4 (s : string) : option (Z * string) :=
  match s with
  | String b (String u t) =>
      if (byte_of b =? 92) && (byte_of u =? 117) then
        match t with
        | String h1 (String h2 (String h3 (String h4 r))) =>
            v1 ← hex_val h1; v2 ← hex_val h2; v3 ← hex_val h3; v4 ← hex_val h4;
            Some (v1 * 4096 + v2 * 256 + v3 * 16 + v4, r)
        | _ => None
        end
      else None
  | _ => None
  end.

Definition is_surrogate (r : Z) : bool := (55296 <=? r) && (r <? 57344).
Definition pair_ok (r1 r2 : Z) : bool :=
  (55296 <=? r1) && (r1 <? 56320) && (56320 <=? r2) && (r2 <? 57344).
Definition pair_rune (r1 r2 : Z) : Z := (r1 - 55296) * 1024 + (r2 - 56320) + 65536.

Definition unescape (e : ascii) : ascii :=
  let n := byte_of e in
  if n =? 98 then chr 8 else if n =? 102 then chr 12 else if n =? 110 then chr 10
  else if n =? 114 then chr 13 else if n =? 116 then chr 9 else e.

(** [unquoteBytes] on the raw contents; [n] bounds the length of [s]. *)
Fixpoint unquote (n : nat) (s : string) : option string :=
  match n with
  | O => match s with "" => Some "" | _ => None end
  | S n' =>
      match s with
      | "" => Some ""
      | String c s1 =>
          if byte_of c =? 92 then
            match getu4 s with
            | Some (r, s2) =>
                if is_surrogate r then
                  match getu4 s2 with
                  | Some (r', s3) =>
                      if pair_ok r r' then
                        t ← unquote n' s3; Some (encode_rune (pair_rune r r') +:+ t)
                      else t ← unquote n' s2; Some (encode_rune 65533 +:+ t)
                  | None => t ← unquote n' s2; Some (encode_rune 65533 +:+ t)
                  end
                else t ← unquote n' s2; Some (encode_rune r +:+ t)
            | None =>
                match s1 with
                | String e s2 => t ← unquote n' s2; Some (String (unescape e) t)
                | "" => None
                end
            end
          else if byte_of c <? 128 then t ← unquote n' s1; Some (String c t)
          else match decode_rune s with
               | Some (_, w) =>
                   t ← unquote n' (String.substring w (String.length s) s);
                   Some (String.substring 0 w s +:+ t)
               | None => t ← unquote n' s1; Some (encode_rune 65533 +:+ t)
               end
      end
  end.

Definition parse_string (s : string) : option (string * string) :=
  '(raw, r) ← lex_string s;
  t ← unquote (String.length raw) raw;
  Some (t, r).

Fixpoint strip_prefix (p s : string) : option string :=
  match p, s with
  | "", _ => Some s
  | String a p', String b s' => if Ascii.eqb a b then strip_prefix p' s' else None
  | _, "" => None
  end.

(** The rest of [s] after optional white space and the byte [k]. *)
Definition eat (k : Z) (s : string) : option string :=
  match skip_ws s with
  | String c s' => if byte_of c =? k then Some s' else None
  | "" => None
  end.

Fixpoint parse_value (n : nat) (s : string) : option (json * string) :=
  match n with
  | O => None
  | S n' =>
      match skip_ws s with
      | "" => None
      | String c s' =>
          let b := byte_of c in
          if b =? 34 then '(t, r) ← parse_string s'; Some (JStr t, r)
          else if b =? 123 then
            match eat 125 s' with
            | Some r => Some (JObj [], r)
            | None => '(ms, r) ← parse_members n' s'; Some (JObj ms, r)
            end
          else if b =? 91 then
            match eat 93 s' with
            | Some r => Some (JArr [], r)
            | None => '(vs, r) ← parse_elems n' s'; Some (JArr vs, r)
            end
          else if b =? 110 then r ← strip_prefix "null" (String c s'); Some (JNull, r)
          else if b =? 116 then r ← strip_prefix "true" (String c s'); Some (JBool true, r)
          else if b =? 102 then r ← strip_prefix "false" (String c s'); Some (JBool false, r)
          else '(lit, r) ← scan_number (String c s'); Some (JNum lit, r)
      end
  end
with parse_elems (n : nat) (s : string) : option (list json * string) :=
  match n with
  | O => None
  | S n' =>
      '(v, r) ← parse_value n' s;
      match eat 44 r with
      | Some r' => '(vs, r'') ← parse_elems n' r'; Some (v :: vs, r'')
      | None => r' ← eat 93 r; Some ([v], r')
      end
  end
with parse_members (n : nat) (s : string) : option (list (string * json) * string) :=
  match n with
  | O => None
  | S n' =>
      s1 ← eat 34 s;
      '(k, r) ← parse_string s1;
      r1 ← eat 58 r;
      '(v, r2) ← parse_value n' r1;
      match eat 44 r2 with
      | Some r3 => '(ms, r4) ← parse_members n' r3; Some ((k, v) :: ms, r4)
      | None => r3 ← eat 125 r2; Some ([(k, v)], r3)
      end
  end.

(** A whole document: one value, then only white space.  The fuel is enough for
    every input: each nested call has consumed a character. *)
Definition parse (s : string) : option json :=
  '(v, r) ← parse_value (2 * String.length s + 2) s;
  match skip_ws r with "" => Some v | _ => None end.

(** A decoder reads one value and leaves what follows. *)
Definition decode_first (s : string) : option json := fst <$> parse_value (2 * String.length s + 2) s.

(** ** [Unmarshal]'s conversions

    Each takes the field's current value; JSON [null] leaves it, a value of the
    wrong type is an error. *)

Definition into_string (cur : string) (v : json) : option string :=
  match v with JStr s => Some s | JNull => Some cur | _ => None end.

(** [strconv.ParseInt(lit, 10, 64)] of a number literal. *)
Definition parse_int64 (lit : string) : option Z :=
  d ← NilZero.int_of_string lit;
  let z := Z.of_int d in
  if (min_int64 <=? z) && (z <=? max_int64) then Some z else None.

Definition into_int64 (cur : Z) (v : json) : option Z :=
  match v with JNum lit => parse_int64 lit | JNull => Some cur | _ => None end.

(** The elements are decoded afresh, also when a member is repeated, where Go decodes
    into the elements of the earlier one. *)
Definition into_list {A} (f : json → option A) (cur : list A) (v : json) : option (list A) :=
  match v with JArr l => mapM f l | JNull => Some [] | _ => None end.

Definition to_upper (c : ascii) : ascii :=
  let n := byte_of c in if (97 <=? n) && (n <=? 122) then chr (n - 32) else c.

(** [foldName], as far as it can make a name equal to an ASCII one: besides the lower-case
    letters, the long s and the Kelvin sign fold into ASCII. *)
Fixpoint str_fold (s : string) : string :=
  match s with
  | "" => ""
  | String "197" (String "191" s') => String "S" (str_fold s')
  | String "226" (String "132" (String "170" s')) => String "K" (str_fold s')
  | String c s' => String (to_upper c) (str_fold s')
  end.

(** An object's members are assigned in order to the struct field with the
    member's name, or failing that to the field whose name differs only in case. *)
Definition field_for (names : list string) (key : string) : option string :=
  match list_find (λ n, n = key) names with
  | Some (_, n) => Some n
  | None => snd <$> list_find (λ n, str_fold n = str_fold key) names
  end.

Definition into_struct {A} (names : list string) (set : string → json → A → option A)
    (cur : A) (v : json) : option A :=
  match v with
  | JObj ms =>
      foldl (λ acc '(k, x),
               a ← acc;
               match field_for names k with Some n => set n x a | None => Some a end)
            (Some cur) ms
  | JNull => Some cur
  | _ => None
  end.

(** ** The round trip *)

Definition ascii_only (s : string) : bool := all_chars (λ c, byte_of c <? 128) s.

Inductive wf : json → Prop :=
| wf_null : wf JNull
| wf_bool b : wf (JBool b)
| wf_num z : wf (JNum (fmt_int z))
| wf_str s : ascii_only s = true → wf (JStr s)
| wf_arr l : Forall wf l → wf (JArr l)
| wf_obj l : Forall (λ kv, ascii_only kv.1 = true ∧ wf kv.2) l → wf (JObj l).

Fixpoint size (v : json) : nat :=
  match v with
  | JArr l => S (sum_list (map (λ v, S (size v)) l))
  | JObj l => S (sum_list (map (λ kv, S (size kv.2)) l))
  | _ => 1
  end.

Section json_ind.
  Context (P : json → Prop).
Hypothesis Hnull : P JNull.
Hypothesis Hbool : ∀ b, P (JBool b).
Hypothesis Hnum : ∀ lit, P (JNum lit).
Hypothesis Hstr : ∀ s, P (JStr s).
Hypothesis Harr : ∀ l, Forall P l → P (JArr l).
Hypothesis Hobj : ∀ l, Forall (λ kv, P kv.2) l → P (JObj l).

Fixpoint json_nested_ind (v : json) : P v :=
    match v with
    | JNull => Hnull
    | JBool b => Hbool b
    | JNum lit => Hnum lit
    | JStr s => Hstr s
    | JArr l =>
        Harr l ((fix go l : Forall P l :=
                   match l with
                   | [] => Forall_nil_2 P
                   | v :: l' => Forall_cons_2 P v l' (json_nested_ind v) (go l')
                   end) l)
    | JObj l =>
        Hobj l ((fix go l : Forall (λ kv, P kv.2) l :=
                   match l with
                   | [] => Forall_nil_2 _
                   | kv :: l' => Forall_cons_2 _ kv l' (json_nested_ind kv.2) (go l')
                   end) l)
    end.
End json_ind.

(** *** Strings *)

Ltac each_ascii c := destruct c as [[] [] [] [] [] [] [] []].

(** The three forms an escape takes. *)
Inductive escape_form (c : ascii) : string → Prop :=
| form_simple e : is_simple_esc e = true → (byte_of e =? 117) = false → unescape e = c →
    escape_form c (esc e)
| form_u : 0 ≤ byte_of c < 128 → escape_form c (u_escape (byte_of c))
| form_plain : (byte_of c =? 34) = false → (byte_of c =? 92) = false → (byte_of c <? 32) = false →
    (byte_of c <? 128) = true → escape_form c (String c "").

Lemma escape_ascii_form c : (byte_of c <? 128) = true → escape_form c (escape_ascii c).
Proof.
  intros Hc. pose proof Hc as Hlt%Z.ltb_lt.
  assert (0 ≤ byte_of c) by apply N2Z.is_nonneg.
  unfold escape_ascii.
  repeat match goal with
  | |- escape_form _ (if ?b =? ?k then _ else _) =>
      destruct (b =? k) eqn:?;
      [apply form_simple; [reflexivity|reflexivity|each_ascii c; (reflexivity || discriminate)]|]
  end.
  destruct (byte_of c <? 32) eqn:?; [by apply form_u|].
  case_match; [by apply form_u|by apply form_plain].
Qed.

Lemma hex_val_digit z : 0 ≤ z < 16 → hex_val (hex_digit z) = Some z.
Proof.
  intros Hz. assert (z ∈ seqZ 0 16) as Hin by (apply elem_of_seqZ; lia).
  clear Hz. revert z Hin. apply Forall_forall. repeat constructor.
Qed.

Lemma nibbles n : 0 ≤ n < 256 →
  0 ≤ Z.land (Z.shiftr n 4) 15 < 16 ∧ 0 ≤ Z.land n 15 < 16 ∧
  Z.land (Z.shiftr n 4) 15 * 16 + Z.land n 15 = n.
Proof.
  intros Hn. change 15 with (Z.ones 4).
  rewrite !Z.land_ones, Z.shiftr_div_pow2 by lia. change (2 ^ 4) with 16.
  pose proof (Z.div_mod n 16). pose proof (Z.mod_pos_bound n 16).
  assert (0 ≤ n / 16 < 16) by (split; [apply Z.div_pos|apply Z.div_lt_upper_bound]; lia).
  rewrite (Z.mod_small (n / 16)) by lia. lia.
Qed.

Lemma lex_escape c t :
  (byte_of c <? 128) = true →
  lex_string (escape_ascii c +:+ t) =
  ('(raw, r) ← lex_string t; Some (escape_ascii c +:+ raw, r)).
Proof.
  intros Hc. destruct (escape_ascii_form c Hc) as [e He Hu Hc'|Hc'|H34 H92 H32 H128].
  - unfold esc. rewrite !str_app_cons, str_app_nil_l. cbn [lex_string].
    change (byte_of backslash =? 34) with false. change (byte_of backslash =? 92) with true.
    cbn iota. by rewrite He.
  - unfold u_escape. rewrite !str_app_cons, str_app_nil_l. cbn [lex_string].
    change (byte_of backslash =? 34) with false. change (byte_of backslash =? 92) with true.
    change (is_simple_esc "u") with false. change (byte_of "u" =? 117) with true. cbn iota.
    destruct (nibbles (byte_of c)) as (?&?&?); [lia|].
    unfold is_hex. rewrite !hex_val_digit by done. done.
  - rewrite str_app_cons, str_app_nil_l. cbn [lex_string]. by rewrite H34, H92, H32.
Qed.

Lemma of_byte_of c : of_byte (byte_of c) = c.
Proof. unfold of_byte, byte_of. by rewrite N2Z.id, ascii_N_embedding. Qed.

Lemma encode_rune_ascii c : 0 ≤ byte_of c < 128 → encode_rune (byte_of c) = String c "".
Proof.
  intros Hc. unfold encode_rune.
  destruct ((byte_of c <? 0) || (1114111 <? byte_of c) ||
            ((55296 <=? byte_of c) && (byte_of c <=? 57343))) eqn:E; [lia|].
  destruct (byte_of c <? 128) eqn:?; [|lia]. cbn. by rewrite of_byte_of.
Qed.

Lemma getu4_escape n t : 0 ≤ n < 256 → getu4 (u_escape n +:+ t) = Some (n, t).
Proof.
  intros Hn. unfold u_escape. rewrite !str_app_cons, str_app_nil_l. cbn [getu4].
  change ((byte_of backslash =? 92) && (byte_of "u" =? 117)) with true. cbn iota.
  change (hex_val "0") with (Some 0).
  destruct (nibbles n) as (?&?&?); [done|].
  rewrite !hex_val_digit by done. cbn. do 2 f_equal. lia.
Qed.

Lemma unquote_escape c t n :
  (byte_of c <? 128) = true →
  unquote (S n) (escape_ascii c +:+ t) = (t' ← unquote n t; Some (String c t')).
Proof.
  intros Hc. destruct (escape_ascii_form c Hc) as [e He Hu Hc'|Hc'|H34 H92 H32 H128].
  - unfold esc. rewrite !str_app_cons, str_app_nil_l. cbn [unquote getu4].
    change (byte_of backslash =? 92) with true. rewrite Hu. cbn. by rewrite Hc'.
  - pose proof (getu4_escape (byte_of c) t) as Hg.
    change (u_escape (byte_of c) +:+ t) with
      (String backslash (String "u" (String "0" (String "0"
         (String (hex_digit (Z.land (Z.shiftr (byte_of c) 4) 15))
           (String (hex_digit (Z.land (byte_of c) 15)) t)))))) in *.
    cbn [unquote]. change (byte_of backslash =? 92) with true. cbn iota.
    rewrite Hg by lia.
    destruct (is_surrogate (byte_of c)) eqn:E; [unfold is_surrogate in E; lia|].
    by rewrite encode_rune_ascii.
  - rewrite str_app_cons, str_app_nil_l. cbn [unquote]. by rewrite H92, H128.
Qed.

Lemma quote_body_cons c s :
  (byte_of c <? 128) = true →
  quote_body Head (String c s) = escape_ascii c +:+ quote_body Head s.
Proof. intros Hc. cbn [quote_body]. by rewrite Hc. Qed.

Lemma length_escape c : (1 ≤ String.length (escape_ascii c))%nat.
Proof. unfold escape_ascii. repeat case_match; cbn; lia. Qed.

Lemma lex_quote_body s r :
  ascii_only s = true →
  lex_string (quote_body Head s +:+ String dquote r) = Some (quote_body Head s, r).
Proof.
  induction s as [|c s IH]; intros Hs; [done|].
  cbn in Hs. apply andb_true_iff in Hs as [Hc Hs].
  rewrite quote_body_cons, str_app_assoc, lex_escape, IH by done. done.
Qed.

Lemma unquote_quote_body s n :
  ascii_only s = true → (String.length (quote_body Head s) ≤ n)%nat →
  unquote n (quote_body Head s) = Some s.
Proof.
  revert n. induction s as [|c s IH]; intros n Hs Hn; [by destruct n|].
  cbn in Hs. apply andb_true_iff in Hs as [Hc Hs].
  rewrite quote_body_cons in * by done. rewrite str_length_app in Hn.
  pose proof (length_escape c). destruct n as [|n]; [lia|].
  rewrite unquote_escape, IH by (done || lia). done.
Qed.

Lemma parse_string_quote s r :
  ascii_only s = true →
  parse_string (quote_body Head s +:+ String dquote r) = Some (s, r).
Proof.
  intros Hs. unfold parse_string. rewrite lex_quote_body by done. cbn.
  by rewrite unquote_quote_body.
Qed.
(** *** Numbers *)

(** What follows a value inside a rendered document. *)
Definition delim (s : string) : bool :=
  match s with
  | "" => true
  | String c _ => let n := byte_of c in (n =? 44) || (n =? 93) || (n =? 125) || (n =? 58)
  end.

Lemma scan_digits_uint d r :
  delim r = true →
  scan_digits (NilEmpty.string_of_uint d +:+ r) = (NilEmpty.string_of_uint d, r).
Proof.
  intros Hr. induction d; cbn [NilEmpty.string_of_uint];
    rewrite ?str_app_cons, ?str_app_nil_l; cbn [scan_digits];
    [|by change (is_digit _) with true; cbn iota; rewrite IHd..].
  destruct r as [|c r]; [done|]. cbn [scan_digits].
  destruct (is_digit c) eqn:E; [|done].
  unfold is_digit in E. unfold delim in Hr. lia.
Qed.

Lemma pos_to_uint_head p d : Pos.to_uint p ≠ Decimal.D0 d.
Proof.
  intros Hd.
  pose proof (DecimalPos.Unsigned.to_of (Pos.to_uint p)) as Hn.
  rewrite DecimalPos.Unsigned.of_to in Hn. cbn in Hn.
  unfold Decimal.unorm in Hn.
  destruct (Decimal.nzhead (Pos.to_uint p)) eqn:E;
    [by apply DecimalPos.Unsigned.to_uint_nonzero in Hn|by apply nzhead_nonzero in E|congruence..].
Qed.

Lemma scan_rest r : delim r = true → scan_frac r = Some ("", r) ∧ scan_exp r = Some ("", r).
Proof.
  destruct r as [|c r]; [done|]. intros Hd. unfold delim in Hd. split.
  - cbn [scan_frac]. each_ascii c; first [reflexivity|discriminate Hd].
  - cbn [scan_exp]. destruct ((byte_of c =? 101) || (byte_of c =? 69)) eqn:E; [lia|done].
Qed.

Lemma scan_int_pos p r :
  delim r = true →
  scan_int (NilEmpty.string_of_uint (Pos.to_uint p) +:+ r) =
  Some (NilEmpty.string_of_uint (Pos.to_uint p), r).
Proof.
  intros Hr. pose proof (scan_digits_uint (Pos.to_uint p) r Hr) as Hs.
  destruct (Pos.to_uint p) as [|d|d|d|d|d|d|d|d|d|d] eqn:E;
    [by apply DecimalPos.Unsigned.to_uint_nonnil in E
    |by apply pos_to_uint_head in E|..];
    cbn [NilEmpty.string_of_uint] in *; rewrite str_app_cons in *;
    unfold scan_int; rewrite Hs; reflexivity.
Qed.

Lemma fmt_int_cases z :
  fmt_int z = "0" ∨
  (∃ p, fmt_int z = NilEmpty.string_of_uint (Pos.to_uint p)) ∨
  (∃ p, fmt_int z = String "-" (NilEmpty.string_of_uint (Pos.to_uint p))).
Proof.
  unfold fmt_int. destruct z as [|p|p]; [by left|right; left|right; right]; exists p; cbn;
    unfold NilZero.string_of_uint; destruct (Pos.to_uint p) eqn:E; try done;
    by apply DecimalPos.Unsigned.to_uint_nonnil in E.
Qed.

Lemma pos_to_uint_str p :
  ∃ c s, NilEmpty.string_of_uint (Pos.to_uint p) = String c s ∧ is_digit c = true.
Proof.
  destruct (Pos.to_uint p) eqn:E; [by apply DecimalPos.Unsigned.to_uint_nonnil in E|..];
    eexists _, _; split; reflexivity.
Qed.

#[local] Arguments scan_frac : simpl never.
#[local] Arguments scan_exp : simpl never.

Lemma scan_number_fmt_int z r :
  delim r = true → scan_number (fmt_int z +:+ r) = Some (fmt_int z, r).
Proof.
  intros Hr. destruct (scan_rest r Hr) as [Hf He].
  unfold scan_number.
  destruct (fmt_int_cases z) as [->|[[p ->]|[p ->]]].
  - rewrite str_app_cons, str_app_nil_l. cbn beta iota.
    change (scan_int (String "0" r)) with (Some ("0", r)).
    cbn. rewrite Hf. cbn. rewrite He. done.
  - pose proof (scan_int_pos p r Hr) as Hi.
    destruct (pos_to_uint_str p) as (c & s & Hs & Hc). rewrite Hs in *.
    rewrite str_app_cons in *.
    assert (byte_of c ≠ 45) by (unfold is_digit in Hc; lia).
    replace (match String c (s +:+ r) with String "-" t => ("-", t) | _ => ("", String c (s +:+ r)) end)
      with ("", String c (s +:+ r)) by (each_ascii c; (reflexivity || discriminate Hc)).
    cbn beta iota. rewrite Hi. cbn. rewrite Hf. cbn. rewrite He. cbn.
    by rewrite str_app_nil_l, !str_app_nil_r.
  - rewrite str_app_cons. cbn beta iota. rewrite scan_int_pos by done.
    cbn. rewrite Hf. cbn. rewrite He. cbn. by rewrite !str_app_nil_r.
Qed.

Lemma parse_int64_fmt_int z : is_int64 z → parse_int64 (fmt_int z) = Some z.
Proof.
  intros Hz. unfold parse_int64, fmt_int.
  assert (NilZero.int_of_string (NilZero.string_of_int (Z.to_int z)) = Some (Z.to_int z)) as ->.
  { apply NilZero.isi; destruct z; cbn; try done;
      intros [=Hn]; by apply DecimalPos.Unsigned.to_uint_nonnil in Hn. }
  cbn. rewrite DecimalZ.of_to. unfold is_int64 in Hz.
  destruct (min_int64 <=? z) eqn:?, (z <=? max_int64) eqn:?; try done; lia.
Qed.
(** *** Values *)

Definition parses (v : json) : Prop :=
  ∀ n r, (size v ≤ n)%nat → delim r = true → parse_value n (render v +:+ r) = Some (v, r).

Lemma eat_hit k c s : byte_of c = k → is_ws c = false → eat k (String c s) = Some s.
Proof. intros <- Hw. unfold eat. cbn [skip_ws]. by rewrite Hw, Z.eqb_refl. Qed.

Lemma eat_miss k c s : byte_of c ≠ k → is_ws c = false → eat k (String c s) = None.
Proof.
  intros Hk Hw. unfold eat. cbn [skip_ws]. rewrite Hw.
  destruct (Z.eqb_spec (byte_of c) k); [done|done].
Qed.

(** The head of a rendered value is neither white space nor a closing bracket. *)
Lemma render_head v : wf v →
  ∃ c s, render v = String c s ∧ is_ws c = false ∧ byte_of c ≠ 93 ∧ byte_of c ≠ 125.
Proof.
  intros Hv. destruct Hv as [|b|z|s Hs|l Hl|l Hl];
    try (eexists _, _; split; [reflexivity|done]).
  - destruct b; eexists _, _; (split; [reflexivity|done]).
  - cbn [render]. destruct (fmt_int_cases z) as [->|[[p ->]|[p ->]]];
      [eexists _, _; split; [reflexivity|done]| |eexists _, _; split; [reflexivity|done]].
    destruct (pos_to_uint_str p) as (c & s & -> & Hc). exists c, s.
    unfold is_digit in Hc. unfold is_ws. repeat split; lia.
Qed.

Lemma parses_num z : parses (JNum (fmt_int z)).
Proof.
  intros n r Hn Hr. destruct n as [|n]; [cbn in Hn; lia|].
  pose proof (scan_number_fmt_int z r Hr) as Hs. cbn [render].
  assert (∃ c s, fmt_int z = String c s ∧ (is_digit c = true ∨ byte_of c = 45)) as (c & s & Hc & Hd).
  { destruct (fmt_int_cases z) as [->|[[p ->]|[p ->]]]; [naive_solver| |naive_solver].
    destruct (pos_to_uint_str p) as (c & s & -> & Hc). eauto 10. }
  rewrite Hc, str_app_cons in *. cbn [parse_value skip_ws].
  assert (is_ws c = false) as -> by (unfold is_ws, is_digit in *; lia).
  destruct (byte_of c =? 34) eqn:?, (byte_of c =? 123) eqn:?, (byte_of c =? 91) eqn:?,
    (byte_of c =? 110) eqn:?, (byte_of c =? 116) eqn:?, (byte_of c =? 102) eqn:?;
    try (unfold is_digit in *; lia).
  by rewrite Hs.
Qed.

Lemma quote_app s r : quote s +:+ r = String dquote (quote_body Head s +:+ String dquote r).
Proof. unfold quote. by rewrite str_app_cons, str_app_assoc. Qed.

Lemma parses_str s : ascii_only s = true → parses (JStr s).
Proof.
  intros Hs n r Hn Hr. destruct n as [|n]; [cbn in Hn; lia|].
  cbn [render]. rewrite quote_app. cbn [parse_value skip_ws].
  change (is_ws dquote) with false. change (byte_of dquote =? 34) with true. cbn iota.
  by rewrite parse_string_quote.
Qed.

Lemma commas_cons x y l : commas (x :: y :: l) = x +:+ "," +:+ commas (y :: l).
Proof. done. Qed.

Lemma parse_elems_render l : l ≠ [] → Forall parses l → ∀ n r,
  (sum_list (map (λ v, S (size v)) l) ≤ n)%nat →
  parse_elems n (commas (map render l) +:+ String "]" r) = Some (l, r).
Proof.
  intros Hne Hl. induction Hl as [|v l Hv Hl IH]; [done|]. intros n r Hn.
  destruct n as [|n]; [cbn in Hn; lia|]. cbn in Hn.
  destruct l as [|w l].
  - cbn [map commas parse_elems]. rewrite Hv by (done || lia).
    cbn. rewrite eat_miss, eat_hit by done. done.
  - cbn [map]. rewrite commas_cons, !str_app_assoc, str_app_cons, str_app_nil_l.
    cbn [parse_elems]. rewrite Hv by (done || lia). cbn.
    rewrite eat_hit by done. change (render w :: map render l) with (map render (w :: l)).
    rewrite IH by (done || (cbn in *; lia)). done.
Qed.

Lemma parse_members_render l :
  l ≠ [] → Forall (λ kv, ascii_only kv.1 = true ∧ parses kv.2) l → ∀ n r,
  (sum_list (map (λ kv, S (size kv.2)) l) ≤ n)%nat →
  parse_members n (commas (map (λ '(k, v), quote k +:+ ":" +:+ render v) l) +:+ String "}" r) =
  Some (l, r).
Proof.
  intros Hne Hl. induction Hl as [|[k v] l [Hk Hv] Hl IH]; [done|]. intros n r Hn.
  cbn [fst snd] in *. destruct n as [|n]; [cbn in Hn; lia|]. cbn in Hn.
  destruct l as [|w l].
  - cbn [map commas parse_members].
    rewrite !str_app_assoc, quote_app, str_app_cons, str_app_nil_l.
    rewrite eat_hit by done. cbn. rewrite parse_string_quote by done. cbn.
    rewrite eat_hit by done. cbn. rewrite Hv by (done || lia). cbn.
    rewrite eat_miss, eat_hit by done. done.
  - specialize (IH ltac:(done)).
    cbn [map] in *. set (tl := commas (_ :: map _ l)) in *.
    change (commas (_ :: _ :: map _ l)) with ((quote k +:+ ":" +:+ render v) +:+ "," +:+ tl).
    rewrite !str_app_assoc, quote_app, !str_app_cons, !str_app_nil_l.
    cbn [parse_members].
    rewrite eat_hit by done. cbn. rewrite parse_string_quote by done. cbn.
    rewrite eat_hit by done. cbn. rewrite Hv by (done || lia). cbn.
    rewrite eat_hit by done. cbn. rewrite IH by lia. done.
Qed.

Lemma parses_arr l : Forall (λ v, wf v ∧ parses v) l → parses (JArr l).
Proof.
  intros Hp [|n] r Hn Hr; [cbn in Hn; lia|].
  cbn [render]. rewrite !str_app_assoc, (str_app_cons "["), (str_app_cons "]"), !str_app_nil_l.
  cbn [parse_value skip_ws].
  change (is_ws "[") with false. change (byte_of "[") with 91. cbn -[eat parse_elems].
  destruct l as [|v l]; [done|].
  assert (eat 93 (commas (map render (v :: l)) +:+ String "]" r) = None) as ->.
  { apply Forall_cons in Hp as [[Hv _] _].
    destruct (render_head v Hv) as (c & s & Hs & ? & ? & ?).
    destruct l; cbn [map]; rewrite ?commas_cons; cbn [commas];
      rewrite Hs, !str_app_cons; by apply eat_miss. }
  rewrite parse_elems_render; [done|done| |cbn in *; lia].
  eapply Forall_impl; [exact Hp|naive_solver].
Qed.

Lemma parses_obj l :
  Forall (λ kv, ascii_only kv.1 = true ∧ parses kv.2) l → parses (JObj l).
Proof.
  intros Hp [|n] r Hn Hr; [cbn in Hn; lia|].
  cbn [render]. rewrite !str_app_assoc, (str_app_cons "{"), (str_app_cons "}"), !str_app_nil_l.
  cbn [parse_value skip_ws].
  change (is_ws "{") with false. change (byte_of "{") with 123. cbn -[eat parse_members].
  destruct l as [|[k v] l]; [done|].
  set (f := λ '(k, v), quote k +:+ ":" +:+ render v).
  assert (eat 125 (commas (map f ((k, v) :: l)) +:+ String "}" r) = None) as ->.
  { destruct l; cbn [map]; rewrite ?commas_cons; cbn [commas]; unfold f;
      rewrite !str_app_assoc, quote_app; by apply eat_miss. }
  rewrite parse_members_render; [done|done|done|cbn in *; lia].
Qed.

Lemma parses_wf v : wf v → parses v.
Proof.
  induction v as [|b|lit|s|l IH|l IH] using json_nested_ind; intros Hv.
  - intros [|n] r Hn Hr; [cbn in Hn; lia|]. done.
  - intros [|n] r Hn Hr; [cbn in Hn; lia|]. by destruct b.
  - inversion Hv; subst. apply parses_num.
  - inversion Hv; subst. by apply parses_str.
  - apply parses_arr. inversion Hv as [| | | |l' Hl|]; subst.
    rewrite Forall_forall in IH, Hl |- *. naive_solver.
  - apply parses_obj. inversion Hv as [| | | | |l' Hl]; subst.
    rewrite Forall_forall in IH, Hl |- *. naive_solver.
Qed.

Lemma size_render v : wf v → (1 ≤ String.length (render v) ∧ size v ≤ 2 * String.length (render v))%nat.
Proof.
  induction v as [|b|lit|s|l IH|l IH] using json_nested_ind; intros Hv.
  - cbn. lia.
  - destruct b; cbn; lia.
  - destruct (render_head _ Hv) as (c & s & Hs & _). rewrite Hs. cbn. lia.
  - cbn. lia.
  - inversion Hv as [| | | |l' Hl|]; subst. cbn [render size].
    rewrite !str_length_app. split; [cbn; lia|].
    enough (sum_list (map (λ v, S (size v)) l) ≤ 1 + 2 * String.length (commas (map render l)))%nat
      by (cbn; lia).
    clear Hv. induction l as [|v l IHl]; [cbn; lia|].
    apply Forall_cons in IH as [IHv IH]. apply Forall_cons in Hl as [Hlv Hl].
    specialize (IHl IH Hl). specialize (IHv Hlv).
    destruct l as [|w l]; [cbn in *; lia|].
    cbn [map]. rewrite commas_cons, !str_length_app. cbn in *. lia.
  - inversion Hv as [| | | | |l' Hl]; subst. cbn [render size].
    rewrite !str_length_app. split; [cbn; lia|].
    set (f := λ '(k, v), quote k +:+ ":" +:+ render v).
    enough (sum_list (map (λ kv, S (size kv.2)) l) ≤ 1 + 2 * String.length (commas (map f l)))%nat
      by (cbn; lia).
    clear Hv. induction l as [|[k v] l IHl]; [cbn; lia|].
    apply Forall_cons in IH as [IHv IH]. apply Forall_cons in Hl as [[_ Hlv] Hl].
    specialize (IHl IH Hl). specialize (IHv Hlv). cbn [fst snd] in *.
    assert (String.length (f (k, v)) = String.length (quote k) + 1 + String.length (render v))%nat
      by (unfold f; rewrite !str_length_app; cbn; lia).
    destruct l as [|w l]; [cbn [map commas sum_list]; cbn [snd sum_list_with] in *; cbn in *; lia|].
    cbn [map]. rewrite commas_cons, !str_length_app. cbn in *. lia.
Qed.

(** Parsing what was printed gives the printed value back. *)
Lemma parse_render v : wf v → parse (render v) = Some v.
Proof.
  intros Hv. unfold parse. destruct (size_render v Hv).
  rewrite <- (str_app_nil_r (render v)) at 2.
  rewrite (parses_wf v Hv) by (done || lia). done.
Qed.
(** ** Decoding what was printed *)

(** Field names and comparisons of closed strings. *)
Ltac closed_fields :=
  repeat match goal with
  | |- context [field_for ?l ?k] =>
      let v := eval vm_compute in (field_for l k) in change (field_for l k) with v
  | |- context [@bool_decide (?a = ?b) ?d] =>
      let v := eval vm_compute in (@bool_decide (a = b) d) in
      match v with true => idtac | false => idtac end;
      change (@bool_decide (a = b) d) with v
  end.

Lemma into_int64_fmt cur z : is_int64 z → into_int64 cur (JNum (fmt_int z)) = Some z.
Proof. apply parse_int64_fmt_int. Qed.

Lemma into_list_map {A B} (f : json → option A) (g : B → json) (h : B → A) cur l :
  Forall (λ x, f (g x) = Some (h x)) l → into_list f cur (JArr (map g l)) = Some (map h l).
Proof.
  intros Hl. cbn. induction Hl as [|x l Hx Hl IH]; [done|].
  cbn [map mapM]. rewrite Hx. cbn. by rewrite IH.
Qed.

End Json.
