(* ===== verification/Base64.v ===== *)
(** * encoding/base64: the unpadded URL alphabet

    [RawURLEncoding], with which tokens and keys are written, and its round trip. *)

From Stdlib Require Import Ascii.
From S2P Require Import Prelude Sha256 Json.
Import Sha256 Json.

Module Base64.

Definition alphabet : string := "ABCDEFGHIJKLMNOPQRSTUVWXYZabcdefghijklmnopqrstuvwxyz0123456789-_".

Definition digit (z : Z) : ascii := default "000"%char (String.get (Z.to_nat z) alphabet).

Definition value (c : ascii) : option Z :=
  let n := byte_of c in
  if (65 <=? n) && (n <=? 90) then Some (n - 65)
  else if (97 <=? n) && (n <=? 122) then Some (n - 71)
  else if (48 <=? n) && (n <=? 57) then Some (n + 4)
  else if n =? 45 then Some 62
  else if n =? 95 then Some 63
  else None.

(** Three bytes are four digits of six bits; a last group of one or two bytes is padded
    with zero bits. *)
Fixpoint encode (l : list Z) : list Z :=
  match l with
  | [] => []
  | [a] => [a / 4; a mod 4 * 16]
  | [a; b] => [a / 4; a mod 4 * 16 + b / 16; b mod 16 * 4]
  | a :: b :: c :: l' => a / 4 :: a mod 4 * 16 + b / 16 :: b mod 16 * 4 + c / 64 :: c mod 64 :: encode l'
  end.

(** The bits after the last whole byte are not looked at. *)
Fixpoint decode (l : list Z) : option (list Z) :=
  match l with
  | [] => Some []
  | [_] => None
  | [a; b] => Some [a * 4 + b / 16]
  | [a; b; c] => Some [a * 4 + b / 16; b mod 16 * 16 + c / 4]
  | a :: b :: c :: d :: l' =>
      rest ← decode l'; Some (a * 4 + b / 16 :: b mod 16 * 16 + c / 4 :: c mod 4 * 64 + d :: rest)
  end.

Definition EncodeToString (s : string) : string := String.string_of_list_ascii (digit <$> encode (bytes_of s)).

(** Line breaks are skipped. *)
Definition is_break (c : ascii) : bool := (byte_of c =? 10) || (byte_of c =? 13).

Definition DecodeString (s : string) : option string :=
  ds ← mapM value (filter (λ c, is_break c = false) (String.list_ascii_of_string s));
  string_of_bytes <$> decode ds.

(** ** What is encoded decodes to itself *)

Lemma byte_of_range c : 0 ≤ byte_of c < 256.
Proof. unfold byte_of. pose proof (N_ascii_bounded c). lia. Qed.

Lemma bytes_of_range s : Forall (λ z, 0 ≤ z < 256) (bytes_of s).
Proof. induction s; constructor; [apply byte_of_range|done]. Qed.

Lemma string_of_bytes_of s : string_of_bytes (bytes_of s) = s.
Proof. induction s as [|c s IH]; [done|]. simpl. by rewrite of_byte_of, IH. Qed.

(** Quotients and remainders by constants. *)
Ltac div_lia := Z.div_mod_to_equations; lia.

Lemma decode_encode n l :
  (length l ≤ n)%nat → Forall (λ z, 0 ≤ z < 256) l →
  decode (encode l) = Some l ∧ Forall (λ z, 0 ≤ z < 64) (encode l).
Proof.
  revert l. induction n as [|n IH]; intros [|a [|b [|c l]]] Hlen Hl; simpl in Hlen; try lia;
    try (split; [done|constructor]).
  - apply Forall_cons in Hl as [Ha _]. cbn [encode decode]. split.
    + do 2 f_equal. div_lia.
    + repeat constructor; div_lia.
  - rewrite !Forall_cons in Hl. destruct Hl as (Ha & Hb & _). cbn [encode decode]. split.
    + do 2 f_equal; [div_lia|f_equal; div_lia].
    + repeat constructor; div_lia.
  - rewrite !Forall_cons in Hl. destruct Hl as (Ha & Hb & Hc & Hl). cbn [encode decode].
    destruct (IH l) as [Hd Hf]; [lia|done|]. rewrite Hd. split.
    + simpl. do 2 f_equal; [div_lia|]. f_equal; [div_lia|]. f_equal. div_lia.
    + repeat constructor; (done || div_lia).
Qed.

Lemma digit_value z : 0 ≤ z < 64 → value (digit z) = Some z ∧ is_break (digit z) = false.
Proof.
  intros Hz. assert (Forall (λ z, value (digit z) = Some z ∧ is_break (digit z) = false)
    (seqZ 0 64)) as H by by_eval.
  rewrite Forall_forall in H. apply H. apply elem_of_seqZ. lia.
Qed.

Lemma base64_roundtrip s : DecodeString (EncodeToString s) = Some s.
Proof.
  unfold DecodeString, EncodeToString. rewrite String.list_ascii_of_string_of_list_ascii.
  destruct (decode_encode (length (bytes_of s)) (bytes_of s)) as [Hd Hf]; [lia|apply bytes_of_range|].
  assert (filter (λ c, is_break c = false) (digit <$> encode (bytes_of s)) =
    digit <$> encode (bytes_of s)) as ->.
  { clear -Hf. induction Hf as [|z l Hz Hl IH]; [done|]. rewrite fmap_cons, filter_cons_True; [by f_equal|].
    by apply digit_value. }
  assert (mapM value (digit <$> encode (bytes_of s)) = Some (encode (bytes_of s))) as ->.
  { clear -Hf. induction Hf as [|z l Hz Hl IH]; [done|]. rewrite fmap_cons. simpl.
    destruct (digit_value z Hz) as [-> _]. simpl. by rewrite IH. }
  simpl. rewrite Hd. simpl. by rewrite string_of_bytes_of.
Qed.

Lemma base64_ascii s : ascii_only (EncodeToString s) = true.
Proof.
  unfold EncodeToString. destruct (decode_encode (length (bytes_of s)) (bytes_of s)) as [_ Hf];
    [lia|apply bytes_of_range|].
  induction Hf as [|z l Hz Hl IH]; [done|]. rewrite fmap_cons. unfold ascii_only in *.
  cbn [String.string_of_list_ascii all_chars]. rewrite IH, andb_true_r.
  assert (Forall (λ z, (byte_of (digit z) <? 128) = true) (seqZ 0 64)) as H by by_eval.
  rewrite Forall_forall in H. apply H. apply elem_of_seqZ. lia.
Qed.

End Base64.
