(* ===== verification/GoTime.v ===== *)
(** * Go's [time] package: the calendar

    A [time.Time] is a number of nanoseconds since January 1, year 1, UTC.  Its date
    in the proleptic Gregorian calendar, the start of its month, and its
    [time.RFC3339Nano] form in UTC. *)

From Stdlib Require Import Ascii.
From S2P Require Import Prelude Json.

Module GoTime.

Definition day : Z := 24 * hour.

(** Year, month and day of the day number [d] (0 is January 1, year 1).  Years are
    counted from March, in eras of 400 years. *)
Definition civil_of_days (d : Z) : Z * Z * Z :=
  let z := d + 306 in
  let era := z / 146097 in
  let doe := z mod 146097 in
  let yoe := (doe - doe / 1460 + doe / 36524 - doe / 146096) / 365 in
  let doy := doe - (365 * yoe + yoe / 4 - yoe / 100) in
  let mp := (5 * doy + 2) / 153 in
  let dd := doy - (153 * mp + 2) / 5 + 1 in
  let m := if mp <? 10 then mp + 3 else mp - 9 in
  (yoe + era * 400 + (if m <=? 2 then 1 else 0), m, dd).

Definition days_of_civil (y m d : Z) : Z :=
  let y := if m <=? 2 then y - 1 else y in
  let era := y / 400 in
  let yoe := y mod 400 in
  let doy := (153 * (if 2 <? m then m - 3 else m + 9) + 2) / 5 + d - 1 in
  let doe := yoe * 365 + yoe / 4 - yoe / 100 + doy in
  era * 146097 + doe - 306.

(** [time.Date(t.Year(), t.Month(), 1, 0, 0, 0, 0, time.UTC)]. *)
Definition month_start (t : Z) : Z :=
  let '(y, m, _) := civil_of_days (t / day) in days_of_civil y m 1 * day.

(** Decimal digits, padded with zeros to the width. *)
Fixpoint zeros (n : nat) : string := match n with O => "" | S n' => String "0"%char (zeros n') end.

Definition pad (w : nat) (z : Z) : string :=
  let s := Json.fmt_int (Z.abs z) in
  (if z <? 0 then "-" else "") +:+ zeros (w - String.length s) +:+ s.

Fixpoint trim_zeros (s : string) : string :=
  match s with
  | "" => ""
  | String c s' =>
      match trim_zeros s' with
      | "" => if bool_decide (c = "0"%char) then "" else String c ""
      | t => String c t
      end
  end.

Definition RFC3339Nano (t : Z) : string :=
  let '(y, m, d) := civil_of_days (t / day) in
  let tod := t mod day in
  let nanos := tod mod second in
  pad 4 y +:+ "-" +:+ pad 2 m +:+ "-" +:+ pad 2 d +:+ "T" +:+
  pad 2 (tod / hour) +:+ ":" +:+ pad 2 (tod mod hour / minute) +:+ ":" +:+
  pad 2 (tod mod minute / second) +:+
  (if nanos =? 0 then "" else "." +:+ trim_zeros (pad 9 nanos)) +:+ "Z".

Example rfc3339_example :
  RFC3339Nano (days_of_civil 2024 2 29 * day + 13 * hour + 5 * second + 120000000) =
  "2024-02-29T13:00:05.12Z".
Proof. vm_compute. reflexivity. Qed.

(** ** The calendar is a bijection *)

(** The year of the era and the day of the year of a day of the era. *)
Lemma yoe_bounds doe :
  0 ≤ doe < 146097 →
  let yoe := (doe - doe / 1460 + doe / 36524 - doe / 146096) / 365 in
  0 ≤ yoe ≤ 399 ∧ 0 ≤ doe - (365 * yoe + yoe / 4 - yoe / 100) ≤ 365.
Proof.
  intros H yoe.
  assert (0 ≤ doe / 146096 ≤ 1) by (split; [apply Z.div_pos|apply Z.div_le_upper_bound]; lia).
  assert (0 ≤ doe / 36524 ≤ 4) by (split; [apply Z.div_pos|apply Z.div_le_upper_bound]; lia).
  subst yoe. split; Z.div_mod_to_equations; lia.
Qed.

Lemma civil_roundtrip d :
  let '(y, m, dd) := civil_of_days d in
  days_of_civil y m dd = d ∧ 1 ≤ m ≤ 12 ∧ 1 ≤ dd ≤ 31 ∧ days_of_civil y m 1 = d - (dd - 1).
Proof.
  unfold civil_of_days.
  pose proof (Z.mod_pos_bound (d + 306) 146097 ltac:(lia)) as Hdoe.
  assert (d + 306 = (d + 306) / 146097 * 146097 + (d + 306) mod 146097) as Hd
    by (pose proof (Z.div_mod (d + 306) 146097); lia).
  generalize dependent ((d + 306) / 146097). generalize dependent ((d + 306) mod 146097).
  intros doe Hdoe era Hd. pose proof (yoe_bounds doe Hdoe) as Hy. simpl in Hy.
  generalize dependent ((doe - doe / 1460 + doe / 36524 - doe / 146096) / 365).
  intros yoe [Hyoe Hdoy].
  remember (doe - (365 * yoe + yoe / 4 - yoe / 100)) as doy eqn:Edoy.
  assert (0 ≤ (5 * doy + 2) / 153 ≤ 11) as Hmp by (Z.div_mod_to_equations; lia).
  assert (1 ≤ doy - (153 * ((5 * doy + 2) / 153) + 2) / 5 + 1 ≤ 31) as Hdd by (Z.div_mod_to_equations; lia).
  assert (∀ y, y = yoe + era * 400 → y / 400 = era ∧ y mod 400 = yoe) as Hera.
  { intros y ->. rewrite Z.div_add, Z.mod_add, Z.div_small, Z.mod_small by lia. done. }
  unfold days_of_civil. destruct (Z.ltb_spec ((5 * doy + 2) / 153) 10).
  - destruct (Z.leb_spec ((5 * doy + 2) / 153 + 3) 2); [lia|].
    destruct (Z.ltb_spec 2 ((5 * doy + 2) / 153 + 3)); [|lia].
    destruct (Hera (yoe + era * 400 + 0)) as [-> ->]; [lia|].
    replace ((5 * doy + 2) / 153 + 3 - 3) with ((5 * doy + 2) / 153) by lia. lia.
  - destruct (Z.leb_spec ((5 * doy + 2) / 153 - 9) 2); [|lia].
    destruct (Z.ltb_spec 2 ((5 * doy + 2) / 153 - 9)); [lia|].
    destruct (Hera (yoe + era * 400 + 1 - 1)) as [-> ->]; [lia|].
    replace ((5 * doy + 2) / 153 - 9 + 9) with ((5 * doy + 2) / 153) by lia. lia.
Qed.

(** A month starts on or before each of its times, and less than 31 days before. *)
Lemma month_start_bounds t : month_start t ≤ t < month_start t + 31 * day.
Proof.
  unfold month_start. pose proof (civil_roundtrip (t / day)) as Hr.
  destruct (civil_of_days (t / day)) as [[y m] dd]. destruct Hr as (_ & _ & Hd & ->).
  pose proof (Z.div_mod t day). pose proof (Z.mod_pos_bound t day). unfold day, hour, minute, second in *. lia.
Qed.

End GoTime.
