(* ===== verification/Manifest.v ===== *)
(** * internal/cas: digests, chunk references and the snapshot manifest

    The data of chunk.go and manifest.go, the canonical encoding that a
    snapshot's identity is the SHA-256 of, and decodeManifest, which reads it
    back.  The byte format is proved to be the compact JSON rendering of a value,
    which makes the round trip a corollary of the JSON one. *)

From Stdlib Require Import Ascii.
From S2P Require Import Prelude Sha256 Json.
Import Sha256 Json.

Module Manifest.

(** ** Digests (chunk.go) *)

Abbreviation Digest := string.

Definition ChunkSize : Z := Z.shiftl 4 20.

(** [^[a-f0-9]{64}$] *)
Definition valid_digest (d : Digest) : bool :=
  (String.length d =? 64)%nat && all_chars is_hex_char d.

Definition digestBytes (b : string) : Digest := EncodeToString (Sum256 b).

Lemma digestBytes_valid b : valid_digest (digestBytes b) = true.
Proof.
  unfold valid_digest, digestBytes. rewrite length_hex_Sum256. apply hex_of_bytes_is_hex.
Qed.

Record ChunkRef := { cr_Digest : Digest; cr_Size : Z }.

#[global] Instance ChunkRef_eq_dec : EqDecision ChunkRef.
Proof. solve_decision. Defined.

(** ** The manifest (manifest.go) *)

Record FileEntry := { fe_Name : string; fe_Size : Z; fe_Chunks : list ChunkRef }.

Definition CurrentSnapshotFormatVersion : Z := 1.
Definition CurrentGuestProtocolVersion : Z := 1.

Record HotPageSet := { hp_PageSizeBytes : Z; hp_File : string; hp_Offsets : list Z }.

(** The receiver may be nil. *)
Definition isEmpty (h : option HotPageSet) : bool :=
  match h with
  | None => true
  | Some h => match hp_Offsets h with [] => true | _ => false end
  end.

Record Manifest := {
  m_Files : list FileEntry;
  m_VMMVersion : string;
  m_CreatedUnix : Z;
  m_SnapshotFormatVersion : Z;
  m_CPUModel : string;
  m_KernelVersion : string;
  m_ConfigHash : string;
  m_HotPages : option HotPageSet;
  m_HugePages : string;
  m_GuestProtocolVersion : Z;
}.

Record Metadata := {
  md_SnapshotFormatVersion : Z;
  md_VMMVersion : string;
  md_CPUModel : string;
  md_KernelVersion : string;
  md_ConfigHash : string;
  md_CreatedUnix : Z;
  md_HotPages : option HotPageSet;
  md_HugePages : string;
  md_GuestProtocolVersion : Z;
}.

Definition manifestFrom (entries : list FileEntry) (meta : Metadata) : Manifest := {|
  m_Files := entries;
  m_VMMVersion := md_VMMVersion meta;
  m_CreatedUnix := md_CreatedUnix meta;
  m_SnapshotFormatVersion := md_SnapshotFormatVersion meta;
  m_CPUModel := md_CPUModel meta;
  m_KernelVersion := md_KernelVersion meta;
  m_ConfigHash := md_ConfigHash meta;
  m_HotPages := md_HotPages meta;
  m_HugePages := md_HugePages meta;
  m_GuestProtocolVersion := md_GuestProtocolVersion meta;
|}.

Definition writeJSONInt (v : Z) : string := fmt_int v.
Definition writeJSONString (s : string) : string := quote s.

(** The loop of dedupeSortedInt64 over the sorted copy: [last] is [out]'s last
    element. *)
Fixpoint dedupe_from (last : Z) (l : list Z) : list Z :=
  match l with
  | [] => []
  | v :: l' => if v =? last then dedupe_from last l' else v :: dedupe_from v l'
  end.

Section sorting.
Context `{!SliceSort}.

Definition dedupeSortedInt64 (l : list Z) : list Z :=
  match sort_slice Z.ltb l with
  | [] => []
  | v :: l' => v :: dedupe_from v l'
  end.

Definition name_less (a b : FileEntry) : bool := str_ltb (fe_Name a) (fe_Name b).

(** A JSON member name: the quoted key and the colon. *)
Definition key (k : string) : string := String dquote (k +:+ String dquote ":").

Definition chunk_bytes (c : ChunkRef) : string :=
  "{" +:+ key "digest" +:+ writeJSONString (cr_Digest c) +:+ "," +:+
  key "size" +:+ writeJSONInt (cr_Size c) +:+ "}".

Definition file_bytes (fe : FileEntry) : string :=
  "{" +:+ key "chunks" +:+ "[" +:+ commas (map chunk_bytes (fe_Chunks fe)) +:+ "]," +:+
  key "name" +:+ writeJSONString (fe_Name fe) +:+ "," +:+
  key "size" +:+ writeJSONInt (fe_Size fe) +:+ "}".

(** Canonical: the buffer the method builds, write by write. *)
Definition Canonical (m : Manifest) : string :=
  let files := sort_slice name_less (m_Files m) in
  "{" +:+
  key "configHash" +:+ writeJSONString (m_ConfigHash m) +:+ "," +:+
  key "cpuModel" +:+ writeJSONString (m_CPUModel m) +:+ "," +:+
  key "createdUnix" +:+ writeJSONInt (m_CreatedUnix m) +:+ "," +:+
  key "files" +:+ "[" +:+ commas (map file_bytes files) +:+ "]," +:+
  (if negb (m_GuestProtocolVersion m =? 0) then
     key "guestProtocolVersion" +:+ writeJSONInt (m_GuestProtocolVersion m) +:+ ","
   else "") +:+
  (if negb (isEmpty (m_HotPages m)) then
     match m_HotPages m with
     | Some h =>
         key "hotPages" +:+ "{" +:+ key "file" +:+ writeJSONString (hp_File h) +:+ "," +:+
         key "offsets" +:+ "[" +:+
           commas (map writeJSONInt (dedupeSortedInt64 (hp_Offsets h))) +:+ "]," +:+
         key "pageSizeBytes" +:+ writeJSONInt (hp_PageSizeBytes h) +:+ "},"
     | None => ""
     end
   else "") +:+
  (if negb (bool_decide (m_HugePages m = "")) then
     key "hugePages" +:+ writeJSONString (m_HugePages m) +:+ ","
   else "") +:+
  key "kernelVersion" +:+ writeJSONString (m_KernelVersion m) +:+ "," +:+
  key "snapshotFormatVersion" +:+ writeJSONInt (m_SnapshotFormatVersion m) +:+ "," +:+
  key "vmmVersion" +:+ writeJSONString (m_VMMVersion m) +:+
  "}".

(** Manifest.Digest. *)
Definition Manifest_Digest (m : Manifest) : Digest := digestBytes (Canonical m).

End sorting.

(** ** decodeManifest (store.go) *)

Record hotPagesJSON := { hj_File : string; hj_Offsets : list Z; hj_PageSizeBytes : Z }.
Record chunkJSON := { cj_Digest : Digest; cj_Size : Z }.
Record fileJSON := { fj_Chunks : list chunkJSON; fj_Name : string; fj_Size : Z }.

Record manifestJSON := {
  mj_ConfigHash : string;
  mj_CPUModel : string;
  mj_CreatedUnix : Z;
  mj_Files : list fileJSON;
  mj_GuestProtocolVersion : Z;
  mj_HotPages : option hotPagesJSON;
  mj_HugePages : string;
  mj_KernelVersion : string;
  mj_SnapshotFormatVersion : Z;
  mj_VMMVersion : string;
}.

Definition zero_chunkJSON := {| cj_Digest := ""; cj_Size := 0 |}.
Definition zero_fileJSON := {| fj_Chunks := []; fj_Name := ""; fj_Size := 0 |}.
Definition zero_hotPagesJSON := {| hj_File := ""; hj_Offsets := []; hj_PageSizeBytes := 0 |}.
Definition zero_manifestJSON := {|
  mj_ConfigHash := ""; mj_CPUModel := ""; mj_CreatedUnix := 0; mj_Files := [];
  mj_GuestProtocolVersion := 0; mj_HotPages := None; mj_HugePages := "";
  mj_KernelVersion := ""; mj_SnapshotFormatVersion := 0; mj_VMMVersion := "" |}.

Definition unmarshal_chunk (v : json) : option chunkJSON :=
  into_struct ["digest"; "size"] (λ n x c,
    if bool_decide (n = "digest") then
      d ← into_string (cj_Digest c) x; Some {| cj_Digest := d; cj_Size := cj_Size c |}
    else
      z ← into_int64 (cj_Size c) x; Some {| cj_Digest := cj_Digest c; cj_Size := z |})
    zero_chunkJSON v.

Definition unmarshal_file (v : json) : option fileJSON :=
  into_struct ["chunks"; "name"; "size"] (λ n x f,
    if bool_decide (n = "chunks") then
      l ← into_list unmarshal_chunk (fj_Chunks f) x;
      Some {| fj_Chunks := l; fj_Name := fj_Name f; fj_Size := fj_Size f |}
    else if bool_decide (n = "name") then
      s ← into_string (fj_Name f) x;
      Some {| fj_Chunks := fj_Chunks f; fj_Name := s; fj_Size := fj_Size f |}
    else
      z ← into_int64 (fj_Size f) x;
      Some {| fj_Chunks := fj_Chunks f; fj_Name := fj_Name f; fj_Size := z |})
    zero_fileJSON v.

Definition unmarshal_hotPages (cur : hotPagesJSON) (v : json) : option hotPagesJSON :=
  into_struct ["file"; "offsets"; "pageSizeBytes"] (λ n x h,
    if bool_decide (n = "file") then
      s ← into_string (hj_File h) x;
      Some {| hj_File := s; hj_Offsets := hj_Offsets h; hj_PageSizeBytes := hj_PageSizeBytes h |}
    else if bool_decide (n = "offsets") then
      l ← into_list (into_int64 0) (hj_Offsets h) x;
      Some {| hj_File := hj_File h; hj_Offsets := l; hj_PageSizeBytes := hj_PageSizeBytes h |}
    else
      z ← into_int64 (hj_PageSizeBytes h) x;
      Some {| hj_File := hj_File h; hj_Offsets := hj_Offsets h; hj_PageSizeBytes := z |})
    cur v.

(** A pointer field: [null] sets it to nil, anything else is decoded into the
    struct it points to, allocated if needed. *)
Definition unmarshal_hotPages_ptr (cur : option hotPagesJSON) (v : json) :
    option (option hotPagesJSON) :=
  match v with
  | JNull => Some None
  | _ => h ← unmarshal_hotPages (default zero_hotPagesJSON cur) v; Some (Some h)
  end.

Definition manifest_fields : list string :=
  ["configHash"; "cpuModel"; "createdUnix"; "files"; "guestProtocolVersion"; "hotPages";
   "hugePages"; "kernelVersion"; "snapshotFormatVersion"; "vmmVersion"].

Definition set_manifest_field (n : string) (x : json) (m : manifestJSON) : option manifestJSON :=
  let '(Build_manifestJSON ch cpu cr fs gp hp hu kv sv vm) := m in
  if bool_decide (n = "configHash") then
    v ← into_string ch x; Some (Build_manifestJSON v cpu cr fs gp hp hu kv sv vm)
  else if bool_decide (n = "cpuModel") then
    v ← into_string cpu x; Some (Build_manifestJSON ch v cr fs gp hp hu kv sv vm)
  else if bool_decide (n = "createdUnix") then
    v ← into_int64 cr x; Some (Build_manifestJSON ch cpu v fs gp hp hu kv sv vm)
  else if bool_decide (n = "files") then
    v ← into_list unmarshal_file fs x; Some (Build_manifestJSON ch cpu cr v gp hp hu kv sv vm)
  else if bool_decide (n = "guestProtocolVersion") then
    v ← into_int64 gp x; Some (Build_manifestJSON ch cpu cr fs v hp hu kv sv vm)
  else if bool_decide (n = "hotPages") then
    v ← unmarshal_hotPages_ptr hp x; Some (Build_manifestJSON ch cpu cr fs gp v hu kv sv vm)
  else if bool_decide (n = "hugePages") then
    v ← into_string hu x; Some (Build_manifestJSON ch cpu cr fs gp hp v kv sv vm)
  else if bool_decide (n = "kernelVersion") then
    v ← into_string kv x; Some (Build_manifestJSON ch cpu cr fs gp hp hu v sv vm)
  else if bool_decide (n = "snapshotFormatVersion") then
    v ← into_int64 sv x; Some (Build_manifestJSON ch cpu cr fs gp hp hu kv v vm)
  else
    v ← into_string vm x; Some (Build_manifestJSON ch cpu cr fs gp hp hu kv sv v).

Definition unmarshal_manifest (v : json) : option manifestJSON :=
  into_struct manifest_fields set_manifest_field zero_manifestJSON v.

Inductive decode_error :=
| errEmptyManifest
| EDecode
| EBadDigest (file : string) (d : Digest).

(** The loop over one file's chunks: a malformed digest stops it. *)
Fixpoint decode_chunks (name : string) (l : list chunkJSON) : result decode_error (list ChunkRef) :=
  match l with
  | [] => Ok []
  | cj :: l' =>
      if negb (valid_digest (cj_Digest cj)) then Err (EBadDigest name (cj_Digest cj))
      else let? cs := decode_chunks name l' in
           Ok ({| cr_Digest := cj_Digest cj; cr_Size := cj_Size cj |} :: cs)
  end.

Fixpoint decode_files (l : list fileJSON) : result decode_error (list FileEntry) :=
  match l with
  | [] => Ok []
  | fj :: l' =>
      let? cs := decode_chunks (fj_Name fj) (fj_Chunks fj) in
      let? fs := decode_files l' in
      Ok ({| fe_Name := fj_Name fj; fe_Size := fj_Size fj; fe_Chunks := cs |} :: fs)
  end.

Definition decodeManifest (data : string) : result decode_error Manifest :=
  match data with
  | "" => Err errEmptyManifest
  | _ =>
      match v ← parse data; unmarshal_manifest v with
      | None => Err EDecode
      | Some mj =>
          let? fs := decode_files (mj_Files mj) in
          Ok {|
            m_Files := fs;
            m_VMMVersion := mj_VMMVersion mj;
            m_CreatedUnix := mj_CreatedUnix mj;
            m_SnapshotFormatVersion := mj_SnapshotFormatVersion mj;
            m_CPUModel := mj_CPUModel mj;
            m_KernelVersion := mj_KernelVersion mj;
            m_ConfigHash := mj_ConfigHash mj;
            m_HotPages := (λ h, {| hp_PageSizeBytes := hj_PageSizeBytes h; hp_File := hj_File h;
                                   hp_Offsets := hj_Offsets h |}) <$> mj_HotPages mj;
            m_HugePages := mj_HugePages mj;
            m_GuestProtocolVersion := mj_GuestProtocolVersion mj;
          |}
      end
  end.

(** verify.go: DecodeManifest is decodeManifest, exported. *)
Definition DecodeManifest (data : string) : result decode_error Manifest := decodeManifest data.

(** ** The canonical bytes are a JSON rendering *)

Definition chunk_json (c : ChunkRef) : json :=
  JObj [("digest", JStr (cr_Digest c)); ("size", JNum (fmt_int (cr_Size c)))].

Definition file_json (fe : FileEntry) : json :=
  JObj [("chunks", JArr (map chunk_json (fe_Chunks fe))); ("name", JStr (fe_Name fe));
        ("size", JNum (fmt_int (fe_Size fe)))].

Section canonical.
Context `{!SliceSort}.

Definition hot_json (h : HotPageSet) : json :=
  JObj [("file", JStr (hp_File h));
        ("offsets", JArr (map (λ o, JNum (fmt_int o)) (dedupeSortedInt64 (hp_Offsets h))));
        ("pageSizeBytes", JNum (fmt_int (hp_PageSizeBytes h)))].

Definition optional_members (m : Manifest) : list (string * json) :=
  (if m_GuestProtocolVersion m =? 0 then []
   else [("guestProtocolVersion", JNum (fmt_int (m_GuestProtocolVersion m)))]) ++
  (if isEmpty (m_HotPages m) then [] else match m_HotPages m with Some h => [("hotPages", hot_json h)] | None => [] end) ++
  (if bool_decide (m_HugePages m = "") then [] else [("hugePages", JStr (m_HugePages m))]).

Definition manifest_json (m : Manifest) : json :=
  JObj (
    [("configHash", JStr (m_ConfigHash m)); ("cpuModel", JStr (m_CPUModel m));
     ("createdUnix", JNum (fmt_int (m_CreatedUnix m)));
     ("files", JArr (map file_json (sort_slice name_less (m_Files m))))] ++
    optional_members m ++
    [("kernelVersion", JStr (m_KernelVersion m));
     ("snapshotFormatVersion", JNum (fmt_int (m_SnapshotFormatVersion m)));
     ("vmmVersion", JStr (m_VMMVersion m))]).

Lemma key_quote k : quote_body Head k = k → key k = quote k +:+ ":".
Proof. intros Hk. unfold key, quote. by rewrite Hk, str_app_cons, str_app_assoc. Qed.

Ltac keys :=
  repeat match goal with
  | |- context [key ?k] => rewrite (key_quote k) by reflexivity
  end.
Ltac flat := rewrite ?str_app_assoc, ?str_app_cons, ?str_app_nil_l.

Lemma chunk_bytes_render c : chunk_bytes c = render (chunk_json c).
Proof. unfold chunk_bytes. keys. cbn [render chunk_json map commas]. by flat. Qed.

Lemma file_bytes_render fe : file_bytes fe = render (file_json fe).
Proof.
  unfold file_bytes. keys. cbn [render file_json map commas]. flat.
  replace (map render (map chunk_json (fe_Chunks fe))) with (map chunk_bytes (fe_Chunks fe))
    by (rewrite map_map; apply map_ext, chunk_bytes_render).
  done.
Qed.

Definition member_bytes (kv : string * json) : string :=
  (quote kv.1 +:+ ":" +:+ render kv.2) +:+ ",".

Lemma commas_app l1 x l2 :
  commas (l1 ++ x :: l2) = str_concat (map (λ s, s +:+ ",") l1) +:+ commas (x :: l2).
Proof.
  induction l1 as [|y l1 IH]; [done|].
  change (str_concat (map _ (y :: l1))) with
    ((y +:+ ",") +:+ str_concat (map (λ s, s +:+ ",") l1)).
  rewrite str_app_assoc, <- IH. destruct l1; cbn [app]; rewrite commas_cons; by flat.
Qed.

Lemma render_obj_app l1 l2 kv :
  render (JObj (l1 ++ kv :: l2)) =
  "{" +:+ str_concat (map member_bytes l1) +:+
    commas (map (λ '(k, v), quote k +:+ ":" +:+ render v) (kv :: l2)) +:+ "}".
Proof.
  cbn [render]. rewrite map_app. cbn [map]. rewrite commas_app, map_map, str_app_assoc.
  replace (map _ l1) with (map member_bytes l1); [done|].
  apply map_ext. intros [k v]. done.
Qed.

(** Canonical writes exactly the compact rendering of [manifest_json]. *)
Lemma Canonical_render m : Canonical m = render (manifest_json m).
Proof.
  unfold manifest_json. rewrite app_assoc, render_obj_app, map_app, str_concat_app.
  unfold optional_members. rewrite !map_app, !str_concat_app.
  unfold Canonical, writeJSONString, writeJSONInt.
  assert (str_concat (map member_bytes (if m_GuestProtocolVersion m =? 0 then []
     else [("guestProtocolVersion", JNum (fmt_int (m_GuestProtocolVersion m)))])) =
    (if negb (m_GuestProtocolVersion m =? 0) then
     key "guestProtocolVersion" +:+ fmt_int (m_GuestProtocolVersion m) +:+ "," else "")) as ->.
  { case_match; [done|]. keys. cbn. unfold member_bytes. cbn. by flat. }
  assert (str_concat (map member_bytes (if isEmpty (m_HotPages m) then []
     else match m_HotPages m with Some h => [("hotPages", hot_json h)] | None => [] end)) =
    (if negb (isEmpty (m_HotPages m)) then
     match m_HotPages m with
     | Some h =>
         key "hotPages" +:+ "{" +:+ key "file" +:+ quote (hp_File h) +:+ "," +:+
         key "offsets" +:+ "[" +:+
           commas (map fmt_int (dedupeSortedInt64 (hp_Offsets h))) +:+ "]," +:+
         key "pageSizeBytes" +:+ fmt_int (hp_PageSizeBytes h) +:+ "},"
     | None => ""
     end else "")) as ->.
  { destruct (isEmpty (m_HotPages m)), (m_HotPages m) as [h|]; try done.
    cbn. unfold member_bytes. keys. cbn [fst snd render hot_json map commas].
    rewrite map_map. by flat. }
  assert (str_concat (map member_bytes (if bool_decide (m_HugePages m = "") then []
     else [("hugePages", JStr (m_HugePages m))])) =
    (if negb (bool_decide (m_HugePages m = "")) then
     key "hugePages" +:+ quote (m_HugePages m) +:+ "," else "")) as ->.
  { case_match; [done|]. keys. cbn. unfold member_bytes. cbn. by flat. }
  keys. unfold member_bytes. cbn [map fst snd render commas str_concat foldr].
  replace (map render (map file_json (sort_slice name_less (m_Files m))))
    with (map file_bytes (sort_slice name_less (m_Files m)))
    by (rewrite map_map; apply map_ext, file_bytes_render).
  by flat.
Qed.

(** ** The round trip *)

Definition wf_chunk (c : ChunkRef) : Prop :=
  valid_digest (cr_Digest c) = true ∧ is_int64 (cr_Size c).

Definition wf_file (fe : FileEntry) : Prop :=
  ascii_only (fe_Name fe) = true ∧ is_int64 (fe_Size fe) ∧ Forall wf_chunk (fe_Chunks fe).

Definition wf_hot (h : HotPageSet) : Prop :=
  ascii_only (hp_File h) = true ∧ is_int64 (hp_PageSizeBytes h) ∧ Forall is_int64 (hp_Offsets h).

#[global] Instance wf_chunk_dec c : Decision (wf_chunk c).
Proof. unfold wf_chunk. apply _. Defined.
#[global] Instance wf_file_dec fe : Decision (wf_file fe).
Proof. unfold wf_file. apply _. Defined.
#[global] Instance wf_hot_dec h : Decision (wf_hot h).
Proof. unfold wf_hot. apply _. Defined.

(** A manifest the Go types can hold, with well-formed digests and ASCII text. *)
Record wf_manifest (m : Manifest) : Prop := {
  wfm_files : Forall wf_file (m_Files m);
  wfm_vmm : ascii_only (m_VMMVersion m) = true;
  wfm_created : is_int64 (m_CreatedUnix m);
  wfm_format : is_int64 (m_SnapshotFormatVersion m);
  wfm_cpu : ascii_only (m_CPUModel m) = true;
  wfm_kernel : ascii_only (m_KernelVersion m) = true;
  wfm_config : ascii_only (m_ConfigHash m) = true;
  wfm_hot : ∀ h, m_HotPages m = Some h → wf_hot h;
  wfm_huge : ascii_only (m_HugePages m) = true;
  wfm_guest : is_int64 (m_GuestProtocolVersion m);
}.

(** What the canonical bytes keep of a manifest: the files in name order, and of
    a hot-page set its distinct offsets in order, or nothing when it is empty. *)
Definition normalize (m : Manifest) : Manifest := {|
  m_Files := sort_slice name_less (m_Files m);
  m_VMMVersion := m_VMMVersion m;
  m_CreatedUnix := m_CreatedUnix m;
  m_SnapshotFormatVersion := m_SnapshotFormatVersion m;
  m_CPUModel := m_CPUModel m;
  m_KernelVersion := m_KernelVersion m;
  m_ConfigHash := m_ConfigHash m;
  m_HotPages :=
    match m_HotPages m with
    | Some h =>
        if isEmpty (Some h) then None
        else Some {| hp_PageSizeBytes := hp_PageSizeBytes h; hp_File := hp_File h;
                     hp_Offsets := dedupeSortedInt64 (hp_Offsets h) |}
    | None => None
    end;
  m_HugePages := m_HugePages m;
  m_GuestProtocolVersion := m_GuestProtocolVersion m;
|}.

Lemma dedupe_from_incl v l : dedupe_from v l ⊆ l.
Proof.
  revert v. induction l as [|x l IH]; intros v; [set_solver|].
  pose proof (IH v). pose proof (IH x). cbn. case_match; set_solver.
Qed.

Lemma dedupeSortedInt64_incl l : dedupeSortedInt64 l ⊆ l.
Proof.
  unfold dedupeSortedInt64. pose proof (sort_slice_perm Z.ltb l) as Hp.
  destruct (sort_slice Z.ltb l) as [|v l'] eqn:E; [set_solver|].
  intros x Hx. rewrite <- Hp. pose proof (dedupe_from_incl v l'). set_solver.
Qed.

Lemma digest_ascii d : valid_digest d = true → ascii_only d = true.
Proof.
  intros [_ Hd]%andb_true_iff. unfold ascii_only.
  induction d as [|c d IH]; [done|]. cbn in *.
  apply andb_true_iff in Hd as [Hc Hd]. apply andb_true_iff. split; [|auto].
  unfold is_hex_char in Hc. lia.
Qed.

Lemma wf_chunk_json c : wf_chunk c → Json.wf (chunk_json c).
Proof.
  intros [Hd Hs]. constructor. repeat constructor. by apply digest_ascii.
Qed.

Lemma wf_file_json fe : wf_file fe → Json.wf (file_json fe).
Proof.
  intros (Hn & Hs & Hc). constructor.
  repeat (apply Forall_cons; split; [split; [reflexivity|cbn [snd]]|]); try by repeat constructor.
  constructor. apply Forall_map. eapply Forall_impl; [exact Hc|]. apply wf_chunk_json.
Qed.

Lemma wf_manifest_json m : wf_manifest m → Json.wf (manifest_json m).
Proof.
  intros Hm. constructor. unfold optional_members.
  repeat (apply Forall_app; split);
    repeat (apply Forall_cons; split; [split; [reflexivity|cbn [snd]]|]);
    try by repeat constructor; apply Hm.
  - constructor. apply Forall_map.
    rewrite (sort_slice_perm name_less (m_Files m)).
    eapply Forall_impl; [apply Hm|]. apply wf_file_json.
  - case_match; repeat constructor.
  - case_match; [constructor|]. destruct (m_HotPages m) as [h|] eqn:E; repeat constructor.
    + by apply (wfm_hot m Hm).
    + apply Forall_map, Forall_forall. intros. constructor.
  - case_match; repeat constructor. apply Hm.
Qed.

Ltac decode_step :=
  progress (closed_fields;
    cbn [mbind option_bind into_string cj_Digest cj_Size zero_chunkJSON fj_Chunks fj_Name fj_Size
         zero_fileJSON hj_File hj_Offsets hj_PageSizeBytes]).

Lemma unmarshal_chunk_json c : wf_chunk c →
  unmarshal_chunk (chunk_json c) = Some {| cj_Digest := cr_Digest c; cj_Size := cr_Size c |}.
Proof.
  intros [Hd Hs]. unfold unmarshal_chunk, chunk_json, into_struct. cbn [foldl].
  repeat decode_step. by rewrite into_int64_fmt.
Qed.

Lemma unmarshal_file_json fe : wf_file fe →
  unmarshal_file (file_json fe) = Some {|
    fj_Chunks := map (λ c, {| cj_Digest := cr_Digest c; cj_Size := cr_Size c |}) (fe_Chunks fe);
    fj_Name := fe_Name fe; fj_Size := fe_Size fe |}.
Proof.
  intros (Hn & Hs & Hc). unfold unmarshal_file, file_json, into_struct. cbn [foldl].
  repeat decode_step.
  rewrite (into_list_map unmarshal_chunk chunk_json
             (λ c, {| cj_Digest := cr_Digest c; cj_Size := cr_Size c |})).
  2: { eapply Forall_impl; [exact Hc|]. apply unmarshal_chunk_json. }
  repeat decode_step. by rewrite into_int64_fmt.
Qed.

Lemma unmarshal_hot_json h cur : wf_hot h →
  unmarshal_hotPages_ptr cur (hot_json h) = Some (Some {|
    hj_File := hp_File h; hj_Offsets := dedupeSortedInt64 (hp_Offsets h);
    hj_PageSizeBytes := hp_PageSizeBytes h |}).
Proof.
  intros (Hf & Hp & Ho). unfold unmarshal_hotPages_ptr, unmarshal_hotPages, hot_json, into_struct.
  cbn [foldl]. repeat decode_step.
  rewrite (into_list_map (into_int64 0) (λ o, JNum (fmt_int o)) id).
  2: { apply Forall_forall. intros x Hx. apply into_int64_fmt.
       rewrite Forall_forall in Ho. apply Ho. by apply dedupeSortedInt64_incl. }
  rewrite map_id. repeat decode_step. by rewrite into_int64_fmt.
Qed.

Lemma decode_chunks_wf name l : Forall wf_chunk l →
  decode_chunks name (map (λ c, {| cj_Digest := cr_Digest c; cj_Size := cr_Size c |}) l) = Ok l.
Proof.
  induction 1 as [|[d z] l [Hd Hs] Hl IH]; [done|]. cbn in *. by rewrite Hd, IH.
Qed.

Definition fj_of (fe : FileEntry) : fileJSON := {|
  fj_Chunks := map (λ c, {| cj_Digest := cr_Digest c; cj_Size := cr_Size c |}) (fe_Chunks fe);
  fj_Name := fe_Name fe; fj_Size := fe_Size fe |}.

Lemma decode_files_wf l : Forall wf_file l → decode_files (map fj_of l) = Ok l.
Proof.
  induction 1 as [|[n z cs] l (Hn & Hs & Hc) Hl IH]; [done|].
  cbn in *. by rewrite decode_chunks_wf, IH.
Qed.

(** The effect of the optional members on the struct decoded so far. *)
Definition assign (acc : option manifestJSON) (kx : string * json) : option manifestJSON :=
  a ← acc;
  match field_for manifest_fields kx.1 with Some n => set_manifest_field n kx.2 a | None => Some a end.

Lemma into_struct_assign cur ms :
  into_struct manifest_fields set_manifest_field cur (JObj ms) = foldl assign (Some cur) ms.
Proof.
  unfold into_struct. generalize (Some cur) as a. induction ms as [|[k x] ms IH]; [done|].
  intros a. cbn [foldl]. apply IH.
Qed.

Lemma assign_guest z ch cpu cr fs hp hu kv sv vm : is_int64 z →
  foldl assign (Some (Build_manifestJSON ch cpu cr fs 0 hp hu kv sv vm))
    (if z =? 0 then [] else [("guestProtocolVersion", JNum (fmt_int z))]) =
  Some (Build_manifestJSON ch cpu cr fs z hp hu kv sv vm).
Proof.
  intros Hz. destruct (Z.eqb_spec z 0) as [->|]; [done|].
  cbn [foldl]. unfold assign, set_manifest_field. cbn [fst snd].
  repeat decode_step. by rewrite into_int64_fmt.
Qed.

Lemma assign_hot oh ch cpu cr fs gp hu kv sv vm : (∀ h, oh = Some h → wf_hot h) →
  foldl assign (Some (Build_manifestJSON ch cpu cr fs gp None hu kv sv vm))
    (if isEmpty oh then [] else match oh with Some h => [("hotPages", hot_json h)] | None => [] end) =
  Some (Build_manifestJSON ch cpu cr fs gp
    (match oh with
     | Some h => if isEmpty (Some h) then None else
         Some {| hj_File := hp_File h; hj_Offsets := dedupeSortedInt64 (hp_Offsets h);
                 hj_PageSizeBytes := hp_PageSizeBytes h |}
     | None => None end) hu kv sv vm).
Proof.
  intros Hh. destruct oh as [h|]; [|done]. destruct (isEmpty (Some h)); [done|].
  cbn [foldl]. unfold assign, set_manifest_field. cbn [fst snd].
  repeat decode_step. by rewrite unmarshal_hot_json by auto.
Qed.

Lemma assign_huge s ch cpu cr fs gp hp kv sv vm :
  foldl assign (Some (Build_manifestJSON ch cpu cr fs gp hp "" kv sv vm))
    (if bool_decide (s = "") then [] else [("hugePages", JStr s)]) =
  Some (Build_manifestJSON ch cpu cr fs gp hp s kv sv vm).
Proof.
  destruct (bool_decide_reflect (s = "")) as [->|]; [done|].
  cbn [foldl]. unfold assign, set_manifest_field. cbn [fst snd]. by repeat decode_step.
Qed.

Lemma unmarshal_manifest_json m : wf_manifest m →
  unmarshal_manifest (manifest_json m) = Some {|
    mj_ConfigHash := m_ConfigHash m; mj_CPUModel := m_CPUModel m;
    mj_CreatedUnix := m_CreatedUnix m;
    mj_Files := map fj_of (sort_slice name_less (m_Files m));
    mj_GuestProtocolVersion := m_GuestProtocolVersion m;
    mj_HotPages :=
      match m_HotPages m with
      | Some h => if isEmpty (Some h) then None else
          Some {| hj_File := hp_File h; hj_Offsets := dedupeSortedInt64 (hp_Offsets h);
                  hj_PageSizeBytes := hp_PageSizeBytes h |}
      | None => None end;
    mj_HugePages := m_HugePages m; mj_KernelVersion := m_KernelVersion m;
    mj_SnapshotFormatVersion := m_SnapshotFormatVersion m; mj_VMMVersion := m_VMMVersion m |}.
Proof.
  intros Hm.
  assert (∀ cur, into_list unmarshal_file cur
            (JArr (map file_json (sort_slice name_less (m_Files m)))) =
          Some (map fj_of (sort_slice name_less (m_Files m)))) as Hf.
  { intros cur. apply into_list_map. rewrite (sort_slice_perm name_less (m_Files m)).
    eapply Forall_impl; [apply Hm|]. apply unmarshal_file_json. }
  unfold unmarshal_manifest, manifest_json, optional_members.
  rewrite into_struct_assign, !foldl_app.
  match goal with |- context [foldl assign (Some zero_manifestJSON) ?l] =>
    assert (foldl assign (Some zero_manifestJSON) l = Some (Build_manifestJSON
      (m_ConfigHash m) (m_CPUModel m) (m_CreatedUnix m)
      (map fj_of (sort_slice name_less (m_Files m))) 0 None "" "" 0 "")) as ->
  end.
  { cbn [foldl]. unfold assign at 4, zero_manifestJSON, set_manifest_field. cbn [fst snd].
    repeat decode_step. unfold assign at 3, set_manifest_field. cbn [fst snd].
    repeat decode_step. unfold assign at 2, set_manifest_field. cbn [fst snd].
    repeat decode_step. rewrite into_int64_fmt by apply Hm.
    repeat decode_step. unfold assign, set_manifest_field. cbn [fst snd].
    repeat decode_step. by rewrite Hf. }
  rewrite (assign_guest (m_GuestProtocolVersion m)) by apply Hm.
  rewrite (assign_hot (m_HotPages m)) by apply Hm. rewrite assign_huge.
  cbn [foldl]. unfold assign, set_manifest_field. cbn [fst snd].
  repeat decode_step. by rewrite into_int64_fmt by apply Hm.
Qed.

Lemma decode_Canonical m : wf_manifest m → decodeManifest (Canonical m) = Ok (normalize m).
Proof.
  intros Hm. rewrite Canonical_render.
  pose proof (parse_render _ (wf_manifest_json m Hm)) as Hp.
  destruct (render_head _ (wf_manifest_json m Hm)) as (c & s & Hs & _).
  unfold decodeManifest. rewrite Hs in *. rewrite Hp. cbn [mbind option_bind].
  rewrite unmarshal_manifest_json by done. cbn [mj_Files].
  rewrite decode_files_wf.
  2: { rewrite (sort_slice_perm name_less (m_Files m)). apply Hm. }
  cbn. unfold normalize. do 2 f_equal. by destruct (m_HotPages m) as [[? ? [|]]|].
Qed.

(** ** What the identity depends on *)

Lemma dedupe_from_sorted v l :
  StronglySorted Z.le (v :: l) →
  StronglySorted Z.lt (v :: dedupe_from v l) ∧ ∀ x, x ∈ v :: dedupe_from v l ↔ x ∈ v :: l.
Proof.
  revert v. induction l as [|x l IH]; intros v Hs; [split; [repeat constructor|done]|].
  apply StronglySorted_inv in Hs as [Hs Hv]. apply Forall_cons in Hv as [Hvx Hv].
  cbn. destruct (Z.eqb_spec x v) as [->|Hne].
  - destruct (IH v Hs) as [H1 H2]. split; [done|]. set_solver.
  - destruct (IH x Hs) as [H1 H2]. split; [|set_solver].
    constructor; [done|]. apply Forall_forall. intros y Hy%H2.
    apply StronglySorted_inv in Hs as [_ Hx]. rewrite Forall_forall in Hx.
    apply elem_of_cons in Hy as [->|Hy]; [lia|]. specialize (Hx y Hy). lia.
Qed.

Lemma dedupeSortedInt64_spec l :
  StronglySorted Z.lt (dedupeSortedInt64 l) ∧ ∀ x, x ∈ dedupeSortedInt64 l ↔ x ∈ l.
Proof.
  unfold dedupeSortedInt64. pose proof (sort_slice_perm Z.ltb l) as Hp.
  pose proof (sort_slice_sorted Z.ltb l) as Hs.
  destruct (sort_slice Z.ltb l) as [|v l'].
  - apply Permutation_nil_l in Hp. subst l. split; [constructor|done].
  - destruct (dedupe_from_sorted v l') as [H1 H2].
    { assert (∀ k, StronglySorted (not_after Z.ltb) k → StronglySorted Z.le k) as Himp.
      { induction 1 as [|x k Hk IH Hx]; constructor; [done|].
        eapply Forall_impl; [exact Hx|]. unfold not_after. intros y Hy. cbn in Hy. lia. }
      auto. }
    split; [done|]. intros x. by rewrite H2, Hp.
Qed.

Lemma lt_sorted_unique l1 l2 :
  StronglySorted Z.lt l1 → StronglySorted Z.lt l2 → (∀ x, x ∈ l1 ↔ x ∈ l2) → l1 = l2.
Proof.
  intros H1 H2 He.
  assert (∀ l, StronglySorted Z.lt l → NoDup l) as Hnd.
  { induction 1 as [|x l Hl IH Hx]; constructor; [|done].
    intros Hin. rewrite Forall_forall in Hx. specialize (Hx x Hin). lia. }
  apply (StronglySorted_unique_strong Z.lt); [|done|done|].
  - intros x y _ _. lia.
  - apply NoDup_Permutation; auto.
Qed.

(** Order and duplicates of the captured offsets do not matter. *)
Lemma dedupeSortedInt64_set l1 l2 :
  dedupeSortedInt64 l1 = dedupeSortedInt64 l2 ↔ ∀ x, x ∈ l1 ↔ x ∈ l2.
Proof.
  destruct (dedupeSortedInt64_spec l1) as [Hs1 He1].
  destruct (dedupeSortedInt64_spec l2) as [Hs2 He2]. split.
  - intros He x. by rewrite <- He1, <- He2, He.
  - intros He. apply lt_sorted_unique; [done..|]. intros x. by rewrite He1, He2.
Qed.

#[global] Instance name_less_sw : StrictWeak name_less.
Proof.
  split; unfold name_less; intros.
  - apply sw_irrefl.
  - eapply sw_trans; eauto.
  - eapply sw_incomp; eauto.
Qed.

Definition distinct_names (m : Manifest) : Prop := NoDup (fe_Name <$> m_Files m).

Lemma distinct_names_tie m x y :
  distinct_names m → x ∈ m_Files m → y ∈ m_Files m →
  name_less x y = false → name_less y x = false → x = y.
Proof.
  intros Hd Hx Hy H1 H2. assert (fe_Name x = fe_Name y) as Hn by by apply str_ltb_tie.
  unfold distinct_names in Hd. revert Hd Hx Hy.
  induction (m_Files m) as [|z l IH]; [set_solver|].
  cbn. intros Hnd%NoDup_cons Hx Hy. destruct Hnd as [Hz Hnd].
  apply elem_of_cons in Hx as [->|Hx], Hy as [Hy|Hy]; subst; auto.
  - exfalso. apply Hz. rewrite Hn. by apply list_elem_of_fmap_2.
  - exfalso. apply Hz. rewrite <- Hn. by apply list_elem_of_fmap_2.
Qed.

(** Two manifests with the same logical content. *)
Record same_content (m1 m2 : Manifest) : Prop := {
  sc_files : m_Files m1 ≡ₚ m_Files m2;
  sc_vmm : m_VMMVersion m1 = m_VMMVersion m2;
  sc_created : m_CreatedUnix m1 = m_CreatedUnix m2;
  sc_format : m_SnapshotFormatVersion m1 = m_SnapshotFormatVersion m2;
  sc_cpu : m_CPUModel m1 = m_CPUModel m2;
  sc_kernel : m_KernelVersion m1 = m_KernelVersion m2;
  sc_config : m_ConfigHash m1 = m_ConfigHash m2;
  sc_huge : m_HugePages m1 = m_HugePages m2;
  sc_guest : m_GuestProtocolVersion m1 = m_GuestProtocolVersion m2;
  sc_hot :
    isEmpty (m_HotPages m1) = true ∧ isEmpty (m_HotPages m2) = true ∨
    ∃ h1 h2, m_HotPages m1 = Some h1 ∧ m_HotPages m2 = Some h2 ∧
      hp_Offsets h1 ≠ [] ∧ hp_Offsets h2 ≠ [] ∧
      hp_PageSizeBytes h1 = hp_PageSizeBytes h2 ∧ hp_File h1 = hp_File h2 ∧
      (∀ o, o ∈ hp_Offsets h1 ↔ o ∈ hp_Offsets h2);
}.

Lemma normalize_hot_eq m1 m2 :
  m_HotPages (normalize m1) = m_HotPages (normalize m2) ↔
    isEmpty (m_HotPages m1) = true ∧ isEmpty (m_HotPages m2) = true ∨
    ∃ h1 h2, m_HotPages m1 = Some h1 ∧ m_HotPages m2 = Some h2 ∧
      hp_Offsets h1 ≠ [] ∧ hp_Offsets h2 ≠ [] ∧
      hp_PageSizeBytes h1 = hp_PageSizeBytes h2 ∧ hp_File h1 = hp_File h2 ∧
      (∀ o, o ∈ hp_Offsets h1 ↔ o ∈ hp_Offsets h2).
Proof.
  cbn. destruct (m_HotPages m1) as [[p1 f1 [|o1 l1]]|], (m_HotPages m2) as [[p2 f2 [|o2 l2]]|]; cbn;
    try (split; [by auto|done]);
    try (split; [done|intros [[??]|(h1 & h2 & E1 & E2 & N1 & N2 & _)]; [done|]];
         injection E1 as <-; injection E2 as <-; done);
    try (split; [done|intros [[??]|(h1 & h2 & E1 & E2 & _)]; done]).
  split.
  - intros [=-> -> He]. right. eexists _, _. do 2 (split; [done|]).
    repeat split; try done; apply (proj1 (dedupeSortedInt64_set _ _) He).
  - intros [[? ?]|(h1 & h2 & [=<-] & [=<-] & _ & _ & Hp & Hf & He)]; [done|]. cbn in *.
    rewrite Hp, Hf. by rewrite (proj2 (dedupeSortedInt64_set _ _) He).
Qed.

Lemma normalize_same_content m1 m2 :
  distinct_names m1 → distinct_names m2 →
  normalize m1 = normalize m2 ↔ same_content m1 m2.
Proof.
  intros Hd1 Hd2. split.
  - intros He. pose proof (f_equal m_HotPages He) as Hh. apply normalize_hot_eq in Hh.
    injection He as Hf Hv Hc Hs Hcpu Hk Hcfg _ Hu Hg. constructor; try done.
    by rewrite <- (sort_slice_perm name_less (m_Files m1)), Hf, sort_slice_perm.
  - intros [Hf Hv Hc Hs Hcpu Hk Hcfg Hu Hg Hh]. apply normalize_hot_eq in Hh.
    unfold normalize in *. cbn in Hh. f_equal; try done.
    apply sort_slice_unique; [apply _|done|]. intros. by eapply (distinct_names_tie m1).
Qed.

Lemma Canonical_normalize m1 m2 : normalize m1 = normalize m2 → Canonical m1 = Canonical m2.
Proof.
  intros He. rewrite !Canonical_render. unfold manifest_json, optional_members.
  pose proof (f_equal m_HotPages He) as Hh. injection He as Hf Hv Hc Hs Hcpu Hk Hcfg _ Hu Hg.
  rewrite Hf, Hv, Hc, Hs, Hcpu, Hk, Hcfg, Hu, Hg. do 4 f_equal.
  cbn in Hh. destruct (m_HotPages m1) as [[p1 f1 [|o1 l1]]|], (m_HotPages m2) as [[p2 f2 [|o2 l2]]|];
    cbn in *; try done.
  injection Hh as -> -> Ho. unfold hot_json. cbn. by rewrite Ho.
Qed.

Lemma normalize_content m : distinct_names m → same_content (normalize m) m.
Proof.
  intros Hd. constructor; try done; [apply sort_slice_perm|].
  cbn. destruct (m_HotPages m) as [[p f [|o l]]|]; cbn; auto.
  right. destruct (dedupeSortedInt64_spec (o :: l)) as [_ He].
  eexists _, _. do 2 (split; [done|]). cbn. repeat split; try done; [|apply He..].
  intros Hn. specialize (He o). rewrite Hn in He. set_solver.
Qed.

Lemma distinct_normalize m : distinct_names m → distinct_names (normalize m).
Proof. unfold distinct_names. intros Hd. cbn. by rewrite sort_slice_perm. Qed.

Lemma Canonical_idem m : distinct_names m → Canonical (normalize m) = Canonical m.
Proof.
  intros Hd. apply Canonical_normalize, normalize_same_content; auto using distinct_normalize.
  by apply normalize_content.
Qed.

Lemma decode_chunks_valid name l cs :
  decode_chunks name l = Ok cs → Forall (λ c, valid_digest (cr_Digest c) = true) cs.
Proof.
  revert cs. induction l as [|c l IH]; cbn; intros cs; [by intros [= <-]|].
  destruct (valid_digest (cj_Digest c)) eqn:Hv; [|done].
  destruct (decode_chunks name l) as [cs'|]; [|done]. intros [= <-]. auto.
Qed.

Definition digests_valid (m : Manifest) : Prop :=
  Forall (λ fe, Forall (λ c, valid_digest (cr_Digest c) = true) (fe_Chunks fe)) (m_Files m).

Lemma decode_files_valid l fs : decode_files l = Ok fs →
  Forall (λ fe, Forall (λ c, valid_digest (cr_Digest c) = true) (fe_Chunks fe)) fs.
Proof.
  revert fs. induction l as [|f l IH]; cbn; intros fs; [by intros [= <-]|].
  destruct (decode_chunks _ _) as [cs|] eqn:Hc; [|done].
  destruct (decode_files l) as [fs'|]; [|done]. intros [= <-].
  constructor; [by eapply decode_chunks_valid|auto].
Qed.

Lemma decode_digests_valid data m : decodeManifest data = Ok m → digests_valid m.
Proof.
  unfold decodeManifest. destruct data as [|a data]; [done|].
  destruct (v ← parse _; unmarshal_manifest v) as [mj|]; [|done].
  destruct (decode_files _) as [fs|] eqn:Hf; [|done]. cbn. intros [= <-].
  by eapply decode_files_valid.
Qed.

(** Decoding the canonical bytes of a well-formed manifest succeeds and gives
    back the same manifest up to file order, offset order and duplicates and an
    empty hot-page set, under the same digest, so a stored manifest keeps its
    identity when it is read back. *)
Theorem manifest_roundtrip m : wf_manifest m → distinct_names m →
  ∃ m', decodeManifest (Canonical m) = Ok m' ∧ same_content m' m ∧
        Canonical m' = Canonical m ∧ Manifest_Digest m' = Manifest_Digest m.
Proof.
  intros Hw Hd. exists (normalize m). unfold Manifest_Digest.
  rewrite decode_Canonical, Canonical_idem by done. auto using normalize_content.
Qed.

(** The canonical bytes identify exactly the content: two well-formed
    manifests have the same bytes when, and only when, they have the same files
    (in any order), the same metadata, creation time included, and the same set
    of hot-page offsets. *)
Theorem canonical_identity m1 m2 :
  wf_manifest m1 → wf_manifest m2 → distinct_names m1 → distinct_names m2 →
  Canonical m1 = Canonical m2 ↔ same_content m1 m2.
Proof.
  intros H1 H2 D1 D2. rewrite <- normalize_same_content by done. split.
  - intros He. pose proof (decode_Canonical m1 H1) as E1. rewrite He, decode_Canonical in E1 by done.
    symmetry. by apply (inj Ok) in E1.
  - apply Canonical_normalize.
Qed.

End canonical.

(** Whatever bytes arrive, a manifest that decodes refers to chunks only by
    well-formed digests: no path traversal and no digest too short to slice. *)
Theorem decode_validates data m : decodeManifest data = Ok m →
  ∀ fe c, fe ∈ m_Files m → c ∈ fe_Chunks fe →
    valid_digest (cr_Digest c) = true ∧ String.length (cr_Digest c) = 64%nat ∧
    all_chars is_hex_char (cr_Digest c) = true.
Proof.
  intros Hd%decode_digests_valid fe c Hfe Hc. unfold digests_valid in Hd.
  rewrite Forall_forall in Hd. specialize (Hd fe Hfe). rewrite Forall_forall in Hd.
  specialize (Hd c Hc). split; [done|]. unfold valid_digest in Hd.
  apply andb_prop in Hd as [H1 H2]. apply Nat.eqb_eq in H1. done.
Qed.

Definition ex_manifest : Manifest := {|
  m_Files := [{| fe_Name := "vmstate"; fe_Size := 3; fe_Chunks := [{| cr_Digest := digestBytes "abc"; cr_Size := 3 |}] |};
              {| fe_Name := "mem"; fe_Size := 0; fe_Chunks := [] |}];
  m_VMMVersion := "1.7.0"; m_CreatedUnix := 0; m_SnapshotFormatVersion := 1; m_CPUModel := "x<y";
  m_KernelVersion := "6.1"; m_ConfigHash := "c";
  m_HotPages := Some {| hp_PageSizeBytes := 4096; hp_File := "mem"; hp_Offsets := [8192; 0; 8192] |};
  m_HugePages := ""; m_GuestProtocolVersion := 1 |}.

Example decode_ex :
  match decodeManifest (Canonical ex_manifest) with
  | Ok m => (fe_Name <$> m_Files m, m_CPUModel m, hp_Offsets <$> m_HotPages m) = (["mem"; "vmstate"], "x<y", Some [0; 8192])
  | Err _ => False
  end.
Proof. vm_compute. reflexivity. Qed.

Lemma ex_manifest_wf : wf_manifest ex_manifest ∧ distinct_names ex_manifest.
Proof.
  split; [|unfold distinct_names; by_eval].
  split; [by_eval..| |by_eval|by_eval]. intros h [= <-]. by_eval.
Qed.

Lemma manifest_roundtrip_witness :
  ∃ m', decodeManifest (Canonical ex_manifest) = Ok m' ∧ same_content m' ex_manifest ∧
        Canonical m' = Canonical ex_manifest ∧ Manifest_Digest m' = Manifest_Digest ex_manifest.
Proof. apply (manifest_roundtrip ex_manifest); apply ex_manifest_wf. Defined.

(** The same content, the files and the offsets listed in another order. *)
Definition ex_manifest' : Manifest := {|
  m_Files := [{| fe_Name := "mem"; fe_Size := 0; fe_Chunks := [] |};
              {| fe_Name := "vmstate"; fe_Size := 3; fe_Chunks := [{| cr_Digest := digestBytes "abc"; cr_Size := 3 |}] |}];
  m_VMMVersion := "1.7.0"; m_CreatedUnix := 0; m_SnapshotFormatVersion := 1; m_CPUModel := "x<y";
  m_KernelVersion := "6.1"; m_ConfigHash := "c";
  m_HotPages := Some {| hp_PageSizeBytes := 4096; hp_File := "mem"; hp_Offsets := [0; 8192] |};
  m_HugePages := ""; m_GuestProtocolVersion := 1 |}.

Lemma canonical_identity_witness :
  Canonical ex_manifest' = Canonical ex_manifest ↔ same_content ex_manifest' ex_manifest.
Proof.
  apply canonical_identity; try apply ex_manifest_wf.
  - split; [by_eval..| |by_eval|by_eval]. intros h [= <-]. by_eval.
  - unfold distinct_names. by_eval.
Defined.

Definition ex_chunk : ChunkRef := {| cr_Digest := digestBytes "abc"; cr_Size := 3 |}.

Lemma decode_validates_witness :
  valid_digest (cr_Digest ex_chunk) = true ∧ String.length (cr_Digest ex_chunk) = 64%nat ∧
  all_chars is_hex_char (cr_Digest ex_chunk) = true.
Proof.
  apply (decode_validates (Canonical ex_manifest) ex_manifest')
    with {| fe_Name := "vmstate"; fe_Size := 3; fe_Chunks := [ex_chunk] |}.
  - vm_compute. reflexivity.
  - right. left.
  - left.
Defined.

End Manifest.
