(* ===== verification/Cas.v ===== *)
(** * internal/cas: the content-addressed store on disk

    chunk.go, store.go, evict.go, verify.go and transport.go, over a model of the
    file system in which every system call may succeed, fail, or be the point at
    which the process crashes.  A world holds the files below the root of the store
    (by directory and name), the files outside it, the wall clock and the replies
    the operating system will give to the coming calls: quantifying over that list
    quantifies over every way the calls can turn out.  A path that a caller or a
    manifest gives is resolved by its text and may lead to either part; links and
    the working directory are not modelled. *)

From Stdlib Require Import Ascii.
From S2P Require Import Prelude Sha256 Json Manifest.
Import Sha256 Json Manifest.

Module Cas.

(** ** The file system *)

(** [AFail n] is an error after [n] bytes of a transfer, [ACrash n] the end of
    the process after [n] bytes; for a rename [ACrash 0] is before and
    [ACrash (S _)] after the (atomic) change. *)
Inductive answer := AOk | AFail (n : nat) | ACrash (n : nat).

Record reply := Reply { r_answer : answer; r_time : Z }.

Record file := File { f_data : string; f_mtime : Z }.

(** A path below the root of the store: its directory there and its name. *)
Abbreviation path := (string * string)%type.

Record world := World {
  w_fs : gmap path file;
  w_ext : gmap string string;
  w_tmp : Z;
  w_now : Z;
  w_oracle : list reply;
}.

Definition set_fs (f : gmap path file → gmap path file) (w : world) : world :=
  World (f (w_fs w)) (w_ext w) (w_tmp w) (w_now w) (w_oracle w).
Definition set_ext (f : gmap string string → gmap string string) (w : world) : world :=
  World (w_fs w) (f (w_ext w)) (w_tmp w) (w_now w) (w_oracle w).

Inductive error :=
| EInvalidDigest (d : Digest)
| EIO (op : string)
| EDecodeManifest (e : decode_error)
| ETooLarge (d : Digest)
| EMismatch (want got : Digest)
| EMissingChunk (d : Digest) (file : string)
| ENoFile (name : string)
| ENotRecorded (name : string)
| EChunkCount (name : string)
| EChunkDiffers (name : string) (i : nat)
| ERemote
| EFuel.

(** A Go call returns, fails with an error, panics, or never returns because the
    process crashed.  Error handling and deferred functions see only the first
    two. *)
Inductive outcome (A : Type) :=
| Ret (a : A)
| Fail (e : error)
| Panic
| Crash.
Arguments Ret {A} a.
Arguments Fail {A} e.
Arguments Panic {A}.
Arguments Crash {A}.

Definition M (A : Type) : Type := world → outcome A * world.

#[global] Instance M_ret : MRet M := λ A a w, (Ret a, w).
#[global] Instance M_bind : MBind M := λ A B k m w,
  match m w with
  | (Ret a, w') => k a w'
  | (Fail e, w') => (Fail e, w')
  | (Panic, w') => (Panic, w')
  | (Crash, w') => (Crash, w')
  end.

Definition fail {A} (e : error) : M A := λ w, (Fail e, w).
Definition panic {A} : M A := λ w, (Panic, w).
Definition crash {A} : M A := λ w, (Crash, w).
Definition get : M world := λ w, (Ret w, w).
Definition modify (f : world → world) : M unit := λ w, (Ret (), f w).

(** The value of an error result that the caller inspects. *)
Definition try {A} (m : M A) : M (error + A) := λ w,
  match m w with
  | (Ret a, w') => (Ret (inr a), w')
  | (Fail e, w') => (Ret (inl e), w')
  | (Panic, w') => (Panic, w')
  | (Crash, w') => (Crash, w')
  end.

(** One system call: the next reply, its time becoming the wall-clock time. *)
Definition sys : M answer := λ w,
  match w_oracle w with
  | [] => (Ret AOk, w)
  | r :: o => (Ret (r_answer r), World (w_fs w) (w_ext w) (w_tmp w) (r_time r) o)
  end.

(** A call without partial effects: did it succeed? *)
Definition call : M bool :=
  a ← sys;
  match a with AOk => mret true | AFail _ => mret false | ACrash _ => crash end.

Definition call_or (op : string) : M unit :=
  ok ← call; if (ok : bool) then mret () else fail (EIO op).

Fixpoint str_take (n : nat) (s : string) : string :=
  match n, s with
  | S n', String c s' => String c (str_take n' s')
  | _, _ => ""
  end.

(** The first [n] bytes of [s] and the rest. *)
Fixpoint read_upto (n : Z) (s : string) : string * string :=
  match s with
  | "" => ("", "")
  | String c s' =>
      if n <=? 0 then ("", s)
      else let '(a, b) := read_upto (n - 1) s' in (String c a, b)
  end.

Definition str_len (s : string) : Z := Z.of_nat (String.length s).

(** [os.ReadFile] of a file of the store. *)
Definition read_file (p : path) : M string :=
  call_or "read" ;;
  w ← get;
  match w_fs w !! p with
  | Some f => mret (f_data f)
  | None => fail (EIO "not exist")
  end.

(** [os.Stat(p)] and whether it returned no error. *)
Definition stat (p : path) : M bool :=
  ok ← call;
  w ← get;
  mret ((ok : bool) && bool_decide (is_Some (w_fs w !! p))).

(** ** path/filepath *)

(** The components of [s] between slashes. *)
Fixpoint split_slash (s : string) : list string :=
  match s with
  | "" => [""]
  | String c s' =>
      if bool_decide (c = "/"%char) then "" :: split_slash s'
      else match split_slash s' with
           | x :: l => String c x :: l
           | [] => [String c ""]
           end
  end.

(** One component of [Clean]; the stack is the output so far, last first. *)
Definition clean_step (rooted : bool) (stack : list string) (c : string) : list string :=
  if bool_decide (c = "") || bool_decide (c = ".") then stack
  else if bool_decide (c = "..") then
    match stack with
    | [] => if rooted then [] else [".."]
    | x :: stack' => if bool_decide (x = "..") then ".." :: stack else stack'
    end
  else c :: stack.

Fixpoint join_slash (l : list string) : string :=
  match l with
  | [] => ""
  | [x] => x
  | x :: l' => x +:+ "/" +:+ join_slash l'
  end.

Definition filepath_Clean (p : string) : string :=
  let rooted := match p with String "/" _ => true | _ => false end in
  match foldl (clean_step rooted) [] (split_slash p) with
  | [] => if rooted then "/" else "."
  | stack => (if rooted then "/" else "") +:+ join_slash (reverse stack)
  end.

Definition filepath_Join (a b : string) : string :=
  if bool_decide (a = "") then (if bool_decide (b = "") then "" else filepath_Clean b)
  else filepath_Clean (a +:+ "/" +:+ b).

(** ** Where a path leads *)

(** The directory a [Store] is rooted at. *)
Class Root := root : string.

(** The last component of [s] and what is before its slash. *)
Definition split_last (s : string) : path :=
  match reverse (split_slash s) with
  | [] => ("", "")
  | name :: dirs => (join_slash (reverse dirs), name)
  end.

(** The file a path names: one below the root, or one outside.  The empty path
    names none. *)
Definition place `{!Root} (p : string) : path + string :=
  let q := if bool_decide (p = "") then "" else filepath_Clean p in
  let r := filepath_Clean root in
  match strip_prefix (if bool_decide (r = "/") then "/" else r +:+ "/") q with
  | Some rest => inl (split_last rest)
  | None => inr q
  end.

Definition content `{!Root} (w : world) (p : string) : option string :=
  match place p with inl q => f_data <$> w_fs w !! q | inr q => w_ext w !! q end.

Definition write_file `{!Root} (p data : string) (w : world) : world :=
  match place p with
  | inl q => set_fs <[q := File data (w_now w)]> w
  | inr q => set_ext <[q := data]> w
  end.

Definition remove_file `{!Root} (p : string) (w : world) : world :=
  match place p with inl q => set_fs (delete q) w | inr q => set_ext (delete q) w end.

(** ** Paths (store.go)

    A digest is one path component: exact for every validated digest, and for the
    names [Pin] and [Unpin] are given as long as they hold no slash. *)

Definition chunkPath (d : Digest) : M path :=
  if (String.length d <? 2)%nat then panic
  else mret ("chunks/" +:+ String.substring 0 2 d, d).

Definition manifestPath (d : Digest) : path := ("manifests", d).
Definition pinPath (d : Digest) : path := ("pins", d).

(** [New]: the directory skeleton; directories are implicit in the model. *)
Definition New : M unit :=
  call_or "mkdir chunks" ;; call_or "mkdir manifests" ;; call_or "mkdir pins".

Definition Validate (d : Digest) : M unit :=
  if valid_digest d then mret () else fail (EInvalidDigest d).

Definition HasChunk (d : Digest) : M bool :=
  if valid_digest d then p ← chunkPath d; stat p else mret false.

Definition HasManifest (d : Digest) : M bool :=
  if valid_digest d then stat (manifestPath d) else mret false.

Definition GetManifest (d : Digest) : M Manifest :=
  Validate d ;;
  data ← read_file (manifestPath d);
  match decodeManifest data with
  | Ok m => mret m
  | Err e => fail (EDecodeManifest e)
  end.

(** ** atomicWrite *)

Definition tmp_name (n : Z) : string := ".tmp-" +:+ fmt_int n.

(** The next name from [n] on that no file has.  Of [size fs + 1] names one is free. *)
Fixpoint free_tmp (fuel : nat) (fs : gmap path file) (dir : string) (n : Z) : Z :=
  match fuel with
  | O => n
  | S fuel' =>
      if bool_decide (is_Some (fs !! (dir, tmp_name n))) then free_tmp fuel' fs dir (n + 1) else n
  end.

(** [os.CreateTemp]: an empty file under a name that no file has. *)
Definition create_temp (dir : string) : M path :=
  call_or "create temp" ;;
  w ← get;
  let n := free_tmp (base.size (w_fs w)) (w_fs w) dir (w_tmp w) in
  let p := (dir, tmp_name n) in
  modify (λ w, World (<[p := File "" (w_now w)]> (w_fs w)) (w_ext w) (n + 1)
                 (w_now w) (w_oracle w)) ;;
  mret p.

Definition put (p : path) (data : string) : M unit :=
  modify (λ w, set_fs <[p := File data (w_now w)]> w).

(** The deferred best-effort removal of the temporary file. *)
Definition cleanup (p : path) : M unit :=
  ok ← call; if (ok : bool) then modify (set_fs (delete p)) else mret ().

Definition atomicWrite (dst : path) (data : string) : M unit :=
  tmp ← create_temp dst.1;
  a ← sys;
  match a with
  | ACrash n => put tmp (str_take n data) ;; crash
  | AFail n =>
      put tmp (str_take n data) ;; call ;; cleanup tmp ;; fail (EIO "write temp")
  | AOk =>
      put tmp data ;;
      ok ← call;
      if negb (ok : bool) then cleanup tmp ;; fail (EIO "close temp")
      else
        let rename := modify (λ w, set_fs (λ fs,
          match fs !! tmp with
          | Some f => <[dst := f]> (delete tmp fs)
          | None => fs
          end) w) in
        b ← sys;
        match b with
        | AOk => rename
        | AFail _ => cleanup tmp ;; fail (EIO "rename temp")
        | ACrash O => crash
        | ACrash (S _) => rename ;; crash
        end
  end.

Definition writeChunk (d : Digest) (data : string) : M unit :=
  dst ← chunkPath d;
  call_or "mkdir chunk shard" ;;
  atomicWrite dst data.

(** An [io.Reader]: the bytes it delivers, and whether it then ends with an error
    instead of [io.EOF]. *)
Record reader := Reader { rd_data : string; rd_err : bool }.

(** [io.ReadAll(io.LimitReader(r, n))]: the error is met only when the limit is
    not reached first. *)
Definition read_all_limited (r : reader) (n : Z) : M string :=
  let data := (read_upto n (rd_data r)).1 in
  if rd_err r && (str_len data <? n) then fail (EIO "read chunk") else mret data.

Definition PutChunk (d : Digest) (r : reader) : M unit :=
  Validate d ;;
  data ← read_all_limited r (ChunkSize + 1);
  if ChunkSize <? str_len data then fail (ETooLarge d)
  else
    let got := digestBytes data in
    if bool_decide (got = d) then writeChunk d data else fail (EMismatch d got).

Section store.
Context `{HS : !SliceSort, HR : !Root}.

Definition writeManifest (m : Manifest) : M unit :=
  atomicWrite (manifestPath (Manifest_Digest m)) (Canonical m).

Definition PutManifest (m : Manifest) : M unit := writeManifest m.

(** ** Reading a file in chunks (chunk.go, putFileChunks) *)

Inductive read_err := RNil | REOF | RUnexpectedEOF | RError.

(** [io.ReadFull(f, buf)] at the unread suffix [rest] of the file: the bytes
    read, the new suffix and the error. *)
Definition read_full (rest : string) : M (string * string * read_err) :=
  a ← sys;
  match a with
  | AOk =>
      let '(block, rest') := read_upto ChunkSize rest in
      let n := str_len block in
      mret (block, rest',
            if n =? 0 then REOF else if n <? ChunkSize then RUnexpectedEOF else RNil)
  | AFail n =>
      let '(block, rest') := read_upto (Z.min (Z.of_nat n) (ChunkSize - 1)) rest in
      mret (block, rest', RError)
  | ACrash _ => crash
  end.

(** The read loop.  [each] is what the body does with a block; [n] bounds the
    iterations. *)
Fixpoint read_loop (each : string → M ChunkRef) (n : nat) (rest : string) (acc : list ChunkRef) :
    M (list ChunkRef) :=
  match n with
  | O => fail EFuel
  | S n' =>
      '(block, rest', err) ← read_full rest;
      acc' ← (if 0 <? str_len block then c ← each block; mret (acc ++ [c]) else mret acc);
      match err with
      | REOF | RUnexpectedEOF => mret acc'
      | RError => fail (EIO "read")
      | RNil => read_loop each n' rest' acc'
      end
  end.

(** Every full block consumes at least one byte, so one iteration more than
    there are bytes is enough. *)
Definition loop_fuel (data : string) : nat := S (String.length data).

Definition open_path (p : string) : M string :=
  call_or "open" ;;
  w ← get;
  match content w p with Some data => mret data | None => fail (EIO "not exist") end.

Definition stat_path (p : string) : M Z :=
  call_or "stat" ;;
  w ← get;
  match content w p with Some data => mret (str_len data) | None => fail (EIO "not exist") end.

Definition chunk_ref (block : string) : ChunkRef :=
  {| cr_Digest := digestBytes block; cr_Size := str_len block |}.

Definition chunkFile (p : string) : M (list ChunkRef) :=
  data ← open_path p;
  read_loop (λ block, mret (chunk_ref block)) (loop_fuel data) data [].

Definition putFileChunks (name p : string) : M FileEntry :=
  size ← stat_path p;
  data ← open_path p;
  chunks ← read_loop (λ block,
      let d := digestBytes block in
      has ← HasChunk d;
      (if (has : bool) then mret () else writeChunk d block) ;;
      mret (chunk_ref block)) (loop_fuel data) data [];
  mret {| fe_Name := name; fe_Size := size; fe_Chunks := chunks |}.

(** The names of the file map in order, with their paths. *)
Definition sorted_files (files : gmap string string) : list (string * string) :=
  omap (λ n, (n,.) <$> files !! n) (sort_slice str_ltb (elements (dom files))).

Fixpoint map_m {A B} (f : A → M B) (l : list A) : M (list B) :=
  match l with
  | [] => mret []
  | x :: l' => y ← f x; ys ← map_m f l'; mret (y :: ys)
  end.

Definition BuildManifest (files : gmap string string) (meta : Metadata) : M Manifest :=
  entries ← map_m (λ '(name, p),
      size ← stat_path p;
      chunks ← chunkFile p;
      mret {| fe_Name := name; fe_Size := size; fe_Chunks := chunks |}) (sorted_files files);
  mret (manifestFrom entries meta).

Definition PutSnapshot (files : gmap string string) (meta : Metadata) : M Manifest :=
  entries ← map_m (λ '(name, p), putFileChunks name p) (sorted_files files);
  let m := manifestFrom entries meta in
  writeManifest m ;;
  mret m.

(** ** Reading back *)

(** The references of a manifest in order. *)
Definition refs (m : Manifest) : list Digest :=
  concat ((λ fe, cr_Digest <$> fe_Chunks fe) <$> m_Files m).

Fixpoint missing_loop (l : list Digest) (seen : gset Digest) : M (list Digest) :=
  match l with
  | [] => mret []
  | d :: l' =>
      if bool_decide (d ∈ seen) then missing_loop l' seen
      else
        has ← HasChunk d;
        rest ← missing_loop l' ({[d]} ∪ seen);
        mret (if (has : bool) then rest else d :: rest)
  end.

Definition MissingChunks (m : Manifest) : M (list Digest) := missing_loop (refs m) ∅.

(** [io.Copy(io.MultiWriter(out, h), in)] of a chunk into the open output [dst]
    (whose contents so far are in the world), then the check. *)
Definition append_file (dst data : string) : M unit :=
  modify (λ w, write_file dst (default "" (content w dst) +:+ data) w).

(** [n] bytes of [data], over and over. *)
Fixpoint cycle (n : nat) (data : string) : string :=
  match n with O => "" | S n' => str_take n (data +:+ cycle n' data) end.

(** A copy whose output is the chunk itself reads what it writes: unless the file
    is empty it ends only when a call fails. *)
Definition copyVerifiedChunk (dst : string) (c : ChunkRef) (fileName : string) : M unit :=
  cp ← chunkPath (cr_Digest c);
  opened ← call;
  w ← get;
  match (if (opened : bool) then w_fs w !! cp else None) with
  | None => fail (EMissingChunk (cr_Digest c) fileName)
  | Some f =>
      let itself := bool_decide (place dst = inl cp) && negb (bool_decide (f_data f = "")) in
      let some n := if itself then cycle n (f_data f) else str_take n (f_data f) in
      a ← sys;
      match a with
      | AFail n => append_file dst (some n) ;; fail (EIO "read chunk")
      | ACrash n => append_file dst (some n) ;; crash
      | AOk =>
          append_file dst (f_data f) ;;
          let got := digestBytes (f_data f) in
          if itself then fail (EIO "read chunk")
          else if bool_decide (got = cr_Digest c) then mret () else fail (EMismatch (cr_Digest c) got)
      end
  end.

Definition touchChunk (d : Digest) : M unit :=
  p ← chunkPath d;
  ok ← call;
  if (ok : bool) then modify (λ w, set_fs (alter (λ f, File (f_data f) (w_now w)) p) w)
  else mret ().

Fixpoint copy_chunks (dst : string) (cs : list ChunkRef) (fileName : string) : M unit :=
  match cs with
  | [] => mret ()
  | c :: cs' =>
      copyVerifiedChunk dst c fileName ;;
      touchChunk (cr_Digest c) ;;
      copy_chunks dst cs' fileName
  end.

Definition materializeFileAt (fe : FileEntry) (dst : string) : M unit :=
  call_or "create" ;;
  modify (write_file dst "") ;;
  r ← try (copy_chunks dst (fe_Chunks fe) (fe_Name fe) ;; call_or "sync" ;; call_or "close");
  match r with
  | inr _ => mret ()
  | inl e =>
      ok ← call;
      (if (ok : bool) then modify (remove_file dst) else mret ()) ;;
      fail e
  end.

Definition materializeFile (fe : FileEntry) (dstDir : string) : M unit :=
  materializeFileAt fe (filepath_Join dstDir (fe_Name fe)).

Fixpoint iter_m {A} (f : A → M unit) (l : list A) : M unit :=
  match l with [] => mret () | x :: l' => f x ;; iter_m f l' end.

Definition Materialize (d : Digest) (dstDir : string) : M unit :=
  Validate d ;;
  m ← GetManifest d;
  call_or "mkdir dst" ;;
  iter_m (λ fe, materializeFile fe dstDir) (m_Files m).

Fixpoint materialize_named (l : list FileEntry) (name dstPath : string) : M unit :=
  match l with
  | [] => fail (ENoFile name)
  | fe :: l' =>
      if bool_decide (fe_Name fe = name) then call_or "mkdir" ;; materializeFileAt fe dstPath
      else materialize_named l' name dstPath
  end.

Definition MaterializeFileTo (d : Digest) (name dstPath : string) : M unit :=
  Validate d ;;
  m ← GetManifest d;
  materialize_named (m_Files m) name dstPath.

(** ** Verification (verify.go) *)

Fixpoint compare_from (name : string) (i : nat) (want got : list ChunkRef) : M unit :=
  match want, got with
  | a :: want', b :: got' =>
      if bool_decide (cr_Digest a = cr_Digest b) && (cr_Size a =? cr_Size b)
      then compare_from name (S i) want' got'
      else fail (EChunkDiffers name i)
  | _, _ => mret ()
  end.

Definition compareChunks (name : string) (want got : list ChunkRef) : M unit :=
  if negb (length want =? length got)%nat then fail (EChunkCount name)
  else compare_from name 0 want got.

(** [byName]: for a repeated name the last entry wins. *)
Definition byName (m : Manifest) (name : string) : option FileEntry :=
  foldl (λ acc fe, if bool_decide (fe_Name fe = name) then Some fe else acc) None (m_Files m).

(** [files] in the order the map is ranged over. *)
Definition VerifyFilesAgainstManifest (m : Manifest) (files : list (string * string)) : M unit :=
  iter_m (λ '(name, p),
    match byName m name with
    | None => fail (ENotRecorded name)
    | Some fe => chunks ← chunkFile p; compareChunks name (fe_Chunks fe) chunks
    end) files.

(** ** Pinning and eviction (evict.go) *)

Definition Pin (d : Digest) : M unit := atomicWrite (pinPath d) "".

Definition Unpin (d : Digest) : M unit :=
  call_or "remove pin" ;;
  modify (set_fs (delete (pinPath d))).

Definition IsPinned (d : Digest) : M bool :=
  call_or "stat pin" ;;
  w ← get;
  mret (bool_decide (is_Some (w_fs w !! pinPath d))).

(** The names in a directory, in name order, as [os.ReadDir] gives them. *)
Definition read_dir (w : world) (dir : string) : list string :=
  sort_slice str_ltb ((λ p, p.2) <$> filter (λ p, p.1 = dir) (map_to_list (w_fs w)).*1).

Fixpoint pinned_loop (l : list string) (pinned : gset Digest) : M (gset Digest) :=
  match l with
  | [] => mret pinned
  | d :: l' =>
      r ← try (GetManifest d);
      match r with
      | inl _ => pinned_loop l' pinned
      | inr m => pinned_loop l' (list_to_set (refs m) ∪ pinned)
      end
  end.

Definition pinnedChunks : M (gset Digest) :=
  call_or "read pins" ;;
  w ← get;
  pinned_loop (read_dir w "pins") ∅.

Record chunkStat := ChunkStat { cs_digest : Digest; cs_path : path; cs_size : Z; cs_mtime : Z }.

Definition in_chunks (p : path) : bool :=
  match strip_prefix "chunks/" p.1 with Some _ => true | None => false end.

Definition chunk_stats (w : world) : list chunkStat :=
  (λ pf, ChunkStat pf.1.2 pf.1 (str_len (f_data pf.2)) (f_mtime pf.2)) <$>
  filter (λ pf, in_chunks pf.1 = true) (map_to_list (w_fs w)).

Definition scanChunks : M (list chunkStat) :=
  call_or "scan chunks" ;;
  w ← get;
  mret (chunk_stats w).

(** [total += st.size] over the stats. *)
Definition add_sizes (l : list chunkStat) : Z := foldl (λ t st, int64 (t + cs_size st)) 0 l.

Definition totalChunkBytes : M Z := stats ← scanChunks; mret (add_sizes stats).
Definition TotalBytes : M Z := totalChunkBytes.

Definition mtime_less (a b : chunkStat) : bool := cs_mtime a <? cs_mtime b.

Fixpoint evict_loop (maxBytes : Z) (pinned : gset Digest) (l : list chunkStat) (total freed : Z) :
    M Z :=
  match l with
  | [] => mret freed
  | st :: l' =>
      if total <=? maxBytes then mret freed
      else if bool_decide (cs_digest st ∈ pinned) then evict_loop maxBytes pinned l' total freed
      else
        call_or "evict chunk" ;;
        modify (set_fs (delete (cs_path st))) ;;
        evict_loop maxBytes pinned l' (int64 (total - cs_size st)) (int64 (freed + cs_size st))
  end.

Definition EvictToFit (maxBytes : Z) : M Z :=
  stats ← scanChunks;
  pinned ← pinnedChunks;
  let total := add_sizes stats in
  if total <=? maxBytes then mret 0
  else evict_loop maxBytes pinned (sort_slice mtime_less stats) total 0.

(** ** Pulling from a peer (transport.go) *)

(** The peer, any behaviour: an error or a manifest, an error or a byte stream. *)
Class Transport := {
  tr_GetManifest : Digest → option Manifest;
  tr_GetChunk : Digest → option reader;
}.

Definition pullChunk `{!Transport} (d : Digest) : M unit :=
  match tr_GetChunk d with
  | None => fail ERemote
  | Some rc => PutChunk d rc
  end.

Definition Pull `{!Transport} (d : Digest) : M unit :=
  Validate d ;;
  match tr_GetManifest d with
  | None => fail ERemote
  | Some m =>
      let got := Manifest_Digest m in
      if bool_decide (got = d) then
        missing ← MissingChunks m;
        iter_m pullChunk missing ;;
        PutManifest m
      else fail (EMismatch d got)
  end.

End store.

End Cas.
