(* ===== verification/CasInvariant.v ===== *)
(** * What the store's operations may change, under every behaviour of the system

    The reasoning rules for the store's programs, the effect of [atomicWrite] in
    all its outcomes, and the integrity of the store (a file under a digest name
    has that digest) as an invariant of every operation that does not materialize
    into the store itself, crashes and failing system calls included. *)

From Stdlib Require Import Ascii DecimalString DecimalZ DecimalPos.
From S2P Require Import Prelude Sha256 Json Manifest Cas.
Import Sha256 Json Manifest Cas.

Module CasInvariant.

(** ** Programs that only take steps of a preorder *)

Definition evolves {A} (R : relation world) (m : M A) : Prop := ∀ w, R w (m w).2.

(** The steps a relation on worlds has to allow: a system call being answered. *)
Class SysStep (R : relation world) : Prop := {
  ss_preorder :: PreOrder R;
  ss_reply w r o : w_oracle w = r :: o → R w (World (w_fs w) (w_ext w) (w_tmp w) (r_time r) o);
}.

Create HintDb cas.

Section rules.
Context (R : relation world) `{!SysStep R}.

Lemma ev_ret {A} (a : A) : evolves R (mret a).
Proof. intros w. reflexivity. Qed.
Lemma ev_fail {A} e : evolves R (fail (A:=A) e).
Proof. intros w. reflexivity. Qed.
Lemma ev_panic {A} : evolves R (panic (A:=A)).
Proof. intros w. reflexivity. Qed.
Lemma ev_crash {A} : evolves R (crash (A:=A)).
Proof. intros w. reflexivity. Qed.
Lemma ev_get : evolves R get.
Proof. intros w. reflexivity. Qed.

Lemma ev_sys : evolves R sys.
Proof.
  intros w. unfold sys. destruct (w_oracle w) eqn:Ho; cbn; [reflexivity|by apply ss_reply].
Qed.

Lemma ev_modify f : (∀ w, R w (f w)) → evolves R (modify f).
Proof. intros H w. apply H. Qed.

Lemma ev_bind {A B} (m : M A) (k : A → M B) :
  evolves R m → (∀ a, evolves R (k a)) → evolves R (m ≫= k).
Proof.
  intros Hm Hk w. unfold mbind, M_bind. specialize (Hm w).
  destruct (m w) as [[a|e| |] w']; cbn in *; try done. etrans; [done|apply Hk].
Qed.

Lemma ev_try {A} (m : M A) : evolves R m → evolves R (try m).
Proof. intros Hm w. unfold try. specialize (Hm w). by destruct (m w) as [[] w']. Qed.

Lemma ev_call : evolves R call.
Proof.
  apply ev_bind; [apply ev_sys|]. intros []; auto using ev_ret, ev_crash.
Qed.

Lemma ev_call_or op : evolves R (call_or op).
Proof. apply ev_bind; [apply ev_call|]. intros []; auto using ev_ret, ev_fail. Qed.

End rules.

#[export] Hint Resolve ev_ret ev_fail ev_panic ev_crash ev_get ev_sys ev_modify ev_bind ev_try
  ev_call ev_call_or : cas.
#[export] Hint Extern 0 (SysStep _) => apply _ : cas.

(** One structural step through a program. *)
Ltac ev_step :=
  match goal with
  | |- SysStep _ => apply _
  | |- evolves _ (if bool_decide _ then _ else _) => case_bool_decide
  | |- evolves _ (match ?x with _ => _ end) => destruct x
  | |- evolves _ (let '_ := ?x in _) => destruct x
  | |- evolves _ (_ ≫= _) => apply ev_bind
  | |- evolves _ _ => solve [auto with cas]
  | |- _ → evolves _ _ => intros ?
  | |- ∀ _, evolves _ _ => intros ?
  end.
Ltac ev := repeat ev_step.

(** ** Weakest preconditions, over every outcome *)

Definition wp {A} (m : M A) (Q : outcome A → world → Prop) (w : world) : Prop := Q (m w).1 (m w).2.

Lemma wp_elim {A} (m : M A) Q w : wp m Q w → ∀ o w', m w = (o, w') → Q o w'.
Proof. unfold wp. intros H o w' E. by rewrite E in H. Qed.

Lemma wp_mono {A} (m : M A) (P Q : outcome A → world → Prop) w :
  wp m P w → (∀ o w', P o w' → Q o w') → wp m Q w.
Proof. unfold wp. auto. Qed.

Definition then_wp {A B} (k : A → M B) (Q : outcome B → world → Prop) (o : outcome A) (w : world) :
    Prop :=
  match o with
  | Ret a => wp (k a) Q w
  | Fail e => Q (Fail e) w
  | Panic => Q Panic w
  | Crash => Q Crash w
  end.

Lemma wp_bind {A B} (m : M A) (k : A → M B) Q w :
  wp m (then_wp k Q) w → wp (m ≫= k) Q w.
Proof.
  unfold wp, mbind, M_bind. destruct (m w) as [[] w']; cbn; done.
Qed.

Lemma wp_bind_inv {A B} (m : M A) (k : A → M B) Q w :
  wp (m ≫= k) Q w → wp m (then_wp k Q) w.
Proof.
  unfold wp, mbind, M_bind. destruct (m w) as [[] w']; cbn; done.
Qed.

Lemma wp_ret {A} (a : A) Q w : Q (Ret a) w → wp (mret a) Q w.
Proof. done. Qed.
Lemma wp_fail {A} e (Q : outcome A → world → Prop) w : Q (Fail e) w → wp (fail e) Q w.
Proof. done. Qed.
Lemma wp_panic {A} (Q : outcome A → world → Prop) w : Q Panic w → wp panic Q w.
Proof. done. Qed.
Lemma wp_crash {A} (Q : outcome A → world → Prop) w : Q Crash w → wp crash Q w.
Proof. done. Qed.
Lemma wp_get Q w : Q (Ret w) w → wp get Q w.
Proof. done. Qed.
Lemma wp_modify f Q w : Q (Ret ()) (f w) → wp (modify f) Q w.
Proof. done. Qed.

Lemma wp_try {A} (m : M A) Q w :
  wp m (λ o w', match o with
                | Ret a => Q (Ret (inr a)) w'
                | Fail e => Q (Ret (inl e)) w'
                | Panic => Q Panic w'
                | Crash => Q Crash w'
                end) w → wp (try m) Q w.
Proof. unfold wp, try. by destruct (m w) as [[] w']. Qed.

(** Outcomes other than a panic or exhausted fuel. *)
Definition fine {A} (o : outcome A) : Prop :=
  match o with Panic | Fail EFuel => False | _ => True end.
#[export] Hint Extern 1 (fine _) => exact I : core.

Definition is_ret {A} (o : outcome A) : Prop := match o with Ret _ => True | _ => False end.

(** The operating system answered; no file changed. *)
Definition quiet (w w' : world) : Prop :=
  w_fs w' = w_fs w ∧ w_ext w' = w_ext w ∧ w_tmp w' = w_tmp w ∧
  (w_oracle w = [] → w_oracle w' = []).

Lemma quiet_refl w : quiet w w.
Proof. by repeat split. Qed.

Lemma quiet_trans w1 w2 w3 : quiet w1 w2 → quiet w2 w3 → quiet w1 w3.
Proof. intros (?&?&?&?) (?&?&?&?). repeat split; [congruence..|auto]. Qed.

#[global] Instance quiet_sys : SysStep quiet.
Proof.
  split; [split; [intros w; apply quiet_refl|intros w1 w2 w3; apply quiet_trans]|].
  intros w r o Ho. repeat split. by rewrite Ho.
Qed.

Lemma wp_sys Q w :
  (∀ a w', quiet w w' → (w_oracle w = [] → a = AOk) → Q (Ret a) w') → wp sys Q w.
Proof.
  unfold wp, sys. intros H. destruct (w_oracle w) as [|r o] eqn:Ho; cbn.
  - apply H; [apply quiet_refl|done].
  - apply H; [|done]. repeat split. by rewrite Ho.
Qed.

Lemma wp_call Q w :
  (∀ b w', quiet w w' → (w_oracle w = [] → b = true) → Q (Ret b) w') →
  (∀ w', quiet w w' → w_oracle w ≠ [] → Q Crash w') →
  wp call Q w.
Proof.
  intros Hb Hc. apply wp_bind, wp_sys. intros [|n|n] w' Hq Ho; cbn.
  - by apply Hb.
  - apply Hb; [done|]. by intros ?%Ho.
  - apply Hc; [done|]. by intros ?%Ho.
Qed.

Lemma wp_call_or op Q w :
  (∀ w', quiet w w' → Q (Ret ()) w') →
  (∀ w', quiet w w' → w_oracle w ≠ [] → Q (Fail (EIO op)) w') →
  (∀ w', quiet w w' → w_oracle w ≠ [] → Q Crash w') →
  wp (call_or op) Q w.
Proof.
  intros H1 H2 H3. apply wp_bind, wp_call; [|done]. intros [] w' Hq Ho; cbn.
  - by apply H1.
  - apply H2; [done|]. by intros ?%Ho.
Qed.

(** ** Specifications

    [spec F m w P], for a proposition [F] that holds if system calls may fail: from
    [w], [m] neither panics nor runs out of fuel, it returns unless [F], and
    whenever it returns, the result satisfies [P]. *)

Definition oracle_ok (F : Prop) (w : world) : Prop := w_oracle w ≠ [] → F.

Definition spec_post {A} (F : Prop) (P : A → world → Prop) (o : outcome A) (w' : world) : Prop :=
  fine o ∧ oracle_ok F w' ∧ (is_ret o ∨ F) ∧ ∀ a, o = Ret a → P a w'.

Definition spec {A} (F : Prop) (m : M A) (w : world) (P : A → world → Prop) : Prop :=
  oracle_ok F w → wp m (spec_post F P) w.

Section spec_rules.
Context (F : Prop).

Lemma spec_returns {A} (P : A → world → Prop) a w : oracle_ok F w → P a w → spec_post F P (Ret a) w.
Proof. intros Ho HP. split; [done|split; [done|split; [by left|]]]. by intros ? [= <-]. Qed.

Lemma spec_stops {A} (P : A → world → Prop) o w :
  fine o → oracle_ok F w → F → (∀ a, o ≠ Ret a) → spec_post F P o w.
Proof. intros Hf Ho HF Hn. split; [done|split; [done|split; [by right|]]]. by intros a ?%Hn. Qed.

Lemma spec_mono {A} (m : M A) w (P P' : A → world → Prop) :
  spec F m w P → (∀ a w', P a w' → P' a w') → spec F m w P'.
Proof. intros H HP Ho. apply (wp_mono _ _ _ _ (H Ho)). unfold spec_post. naive_solver. Qed.

Lemma spec_ret {A} (a : A) w (P : A → world → Prop) : P a w → spec F (mret a) w P.
Proof. intros HP Ho. by apply wp_ret, spec_returns. Qed.

Lemma spec_fail {A} e w (P : A → world → Prop) :
  F → fine (A:=A) (Fail e) → spec F (fail e) w P.
Proof. intros HF Hf Ho. by apply wp_fail, spec_stops. Qed.

Lemma spec_crash {A} w (P : A → world → Prop) : F → spec F crash w P.
Proof. intros HF Ho. by apply wp_crash, spec_stops. Qed.

Lemma spec_modify f w (P : unit → world → Prop) :
  w_oracle (f w) = w_oracle w → P () (f w) → spec F (modify f) w P.
Proof.
  intros Ho HP Hw. apply wp_modify, spec_returns; [|done]. unfold oracle_ok. by rewrite Ho.
Qed.

Lemma spec_get w (P : world → world → Prop) : P w w → spec F get w P.
Proof. intros HP Ho. by apply wp_get, spec_returns. Qed.

Lemma spec_bind {A B} (m : M A) (k : A → M B) w (P : A → world → Prop) (P' : B → world → Prop) :
  spec F m w P → (∀ a w', P a w' → spec F (k a) w' P') → spec F (m ≫= k) w P'.
Proof.
  intros Hm Hk Ho. apply wp_bind, (wp_mono _ _ _ _ (Hm Ho)).
  intros [a|e| |] w1 (Hf&Ho1&Hr&HP); cbn; try done; [by apply Hk; [apply HP|]|..];
    (apply spec_stops; [done..|by destruct Hr|done]).
Qed.

Lemma spec_try {A} (m : M A) w (P : A → world → Prop) :
  spec F m w P →
  spec F (try m) w
    (λ r w', match r with inr a => P a w' | inl e => F ∧ fine (A:=A) (Fail e) end).
Proof.
  intros Hm Ho. apply wp_try, (wp_mono _ _ _ _ (Hm Ho)).
  intros [a|e| |] w1 (Hf&Ho1&Hr&HP); cbn in Hf; try done.
  - apply spec_returns; [done|]. by apply HP.
  - apply spec_returns; [done|]. by destruct Hr.
Qed.

Lemma spec_evolves {A} R (m : M A) w (P : A → world → Prop) :
  evolves R m → spec F m w P → spec F m w (λ a w', P a w' ∧ R w w').
Proof. intros HR Hm Ho. destruct (Hm Ho) as (?&?&?&?). split; auto. Qed.

Lemma quiet_oracle w w' : quiet w w' → oracle_ok F w → oracle_ok F w'.
Proof. intros (_&_&_&Hq) Ho Hn. apply Ho. by intros ?%Hq. Qed.

Lemma spec_sys w : spec F sys w (λ a w', quiet w w' ∧ (a = AOk ∨ F)).
Proof.
  intros Ho. apply wp_sys. intros a w' Hq Ha. apply spec_returns; [by eapply quiet_oracle|].
  split; [done|]. destruct (decide (w_oracle w = [])); auto.
Qed.

Lemma spec_call w : spec F call w (λ b w', quiet w w' ∧ (b = true ∨ F)).
Proof.
  intros Ho. apply wp_call.
  - intros b w' Hq Hb. apply spec_returns; [by eapply quiet_oracle|].
    split; [done|]. destruct (decide (w_oracle w = [])); auto.
  - intros w' Hq Hn. apply spec_stops; [done|by eapply quiet_oracle|auto|done].
Qed.

Lemma spec_call_or op w : spec F (call_or op) w (λ _ w', quiet w w').
Proof.
  eapply spec_bind; [apply spec_call|]. intros [] w' [Hq Hb]; [by apply spec_ret|].
  apply spec_fail; [|done]. by destruct Hb.
Qed.

End spec_rules.

(** ** Temporary names *)

Definition is_tmp (name : string) : bool := String.prefix ".tmp-" name.

#[global] Arguments is_tmp : simpl never.
#[global] Arguments digestBytes : simpl never.

Lemma is_tmp_tmp_name n : is_tmp (tmp_name n) = true.
Proof. unfold is_tmp, tmp_name. rewrite !str_app_cons. cbn. by destruct ("" +:+ fmt_int n). Qed.

Lemma valid_digest_not_tmp d : valid_digest d = true → is_tmp d = false.
Proof.
  destruct d as [|c d]; [done|]. unfold valid_digest, is_tmp. intros [_ H]%andb_prop.
  cbn [String.prefix]. destruct (ascii_dec "." c) as [<-|]; [|done].
  assert (is_hex_char "." = false) as Hx by by vm_compute.
  cbn [all_chars] in H. by rewrite Hx in H.
Qed.

Lemma tmp_name_inj : Inj (=) (=) tmp_name.
Proof.
  intros n1 n2 H. unfold tmp_name in H. rewrite !str_app_cons, !str_app_nil_l in H. injection H as H.
  unfold fmt_int in H. apply (f_equal NilZero.int_of_string) in H.
  assert (∀ n, NilZero.int_of_string (NilZero.string_of_int (Z.to_int n)) = Some (Z.to_int n)) as Hs.
  { intros n. apply NilZero.isi; destruct n; cbn; try done; intros [= E];
      by apply DecimalPos.Unsigned.to_uint_nonnil in E. }
  rewrite !Hs in H. injection H as H. apply (f_equal Z.of_int) in H. by rewrite !DecimalZ.of_to in H.
Qed.

(** The name [os.CreateTemp] settles on is free. *)
Lemma free_tmp_free fs dir n : fs !! (dir, tmp_name (free_tmp (base.size fs) fs dir n)) = None.
Proof.
  destruct (fs !! _) as [f|] eqn:E; [exfalso|done].
  assert (∀ fuel n, is_Some (fs !! (dir, tmp_name (free_tmp fuel fs dir n))) →
    list_to_set ((λ i, (dir, tmp_name i)) <$> seqZ n (Z.of_nat fuel + 1)) ⊆ dom fs) as H.
  { clear. induction fuel as [|fuel IH]; intros n; cbn.
    - intros Hn. apply elem_of_dom in Hn. set_solver.
    - case_bool_decide as Hn; [|by intros []%Hn]. intros Hs%IH. rewrite seqZ_cons by lia.
      apply elem_of_dom in Hn. replace (Z.pred _) with (Z.of_nat fuel + 1) by lia. set_solver. }
  specialize (H (base.size fs) n ltac:(by eexists)).
  apply subseteq_size in H. rewrite size_list_to_set, length_fmap, length_seqZ, size_dom in H; [lia|].
  apply NoDup_fmap_2; [|apply NoDup_seqZ]. intros i j Hij. apply tmp_name_inj. exact (f_equal snd Hij).
Qed.

(** ** atomicWrite *)

(** Files under final names other than [dst] keep their state, and [dst] holds
    what it held or the new data. *)
Definition wrote (dst : path) (data : string) (w w' : world) : Prop :=
  w_ext w' = w_ext w ∧
  (∀ p, is_tmp p.2 = false → p ≠ dst → w_fs w' !! p = w_fs w !! p) ∧
  (w_fs w' !! dst = w_fs w !! dst ∨ ∃ t, w_fs w' !! dst = Some (File data t)).

Lemma wrote_quiet dst data w w1 w2 : wrote dst data w w1 → quiet w1 w2 → wrote dst data w w2.
Proof. unfold wrote. by intros (?&?&?) (->&->&_). Qed.

(** The states of an [atomicWrite] before the rename: only the temporary file
    has changed, and it holds [content]. *)
Definition staged (tmp : path) (content : string) (w w' : world) : Prop :=
  w_ext w' = w_ext w ∧ (∃ t, w_fs w' !! tmp = Some (File content t)) ∧
  (∀ p, p ≠ tmp → w_fs w' !! p = w_fs w !! p) ∧ (w_oracle w = [] → w_oracle w' = []).

Lemma staged_quiet tmp content w w1 w2 :
  staged tmp content w w1 → quiet w1 w2 → staged tmp content w w2.
Proof. unfold staged. intros (?&?&?&?) (->&->&_&?). by repeat split; auto. Qed.

Lemma staged_put tmp c c' w w' t :
  staged tmp c w w' → staged tmp c' w (set_fs <[tmp := File c' t]> w').
Proof.
  intros (?&_&Hp&?). repeat split; cbn; [done|exists t; apply lookup_insert_eq| |done].
  intros p Hne. rewrite lookup_insert_ne by done. by apply Hp.
Qed.

(** A failing call later means that calls could fail from the start. *)
Lemma staged_faulty tmp c w w' : staged tmp c w w' → w_oracle w' ≠ [] → w_oracle w ≠ [].
Proof. by intros (_&_&_&H) Hn ?%H. Qed.

Section atomic_write.
Context (dst tmp : path) (data : string).
Context (Hdst : is_tmp dst.2 = false) (Htmp : is_tmp tmp.2 = true).

Lemma staged_wrote c w w' : staged tmp c w w' → wrote dst data w w'.
Proof.
  intros (?&_&Hp&_). repeat split; [done| |left]; intros; apply Hp; congruence.
Qed.

Lemma wrote_delete w w' : wrote dst data w w' → wrote dst data w (set_fs (delete tmp) w').
Proof.
  intros (?&Hp&Hd). repeat split; cbn; [done| |].
  - intros p Hn Hne. rewrite lookup_delete_ne by congruence. by apply Hp.
  - by rewrite lookup_delete_ne by congruence.
Qed.

(** The rename of the staged file. *)
Definition renamed (w : world) : world :=
  set_fs (λ fs, match fs !! tmp with Some f => <[dst := f]> (delete tmp fs) | None => fs end) w.

Lemma staged_renamed w w' : staged tmp data w w' →
  wrote dst data w (renamed w') ∧ ∃ t, w_fs (renamed w') !! dst = Some (File data t).
Proof.
  intros (?&[t Ht]&Hp&_). unfold renamed, set_fs, wrote. cbn. rewrite Ht.
  rewrite lookup_insert_eq. split; [|by exists t].
  split; [done|]. split; [|right; by exists t].
  intros p Hn Hne. rewrite lookup_insert_ne, lookup_delete_ne by congruence. apply Hp; congruence.
Qed.

Lemma wp_cleanup_fail e w w' c (Q : outcome unit → world → Prop) :
  staged tmp c w w' → w_oracle w ≠ [] → fine (A:=unit) (Fail e) →
  (∀ o w2, wrote dst data w w2 → (∀ u, o ≠ Ret u) → fine o → Q o w2) →
  wp (cleanup tmp ;; fail e) Q w'.
Proof.
  intros Hs Ho He HQ. pose proof (staged_wrote _ _ _ Hs) as Hw.
  apply wp_bind, wp_bind, wp_call; [|intros; cbn; apply HQ; eauto using wrote_quiet].
  intros [] w2 Hq _; [apply wp_modify|apply wp_ret]; apply wp_fail, HQ;
    eauto using wrote_quiet, wrote_delete.
Qed.

End atomic_write.

(** The outcomes of [atomicWrite]. *)
Definition atomic_post (dst : path) (data : string) (w : world) (o : outcome unit) (w' : world) :
    Prop :=
  wrote dst data w w' ∧ fine o ∧
  (∀ u, o = Ret u → ∃ t, w_fs w' !! dst = Some (File data t)) ∧
  (w_oracle w = [] → o = Ret () ∧ w_oracle w' = []).

Lemma atomic_post_stop dst data w o w' :
  w_oracle w ≠ [] → wrote dst data w w' → (∀ u, o ≠ Ret u) → fine o →
  atomic_post dst data w o w'.
Proof. intros Ho Hw Hr Hp. split; [done|split; [done|split]]; [by intros u ?%Hr|done]. Qed.

Lemma wp_create_temp dir w (Q : outcome path → world → Prop) :
  (∀ n w', staged (dir, tmp_name n) "" w w' → Q (Ret (dir, tmp_name n)) w') →
  (∀ o w', quiet w w' → w_oracle w ≠ [] → (∀ p, o ≠ Ret p) → fine o → Q o w') →
  wp (create_temp dir) Q w.
Proof.
  intros H1 H2. apply wp_bind, wp_call_or; [|intros; by apply H2..].
  intros w' (Hf&He&Ht&Ho). apply wp_bind, wp_get, wp_bind, wp_modify, wp_ret, H1.
  repeat split; cbn; [done|eexists; apply lookup_insert_eq| |done].
  intros p Hne. by rewrite lookup_insert_ne, Hf by done.
Qed.

(** The rename and what follows it. *)
Lemma wp_rename dst tmp data w w1 :
  is_tmp dst.2 = false → is_tmp tmp.2 = true → staged tmp data w w1 →
  wp (b ← sys;
      match b with
      | AOk => modify (renamed dst tmp)
      | AFail _ => cleanup tmp ;; fail (EIO "rename temp")
      | ACrash O => crash
      | ACrash (S _) => modify (renamed dst tmp) ;; crash
      end) (atomic_post dst data w) w1.
Proof.
  intros Hd Ht H1. apply wp_bind, wp_sys. intros b w2 Hq Hb.
  pose proof (staged_quiet _ _ _ _ _ H1 Hq) as H2.
  destruct (staged_renamed dst tmp data Hd Ht _ _ H2) as [Hw Hdst].
  assert (b ≠ AOk → w_oracle w ≠ []) as Hn.
  { intros Hb'. eapply staged_faulty; [apply H1|]. by intros ?%Hb. }
  destruct b as [|n|[|n]]; cbn.
  - apply wp_modify. split; [done|split; [done|split; [done|]]].
    intros Ho. split; [done|]. by apply (proj2 (proj2 (proj2 H2))).
  - eapply wp_cleanup_fail; try done; [by apply Hn|]. intros. apply atomic_post_stop; try done.
    by apply Hn.
  - apply wp_crash, atomic_post_stop; try done; [by apply Hn|]. by eapply staged_wrote.
  - apply wp_bind, wp_modify, wp_crash, atomic_post_stop; try done. by apply Hn.
Qed.

Lemma atomicWrite_spec dst data w : is_tmp dst.2 = false →
  wp (atomicWrite dst data) (atomic_post dst data w) w.
Proof.
  intros Hd. unfold atomicWrite. apply wp_bind, wp_create_temp; cbn.
  2:{ intros o w' Hq Ho Hr Hp. assert (wrote dst data w w') by
        (eapply wrote_quiet; [|done]; by repeat split; auto).
      destruct o; cbn; [by edestruct Hr|apply atomic_post_stop..]; done. }
  intros i w1 H1. set (tmp := (dst.1, tmp_name i)) in *.
  assert (is_tmp tmp.2 = true) as Ht by apply is_tmp_tmp_name.
  apply wp_bind, wp_sys. intros a w2 Hq Ha.
  pose proof (staged_quiet _ _ _ _ _ H1 Hq) as H2.
  assert (a ≠ AOk → w_oracle w ≠ []) as Hn.
  { intros Hb'. eapply staged_faulty; [apply H1|]. by intros ?%Ha. }
  destruct a as [|n|n]; cbn; apply wp_bind, wp_modify.
  - pose proof (staged_put _ _ data _ _ (w_now w2) H2) as H2'.
    apply wp_bind, wp_call.
    2:{ intros w3 Hq3 Ho. apply atomic_post_stop; try done; [by eapply staged_faulty|].
        eapply wrote_quiet; [|done]. by eapply staged_wrote. }
    intros b w3 Hq3 Hb. pose proof (staged_quiet _ _ _ _ _ H2' Hq3) as H3.
    destruct b; cbn; [by apply wp_rename|].
    assert (w_oracle w ≠ []) by (eapply staged_faulty; [apply H2'|]; by intros ?%Hb).
    eapply wp_cleanup_fail; eauto using atomic_post_stop.
  - pose proof (staged_put _ _ (str_take n data) _ _ (w_now w2) H2) as H2'.
    apply wp_bind, wp_call; cbn.
    + intros b w3 Hq3 _. eapply wp_cleanup_fail; eauto using staged_quiet, atomic_post_stop.
    + intros w3 Hq3 Ho. apply atomic_post_stop; try done; [by apply Hn|].
      eapply wrote_quiet; [|done]. by eapply staged_wrote.
  - apply wp_crash, atomic_post_stop; try done; [by apply Hn|].
    by eapply staged_wrote, staged_put.
Qed.

Lemma spec_atomic_post F (m : M unit) dst data w : wp m (atomic_post dst data w) w →
  spec F m w (λ _ w', wrote dst data w w' ∧ ∃ t, w_fs w' !! dst = Some (File data t)).
Proof.
  intros Hm Hok. apply (wp_mono _ _ _ _ Hm).
  intros o w' (Hw&Hf&Hr&Ho). split; [done|]. split; [|split].
  - intros Hn. apply Hok. by intros [_ ?]%Ho.
  - destruct (decide (w_oracle w = [])) as [He|Hn]; [left; by destruct (Ho He) as [-> _]|right; auto].
  - intros u Hu. split; [done|by eapply Hr].
Qed.

Lemma spec_atomicWrite F dst data w : is_tmp dst.2 = false →
  spec F (atomicWrite dst data) w
    (λ _ w', wrote dst data w w' ∧ ∃ t, w_fs w' !! dst = Some (File data t)).
Proof. intros Hd. by apply spec_atomic_post, atomicWrite_spec. Qed.

(** ** Integrity *)

(** A file under a final name has that name as its digest.  Pin markers carry no
    content and temporary files no promise. *)
Definition entry_ok (p : path) (f : file) : Prop :=
  is_tmp p.2 = true ∨ p.1 = "pins" ∨ digestBytes (f_data f) = p.2.

Definition integrity (w : world) : Prop := map_Forall entry_ok (w_fs w).

Definition keeps_integrity (w w' : world) : Prop := integrity w → integrity w'.

#[global] Instance keeps_integrity_sys : SysStep keeps_integrity.
Proof.
  split; [split; unfold keeps_integrity; [by intros ?|by intros ????; auto]|].
  intros w r o _ Hw. exact Hw.
Qed.

(** Only files outside the store change. *)
Lemma ev_ext f : evolves keeps_integrity (modify (set_ext f)).
Proof. apply ev_modify. intros w Hw. exact Hw. Qed.

Lemma ev_delete p : evolves keeps_integrity (modify (set_fs (delete p))).
Proof. apply ev_modify. intros w Hw. by apply map_Forall_delete. Qed.

Lemma wrote_integrity dst data w w' :
  is_tmp dst.2 = false → entry_ok dst (File data 0) → wrote dst data w w' → keeps_integrity w w'.
Proof.
  intros Hd Hok (_&Hp&Hdst) Hw p f Hf.
  destruct (is_tmp p.2) eqn:Ht; [by left|].
  destruct (decide (p = dst)) as [->|Hne].
  - destruct Hdst as [Hdst|[t Hdst]]; rewrite Hdst in Hf; [by apply Hw|].
    injection Hf as <-. by destruct Hok as [?|[?|?]]; [left|right; left|right; right].
  - rewrite Hp in Hf by done. by apply Hw.
Qed.

Lemma ev_atomicWrite dst data :
  is_tmp dst.2 = false → entry_ok dst (File data 0) →
  evolves keeps_integrity (atomicWrite dst data).
Proof.
  intros Hd Hok w. pose proof (atomicWrite_spec dst data w Hd) as (Hw&_).
  by eapply wrote_integrity.
Qed.

Lemma ev_chunkPath R `{!SysStep R} d : evolves R (chunkPath d).
Proof. unfold chunkPath. ev. Qed.
#[local] Hint Resolve ev_ext ev_delete ev_chunkPath : cas.

Lemma chunkPath_valid d : valid_digest d = true →
  chunkPath d = mret ("chunks/" +:+ String.substring 0 2 d, d).
Proof.
  unfold valid_digest, chunkPath. intros [Hl _]%andb_prop. apply Nat.eqb_eq in Hl. by rewrite Hl.
Qed.

Lemma ev_writeChunk d data : digestBytes data = d → evolves keeps_integrity (writeChunk d data).
Proof.
  intros Hd. pose proof (digestBytes_valid data) as Hv. rewrite Hd in Hv. unfold writeChunk.
  rewrite (chunkPath_valid d) by done. intros w. cbn. revert w.
  change (evolves keeps_integrity (call_or "mkdir chunk shard" ;;
    atomicWrite ("chunks/" +:+ String.substring 0 2 d, d) data)).
  ev. apply ev_atomicWrite; cbn; [by apply valid_digest_not_tmp|]. right. by right.
Qed.

#[local] Hint Resolve ev_writeChunk : cas.

Lemma ev_Validate R `{!SysStep R} d : evolves R (Validate d).
Proof. unfold Validate. ev. Qed.
Lemma ev_stat R `{!SysStep R} p : evolves R (stat p).
Proof. unfold stat. ev. Qed.
Lemma ev_read_file R `{!SysStep R} p : evolves R (read_file p).
Proof. unfold read_file. ev. Qed.
#[local] Hint Resolve ev_Validate ev_stat ev_read_file : cas.

Lemma ev_HasChunk R `{!SysStep R} d : evolves R (HasChunk d).
Proof. unfold HasChunk. ev. Qed.
Lemma ev_GetManifest R `{!SysStep R} d : evolves R (GetManifest d).
Proof. unfold GetManifest. ev. Qed.
Lemma ev_PutChunk d r : evolves keeps_integrity (PutChunk d r).
Proof. unfold PutChunk, read_all_limited. ev. Qed.
#[local] Hint Resolve ev_HasChunk ev_GetManifest ev_PutChunk : cas.

Section operations.
Context `{HS : !SliceSort, HR : !Root}.

Lemma ev_writeManifest m : evolves keeps_integrity (writeManifest m).
Proof.
  apply ev_atomicWrite; cbn; [apply valid_digest_not_tmp, digestBytes_valid|by right; right].
Qed.

Lemma ev_read_full R `{!SysStep R} s : evolves R (read_full s).
Proof. unfold read_full. ev. Qed.
#[local] Hint Resolve ev_writeManifest ev_read_full : cas.

Lemma ev_read_loop R `{!SysStep R} each n rest acc :
  (∀ b, evolves R (each b)) → evolves R (read_loop each n rest acc).
Proof. intros He. revert rest acc. induction n as [|n IH]; intros; cbn; ev. Qed.

Lemma ev_iter_m R `{!SysStep R} {A} (f : A → M unit) l :
  (∀ x, evolves R (f x)) → evolves R (iter_m f l).
Proof. intros Hf. induction l; cbn; ev. Qed.

Lemma ev_map_m R `{!SysStep R} {A B} (f : A → M B) l :
  (∀ x, evolves R (f x)) → evolves R (map_m f l).
Proof. intros Hf. induction l; cbn; ev. Qed.
#[local] Hint Resolve ev_read_loop ev_iter_m ev_map_m : cas.

Lemma ev_open_path R `{!SysStep R} p : evolves R (open_path p).
Proof. unfold open_path. ev. Qed.
Lemma ev_stat_path R `{!SysStep R} p : evolves R (stat_path p).
Proof. unfold stat_path. ev. Qed.
#[local] Hint Resolve ev_open_path ev_stat_path : cas.

Lemma ev_chunkFile R `{!SysStep R} p : evolves R (chunkFile p).
Proof. unfold chunkFile. ev. Qed.
Lemma ev_putFileChunks name p : evolves keeps_integrity (putFileChunks name p).
Proof. unfold putFileChunks. ev. apply ev_read_loop; [apply _|]. ev. Qed.
#[local] Hint Resolve ev_chunkFile ev_putFileChunks : cas.

Lemma ev_BuildManifest R `{!SysStep R} files meta : evolves R (BuildManifest files meta).
Proof. unfold BuildManifest. ev. apply ev_map_m; [apply _|]. ev. Qed.

Lemma ev_PutSnapshot files meta : evolves keeps_integrity (PutSnapshot files meta).
Proof. unfold PutSnapshot. ev. apply ev_map_m; [apply _|]. ev. Qed.

Lemma ev_missing_loop R `{!SysStep R} l seen : evolves R (missing_loop l seen).
Proof. revert seen. induction l; intros; cbn; ev. Qed.

Lemma ev_touchChunk d : evolves keeps_integrity (touchChunk d).
Proof.
  unfold touchChunk. ev. apply ev_modify. intros w Hw q f. cbn.
  rewrite lookup_alter_Some. intros [(<-&f'&Hf&->)|[_ Hf]]; by apply Hw in Hf.
Qed.
#[local] Hint Resolve ev_missing_loop ev_touchChunk : cas.

(** A path that leads out of the store. *)
Definition outside (p : string) : Prop := ∃ q, place p = inr q.

#[global] Instance outside_dec p : Decision (outside p).
Proof. unfold outside. destruct (place p) as [q|q]; [right; naive_solver|left; eauto]. Defined.

Section to_outside.
Context (dst : string) (Hdst : outside dst).

Lemma ev_write_file data : evolves keeps_integrity (modify (write_file dst data)).
Proof. apply ev_modify. intros w Hw. unfold write_file. by destruct Hdst as [q ->]. Qed.

Lemma ev_append_file data : evolves keeps_integrity (append_file dst data).
Proof. apply ev_modify. intros w Hw. unfold write_file. by destruct Hdst as [q ->]. Qed.

Lemma ev_remove_file : evolves keeps_integrity (modify (remove_file dst)).
Proof. apply ev_modify. intros w Hw. unfold remove_file. by destruct Hdst as [q ->]. Qed.
#[local] Hint Resolve ev_write_file ev_append_file ev_remove_file : cas.

Lemma ev_copyVerifiedChunk c name : evolves keeps_integrity (copyVerifiedChunk dst c name).
Proof. unfold copyVerifiedChunk. ev. Qed.
#[local] Hint Resolve ev_copyVerifiedChunk : cas.

Lemma ev_copy_chunks cs name : evolves keeps_integrity (copy_chunks dst cs name).
Proof. induction cs; cbn; ev. Qed.
#[local] Hint Resolve ev_copy_chunks : cas.

Lemma ev_materializeFileAt fe : evolves keeps_integrity (materializeFileAt fe dst).
Proof. unfold materializeFileAt. ev. Qed.

End to_outside.

(** The stored manifest under [d]. *)
Definition stored_manifest (w : world) (d : Digest) (m : Manifest) : Prop :=
  ∃ f, w_fs w !! manifestPath d = Some f ∧ decodeManifest (f_data f) = Ok m.

Lemma wp_GetManifest d w :
  wp (GetManifest d) (λ o w', quiet w w' ∧ ∀ m, o = Ret m → stored_manifest w d m) w.
Proof.
  split; [apply (ev_GetManifest quiet)|].
  change (wp (GetManifest d) (λ o _, ∀ m, o = Ret m → stored_manifest w d m) w).
  unfold GetManifest, Validate. destruct (valid_digest d); [|done].
  apply wp_bind, wp_ret, wp_bind, wp_bind, wp_call_or; [|done..]. intros w1 (Hf&_).
  apply wp_bind, wp_get. cbn. rewrite Hf. destruct (w_fs w !! manifestPath d) as [f|] eqn:E; [|done].
  apply wp_ret. cbn. destruct (decodeManifest (f_data f)) as [m|e] eqn:Hm; [|done].
  apply wp_ret. intros ? [= <-]. by exists f.
Qed.

(** What reads a manifest and goes on keeps the store intact if it does for the
    manifest that is stored. *)
Lemma ev_with_manifest {A} (k : Manifest → M A) d w :
  (∀ m, stored_manifest w d m → evolves keeps_integrity (k m)) →
  keeps_integrity w ((Validate d ;; GetManifest d ≫= k) w).2.
Proof.
  intros Hk Hw. enough (wp (Validate d ;; GetManifest d ≫= k) (λ _, integrity) w) by done.
  unfold Validate at 1. destruct (valid_digest d); [|done].
  apply wp_bind, wp_ret, wp_bind, (wp_mono _ _ _ _ (wp_GetManifest d w)).
  intros o w1 [(Hf&_) Hm]. assert (integrity w1) as Hw1 by (unfold integrity; by rewrite Hf).
  destruct o as [m|e| |]; try done. by apply (Hk m (Hm m eq_refl) w1).
Qed.

(** The files of the stored manifest go out of the store. *)
Definition goes_out (w : world) (d : Digest) (dir : string) : Prop :=
  ∀ m, stored_manifest w d m → ∀ fe, fe ∈ m_Files m → outside (filepath_Join dir (fe_Name fe)).

Lemma keeps_Materialize d dir w : goes_out w d dir → keeps_integrity w (Materialize d dir w).2.
Proof.
  intros Hout. apply ev_with_manifest. intros m Hm. specialize (Hout m Hm). ev.
  induction (m_Files m) as [|fe l IH]; cbn; ev.
  - apply ev_materializeFileAt, Hout. set_solver.
  - apply IH. set_solver.
Qed.

Lemma keeps_MaterializeFileTo d name dst w : outside dst →
  keeps_integrity w (MaterializeFileTo d name dst w).2.
Proof.
  intros Hout. apply ev_with_manifest. intros m _.
  pose proof (λ fe, ev_materializeFileAt dst Hout fe) as Hat.
  induction (m_Files m); cbn; ev.
Qed.

Lemma ev_Pin d : valid_digest d = true → evolves keeps_integrity (Pin d).
Proof.
  intros Hd. unfold Pin. apply ev_atomicWrite; cbn; [by apply valid_digest_not_tmp|].
  right. by left.
Qed.

Lemma ev_Unpin d : evolves keeps_integrity (Unpin d).
Proof. unfold Unpin. ev. Qed.

Lemma ev_pinnedChunks R `{!SysStep R} : evolves R pinnedChunks.
Proof.
  unfold pinnedChunks. ev. generalize (∅ : gset Digest).
  induction (read_dir _ _) as [|d l IH]; intros; cbn; ev. 
Qed.

Lemma ev_scanChunks R `{!SysStep R} : evolves R scanChunks.
Proof. unfold scanChunks. ev. Qed.
#[local] Hint Resolve ev_pinnedChunks ev_scanChunks : cas.

Lemma ev_evict_loop max pinned l total freed :
  evolves keeps_integrity (evict_loop max pinned l total freed).
Proof. revert total freed. induction l; intros; cbn; ev. Qed.
#[local] Hint Resolve ev_evict_loop : cas.

Lemma ev_EvictToFit max : evolves keeps_integrity (EvictToFit max).
Proof. unfold EvictToFit. ev. Qed.

Lemma ev_pullChunk `{!Transport} d : evolves keeps_integrity (pullChunk d).
Proof. unfold pullChunk. ev. Qed.
#[local] Hint Resolve ev_pullChunk : cas.

Lemma ev_Pull `{!Transport} d : evolves keeps_integrity (Pull d).
Proof. unfold Pull, MissingChunks, PutManifest. ev. Qed.

(** ** The store as a state machine *)

(** The calls a process makes on the store. *)
Inductive op :=
| OpPutSnapshot (files : gmap string string) (meta : Metadata)
| OpPutChunk (d : Digest) (r : reader)
| OpPutManifest (m : Manifest)
| OpMaterialize (d : Digest) (dstDir : string)
| OpMaterializeFileTo (d : Digest) (name dstPath : string)
| OpPin (d : Digest)
| OpUnpin (d : Digest)
| OpEvictToFit (maxBytes : Z)
| OpPull (remote : Transport) (d : Digest).

Definition run (o : op) : M unit :=
  match o with
  | OpPutSnapshot files meta => PutSnapshot files meta ;; mret ()
  | OpPutChunk d r => PutChunk d r
  | OpPutManifest m => PutManifest m
  | OpMaterialize d dir => Materialize d dir
  | OpMaterializeFileTo d name dst => MaterializeFileTo d name dst
  | OpPin d => Pin d
  | OpUnpin d => Unpin d
  | OpEvictToFit n => EvictToFit n ;; mret ()
  | OpPull remote d => Pull d
  end.

(** Manifests are pinned by their digest, and what is materialized goes out of the
    store. *)
Definition op_ok (w : world) (o : op) : Prop :=
  match o with
  | OpPin d => valid_digest d = true
  | OpMaterialize d dir => goes_out w d dir
  | OpMaterializeFileTo _ _ dst => outside dst
  | _ => True
  end.

(** The store as it may be found: after any calls, each ending in any way (a
    crash is followed by a restart on the files it left), with any changes
    outside the store and any further behaviour of the system. *)
Inductive reachable : world → Prop :=
| reach_empty ext n now replies : reachable (World ∅ ext n now replies)
| reach_call o w : op_ok w o → reachable w → reachable (run o w).2
| reach_env w ext now replies :
    reachable w → reachable (World (w_fs w) ext (w_tmp w) now replies).

Lemma keeps_run o w : op_ok w o → keeps_integrity w (run o w).2.
Proof.
  destruct o as [files meta|d r|m|d dir|d name dst|d|d|max|remote d]; unfold run, op_ok; intros Ho.
  - apply (ev_bind keeps_integrity); [apply ev_PutSnapshot|intros m; apply ev_ret, _].
  - apply ev_PutChunk.
  - apply ev_writeManifest.
  - by apply keeps_Materialize.
  - by apply keeps_MaterializeFileTo.
  - by apply ev_Pin.
  - apply ev_Unpin.
  - apply (ev_bind keeps_integrity); [apply ev_EvictToFit|intros n; apply ev_ret, _].
  - apply ev_Pull.
Qed.


End operations.

Definition ex_root : Root := "/var/lib/cas".
#[local] Existing Instance ex_root.

(** A chunk is stored, then a second one is interrupted in the middle of its
    write. *)
Definition ex_stored : world :=
  (run (OpPutChunk (digestBytes "abc") (Reader "abc" false)) (World ∅ ∅ 0 0 [])).2.
Definition ex_ops : world :=
  (run (OpPutChunk (digestBytes "xyz") (Reader "xyz" false))
     (World (w_fs ex_stored) ∅ (w_tmp ex_stored) 0
        [Reply AOk 1; Reply AOk 2; Reply (ACrash 1) 3])).2.

Lemma ex_ops_reachable : reachable ex_ops.
Proof. apply reach_call, reach_env, reach_call, reach_empty; exact I. Qed.


End CasInvariant.
