(* ===== verification/CasChunks.v ===== *)
(** * Chunking, storing and reading back

    The block structure that [io.ReadFull] gives a file, what the chunking loops
    return, the digest gate of [PutChunk], the exactness of [MissingChunks], and
    the safety and completeness of [Materialize] and of [PutSnapshot] followed by
    [Materialize]. *)

From Stdlib Require Import Ascii.
From S2P Require Import Prelude Sha256 Json Manifest Cas CasInvariant.
Import Sha256 Json Manifest Cas CasInvariant.

Module CasChunks.

#[local] Arguments Z.sub : simpl never.
#[local] Arguments Z.add : simpl never.
#[local] Arguments Z.leb : simpl never.
#[local] Arguments Z.ltb : simpl never.

(** ** Splitting *)

Lemma str_len_nonneg s : 0 ≤ str_len s.
Proof. unfold str_len. lia. Qed.

Lemma str_len_cons c s : str_len (String c s) = str_len s + 1.
Proof. unfold str_len. cbn. lia. Qed.

Lemma str_len_0 s : str_len s = 0 ↔ s = "".
Proof. destruct s; [done|]. rewrite str_len_cons. pose proof (str_len_nonneg s). split; [lia|done]. Qed.

Lemma str_len_app s t : str_len (s +:+ t) = str_len s + str_len t.
Proof. unfold str_len. rewrite str_length_app. lia. Qed.

Lemma read_upto_spec n s : 0 ≤ n →
  (read_upto n s).1 +:+ (read_upto n s).2 = s ∧
  str_len (read_upto n s).1 = Z.min n (str_len s).
Proof.
  revert n. induction s as [|c s IH]; intros n Hn; cbn.
  - split; [done|]. change (0 = Z.min n 0). lia.
  - destruct (Z.leb_spec n 0) as [H|H]; cbn.
    + split; [done|]. rewrite str_len_cons. pose proof (str_len_nonneg s). change (0 = Z.min n (str_len s + 1)). lia.
    + destruct (IH (n - 1)) as [He Hl]; [lia|].
      destruct (read_upto (n - 1) s) as [a b]. cbn in *. rewrite str_app_cons, He, !str_len_cons, Hl.
      split; [done|lia].
Qed.

Lemma read_upto_all n s : str_len s ≤ n → read_upto n s = (s, "").
Proof.
  intros Hn. destruct (read_upto_spec n s) as [He Hl]; [pose proof (str_len_nonneg s); lia|].
  destruct (read_upto n s) as [a b]. cbn in *.
  assert (b = "") as ->.
  { apply str_len_0. rewrite <- He, str_len_app in Hn, Hl. lia. }
  by rewrite str_app_nil_r in He; subst.
Qed.

(** The blocks of a file: all of [ChunkSize] bytes but a shorter last one. *)
Fixpoint blocks_fuel (n : nat) (s : string) : list string :=
  match n, s with
  | O, _ | _, "" => []
  | S n', _ => let '(b, rest) := read_upto ChunkSize s in b :: blocks_fuel n' rest
  end.

Definition blocks (s : string) : list string := blocks_fuel (String.length s) s.

Definition chunk_refs (data : string) : list ChunkRef := chunk_ref <$> blocks data.

Lemma ChunkSize_pos : 0 < ChunkSize.
Proof. done. Qed.

Lemma read_block s : s ≠ "" →
  let '(b, rest) := read_upto ChunkSize s in
  b +:+ rest = s ∧ 0 < str_len b ≤ ChunkSize ∧ (String.length rest < String.length s)%nat ∧
  (str_len b < ChunkSize → rest = "").
Proof.
  intros Hs. pose proof ChunkSize_pos as Hp.
  destruct (read_upto_spec ChunkSize s) as [He Hl]; [lia|].
  destruct (read_upto ChunkSize s) as [b rest]. cbn in *.
  assert (0 < str_len s) by (pose proof (str_len_nonneg s); rewrite <- str_len_0 in Hs; lia).
  assert (str_len b + str_len rest = str_len s) as Hsum by (rewrite <- He, str_len_app; lia).
  repeat split; try lia; [done|unfold str_len in *; lia|].
  intros Hb. apply str_len_0. lia.
Qed.

Lemma blocks_fuel_enough n m s :
  (String.length s ≤ n)%nat → (String.length s ≤ m)%nat → blocks_fuel n s = blocks_fuel m s.
Proof.
  revert m s. induction n as [|n IH]; intros [|m] [|c s]; try done; cbn [String.length]; intros Hn Hm;
    try lia.
  pose proof (read_block (String c s)) as Hb. cbn [blocks_fuel].
  destruct (read_upto ChunkSize (String c s)) as [b rest]. destruct Hb as (_&_&Hl&_); [done|].
  cbn [String.length] in Hl. f_equal. apply IH; lia.
Qed.

Lemma blocks_unfold s : s ≠ "" →
  blocks s = (read_upto ChunkSize s).1 :: blocks (read_upto ChunkSize s).2.
Proof.
  intros Hs. unfold blocks. pose proof (read_block s Hs) as Hb.
  destruct s as [|c s]; [done|]. cbn [blocks_fuel String.length].
  destruct (read_upto ChunkSize (String c s)) as [b rest]. destruct Hb as (_&_&Hl&_). cbn [fst snd].
  f_equal. apply blocks_fuel_enough; cbn [String.length] in Hl; lia.
Qed.

(** Induction along the blocks. *)
Lemma blocks_ind (P : string → Prop) :
  P "" → (∀ s, s ≠ "" → P (read_upto ChunkSize s).2 → P s) → ∀ s, P s.
Proof.
  intros H0 HS s. remember (String.length s) as n eqn:Hn. revert s Hn.
  induction (lt_wf n) as [n _ IH]. intros s ->. destruct (decide (s = "")) as [->|Hs]; [done|].
  apply HS; [done|]. pose proof (read_block s Hs) as Hb.
  destruct (read_upto ChunkSize s) as [b rest]. destruct Hb as (_&_&Hl&_). by eapply IH.
Qed.

Lemma blocks_concat s : str_concat (blocks s) = s.
Proof.
  induction s as [|s Hs IH] using blocks_ind; [done|]. rewrite blocks_unfold by done.
  change (str_concat (?x :: ?l)) with (x +:+ str_concat l). rewrite IH.
  apply read_upto_spec. by pose proof ChunkSize_pos; lia.
Qed.

Lemma blocks_bounds s : Forall (λ b, 0 < str_len b ≤ ChunkSize) (blocks s).
Proof.
  induction s as [|s Hs IH] using blocks_ind; [constructor|]. rewrite blocks_unfold by done.
  constructor; [|done]. pose proof (read_block s Hs) as Hb. destruct (read_upto ChunkSize s).
  by destruct Hb as (_&?&_).
Qed.

(** ** The read loops *)

(** A read that returns: an error that the system reported, or the next block. *)
Definition read_post (F : Prop) (rest : string) (w : world) (x : string * string * read_err)
    (w' : world) : Prop :=
  let '(b, rest', err) := x in
  quiet w w' ∧
  (err = RError ∧ F ∨
   read_upto ChunkSize rest = (b, rest') ∧
   err = if str_len b =? 0 then REOF else if str_len b <? ChunkSize then RUnexpectedEOF else RNil).

Lemma spec_read_full F rest w : spec F (read_full rest) w (read_post F rest w).
Proof.
  eapply spec_bind; [apply spec_sys|]. intros [|n|n] w' [Hq Ha].
  - destruct (read_upto ChunkSize rest) as [b rest'] eqn:Hr. apply spec_ret. split; [done|by right].
  - destruct (read_upto (Z.min _ _) rest) as [b rest']. apply spec_ret. split; [done|left].
    by destruct Ha.
  - intros Ho. apply wp_crash, spec_stops; [done..| |done]. by destruct Ha.
Qed.

(** What the loop does, for a body [each] that turns a block into its reference
    and keeps an invariant [I] of the blocks seen so far. *)
Section loop.
Context (F : Prop) (each : string → M ChunkRef) (I : list string → world → Prop).
Context (I_quiet : ∀ bs w w', I bs w → quiet w w' → I bs w').
Context (He : ∀ bs b w, I bs w → spec F (each b) w (λ c w', c = chunk_ref b ∧ I (bs ++ [b]) w')).

Lemma spec_read_loop n rest acc bs w :
  (String.length rest < n)%nat → I bs w →
  spec F (read_loop each n rest acc) w
    (λ cs w', cs = acc ++ chunk_refs rest ∧ I (bs ++ blocks rest) w').
Proof.
  revert rest acc bs w. induction n as [|n IH]; intros rest acc bs w Hn HI; [lia|].
  eapply spec_bind; [apply spec_read_full|]. intros [[b rest'] err] w1 [Hq Hr].
  assert (I bs w1) as HI1 by eauto.
  destruct Hr as [[-> HF]|[Hr ->]].
  { eapply spec_bind with (P := λ _ _, True); [|intros; by apply spec_fail].
    destruct (0 <? str_len b); [|by apply spec_ret].
    eapply spec_bind; [by apply He|]. intros. by apply spec_ret. }
  destruct (decide (rest = "")) as [->|Hne].
  { injection Hr as <- <-. eapply spec_bind; [by apply (spec_ret _ _ _ (λ a w, a = acc ∧ I bs w))|].
    intros a w' [-> Hw']. apply spec_ret. unfold chunk_refs. cbn. by rewrite !app_nil_r. }
  pose proof (read_block rest Hne) as Hb. pose proof (blocks_unfold rest Hne) as Hu.
  rewrite Hr in Hb, Hu. cbn [fst snd] in Hu. destruct Hb as (_&[Hb0 Hb1]&Hl&Hlast).
  assert (chunk_refs rest = chunk_ref b :: chunk_refs rest') as Hc by (unfold chunk_refs; by rewrite Hu).
  eapply spec_bind with (P := λ acc' w', acc' = acc ++ [chunk_ref b] ∧ I (bs ++ [b]) w').
  - destruct (Z.ltb_spec 0 (str_len b)); [|lia].
    eapply spec_bind; [by apply He|]. intros c w2 [-> HI2]. by apply spec_ret.
  - intros acc' w2 [-> HI2]. rewrite Hu, Hc.
    assert (∀ A (l : list A) x l', l ++ x :: l' = (l ++ [x]) ++ l') as Ha
      by (intros; by rewrite <- app_assoc).
    rewrite (Ha _ acc _ (chunk_refs rest')), (Ha _ bs _ (blocks rest')).
    destruct (Z.eqb_spec (str_len b) 0); [lia|].
    destruct (Z.ltb_spec (str_len b) ChunkSize) as [Hlt|Hge].
    + rewrite (Hlast Hlt). apply spec_ret. change (chunk_refs "") with (@nil ChunkRef).
      change (blocks "") with (@nil string). by rewrite !app_nil_r.
    + apply IH; [lia|done].
Qed.

End loop.

(** ** Chunks on disk *)

Definition cpath (d : Digest) : path := ("chunks/" +:+ String.substring 0 2 d, d).

Lemma in_chunks_cpath d : in_chunks (cpath d) = true.
Proof. done. Qed.
Lemma in_chunks_manifest d : in_chunks (manifestPath d) = false.
Proof. done. Qed.

Lemma cpath_not_tmp d : valid_digest d = true → is_tmp (cpath d).2 = false.
Proof. apply valid_digest_not_tmp. Qed.

Lemma chunkPath_cpath d : valid_digest d = true → chunkPath d = mret (cpath d).
Proof. apply chunkPath_valid. Qed.

(** [HasChunk] answers [true] only for a chunk that is there, and always then
    unless the system fails. *)
Lemma spec_HasChunk F d w :
  spec F (HasChunk d) w (λ b w', quiet w w' ∧
    (b = true → valid_digest d = true ∧ is_Some (w_fs w !! cpath d)) ∧
    (valid_digest d = true → is_Some (w_fs w !! cpath d) → b = true ∨ F)).
Proof.
  unfold HasChunk. destruct (valid_digest d) eqn:Hv.
  - rewrite chunkPath_cpath by done. eapply spec_bind; [by apply (spec_ret _ _ _ (λ p w', p = cpath d ∧ w' = w))|].
    intros p w' [-> ->]. eapply spec_bind; [apply spec_call|]. intros b w' [Hq Hb].
    eapply spec_bind; [by apply (spec_get _ _ (λ w1 w2, w1 = w' ∧ w2 = w'))|]. intros ? ? [-> ->].
    apply spec_ret. rewrite (proj1 Hq). split; [done|]. split.
    + by intros [_ ?%bool_decide_eq_true]%andb_prop.
    + intros _ Hs. rewrite (bool_decide_eq_true_2 _ Hs). destruct Hb as [->|]; auto.
  - apply spec_ret. split; [apply quiet_refl|done].
Qed.

Lemma wp_writeChunk data w :
  wp (writeChunk (digestBytes data) data) (atomic_post (cpath (digestBytes data)) data w) w.
Proof.
  set (d := digestBytes data). pose proof (digestBytes_valid data) as Hv. fold d in Hv.
  unfold writeChunk. rewrite chunkPath_cpath by done. apply wp_bind, wp_ret, wp_bind.
  assert (∀ w', quiet w w' → wrote (cpath d) data w w') as Hw.
  { intros w' Hq. eapply wrote_quiet; [|done]. split; [done|split; [done|by left]]. }
  apply wp_call_or; cbn.
  2,3: intros w' Hq Ho; apply atomic_post_stop; auto; done.
  intros w1 Hq. eapply wp_mono; [by apply atomicWrite_spec, cpath_not_tmp|].
  intros o w' (Hwr&Hf&Hr&Ho). destruct Hq as (Hfs&Hext&_&Hq). split; [|split; [done|split; [done|]]].
  - unfold wrote in *. by rewrite Hfs, Hext in Hwr.
  - by intros ?%Hq%Ho.
Qed.

Lemma spec_writeChunk F data w :
  let d := digestBytes data in
  spec F (writeChunk d data) w (λ _ w', wrote (cpath d) data w w' ∧
    ∃ t, w_fs w' !! cpath d = Some (File data t)).
Proof. apply spec_atomic_post, wp_writeChunk. Qed.

(** The chunks of [B] have been stored since [w0], and nothing else under a final
    name has changed. *)
Record filled (B : list string) (w0 w : world) : Prop := {
  fi_ext : w_ext w = w_ext w0;
  fi_other p : is_tmp p.2 = false → in_chunks p = false → w_fs w !! p = w_fs w0 !! p;
  fi_from p f : is_tmp p.2 = false → in_chunks p = true → w_fs w !! p = Some f →
    (∃ f0, w_fs w0 !! p = Some f0 ∧ f_data f0 = f_data f) ∨ f_data f ∈ B;
  fi_mono p : is_tmp p.2 = false → is_Some (w_fs w0 !! p) → is_Some (w_fs w !! p);
  fi_has b : b ∈ B → is_Some (w_fs w !! cpath (digestBytes b));
}.

Lemma filled_refl w : filled [] w w.
Proof. split; try done; [by eauto|set_solver]. Qed.

Lemma filled_quiet B w0 w w' : filled B w0 w → quiet w w' → filled B w0 w'.
Proof. intros [] (Hf&He&_). split; rewrite ?Hf, ?He; auto. Qed.

Lemma filled_skip B w0 w b :
  filled B w0 w → is_Some (w_fs w !! cpath (digestBytes b)) → filled (B ++ [b]) w0 w.
Proof.
  intros [] Hb. split; auto.
  - intros p f Ht Hc Hf. destruct (fi_from0 p f) as [|]; auto. right. set_solver.
  - intros b' [Hb'| ->%list_elem_of_singleton]%elem_of_app; auto.
Qed.

Lemma filled_write B w0 w w' b t :
  filled B w0 w → wrote (cpath (digestBytes b)) b w w' →
  w_fs w' !! cpath (digestBytes b) = Some (File b t) → filled (B ++ [b]) w0 w'.
Proof.
  intros [] (He&Hp&_) Hb. set (q := cpath (digestBytes b)) in *.
  assert (∀ p, is_tmp p.2 = false → is_Some (w_fs w !! p) → is_Some (w_fs w' !! p)) as Hmono.
  { intros p Ht Hs. destruct (decide (p = q)) as [->|Hne]; [by rewrite Hb|]. by rewrite Hp. }
  split; auto.
  - congruence.
  - intros p Ht Hc. rewrite Hp; auto. intros ->. unfold q in Hc. by rewrite in_chunks_cpath in Hc.
  - intros p f Ht Hc Hf. destruct (decide (p = q)) as [->|Hne].
    + rewrite Hb in Hf. injection Hf as <-. right. set_solver.
    + rewrite Hp in Hf by done. destruct (fi_from0 p f) as [|]; auto. right. set_solver.
  - intros b' [Hb'| ->%list_elem_of_singleton]%elem_of_app; [|by fold q; rewrite Hb].
    apply Hmono; auto. apply cpath_not_tmp, digestBytes_valid.
Qed.

(** ** Storing a snapshot *)

Definition entry_of (name data : string) : FileEntry :=
  {| fe_Name := name; fe_Size := str_len data; fe_Chunks := chunk_refs data |}.

(** ** Clean paths *)

(** Cleaning leaves the components of a clean path as they are. *)
Fixpoint clean_stack (rooted : bool) (stack : list string) : Prop :=
  match stack with
  | [] => True
  | x :: stack' =>
      clean_step rooted stack' x = x :: stack' ∧ split_slash x = [x] ∧ clean_stack rooted stack'
  end.

Lemma split_slash_app x s : split_slash x = [x] → split_slash (x +:+ "/" +:+ s) = x :: split_slash s.
Proof.
  induction x as [|c x IH]; [done|]. rewrite str_app_cons. cbn. case_bool_decide; [done|].
  destruct (split_slash x) as [|y l] eqn:E; [by destruct x as [|c' x]; cbn in E; repeat case_match|].
  intros [= -> ->]. rewrite IH by done. done.
Qed.

Lemma split_slash_join l : l ≠ [] → Forall (λ x, split_slash x = [x]) l → split_slash (join_slash l) = l.
Proof.
  intros Hl H. induction H as [|x l Hx H IH]; [done|]. destruct l as [|y l]; [done|].
  change (join_slash (x :: y :: l)) with (x +:+ "/" +:+ join_slash (y :: l)).
  rewrite split_slash_app by done. by rewrite IH.
Qed.

Lemma split_slash_parts s : Forall (λ x, split_slash x = [x]) (split_slash s).
Proof.
  induction s as [|c s IH]; cbn; [by repeat constructor|]. case_bool_decide as Hc; [by constructor|].
  destruct (split_slash s) as [|x l] eqn:E; [repeat constructor; cbn; by rewrite bool_decide_eq_false_2|].
  inversion IH as [|? ? Hx Hl]. constructor; [|done]. cbn. rewrite bool_decide_eq_false_2 by done. by rewrite Hx.
Qed.

Lemma clean_step_clean rooted stack c : split_slash c = [c] → clean_stack rooted stack →
  clean_stack rooted (clean_step rooted stack c).
Proof.
  intros Hc Hs. unfold clean_step at 1. destruct (bool_decide (c = "") || bool_decide (c = ".")) eqn:E; [done|].
  destruct (bool_decide_reflect (c = "..")) as [->|Hne].
  - destruct stack as [|x stack]; [by destruct rooted|].
    destruct (bool_decide_reflect (x = "..")) as [->|]; [by split|apply Hs].
  - split; [|done]. unfold clean_step. by rewrite E, bool_decide_eq_false_2.
Qed.

Lemma clean_foldl rooted stack : clean_stack rooted stack →
  foldl (clean_step rooted) [] (reverse stack) = stack.
Proof.
  induction stack as [|x stack IH]; [done|]. intros (Hx&_&Hs).
  by rewrite reverse_cons, foldl_app, IH.
Qed.

Lemma clean_parts rooted stack : clean_stack rooted stack → Forall (λ x, split_slash x = [x]) stack.
Proof. induction stack as [|x stack IH]; [done|]. intros (_&?&?). constructor; auto. Qed.

Lemma foldl_clean rooted l stack : Forall (λ x, split_slash x = [x]) l → clean_stack rooted stack →
  clean_stack rooted (foldl (clean_step rooted) stack l).
Proof. intros H. revert stack. induction H as [|c l Hc H IH]; [done|]. intros. cbn. by apply IH, clean_step_clean. Qed.

Lemma clean_not_rooted stack : clean_stack false stack → stack ≠ [] →
  match join_slash (reverse stack) with String "/" _ => true | _ => false end = false.
Proof.
  intros Hs Hne. destruct (reverse stack) as [|x l] eqn:E; [by apply (f_equal length) in E; rewrite length_reverse in E; destruct stack|].
  assert (split_slash x = [x]) as Hx.
  { pose proof (clean_parts _ _ Hs) as H. rewrite <- Forall_reverse, E in H. by inversion H. }
  assert (x ≠ "") as Hx0.
  { intros ->. pose proof (clean_foldl _ _ Hs) as H. rewrite E in H.
    change (foldl (clean_step false) [] l = stack) in H.
    assert (length (foldl (clean_step false) [] l) ≤ length l)%nat as Hl.
    { clear. change (length l) with (length (@nil string) + length l)%nat.
      generalize (@nil string) as st. induction l as [|c l IH]; intros st; cbn; [lia|].
      etrans; [apply IH|]. assert (length (clean_step false st c) ≤ S (length st))%nat; [|lia].
      unfold clean_step. repeat case_match; cbn; lia. }
    rewrite H in Hl. apply (f_equal length) in E. rewrite length_reverse in E. cbn in E. lia. }
  destruct x as [|c x]; [done|]. cbn in Hx. case_bool_decide as Hc; [done|].
  destruct l; cbn; destruct c as [[] [] [] [] [] [] [] []]; done.
Qed.

Lemma filepath_Clean_idemp p : filepath_Clean (filepath_Clean p) = filepath_Clean p.
Proof.
  unfold filepath_Clean at 2 3. set (rooted := match p with String "/" _ => true | _ => false end).
  pose proof (foldl_clean rooted _ [] (split_slash_parts p) I) as Hs.
  set (stack := foldl (clean_step rooted) [] (split_slash p)) in *. clearbody stack rooted.
  destruct stack as [|x stack]; [by destruct rooted|]. set (st := x :: stack) in *.
  assert (st ≠ []) as Hne by done. clearbody st. clear x stack.
  assert (reverse st ≠ []) as Hne'.
  { intros E. apply Hne. by rewrite <- (reverse_involutive st), E. }
  assert (split_slash (join_slash (reverse st)) = reverse st) as Hsp.
  { apply split_slash_join; [done|]. apply Forall_reverse. by eapply clean_parts. }
  unfold filepath_Clean. destruct rooted.
  - rewrite str_app_cons, str_app_nil_l. cbn [split_slash]. rewrite bool_decide_eq_true_2 by done.
    cbn [foldl]. rewrite Hsp. change (clean_step true [] "") with (@nil string).
    rewrite clean_foldl by done. destruct st; [done|]. by rewrite str_app_cons, str_app_nil_l.
  - rewrite str_app_nil_l, clean_not_rooted, Hsp, clean_foldl by done. destruct st; [done|]. by rewrite str_app_nil_l.
Qed.

Section paths.
Context `{HR : !Root}.

(** What [filepath.Join] gives is the name of the file it leads to. *)
Lemma place_join a b : outside (filepath_Join a b) → place (filepath_Join a b) = inr (filepath_Join a b).
Proof.
  assert (filepath_Join a b = "" ∨ filepath_Clean (filepath_Join a b) = filepath_Join a b) as Hj.
  { unfold filepath_Join. repeat case_bool_decide; auto using filepath_Clean_idemp. }
  assert ((if bool_decide (filepath_Join a b = "") then "" else filepath_Clean (filepath_Join a b)) =
    filepath_Join a b) as E by (case_bool_decide; destruct Hj; congruence).
  intros [q Hq]. rewrite Hq. revert Hq. unfold place. rewrite E. destruct (strip_prefix _ _); congruence.
Qed.

Lemma content_outside w w' p : outside p → w_ext w' = w_ext w → content w' p = content w p.
Proof. unfold content. by intros [q ->] ->. Qed.

Lemma content_quiet w w' p : quiet w w' → content w' p = content w p.
Proof. unfold content. by intros (-> & -> & _). Qed.

Lemma spec_open_path F p data w : content w p = Some data →
  spec F (open_path p) w (λ s w', s = data ∧ quiet w w').
Proof.
  intros Hp. eapply spec_bind; [apply spec_call_or|]. intros [] w1 Hq.
  eapply spec_bind; [by apply (spec_get _ _ (λ a b, a = w1 ∧ b = w1))|]. intros ? ? [-> ->].
  rewrite (content_quiet w), Hp by done. by apply spec_ret.
Qed.

Lemma spec_stat_path F p data w : content w p = Some data →
  spec F (stat_path p) w (λ n w', n = str_len data ∧ quiet w w').
Proof.
  intros Hp. eapply spec_bind; [apply spec_call_or|]. intros [] w1 Hq.
  eapply spec_bind; [by apply (spec_get _ _ (λ a b, a = w1 ∧ b = w1))|]. intros ? ? [-> ->].
  rewrite (content_quiet w), Hp by done. by apply spec_ret.
Qed.

(** [chunkFile] returns the references of the file's blocks, in order. *)
Lemma spec_chunkFile F p data w : content w p = Some data →
  spec F (chunkFile p) w (λ cs w', cs = chunk_refs data ∧ quiet w w').
Proof.
  intros Hp. apply spec_evolves; [apply ev_chunkFile, _|].
  eapply spec_bind; [by apply spec_open_path|]. intros ? w1 [-> _].
  apply (spec_mono _ _ _ (λ cs _, cs = [] ++ chunk_refs data ∧ True)); [|by intros cs w' [? _]].
  apply (spec_read_loop _ _ (λ _ _, True)) with (bs := []); [done| |unfold loop_fuel; lia|done].
  intros bs b w2 _. by apply spec_ret.
Qed.

(** [putFileChunks] stores the blocks of the file. *)
Lemma spec_putFileChunks F name p data B w0 w : filled B w0 w → outside p → content w0 p = Some data →
  spec F (putFileChunks name p) w
    (λ fe w', fe = entry_of name data ∧ filled (B ++ blocks data) w0 w').
Proof.
  intros HB Hout Hp. rewrite <- (content_outside w0 w) in Hp by (done || apply HB).
  eapply spec_bind; [by apply spec_stat_path|]. intros ? w1 [-> Hq1].
  eapply spec_bind; [apply spec_open_path; by rewrite (content_quiet w)|]. intros ? w2 [-> Hq2].
  eapply spec_bind.
  - apply (spec_read_loop _ _ (λ bs w', filled bs w0 w')) with (bs := B).
    + intros bs w3 w4. apply filled_quiet.
    + intros bs b w3 HI. eapply spec_bind; [apply spec_HasChunk|]. intros has w4 (Hq&Hhas&_).
      eapply spec_bind with (P := λ _ w', filled (bs ++ [b]) w0 w');
        [|intros [] w5 Hw5; by apply spec_ret].
      pose proof (filled_quiet _ _ _ _ HI Hq) as HI4. destruct has.
      * apply spec_ret, filled_skip; [done|]. rewrite (proj1 Hq). by apply Hhas.
      * eapply spec_mono; [apply spec_writeChunk|]. intros [] w5 [Hw [t Ht]]. by eapply filled_write.
    + unfold loop_fuel. lia.
    + by do 2 (eapply filled_quiet; [|done]).
  - intros cs w' [-> HI]. by apply spec_ret.
Qed.

End paths.

End CasChunks.
