(* ===== verification/CasTheorems.v ===== *)
(** * Theorems on the store: intake, reading back, round trips

    The digest gate of [PutChunk], the exactness of [MissingChunks], what
    [Materialize] guarantees over an arbitrary (even corrupted) store, and that a
    snapshot which was stored reads back as the files it was taken from. *)

From Stdlib Require Import Ascii.
From S2P Require Import Prelude Sha256 Json Manifest Cas CasInvariant CasChunks.
Import Sha256 Json Manifest Cas CasInvariant CasChunks.

Module CasTheorems.

(** Rules for the binds of values already computed. *)
Lemma bind_ret {A B} (a : A) (k : A → M B) w : (mret a ≫= k) w = k a w.
Proof. done. Qed.

Lemma spec_get_bind F {B} (k : world → M B) w P : spec F (k w) w P → spec F (get ≫= k) w P.
Proof. intros H Ho. apply wp_bind, wp_get. by apply H. Qed.

Lemma spec_ret_bind F {A B} (a : A) (k : A → M B) w P : spec F (k a) w P → spec F (mret a ≫= k) w P.
Proof. intros H Ho. apply wp_bind, wp_ret. by apply H. Qed.

Lemma spec_modify_bind F {B} f (k : unit → M B) w P :
  w_oracle (f w) = w_oracle w → spec F (k ()) (f w) P → spec F (modify f ≫= k) w P.
Proof. intros Ho H Hw. apply wp_bind, wp_modify, H. unfold oracle_ok. by rewrite Ho. Qed.

(** ** PutChunk *)

Lemma Validate_ok d : valid_digest d = true → Validate d = mret ().
Proof. unfold Validate. by intros ->. Qed.

(** What a reader has to deliver to be stored under [d]. *)
Definition acceptable (d : Digest) (r : reader) : Prop :=
  valid_digest d = true ∧ rd_err r = false ∧ str_len (rd_data r) ≤ ChunkSize ∧
  digestBytes (rd_data r) = d.

Lemma PutChunk_accept d r w : acceptable d r → PutChunk d r w = writeChunk d (rd_data r) w.
Proof.
  intros (Hv&He&Hl&Hd). unfold PutChunk. rewrite Validate_ok, bind_ret by done.
  unfold read_all_limited. rewrite He, read_upto_all by lia. cbn [andb fst]. rewrite bind_ret.
  destruct (Z.ltb_spec ChunkSize (str_len (rd_data r))); [lia|]. by rewrite bool_decide_eq_true_2.
Qed.

Lemma PutChunk_reject d r w : ¬ acceptable d r → ∃ e, PutChunk d r w = (Fail e, w) ∧ e ≠ EFuel.
Proof.
  intros Hn. unfold PutChunk, Validate. destruct (valid_digest d) eqn:Hv; [|by eexists].
  rewrite bind_ret. unfold read_all_limited.
  destruct (decide (str_len (rd_data r) ≤ ChunkSize)) as [Hl|Hl].
  - rewrite read_upto_all by lia. cbn [fst]. destruct (rd_err r) eqn:He; cbn [andb].
    + destruct (Z.ltb_spec (str_len (rd_data r)) (ChunkSize + 1)); [|lia]. by eexists.
    + rewrite bind_ret. destruct (Z.ltb_spec ChunkSize (str_len (rd_data r))); [lia|].
      case_bool_decide; [by destruct Hn|by eexists].
  - destruct (read_upto_spec (ChunkSize + 1) (rd_data r)) as [_ Hs]; [by vm_compute|].
    rewrite Z.min_l in Hs by lia. rewrite Hs, Z.ltb_irrefl, andb_false_r, bind_ret, Hs.
    destruct (Z.ltb_spec ChunkSize (ChunkSize + 1)); [by eexists|lia].
Qed.

#[global] Instance decide_acceptable d r : Decision (acceptable d r).
Proof. unfold acceptable. apply _. Defined.

Lemma putChunk_cases d r w :
  let '(o, w') := PutChunk d r w in w' = w ∨ wrote (cpath d) (rd_data r) w w'.
Proof.
  destruct (decide (acceptable d r)) as [Ha|Hn].
  - pose proof Ha as (_&_&_&Hd). rewrite PutChunk_accept by done.
    pose proof (wp_writeChunk (rd_data r) w) as Hw. rewrite Hd in Hw.
    destruct (writeChunk d (rd_data r) w) as [o w'] eqn:E.
    apply (wp_elim _ _ _ Hw) in E as (?&_). by right.
  - destruct (PutChunk_reject d r w Hn) as (e&->&_). by left.
Qed.

(** [PutChunk] is the integrity gate for bytes from an untrusted sender.  If
    the stream is not exactly the content of the claimed digest (malformed digest,
    read error, more than [ChunkSize] bytes, or another hash) it fails and no file
    changes.  Otherwise no other file under a final name changes, and when it
    returns, the chunk holds exactly these bytes; it returns if no system call
    fails, and it never panics. *)
Theorem putChunk_gate d r w :
  let '(o, w') := PutChunk d r w in
  (¬ acceptable d r → w' = w ∧ ∃ e, o = Fail e) ∧
  (acceptable d r →
     wrote (cpath d) (rd_data r) w w' ∧
     (o = Ret () → ∃ t, w_fs w' !! cpath d = Some (File (rd_data r) t)) ∧
     (w_oracle w = [] → o = Ret ())) ∧
  fine o.
Proof.
  destruct (PutChunk d r w) as [o w'] eqn:Hp.
  destruct (decide (acceptable d r)) as [Ha|Hn].
  - pose proof Ha as (_&_&_&Hd). rewrite PutChunk_accept in Hp by done.
    pose proof (wp_writeChunk (rd_data r) w) as Hw. rewrite Hd in Hw.
    apply (wp_elim _ _ _ Hw) in Hp as (Hwr&Hf&Hr&Ho).
    split; [by intros []|]. split; [|done]. intros _. split; [done|]. split; [by apply Hr|].
    by intros [? _]%Ho.
  - destruct (PutChunk_reject d r w Hn) as (e&He&?). rewrite He in Hp. injection Hp as <- <-.
    repeat split; eauto; [done..|by destruct e].
Qed.

(** ** MissingChunks *)

(** The manifest's chunks that the store does not hold. *)
Definition absent (w : world) (d : Digest) : Prop :=
  valid_digest d = false ∨ w_fs w !! cpath d = None.

Section missing.
Context (F : Prop).

Lemma spec_missing_loop l seen w :
  spec F (missing_loop l seen) w (λ ds w',
    NoDup ds ∧ (∀ d, d ∈ ds → d ∈ l ∧ d ∉ seen) ∧
    (∀ d, d ∈ l → d ∉ seen → absent w d → d ∈ ds) ∧
    (∀ d, d ∈ ds → absent w d ∨ F)).
Proof.
  revert seen w. induction l as [|d l IH]; intros seen w; cbn.
  { apply spec_ret. split; [constructor|set_solver]. }
  case_bool_decide as Hd.
  { eapply spec_mono; [apply IH|]. set_solver. }
  eapply spec_bind; [apply spec_HasChunk|]. intros b w1 ((Hfs&_)&Hb&Hb').
  eapply spec_bind; [apply IH|]. intros ds w2 (Hn&H1&H2&H3). apply spec_ret.
  assert (∀ x, absent w1 x ↔ absent w x) as Ha by (unfold absent; by rewrite Hfs).
  assert (b = true → ¬ absent w d) as Hpres.
  { intros [? [? E]]%Hb [?|?]; congruence. }
  assert (b = false → absent w d ∨ F) as Habs.
  { intros ->. unfold absent. destruct (valid_digest d) eqn:Hv; [|by left; left].
    destruct (w_fs w !! cpath d) eqn:E; [|by left; right]. destruct Hb' as [|]; [done|by eexists|done|by right]. }
  setoid_rewrite Ha in H2. setoid_rewrite Ha in H3. destruct b.
  - split; [done|]. split; [set_solver|]. split; [|done].
    intros x [->|Hx]%elem_of_cons Hns Hab; [by destruct Hpres|]. apply H2; [done| |done].
    intros [->%elem_of_singleton|?]%elem_of_union; [by destruct Hpres|done].
  - split; [constructor; [|done]; intros [_ Hx]%H1; set_solver|]. split; [set_solver|]. split.
    + intros x Hx Hns Hab. destruct (decide (x = d)) as [->|]; [set_solver|].
      apply elem_of_cons. right. apply H2; set_solver.
    + intros x [->|Hx]%elem_of_cons; auto.
Qed.

End missing.

(** When no system call fails, [MissingChunks] returns, changes nothing, and
    lists every referenced chunk that the store does not hold, exactly once and
    nothing else; under failing calls it can only list too much, never too little. *)
Theorem missingChunks_exact m w :
  let '(o, w') := MissingChunks m w in
  quiet w w' ∧ fine o ∧
  (∀ ds, o = Ret ds → NoDup ds ∧ (∀ d, d ∈ refs m → absent w d → d ∈ ds) ∧
     (∀ d, d ∈ ds → d ∈ refs m)) ∧
  (w_oracle w = [] → ∃ ds, o = Ret ds ∧ NoDup ds ∧ ∀ d, d ∈ ds ↔ d ∈ refs m ∧ absent w d).
Proof.
  destruct (MissingChunks m w) as [o w'] eqn:Hm.
  assert (quiet w w') as Hq.
  { pose proof (ev_missing_loop quiet (refs m) ∅ w) as Hq. unfold MissingChunks in Hm.
    by rewrite Hm in Hq. }
  pose proof (spec_missing_loop (w_oracle w ≠ []) (refs m) ∅ w (λ H, H)) as Hs.
  apply (wp_elim _ _ _ Hs) in Hm as (Hf&_&Hr&HP). split; [done|]. split; [done|]. split.
  - intros ds (Hn&H1&H2&_)%HP. split; [done|]. split; [|set_solver]. intros d Hd. apply H2; set_solver.
  - intros Ho. destruct o as [ds|e| |]; try by destruct Hr. exists ds. split; [done|].
    destruct (HP ds eq_refl) as (Hn&H1&H2&H3). split; [done|]. intros d. split.
    + intros Hd. destruct (H3 d Hd); [|done]. by apply H1 in Hd as [? _].
    + intros [Hd Ha]. apply H2; set_solver.
Qed.

(** ** Snapshots *)

Section snapshots.
Context `{HS : !SliceSort, HR : !Root}.

Definition data_of (w : world) (p : string) : string := default "" (content w p).

(** The manifest of the files' present contents. *)
Definition snapshot_of (w : world) (files : gmap string string) (meta : Metadata) : Manifest :=
  manifestFrom ((λ '(n, p), entry_of n (data_of w p)) <$> sorted_files files) meta.

Definition snapshot_blocks (w : world) (l : list (string * string)) : list string :=
  concat ((λ '(_, p), blocks (data_of w p)) <$> l).

Definition files_exist (w : world) (files : gmap string string) : Prop :=
  ∀ n p, files !! n = Some p → outside p ∧ is_Some (content w p).

Lemma elem_of_sorted_files files n p : (n, p) ∈ sorted_files files ↔ files !! n = Some p.
Proof.
  unfold sorted_files. rewrite list_elem_of_omap. split.
  - intros (x&_&Hx). apply fmap_Some in Hx as (q&Hq&[= -> ->]). done.
  - intros Hp. exists n. rewrite sort_slice_perm, elem_of_elements, elem_of_dom, Hp. by eauto.
Qed.

Lemma data_of_exists w files n p : files_exist w files → (n, p) ∈ sorted_files files →
  outside p ∧ content w p = Some (data_of w p).
Proof.
  intros He Hp%elem_of_sorted_files. destruct (He n p Hp) as [Hout [d Hd]]. unfold data_of. by rewrite Hd.
Qed.

Section put.
Context (F : Prop).

Lemma spec_put_files l B w0 w :
  filled B w0 w → (∀ n p, (n, p) ∈ l → outside p ∧ content w0 p = Some (data_of w0 p)) →
  spec F (map_m (λ '(name, p), putFileChunks name p) l) w (λ es w',
    es = ((λ '(n, p), entry_of n (data_of w0 p)) <$> l) ∧
    filled (B ++ snapshot_blocks w0 l) w0 w').
Proof.
  revert B w. induction l as [|[n p] l IH]; intros B w HB Hl.
  { apply spec_ret. unfold snapshot_blocks. cbn. by rewrite app_nil_r. }
  eapply spec_bind; [apply spec_putFileChunks; [done|apply (Hl n p); set_solver..]|].
  intros fe w1 [-> H1]. eapply spec_bind; [apply IH; [done|]; set_solver|].
  intros es w2 [-> H2]. apply spec_ret. split; [done|].
  change (snapshot_blocks w0 ((n, p) :: l)) with (blocks (data_of w0 p) ++ snapshot_blocks w0 l).
  by rewrite app_assoc.
Qed.

Lemma spec_PutSnapshot files meta w : files_exist w files →
  spec F (PutSnapshot files meta) w (λ m w',
    m = snapshot_of w files meta ∧
    ∃ w1, filled (snapshot_blocks w (sorted_files files)) w w1 ∧
          wrote (manifestPath (Manifest_Digest m)) (Canonical m) w1 w' ∧
          ∃ t, w_fs w' !! manifestPath (Manifest_Digest m) = Some (File (Canonical m) t)).
Proof.
  intros He. eapply spec_bind.
  - apply (spec_put_files _ [] w); [apply filled_refl|]. intros n p Hp. by eapply data_of_exists.
  - intros es w1 [-> H1]. fold (snapshot_of w files meta).
    unfold writeManifest. eapply spec_bind.
    + apply spec_atomicWrite. apply valid_digest_not_tmp, digestBytes_valid.
    + intros [] w2 Hw2. apply spec_ret. split; [done|]. exists w1. done.
Qed.

Lemma spec_build_files l w0 w :
  quiet w0 w → (∀ n p, (n, p) ∈ l → content w0 p = Some (data_of w0 p)) →
  spec F (map_m (λ '(name, p),
      size ← stat_path p;
      chunks ← chunkFile p;
      mret {| fe_Name := name; fe_Size := size; fe_Chunks := chunks |}) l) w (λ es w',
    es = ((λ '(n, p), entry_of n (data_of w0 p)) <$> l) ∧ quiet w0 w').
Proof.
  revert w. induction l as [|[n p] l IH]; intros w Hq Hl; [by apply spec_ret|].
  assert (content w p = Some (data_of w0 p)) as Hp by (rewrite (content_quiet w0) by done; apply (Hl n); set_solver).
  eapply spec_bind with (P := λ fe w', fe = entry_of n (data_of w0 p) ∧ quiet w0 w').
  - eapply spec_bind; [by apply spec_stat_path|]. intros ? w1 [-> Hq1].
    eapply spec_bind; [apply spec_chunkFile; by rewrite (content_quiet w)|]. intros ? w2 [-> Hq2].
    apply spec_ret. split; [done|]. eauto using quiet_trans.
  - intros ? w1 [-> Hq1]. eapply spec_bind; [apply IH; [done|]; set_solver|].
    intros es w2 [-> Hq2]. by apply spec_ret.
Qed.

Lemma spec_BuildManifest files meta w : files_exist w files →
  spec F (BuildManifest files meta) w (λ m w', m = snapshot_of w files meta ∧ quiet w w').
Proof.
  intros He. eapply spec_bind.
  - apply (spec_build_files _ w w); [apply quiet_refl|]. intros n p Hp. by apply (data_of_exists w files n).
  - intros es w1 [-> Hq]. by apply spec_ret.
Qed.

End put.

End snapshots.

(** ** Materialize *)

Definition data_at (w : world) (d : Digest) : option string := f_data <$> w_fs w !! cpath d.

(** The stored chunk is there and intact. *)
Definition chunk_good (w : world) (c : ChunkRef) : Prop :=
  ∃ b, data_at w (cr_Digest c) = Some b ∧ digestBytes b = cr_Digest c.

(** [bs] are the stored chunks of [cs], each with the digest it is named by. *)
Definition chunks_are (w : world) : list ChunkRef → list string → Prop :=
  Forall2 (λ c b, data_at w (cr_Digest c) = Some b ∧ digestBytes b = cr_Digest c).

(** Only modification times of store files changed. *)
Definition same_data (w w' : world) : Prop :=
  ∀ p, f_data <$> w_fs w' !! p = f_data <$> w_fs w !! p.

#[global] Instance same_data_sys : SysStep same_data.
Proof.
  split; [split; [by intros w p|intros w1 w2 w3 H1 H2 p; by rewrite H2, H1]|]. by intros w r o _ p.
Qed.

Lemma data_at_same w w' d : same_data w w' → data_at w' d = data_at w d.
Proof. intros H. apply H. Qed.

Lemma chunk_good_same w w' c : same_data w w' → chunk_good w' c ↔ chunk_good w c.
Proof. intros H. unfold chunk_good. by rewrite (data_at_same w w'). Qed.

Lemma chunks_are_same w w' cs bs : same_data w w' → chunks_are w' cs bs → chunks_are w cs bs.
Proof.
  intros H Hc. eapply Forall2_impl; [exact Hc|]. intros c b [H1 H2]. split; [|done]. by rewrite <- (data_at_same w w').
Qed.

Lemma quiet_same w w' : quiet w w' → same_data w w'.
Proof. by intros (Hf&_) p; rewrite Hf. Qed.

Section copy.
Context `{HR : !Root} (F : Prop).

Lemma append_outside dst q data : place dst = inr q →
  append_file dst data = modify (set_ext (λ e, <[q := default "" (e !! q) +:+ data]> e)).
Proof. intros Hq. unfold append_file, write_file, content. by rewrite Hq. Qed.

Lemma write_outside dst q data : place dst = inr q → write_file dst data = set_ext <[q := data]>.
Proof. intros Hq. unfold write_file. by rewrite Hq. Qed.

Lemma remove_outside dst q : place dst = inr q → remove_file dst = set_ext (delete q).
Proof. intros Hq. unfold remove_file. by rewrite Hq. Qed.

Lemma spec_copyVerifiedChunk dst q c name w old : place dst = inr q →
  valid_digest (cr_Digest c) = true → (chunk_good w c ∨ F) → w_ext w !! q = Some old →
  spec F (copyVerifiedChunk dst c name) w (λ _ w', ∃ b,
    data_at w (cr_Digest c) = Some b ∧ digestBytes b = cr_Digest c ∧
    w_ext w' = <[q := old +:+ b]> (w_ext w) ∧ same_data w w').
Proof.
  intros Hdst Hv Hg Hold. unfold copyVerifiedChunk. rewrite chunkPath_cpath by done. apply spec_ret_bind.
  eapply spec_bind; [apply spec_call|]. intros opened w1 [Hq1 Ho]. apply spec_get_bind.
  pose proof Hq1 as (Hf1&He1&_). rewrite Hf1, Hdst.
  destruct (if opened then w_fs w !! cpath (cr_Digest c) else None) as [f|] eqn:Hf.
  2:{ apply spec_fail; [|done]. destruct Hg as [[b [Hb _]]|]; [|done]. unfold data_at in Hb.
      destruct opened; [by rewrite Hf in Hb|by destruct Ho]. }
  destruct opened; [|done]. assert (data_at w (cr_Digest c) = Some (f_data f)) as Hd.
  { unfold data_at. by rewrite Hf. }
  rewrite bool_decide_eq_false_2 by done. cbn [andb].
  eapply spec_bind; [apply spec_sys|]. intros a w2 [Hq2 Ha]. pose proof Hq2 as (Hf2&He2&_).
  destruct a as [|n|n]; rewrite (append_outside dst q) by done.
  - apply spec_modify_bind; [done|]. case_bool_decide as Hb.
    + apply spec_ret. exists (f_data f). split; [done|]. split; [done|]. cbn.
      rewrite He2, He1, Hold. split; [done|]. intros p. cbn. by rewrite Hf2, Hf1.
    + apply spec_fail; [|done]. destruct Hg as [[b [Hb1 Hb2]]|]; [congruence|done].
  - apply spec_modify_bind; [done|]. apply spec_fail; [by destruct Ha|done].
  - apply spec_modify_bind; [done|]. apply spec_crash. by destruct Ha.
Qed.

Lemma spec_touchChunk d w : valid_digest d = true →
  spec F (touchChunk d) w (λ _ w', w_ext w' = w_ext w ∧ same_data w w').
Proof.
  intros Hv. unfold touchChunk. rewrite chunkPath_cpath by done. apply spec_ret_bind.
  eapply spec_bind; [apply spec_call|]. intros b w1 [(Hf&He&_) _]. destruct b.
  - apply spec_modify; [done|]. split; [done|]. intros p. cbn. rewrite Hf.
    destruct (decide (p = cpath d)) as [->|Hne]; [|by rewrite lookup_alter_ne].
    rewrite lookup_alter_eq. by destruct (w_fs w !! cpath d).
  - apply spec_ret. split; [done|]. intros p. by rewrite Hf.
Qed.

Lemma spec_copy_chunks dst q cs name w old : place dst = inr q →
  Forall (λ c, valid_digest (cr_Digest c) = true) cs → (Forall (chunk_good w) cs ∨ F) →
  w_ext w !! q = Some old →
  spec F (copy_chunks dst cs name) w (λ _ w', ∃ bs, chunks_are w cs bs ∧
    w_ext w' = <[q := old +:+ str_concat bs]> (w_ext w) ∧ same_data w w').
Proof.
  intros Hq Hv. revert w old. induction Hv as [|c cs Hc Hv IH]; intros w old Hg Hold.
  { apply spec_ret. exists []. split; [constructor|]. split; [|done].
    change (str_concat []) with "". by rewrite str_app_nil_r, insert_id. }
  assert (chunk_good w c ∨ F) as Hg1 by (destruct Hg as [Hg%Forall_cons|]; naive_solver).
  eapply spec_bind; [by apply spec_copyVerifiedChunk|]. intros [] w1 (b&Hb&Hd&He1&Hs1).
  eapply spec_bind; [by apply spec_touchChunk|]. intros [] w2 [He2 Hs2].
  assert (same_data w w2) as Hs by (by trans w1).
  eapply spec_mono.
  - apply IH; [|by rewrite He2, He1, lookup_insert_eq]. destruct Hg as [Hg|]; [left|by right].
    apply Forall_cons in Hg as [_ Hg]. eapply Forall_impl; [done|]. intros c'. by apply chunk_good_same.
  - intros [] w3 (bs&Hbs&He3&Hs3). exists (b :: bs). split; [|split].
    + constructor; [done|]. by eapply chunks_are_same.
    + rewrite He3, He2, He1, insert_insert_eq. by rewrite str_app_assoc.
    + by trans w2.
Qed.

Lemma spec_materializeFileAt fe dst q w : place dst = inr q →
  Forall (λ c, valid_digest (cr_Digest c) = true) (fe_Chunks fe) →
  (Forall (chunk_good w) (fe_Chunks fe) ∨ F) →
  spec F (materializeFileAt fe dst) w (λ _ w', ∃ bs, chunks_are w (fe_Chunks fe) bs ∧
    w_ext w' = <[q := str_concat bs]> (w_ext w) ∧ same_data w w').
Proof.
  intros Hq Hv Hg. unfold materializeFileAt. rewrite (write_outside dst q), (remove_outside dst q) by done.
  eapply spec_bind; [apply spec_call_or|]. intros [] w1 Hq1.
  apply spec_modify_bind; [done|]. pose proof Hq1 as (Hf1&He1&_).
  assert (same_data w (set_ext <[q := ""]> w1)) as Hs by (intros p; cbn; by rewrite Hf1).
  set (Post := λ (_ : unit) w', ∃ bs, chunks_are w (fe_Chunks fe) bs ∧
    w_ext w' = <[q := str_concat bs]> (w_ext w) ∧ same_data w w').
  eapply spec_bind; [apply (spec_try _ _ _ Post)|].
  - eapply spec_bind.
    + apply spec_copy_chunks; [done..| |apply lookup_insert_eq]. destruct Hg as [Hg|]; [left|by right].
      eapply Forall_impl; [done|]. intros c. by apply chunk_good_same.
    + intros [] w2 (bs&Hb&He2&Hs2). cbn in He2. rewrite He1, insert_insert_eq in He2.
      eapply spec_bind; [apply spec_call_or|]. intros [] w3 Hq3.
      eapply spec_mono; [apply spec_call_or|]. intros [] w4 Hq4.
      pose proof (quiet_trans _ _ _ Hq3 Hq4) as Hq'. exists bs. split; [by eapply chunks_are_same|].
      split; [by rewrite (proj1 (proj2 Hq'))|]. trans w2; [|by apply quiet_same]. by etrans.
  - intros [e|[]] w2 Hr; [|by apply spec_ret].
    destruct Hr as [HF He]. eapply spec_bind; [apply spec_call|]. intros b w3 _.
    eapply spec_bind with (P := λ _ _, True); [|intros; by apply spec_fail].
    destruct b; [by apply spec_modify|by apply spec_ret].
Qed.

Lemma spec_GetManifest d w :
  (valid_digest d = true ∧ (∃ m, stored_manifest w d m)) ∨ F →
  spec F (GetManifest d) w (λ m w', quiet w w' ∧ stored_manifest w d m).
Proof.
  intros Hd. unfold GetManifest, Validate. destruct (valid_digest d) eqn:Hv.
  2:{ intros Ho. apply wp_bind, wp_fail, spec_stops; [done..| |done]. by destruct Hd as [[]|]. }
  apply spec_ret_bind. eapply spec_bind with (P := λ data w', quiet w w' ∧
    ∃ f, w_fs w !! manifestPath d = Some f ∧ data = f_data f).
  - eapply spec_bind; [apply spec_call_or|]. intros [] w1 Hq. apply spec_get_bind.
    rewrite (proj1 Hq). destruct (w_fs w !! manifestPath d) as [f|] eqn:Hf.
    + apply spec_ret. by eauto.
    + apply spec_fail; [|done]. destruct Hd as [(_&m&f&Hf'&_)|]; [congruence|done].
  - intros data w1 (Hq&f&Hf&->). destruct (decodeManifest (f_data f)) as [m|e] eqn:Hm.
    + apply spec_ret. split; [done|]. by exists f.
    + apply spec_fail; [|done]. destruct Hd as [(_&m&f'&Hf'&Hm')|]; [congruence|done].
Qed.

Definition dest (dir : string) (fe : FileEntry) : string := filepath_Join dir (fe_Name fe).

Definition good_files (w : world) (l : list FileEntry) : Prop :=
  Forall (λ fe, Forall (chunk_good w) (fe_Chunks fe)) l.

Lemma good_files_same w w' l : same_data w w' → good_files w l → good_files w' l.
Proof.
  intros Hs Hg. eapply Forall_impl; [exact Hg|]. intros fe Hfe.
  eapply Forall_impl; [exact Hfe|]. intros c. by apply chunk_good_same.
Qed.

(** The files go out of the store. *)
Definition files_out (dir : string) (l : list FileEntry) : Prop := Forall (λ fe, outside (dest dir fe)) l.

Lemma spec_materialize_files l dir w : files_out dir l →
  Forall (λ fe, Forall (λ c, valid_digest (cr_Digest c) = true) (fe_Chunks fe)) l →
  (good_files w l ∨ F) →
  spec F (iter_m (λ fe, materializeFile fe dir) l) w (λ _ w', same_data w w' ∧
    (∀ p, p ∉ dest dir <$> l → w_ext w' !! p = w_ext w !! p) ∧
    (NoDup (dest dir <$> l) → ∀ fe, fe ∈ l → ∃ bs,
       chunks_are w (fe_Chunks fe) bs ∧ w_ext w' !! dest dir fe = Some (str_concat bs))).
Proof.
  intros Hout Hv. revert Hout w. induction Hv as [|fe l Hfe Hv IH]; intros Hout w Hg.
  { apply spec_ret. split; [done|]. split; [done|]. set_solver. }
  apply Forall_cons in Hout as [Ho1%place_join Hout].
  eapply spec_bind; [apply spec_materializeFileAt; [exact Ho1|done|]|].
  { destruct Hg as [[? ?]%Forall_cons|]; auto. }
  intros [] w1 (bs&Hb&He&Hs). eapply spec_mono; [apply IH; [done|]|].
  { destruct Hg as [[_ Hg]%Forall_cons|]; [left|by right].
    by eapply good_files_same. }
  intros [] w2 (Hs2&Ho&Hn). fold (dest dir fe) in He. split; [by trans w1|]. split.
  - intros p Hp. rewrite fmap_cons, not_elem_of_cons in Hp. destruct Hp as [Hp1 Hp2].
    by rewrite (Ho p Hp2), He, lookup_insert_ne by congruence.
  - rewrite fmap_cons. intros [Hd Hnd]%NoDup_cons fe' [->|Hin]%elem_of_cons.
    + exists bs. split; [done|]. by rewrite (Ho _ Hd), He, lookup_insert_eq.
    + destruct (Hn Hnd fe' Hin) as (bs'&Hb'&He'). exists bs'. split; [by eapply chunks_are_same|done].
Qed.

Lemma spec_Materialize d dir w m : goes_out w d dir →
  (valid_digest d = true ∧ stored_manifest w d m ∧ good_files w (m_Files m)) ∨ F →
  spec F (Materialize d dir) w (λ _ w', same_data w w' ∧ ∃ m, stored_manifest w d m ∧
    (NoDup (dest dir <$> m_Files m) → ∀ fe, fe ∈ m_Files m → ∃ bs,
       chunks_are w (fe_Chunks fe) bs ∧ w_ext w' !! dest dir fe = Some (str_concat bs))).
Proof.
  intros Hgo Hd. unfold Materialize, Validate. destruct (valid_digest d) eqn:Hv.
  2:{ intros Ho. apply wp_bind, wp_fail, spec_stops; [done..| |done]. by destruct Hd as [[]|]. }
  apply spec_ret_bind. eapply spec_bind; [apply spec_GetManifest; naive_solver|].
  intros m' w1 [Hq Hm']. eapply spec_bind; [apply spec_call_or|]. intros [] w2 Hq2.
  pose proof (quiet_same _ _ (quiet_trans _ _ _ Hq Hq2)) as Hs. eapply spec_mono.
  - apply spec_materialize_files.
    + apply Forall_forall, (Hgo m' Hm').
    + destruct Hm' as (f&_&Hdec). by apply decode_digests_valid in Hdec.
    + destruct Hd as [(_&Hm&Hg)|]; [left|by right].
      assert (m = m') as <- by (destruct Hm as (?&?&?), Hm' as (?&?&?); congruence).
      by eapply good_files_same.
  - intros [] w3 (Hs3&_&Hfiles). split; [by trans w2|]. exists m'. split; [done|].
    intros Hnd fe Hfe. destruct (Hfiles Hnd fe Hfe) as (bs&Hb&He). exists bs.
    split; [by eapply chunks_are_same|done].
Qed.

End copy.

(** What a step keeps that writes only to [q] outside the store. *)
Class OutStep (q : string) (R : relation world) : Prop := {
  os_sys :: SysStep R;
  os_ext f w : (∀ e, delete q (f e) = delete q e) → R w (set_ext f w);
  os_touch p t w : R w (set_fs (alter (λ f, File (f_data f) t) p) w);
}.

Section out_steps.
Context `{HR : !Root} (dst q : string) (R : relation world) `{HO : !OutStep q R} (Hdst : place dst = inr q).

Lemma os_append data : evolves R (append_file dst data).
Proof.
  rewrite (append_outside dst q) by done. apply ev_modify. intros w. apply os_ext. intros e.
  by rewrite delete_insert_eq.
Qed.

Lemma os_write data : evolves R (modify (write_file dst data)).
Proof.
  rewrite (write_outside dst q) by done. apply ev_modify. intros w. apply os_ext. intros e.
  by rewrite delete_insert_eq.
Qed.

Lemma os_remove : evolves R (modify (remove_file dst)).
Proof.
  rewrite (remove_outside dst q) by done. apply ev_modify. intros w. apply os_ext. intros e.
  by rewrite delete_delete_eq.
Qed.

Lemma os_touchChunk d : evolves R (touchChunk d).
Proof.
  pose proof (ev_chunkPath R d) as Hp. unfold touchChunk. ev. apply ev_modify. intros w. apply os_touch.
Qed.
#[local] Hint Resolve os_append os_write os_remove os_touchChunk : cas.

Lemma os_copyVerifiedChunk c name : evolves R (copyVerifiedChunk dst c name).
Proof. pose proof (ev_chunkPath R) as Hp. unfold copyVerifiedChunk. ev. Qed.
#[local] Hint Resolve os_copyVerifiedChunk : cas.

Lemma os_copy_chunks cs name : evolves R (copy_chunks dst cs name).
Proof. induction cs; cbn; ev. Qed.
#[local] Hint Resolve os_copy_chunks : cas.

Lemma os_materializeFileAt fe : evolves R (materializeFileAt fe dst).
Proof. unfold materializeFileAt. ev. Qed.

End out_steps.

#[global] Instance same_data_out q : OutStep q same_data.
Proof.
  split; [apply _|by intros|]. intros p t w x. cbn. destruct (decide (x = p)) as [->|Hne].
  - rewrite lookup_alter_eq. by destruct (w_fs w !! p).
  - by rewrite lookup_alter_ne.
Qed.

Lemma Materialize_same `{HR : !Root} d dir w : goes_out w d dir → same_data w (Materialize d dir w).2.
Proof.
  intros Hgo. enough (wp (Materialize d dir) (λ _, same_data w) w) by done.
  unfold Materialize, Validate. destruct (valid_digest d); [|done].
  apply wp_bind, wp_ret, wp_bind, (wp_mono _ _ _ _ (wp_GetManifest d w)).
  intros o w1 [Hq%quiet_same Hm]. destruct o as [m|e| |]; try done. specialize (Hgo m (Hm m eq_refl)).
  assert (evolves same_data (call_or "mkdir dst" ;; iter_m (λ fe, materializeFile fe dir) (m_Files m))) as He.
  { ev. clear Hm. induction (m_Files m) as [|fe l IH]; cbn; ev; [|apply IH; set_solver].
    eapply os_materializeFileAt; [apply _|]. apply place_join, Hgo. set_solver. }
  cbn. unfold wp. trans w1; [done|apply He].
Qed.

(** Over an arbitrary store, whatever its files hold and whichever system
    calls fail, [Materialize] to a place outside the store never panics, changes no
    stored content, and if it returns, every file of the manifest is at its destination as the
    concatenation of chunks that hash to the digests the manifest names, in order:
    a corrupted or missing chunk is never delivered as success. *)
Theorem materialize_verified `{HR : !Root} d dir w : goes_out w d dir →
  let '(o, w') := Materialize d dir w in
  fine o ∧ same_data w w' ∧
  (o = Ret () → ∃ m, stored_manifest w d m ∧
     (NoDup (dest dir <$> m_Files m) → ∀ fe, fe ∈ m_Files m → ∃ bs,
        w_ext w' !! dest dir fe = Some (str_concat bs) ∧
        digestBytes <$> bs = cr_Digest <$> fe_Chunks fe)).
Proof.
  intros Hgo. destruct (Materialize d dir w) as [o w'] eqn:Hm.
  pose proof (Materialize_same d dir w Hgo) as Hs. rewrite Hm in Hs.
  pose proof (spec_Materialize True d dir w ex_manifest Hgo (or_intror I) (λ _, I)) as Hw.
  apply (wp_elim _ _ _ Hw) in Hm as (Hf&_&_&HP). split; [done|]. split; [done|].
  intros Hr. destruct (HP () Hr) as (_&m&Hm&Hfiles). exists m. split; [done|].
  intros Hnd fe Hfe. destruct (Hfiles Hnd fe Hfe) as (bs&Hb&He). exists bs. split; [done|].
  clear -Hb. induction Hb as [|c b cs bs [_ Hcb] _ IH]; [done|]. rewrite !fmap_cons. by f_equal.
Qed.

(** ** Failing without faults *)

Lemma sys_nil w : w_oracle w = [] → sys w = (Ret AOk, w).
Proof. unfold sys. by intros ->. Qed.

Lemma call_nil w : w_oracle w = [] → call w = (Ret true, w).
Proof. intros Ho. unfold call, mbind, M_bind. by rewrite sys_nil. Qed.

Lemma call_or_nil op w : w_oracle w = [] → call_or op w = (Ret (), w).
Proof. intros Ho. unfold call_or, mbind, M_bind. by rewrite call_nil. Qed.

(** Without faults a program either returns or fails. *)
Definition calm {A} (m : M A) : Prop := ∀ w, w_oracle w = [] →
  w_oracle (m w).2 = [] ∧ (is_ret (m w).1 ∨ ∃ e, (m w).1 = Fail e).

Lemma calm_bind {A B} (m : M A) (k : A → M B) : calm m → (∀ a, calm (k a)) → calm (m ≫= k).
Proof.
  intros Hm Hk w Ho. destruct (Hm w Ho) as [Ho' Hr]. unfold mbind, M_bind.
  destruct (m w) as [[a|e| |] w']; cbn in *; [by apply Hk|by eauto|..]; naive_solver.
Qed.

Lemma calm_ret {A} (a : A) : calm (mret a).
Proof. intros w Ho. split; [done|by left]. Qed.

Lemma calm_call_or op : calm (call_or op).
Proof. intros w Ho. rewrite call_or_nil by done. split; [done|by left]. Qed.

Section calm.
Context `{HR : !Root}.

Lemma calm_copyVerifiedChunk dst c name : valid_digest (cr_Digest c) = true →
  calm (copyVerifiedChunk dst c name).
Proof.
  intros Hv w Ho. unfold copyVerifiedChunk. rewrite chunkPath_cpath by done. rewrite bind_ret.
  unfold mbind, M_bind. rewrite call_nil by done. cbn.
  destruct (w_fs w !! cpath (cr_Digest c)) as [f|]; cbn; [|by eauto].
  rewrite sys_nil by done. cbn.
  assert (∀ data w', w_oracle (write_file dst data w') = w_oracle w') as Hwr.
  { intros data w'. unfold write_file. by destruct (place dst). }
  destruct (_ && _); cbn; [rewrite Hwr; by eauto|]. case_bool_decide; cbn; rewrite Hwr; by eauto.
Qed.

Lemma calm_touchChunk d : valid_digest d = true → calm (touchChunk d).
Proof.
  intros Hv w Ho. unfold touchChunk. rewrite chunkPath_cpath by done. rewrite bind_ret.
  unfold mbind, M_bind. rewrite call_nil by done. cbn. by eauto.
Qed.

Lemma calm_copy_chunks dst cs name :
  Forall (λ c, valid_digest (cr_Digest c) = true) cs → calm (copy_chunks dst cs name).
Proof.
  induction 1; [apply calm_ret|]. cbn.
  apply calm_bind; [by apply calm_copyVerifiedChunk|intros _].
  apply calm_bind; [by apply calm_touchChunk|done].
Qed.

End calm.

(** Of the files outside the store only [dst] changes. *)
Definition only_ext (dst : string) (w w' : world) : Prop :=
  delete dst (w_ext w') = delete dst (w_ext w).

#[global] Instance only_ext_sys dst : SysStep (only_ext dst).
Proof.
  split; [split; [by intros w|intros w1 w2 w3 H1 H2; unfold only_ext in *; congruence]|].
  by intros w r o _.
Qed.

#[global] Instance only_ext_out q : OutStep q (only_ext q).
Proof. split; [apply _|intros f w Hf; apply Hf|by intros]. Qed.

#[global] Instance chunk_good_dec w c : Decision (chunk_good w c).
Proof.
  refine (match data_at w (cr_Digest c) as x return data_at w (cr_Digest c) = x → _ with
          | Some b => λ E, cast_if (decide (digestBytes b = cr_Digest c))
          | None => λ E, right _ end eq_refl); unfold chunk_good; naive_solver.
Defined.

Section one_file.
Context `{HR : !Root}.

(** The cleanup after a failure. *)
Lemma materialize_file_fails fe dst q w : place dst = inr q → w_oracle w = [] →
  Forall (λ c, valid_digest (cr_Digest c) = true) (fe_Chunks fe) →
  let '(o, w') := materializeFileAt fe dst w in
  o = Ret () ∨ (∃ e, o = Fail e) ∧ w_ext w' = delete q (w_ext w).
Proof.
  intros Hq Ho Hv. unfold materializeFileAt. rewrite (write_outside dst q), (remove_outside dst q) by done.
  set (body := copy_chunks dst (fe_Chunks fe) (fe_Name fe) ;; call_or "sync" ;; call_or "close").
  assert (calm body) as Hb.
  { apply calm_bind; [by apply calm_copy_chunks|intros _].
    apply calm_bind; [apply calm_call_or|intros _; apply calm_call_or]. }
  assert (evolves (only_ext q) body) as He.
  { apply ev_bind; [apply _|exact (os_copy_chunks dst q (only_ext q) Hq _ _)|]. ev. }
  unfold mbind, M_bind. rewrite call_or_nil by done. cbn.
  specialize (Hb (set_ext <[q := ""]> w) Ho). specialize (He (set_ext <[q := ""]> w)).
  unfold try. destruct (body _) as [o2 w2]. cbn in Hb, He. destruct Hb as [Ho2 Hr].
  destruct o2 as [[]|e| |]; cbn in *; [by left|..]; try (exfalso; naive_solver).
  rewrite call_nil by done. cbn. right. split; [by eauto|].
  unfold only_ext in He. cbn in He. by rewrite He, delete_insert_eq.
Qed.

(** When no system call fails, reconstructing a file outside the store either finds every chunk
    present and intact, and writes their concatenation, or reports an error and
    removes the destination, so that a failed verification never leaves partial or
    corrupt bytes; no other file outside the store is touched. *)
Theorem materialize_file_decides fe dst q w :
  place dst = inr q → w_oracle w = [] → Forall (λ c, valid_digest (cr_Digest c) = true) (fe_Chunks fe) →
  let '(o, w') := materializeFileAt fe dst w in
  Forall (chunk_good w) (fe_Chunks fe) ∧ o = Ret () ∧
    (∃ bs, chunks_are w (fe_Chunks fe) bs ∧ w_ext w' = <[q := str_concat bs]> (w_ext w)) ∨
  ¬ Forall (chunk_good w) (fe_Chunks fe) ∧ (∃ e, o = Fail e) ∧
    w_ext w' = delete q (w_ext w).
Proof.
  intros Hq Ho Hv. pose proof (materialize_file_fails fe dst q w Hq Ho Hv) as Hfail.
  destruct (materializeFileAt fe dst w) as [o w'] eqn:Hm.
  destruct (decide (Forall (chunk_good w) (fe_Chunks fe))) as [Hg|Hg].
  - left. split; [done|].
    pose proof (spec_materializeFileAt False fe dst q w Hq Hv (or_introl Hg) (λ H, H Ho)) as Hs.
    apply (wp_elim _ _ _ Hs) in Hm as (_&_&Hr&HP). destruct o as [[]| | |]; try by destruct Hr.
    split; [done|]. destruct (HP () eq_refl) as (bs&?&?&_). by exists bs.
  - right. split; [done|]. destruct Hfail as [->|]; [exfalso|done]. apply Hg.
    pose proof (spec_materializeFileAt True fe dst q w Hq Hv (or_intror I) (λ _, I)) as Hs.
    apply (wp_elim _ _ _ Hs) in Hm as (_&_&_&HP). destruct (HP () eq_refl) as (bs&Hb&_).
    clear -Hb. induction Hb as [|c b cs bs Hcb _ IH]; constructor; [by exists b|done].
Qed.

End one_file.

#[local] Existing Instance ex_root.

(** A chunk whose stored bytes no longer hash to its name. *)
Definition ex_corrupt : world :=
  World {[ cpath (digestBytes "abc") := File "abX" 0 ]} ∅ 0 0 [].

Lemma ex_corrupt_bad : ¬ Forall (chunk_good ex_corrupt) (chunk_refs "abc").
Proof.
  intros H. assert (chunk_refs "abc" = [chunk_ref "abc"]) as E by reflexivity. rewrite E in H.
  apply Forall_cons in H as [(b&Hb&Hd) _]. vm_compute in Hb. injection Hb as <-.
  vm_compute in Hd. discriminate Hd.
Qed.

Lemma materialize_file_decides_witness :
  (∃ e, (materializeFileAt (entry_of "mem" "abc") "/out/mem" ex_corrupt).1 = Fail e) ∧
  w_ext (materializeFileAt (entry_of "mem" "abc") "/out/mem" ex_corrupt).2 = delete "/out/mem" ∅.
Proof.
  pose proof (materialize_file_decides (entry_of "mem" "abc") "/out/mem" "/out/mem" ex_corrupt eq_refl eq_refl) as H.
  assert (Forall (λ c, valid_digest (cr_Digest c) = true) (fe_Chunks (entry_of "mem" "abc"))) as Hv
    by by_eval.
  specialize (H Hv). destruct (materializeFileAt _ _ _) as [o w'].
  destruct H as [[Hg _]|(_&He&Hx)]; [destruct (ex_corrupt_bad Hg)|split; [exact He|exact Hx]].
Defined.

End CasTheorems.
