(* ===== verification/CasRoundtrip.v ===== *)
(** * Storing a snapshot and reading it back

    [PutSnapshot] and [BuildManifest] compute the same manifest, the manifest of
    the files' contents, and what [PutSnapshot] stores [Materialize] gives back,
    also when chunks were already there (the dedup skip).  A file that passes
    [VerifyFilesAgainstManifest] has the recorded content. *)

From Stdlib Require Import Ascii.
From S2P Require Import Prelude Sha256 Json Manifest Cas CasInvariant CasChunks CasTheorems.
Import Sha256 Json Manifest Cas CasInvariant CasChunks CasTheorems.

Module CasRoundtrip.

Section roundtrip.
Context `{HS : !SliceSort, HR : !Root}.

(** [BuildManifest] and [PutSnapshot] never panic, and whenever they return,
    both return the same manifest: one entry per file in name order with its size
    and the digests of its 4 MiB blocks.  They do return when every file exists
    and no system call fails. *)
Theorem build_put_agree files meta w : files_exist w files →
  let '(o1, w1) := BuildManifest files meta w in
  let '(o2, w2) := PutSnapshot files meta w in
  fine o1 ∧ fine o2 ∧ w_fs w1 = w_fs w ∧
  (∀ m, o1 = Ret m → m = snapshot_of w files meta) ∧
  (∀ m, o2 = Ret m → m = snapshot_of w files meta) ∧
  (w_oracle w = [] → o1 = Ret (snapshot_of w files meta) ∧ o2 = Ret (snapshot_of w files meta)).
Proof.
  intros He. destruct (BuildManifest files meta w) as [o1 w1] eqn:H1.
  destruct (PutSnapshot files meta w) as [o2 w2] eqn:H2.
  assert (w_fs w1 = w_fs w) as Hfs.
  { pose proof (ev_BuildManifest quiet files meta w) as Hq. rewrite H1 in Hq. apply Hq. }
  pose proof (spec_BuildManifest (w_oracle w ≠ []) files meta w He (λ H, H)) as S1.
  pose proof (spec_PutSnapshot (w_oracle w ≠ []) files meta w He (λ H, H)) as S2.
  apply (wp_elim _ _ _ S1) in H1 as (F1&_&R1&P1). apply (wp_elim _ _ _ S2) in H2 as (F2&_&R2&P2).
  do 3 (split; [done|]). split; [by intros m [? _]%P1|]. split; [by intros m [? _]%P2|].
  intros Ho. destruct R1 as [R1|]; [|done]. destruct R2 as [R2|]; [|done].
  destruct o1 as [m1| | |]; try done. destruct o2 as [m2| | |]; try done.
  by rewrite (proj1 (P1 m1 eq_refl)), (proj1 (P2 m2 eq_refl)).
Qed.

(** The hypothesis on SHA-256, for the contents at hand only: a block of the
    files and another such block or stored chunk with the same digest are equal. *)
Definition no_collision (w : world) (bs : list string) : Prop :=
  ∀ b c, b ∈ bs → (c ∈ bs ∨ ∃ p f, w_fs w !! p = Some f ∧ f_data f = c) →
    digestBytes c = digestBytes b → c = b.

(** Stored blocks are intact and equal to what was stored. *)
Lemma filled_data B w0 w w' b m :
  filled B w0 w → wrote (manifestPath (Manifest_Digest m)) (Canonical m) w w' → integrity w' →
  no_collision w0 B → b ∈ B → data_at w' (digestBytes b) = Some b.
Proof.
  intros HB (_&Hwr&_) Hi Hn Hb. pose proof (digestBytes_valid b) as Hv.
  pose proof (cpath_not_tmp _ Hv) as Ht.
  destruct (fi_has _ _ _ HB b Hb) as [f Hf]. pose proof Hf as Hf'. rewrite <- Hwr in Hf' by done.
  unfold data_at. rewrite Hf'. cbn. f_equal.
  apply Hn; [done| |by destruct (Hi _ _ Hf') as [?|[?|?]]; [congruence|..]].
  destruct (fi_from _ _ _ HB _ _ Ht (in_chunks_cpath _) Hf) as [(f0&H0&<-)|]; eauto.
Qed.

(** A block of a file to store is among the snapshot's blocks. *)
Lemma elem_of_snapshot_blocks w files n p b :
  files !! n = Some p → b ∈ blocks (data_of w p) → b ∈ snapshot_blocks w (sorted_files files).
Proof.
  intros Hp Hb. unfold snapshot_blocks. apply list_elem_of_In, in_concat.
  exists (blocks (data_of w p)). rewrite <- !list_elem_of_In. split; [|done].
  apply list_elem_of_fmap. exists (n, p). split; [done|]. by apply elem_of_sorted_files.
Qed.

Lemma snapshot_files w files meta fe :
  fe ∈ m_Files (snapshot_of w files meta) ↔ ∃ n p, files !! n = Some p ∧ fe = entry_of n (data_of w p).
Proof.
  cbn. rewrite list_elem_of_fmap. split.
  - intros ([n p]&->&H%elem_of_sorted_files). by exists n, p.
  - intros (n&p&H&->). exists (n, p). split; [done|]. by apply elem_of_sorted_files.
Qed.

Lemma omap_fst_sorted (files : gmap string string) l :
  (∀ n, n ∈ l → is_Some (files !! n)) → (omap (λ n, (n,.) <$> files !! n) l).*1 = l.
Proof.
  induction l as [|n l IH]; intros Hl; [done|]. destruct (Hl n) as [p Hp]; [set_solver|].
  cbn. rewrite Hp. cbn. rewrite IH; set_solver.
Qed.

Lemma snapshot_names w files meta :
  fe_Name <$> m_Files (snapshot_of w files meta) ≡ₚ elements (dom files).
Proof.
  assert (fe_Name <$> m_Files (snapshot_of w files meta) = (sorted_files files).*1) as ->.
  { cbn. rewrite <- list_fmap_compose. apply list_fmap_ext. by intros _ [n p] _. }
  unfold sorted_files. rewrite omap_fst_sorted; [apply sort_slice_perm|].
  intros n. by rewrite sort_slice_perm, elem_of_elements, elem_of_dom.
Qed.

(** Metadata and names that the canonical bytes can carry. *)
Record storable (w : world) (files : gmap string string) (meta : Metadata) : Prop := {
  st_exist : files_exist w files;
  st_names n : is_Some (files !! n) → ascii_only n = true;
  st_sizes n p : files !! n = Some p → is_int64 (str_len (data_of w p));
  st_meta : wf_manifest (manifestFrom [] meta);
}.

Lemma block_size_int64 b : 0 < str_len b ≤ ChunkSize → is_int64 (str_len b).
Proof. assert (ChunkSize = 4194304) by done. unfold is_int64, min_int64, max_int64. lia. Qed.

Lemma snapshot_wf w files meta : storable w files meta →
  wf_manifest (snapshot_of w files meta) ∧ distinct_names (snapshot_of w files meta).
Proof.
  intros [He Hn Hsz Hm]. split.
  - destruct Hm. split; try done. apply Forall_forall. intros fe Hfe.
    apply snapshot_files in Hfe as (n&p&Hp&->). split; [by apply Hn; eauto|]. split; [by eapply Hsz|].
    cbn. unfold chunk_refs. apply Forall_fmap, (Forall_impl _ _ _ (blocks_bounds _)). intros b Hb.
    split; [apply digestBytes_valid|by apply block_size_int64].
  - unfold distinct_names. rewrite snapshot_names. apply NoDup_elements.
Qed.

(** What [PutSnapshot] leaves behind, without faults. *)
Lemma put_snapshot_stored files meta w :
  w_oracle w = [] → integrity w → storable w files meta →
  no_collision w (snapshot_blocks w (sorted_files files)) →
  let m := snapshot_of w files meta in
  ∃ w1, PutSnapshot files meta w = (Ret m, w1) ∧ w_oracle w1 = [] ∧
    stored_manifest w1 (Manifest_Digest m) (normalize m) ∧
    ∀ b, b ∈ snapshot_blocks w (sorted_files files) → data_at w1 (digestBytes b) = Some b.
Proof.
  intros Ho Hi Hst Hnc m. destruct (snapshot_wf w files meta Hst) as [Hwf _].
  destruct (PutSnapshot files meta w) as [o w1] eqn:Hput.
  pose proof (ev_PutSnapshot files meta w) as Hi1. rewrite Hput in Hi1. specialize (Hi1 Hi).
  pose proof (spec_PutSnapshot False files meta w (st_exist _ _ _ Hst) (λ H, H Ho)) as Hs.
  apply (wp_elim _ _ _ Hs) in Hput as (_&Hok&Hr&HP). destruct o as [m'| | |]; try by destruct Hr.
  destruct (HP m' eq_refl) as (->&wm&Hfill&Hwr&t&Hman). fold m in Hman, Hwr |- *.
  exists w1. split; [done|]. split; [|split].
  - destruct (w_oracle w1) eqn:E; [done|]. exfalso. apply Hok. by rewrite E.
  - eexists. split; [exact Hman|]. by apply decode_Canonical.
  - intros b Hb. by eapply filled_data.
Qed.

(** Chunks of a file whose blocks are stored. *)
Lemma chunks_are_blocks w data bs :
  (∀ b, b ∈ blocks data → data_at w (digestBytes b) = Some b) →
  chunks_are w (chunk_refs data) bs → bs = blocks data.
Proof.
  intros Hd Hc. unfold chunk_refs, chunks_are in Hc. revert bs Hc Hd.
  induction (blocks data) as [|b l IH]; intros bs Hc Hd; [by inversion Hc|].
  rewrite fmap_cons in Hc. apply Forall2_cons_inv_l in Hc as (b'&bs'&[Hb' _]&Hc&->).
  cbn in Hb'. rewrite Hd in Hb' by set_solver. injection Hb' as <-. f_equal.
  apply IH; [done|]. set_solver.
Qed.

Lemma blocks_good w data :
  (∀ b, b ∈ blocks data → data_at w (digestBytes b) = Some b) →
  Forall (chunk_good w) (chunk_refs data).
Proof.
  intros Hd. apply Forall_fmap, Forall_forall. intros b Hb. exists b. split; [by apply Hd|done].
Qed.

Lemma dest_nodup w files meta dir :
  storable w files meta →
  (∀ n1 n2, is_Some (files !! n1) → is_Some (files !! n2) →
     filepath_Join dir n1 = filepath_Join dir n2 → n1 = n2) →
  NoDup (dest dir <$> m_Files (normalize (snapshot_of w files meta))).
Proof.
  intros Hst Hinj. destruct (snapshot_wf w files meta Hst) as [_ Hdn%distinct_normalize].
  set (l := m_Files _) in *.
  assert (dest dir <$> l = filepath_Join dir <$> (fe_Name <$> l)) as -> by
    (by rewrite <- list_fmap_compose).
  assert (∀ n, n ∈ fe_Name <$> l → is_Some (files !! n)) as Hl.
  { intros n. unfold l. cbn [normalize m_Files]. rewrite sort_slice_perm, snapshot_names.
    by rewrite elem_of_elements, elem_of_dom. }
  apply NoDup_fmap_2_strong; [|exact Hdn]. intros n1 n2 H1 H2. apply Hinj; auto.
Qed.

(** C16: a snapshot reads back as it was.  On an intact store, for existing files
    with distinct destinations, both outside the directory of the store, and no
    SHA-256 collision among the blocks at hand, and with no failing system call, [PutSnapshot] returns a manifest and
    [Materialize] of its digest returns, with every file restored byte for byte. *)
Theorem snapshot_roundtrip files meta dir w :
  w_oracle w = [] → integrity w → storable w files meta →
  no_collision w (snapshot_blocks w (sorted_files files)) →
  (∀ n1 n2, is_Some (files !! n1) → is_Some (files !! n2) →
     filepath_Join dir n1 = filepath_Join dir n2 → n1 = n2) →
  (∀ n, is_Some (files !! n) → outside (filepath_Join dir n)) →
  ∃ m w1 w2, PutSnapshot files meta w = (Ret m, w1) ∧
    Materialize (Manifest_Digest m) dir w1 = (Ret (), w2) ∧
    ∀ n p, files !! n = Some p → content w2 (filepath_Join dir n) = content w p.
Proof.
  intros Ho Hi Hst Hnc Hinj Hout. destruct (put_snapshot_stored files meta w) as (w1&Hput&Ho1&Hsm&Hd); try done.
  set (m := snapshot_of w files meta) in *.
  assert (∀ fe, fe ∈ m_Files (normalize m) ↔
    ∃ n p, files !! n = Some p ∧ fe = entry_of n (data_of w p)) as Hfiles.
  { intros fe. cbn [normalize m_Files]. rewrite sort_slice_perm. apply snapshot_files. }
  destruct (Materialize (Manifest_Digest m) dir w1) as [o w2] eqn:Hmat.
  assert (good_files w1 (m_Files (normalize m))) as Hg.
  { apply Forall_forall. intros fe (n&p&Hp&->)%Hfiles. apply blocks_good. intros b Hb.
    by eapply Hd, elem_of_snapshot_blocks. }
  assert (goes_out w1 (Manifest_Digest m) dir) as Hgo.
  { intros m' Hm' fe Hfe. assert (m' = normalize m) as -> by (destruct Hm' as (?&?&?), Hsm as (?&?&?); congruence).
    apply Hfiles in Hfe as (n&p&Hp&->). apply Hout. by eauto. }
  pose proof (spec_Materialize False (Manifest_Digest m) dir w1 (normalize m) Hgo
    (or_introl (conj (digestBytes_valid _) (conj Hsm Hg))) (λ H, H Ho1)) as Hs.
  apply (wp_elim _ _ _ Hs) in Hmat as Hpost. destruct Hpost as (_&_&Hr&HP).
  destruct o as [[]| | |]; try by destruct Hr. exists m, w1, w2. split; [done|]. split; [done|].
  destruct (HP () eq_refl) as (_&m'&Hm'&Hres).
  assert (m' = normalize m) as -> by (destruct Hm' as (?&?&?), Hsm as (?&?&?); congruence).
  intros n p Hp. destruct (Hres) with (fe := entry_of n (data_of w p)) as (bs&Hbs&He).
  - by eapply dest_nodup.
  - apply Hfiles. eauto.
  - unfold dest in He. cbn in He. unfold content at 1. rewrite place_join by (apply Hout; by eauto). rewrite He.
    apply chunks_are_blocks in Hbs as ->; [|intros b Hb; by eapply Hd, elem_of_snapshot_blocks].
    rewrite blocks_concat. destruct (st_exist _ _ _ Hst n p Hp) as [_ [d Hpd]]. unfold data_of. by rewrite Hpd.
Qed.

End roundtrip.

(** ** VerifyFilesAgainstManifest *)

Lemma compare_from_spec F name i want got w :
  length want = length got → (want = got ∨ F) →
  spec F (compare_from name i want got) w (λ _ w', w' = w ∧ want = got).
Proof.
  revert i got. induction want as [|a want IH]; intros i [|b got] Hl HF; try done; cbn.
  { by apply spec_ret. }
  injection Hl as Hl. destruct (bool_decide_reflect (cr_Digest a = cr_Digest b)) as [Hd|Hd]; cbn.
  2:{ apply spec_fail; [|done]. destruct HF as [[= -> _]|]; done. }
  destruct (Z.eqb_spec (cr_Size a) (cr_Size b)) as [Hs|Hs].
  2:{ apply spec_fail; [|done]. destruct HF as [[= -> _]|]; done. }
  assert (a = b) as -> by (destruct a, b; cbn in *; congruence).
  eapply spec_mono; [apply IH; [done|naive_solver]|]. by intros [] w' [-> ->].
Qed.

Lemma compareChunks_spec F name want got w : (want = got ∨ F) →
  spec F (compareChunks name want got) w (λ _ w', w' = w ∧ want = got).
Proof.
  intros HF. unfold compareChunks. destruct (Nat.eqb_spec (length want) (length got)) as [Hl|Hl]; cbn.
  - by apply compare_from_spec.
  - apply spec_fail; [|done]. destruct HF as [->|]; done.
Qed.

Section verify.
Context `{HR : !Root}.

(** A supplied file is recorded in the manifest with the chunks it has on disk. *)
Definition recorded (m : Manifest) (w : world) (np : string * string) : Prop :=
  ∃ fe data, byName m np.1 = Some fe ∧ content w np.2 = Some data ∧ fe_Chunks fe = chunk_refs data.

Lemma spec_chunkFile_missing (F : Prop) p w : F → content w p = None →
  spec F (chunkFile p) w (λ _ _, False).
Proof.
  intros HF Hp. eapply spec_bind with (P := λ _ _, False); [|done].
  eapply spec_bind; [apply spec_call_or|]. intros [] w1 Hq. apply spec_get_bind.
  rewrite (content_quiet w), Hp by done. by apply spec_fail.
Qed.

Lemma spec_verify F m files w : (Forall (recorded m w) files ∨ F) →
  spec F (VerifyFilesAgainstManifest m files) w (λ _ w', quiet w w' ∧ Forall (recorded m w) files).
Proof.
  unfold VerifyFilesAgainstManifest.
  revert w. induction files as [|[name p] files IH]; intros w HF; cbn.
  { apply spec_ret. split; [apply quiet_refl|constructor]. }
  assert (recorded m w (name, p) ∨ F) as H1 by (destruct HF as [[? ?]%Forall_cons|]; auto).
  eapply spec_bind with (P := λ _ w', quiet w w' ∧ recorded m w (name, p)).
  - destruct (byName m name) as [fe|] eqn:Hb.
    2:{ apply spec_fail; [|done]. destruct H1 as [(?&?&?&_)|]; [cbn in *; congruence|done]. }
    destruct (content w p) as [data|] eqn:Hp.
    2:{ eapply spec_bind; [apply spec_chunkFile_missing; [|done]|done].
        destruct H1 as [(?&?&?&?&_)|]; [cbn in *; congruence|done]. }
    eapply spec_bind; [by apply spec_chunkFile|]. intros ? w1 [-> Hq].
    eapply spec_mono; [apply compareChunks_spec|].
    + destruct H1 as [(fe'&data'&?&?&?)|]; [left; cbn in *; congruence|by right].
    + intros [] w2 [-> He]. split; [done|]. by exists fe, data.
  - intros [] w1 [Hq Hr]. eapply spec_mono; [apply IH|].
    + destruct HF as [[_ Hf]%Forall_cons|]; [left|by right]. eapply Forall_impl; [exact Hf|].
      intros [n q] (fe&data&?&?&?). exists fe, data. by rewrite (content_quiet w).
    + intros [] w2 [Hq2 Hf]. split; [by eapply quiet_trans|]. constructor; [done|].
      eapply Forall_impl; [exact Hf|]. intros [n q] (fe&data&?&He&?). exists fe, data.
      by rewrite (content_quiet w) in He.
Qed.

(** [VerifyFilesAgainstManifest] never panics, writes nothing, and returns
    without error only if every supplied file is recorded in the manifest under
    its name with exactly the chunk digests and sizes of its on-disk content, in
    order; without failing system calls it returns whenever that is so. *)
Theorem verify_files_exact m files w :
  let '(o, w') := VerifyFilesAgainstManifest m files w in
  fine o ∧
  (o = Ret () → w_fs w' = w_fs w ∧ w_ext w' = w_ext w ∧ Forall (recorded m w) files) ∧
  (w_oracle w = [] → Forall (recorded m w) files → o = Ret ()).
Proof.
  destruct (VerifyFilesAgainstManifest m files w) as [o w'] eqn:Hv.
  pose proof (spec_verify True m files w (or_intror I) (λ _, I)) as Hs.
  apply (wp_elim _ _ _ Hs) in Hv as Hp. destruct Hp as (Hf&_&_&HP). split; [done|]. split.
  - intros [Hq Hr]%HP. repeat split; [apply Hq..|done].
  - intros Ho Hr. pose proof (spec_verify False m files w (or_introl Hr) (λ H, H Ho)) as Hs'.
    apply (wp_elim _ _ _ Hs') in Hv as (_&_&Hret&_). destruct o as [[]| | |]; by destruct Hret.
Qed.

(** Files with the same chunk references are equal, collisions aside. *)
Lemma chunk_refs_inj d1 d2 :
  (∀ b c, b ∈ blocks d1 → c ∈ blocks d2 → digestBytes b = digestBytes c → b = c) →
  chunk_refs d1 = chunk_refs d2 → d1 = d2.
Proof.
  intros Hn He. rewrite <- (blocks_concat d1), <- (blocks_concat d2). f_equal.
  unfold chunk_refs in He. revert Hn He. generalize (blocks d1) as l1. generalize (blocks d2) as l2.
  intros l2 l1. revert l2. induction l1 as [|b l1 IH]; intros [|c l2] Hn; try done.
  rewrite !fmap_cons. intros [Hbc He]%(inj2 cons).
  rewrite (Hn b c); [|by left..|exact (f_equal cr_Digest Hbc)]. f_equal.
  apply IH; [|done]. intros b' c' ??. apply Hn; by right.
Qed.

(** Tampering is detected.  If a manifest records a file taken from [data],
    a file on disk that differs from it, without a SHA-256 collision between
    their blocks, does not pass the verification, whatever else is supplied and
    whichever system calls fail. *)
Theorem verify_detects_tampering m files w name p data data' :
  byName m name = Some (entry_of name data) → (name, p) ∈ files → content w p = Some data' →
  data' ≠ data →
  (∀ b c, b ∈ blocks data → c ∈ blocks data' → digestBytes b = digestBytes c → b = c) →
  (VerifyFilesAgainstManifest m files w).1 ≠ Ret ().
Proof.
  intros Hb Hin Hp Hne Hn Hr.
  pose proof (spec_verify True m files w (or_intror I) (λ _, I)) as (_&_&_&HP).
  destruct (HP () Hr) as [_ Hrec]. rewrite Forall_forall in Hrec.
  destruct (Hrec _ Hin) as (fe&d&Hfe&Hd&Hc). cbn in *. apply Hne. symmetry.
  apply chunk_refs_inj; [done|]. by simplify_eq.
Qed.

End verify.

(** ** A concrete store *)

#[local] Existing Instance ex_root.

Definition ex_files : gmap string string := {[ "mem" := "/img/mem"; "vmstate" := "/img/vmstate" ]}.
Definition ex_meta : Metadata := {|
  md_VMMVersion := "1.7.0"; md_CreatedUnix := 7; md_SnapshotFormatVersion := 1; md_CPUModel := "x";
  md_KernelVersion := "6.1"; md_ConfigHash := "c"; md_HotPages := None; md_HugePages := "";
  md_GuestProtocolVersion := 1 |}.
Definition ex_world : world :=
  World ∅ {[ "/img/mem" := "abc"; "/img/vmstate" := "xyz" ]} 0 0 [].

Lemma ex_files_lookup n p : ex_files !! n = Some p →
  n = "mem" ∧ p = "/img/mem" ∨ n = "vmstate" ∧ p = "/img/vmstate".
Proof. unfold ex_files. rewrite lookup_insert_Some, lookup_singleton_Some. naive_solver. Qed.

Lemma ex_storable : storable ex_world ex_files ex_meta.
Proof.
  split.
  - intros n p [[_ ->]|[_ ->]]%ex_files_lookup; (split; [by eexists|vm_compute; eauto]).
  - intros n [p [[-> _]|[-> _]]%ex_files_lookup]; reflexivity.
  - intros n p [[_ ->]|[_ ->]]%ex_files_lookup; by_eval.
  - split; try by_eval. done.
Qed.

Lemma build_put_agree_witness :
  (BuildManifest ex_files ex_meta ex_world).1 = (PutSnapshot ex_files ex_meta ex_world).1.
Proof.
  pose proof (build_put_agree ex_files ex_meta ex_world (st_exist _ _ _ ex_storable)) as H.
  destruct (BuildManifest ex_files ex_meta ex_world) as [o1 w1].
  destruct (PutSnapshot ex_files ex_meta ex_world) as [o2 w2].
  destruct H as (_&_&_&_&_&H). destruct H as [-> ->]; reflexivity.
Defined.

Lemma ex_blocks : snapshot_blocks ex_world (sorted_files ex_files) = ["abc"; "xyz"].
Proof. vm_compute. reflexivity. Qed.

Lemma snapshot_roundtrip_witness :
  ∃ m w1 w2, PutSnapshot ex_files ex_meta ex_world = (Ret m, w1) ∧
    Materialize (Manifest_Digest m) "/out" w1 = (Ret (), w2) ∧
    ∀ n p, ex_files !! n = Some p → content w2 (filepath_Join "/out" n) = content ex_world p.
Proof.
  apply (snapshot_roundtrip ex_files ex_meta "/out" ex_world).
  - reflexivity.
  - apply map_Forall_empty.
  - apply ex_storable.
  - rewrite ex_blocks. intros b c Hb [Hc|(p&f&Hf&_)]; [|change (w_fs ex_world) with (∅ : gmap path file) in Hf; by rewrite lookup_empty in Hf].
    revert b c Hb Hc. assert (Forall (λ b, Forall (λ c, digestBytes c = digestBytes b → c = b)
      ["abc"; "xyz"]) ["abc"; "xyz"]) as H.
    { repeat constructor; intros E; vm_compute in E; congruence. }
    intros b c Hb Hc. rewrite Forall_forall in H. specialize (H b Hb). rewrite Forall_forall in H.
    exact (H c Hc).
  - intros n1 n2 [p1 [[-> _]|[-> _]]%ex_files_lookup] [p2 [[-> _]|[-> _]]%ex_files_lookup] E;
      try reflexivity; vm_compute in E; discriminate E.
  - intros n [p [[-> _]|[-> _]]%ex_files_lookup]; eexists; vm_compute; reflexivity.
Defined.

(** The recorded file was "abc"; on disk it is "abd". *)
Lemma verify_detects_tampering_witness :
  (VerifyFilesAgainstManifest (manifestFrom [entry_of "mem" "abc"] ex_meta) [("mem", "/img/mem")]
     (World ∅ {[ "/img/mem" := "abd" ]} 0 0 [])).1 ≠ Ret ().
Proof.
  apply (verify_detects_tampering _ _ _ "mem" "/img/mem" "abc" "abd").
  - reflexivity.
  - by apply list_elem_of_singleton.
  - reflexivity.
  - discriminate.
  - intros b c. change (blocks "abc") with ["abc"]. change (blocks "abd") with ["abd"].
    intros ->%list_elem_of_singleton ->%list_elem_of_singleton E. vm_compute in E. discriminate E.
Defined.

(** A manifest whose file name climbs out of the destination. *)
Definition ex_climbing : Manifest := manifestFrom [entry_of "../etc/passwd" "abc"] ex_meta.
Definition ex_climbing_world : world :=
  World {[ manifestPath (Manifest_Digest ex_climbing) := File (Canonical ex_climbing) 0;
           cpath (digestBytes "abc") := File "abc" 0 ]} ∅ 0 0 [].

(** [Materialize] is not confined to its destination directory: digests are
    validated when a manifest is decoded but file names are not, and a name with
    parent references makes [Materialize] into [/out] create [/etc/passwd]. *)
Theorem materialize_escapes_dst :
  ∃ w d, (Materialize d "/out" w).1 = Ret () ∧ w_ext w !! "/etc/passwd" = None ∧
    w_ext (Materialize d "/out" w).2 !! "/etc/passwd" = Some "abc".
Proof.
  exists ex_climbing_world, (Manifest_Digest ex_climbing). repeat split; vm_compute; reflexivity.
Qed.

(** A manifest that names a chunk of the store as its file. *)
Definition ex_overwriting : Manifest :=
  manifestFrom [entry_of ("../var/lib/cas/chunks/ba/" +:+ digestBytes "abc") "xyz"] ex_meta.
Definition ex_overwriting_world : world :=
  World {[ manifestPath (Manifest_Digest ex_overwriting) := File (Canonical ex_overwriting) 0;
           cpath (digestBytes "abc") := File "abc" 0; cpath (digestBytes "xyz") := File "xyz" 0 ]} ∅ 0 0 [].

(** Nor does the store protect itself: from a store that is intact, a [Materialize]
    of a manifest with such a name returns with the bytes of one chunk under the
    digest of another. *)
Theorem materialize_corrupts_store :
  ∃ w d, integrity w ∧ (Materialize d "/out" w).1 = Ret () ∧ ¬ integrity (Materialize d "/out" w).2.
Proof.
  exists ex_overwriting_world, (Manifest_Digest ex_overwriting). split; [|split; [vm_compute; reflexivity|]].
  - unfold ex_overwriting_world, integrity. cbn [w_fs].
    repeat apply map_Forall_insert_2; [right; right; vm_compute; reflexivity..|apply map_Forall_empty].
  - intros Hi. assert (w_fs (Materialize (Manifest_Digest ex_overwriting) "/out" ex_overwriting_world).2 !!
      cpath (digestBytes "abc") = Some (File "xyz" 0)) as Hf by (vm_compute; reflexivity).
    destruct (Hi _ _ Hf) as [H|[H|H]]; vm_compute in H; discriminate H.
Qed.

End CasRoundtrip.
