(* ===== verification/CasPull.v ===== *)
(** * Pulling a snapshot from an untrusted peer (transport.go)

    The peer is an arbitrary [Transport].  A manifest appears in the local store
    only after every chunk it refers to is there and verified, in every outcome
    of the pull, crashes included; and after a pull that returned, the snapshot
    can be materialized. *)

From Stdlib Require Import Ascii.
From S2P Require Import Prelude Sha256 Json Manifest Cas CasInvariant CasChunks CasTheorems.
Import Sha256 Json Manifest Cas CasInvariant CasChunks CasTheorems.

Module CasPull.

(** Chunks may have been added; nothing else under a final name changed. *)
Definition only_chunks (w w' : world) : Prop :=
  (∀ p, is_tmp p.2 = false → in_chunks p = false → w_fs w' !! p = w_fs w !! p) ∧
  (∀ p, is_tmp p.2 = false → is_Some (w_fs w !! p) → is_Some (w_fs w' !! p)).

#[global] Instance only_chunks_sys : SysStep only_chunks.
Proof.
  split; [split|].
  - intros w. by split.
  - intros w1 w2 w3 [A1 B1] [A2 B2]. split; [|auto]. intros p Ht Hc. by rewrite A2, A1.
  - intros w r o _. by split.
Qed.

Lemma wrote_only_chunks d data w w' :
  wrote (cpath d) data w w' → only_chunks w w'.
Proof.
  intros (_&Hp&Hd). split.
  - intros p Ht Hc. apply Hp; [done|]. intros ->. by rewrite in_chunks_cpath in Hc.
  - intros p Ht Hs. destruct (decide (p = cpath d)) as [->|Hne]; [|by rewrite Hp].
    destruct Hd as [->|[t ->]]; [done|by eexists].
Qed.

Lemma wrote_mono dst data w w' p :
  wrote dst data w w' → is_tmp p.2 = false → is_Some (w_fs w !! p) → is_Some (w_fs w' !! p).
Proof.
  intros (_&Hp&Hd) Ht Hs. destruct (decide (p = dst)) as [->|Hne]; [|by rewrite Hp].
  destruct Hd as [->|[t ->]]; [done|by eexists].
Qed.

Lemma ev_PutChunk_only d r : evolves only_chunks (PutChunk d r).
Proof.
  intros w. pose proof (putChunk_cases d r w) as H. destruct (PutChunk d r w) as [o w'].
  cbn. destruct H as [->|H]; [by split|by eapply wrote_only_chunks].
Qed.

#[global] Instance absent_dec w d : Decision (absent w d).
Proof. unfold absent. apply _. Defined.

Lemma decide_all_absent w ds : {Forall (absent w) ds} + {¬ Forall (absent w) ds}.
Proof. apply decide, _. Qed.

Section pull.
Context `{HS : !SliceSort, HT : !Transport}.

Lemma ev_pullChunk_only d : evolves only_chunks (pullChunk d).
Proof. unfold pullChunk. pose proof ev_PutChunk_only. ev. Qed.

(** The peer delivers the chunk. *)
Definition delivers (d : Digest) : Prop := ∃ rc, tr_GetChunk d = Some rc ∧ acceptable d rc.

Lemma spec_pullChunk F d w : (delivers d ∨ F) →
  spec F (pullChunk d) w (λ _ w', valid_digest d = true ∧ is_Some (w_fs w' !! cpath d)).
Proof.
  intros HF. unfold pullChunk. destruct (tr_GetChunk d) as [rc|] eqn:Hg.
  2:{ apply spec_fail; [|done]. destruct HF as [(?&?&_)|]; [congruence|done]. }
  destruct (decide_acceptable d rc) as [Ha|Hn].
  - intros Ho. unfold wp. rewrite PutChunk_accept by done. destruct Ha as (Hv&_&_&Hd).
    pose proof (spec_writeChunk F (rd_data rc) w Ho) as Hs. cbn in Hs. rewrite Hd in Hs.
    apply (wp_mono _ _ _ _ Hs). intros o w' (?&?&?&HP). split; [done|split; [done|split; [done|]]].
    intros u Hu. destruct (HP u Hu) as [_ [t ->]]. split; [done|by eexists].
  - intros Ho. destruct (PutChunk_reject d rc w Hn) as (e&He&Hf). unfold wp. rewrite He. cbn.
    apply spec_stops; [by destruct e|done| |done]. destruct HF as [(rc'&?&?)|]; [|done].
    by simplify_eq.
Qed.

Lemma spec_pull_chunks F l w : (Forall delivers l ∨ F) →
  spec F (iter_m pullChunk l) w
    (λ _ w', ∀ d, d ∈ l → valid_digest d = true ∧ is_Some (w_fs w' !! cpath d)).
Proof.
  revert w. induction l as [|d l IH]; intros w HF; [apply spec_ret; set_solver|].
  eapply spec_bind; [apply spec_pullChunk; destruct HF as [[? ?]%Forall_cons|]; auto|].
  intros [] w1 [Hv Hd]. eapply spec_mono.
  - apply (spec_evolves _ only_chunks).
    + apply ev_iter_m; [apply _|]. apply ev_pullChunk_only.
    + apply IH. destruct HF as [[? ?]%Forall_cons|]; auto.
  - intros [] w2 [Hl [_ Hmono]] x [->|Hx]%elem_of_cons; [|by apply Hl]. split; [done|].
    apply Hmono; [by apply cpath_not_tmp|done].
Qed.

(** Every chunk the manifest refers to is in the store and intact. *)
Definition complete (w : world) (m : Manifest) : Prop :=
  ∀ d, d ∈ refs m → valid_digest d = true ∧
    ∃ f, w_fs w !! cpath d = Some f ∧ digestBytes (f_data f) = d.

Lemma elem_of_refs m fe c : fe ∈ m_Files m → c ∈ fe_Chunks fe → cr_Digest c ∈ refs m.
Proof.
  intros Hfe Hc. unfold refs. apply list_elem_of_In, in_concat.
  exists (cr_Digest <$> fe_Chunks fe). rewrite <- !list_elem_of_In. split.
  - apply list_elem_of_fmap. by exists fe.
  - apply list_elem_of_fmap. by exists c.
Qed.

Lemma present_intact w d : integrity w → valid_digest d = true → is_Some (w_fs w !! cpath d) →
  ∃ f, w_fs w !! cpath d = Some f ∧ digestBytes (f_data f) = d.
Proof.
  intros Hi Hv [f Hf]. exists f. split; [done|].
  destruct (Hi _ _ Hf) as [Ht|[Ht|Ht]]; [|done|done]. by rewrite cpath_not_tmp in Ht.
Qed.

Lemma bind_assoc {A B C} (m : M A) (k : A → M B) (k' : B → M C) w :
  (m ≫= λ a, k a ≫= k') w = ((m ≫= k) ≫= k') w.
Proof. unfold mbind, M_bind. by destruct (m w) as [[] w']. Qed.

Definition fetch (m : Manifest) : M unit := missing ← MissingChunks m; iter_m pullChunk missing.

Lemma ev_fetch m : evolves only_chunks (fetch m).
Proof.
  apply ev_bind; [apply _|apply ev_missing_loop, _|]. intros ds. apply ev_iter_m; [apply _|].
  apply ev_pullChunk_only.
Qed.

(** A pull that got a manifest with the right digest. *)
Lemma Pull_fetch d m w : valid_digest d = true → tr_GetManifest d = Some m → Manifest_Digest m = d →
  Pull d w = (fetch m ;; PutManifest m) w.
Proof.
  intros Hv Hg Hd. unfold Pull. rewrite Validate_ok, bind_ret, Hg by done.
  rewrite bool_decide_eq_true_2 by done. apply bind_assoc.
Qed.

(** In every other case nothing happens. *)
Lemma Pull_reject d w :
  (∃ m, valid_digest d = true ∧ tr_GetManifest d = Some m ∧ Manifest_Digest m = d) ∨
  ∃ e, Pull d w = (Fail e, w) ∧ fine (A:=unit) (Fail e).
Proof.
  unfold Pull, Validate. destruct (valid_digest d) eqn:Hv; [|by right; eexists].
  rewrite bind_ret. destruct (tr_GetManifest d) as [m|] eqn:Hg; [|by right; eexists].
  case_bool_decide; [left; by exists m|right; by eexists].
Qed.

(** The local store after the chunks have been fetched. *)
Lemma spec_fetch F m w :
  ((∀ d, d ∈ refs m → absent w d → delivers d) ∨ F) →
  spec F (fetch m) w
    (λ _ w', ∀ d, d ∈ refs m → valid_digest d = true ∧ is_Some (w_fs w' !! cpath d)).
Proof.
  intros HF. eapply spec_bind.
  { apply (spec_evolves _ quiet); [apply ev_missing_loop, _|apply spec_missing_loop]. }
  intros ds w1 ((_&H1&H2&H3)&(Hfs&_)). eapply spec_mono.
  - apply (spec_evolves _ only_chunks).
    + apply ev_iter_m; [apply _|]. apply ev_pullChunk_only.
    + apply spec_pull_chunks. destruct HF as [HF|]; [|by right].
      destruct (decide_all_absent w ds) as [Ha|Hn]; [left|right].
      * apply Forall_forall. intros d Hd. apply HF; [by apply H1|]. rewrite Forall_forall in Ha. by apply Ha.
      * apply not_Forall_Exists, Exists_exists in Hn as (d&Hd&Hn); [|apply _].
        by destruct (H3 d Hd).
  - intros [] w2 [Hl [_ Hmono]] d Hd.
    destruct (decide (absent w d)) as [Ha|Hn]; [apply Hl, H2; set_solver|].
    unfold absent in Hn. destruct (valid_digest d) eqn:Hv; [|naive_solver]. split; [done|].
    apply Hmono; [by apply cpath_not_tmp|]. rewrite Hfs. destruct (w_fs w !! cpath d); naive_solver.
Qed.

(** C14: pulling from an arbitrary peer is safe in every outcome: it never panics;
    the store stays intact and keeps every chunk it had; and a manifest appears
    or changes only if it is the requested one, with the requested digest, and
    every chunk it refers to is already in the store and hashes to its name. *)
Theorem pull_safe d w : integrity w →
  let '(o, w') := Pull d w in
  fine o ∧ integrity w' ∧
  (∀ p, is_tmp p.2 = false → is_Some (w_fs w !! p) → is_Some (w_fs w' !! p)) ∧
  (∀ x, is_tmp x = false → w_fs w' !! manifestPath x ≠ w_fs w !! manifestPath x ∨ o = Ret () ∧ x = d →
     x = d ∧ ∃ m t, tr_GetManifest d = Some m ∧ Manifest_Digest m = d ∧
       w_fs w' !! manifestPath d = Some (File (Canonical m) t) ∧ complete w' m).
Proof.
  intros Hi. pose proof (ev_Pull d w Hi) as Hi'.
  destruct (Pull_reject d w) as [(m&Hv&Hg&Hd)|(e&He&Hf)]; [|rewrite He in *; cbn in *; naive_solver].
  rewrite (Pull_fetch d m) in * by done. pose proof (ev_fetch m w) as [Hoth Hmono].
  pose proof (spec_fetch True m w (or_intror I) (λ _, I)) as (Hf1&_&_&Hfetch).
  unfold mbind, M_bind in *. destruct (fetch m w) as [o1 w1]. cbn in Hoth, Hmono, Hf1, Hfetch.
  assert (∀ x, is_tmp x = false → w_fs w1 !! manifestPath x = w_fs w !! manifestPath x) as Hsame.
  { intros x Hx. by apply Hoth. }
  destruct o1 as [u|e| |].
  2-4: split; [exact Hf1|split; [exact Hi'|split; [exact Hmono|]]];
    intros x Hx [Hch|[? _]]; [by destruct Hch; apply Hsame|discriminate].
  pose proof (atomicWrite_spec (manifestPath d) (Canonical m) w1 (valid_digest_not_tmp d Hv)) as Hw.
  unfold PutManifest, writeManifest in *. rewrite Hd in *.
  destruct (atomicWrite _ _ w1) as [o2 w2] eqn:E. apply (wp_elim _ _ _ Hw) in E as (Hwr&Hf2&Hr&_).
  cbn in Hi'. pose proof (λ p, wrote_mono _ _ _ _ p Hwr) as Hmono2. split; [done|]. split; [done|].
  split; [by auto|]. intros x Hx Hch.
  assert (x = d) as ->.
  { destruct Hch as [Hch|[_ ?]]; [|done]. destruct (decide (x = d)) as [|Hne]; [done|].
    destruct Hch. destruct Hwr as (_&Hp&_). rewrite Hp; [by apply Hsame|done|]. by intros [= ->]. }
  split; [done|].
  assert (∃ t, w_fs w2 !! manifestPath d = Some (File (Canonical m) t)) as [t Ht].
  { destruct Hch as [Hch|[Hret _]]; [|by eapply Hr]. destruct Hwr as (_&_&[Hp|Hp]); [|done].
    destruct Hch. by rewrite Hp, Hsame. }
  exists m, t. do 3 (split; [done|]). intros c Hc. destruct (Hfetch u eq_refl c Hc) as [Hcv Hcs].
  split; [done|]. apply present_intact; [done..|]. apply Hmono2; [by apply cpath_not_tmp|done].
Qed.

(** Pulling is complete: when no system call fails, the peer serves a
    well-formed manifest with the requested digest and delivers every chunk the
    store lacks, [Pull] returns and the snapshot can then be materialized outside
    the store; the
    chunks already present are not asked for. *)
Theorem pull_then_materialize `{HR : !Root} d m dir w :
  integrity w → w_oracle w = [] →
  tr_GetManifest d = Some m → Manifest_Digest m = d → wf_manifest m →
  (∀ c, c ∈ refs m → absent w c → delivers c) →
  files_out dir (m_Files m) →
  ∃ w1 w2, Pull d w = (Ret (), w1) ∧ Materialize d dir w1 = (Ret (), w2).
Proof.
  intros Hi Ho Hg Hd Hwf Hdel Hout.
  assert (valid_digest d = true) as Hv by (rewrite <- Hd; apply digestBytes_valid).
  pose proof (ev_Pull d w Hi) as Hi1.
  assert (spec False (Pull d) w (λ _ w', (∃ t, w_fs w' !! manifestPath d = Some (File (Canonical m) t)) ∧
    ∀ c, c ∈ refs m → valid_digest c = true ∧ is_Some (w_fs w' !! cpath c))) as Hs.
  { intros Hok. unfold wp. rewrite (Pull_fetch d m) by done. revert Hok.
    change (spec False (fetch m ;; PutManifest m) w (λ _ w',
      (∃ t, w_fs w' !! manifestPath d = Some (File (Canonical m) t)) ∧
      ∀ c, c ∈ refs m → valid_digest c = true ∧ is_Some (w_fs w' !! cpath c))).
    eapply spec_bind; [apply spec_fetch; by left|]. intros [] w1 Hr. unfold PutManifest, writeManifest.
    rewrite Hd. eapply spec_mono; [by apply spec_atomicWrite, valid_digest_not_tmp|].
    intros [] w2 [Hwr Ht]. split; [done|]. intros c Hc. destruct (Hr c Hc) as [Hcv Hcs].
    split; [done|]. eapply wrote_mono; [done| |done]. by apply cpath_not_tmp. }
  destruct (Hs (λ H, H Ho)) as (_&Hok1&Hr&HP). destruct (Pull d w) as [o w1]. cbn in *.
  destruct o as [[]| | |]; try by destruct Hr. destruct (HP () eq_refl) as [[t Ht] Hrefs].
  assert (good_files w1 (m_Files (normalize m))) as Hgood.
  { apply Forall_forall. intros fe Hfe. apply Forall_forall. intros c Hc.
    cbn [normalize m_Files] in Hfe. rewrite sort_slice_perm in Hfe.
    destruct (Hrefs (cr_Digest c)) as [Hcv Hcs]; [by eapply elem_of_refs|].
    destruct (present_intact w1 (cr_Digest c)) as (f&Hf&Hfd); [done..|].
    exists (f_data f). unfold data_at. by rewrite Hf. }
  assert (stored_manifest w1 d (normalize m)) as Hsm.
  { eexists. split; [exact Ht|]. by apply decode_Canonical. }
  assert (goes_out w1 d dir) as Hgo.
  { intros m' Hm' fe Hfe. assert (m' = normalize m) as -> by (destruct Hm' as (?&?&?), Hsm as (?&?&?); congruence).
    cbn [normalize m_Files] in Hfe. rewrite sort_slice_perm in Hfe. by apply (proj1 (Forall_forall _ _) Hout). }
  pose proof (spec_Materialize False d dir w1 (normalize m) Hgo
    (or_introl (conj Hv (conj Hsm Hgood))) Hok1) as (_&_&Hr2&_).
  destruct (Materialize d dir w1) as [[[]| | |] w2] eqn:Hmat; try by destruct Hr2.
  by exists w1, w2.
Qed.

End pull.

(** ** A peer with one snapshot *)

Definition ex_manifest : Manifest :=
  manifestFrom [entry_of "mem" "abc"] {|
    md_VMMVersion := "1.7.0"; md_CreatedUnix := 7; md_SnapshotFormatVersion := 1; md_CPUModel := "x";
    md_KernelVersion := "6.1"; md_ConfigHash := "c"; md_HotPages := None; md_HugePages := "";
    md_GuestProtocolVersion := 1 |}.

#[local] Instance ex_peer : Transport := {|
  tr_GetManifest := λ d, Some ex_manifest;
  tr_GetChunk := λ d, Some (Reader "abc" false);
|}.

Definition ex_empty : world := World ∅ ∅ 0 0 [].

Lemma pull_safe_witness :
  fine (Pull (Manifest_Digest ex_manifest) ex_empty).1 ∧
  integrity (Pull (Manifest_Digest ex_manifest) ex_empty).2.
Proof.
  pose proof (pull_safe (Manifest_Digest ex_manifest) ex_empty (map_Forall_empty _)) as H.
  destruct (Pull _ _) as [o w']. destruct H as (H1&H2&_). exact (conj H1 H2).
Defined.

#[local] Existing Instance ex_root.

Lemma pull_then_materialize_witness :
  ∃ w1 w2, Pull (Manifest_Digest ex_manifest) ex_empty = (Ret (), w1) ∧
           Materialize (Manifest_Digest ex_manifest) "/out" w1 = (Ret (), w2).
Proof.
  apply (pull_then_materialize (Manifest_Digest ex_manifest) ex_manifest "/out" ex_empty).
  - apply map_Forall_empty.
  - reflexivity.
  - reflexivity.
  - reflexivity.
  - split; [by_eval..| |by_eval|by_eval]. discriminate.
  - assert (refs ex_manifest = [digestBytes "abc"]) as E by reflexivity. rewrite E.
    intros c ->%list_elem_of_singleton _. exists (Reader "abc" false). split; [reflexivity|by_eval].
  - apply Forall_singleton. eexists. vm_compute. reflexivity.
Defined.

End CasPull.
