(* ===== verification/CasEvict.v ===== *)
(** * Eviction (evict.go)

    What [EvictToFit] removes: the least recently used chunks that no pinned
    manifest refers to, only as many as the budget asks for; and the case in
    which a pinned chunk is lost, because a pinned manifest could not be read. *)

From Stdlib Require Import Ascii.
From S2P Require Import Prelude Sha256 Json Manifest Cas CasInvariant CasChunks CasTheorems.
Import Sha256 Json Manifest Cas CasInvariant CasChunks CasTheorems.

Module CasEvict.

(** ** Sums of sizes *)

Fixpoint sum_sizes (l : list chunkStat) : Z :=
  match l with [] => 0 | st :: l' => cs_size st + sum_sizes l' end.

Lemma sum_sizes_app l1 l2 : sum_sizes (l1 ++ l2) = sum_sizes l1 + sum_sizes l2.
Proof. induction l1 as [|st l1 IH]; cbn; [done|]. rewrite IH. lia. Qed.

#[global] Instance sum_sizes_perm : Proper ((≡ₚ) ==> (=)) sum_sizes.
Proof. induction 1; cbn; lia. Qed.

Definition sizes_ok (l : list chunkStat) : Prop := Forall (λ st, 0 ≤ cs_size st) l.

Lemma sum_sizes_nonneg l : sizes_ok l → 0 ≤ sum_sizes l.
Proof. induction 1; cbn; lia. Qed.

Lemma add_sizes_from l t : sizes_ok l → 0 ≤ t → t + sum_sizes l ≤ max_int64 →
  foldl (λ t st, int64 (t + cs_size st)) t l = t + sum_sizes l.
Proof.
  intros Hl. revert t. induction Hl as [|st l Hst Hl IH]; intros t Ht Hs; cbn in *; [lia|].
  pose proof (sum_sizes_nonneg l Hl). rewrite int64_id by (unfold is_int64, min_int64; lia).
  rewrite IH; lia.
Qed.

Lemma add_sizes_sum l : sizes_ok l → sum_sizes l ≤ max_int64 → add_sizes l = sum_sizes l.
Proof. intros Hl Hs. unfold add_sizes. rewrite add_sizes_from; [lia|done|lia|lia]. Qed.

Lemma chunk_stats_ok w : sizes_ok (chunk_stats w).
Proof. apply Forall_fmap, Forall_true. intros [p f]. cbn. unfold str_len. lia. Qed.

(** ** The victims *)

(** What the loop removes, in order. *)
Fixpoint victims (maxBytes : Z) (pinned : gset Digest) (l : list chunkStat) (total : Z) :
    list chunkStat :=
  match l with
  | [] => []
  | st :: l' =>
      if total <=? maxBytes then []
      else if bool_decide (cs_digest st ∈ pinned) then victims maxBytes pinned l' total
      else st :: victims maxBytes pinned l' (total - cs_size st)
  end.

Lemma victims_fits maxBytes pinned l total : total ≤ maxBytes → victims maxBytes pinned l total = [].
Proof. intros H. destruct l; cbn; [done|]. by destruct (Z.leb_spec total maxBytes); [|lia]. Qed.

#[global] Instance mtime_less_sw : StrictWeak mtime_less.
Proof. unfold mtime_less. split; intros; lia. Qed.

(** The victims of a list sorted by recency, and the chunks that are kept. *)
Lemma victims_spec maxBytes pinned l total : StronglySorted (not_after mtime_less) l →
  let vs := victims maxBytes pinned l total in
  ∃ kept, l ≡ₚ vs ++ kept ∧
    (∀ v, v ∈ vs → cs_digest v ∉ pinned) ∧
    (total - sum_sizes vs ≤ maxBytes ∨ ∀ k, k ∈ kept → cs_digest k ∈ pinned) ∧
    (∀ v k, v ∈ vs → k ∈ kept → cs_digest k ∉ pinned → cs_mtime v ≤ cs_mtime k) ∧
    (vs = [] ∨ ∃ v, v ∈ vs ∧ maxBytes < total - sum_sizes vs + cs_size v).
Proof.
  intros Hs. revert total. induction Hs as [|st l Hs IH Hst]; intros total; cbn.
  { exists []. split; [done|]. set_solver. }
  destruct (Z.leb_spec total maxBytes) as [Hle|Hgt].
  { exists (st :: l). split; [done|]. cbn. split; [set_solver|]. split; [left; lia|]. set_solver. }
  case_bool_decide as Hp.
  - destruct (IH total) as (kept&H1&H2&H3&H4&H5). exists (st :: kept).
    split; [by apply Permutation_cons_app|]. split; [done|]. split; [|split].
    + destruct H3 as [|H3]; [by left|right]. intros k [->|Hk]%elem_of_cons; auto.
    + intros v k Hv [->|Hk]%elem_of_cons Hn; [done|]. by apply H4.
    + done.
  - destruct (IH (total - cs_size st)) as (kept&H1&H2&H3&H4&H5). exists kept. cbn.
    split; [by apply perm_skip|]. split; [|split; [|split]].
    + intros v [->|Hv]%elem_of_cons; auto.
    + destruct H3 as [|H3]; [left; lia|by right].
    + intros v k [->|Hv]%elem_of_cons Hk Hn; [|by apply H4].
      assert (k ∈ l) as Hk' by (rewrite H1, elem_of_app; by right).
      rewrite Forall_forall in Hst. specialize (Hst k Hk'). unfold not_after, mtime_less in Hst. lia.
    + right. destruct H5 as [->|(v&Hv&Hlt)].
      * exists st. split; [by left|]. cbn. lia.
      * exists v. split; [by right|]. lia.
Qed.

(** ** The loop, without faults *)

Fixpoint delete_all (vs : list chunkStat) (fs : gmap path file) : gmap path file :=
  match vs with [] => fs | st :: vs' => delete_all vs' (delete (cs_path st) fs) end.

Lemma evict_loop_nil maxBytes pinned l total freed w :
  w_oracle w = [] → sizes_ok l → sum_sizes l ≤ total → total ≤ max_int64 →
  0 ≤ freed → freed + total ≤ max_int64 →
  evict_loop maxBytes pinned l total freed w =
  (Ret (freed + sum_sizes (victims maxBytes pinned l total)),
   set_fs (delete_all (victims maxBytes pinned l total)) w).
Proof.
  intros Ho Hl. revert total freed w Ho. induction Hl as [|st l Hst Hl IH]; intros total freed w Ho Hs Ht Hf Hm; cbn.
  { rewrite Z.add_0_r. by destruct w. }
  cbn in Hs. pose proof (sum_sizes_nonneg l Hl).
  destruct (Z.leb_spec total maxBytes); cbn; [rewrite Z.add_0_r; by destruct w|].
  case_bool_decide; cbn; [apply IH; [done|lia..]|].
  unfold mbind, M_bind. rewrite call_or_nil by done. cbn.
  rewrite !int64_id by (unfold is_int64, min_int64; lia). rewrite IH; [|done|lia..].
  f_equal. f_equal. lia.
Qed.

(** ** The chunk files of the store *)

Lemma elem_of_chunk_stats w st : st ∈ chunk_stats w ↔
  ∃ p f, w_fs w !! p = Some f ∧ in_chunks p = true ∧
    st = ChunkStat p.2 p (str_len (f_data f)) (f_mtime f).
Proof.
  unfold chunk_stats. rewrite list_elem_of_fmap. split.
  - intros ([p f]&->&Hin). apply list_elem_of_filter in Hin as [Hc Hin].
    apply elem_of_map_to_list in Hin. by exists p, f.
  - intros (p&f&Hf&Hc&->). exists (p, f). split; [done|]. apply list_elem_of_filter.
    split; [done|]. by apply elem_of_map_to_list.
Qed.

Lemma chunk_stats_delete w st : st ∈ chunk_stats w →
  chunk_stats w ≡ₚ st :: chunk_stats (set_fs (delete (cs_path st)) w).
Proof.
  intros (p&f&Hf&Hc&->)%elem_of_chunk_stats. unfold chunk_stats. cbn.
  rewrite <- (map_to_list_delete (w_fs w) p f Hf). by rewrite filter_cons_True.
Qed.

Lemma chunk_stats_delete_all vs w : NoDup vs → (∀ v, v ∈ vs → v ∈ chunk_stats w) →
  chunk_stats w ≡ₚ vs ++ chunk_stats (set_fs (delete_all vs) w).
Proof.
  revert w. induction vs as [|v vs IH]; intros w Hnd Hin; [by destruct w|].
  apply NoDup_cons in Hnd as [Hv Hnd]. pose proof (chunk_stats_delete w v) as Hp.
  change (set_fs (delete_all (v :: vs)) w)
    with (set_fs (delete_all vs) (set_fs (delete (cs_path v)) w)).
  rewrite Hp at 1 by set_solver. cbn [app].
  apply perm_skip, (IH (set_fs (delete (cs_path v)) w)); [done|].
  intros x Hx. assert (x ∈ chunk_stats w) as Hxw by set_solver.
  rewrite Hp in Hxw by set_solver. apply elem_of_cons in Hxw as [->|]; done.
Qed.

Lemma chunk_stats_NoDup w : NoDup (chunk_stats w).
Proof.
  unfold chunk_stats. apply NoDup_fmap_2_strong.
  - intros [p f] [q g] H1 H2 [= _ -> _ _]. f_equal.
    apply list_elem_of_filter in H1 as [_ H1%elem_of_map_to_list].
    apply list_elem_of_filter in H2 as [_ H2%elem_of_map_to_list]. congruence.
  - apply NoDup_filter, NoDup_map_to_list.
Qed.

Lemma delete_all_other vs fs p : (∀ v, v ∈ vs → cs_path v ≠ p) → delete_all vs fs !! p = fs !! p.
Proof.
  revert fs. induction vs as [|v vs IH]; intros fs Hn; [done|]. cbn.
  rewrite IH by set_solver. apply lookup_delete_ne, Hn. by left.
Qed.

(** ** Pins *)

(** A pinned manifest that can be read refers to the chunk. *)
Definition pinned (w : world) (c : Digest) : Prop :=
  ∃ d m, is_Some (w_fs w !! pinPath d) ∧ valid_digest d = true ∧ stored_manifest w d m ∧ c ∈ refs m.

Section evict.
Context `{HS : !SliceSort}.

Lemma elem_of_read_dir w dir x : x ∈ read_dir w dir ↔ is_Some (w_fs w !! (dir, x)).
Proof.
  unfold read_dir. rewrite sort_slice_perm, list_elem_of_fmap. split.
  - intros ([d y]&->&Hin). apply list_elem_of_filter in Hin as [Hd Hin]. cbn in Hd. subst d.
    apply list_elem_of_fmap in Hin as ([q f]&Hq&Hin%elem_of_map_to_list). cbn in Hq. subst q. by eexists.
  - intros [f Hf]. exists (dir, x). split; [done|]. apply list_elem_of_filter. split; [done|].
    apply list_elem_of_fmap. exists ((dir, x), f). split; [done|]. by apply elem_of_map_to_list.
Qed.

(** Reading a manifest whose failure the caller handles. *)
Lemma GetManifest_nil d w : w_oracle w = [] →
  (∃ m, GetManifest d w = (Ret m, w) ∧ valid_digest d = true ∧ stored_manifest w d m) ∨
  (∃ e, GetManifest d w = (Fail e, w) ∧ ∀ m, valid_digest d = true → ¬ stored_manifest w d m).
Proof.
  intros Ho. unfold GetManifest, Validate. destruct (valid_digest d); [|right; by eexists].
  rewrite bind_ret. unfold read_file, mbind, M_bind. rewrite call_or_nil by done. cbn.
  destruct (w_fs w !! manifestPath d) as [f|] eqn:Hf; cbn.
  - destruct (decodeManifest (f_data f)) as [m|e] eqn:Hm; cbn.
    + left. exists m. repeat split. by exists f.
    + right. eexists. split; [done|]. intros m _ (f'&?&?). congruence.
  - right. eexists. split; [done|]. intros m _ (f'&?&?). congruence.
Qed.

Lemma pinned_loop_nil l s w : w_oracle w = [] →
  ∃ s', pinned_loop l s w = (Ret s', w) ∧
    ∀ c, c ∈ s' ↔ c ∈ s ∨ ∃ d m, d ∈ l ∧ valid_digest d = true ∧ stored_manifest w d m ∧ c ∈ refs m.
Proof.
  intros Ho. revert s. induction l as [|d l IH]; intros s; cbn.
  { exists s. split; [done|]. set_solver. }
  unfold mbind, M_bind, try. destruct (GetManifest_nil d w Ho) as [(m&->&Hv&Hm)|(e&->&Hn)]; cbn.
  - destruct (IH (list_to_set (refs m) ∪ s)) as (s'&He&Hs'). exists s'. split; [done|].
    intros c. rewrite Hs', elem_of_union, elem_of_list_to_set. split.
    + intros [[Hc|Hc]|(d'&m'&?&?)]; [right|by left|right].
      * exists d, m. by repeat split; [left|..].
      * exists d', m'. by repeat split; [right|..]; naive_solver.
    + intros [Hc|(d'&m'&[->|Hd]%elem_of_cons&Hv'&Hm'&Hc)]; [auto| |].
      * left. left. destruct Hm as (?&?&?), Hm' as (?&?&?). congruence.
      * right. exists d', m'. done.
  - destruct (IH s) as (s'&He&Hs'). exists s'. split; [done|]. intros c. rewrite Hs'. split.
    + intros [Hc|(d'&m'&?&?)]; [by left|right]. exists d', m'. by repeat split; [right|..]; naive_solver.
    + intros [Hc|(d'&m'&[->|Hd]%elem_of_cons&Hv'&Hm'&Hc)]; [by left|by edestruct Hn|].
      right. by exists d', m'.
Qed.

Lemma pinnedChunks_nil w : w_oracle w = [] →
  ∃ s, pinnedChunks w = (Ret s, w) ∧ ∀ c, c ∈ s ↔ pinned w c.
Proof.
  intros Ho. unfold pinnedChunks, mbind, M_bind. rewrite call_or_nil by done. cbn.
  destruct (pinned_loop_nil (read_dir w "pins") ∅ w Ho) as (s&He&Hs). exists s. split; [done|].
  intros c. rewrite Hs. unfold pinned. setoid_rewrite elem_of_read_dir. unfold pinPath. set_solver.
Qed.

Lemma EvictToFit_nil maxBytes w :
  w_oracle w = [] → sum_sizes (chunk_stats w) ≤ max_int64 →
  ∃ vs w', EvictToFit maxBytes w = (Ret (sum_sizes vs), w') ∧
    chunk_stats w ≡ₚ vs ++ chunk_stats w' ∧
    (∀ v, v ∈ vs → ¬ pinned w (cs_digest v)) ∧
    (sum_sizes (chunk_stats w') ≤ maxBytes ∨ ∀ k, k ∈ chunk_stats w' → pinned w (cs_digest k)) ∧
    (∀ v k, v ∈ vs → k ∈ chunk_stats w' → ¬ pinned w (cs_digest k) → cs_mtime v ≤ cs_mtime k) ∧
    (vs = [] ∨ ∃ v, v ∈ vs ∧ maxBytes < sum_sizes (chunk_stats w') + cs_size v) ∧
    (∀ p, in_chunks p = false → w_fs w' !! p = w_fs w !! p) ∧ w_ext w' = w_ext w.
Proof.
  intros Ho Hmax. destruct (pinnedChunks_nil w Ho) as (s&Hs&Hpin).
  pose proof (chunk_stats_ok w) as Hok. set (l := sort_slice mtime_less (chunk_stats w)).
  assert (l ≡ₚ chunk_stats w) as Hl by apply sort_slice_perm.
  set (total := sum_sizes (chunk_stats w)) in *.
  assert (EvictToFit maxBytes w = (Ret (sum_sizes (victims maxBytes s l total)),
    set_fs (delete_all (victims maxBytes s l total)) w)) as He.
  { unfold EvictToFit, scanChunks, mbind, M_bind. rewrite call_or_nil by done. cbn. rewrite Hs.
    rewrite add_sizes_sum by done. fold l total.
    destruct (Z.leb_spec total maxBytes) as [Hle|Hgt].
    - rewrite victims_fits by done. by destruct w.
    - rewrite evict_loop_nil; [by rewrite Z.add_0_l|done| | |done|lia..].
      + unfold sizes_ok. by rewrite Hl.
      + by rewrite Hl. }
  destruct (victims_spec maxBytes s l total (sort_slice_sorted _ _)) as (kept&H1&H2&H3&H4&H5).
  set (vs := victims maxBytes s l total) in *. exists vs, (set_fs (delete_all vs) w).
  assert (NoDup (vs ++ kept)) as [Hnd _]%NoDup_app by (rewrite <- H1, Hl; apply chunk_stats_NoDup).
  assert (∀ v, v ∈ vs → v ∈ chunk_stats w) as Hsub.
  { intros v Hv. rewrite <- Hl, H1. apply elem_of_app. by left. }
  pose proof (chunk_stats_delete_all vs w Hnd Hsub) as Hperm.
  assert (kept ≡ₚ chunk_stats (set_fs (delete_all vs) w)) as Hkept.
  { apply (Permutation_app_inv_l vs). by rewrite <- H1, Hl. }
  assert (total = sum_sizes vs + sum_sizes (chunk_stats (set_fs (delete_all vs) w))) as Htot.
  { unfold total. by rewrite Hperm, sum_sizes_app. }
  setoid_rewrite <- Hpin. split; [done|]. split; [done|]. split; [done|]. split; [|split; [|split; [|split]]].
  - destruct H3 as [|H3]; [left; lia|right]. intros k. rewrite <- Hkept. apply H3.
  - intros v k Hv. rewrite <- Hkept. by apply H4.
  - destruct H5 as [|(v&Hv&Hlt)]; [by left|right]. exists v. split; [done|lia].
  - intros p Hp. apply delete_all_other. intros v (q&f&_&Hq&->)%Hsub%elem_of_chunk_stats. cbn. congruence.
  - done.
Qed.

(** When no system call fails, [EvictToFit] removes a set of chunk files [vs]
    and reports exactly their size as freed; none of them is referred to by a
    pinned manifest; afterwards the store fits the budget or holds pinned chunks
    only; no removed chunk was used more recently than an unpinned one that was
    kept; nothing is removed beyond the chunk that brings the store within budget;
    and no file outside the chunk directories changes. *)
Theorem evict_lru maxBytes w :
  w_oracle w = [] → sum_sizes (chunk_stats w) ≤ max_int64 →
  ∃ vs w', EvictToFit maxBytes w = (Ret (sum_sizes vs), w') ∧
    chunk_stats w ≡ₚ vs ++ chunk_stats w' ∧
    (∀ v, v ∈ vs → ¬ pinned w (cs_digest v)) ∧
    (sum_sizes (chunk_stats w') ≤ maxBytes ∨ ∀ k, k ∈ chunk_stats w' → pinned w (cs_digest k)) ∧
    (∀ v k, v ∈ vs → k ∈ chunk_stats w' → ¬ pinned w (cs_digest k) → cs_mtime v ≤ cs_mtime k) ∧
    (vs = [] ∨ ∃ v, v ∈ vs ∧ maxBytes < sum_sizes (chunk_stats w') + cs_size v) ∧
    (∀ p, in_chunks p = false → w_fs w' !! p = w_fs w !! p) ∧ w_ext w' = w_ext w.
Proof. apply EvictToFit_nil. Qed.

End evict.

(** ** A transient read error *)

(** A store with one snapshot, which is pinned. *)
Definition ex_snapshot : Manifest := manifestFrom [entry_of "mem" "abc"] {|
  md_VMMVersion := "1.7.0"; md_CreatedUnix := 7; md_SnapshotFormatVersion := 1; md_CPUModel := "x";
  md_KernelVersion := "6.1"; md_ConfigHash := "c"; md_HotPages := None; md_HugePages := "";
  md_GuestProtocolVersion := 1 |}.
Definition ex_pinned (replies : list reply) : world :=
  World {[ cpath (digestBytes "abc") := File "abc" 1;
           cpath (digestBytes "old") := File "old" 0;
           manifestPath (Manifest_Digest ex_snapshot) := File (Canonical ex_snapshot) 2;
           pinPath (Manifest_Digest ex_snapshot) := File "" 3 ]} ∅ 0 0 replies.

Lemma ex_pinned_pins replies : pinned (ex_pinned replies) (digestBytes "abc").
Proof.
  assert (∃ m, stored_manifest (ex_pinned replies) (Manifest_Digest ex_snapshot) m ∧
    digestBytes "abc" ∈ refs m) as (m&Hm&Hr).
  { unfold stored_manifest. assert (w_fs (ex_pinned replies) !! manifestPath (Manifest_Digest ex_snapshot)
      = Some (File (Canonical ex_snapshot) 2)) as E by (vm_compute; reflexivity).
    rewrite E. eexists. split; [eexists; split; [reflexivity|vm_compute; reflexivity]|].
    vm_compute. constructor. }
  exists (Manifest_Digest ex_snapshot), m. split; [|split; [apply digestBytes_valid|done]].
  assert (w_fs (ex_pinned replies) !! pinPath (Manifest_Digest ex_snapshot) = Some (File "" 3)) as E
    by (vm_compute; reflexivity).
  by rewrite E.
Qed.

Lemma evict_lru_witness :
  ∃ vs w', EvictToFit 3 (ex_pinned []) = (Ret (sum_sizes vs), w') ∧
    (∀ v, v ∈ vs → ¬ pinned (ex_pinned []) (cs_digest v)).
Proof.
  destruct (evict_lru 3 (ex_pinned [])) as (vs&w'&He&_&Hp&_);
    [reflexivity|vm_compute; discriminate|]. exists vs, w'. exact (conj He Hp).
Defined.

(** A pinned chunk can be evicted: when reading the manifest of a pin fails
    for any reason, such as a transient I/O error, the pin is skipped as if the
    manifest did not exist, and the chunks it protects are removed although
    [EvictToFit] reports success. *)
Theorem evict_loses_pinned_chunk :
  ∃ w freed, pinned w (digestBytes "abc") ∧ is_Some (w_fs w !! cpath (digestBytes "abc")) ∧
    (EvictToFit 0 w).1 = Ret freed ∧ w_fs (EvictToFit 0 w).2 !! cpath (digestBytes "abc") = None.
Proof.
  exists (ex_pinned [Reply AOk 4; Reply AOk 5; Reply (AFail 0) 6]), 6.
  split; [apply ex_pinned_pins|]. split.
  - exists (File "abc" 1). vm_compute. reflexivity.
  - split; vm_compute; reflexivity.
Qed.

End CasEvict.
