(* ===== verification/CasGC.v ===== *)
(** * internal/casgc: the garbage-collection loop over the store

    [Target] and [tick] of casgc.go.  [tick] is written, as in the source, against
    an interface of two methods; the class [GcStore] states what it promises and
    the content-addressed store is an instance. *)

From S2P Require Import Prelude Sha256 Manifest Cas CasInvariant CasChunks CasTheorems CasEvict GoFloat.
Import Manifest Cas CasInvariant CasChunks CasTheorems CasEvict GoFloat.

Module CasGC.

Section target.
Context `{!GoPlatform}.

Definition Target (usedBytes totalBytes casBytes : Z) (high low : float64) : Z * bool :=
  if (totalBytes <=? 0) || (casBytes <=? 0) then (0, false)
  else if fltb (of_int usedBytes) (fmul high (of_int totalBytes)) then (0, false)
  else
    let target := to_int64 (fmul low (of_int totalBytes)) in
    let toFree := int64 (usedBytes - target) in
    if toFree <=? 0 then (0, false)
    else
      let maxCAS := int64 (casBytes - toFree) in
      if maxCAS <? 0 then (0, true) else (maxCAS, true).

Lemma Target_bounds used total cas high low maxBytes :
  is_int64 cas → Target used total cas high low = (maxBytes, true) → 0 ≤ maxBytes < cas.
Proof.
  unfold Target. intros Hc. destruct (Z.leb_spec total 0); [done|]. cbn.
  destruct (Z.leb_spec cas 0); [done|]. destruct (fltb _ _); [done|].
  pose proof (int64_range (used - to_int64 (fmul low (of_int total)))) as Hr.
  destruct (Z.leb_spec (int64 (used - to_int64 (fmul low (of_int total)))) 0); [done|].
  rewrite (int64_id (cas - _)) by (unfold is_int64, min_int64, max_int64 in *; lia).
  destruct (Z.ltb_spec (cas - int64 (used - to_int64 (fmul low (of_int total)))) 0);
    intros [= <-]; lia.
Qed.

(** The budget that [Target] computes: eviction is asked for only at or above
    the high watermark; the budget is between 0 and the present size, so that
    something is to be freed; and freeing down to it brings the file system to
    the low watermark, or empties the store if that is not enough. *)
Theorem target_reaches_low_watermark used total cas high low maxBytes :
  is_int64 cas → 0 ≤ used ≤ max_int64 → 0 ≤ to_int64 (fmul low (of_int total)) →
  Target used total cas high low = (maxBytes, true) →
  fltb (of_int used) (fmul high (of_int total)) = false ∧
  0 ≤ maxBytes < cas ∧
  used - (cas - maxBytes) = Z.max (to_int64 (fmul low (of_int total))) (used - cas).
Proof.
  intros Hc Hu Ht He. split; [|split; [by eapply Target_bounds|]]; revert He; unfold Target;
    (destruct (Z.leb_spec total 0); [done|]); cbn; (destruct (Z.leb_spec cas 0); [done|]);
    (destruct (fltb _ _); [done|]); [done|].
  pose proof (to_int64_range (fmul low (of_int total))) as Hr.
  set (target := to_int64 (fmul low (of_int total))) in *. unfold is_int64, min_int64, max_int64 in *.
  rewrite (int64_id (used - target)) by (unfold is_int64, min_int64, max_int64; lia).
  destruct (Z.leb_spec (used - target) 0); [done|].
  rewrite int64_id by (unfold is_int64, min_int64, max_int64; lia).
  destruct (Z.ltb_spec (cas - (used - target)) 0); intros [= <-]; lia.
Qed.

End target.

(** ** The interface *)

Class GcStore := {
  gs_TotalBytes : M Z;
  gs_EvictToFit : Z → M Z;
  gs_bytes : world → Z;
  (** what eviction must not remove *)
  gs_held : world → Digest → Prop;
  gs_holds : world → Digest → Prop;
  gs_total_ok w : w_oracle w = [] → gs_bytes w ≤ max_int64 →
    gs_TotalBytes w = (Ret (gs_bytes w), w);
  gs_evict_ok maxBytes w : w_oracle w = [] → gs_bytes w ≤ max_int64 →
    ∃ freed w', gs_EvictToFit maxBytes w = (Ret freed, w') ∧ freed = gs_bytes w - gs_bytes w' ∧
      0 ≤ freed ∧
      (∀ d, gs_held w d → gs_holds w d → gs_holds w' d) ∧
      (gs_bytes w' ≤ maxBytes ∨ ∀ d, gs_holds w' d → gs_held w d);
}.

(** What [tick] logs. *)
Inductive gc_log :=
| LogUsageError
| LogSizeError (e : error)
| LogEvictError (maxBytes : Z) (e : error)
| LogFreed (freed used total maxBytes : Z).

Section tick.
Context `{!GoPlatform, !GcStore}.

(** [usage] is the result of the injected disk-usage function. *)
Definition tick (usage : option (Z * Z)) (high low : float64) : M (list gc_log) :=
  match usage with
  | None => mret [LogUsageError]
  | Some (used, total) =>
      r ← try gs_TotalBytes;
      match r with
      | inl e => mret [LogSizeError e]
      | inr casBytes =>
          match Target used total casBytes high low with
          | (_, false) => mret []
          | (maxBytes, true) =>
              r' ← try (gs_EvictToFit maxBytes);
              match r' with
              | inl e => mret [LogEvictError maxBytes e]
              | inr freed => mret (if 0 <? freed then [LogFreed freed used total maxBytes] else [])
              end
          end
      end
  end.

(** One garbage-collection pass, over any store that keeps its interface's
    promise and without failing system calls: below the high watermark, or when
    the disk usage cannot be read, the store is left as it is; otherwise it ends
    within the computed budget unless only protected chunks are left, and no
    protected chunk is removed. *)
Theorem tick_bounds usage high low w :
  w_oracle w = [] → 0 ≤ gs_bytes w ≤ max_int64 →
  ∃ log w', tick usage high low w = (Ret log, w') ∧
    (∀ d, gs_held w d → gs_holds w d → gs_holds w' d) ∧
    match usage with
    | None => w' = w
    | Some (used, total) =>
        match Target used total (gs_bytes w) high low with
        | (_, false) => w' = w ∧ log = []
        | (maxBytes, true) =>
            (gs_bytes w' ≤ maxBytes < gs_bytes w ∨ ∀ d, gs_holds w' d → gs_held w d) ∧
            log = if 0 <? gs_bytes w - gs_bytes w'
                  then [LogFreed (gs_bytes w - gs_bytes w') used total maxBytes] else []
        end
    end.
Proof.
  intros Ho Hb. destruct usage as [[used total]|]; [|by exists [LogUsageError], w].
  unfold tick, mbind, M_bind, try. rewrite gs_total_ok by (done || lia).
  destruct (Target used total (gs_bytes w) high low) as [maxBytes []] eqn:Ht; [|by exists [], w].
  destruct (gs_evict_ok maxBytes w) as (freed&w'&He&Hf&Hpos&Hh&Hfit); [done|lia|].
  rewrite He. cbn. subst freed. eexists _, w'. split; [done|]. split; [done|]. split; [|done].
  apply Target_bounds in Ht; [|unfold is_int64, min_int64; lia].
  destruct Hfit as [Hfit|]; [left; lia|by right].
Qed.

End tick.

(** ** The store is an instance *)

Section instance.
Context `{HS : !SliceSort}.

Definition holds_chunk (w : world) (d : Digest) : Prop := ∃ st, st ∈ chunk_stats w ∧ cs_digest st = d.

Lemma TotalBytes_nil w : w_oracle w = [] → sum_sizes (chunk_stats w) ≤ max_int64 →
  TotalBytes w = (Ret (sum_sizes (chunk_stats w)), w).
Proof.
  intros Ho Hs. unfold TotalBytes, totalChunkBytes, scanChunks, mbind, M_bind.
  rewrite call_or_nil by done. cbn. by rewrite add_sizes_sum by (done || apply chunk_stats_ok).
Qed.

Lemma EvictToFit_gc maxBytes w : w_oracle w = [] → sum_sizes (chunk_stats w) ≤ max_int64 →
  ∃ freed w', EvictToFit maxBytes w = (Ret freed, w') ∧
    freed = sum_sizes (chunk_stats w) - sum_sizes (chunk_stats w') ∧ 0 ≤ freed ∧
    (∀ d, pinned w d → holds_chunk w d → holds_chunk w' d) ∧
    (sum_sizes (chunk_stats w') ≤ maxBytes ∨ ∀ d, holds_chunk w' d → pinned w d).
Proof.
  intros Ho Hs. destruct (EvictToFit_nil maxBytes w Ho Hs) as (vs&w'&He&Hp&Hv&Hfit&_).
  exists (sum_sizes vs), w'. split; [done|]. split; [rewrite Hp, sum_sizes_app; lia|]. split; [|split].
  - apply sum_sizes_nonneg. pose proof (chunk_stats_ok w) as Hok. unfold sizes_ok in *.
    rewrite Hp in Hok. by apply Forall_app in Hok as [? _].
  - intros d Hd (st&Hst&<-). rewrite Hp in Hst. apply elem_of_app in Hst as [Hst|Hst]; [|by exists st].
    by destruct (Hv st).
  - destruct Hfit as [|Hfit]; [by left|right]. intros d (st&Hst&<-). by apply Hfit.
Qed.

#[global] Instance cas_gc_store : GcStore := {|
  gs_TotalBytes := TotalBytes;
  gs_EvictToFit := EvictToFit;
  gs_bytes w := sum_sizes (chunk_stats w);
  gs_held := pinned;
  gs_holds := holds_chunk;
  gs_total_ok := TotalBytes_nil;
  gs_evict_ok := EvictToFit_gc;
|}.

End instance.

(** 90% and 70% watermarks on a disk of 1000 bytes. *)
Definition pct (n : Z) : float64 := fdiv (of_int n) (of_int 100).

Lemma target_reaches_low_watermark_witness :
  fltb (of_int 950) (fmul (pct 90) (of_int 1000)) = false ∧ 0 ≤ 150 < 400 ∧
  950 - (400 - 150) = Z.max (to_int64 (fmul (pct 70) (of_int 1000))) (950 - 400).
Proof.
  apply target_reaches_low_watermark.
  - by_eval.
  - by_eval.
  - by_eval.
  - vm_compute. reflexivity.
Defined.

Lemma tick_bounds_witness :
  ∃ log w', tick (Some (950, 1000)) (pct 90) (pct 70) (ex_pinned []) = (Ret log, w') ∧
    (∀ d, gs_held (ex_pinned []) d → gs_holds (ex_pinned []) d → gs_holds w' d).
Proof.
  destruct (tick_bounds (Some (950, 1000)) (pct 90) (pct 70) (ex_pinned [])) as (log&w'&He&Hh&_).
  - reflexivity.
  - by_eval.
  - exists log, w'. exact (conj He Hh).
Defined.

End CasGC.
