(* ===== verification/Scheduler.v ===== *)
(** * internal/controller: isolation tiers, the node registry and the scheduler

    isolation_tier.go, node_registry.go and scheduler.go.  Go ranges over a map in
    an unspecified order: every range is given by the class [MapRange] as some
    permutation of the map's values, which may differ from call to call. *)

From Stdlib Require Import Ascii.
From S2P Require Import Prelude GoFloat Json.
Import GoFloat.

Module Tier.

(** isolation_tier.go; a tier is the string of its label. *)
Definition IsolationTier : Type := string.

Definition IsolationTierHardwareKVM : IsolationTier := "hardware-kvm".
Definition IsolationTierPVM : IsolationTier := "pvm".
Definition IsolationTierGVisor : IsolationTier := "gvisor".

Definition isolationTierNodeLabel : string := "mitos.run/isolation-tier".

Definition assurance (t : IsolationTier) : Z :=
  if bool_decide (t = IsolationTierHardwareKVM) then 3
  else if bool_decide (t = IsolationTierPVM) then 2
  else if bool_decide (t = IsolationTierGVisor) then 1
  else 0.

Definition meets (t min : IsolationTier) : bool :=
  if bool_decide (min = "") then true else assurance min <=? assurance t.

(** normalizeTier: a known tier or the empty string. *)
Definition normalizeTier (s : string) : IsolationTier :=
  if bool_decide (s = IsolationTierHardwareKVM) then IsolationTierHardwareKVM
  else if bool_decide (s = IsolationTierPVM) then IsolationTierPVM
  else if bool_decide (s = IsolationTierGVisor) then IsolationTierGVisor
  else "".

Definition IsolationTierFromNodeLabels (labels : gmap string string) : IsolationTier :=
  let t := default "" (labels !! isolationTierNodeLabel) in
  if bool_decide (t = IsolationTierHardwareKVM) then IsolationTierHardwareKVM
  else if bool_decide (t = IsolationTierPVM) then IsolationTierPVM
  else if bool_decide (t = IsolationTierGVisor) then IsolationTierGVisor
  else "".

Definition MinIsolationTierFromSpec (minTier : string) (requireHardwareKVM : bool) : IsolationTier :=
  let floor := normalizeTier minTier in
  if requireHardwareKVM && (assurance floor <? assurance IsolationTierHardwareKVM)
  then IsolationTierHardwareKVM else floor.

End Tier.
Import Tier.

Module Registry.

(** ** Data *)

Record TemplateCapacity := {
  tc_TemplateID : string;
  tc_SnapshotDigest : string;
  tc_SharedOnceBytes : Z;
  tc_AvgForkUniqueBytes : Z;
  tc_ForkCount : Z;
}.

(** A dialed connection is identified by a number; [ni_TLS] says whether the node
    has a TLS configuration of its own. *)
Record NodeInfo := {
  ni_Name : string;
  ni_Endpoint : string;
  ni_HTTPEndpoint : string;
  ni_CASEndpoint : string;
  ni_ActiveSandboxes : Z;
  ni_MaxSandboxes : Z;
  ni_MemoryTotal : Z;
  ni_MemoryUsed : Z;
  ni_DiskTotal : Z;
  ni_DiskFree : Z;
  ni_GPUTotal : Z;
  ni_GPUUsed : Z;
  ni_GPUType : string;
  ni_IsolationTier : IsolationTier;
  ni_TemplateIDs : list string;
  ni_SnapshotIDs : list string;
  ni_TemplateDigests : gmap string string;
  ni_TemplateEstimates : gmap string TemplateCapacity;
  ni_LastHeartbeat : Z;
  ni_probeFailures : Z;
  ni_TLS : bool;
  ni_conn : option Z;
}.

Definition probeFailureThreshold : Z := 3.

(** [nr_closed] records the connections that have been closed. *)
Record NodeRegistry := {
  nr_nodes : gmap string NodeInfo;
  nr_TLS : bool;
  nr_overcommitFactor : float64;
  nr_closed : list Z;
}.

Record ForkRequest := {
  fr_TemplateID : string;
  fr_PreferredNode : string;
  fr_MemoryBytes : Z;
  fr_GPUCount : Z;
  fr_GPUType : string;
  fr_MinIsolationTier : IsolationTier;
}.

Definition NewNodeRegistry : NodeRegistry :=
  {| nr_nodes := ∅; nr_TLS := false; nr_overcommitFactor := of_int 1; nr_closed := [] |}.

Definition set_nodes (f : gmap string NodeInfo → gmap string NodeInfo) (r : NodeRegistry) :
    NodeRegistry :=
  {| nr_nodes := f (nr_nodes r); nr_TLS := nr_TLS r; nr_overcommitFactor := nr_overcommitFactor r;
     nr_closed := nr_closed r |}.

Definition close (c : option Z) (r : NodeRegistry) : NodeRegistry :=
  match c with
  | None => r
  | Some c => {| nr_nodes := nr_nodes r; nr_TLS := nr_TLS r;
                 nr_overcommitFactor := nr_overcommitFactor r; nr_closed := c :: nr_closed r |}
  end.

(** Struct updates. *)
Definition with_memory (total used : Z) (n : NodeInfo) : NodeInfo :=
  {| ni_Name := ni_Name n; ni_Endpoint := ni_Endpoint n; ni_HTTPEndpoint := ni_HTTPEndpoint n;
     ni_CASEndpoint := ni_CASEndpoint n; ni_ActiveSandboxes := ni_ActiveSandboxes n;
     ni_MaxSandboxes := ni_MaxSandboxes n; ni_MemoryTotal := total; ni_MemoryUsed := used;
     ni_DiskTotal := ni_DiskTotal n; ni_DiskFree := ni_DiskFree n; ni_GPUTotal := ni_GPUTotal n;
     ni_GPUUsed := ni_GPUUsed n; ni_GPUType := ni_GPUType n; ni_IsolationTier := ni_IsolationTier n;
     ni_TemplateIDs := ni_TemplateIDs n; ni_SnapshotIDs := ni_SnapshotIDs n;
     ni_TemplateDigests := ni_TemplateDigests n; ni_TemplateEstimates := ni_TemplateEstimates n;
     ni_LastHeartbeat := ni_LastHeartbeat n; ni_probeFailures := ni_probeFailures n;
     ni_TLS := ni_TLS n; ni_conn := ni_conn n |}.

Definition with_conn (conn : option Z) (heartbeat : Z) (n : NodeInfo) : NodeInfo :=
  {| ni_Name := ni_Name n; ni_Endpoint := ni_Endpoint n; ni_HTTPEndpoint := ni_HTTPEndpoint n;
     ni_CASEndpoint := ni_CASEndpoint n; ni_ActiveSandboxes := ni_ActiveSandboxes n;
     ni_MaxSandboxes := ni_MaxSandboxes n; ni_MemoryTotal := ni_MemoryTotal n;
     ni_MemoryUsed := ni_MemoryUsed n; ni_DiskTotal := ni_DiskTotal n; ni_DiskFree := ni_DiskFree n;
     ni_GPUTotal := ni_GPUTotal n; ni_GPUUsed := ni_GPUUsed n; ni_GPUType := ni_GPUType n;
     ni_IsolationTier := ni_IsolationTier n; ni_TemplateIDs := ni_TemplateIDs n;
     ni_SnapshotIDs := ni_SnapshotIDs n; ni_TemplateDigests := ni_TemplateDigests n;
     ni_TemplateEstimates := ni_TemplateEstimates n; ni_LastHeartbeat := heartbeat;
     ni_probeFailures := ni_probeFailures n; ni_TLS := ni_TLS n; ni_conn := conn |}.

Definition with_templates (ids : list string) (digests : gmap string string) (n : NodeInfo) : NodeInfo :=
  {| ni_Name := ni_Name n; ni_Endpoint := ni_Endpoint n; ni_HTTPEndpoint := ni_HTTPEndpoint n;
     ni_CASEndpoint := ni_CASEndpoint n; ni_ActiveSandboxes := ni_ActiveSandboxes n;
     ni_MaxSandboxes := ni_MaxSandboxes n; ni_MemoryTotal := ni_MemoryTotal n;
     ni_MemoryUsed := ni_MemoryUsed n; ni_DiskTotal := ni_DiskTotal n; ni_DiskFree := ni_DiskFree n;
     ni_GPUTotal := ni_GPUTotal n; ni_GPUUsed := ni_GPUUsed n; ni_GPUType := ni_GPUType n;
     ni_IsolationTier := ni_IsolationTier n; ni_TemplateIDs := ids; ni_SnapshotIDs := ni_SnapshotIDs n;
     ni_TemplateDigests := digests; ni_TemplateEstimates := ni_TemplateEstimates n;
     ni_LastHeartbeat := ni_LastHeartbeat n; ni_probeFailures := ni_probeFailures n;
     ni_TLS := ni_TLS n; ni_conn := ni_conn n |}.

(** ** Labels *)

Definition gpuNodeLabel : string := "mitos.run/gpu".
Definition gpuTypeNodeLabel : string := "mitos.run/gpu-type".

(** [strconv.ParseInt(v, 10, 32)]: digits after an optional sign, in range. *)
Fixpoint parse_digits (acc : Z) (s : string) : option Z :=
  match s with
  | "" => Some acc
  | String c s' =>
      let d := Z.of_nat (nat_of_ascii c) - 48 in
      if (0 <=? d) && (d <=? 9) then parse_digits (10 * acc + d) s' else None
  end.

Definition ParseInt32 (s : string) : option Z :=
  let '(neg, digits) :=
    match s with
    | String "+" s' => (false, s')
    | String "-" s' => (true, s')
    | _ => (false, s)
    end in
  match digits with
  | "" => None
  | _ =>
      n ← parse_digits 0 digits;
      let v : Z := if (neg : bool) then - n else n in
      if bool_decide (is_int32 v) then Some v else None
  end.

Definition GPUFromNodeLabels (labels : gmap string string) : Z * string :=
  match labels !! gpuNodeLabel with
  | None => (0, "")
  | Some v =>
      if bool_decide (v = "") || bool_decide (v = "false") || bool_decide (v = "0") then (0, "")
      else
        let total :=
          if bool_decide (v = "true") then 1
          else match ParseInt32 v with
               | Some n => if 0 <? n then n else 1
               | None => 1
               end in
        (total, default "" (labels !! gpuTypeNodeLabel))
  end.

(** ** Nodes *)

(** [time.Since(t)] at [now]. *)
Definition isHealthy (now : Z) (n : NodeInfo) : bool :=
  if probeFailureThreshold <=? ni_probeFailures n then false
  else time_sub now (ni_LastHeartbeat n) <? 2 * minute.

Definition hasSnapshot (n : NodeInfo) (id : string) : bool :=
  bool_decide (id ∈ ni_SnapshotIDs n) || bool_decide (id ∈ ni_TemplateIDs n).

(** The untyped constant 0.15 as a float64. *)
Definition minDiskHeadroomFraction : float64 := fdiv (of_int 15) (of_int 100).

Definition hasDiskHeadroom (n : NodeInfo) : bool :=
  if ni_DiskTotal n <=? 0 then true
  else fleb (fmul (of_int (ni_DiskTotal n)) minDiskHeadroomFraction) (of_int (ni_DiskFree n)).

Definition isWarmFor (n : NodeInfo) (templateID : string) : bool :=
  if bool_decide (templateID = "") then false
  else match ni_TemplateEstimates n !! templateID with
       | Some est => 0 <? tc_ForkCount est
       | None => false
       end.

Definition forkCountFor (n : NodeInfo) (templateID : string) : Z :=
  match ni_TemplateEstimates n !! templateID with Some est => tc_ForkCount est | None => 0 end.

Definition atSandboxCeiling (n : NodeInfo) : bool :=
  (0 <? ni_MaxSandboxes n) && (ni_MaxSandboxes n <=? ni_ActiveSandboxes n).

Definition admitsGPU (n : NodeInfo) (req : ForkRequest) : bool :=
  if fr_GPUCount req <=? 0 then true
  else if ni_GPUTotal n <=? 0 then false
  else if negb (bool_decide (fr_GPUType req = "")) && negb (bool_decide (ni_GPUType n = fr_GPUType req))
  then false
  else fr_GPUCount req <=? int32 (ni_GPUTotal n - ni_GPUUsed n).

Definition admitsTier (n : NodeInfo) (req : ForkRequest) : bool :=
  meets (ni_IsolationTier n) (fr_MinIsolationTier req).

Definition packTier (n : NodeInfo) (snapshotID : string) : Z :=
  if bool_decide (snapshotID = "") || negb (hasSnapshot n snapshotID) then 0
  else if 0 <? forkCountFor n snapshotID then 2 else 1.

Definition casBaseURL (n : NodeInfo) : string :=
  if bool_decide (ni_CASEndpoint n = "") then "" else "https://" +:+ ni_CASEndpoint n +:+ "/cas".

(** ** Mutations of the registry *)

Definition SetOvercommitFactor (f : float64) (r : NodeRegistry) : NodeRegistry :=
  if fleb f (of_int 0) then r
  else {| nr_nodes := nr_nodes r; nr_TLS := nr_TLS r; nr_overcommitFactor := f;
          nr_closed := nr_closed r |}.

Definition SetNodeMemory (name : string) (total used : Z) (r : NodeRegistry) : NodeRegistry :=
  set_nodes (alter (with_memory total used) name) r.

Definition Register (now : Z) (info : NodeInfo) (r : NodeRegistry) : NodeRegistry :=
  let '(conn, r') :=
    match nr_nodes r !! ni_Name info with
    | Some old =>
        match ni_conn old with
        | Some c =>
            if bool_decide (ni_Endpoint old = ni_Endpoint info) && bool_decide (ni_conn info = None)
            then (Some c, r)
            else (ni_conn info, close (Some c) r)
        | None => (ni_conn info, r)
        end
    | None => (ni_conn info, r)
    end in
  set_nodes <[ni_Name info := with_conn conn now info]> r'.

Definition Unregister (name : string) (r : NodeRegistry) : NodeRegistry :=
  match nr_nodes r !! name with
  | Some node => set_nodes (delete name) (close (ni_conn node) r)
  | None => r
  end.

Definition AddTemplateWithDigest (nodeName templateID digest : string) (r : NodeRegistry) : NodeRegistry :=
  match nr_nodes r !! nodeName with
  | None => r
  | Some node =>
      let digests := if bool_decide (digest = "") then ni_TemplateDigests node
                     else <[templateID := digest]> (ni_TemplateDigests node) in
      let ids := if bool_decide (templateID ∈ ni_TemplateIDs node) then ni_TemplateIDs node
                 else ni_TemplateIDs node ++ [templateID] in
      set_nodes <[nodeName := with_templates ids digests node]> r
  end.

Definition AddTemplate (nodeName templateID : string) (r : NodeRegistry) : NodeRegistry :=
  AddTemplateWithDigest nodeName templateID "" r.

(** The outcome of [GetConnection]; [dial] is what the dial of the endpoint gives,
    with the transport credentials of the node. *)
Definition GetConnection (nodeName : string) (dial : string → bool → option Z) (r : NodeRegistry) :
    option Z * NodeRegistry :=
  match nr_nodes r !! nodeName with
  | None => (None, r)
  | Some node =>
      match ni_conn node with
      | Some c => (Some c, r)
      | None =>
          match dial (ni_Endpoint node) (ni_TLS node || nr_TLS r) with
          | None => (None, r)
          | Some c =>
              (Some c, set_nodes <[nodeName := with_conn (Some c) (ni_LastHeartbeat node) node]> r)
          end
      end
  end.

Section ranging.
Context `{!GoPlatform, !MapRange}.

Definition PruneStale (now maxAge : Z) (r : NodeRegistry) : Z * NodeRegistry :=
  foldl (λ '(pruned, r') '(name, node),
    if maxAge <=? time_sub now (ni_LastHeartbeat node)
    then (pruned + 1, set_nodes (delete name) (close (ni_conn node) r'))
    else (pruned, r')) (0, r) (map_range "PruneStale" (nr_nodes r)).

(** ** Queries *)

Definition GetNode (name : string) (r : NodeRegistry) : option NodeInfo := nr_nodes r !! name.

Definition NodeHealthy (now : Z) (name : string) (r : NodeRegistry) : bool :=
  match nr_nodes r !! name with Some node => isHealthy now node | None => false end.

Definition NodeMTLS (nodeName : string) (r : NodeRegistry) : bool :=
  match nr_nodes r !! nodeName with Some node => ni_TLS node || nr_TLS r | None => false end.

Definition ListNodes (r : NodeRegistry) : list NodeInfo := (map_range "ListNodes" (nr_nodes r)).*2.

Definition priorProbeFailures (name : string) (r : NodeRegistry) : Z :=
  match nr_nodes r !! name with Some node => ni_probeFailures node | None => 0 end.

Definition holds (now : Z) (templateID : string) (n : NodeInfo) : bool :=
  isHealthy now n && hasSnapshot n templateID.

Definition NodesWithTemplate (now : Z) (templateID : string) (r : NodeRegistry) : list NodeInfo :=
  filter (λ n, holds now templateID n = true) (map_range "NodesWithTemplate" (nr_nodes r)).*2.

Record SnapshotHolder := { sh_Name : string; sh_Digest : string }.

Definition SnapshotHolders (now : Z) (templateID : string) (r : NodeRegistry) : list SnapshotHolder :=
  (λ n, {| sh_Name := ni_Name n; sh_Digest := default "" (ni_TemplateDigests n !! templateID) |}) <$>
  filter (λ n, holds now templateID n = true) (map_range "SnapshotHolders" (nr_nodes r)).*2.

Definition TemplateDigestOnNode (nodeName templateID : string) (r : NodeRegistry) : option string :=
  n ← nr_nodes r !! nodeName;
  d ← ni_TemplateDigests n !! templateID;
  if bool_decide (d = "") then None else Some d.

Definition TemplateDigest (now : Z) (templateID : string) (r : NodeRegistry) : option string :=
  foldr (λ n rest,
    if holds now templateID n then
      match ni_TemplateDigests n !! templateID with
      | Some d => if bool_decide (d = "") then rest else Some d
      | None => rest
      end
    else rest) None (map_range "TemplateDigest" (nr_nodes r)).*2.

(** The loop of [TemplateSource]. *)
Definition source_step (now : Z) (templateID : string) (best : option (NodeInfo * string)) (n : NodeInfo) :
    option (NodeInfo * string) :=
  if negb (holds now templateID n) then best
  else
    let d := default "" (ni_TemplateDigests n !! templateID) in
    if bool_decide (d = "") || bool_decide (ni_CASEndpoint n = "") then best
    else match best with
         | None => Some (n, d)
         | Some (b, _) => if str_ltb (ni_Name n) (ni_Name b) then Some (n, d) else best
         end.

Definition TemplateSource (now : Z) (templateID : string) (r : NodeRegistry) :
    option (NodeInfo * string * string) :=
  match foldl (source_step now templateID) None (map_range "TemplateSource" (nr_nodes r)).*2 with
  | None => None
  | Some (best, d) => Some (best, casBaseURL best, d)
  end.

(** A scan reads the clock at every node: [clock n] is the reading at [n]. *)
Definition anyNodeMeetsTier (clock : NodeInfo → Z) (min : IsolationTier) (r : NodeRegistry) : bool :=
  existsb (λ n, isHealthy (clock n) n && meets (ni_IsolationTier n) min)
    (map_range "anyNodeMeetsTier" (nr_nodes r)).*2.

Definition anyHealthyNodeHasDiskHeadroom (clock : NodeInfo → Z) (r : NodeRegistry) : bool :=
  existsb (λ n, isHealthy (clock n) n && hasDiskHeadroom n)
    (map_range "anyHealthyNodeHasDiskHeadroom" (nr_nodes r)).*2.

(** ** Admission *)

Definition defaultColdSharedBytes : Z := 256 * 1024 * 1024.
Definition defaultForkUniqueBytes : Z := 8 * 1024 * 1024.

(** The headroom, or [None] for an unknown budget. *)
Definition available (r : NodeRegistry) (node : NodeInfo) : option Z :=
  if ni_MemoryTotal node <=? 0 then None
  else
    let factor := if fleb (nr_overcommitFactor r) (of_int 0) then of_int 1 else nr_overcommitFactor r in
    Some (int64 (to_int64 (fmul (of_int (ni_MemoryTotal node)) factor) - ni_MemoryUsed node)).

Definition templateEstimateAcross (site : string) (r : NodeRegistry) (node : NodeInfo)
    (templateID : string) : option TemplateCapacity :=
  if bool_decide (templateID = "") then None
  else match ni_TemplateEstimates node !! templateID with
       | Some est => Some est
       | None =>
           foldr (λ n rest, match ni_TemplateEstimates n !! templateID with
                            | Some est => Some est | None => rest end)
             None (map_range (site +:+ ni_Name node) (nr_nodes r)).*2
       end.

Definition projectedCost (site : string) (r : NodeRegistry) (node : NodeInfo) (templateID : string) : Z :=
  let est := templateEstimateAcross site r node templateID in
  let unique := match est with
                | Some e => if 0 <? tc_AvgForkUniqueBytes e then tc_AvgForkUniqueBytes e
                            else defaultForkUniqueBytes
                | None => defaultForkUniqueBytes
                end in
  if isWarmFor node templateID then unique
  else
    let shared := match est with
                  | Some e => if 0 <? tc_SharedOnceBytes e then tc_SharedOnceBytes e
                              else defaultColdSharedBytes
                  | None => defaultColdSharedBytes
                  end in
    int64 (shared + unique).

Definition admitsRequest (site : string) (r : NodeRegistry) (node : NodeInfo) (req : ForkRequest) : bool :=
  if atSandboxCeiling node then false
  else if negb (hasDiskHeadroom node) then false
  else if negb (admitsGPU node req) then false
  else if negb (admitsTier node req) then false
  else match available r node with
       | None => true
       | Some avail =>
           let cost := projectedCost site r node (fr_TemplateID req) in
           let cost := if cost <? fr_MemoryBytes req then fr_MemoryBytes req else cost in
           cost <=? avail
       end.

(** ** Packing *)

Definition denser (r : NodeRegistry) (snapshotID : string) (c b : NodeInfo) : bool :=
  let cTier := packTier c snapshotID in
  let bTier := packTier b snapshotID in
  if negb (cTier =? bTier) then bTier <? cTier
  else if 0 <? cTier then
    let cForks := forkCountFor c snapshotID in
    let bForks := forkCountFor b snapshotID in
    if negb (cForks =? bForks) then bForks <? cForks
    else str_ltb (ni_Name c) (ni_Name b)
  else match available r c, available r b with
       | Some _, None => true
       | None, Some _ => false
       | Some ca, Some ba =>
           if negb (ca =? ba) then ba <? ca else str_ltb (ni_Name c) (ni_Name b)
       | None, None => str_ltb (ni_Name c) (ni_Name b)
       end.

Definition packBest (r : NodeRegistry) (first : NodeInfo) (rest : list NodeInfo) (snapshotID : string) :
    NodeInfo :=
  foldl (λ best node, if denser r snapshotID node best then node else best) first rest.

Inductive select_error :=
| ENoNodes
| ENoHealthy
| ENoCapacityTier
| ENoCapacityGPU
| ENoCapacityDisk
| ENoCapacityMemory.

(** The readings of the clock at the preferred node and in the three scans. *)
Definition SelectNodeForFork (clock : string → NodeInfo → Z) (r : NodeRegistry) (req : ForkRequest) :
    result select_error NodeInfo :=
  if bool_decide (nr_nodes r = ∅) then Err ENoNodes
  else
    let preferred :=
      if bool_decide (fr_PreferredNode req = "") then None
      else match nr_nodes r !! fr_PreferredNode req with
           | Some node =>
               if isHealthy (clock "preferred" node) node && admitsRequest "preferred/" r node req then Some node else None
           | None => None
           end in
    match preferred with
    | Some node => Ok node
    | None =>
        let nodes := (map_range "SelectNodeForFork" (nr_nodes r)).*2 in
        let healthy := filter (λ n, isHealthy (clock "scan" n) n = true) nodes in
        let admitted := filter (λ n, admitsRequest "admitted/" r n req = true) healthy in
        match healthy with
        | [] => Err ENoHealthy
        | _ =>
            match admitted with
            | [] =>
                if negb (bool_decide (fr_MinIsolationTier req = "")) &&
                   negb (anyNodeMeetsTier (clock "tier") (fr_MinIsolationTier req) r)
                then Err ENoCapacityTier
                else if 0 <? fr_GPUCount req then Err ENoCapacityGPU
                else if negb (anyHealthyNodeHasDiskHeadroom (clock "disk") r) then Err ENoCapacityDisk
                else Err ENoCapacityMemory
            | first :: rest => Ok (packBest r first rest (fr_TemplateID req))
            end
        end
    end.

Definition SelectNode (clock : string → NodeInfo → Z) (r : NodeRegistry) (snapshotID preferredNode : string) :
    result select_error NodeInfo :=
  SelectNodeForFork clock r {| fr_TemplateID := snapshotID; fr_PreferredNode := preferredNode;
    fr_MemoryBytes := 0; fr_GPUCount := 0; fr_GPUType := ""; fr_MinIsolationTier := "" |}.

End ranging.

End Registry.
Import Registry.

(** forkd_discovery.go *)
Module Discovery.

(** The fields of a pod that discovery reads; the Ready condition is the list of
    its reported values. *)
Record Pod := {
  pod_Phase : string;
  pod_PodIP : string;
  pod_NodeName : string;
  pod_Ready : list bool;
}.

(** forkd's answer to GetCapacity. *)
Record Capacity := {
  cap_ActiveSandboxes : Z;
  cap_MaxSandboxes : Z;
  cap_MemoryTotal : Z;
  cap_MemoryUsed : Z;
  cap_DiskTotal : Z;
  cap_DiskFree : Z;
  cap_TemplateIds : list string;
  cap_SnapshotIds : list string;
  cap_TemplateDigests : gmap string string;
  cap_Templates : list TemplateCapacity;
}.

Definition podReady (pod : Pod) : bool :=
  match pod_Ready pod with [] => false | status :: _ => status end.

Definition host_port (ip : string) (port : Z) : string := ip +:+ ":" +:+ Json.fmt_int port.

(** A [NodeInfo] literal: the other fields have their zero values. *)
Definition NodeInfoFromPod (pod : Pod) (grpcPort httpPort casPort : Z) : option NodeInfo :=
  if negb (bool_decide (pod_Phase pod = "Running")) || bool_decide (pod_PodIP pod = "") ||
     bool_decide (pod_NodeName pod = "")
  then None
  else if negb (podReady pod) then None
  else Some {|
    ni_Name := pod_NodeName pod;
    ni_Endpoint := host_port (pod_PodIP pod) grpcPort;
    ni_HTTPEndpoint := host_port (pod_PodIP pod) httpPort;
    ni_CASEndpoint := host_port (pod_PodIP pod) casPort;
    ni_ActiveSandboxes := 0; ni_MaxSandboxes := 0; ni_MemoryTotal := 0; ni_MemoryUsed := 0;
    ni_DiskTotal := 0; ni_DiskFree := 0; ni_GPUTotal := 0; ni_GPUUsed := 0; ni_GPUType := "";
    ni_IsolationTier := ""; ni_TemplateIDs := []; ni_SnapshotIDs := []; ni_TemplateDigests := ∅;
    ni_TemplateEstimates := ∅; ni_LastHeartbeat := 0; ni_probeFailures := 0; ni_TLS := false;
    ni_conn := None;
  |}.

(** The node with the capacity that the probe answered, and whether it answered. *)
Definition refreshCapacity (resp : option Capacity) (n : NodeInfo) : NodeInfo * bool :=
  match resp with
  | None => (n, false)
  | Some c =>
      ({| ni_Name := ni_Name n; ni_Endpoint := ni_Endpoint n; ni_HTTPEndpoint := ni_HTTPEndpoint n;
          ni_CASEndpoint := ni_CASEndpoint n; ni_ActiveSandboxes := cap_ActiveSandboxes c;
          ni_MaxSandboxes := cap_MaxSandboxes c; ni_MemoryTotal := cap_MemoryTotal c;
          ni_MemoryUsed := cap_MemoryUsed c; ni_DiskTotal := cap_DiskTotal c;
          ni_DiskFree := cap_DiskFree c; ni_GPUTotal := ni_GPUTotal n; ni_GPUUsed := ni_GPUUsed n;
          ni_GPUType := ni_GPUType n; ni_IsolationTier := ni_IsolationTier n;
          ni_TemplateIDs := cap_TemplateIds c; ni_SnapshotIDs := cap_SnapshotIds c;
          ni_TemplateDigests := cap_TemplateDigests c;
          ni_TemplateEstimates :=
            if bool_decide (cap_Templates c = []) then ni_TemplateEstimates n
            else foldl (λ m t, <[tc_TemplateID t := t]> m) ∅ (cap_Templates c);
          ni_LastHeartbeat := ni_LastHeartbeat n; ni_probeFailures := ni_probeFailures n;
          ni_TLS := ni_TLS n; ni_conn := ni_conn n |}, true)
  end.

Definition with_tls (tls : bool) (n : NodeInfo) : NodeInfo :=
  {| ni_Name := ni_Name n; ni_Endpoint := ni_Endpoint n; ni_HTTPEndpoint := ni_HTTPEndpoint n;
     ni_CASEndpoint := ni_CASEndpoint n; ni_ActiveSandboxes := ni_ActiveSandboxes n;
     ni_MaxSandboxes := ni_MaxSandboxes n; ni_MemoryTotal := ni_MemoryTotal n;
     ni_MemoryUsed := ni_MemoryUsed n; ni_DiskTotal := ni_DiskTotal n; ni_DiskFree := ni_DiskFree n;
     ni_GPUTotal := ni_GPUTotal n; ni_GPUUsed := ni_GPUUsed n; ni_GPUType := ni_GPUType n;
     ni_IsolationTier := ni_IsolationTier n; ni_TemplateIDs := ni_TemplateIDs n;
     ni_SnapshotIDs := ni_SnapshotIDs n; ni_TemplateDigests := ni_TemplateDigests n;
     ni_TemplateEstimates := ni_TemplateEstimates n; ni_LastHeartbeat := ni_LastHeartbeat n;
     ni_probeFailures := ni_probeFailures n; ni_TLS := tls; ni_conn := ni_conn n |}.

Definition with_probe_failures (failures : Z) (n : NodeInfo) : NodeInfo :=
  {| ni_Name := ni_Name n; ni_Endpoint := ni_Endpoint n; ni_HTTPEndpoint := ni_HTTPEndpoint n;
     ni_CASEndpoint := ni_CASEndpoint n; ni_ActiveSandboxes := ni_ActiveSandboxes n;
     ni_MaxSandboxes := ni_MaxSandboxes n; ni_MemoryTotal := ni_MemoryTotal n;
     ni_MemoryUsed := ni_MemoryUsed n; ni_DiskTotal := ni_DiskTotal n; ni_DiskFree := ni_DiskFree n;
     ni_GPUTotal := ni_GPUTotal n; ni_GPUUsed := ni_GPUUsed n; ni_GPUType := ni_GPUType n;
     ni_IsolationTier := ni_IsolationTier n; ni_TemplateIDs := ni_TemplateIDs n;
     ni_SnapshotIDs := ni_SnapshotIDs n; ni_TemplateDigests := ni_TemplateDigests n;
     ni_TemplateEstimates := ni_TemplateEstimates n; ni_LastHeartbeat := ni_LastHeartbeat n;
     ni_probeFailures := failures; ni_TLS := ni_TLS n; ni_conn := ni_conn n |}.

Section discovery.
Context `{!MapRange}.
Context (grpcPort httpPort casPort : Z) (tls : bool).

(** [probe] is the answer of GetCapacity at an endpoint, if there is one. *)
Definition sync_pod (now : Z) (probe : string → option Capacity) (r : NodeRegistry) (pod : Pod) :
    NodeRegistry :=
  match NodeInfoFromPod pod grpcPort httpPort casPort with
  | None => r
  | Some info =>
      let '(info, probeOK) := refreshCapacity (probe (ni_Endpoint info)) (with_tls tls info) in
      let failures := if (probeOK : bool) then 0 else priorProbeFailures (ni_Name info) r + 1 in
      Register now (with_probe_failures failures info) r
  end.

Definition syncPods (now : Z) (probe : string → option Capacity) (pods : list Pod) (r : NodeRegistry) :
    NodeRegistry :=
  foldl (sync_pod now probe) r pods.

(** [pods] is the result of listing the forkd pods. *)
Definition sync (now : Z) (probe : string → option Capacity) (pods : option (list Pod)) (r : NodeRegistry) :
    NodeRegistry :=
  match pods with
  | None => r
  | Some items => (PruneStale now (2 * minute) (syncPods now probe items r)).2
  end.

End discovery.

End Discovery.
