(* ===== verification/SchedulerTheorems.v ===== *)
(** * The scheduler and the node registry: theorems

    What [SelectNodeForFork] promises about the node it picks and the errors it
    returns, independently of the order in which Go ranges over the registry; the
    life cycle of the registry's entries and connections; what node discovery makes
    of the labels and of a failed probe. *)

From S2P Require Import Prelude GoFloat Scheduler.
Import GoFloat Tier Registry Discovery.

Module SchedulerTheorems.

(** ** The packing order *)

(** What [denser] compares, in order of precedence, before the name. *)
Definition pack_key (r : NodeRegistry) (snapshotID : string) (n : NodeInfo) `{!GoPlatform} : Z * Z * Z :=
  let tier := packTier n snapshotID in
  if 0 <? tier then (tier, 0, forkCountFor n snapshotID)
  else match available r n with
       | Some a => (tier, 1, a)
       | None => (tier, 0, 0)
       end.

Definition key_gt (a b : Z * Z * Z) : Prop :=
  let '(a1, a2, a3) := a in let '(b1, b2, b3) := b in
  b1 < a1 ∨ a1 = b1 ∧ (b2 < a2 ∨ a2 = b2 ∧ b3 < a3).

Section selection.
Context `{!GoPlatform}.

Lemma denser_key r s c b :
  denser r s c b = true ↔
  key_gt (pack_key r s c) (pack_key r s b) ∨
  pack_key r s c = pack_key r s b ∧ str_ltb (ni_Name c) (ni_Name b) = true.
Proof.
  unfold denser, pack_key, key_gt.
  destruct (Z.eqb_spec (packTier c s) (packTier b s)) as [Ht|Ht]; simpl.
  - rewrite <- Ht. destruct (0 <? packTier c s) eqn:E.
    + destruct (Z.eqb_spec (forkCountFor c s) (forkCountFor b s)) as [Hf|Hf]; simpl.
      * rewrite Hf. split; [auto|]. intros [?|[_ ?]]; [lia|done].
      * rewrite Z.ltb_lt. split; [lia|]. intros [?|[[= ?] _]]; lia.
    + destruct (available r c) as [ca|], (available r b) as [ba|].
      * destruct (Z.eqb_spec ca ba) as [->|Hf]; simpl.
        -- split; [auto|]. intros [?|[_ ?]]; [lia|done].
        -- rewrite Z.ltb_lt. split; [lia|]. intros [?|[[= ?] _]]; lia.
      * split; [lia|done].
      * split; [done|]. intros [?|[[= ?] _]]; lia.
      * split; [auto|]. intros [?|[_ ?]]; [lia|done].
  - rewrite Z.ltb_lt.
    destruct (0 <? packTier c s) eqn:Ec, (0 <? packTier b s) eqn:Eb,
      (available r c), (available r b); split; try lia; (intros [?|[[= ?] _]]; lia).
Qed.

#[global] Instance denser_sw r s : StrictWeak (denser r s).
Proof.
  assert (∀ c b, denser r s c b = false ↔
    ¬ key_gt (pack_key r s c) (pack_key r s b) ∧
    (pack_key r s c = pack_key r s b → str_ltb (ni_Name c) (ni_Name b) = false)) as Hf.
  { intros c b. rewrite <- not_true_iff_false, denser_key.
    destruct (str_ltb (ni_Name c) (ni_Name b)); naive_solver. }
  split.
  - intros x. apply Hf. split; [|intros _; apply sw_irrefl].
    unfold key_gt. destruct (pack_key r s x) as [[??]?]. lia.
  - intros x y z. rewrite !denser_key. unfold key_gt.
    destruct (pack_key r s x) as [[??]?], (pack_key r s y) as [[??]?], (pack_key r s z) as [[??]?].
    intros [?|[[= -> -> ->] ?]] [?|[[= -> -> ->] ?]]; [left; lia..|right].
    split; [done|]. by eapply sw_trans.
  - intros x y z. rewrite !Hf. unfold key_gt.
    destruct (pack_key r s x) as [[x1 x2] x3], (pack_key r s y) as [[y1 y2] y3],
      (pack_key r s z) as [[z1 z2] z3].
    intros [H1 H1'] [H2 H2']. split; [lia|]. intros [= -> -> ->].
    assert ((z1, z2, z3) = (y1, y2, y3)) as [= -> -> ->] by (repeat f_equal; lia).
    eapply sw_incomp; eauto.
Qed.

Lemma denser_tie r s c b :
  denser r s c b = false → denser r s b c = false → ni_Name c = ni_Name b.
Proof.
  rewrite <- !not_true_iff_false, !denser_key. unfold key_gt.
  destruct (pack_key r s c) as [[x1 x2] x3], (pack_key r s b) as [[y1 y2] y3].
  intros H1 H2. assert ((x1, x2, x3) = (y1, y2, y3)) as [= -> -> ->] by (repeat f_equal; lia).
  apply str_ltb_tie; apply not_true_iff_false; naive_solver.
Qed.

Lemma denser_tier r s c b : denser r s c b = false → packTier c s ≤ packTier b s.
Proof.
  rewrite <- not_true_iff_false, denser_key. unfold key_gt, pack_key. intros Hd.
  destruct (0 <? packTier c s), (0 <? packTier b s), (available r c), (available r b); lia.
Qed.

Lemma packBest_keep r first rest s :
  packBest r first rest s = foldl (keep_better (denser r s)) first rest.
Proof. done. Qed.

(** ** The selected node *)

Context `{!MapRange}.

(** A node that is registered, alive and admits the request. *)
Definition eligible (clock : string → NodeInfo → Z) (r : NodeRegistry) (req : ForkRequest) (site : string) (n : NodeInfo) : Prop :=
  (∃ k, nr_nodes r !! k = Some n) ∧ isHealthy (clock "scan" n) n = true ∧ admitsRequest site r n req = true.

(** The resources that admission guards. *)
Definition has_room (r : NodeRegistry) (req : ForkRequest) (n : NodeInfo) : Prop :=
  (ni_MaxSandboxes n ≤ 0 ∨ ni_ActiveSandboxes n < ni_MaxSandboxes n) ∧
  hasDiskHeadroom n = true ∧
  (0 < fr_GPUCount req →
    0 < ni_GPUTotal n ∧ fr_GPUCount req ≤ int32 (ni_GPUTotal n - ni_GPUUsed n) ∧
    (fr_GPUType req ≠ "" → ni_GPUType n = fr_GPUType req)) ∧
  meets (ni_IsolationTier n) (fr_MinIsolationTier req) = true ∧
  (∀ avail, available r n = Some avail → fr_MemoryBytes req ≤ avail).

Lemma admits_room site r n req : admitsRequest site r n req = true → has_room r req n.
Proof.
  unfold admitsRequest, has_room, atSandboxCeiling, admitsTier.
  destruct (_ && _) eqn:Hc; [done|].
  destruct (hasDiskHeadroom n); [|done]. destruct (admitsGPU n req) eqn:Hg; [|done].
  destruct (meets _ _); [|done]. simpl. intros Ha.
  split_and!; [|done| |done|].
  - apply andb_false_iff in Hc. rewrite Z.ltb_ge, Z.leb_gt in Hc. lia.
  - intros Hpos. unfold admitsGPU in Hg.
    destruct (Z.leb_spec (fr_GPUCount req) 0); [lia|]. destruct (Z.leb_spec (ni_GPUTotal n) 0); [done|].
    do 2 case_bool_decide; simpl in Hg; try done; apply Z.leb_le in Hg; done.
  - intros avail Hav. rewrite Hav in Ha. case_match; lia.
Qed.

Lemma elem_of_range_snd {A} site (m : gmap string A) x :
  x ∈ (map_range site m).*2 ↔ ∃ k, m !! k = Some x.
Proof.
  rewrite list_elem_of_fmap. split.
  - intros ([k y] & -> & Hy). exists k. by apply elem_of_map_range in Hy.
  - intros [k Hk]. exists (k, x). by rewrite elem_of_map_range.
Qed.

(** The nodes that the scan considers. *)
Definition candidates (clock : string → NodeInfo → Z) (r : NodeRegistry) (req : ForkRequest) : list NodeInfo :=
  filter (λ n, admitsRequest "admitted/" r n req = true)
    (filter (λ n, isHealthy (clock "scan" n) n = true) (map_range "SelectNodeForFork" (nr_nodes r)).*2).

Lemma elem_of_candidates clock r req n :
  n ∈ candidates clock r req ↔ eligible clock r req "admitted/" n.
Proof.
  unfold candidates, eligible. rewrite !list_elem_of_filter, elem_of_range_snd. tauto.
Qed.

(** The preferred node is taken when it can be. *)
Definition preferred_ok (clock : string → NodeInfo → Z) (r : NodeRegistry) (req : ForkRequest) (n : NodeInfo) : Prop :=
  fr_PreferredNode req ≠ "" ∧ nr_nodes r !! fr_PreferredNode req = Some n ∧
  isHealthy (clock "preferred" n) n = true ∧ admitsRequest "preferred/" r n req = true.

(** Some registered live node satisfies [P]. *)
Definition some_live (clock : NodeInfo → Z) (r : NodeRegistry) (P : NodeInfo → bool) : Prop :=
  ∃ k n, nr_nodes r !! k = Some n ∧ isHealthy (clock n) n = true ∧ P n = true.

Lemma any_live site clock r P :
  existsb (λ n, isHealthy (clock n) n && P n) (map_range site (nr_nodes r)).*2 = true ↔ some_live clock r P.
Proof.
  rewrite existsb_exists. unfold some_live. split.
  - intros (n & Hin & [? ?]%andb_prop). apply list_elem_of_In, elem_of_range_snd in Hin as [k ?]. eauto.
  - intros (k & n & Hk & Hh & Hp). exists n. rewrite Hh, Hp. split; [|done].
    apply list_elem_of_In, elem_of_range_snd. eauto.
Qed.

Lemma no_live site clock r P :
  existsb (λ n, isHealthy (clock n) n && P n) (map_range site (nr_nodes r)).*2 = false ↔ ¬ some_live clock r P.
Proof. by rewrite <- (any_live site), not_true_iff_false. Qed.

(** What each error says about the registry, at the readings of the clock it rests on. *)
Definition refusal (clock : string → NodeInfo → Z) (r : NodeRegistry) (req : ForkRequest) (e : select_error) : Prop :=
  let live := some_live (clock "scan") r (λ _, true) in
  let tier := some_live (clock "tier") r (λ n, meets (ni_IsolationTier n) (fr_MinIsolationTier req)) in
  let disk := some_live (clock "disk") r hasDiskHeadroom in
  match e with
  | ENoNodes => nr_nodes r = ∅
  | ENoHealthy => nr_nodes r ≠ ∅ ∧ ¬ live
  | ENoCapacityTier => live ∧ fr_MinIsolationTier req ≠ "" ∧ ¬ tier
  | ENoCapacityGPU => live ∧ (fr_MinIsolationTier req ≠ "" → tier) ∧ 0 < fr_GPUCount req
  | ENoCapacityDisk => live ∧ (fr_MinIsolationTier req ≠ "" → tier) ∧ fr_GPUCount req ≤ 0 ∧ ¬ disk
  | ENoCapacityMemory => live ∧ (fr_MinIsolationTier req ≠ "" → tier) ∧ fr_GPUCount req ≤ 0 ∧ disk
  end.

(** What a node that does not admit a request lacks: a place below the ceiling, disk, the
    GPUs, the tier, or memory for the larger of the projected cost and the size. *)
Definition lacks (r : NodeRegistry) (req : ForkRequest) (n : NodeInfo) : Prop :=
  0 < ni_MaxSandboxes n ≤ ni_ActiveSandboxes n ∨
  hasDiskHeadroom n = false ∨
  (0 < fr_GPUCount req ∧
    (ni_GPUTotal n ≤ 0 ∨ int32 (ni_GPUTotal n - ni_GPUUsed n) < fr_GPUCount req ∨
     fr_GPUType req ≠ "" ∧ ni_GPUType n ≠ fr_GPUType req)) ∨
  meets (ni_IsolationTier n) (fr_MinIsolationTier req) = false ∨
  ∃ avail, available r n = Some avail ∧
    avail < Z.max (projectedCost "admitted/" r n (fr_TemplateID req)) (fr_MemoryBytes req).

Lemma refused_lacks r n req : admitsRequest "admitted/" r n req = false → lacks r req n.
Proof.
  unfold admitsRequest, lacks, atSandboxCeiling, admitsTier. destruct (_ && _) eqn:Hc; [left; lia|].
  destruct (hasDiskHeadroom n); [|auto]. destruct (admitsGPU n req) eqn:Hg; cbn [negb].
  - destruct (meets _ _); [|auto 6]. cbn [negb]. destruct (available r n) as [avail|]; [|done]. intros Ha.
    do 4 right. exists avail. split; [done|]. case_match; lia.
  - intros _. right. right. left. revert Hg. unfold admitsGPU. destruct (Z.leb_spec (fr_GPUCount req) 0); [done|].
    destruct (Z.leb_spec (ni_GPUTotal n) 0); [auto|]. do 2 case_bool_decide; simpl; intros Hg;
      (split; [done|]); rewrite ?Z.leb_gt in Hg; auto.
Qed.

Definition preferred_node (clock : string → NodeInfo → Z) (r : NodeRegistry) (req : ForkRequest) : option NodeInfo :=
  if bool_decide (fr_PreferredNode req = "") then None
  else match nr_nodes r !! fr_PreferredNode req with
       | Some node =>
           if isHealthy (clock "preferred" node) node && admitsRequest "preferred/" r node req then Some node else None
       | None => None
       end.

Lemma preferred_node_spec clock r req n :
  preferred_node clock r req = Some n ↔ preferred_ok clock r req n.
Proof.
  unfold preferred_node, preferred_ok. case_bool_decide; [naive_solver|].
  destruct (nr_nodes r !! _) as [m|]; [|naive_solver].
  destruct (isHealthy (clock "preferred" m) m) eqn:?, (admitsRequest "preferred/" r m req) eqn:?; simpl;
    (split; [intros [= <-]|intros (_ & [= <-] & ? & ?)]); split_and?; congruence.
Qed.

Lemma refusal_capacity clock r req :
  some_live (clock "scan") r (λ _, true) →
  refusal clock r req
    (if negb (bool_decide (fr_MinIsolationTier req = "")) &&
        negb (anyNodeMeetsTier (clock "tier") (fr_MinIsolationTier req) r)
     then ENoCapacityTier
     else if 0 <? fr_GPUCount req then ENoCapacityGPU
     else if negb (anyHealthyNodeHasDiskHeadroom (clock "disk") r) then ENoCapacityDisk else ENoCapacityMemory).
Proof.
  intros Hlive. destruct (_ && _) eqn:Ht.
  { apply andb_prop in Ht as [Hm%negb_true_iff Ht%negb_true_iff]. split; [done|]. split; [by apply bool_decide_eq_false in Hm|].
    by apply (no_live "anyNodeMeetsTier") in Ht. }
  assert (fr_MinIsolationTier req ≠ "" → some_live (clock "tier") r (λ n, meets (ni_IsolationTier n) (fr_MinIsolationTier req))) as Htier.
  { intros Hm. rewrite (bool_decide_eq_false_2 _ Hm) in Ht. apply negb_false_iff in Ht.
    by apply (any_live "anyNodeMeetsTier") in Ht. }
  destruct (Z.ltb_spec 0 (fr_GPUCount req)); [done|].
  destruct (anyHealthyNodeHasDiskHeadroom _ r) eqn:Hd; simpl.
  - apply (any_live "anyHealthyNodeHasDiskHeadroom") in Hd. done.
  - apply (no_live "anyHealthyNodeHasDiskHeadroom") in Hd. done.
Qed.

Lemma select_cases clock r req :
  match SelectNodeForFork clock r req with
  | Ok n => preferred_node clock r req = Some n ∨
            preferred_node clock r req = None ∧
            ∃ first rest, candidates clock r req = first :: rest ∧ n = packBest r first rest (fr_TemplateID req)
  | Err e =>
      preferred_node clock r req = None ∧ candidates clock r req = [] ∧ refusal clock r req e
  end.
Proof.
  unfold SelectNodeForFork. fold (preferred_node clock r req) (candidates clock r req).
  case_bool_decide as He.
  { split_and!; [| |done].
    - unfold preferred_node. rewrite He, lookup_empty. by case_bool_decide.
    - apply elem_of_nil_inv. intros n [[k Hk] _]%elem_of_candidates. by rewrite He in Hk. }
  destruct (preferred_node clock r req) as [n|] eqn:Hp; [auto|].
  set (healthy := filter (λ n, isHealthy (clock "scan" n) n = true) _).
  assert (∀ n, n ∈ healthy ↔ (∃ k, nr_nodes r !! k = Some n) ∧ isHealthy (clock "scan" n) n = true) as Hh.
  { intros n. unfold healthy. rewrite list_elem_of_filter, elem_of_range_snd. tauto. }
  destruct healthy as [|h hs] eqn:Eh.
  { split_and!; [done| |split; [done|]].
    - unfold candidates. fold healthy. by rewrite Eh.
    - intros (k & n & Hk & Hn & _). assert (n ∈ []) as ?%not_elem_of_nil; [|done].
      apply Hh. eauto. }
  assert (some_live (clock "scan") r (λ _, true)) as Hlive.
  { destruct (proj1 (Hh h)) as [[k ?] ?]; [set_solver|]. by exists k, h. }
  destruct (candidates clock r req) as [|first rest]; [|right; eauto].
  pose proof (refusal_capacity clock r req Hlive) as Href.
  repeat case_match; done.
Qed.


(** The packing policy.  The selected node is the preferred one if that is alive
    and admits the request; otherwise no live node that admits the request is packed
    more densely: a node that already runs forks of the snapshot comes before one
    that only holds it, and that before one that does not. *)
Theorem select_packs clock r req n :
  SelectNodeForFork clock r req = Ok n →
  preferred_ok clock r req n ∨
  (∀ p, ¬ preferred_ok clock r req p) ∧
  ∀ m, eligible clock r req "admitted/" m →
    denser r (fr_TemplateID req) m n = false ∧
    packTier m (fr_TemplateID req) ≤ packTier n (fr_TemplateID req).
Proof.
  intros Hsel. pose proof (select_cases clock r req) as Hs. rewrite Hsel in Hs.
  destruct Hs as [Hp|(Hp & first & rest & Hc & ->)]; [left; by apply preferred_node_spec|].
  right. split; [intros p Hp'%preferred_node_spec; congruence|].
  intros m Hm%elem_of_candidates. rewrite Hc in Hm. rewrite packBest_keep.
  assert (denser r (fr_TemplateID req) m
    (foldl (keep_better (denser r (fr_TemplateID req))) first rest) = false)
    as Hd by (by apply keep_better_best; [apply _|]).
  split; [done|]. by eapply denser_tier.
Qed.

End selection.

(** ** Independence from the order of map ranges *)

Definition keys_ok (r : NodeRegistry) : Prop :=
  map_Forall (λ k n, ni_Name n = k) (nr_nodes r).

#[global] Instance keys_ok_dec r : Decision (keys_ok r).
Proof. unfold keys_ok. apply _. Defined.

(** The nodes that report an estimate for the template report the same sizes. *)
Definition estimates_agree (templateID : string) (r : NodeRegistry) : Prop :=
  map_Forall (λ _ n1, map_Forall (λ _ n2,
    match ni_TemplateEstimates n1 !! templateID, ni_TemplateEstimates n2 !! templateID with
    | Some e1, Some e2 => tc_SharedOnceBytes e1 = tc_SharedOnceBytes e2 ∧
                          tc_AvgForkUniqueBytes e1 = tc_AvgForkUniqueBytes e2
    | _, _ => True
    end) (nr_nodes r)) (nr_nodes r).

#[global] Instance estimates_agree_dec t r : Decision (estimates_agree t r).
Proof.
  unfold estimates_agree. apply map_Forall_dec. intros ? n1. apply map_Forall_dec. intros ? n2. repeat case_match; apply _.
Defined.

Section order.
Context `{!GoPlatform}.
Context (R1 R2 : MapRange).

(** The two sizes that an estimate gives. *)
Definition sizes (e : option TemplateCapacity) : option (Z * Z) :=
  (λ e, (tc_SharedOnceBytes e, tc_AvgForkUniqueBytes e)) <$> e.

Lemma across_scan (R : MapRange) site r t :
  match foldr (λ n rest, match ni_TemplateEstimates n !! t with Some est => Some est | None => rest end)
          None (@map_range R _ _ _ _ site (nr_nodes r)).*2 with
  | Some e => ∃ k n, nr_nodes r !! k = Some n ∧ ni_TemplateEstimates n !! t = Some e
  | None => ∀ k n, nr_nodes r !! k = Some n → ni_TemplateEstimates n !! t = None
  end.
Proof.
  assert (∀ l : list NodeInfo,
    match foldr (λ n rest, match ni_TemplateEstimates n !! t with Some est => Some est | None => rest end)
            None l with
    | Some e => ∃ n, n ∈ l ∧ ni_TemplateEstimates n !! t = Some e
    | None => ∀ n, n ∈ l → ni_TemplateEstimates n !! t = None
    end) as Hl.
  { induction l as [|n l IH]; simpl; [set_solver|].
    destruct (ni_TemplateEstimates n !! t) eqn:En; [set_solver|].
    case_match; set_solver. }
  specialize (Hl (@map_range R _ _ _ _ site (nr_nodes r)).*2). case_match.
  - destruct Hl as (n & Hn & ?). apply elem_of_range_snd in Hn as [k ?]. eauto.
  - intros k n Hk. apply Hl, elem_of_range_snd. eauto.
Qed.

Lemma across_sizes site1 site2 r n t :
  estimates_agree t r →
  sizes (@templateEstimateAcross R1 site1 r n t) = sizes (@templateEstimateAcross R2 site2 r n t).
Proof.
  intros Hag. unfold templateEstimateAcross. case_bool_decide; [done|].
  destruct (ni_TemplateEstimates n !! t); [done|].
  pose proof (across_scan R1 (site1 +:+ ni_Name n) r t) as H1.
  pose proof (across_scan R2 (site2 +:+ ni_Name n) r t) as H2.
  do 2 case_match; simpl; try done.
  - destruct H1 as (k1 & n1 & Hk1 & He1), H2 as (k2 & n2 & Hk2 & He2).
    specialize (Hag k1 n1 Hk1 k2 n2 Hk2). simpl in Hag. rewrite He1, He2 in Hag.
    by destruct Hag as [-> ->].
  - destruct H2 as (k1 & n1 & Hk1 & He1). rewrite (H1 k1 n1) in He1; done.
  - destruct H1 as (k1 & n1 & Hk1 & He1). rewrite (H2 k1 n1) in He1; done.
Qed.

Lemma admits_order site1 site2 r n req :
  estimates_agree (fr_TemplateID req) r →
  @admitsRequest _ R1 site1 r n req = @admitsRequest _ R2 site2 r n req.
Proof.
  intros Hag. unfold admitsRequest.
  assert (@projectedCost R1 site1 r n (fr_TemplateID req) =
          @projectedCost R2 site2 r n (fr_TemplateID req)) as ->; [|done].
  unfold projectedCost. pose proof (across_sizes site1 site2 r n _ Hag) as Hs.
  destruct (templateEstimateAcross _ _ _ _), (templateEstimateAcross _ _ _ _); try done.
  injection Hs as Hs Hu. by rewrite Hs, Hu.
Qed.

Lemma preferred_order clock r req :
  estimates_agree (fr_TemplateID req) r →
  @preferred_node _ R1 clock r req = @preferred_node _ R2 clock r req.
Proof.
  intros Hag. unfold preferred_node. case_bool_decide; [done|].
  destruct (nr_nodes r !! _); [|done]. by rewrite (admits_order "preferred/" "preferred/").
Qed.

Lemma candidates_order clock r req n :
  estimates_agree (fr_TemplateID req) r →
  n ∈ @candidates _ R1 clock r req ↔ n ∈ @candidates _ R2 clock r req.
Proof.
  intros Hag. rewrite !elem_of_candidates. unfold eligible.
  by rewrite (admits_order "admitted/" "admitted/").
Qed.

Lemma candidates_names `{!MapRange} clock r req n1 n2 :
  keys_ok r → n1 ∈ candidates clock r req → n2 ∈ candidates clock r req → ni_Name n1 = ni_Name n2 → n1 = n2.
Proof.
  intros Hk [[k1 H1] _]%elem_of_candidates [[k2 H2] _]%elem_of_candidates Heq.
  pose proof (Hk k1 n1 H1) as E1. pose proof (Hk k2 n2 H2) as E2. simpl in E1, E2. congruence.
Qed.

Lemma packBest_unique r f1 l1 f2 l2 t :
  (∀ n, n ∈ f1 :: l1 ↔ n ∈ f2 :: l2) →
  (∀ n1 n2, n1 ∈ f1 :: l1 → n2 ∈ f1 :: l1 → ni_Name n1 = ni_Name n2 → n1 = n2) →
  packBest r f1 l1 t = packBest r f2 l2 t.
Proof.
  intros Hc Hn. rewrite !packBest_keep.
  pose proof (keep_better_elem (denser r t) l1 f1). pose proof (keep_better_elem (denser r t) l2 f2).
  apply Hn; [done|by apply Hc|].
  apply (denser_tie r t); apply keep_better_best; (done || apply _ || by apply Hc).
Qed.

Lemma refusal_unique clock r req e1 e2 :
  refusal clock r req e1 → refusal clock r req e2 → e1 = e2.
Proof.
  assert (∀ P, some_live (clock "scan") r P → nr_nodes r ≠ ∅) as Hl.
  { intros P (k & n & Hk & ? & ?) He. by rewrite He in Hk. }
  assert (¬ (0 < fr_GPUCount req ∧ fr_GPUCount req ≤ 0)) as Hg by lia.
  pose proof (Hl (λ _, true)). clear Hl. destruct e1, e2; simpl; try done; tauto.
Qed.

(** The outcome of a selection, the node or the error, does not depend on the
    order in which the registry is ranged over, provided the nodes that report a
    memory estimate for the template agree on it. *)
Theorem select_order_independent clock r req :
  keys_ok r → estimates_agree (fr_TemplateID req) r →
  @SelectNodeForFork _ R1 clock r req = @SelectNodeForFork _ R2 clock r req.
Proof.
  intros Hk Hag.
  pose proof (@select_cases _ R1 clock r req) as H1. pose proof (@select_cases _ R2 clock r req) as H2.
  rewrite (preferred_order clock r req Hag) in H1.
  pose proof (λ n, candidates_order clock r req n Hag) as Hc.
  destruct (@SelectNodeForFork _ R1 clock r req) as [n1|e1],
    (@SelectNodeForFork _ R2 clock r req) as [n2|e2].
  - f_equal. destruct H1 as [H1|(H1 & f1 & l1 & E1 & ->)], H2 as [H2|(H2 & f2 & l2 & E2 & ->)];
      [congruence..|].
    pose proof (λ n1 n2, @candidates_names R1 clock r req n1 n2 Hk) as Hn.
    rewrite E1 in Hn, Hc. rewrite E2 in Hc. by apply packBest_unique.
  - destruct H1 as [H1|(H1 & f1 & l1 & E1 & ->)], H2 as (H2 & E2 & _); [congruence|].
    rewrite E1, E2 in Hc. specialize (Hc f1). set_solver.
  - destruct H2 as [H2|(H2 & f2 & l2 & E2 & ->)], H1 as (H1 & E1 & _); [congruence|].
    rewrite E1, E2 in Hc. specialize (Hc f2). set_solver.
  - f_equal. destruct H1 as (_ & _ & ?), H2 as (_ & _ & ?). by eapply refusal_unique.
Qed.

End order.

(** ** The isolation floor *)

Lemma assurance_hardware t : assurance IsolationTierHardwareKVM ≤ assurance t → t = IsolationTierHardwareKVM.
Proof. unfold assurance. repeat case_bool_decide; subst; simpl; done. Qed.

Lemma assurance_floor minTier hw :
  assurance (normalizeTier minTier) ≤ assurance (MinIsolationTierFromSpec minTier hw) ∧
  (hw = true → MinIsolationTierFromSpec minTier hw = IsolationTierHardwareKVM).
Proof.
  unfold MinIsolationTierFromSpec. destruct hw; simpl; [|done].
  unfold normalizeTier. repeat case_bool_decide; subst; done.
Qed.

Lemma meets_assurance t min : meets t min = true → assurance min ≤ assurance t.
Proof.
  unfold meets. case_bool_decide; [|lia]. subst. intros _. change (assurance "") with 0.
  unfold assurance. repeat case_bool_decide; done.
Qed.

(** The floor of a pool is respected.  A selection for the floor that
    [MinIsolationTierFromSpec] derives from a pool returns a node whose tier is at
    least the pool's explicit minimum, and exactly hardware KVM when the pool requires
    it, whatever the explicit minimum says. *)
Theorem select_floor `{!GoPlatform, !MapRange} clock r req minTier hw n :
  fr_MinIsolationTier req = MinIsolationTierFromSpec minTier hw →
  SelectNodeForFork clock r req = Ok n →
  assurance (normalizeTier minTier) ≤ assurance (ni_IsolationTier n) ∧
  (hw = true → ni_IsolationTier n = IsolationTierHardwareKVM).
Proof.
  intros Hf Hs. pose proof (select_cases clock r req) as Hc. rewrite Hs in Hc.
  assert (∃ site, admitsRequest site r n req = true) as [site Ha].
  { destruct Hc as [(_ & _ & _ & Ha)%preferred_node_spec|(_ & f & l & Hl & ->)]; [eauto|].
    exists "admitted/". eapply elem_of_candidates. rewrite Hl, packBest_keep. apply keep_better_elem. }
  apply admits_room in Ha as (_ & _ & _ & Hm & _). apply meets_assurance in Hm. rewrite Hf in Hm.
  destruct (assurance_floor minTier hw) as [Hmin Hhw]. split; [lia|].
  intros ->. apply assurance_hardware. by rewrite Hhw in Hm.
Qed.

(** ** Concrete registries *)

Definition ex_node (name : string) (total used : Z) (tier : IsolationTier) (snapshots : list string)
    (ests : list TemplateCapacity) (heartbeat : Z) : NodeInfo :=
  {| ni_Name := name; ni_Endpoint := name +:+ ":9090"; ni_HTTPEndpoint := name +:+ ":8080";
     ni_CASEndpoint := name +:+ ":9443"; ni_ActiveSandboxes := 1; ni_MaxSandboxes := 100;
     ni_MemoryTotal := total; ni_MemoryUsed := used; ni_DiskTotal := 1000; ni_DiskFree := 500;
     ni_GPUTotal := 0; ni_GPUUsed := 0; ni_GPUType := ""; ni_IsolationTier := tier;
     ni_TemplateIDs := snapshots; ni_SnapshotIDs := []; ni_TemplateDigests := ∅;
     ni_TemplateEstimates := list_to_map ((λ e, (tc_TemplateID e, e)) <$> ests);
     ni_LastHeartbeat := heartbeat; ni_probeFailures := 0; ni_TLS := true; ni_conn := None |}.

Definition ex_est (shared unique forks : Z) : TemplateCapacity :=
  {| tc_TemplateID := "py"; tc_SnapshotDigest := "d"; tc_SharedOnceBytes := shared;
     tc_AvgForkUniqueBytes := unique; tc_ForkCount := forks |}.

Definition ex_reg (l : list NodeInfo) : NodeRegistry :=
  {| nr_nodes := list_to_map ((λ n, (ni_Name n, n)) <$> l); nr_TLS := true;
     nr_overcommitFactor := of_int 1; nr_closed := [] |}.

Definition ex_req (tier : IsolationTier) : ForkRequest :=
  {| fr_TemplateID := "py"; fr_PreferredNode := ""; fr_MemoryBytes := 1000; fr_GPUCount := 0;
     fr_GPUType := ""; fr_MinIsolationTier := tier |}.

Definition gib : Z := 2 ^ 30.

(** Two warm nodes, the second with more forks, and an empty one. *)
Definition ex_warm : NodeRegistry :=
  ex_reg [ex_node "a" (4 * gib) 0 "hardware-kvm" ["py"] [ex_est gib 1000 2] (100 * second);
          ex_node "b" (4 * gib) gib "pvm" ["py"] [ex_est gib 1000 5] (100 * second);
          ex_node "c" (8 * gib) 0 "" [] [] (100 * second)].

Definition ex_clock (site : string) (n : NodeInfo) : Z := 110 * second.
Definition late_clock (site : string) (n : NodeInfo) : Z := 901 * second.

(** One node, at its ceiling of a hundred sandboxes and with all its memory free: the error
    is the one for memory. *)
Definition ex_full : NodeInfo :=
  let n := ex_node "a" (64 * gib) 0 "" ["py"] [] (100 * second) in
  {| ni_Name := ni_Name n; ni_Endpoint := ni_Endpoint n; ni_HTTPEndpoint := ni_HTTPEndpoint n; ni_CASEndpoint := ni_CASEndpoint n;
     ni_ActiveSandboxes := 100; ni_MaxSandboxes := 100; ni_MemoryTotal := ni_MemoryTotal n; ni_MemoryUsed := ni_MemoryUsed n;
     ni_DiskTotal := ni_DiskTotal n; ni_DiskFree := ni_DiskFree n; ni_GPUTotal := ni_GPUTotal n; ni_GPUUsed := ni_GPUUsed n;
     ni_GPUType := ni_GPUType n; ni_IsolationTier := ni_IsolationTier n; ni_TemplateIDs := ni_TemplateIDs n;
     ni_SnapshotIDs := ni_SnapshotIDs n; ni_TemplateDigests := ni_TemplateDigests n; ni_TemplateEstimates := ni_TemplateEstimates n;
     ni_LastHeartbeat := ni_LastHeartbeat n; ni_probeFailures := ni_probeFailures n; ni_TLS := ni_TLS n; ni_conn := ni_conn n |}.

Example ceiling_reported_as_memory :
  SelectNodeForFork ex_clock (ex_reg [ex_full]) (ex_req "") = Err ENoCapacityMemory ∧
  available (ex_reg [ex_full]) ex_full = Some (64 * gib) ∧ fr_MemoryBytes (ex_req "") = 1000.
Proof. split_and!; vm_compute; reflexivity. Qed.

(** Ranging in the opposite order is another implementation. *)
Definition rev_map_range : MapRange := {|
  map_range K A _ _ site m := reverse (map_to_list m);
  map_range_perm K A _ _ site m := reverse_Permutation (map_to_list m);
|}.

Lemma select_packs_witness :
  let b := ex_node "b" (4 * gib) gib "pvm" ["py"] [ex_est gib 1000 5] (100 * second) in
  preferred_ok ex_clock ex_warm (ex_req "") b ∨
  (∀ p, ¬ preferred_ok ex_clock ex_warm (ex_req "") p) ∧
  ∀ m, eligible ex_clock ex_warm (ex_req "") "admitted/" m →
    denser ex_warm "py" m b = false ∧ packTier m "py" ≤ packTier b "py".
Proof. apply (select_packs ex_clock ex_warm (ex_req "")). vm_compute. reflexivity. Defined.

Lemma select_order_independent_witness :
  @SelectNodeForFork _ list_map_range ex_clock ex_warm (ex_req "pvm") =
  @SelectNodeForFork _ rev_map_range ex_clock ex_warm (ex_req "pvm").
Proof. apply (select_order_independent list_map_range rev_map_range); by_eval. Defined.

Lemma select_floor_witness :
  assurance (normalizeTier "gvisor") ≤ assurance "hardware-kvm" ∧
  (true = true → ("hardware-kvm" : IsolationTier) = IsolationTierHardwareKVM).
Proof.
  apply (select_floor ex_clock ex_warm (ex_req "hardware-kvm") "gvisor" true
    (ex_node "a" (4 * gib) 0 "hardware-kvm" ["py"] [ex_est gib 1000 2] (100 * second))).
  - reflexivity.
  - vm_compute. reflexivity.
Defined.

(** Two long-dead nodes that disagree on the size of the template, and a live node
    that has never run it. *)
Definition ex_stale : NodeRegistry :=
  ex_reg [ex_node "a" gib 0 "" ["py"] [ex_est 1000 1000 1] (100 * second);
          ex_node "b" gib 0 "" ["py"] [ex_est (4 * gib) 1000 1] (100 * second);
          ex_node "c" (2 * gib) 0 "" [] [] (900 * second)].

(** Without that agreement the outcome does depend on the order of the range, and
    on the reports of dead nodes: the same request on the same registry is placed or
    refused according to which dead node's estimate is found first. *)
Theorem select_order_dependent :
  @SelectNodeForFork _ list_map_range late_clock ex_stale (ex_req "") ≠
  @SelectNodeForFork _ rev_map_range late_clock ex_stale (ex_req "") ∧
  isHealthy (901 * second) (ex_node "a" gib 0 "" ["py"] [ex_est 1000 1000 1] (100 * second)) = false ∧
  isHealthy (901 * second) (ex_node "b" gib 0 "" ["py"] [ex_est (4 * gib) 1000 1] (100 * second)) = false.
Proof. split_and!; [|by_eval..]. vm_compute. discriminate. Qed.

End SchedulerTheorems.
