(* ===== verification/RegistryTheorems.v ===== *)
(** * The node registry's life cycle and node discovery: theorems

    The registry as a state machine over its operations: every entry is filed under
    its own name, and every dialed connection is either held by exactly one entry or
    closed exactly once.  What [PruneStale], [TemplateSource] and a discovery pass
    compute. *)

From S2P Require Import Prelude GoFloat Scheduler SchedulerTheorems.
Import GoFloat Tier Registry Discovery SchedulerTheorems.

Module RegistryTheorems.

(** ** Pruning *)

Definition stale (now maxAge : Z) (n : NodeInfo) : bool :=
  maxAge <=? time_sub now (ni_LastHeartbeat n).

Definition unregister_all (names : list string) (r : NodeRegistry) : NodeRegistry :=
  foldl (λ r name, Unregister name r) r names.

Lemma close_nodes c r : nr_nodes (close c r) = nr_nodes r.
Proof. by destruct c. Qed.

Lemma Unregister_nodes name r : nr_nodes (Unregister name r) = delete name (nr_nodes r).
Proof.
  unfold Unregister. destruct (nr_nodes r !! name) as [n|] eqn:E; simpl.
  - by rewrite close_nodes.
  - by rewrite delete_id.
Qed.

Lemma unregister_all_nodes names r k :
  nr_nodes (unregister_all names r) !! k =
  if bool_decide (k ∈ names) then None else nr_nodes r !! k.
Proof.
  revert r. induction names as [|x names IH]; intros r; simpl; [done|].
  rewrite IH, Unregister_nodes. destruct (decide (k = x)) as [->|Hne].
  - rewrite (bool_decide_true (x ∈ x :: names)) by set_solver.
    rewrite lookup_delete_eq. by case_bool_decide.
  - rewrite lookup_delete_ne by done.
    rewrite (bool_decide_ext (k ∈ x :: names) (k ∈ names)) by set_solver. done.
Qed.

Section registry.
Context `{!MapRange}.

Definition stale_names (now maxAge : Z) (r : NodeRegistry) : list string :=
  (filter (λ kn, stale now maxAge kn.2 = true) (map_range "PruneStale" (nr_nodes r))).*1.

Lemma prune_loop now maxAge l p r :
  NoDup l.*1 → (∀ k n, (k, n) ∈ l → nr_nodes r !! k = Some n) →
  let names := (filter (λ kn, stale now maxAge kn.2 = true) l).*1 in
  foldl (λ '(pruned, r') '(name, node),
    if maxAge <=? time_sub now (ni_LastHeartbeat node)
    then (pruned + 1, set_nodes (delete name) (close (ni_conn node) r'))
    else (pruned, r')) (p, r) l = (p + Z.of_nat (length names), unregister_all names r).
Proof.
  revert p r. induction l as [|[k n] l IH]; intros p r Hnd Hl; [f_equal/=; lia|].
  apply NoDup_cons in Hnd as [Hk Hnd]. simpl. fold (stale now maxAge n).
  rewrite filter_cons. simpl. destruct (stale now maxAge n) eqn:Hs.
  - rewrite decide_True by done. rewrite IH; [|done|].
    + simpl. assert (Unregister k r = set_nodes (delete k) (close (ni_conn n) r)) as ->.
      { unfold Unregister. by rewrite (Hl k n) by set_solver. }
      unfold fmap. f_equal. lia.
    + intros k' n' Hin. simpl. rewrite close_nodes, lookup_delete_ne; [apply Hl; set_solver|].
      intros ->. apply Hk. apply list_elem_of_fmap. by exists (k', n').
  - rewrite decide_False by done. apply IH; [done|]. intros. apply Hl. set_solver.
Qed.

Lemma prune_unregister now maxAge r :
  PruneStale now maxAge r =
  (Z.of_nat (length (stale_names now maxAge r)), unregister_all (stale_names now maxAge r) r).
Proof.
  unfold PruneStale. rewrite prune_loop; [done| |].
  - rewrite map_range_perm. apply NoDup_fst_map_to_list.
  - intros k n. by rewrite elem_of_map_range.
Qed.

Lemma elem_of_stale_names now maxAge r k :
  k ∈ stale_names now maxAge r ↔ ∃ n, nr_nodes r !! k = Some n ∧ stale now maxAge n = true.
Proof.
  unfold stale_names. rewrite list_elem_of_fmap. split.
  - intros ([k' n] & -> & [Hs Hin]%list_elem_of_filter). exists n. by rewrite elem_of_map_range in Hin.
  - intros (n & Hk & Hs). exists (k, n). by rewrite list_elem_of_filter, elem_of_map_range.
Qed.

Lemma prune_nodes now maxAge r k n :
  nr_nodes (PruneStale now maxAge r).2 !! k = Some n ↔
  nr_nodes r !! k = Some n ∧ stale now maxAge n = false.
Proof.
  rewrite prune_unregister. simpl. rewrite unregister_all_nodes. case_bool_decide as Hk.
  - apply elem_of_stale_names in Hk as (m & Hm & Hs). split; [done|]. intros [? ?]. congruence.
  - rewrite elem_of_stale_names in Hk. split; [|naive_solver].
    intros Hn. split; [done|]. destruct (stale now maxAge n) eqn:E; [|done]. naive_solver.
Qed.

Lemma NoDup_filter_keys {A} (P : string * A → Prop) `{!∀ x, Decision (P x)} l :
  NoDup l.*1 → NoDup (filter P l).*1.
Proof.
  induction l as [|[k x] l IH]; [done|]. intros [Hk Hl]%NoDup_cons. rewrite filter_cons.
  case_decide; [|auto]. simpl. apply NoDup_cons. split; [|auto].
  intros ([k' y] & -> & [_ Hin]%list_elem_of_filter)%list_elem_of_fmap. apply Hk.
  apply list_elem_of_fmap. by exists (k', y).
Qed.

(** [PruneStale] removes exactly the nodes whose last heartbeat is at least
    [maxAge] old, leaves the others as they are, and returns how many it removed. *)
Theorem prune_exact now maxAge r :
  nr_nodes (PruneStale now maxAge r).2 =
    filter (λ kn, time_sub now (ni_LastHeartbeat kn.2) < maxAge) (nr_nodes r) ∧
  (PruneStale now maxAge r).1 =
    Z.of_nat (size (filter (λ kn, maxAge ≤ time_sub now (ni_LastHeartbeat kn.2)) (nr_nodes r))).
Proof.
  split.
  - apply map_eq. intros k. apply option_eq. intros n.
    rewrite prune_nodes, map_lookup_filter_Some. unfold stale. simpl. by rewrite Z.leb_gt.
  - rewrite prune_unregister. simpl. f_equal. unfold stale_names. rewrite length_fmap.
    rewrite <- length_map_to_list, map_filter_alt. apply Permutation_length.
    rewrite map_range_perm, map_to_list_to_map by apply NoDup_filter_keys, NoDup_fst_map_to_list.
    apply Permutation_refl', list_filter_iff. intros [k n]. unfold stale. simpl. by rewrite Z.leb_le.
Qed.

(** ** The life cycle of connections *)

Definition held (r : NodeRegistry) (k : string) (c : Z) : Prop :=
  ∃ n, nr_nodes r !! k = Some n ∧ ni_conn n = Some c.

(** [opened] is the set of the connections dialed so far. *)
Record conns_ok (opened : gset Z) (r : NodeRegistry) : Prop := {
  co_keys : keys_ok r;
  co_opened c : c ∈ opened ↔ (∃ k, held r k c) ∨ c ∈ nr_closed r;
  co_live k c : held r k c → c ∉ nr_closed r;
  co_once : NoDup (nr_closed r);
  co_one k1 k2 c : held r k1 c → held r k2 c → k1 = k2;
}.

(** The operations on a registry; [Register] is called with a node that has not been
    dialed, and a dial opens a new connection. *)
Inductive op :=
| OpRegister (now : Z) (info : NodeInfo)
| OpUnregister (name : string)
| OpAddTemplate (nodeName templateID digest : string)
| OpSetMemory (name : string) (total used : Z)
| OpSetOvercommit (f : float64)
| OpPrune (now maxAge : Z)
| OpConnect (name : string) (dial : string → bool → option Z).

Inductive step : gset Z * NodeRegistry → op → gset Z * NodeRegistry → Prop :=
| st_register o r now info :
    ni_conn info = None → step (o, r) (OpRegister now info) (o, Register now info r)
| st_unregister o r name : step (o, r) (OpUnregister name) (o, Unregister name r)
| st_add_template o r n t d :
    step (o, r) (OpAddTemplate n t d) (o, AddTemplateWithDigest n t d r)
| st_memory o r n t u : step (o, r) (OpSetMemory n t u) (o, SetNodeMemory n t u r)
| st_overcommit o r f : step (o, r) (OpSetOvercommit f) (o, SetOvercommitFactor f r)
| st_prune o r now a : step (o, r) (OpPrune now a) (o, (PruneStale now a r).2)
| st_connect o r name dial c r' :
    (∀ e t c', dial e t = Some c' → c' ∉ o) →
    GetConnection name dial r = (c, r') →
    step (o, r) (OpConnect name dial) (match c with Some c => {[c]} ∪ o | None => o end, r').

Lemma conns_ok_same o r r' :
  conns_ok o r → keys_ok r' → nr_closed r' = nr_closed r → (∀ k c, held r' k c ↔ held r k c) →
  conns_ok o r'.
Proof.
  intros [? Ho Hl Hn H1] ? Hc Hh. split; rewrite ?Hc; [done| | |done|].
  - intros c. rewrite Ho. by setoid_rewrite Hh.
  - intros k c ?%Hh. eauto.
  - intros k1 k2 c ?%Hh ?%Hh. eauto.
Qed.

Lemma conns_ok_close o r r' name c :
  conns_ok o r → keys_ok r' → held r name c → nr_closed r' = c :: nr_closed r →
  (∀ k c, held r' k c ↔ held r k c ∧ k ≠ name) → conns_ok o r'.
Proof.
  intros [? Ho Hl Hn H1] ? Hc Hcl Hh. split; rewrite ?Hcl; [done|..].
  - intros c'. rewrite Ho. setoid_rewrite Hh. split.
    + intros [[k Hk]|?]; [|set_solver]. destruct (decide (k = name)) as [->|]; [|eauto].
      right. destruct Hk as (n1 & ? & ?), Hc as (n2 & ? & ?). simplify_eq. set_solver.
    + intros [(k & ? & ?)|[->|?]%elem_of_cons]; eauto.
  - intros k c' [Hk Hne]%Hh. apply not_elem_of_cons. split; [|eauto].
    intros ->. apply Hne. eauto.
  - apply NoDup_cons. split; [eauto|done].
  - intros k1 k2 c' [? _]%Hh [? _]%Hh. eauto.
Qed.

Lemma conns_ok_open o r r' name c :
  conns_ok o r → keys_ok r' → c ∉ o → (∀ c, ¬ held r name c) → nr_closed r' = nr_closed r →
  (∀ k c', held r' k c' ↔ held r k c' ∨ k = name ∧ c' = c) → conns_ok ({[c]} ∪ o) r'.
Proof.
  intros [? Ho Hl Hn H1] ? Hc Hno Hcl Hh. split; rewrite ?Hcl; [done| | |done|].
  - intros c'. rewrite elem_of_union, elem_of_singleton, Ho. setoid_rewrite Hh. naive_solver.
  - intros k c' [?|[-> ->]]%Hh; [eauto|]. intros ?. apply Hc, Ho. auto.
  - intros k1 k2 c' [?|[-> ->]]%Hh [?|[-> ?]]%Hh; subst; [eauto| | |done];
      destruct Hc; apply Ho; eauto.
Qed.

Lemma held_insert r k0 n k c :
  held (set_nodes <[k0 := n]> r) k c ↔ (if decide (k = k0) then ni_conn n = Some c else held r k c).
Proof.
  unfold held. simpl. destruct (decide (k = k0)) as [->|].
  - rewrite lookup_insert_eq. naive_solver.
  - rewrite lookup_insert_ne by done. done.
Qed.

Lemma keys_ok_insert r k n : keys_ok r → ni_Name n = k → keys_ok (set_nodes <[k := n]> r).
Proof. intros. by apply map_Forall_insert_2. Qed.

Lemma held_same r k0 n n' k c :
  nr_nodes r !! k0 = Some n → ni_conn n' = ni_conn n →
  held (set_nodes <[k0 := n']> r) k c ↔ held r k c.
Proof.
  intros Hn Hc. rewrite held_insert. destruct (decide (k = k0)) as [->|]; [|done].
  unfold held. rewrite Hn, Hc. naive_solver.
Qed.

Lemma map_alter_None {A} (f : A → A) k (m : gmap string A) : m !! k = None → alter f k m = m.
Proof.
  intros Hk. apply map_eq. intros i. destruct (decide (i = k)) as [->|].
  - by rewrite lookup_alter_eq, Hk.
  - by rewrite lookup_alter_ne.
Qed.

Lemma held_close c0 r k c : held (close c0 r) k c ↔ held r k c.
Proof. unfold held. by rewrite close_nodes. Qed.

Lemma keys_ok_close c r : keys_ok (close c r) ↔ keys_ok r.
Proof. unfold keys_ok. by rewrite close_nodes. Qed.

Lemma Unregister_ok o r name : conns_ok o r → conns_ok o (Unregister name r).
Proof.
  intros Hok. pose proof (Unregister_nodes name r) as Hn.
  assert (keys_ok (Unregister name r)) as Hk'.
  { unfold keys_ok. rewrite Hn. apply map_Forall_delete, Hok. }
  assert (∀ k c, held (Unregister name r) k c ↔ held r k c ∧ k ≠ name) as Hh.
  { intros k c. unfold held. rewrite Hn. destruct (decide (k = name)) as [->|].
    - rewrite lookup_delete_eq. naive_solver.
    - rewrite lookup_delete_ne by done. naive_solver. }
  destruct (nr_nodes r !! name) as [n|] eqn:E; [destruct (ni_conn n) as [c|] eqn:Ec|].
  - apply (conns_ok_close o r _ name c Hok Hk'); [by exists n| |done].
    unfold Unregister. by rewrite E, Ec.
  - apply (conns_ok_same o r _ Hok Hk'); [unfold Unregister; by rewrite E, Ec|].
    intros k c. rewrite Hh. split; [naive_solver|]. intros Hc. split; [done|]. intros ->.
    destruct Hc as (m & ? & ?). congruence.
  - unfold Unregister. by rewrite E.
Qed.

Lemma Register_ok o r now info :
  ni_conn info = None → conns_ok o r → conns_ok o (Register now info r).
Proof.
  intros Hi Hok. unfold Register. rewrite Hi, (bool_decide_true (None = None)) by done.
  assert (∀ r' c n, keys_ok r' → keys_ok (set_nodes <[ni_Name info := with_conn c n info]> r')) as Hk
    by (intros; by apply keys_ok_insert).
  destruct (nr_nodes r !! ni_Name info) as [old|] eqn:E; [destruct (ni_conn old) as [c|] eqn:Ec|].
  - rewrite andb_true_r. case_bool_decide.
    + apply (conns_ok_same o r); [done|apply Hk, Hok|done|].
      intros k c'. eapply held_same; [done|]. by rewrite Ec.
    + eapply (conns_ok_close o r _ (ni_Name info) c); [done| |by exists old|done|].
      * apply Hk, keys_ok_close, Hok.
      * cbv beta iota. intros k c'. rewrite held_insert. case_decide; [naive_solver|].
        rewrite held_close. naive_solver.
  - apply (conns_ok_same o r); [done|apply Hk, Hok|done|].
    intros k c'. eapply held_same; [done|]. by rewrite Ec.
  - apply (conns_ok_same o r); [done|apply Hk, Hok|done|].
    cbv beta iota. intros k c'. rewrite held_insert. case_decide; [|done]. subst. simpl.
    split; [done|]. intros (n & ? & ?). congruence.
Qed.

Lemma GetConnection_ok o r name dial c r' :
  (∀ e t c', dial e t = Some c' → c' ∉ o) → GetConnection name dial r = (c, r') →
  conns_ok o r → conns_ok (match c with Some c => {[c]} ∪ o | None => o end) r'.
Proof.
  unfold GetConnection. intros Hd Hg Hok.
  destruct (nr_nodes r !! name) as [n|] eqn:E; [|by simplify_eq].
  destruct (ni_conn n) as [c0|] eqn:Ec.
  { simplify_eq. assert (c0 ∈ o) by (apply (co_opened _ _ Hok); left; by exists name, n).
    by assert ({[c0]} ∪ o = o) as -> by set_solver. }
  destruct (dial _ _) as [c0|] eqn:Ed; [|by simplify_eq]. simplify_eq.
  eapply (conns_ok_open o r _ name c0); [done| |by eapply Hd| |done|].
  - apply keys_ok_insert; [apply Hok|]. exact (co_keys _ _ Hok name n E).
  - intros c (m & ? & ?). congruence.
  - intros k c. rewrite held_insert. case_decide; subst; simpl; [|naive_solver].
    split; [naive_solver|]. intros [(m & ? & ?)|[_ ->]]; congruence.
Qed.

Lemma step_ok s a s' : step s a s' → conns_ok s.1 s.2 → conns_ok s'.1 s'.2.
Proof.
  destruct 1; simpl; intros Hok.
  - by apply Register_ok.
  - by apply Unregister_ok.
  - unfold AddTemplateWithDigest. destruct (nr_nodes r !! n) as [node|] eqn:E; [|done].
    eapply (conns_ok_same o r); [done| |done|intros; by eapply held_same].
    apply keys_ok_insert; [apply Hok|]. exact (co_keys _ _ Hok n node E).
  - unfold SetNodeMemory. destruct (nr_nodes r !! n) as [node|] eqn:E.
    + assert (set_nodes (alter (with_memory t u) n) r = set_nodes <[n := with_memory t u node]> r) as ->.
      { unfold set_nodes. f_equal. by rewrite <- (insert_id _ _ _ E), alter_insert_eq, insert_insert_eq. }
      eapply (conns_ok_same o r); [done| |done|intros; by eapply held_same].
      apply (keys_ok_insert r); [apply Hok|]. exact (co_keys _ _ Hok n node E).
    + unfold set_nodes. rewrite (map_alter_None _ _ _ E). by destruct r.
  - unfold SetOvercommitFactor. case_match; [done|]. by apply (conns_ok_same o r); [|apply Hok|..].
  - rewrite prune_unregister. simpl. generalize (stale_names now a r). intros l. revert r Hok.
    induction l as [|k l IH]; intros r Hok; [done|]. simpl. by apply IH, Unregister_ok.
  - by eapply GetConnection_ok.
Qed.

Inductive reachable : gset Z * NodeRegistry → Prop :=
| reach_new : reachable (∅, NewNodeRegistry)
| reach_step s o s' : reachable s → step s o s' → reachable s'.

(** In every reachable state of the registry, each entry is filed under its own
    name, each connection ever dialed is either held by exactly one entry or has been
    closed, no connection is closed twice, and none that an entry holds (and so
    [GetConnection] returns) has been closed. *)
Theorem registry_connections s : reachable s → conns_ok s.1 s.2.
Proof.
  induction 1 as [|s o s' _ IH Hs]; [|by eapply step_ok].
  split; simpl; [apply map_Forall_empty| | |constructor|]; unfold held; simpl;
    repeat setoid_rewrite lookup_empty; set_solver.
Qed.

(** ** The holder to pull a template from *)

(** A live holder with a reported digest and a CAS endpoint. *)
Definition source_ok (now : Z) (t : string) (n : NodeInfo) (d : string) : Prop :=
  isHealthy now n = true ∧ hasSnapshot n t = true ∧ default "" (ni_TemplateDigests n !! t) = d ∧
  d ≠ "" ∧ ni_CASEndpoint n ≠ "".

Lemma source_step_cases now t best n :
  source_step now t best n = best ∧ (∀ d, ¬ source_ok now t n d) ∨
  ∃ d, source_ok now t n d ∧
    match best with
    | Some (b, _) => source_step now t best n = if str_ltb (ni_Name n) (ni_Name b) then Some (n, d) else best
    | None => source_step now t best n = Some (n, d)
    end.
Proof.
  unfold source_step, source_ok, holds.
  destruct (isHealthy now n); simpl; [|left; naive_solver].
  destruct (hasSnapshot n t); simpl; [|left; naive_solver].
  do 2 case_bool_decide; simpl; [left; naive_solver..|].
  right. eexists. split; [eauto|]. by destruct best as [[??]|].
Qed.

Lemma source_loop now t l best :
  match foldl (source_step now t) best l with
  | Some (n, d) =>
      (best = Some (n, d) ∨ n ∈ l ∧ source_ok now t n d) ∧
      (∀ m d', m ∈ l → source_ok now t m d' → str_ltb (ni_Name m) (ni_Name n) = false) ∧
      (∀ b d', best = Some (b, d') → str_ltb (ni_Name b) (ni_Name n) = false)
  | None => best = None ∧ ∀ m d', m ∈ l → ¬ source_ok now t m d'
  end.
Proof.
  revert best. induction l as [|x l IH]; intros best; simpl.
  { destruct best as [[b d]|]; [|set_solver]. split_and!; [auto|set_solver|].
    intros ? ? [= -> ->]. apply sw_irrefl. }
  specialize (IH (source_step now t best x)).
  destruct (foldl _ _ l) as [[n d]|], (source_step_cases now t best x) as [[Hs Hx]|(dx & Hx & Hs)].
  - rewrite Hs in IH. destruct IH as (H1 & H2 & H3). split_and!; [set_solver| |done].
    intros m d' [->|?]%elem_of_cons Hm; [by destruct (Hx d')|eauto].
  - destruct IH as (H1 & H2 & H3). destruct best as [[b db]|].
    + destruct (str_ltb (ni_Name x) (ni_Name b)) eqn:Hlt; rewrite Hs in H1, H3; split_and!.
      * destruct H1 as [[= -> ->]|?]; set_solver.
      * intros m d' [->|?]%elem_of_cons Hm; eauto.
      * intros b' d' [= <- <-]. eapply (sw_incomp _ (ni_Name x)); [|by eapply H3].
        destruct (str_ltb (ni_Name b) (ni_Name x)) eqn:E; [|done].
        rewrite <- (sw_irrefl (less := str_ltb) (ni_Name x)). symmetry. by eapply sw_trans.
      * destruct H1; set_solver.
      * intros m d' [->|?]%elem_of_cons Hm; [|by eauto]. eapply sw_incomp; [done|by eapply H3].
      * intros b' d' [= <- <-]. eauto.
    + rewrite Hs in H1, H3. split_and!; [|intros m d' [->|?]%elem_of_cons Hm; eauto|done].
      destruct H1 as [[= -> ->]|?]; set_solver.
  - rewrite Hs in IH. destruct IH as [-> IH]. split; [done|].
    intros m d' [->|?]%elem_of_cons; [auto|eauto].
  - destruct IH as [IH _]. rewrite IH in Hs. destruct best as [[b db]|]; [case_match|]; done.
Qed.

(** [TemplateSource] names the live holder to pull a template from: one with a
    reported digest and a CAS endpoint, the first by name among those, with its URL and
    its own digest; it returns nothing exactly when there is none. *)
Theorem template_source_correct now t r :
  match TemplateSource now t r with
  | Some (n, url, d) =>
      (∃ k, nr_nodes r !! k = Some n) ∧ source_ok now t n d ∧
      url = "https://" +:+ ni_CASEndpoint n +:+ "/cas" ∧
      ∀ k m d', nr_nodes r !! k = Some m → source_ok now t m d' →
        str_ltb (ni_Name m) (ni_Name n) = false
  | None => ∀ k m d, nr_nodes r !! k = Some m → ¬ source_ok now t m d
  end.
Proof.
  unfold TemplateSource.
  pose proof (source_loop now t (map_range "TemplateSource" (nr_nodes r)).*2 None) as Hl.
  destruct (foldl _ _ _) as [[n d]|]; setoid_rewrite elem_of_range_snd in Hl;
    [|destruct Hl as [_ Hl]; eauto].
  destruct Hl as ([?|[Hin Hok]] & Hmin & _); [done|].
  split_and!; [done|done| |eauto].
  unfold casBaseURL. by rewrite bool_decide_false by apply Hok.
Qed.

(** ** Discovery *)

Context `{!GoPlatform}.
Context (grpcPort httpPort casPort : Z) (tls : bool).

Abbreviation sync_pod := (sync_pod grpcPort httpPort casPort tls).
Abbreviation sync := (sync grpcPort httpPort casPort tls).

Lemma Register_nodes now info r :
  ∃ conn, nr_nodes (Register now info r) = <[ni_Name info := with_conn conn now info]> (nr_nodes r).
Proof.
  unfold Register. destruct (match _ with Some _ => _ | None => _ end) as [c r'] eqn:E.
  assert (nr_nodes r' = nr_nodes r) as Hr by (repeat case_match; simplify_eq; done).
  exists c. simpl. by rewrite Hr.
Qed.

(** A discovery pass files the pod's node under its name, with the probe's count. *)
Lemma sync_pod_lookup now probe r pod info :
  NodeInfoFromPod pod grpcPort httpPort casPort = Some info →
  ∃ conn, nr_nodes (sync_pod now probe r pod) !! pod_NodeName pod =
    Some (with_conn conn now (with_probe_failures
      (match probe (ni_Endpoint info) with
       | Some _ => 0 | None => priorProbeFailures (pod_NodeName pod) r + 1 end)
      (refreshCapacity (probe (ni_Endpoint info)) (with_tls tls info)).1)).
Proof.
  intros Hi. unfold Discovery.sync_pod. rewrite Hi.
  assert (ni_Name info = pod_NodeName pod) as Hn.
  { unfold NodeInfoFromPod in Hi. repeat case_match; by simplify_eq. }
  destruct (probe (ni_Endpoint info)); simpl; rewrite Hn;
    match goal with |- context [Register now ?i r] => destruct (Register_nodes now i r) as [conn ->] end;
    exists conn; simpl; by rewrite ?Hn, lookup_insert_eq.
Qed.

Lemma isHealthy_fresh now n c :
  isHealthy now (with_conn c now n) = (ni_probeFailures n <? probeFailureThreshold).
Proof.
  unfold isHealthy. simpl.
  replace (time_sub now now) with 0 by (unfold time_sub; by rewrite Z.sub_diag).
  destruct (Z.leb_spec probeFailureThreshold (ni_probeFailures n)),
    (Z.ltb_spec (ni_probeFailures n) probeFailureThreshold); (done || lia).
Qed.

(** Discovery ties a node's health to its probe.  Right after a pass over a ready
    pod the node is healthy exactly when the probe answered or fewer than three probes
    in a row have failed; an answer makes it healthy whatever came before. *)
Theorem probe_decides_health now probe r pod info :
  NodeInfoFromPod pod grpcPort httpPort casPort = Some info →
  NodeHealthy now (pod_NodeName pod) (sync_pod now probe r pod) =
  match probe (ni_Endpoint info) with
  | Some _ => true
  | None => priorProbeFailures (pod_NodeName pod) r + 1 <? 3
  end.
Proof.
  intros Hi. destruct (sync_pod_lookup now probe r pod info Hi) as [conn Hl].
  unfold NodeHealthy. rewrite Hl, isHealthy_fresh. by destruct (probe _).
Qed.

(** A failed probe removes the node's limits.  When the probe of a ready pod fails
    and fewer than three in a row have failed, the node is registered healthy, with
    no capacity reported, and in this state it admits a request of any memory size. *)
Theorem failed_probe_admits_anything now probe r pod info :
  NodeInfoFromPod pod grpcPort httpPort casPort = Some info →
  probe (ni_Endpoint info) = None →
  priorProbeFailures (pod_NodeName pod) r + 1 < 3 →
  ∃ n, nr_nodes (sync_pod now probe r pod) !! pod_NodeName pod = Some n ∧ isHealthy now n = true ∧
    ∀ site req, fr_GPUCount req ≤ 0 → fr_MinIsolationTier req = "" →
      admitsRequest site (sync_pod now probe r pod) n req = true.
Proof.
  intros Hi Hp Hf. destruct (sync_pod_lookup now probe r pod info Hi) as [conn Hl].
  rewrite Hp in Hl. eexists. split; [exact Hl|]. rewrite isHealthy_fresh.
  split; [by apply Z.ltb_lt|]. intros site req Hg Ht.
  unfold NodeInfoFromPod in Hi. repeat case_match; try done. simplify_eq.
  unfold admitsRequest, admitsGPU, admitsTier, meets, available. simpl.
  rewrite (proj2 (Z.leb_le _ _) Hg), Ht. done.
Qed.

(** The registry as discovery and the controller's other calls build it. *)
Definition is_register (o : op) : bool := match o with OpRegister _ _ => true | _ => false end.

Inductive discovered : NodeRegistry → Prop :=
| disc_new : discovered NewNodeRegistry
| disc_sync r now probe pods : discovered r → discovered (sync now probe pods r)
| disc_step r a o o' r' :
    discovered r → is_register a = false → step (o, r) a (o', r') → discovered r'.

Definition undeclared (r : NodeRegistry) : Prop :=
  map_Forall (λ _ n, ni_IsolationTier n = "" ∧ ni_GPUTotal n = 0) (nr_nodes r).

Lemma undeclared_prune now a r : undeclared r → undeclared (PruneStale now a r).2.
Proof. intros Hu k n [? _]%prune_nodes. eauto. Qed.

Lemma undeclared_sync now probe pods r : undeclared r → undeclared (sync now probe pods r).
Proof.
  intros Hu. unfold Discovery.sync. destruct pods as [pods|]; [|done]. apply undeclared_prune.
  unfold syncPods. revert r Hu. induction pods as [|pod pods IH]; intros r Hu; simpl; [done|].
  apply IH. unfold Discovery.sync_pod.
  destruct (NodeInfoFromPod _ _ _ _) as [info|] eqn:Hi; [|done].
  assert (ni_IsolationTier info = "" ∧ ni_GPUTotal info = 0)
    by (unfold NodeInfoFromPod in Hi; repeat case_match; by simplify_eq).
  destruct (refreshCapacity _ _) as [info' ok] eqn:Hr.
  match goal with |- context [Register now ?i r] => destruct (Register_nodes now i r) as [conn Hn] end.
  unfold undeclared. rewrite Hn. apply map_Forall_insert_2; [|done]. simpl.
  clear Hn. unfold refreshCapacity in Hr. case_match; by simplify_eq.
Qed.

Lemma undeclared_step a o r o' r' :
  is_register a = false → step (o, r) a (o', r') → undeclared r → undeclared r'.
Proof.
  intros Ha Hs Hu. inversion Hs; subst; simpl in Ha; try done; clear Hs Ha.
  - intros k n. rewrite Unregister_nodes. intros [_ ?]%lookup_delete_Some. eauto.
  - unfold AddTemplateWithDigest. destruct (nr_nodes r !! _) as [node|] eqn:E; [|done].
    apply map_Forall_insert_2; [|done]. exact (Hu _ _ E).
  - intros k m. simpl. rewrite lookup_alter_Some. intros [(-> & m' & Hm & ->)|[_ ?]]; [|eauto].
    exact (Hu _ _ Hm).
  - unfold SetOvercommitFactor. by case_match.
  - by apply undeclared_prune.
  - match goal with H : GetConnection _ _ _ = _ |- _ => revert H end. unfold GetConnection.
    destruct (nr_nodes r !! _) as [node|] eqn:E; [|by intros [= <- <-]].
    repeat case_match; intros [= <- <-]; try done.
    apply map_Forall_insert_2; [|done]. exact (Hu _ _ E).
Qed.

(** The isolation floor and the GPU request can never be met.  In a registry that
    discovery builds, every request with a recognised isolation floor and every
    request for a GPU is refused, whatever labels the nodes carry: discovery never
    reads the node labels that declare a tier or GPUs. *)
Theorem discovered_refuses_floor_and_gpu clock r req :
  discovered r →
  0 < assurance (fr_MinIsolationTier req) ∨ 0 < fr_GPUCount req →
  is_ok (SelectNodeForFork clock r req) = false.
Proof.
  intros Hd Hreq.
  assert (undeclared r) as Hu.
  { induction Hd; [apply map_Forall_empty|by apply undeclared_sync|by eapply undeclared_step]. }
  pose proof (select_cases clock r req) as Hc. destruct (SelectNodeForFork clock r req) as [n|e]; [|done].
  assert (∃ k site, nr_nodes r !! k = Some n ∧ admitsRequest site r n req = true) as (k & site & Hk & Ha).
  { destruct Hc as [(_ & ? & _ & ?)%preferred_node_spec|(_ & f & l & Hl & ->)]; [eauto|].
    assert (packBest r f l (fr_TemplateID req) ∈ candidates clock r req) as [[k ?] [_ ?]]%elem_of_candidates
      by (rewrite Hl, packBest_keep; apply keep_better_elem). eauto. }
  destruct (Hu k n Hk) as [Ht Hg]. apply admits_room in Ha as (_ & _ & Hgpu & Hm & _).
  apply meets_assurance in Hm. rewrite Ht in Hm. change (assurance "") with 0 in Hm. lia.
Qed.

End registry.

(** ** Concrete inputs *)

Definition ex_pod (ip : string) : Pod :=
  {| pod_Phase := "Running"; pod_PodIP := ip; pod_NodeName := "node-1"; pod_Ready := [true] |}.

Definition ex_info (ip : string) : NodeInfo :=
  default (ex_node "x" 0 0 "" [] [] 0) (NodeInfoFromPod (ex_pod ip) 9090 8080 9443).

(** A node is registered, dialed, and comes back at another address. *)
Definition ex_registered : NodeRegistry := Register (10 * second) (ex_info "10.0.0.1") NewNodeRegistry.
Definition ex_dialed : NodeRegistry := (GetConnection "node-1" (λ _ _, Some 7) ex_registered).2.
Definition ex_moved : NodeRegistry := Register (20 * second) (ex_info "10.0.0.2") ex_dialed.

Lemma registry_connections_witness : conns_ok ({[7]} ∪ ∅) ex_moved ∧ nr_closed ex_moved = [7].
Proof.
  split; [|reflexivity].
  refine (registry_connections ({[7]} ∪ ∅ : gset Z, ex_moved) _).
  eapply (reach_step (_, ex_dialed)); [eapply (reach_step (_, ex_registered)); [eapply reach_step|]|].
  - apply reach_new.
  - apply (st_register ∅ NewNodeRegistry (10 * second) (ex_info "10.0.0.1")). reflexivity.
  - apply (st_connect _ _ "node-1" (λ _ _, Some 7) (Some 7)); [intros; simplify_eq; set_solver|reflexivity].
  - apply (st_register _ _ (20 * second) (ex_info "10.0.0.2")). reflexivity.
Defined.

Lemma probe_decides_health_witness :
  NodeHealthy (30 * second) "node-1"
    (sync_pod 9090 8080 9443 true (30 * second) (λ _, None) NewNodeRegistry (ex_pod "10.0.0.1")) = true.
Proof.
  apply (probe_decides_health 9090 8080 9443 true (30 * second) (λ _, None) NewNodeRegistry
    (ex_pod "10.0.0.1") (ex_info "10.0.0.1")). reflexivity.
Defined.

Lemma failed_probe_admits_anything_witness :
  let r := sync_pod 9090 8080 9443 true (30 * second) (λ _, None) NewNodeRegistry (ex_pod "10.0.0.1") in
  ∃ n, nr_nodes r !! "node-1" = Some n ∧ isHealthy (30 * second) n = true ∧
    ∀ site req, fr_GPUCount req ≤ 0 → fr_MinIsolationTier req = "" → admitsRequest site r n req = true.
Proof.
  apply (failed_probe_admits_anything 9090 8080 9443 true (30 * second) (λ _, None) NewNodeRegistry
    (ex_pod "10.0.0.1") (ex_info "10.0.0.1")); reflexivity.
Defined.

Definition ex_capacity : Capacity :=
  {| cap_ActiveSandboxes := 0; cap_MaxSandboxes := 100; cap_MemoryTotal := 2 ^ 36; cap_MemoryUsed := 0;
     cap_DiskTotal := 1000; cap_DiskFree := 900; cap_TemplateIds := ["py"]; cap_SnapshotIds := [];
     cap_TemplateDigests := ∅; cap_Templates := [] |}.

Lemma discovered_refuses_floor_and_gpu_witness :
  is_ok (SelectNodeForFork (λ _ _, 31 * second)
    (sync 9090 8080 9443 true (30 * second) (λ _, Some ex_capacity) (Some [ex_pod "10.0.0.1"])
      NewNodeRegistry) (ex_req "gvisor")) = false.
Proof.
  apply (discovered_refuses_floor_and_gpu 9090 8080 9443 true).
  - apply disc_sync, disc_new.
  - left. reflexivity.
Defined.

End RegistryTheorems.
