(* ===== verification/Suspension.v ===== *)
(** * internal/saas/quota: suspensions and the kill switch

    suspension.go, suspension_cache.go and billing_adapter.go.  What a store of
    suspensions promises is the class [LawfulStore]; the kill switch and the billing
    adapter are proved against it, and the in-memory store and the cached store
    over any lawful store discharge it.  The cached store is also modelled with its
    reads and writes interleaved with those of other replicas. *)

From S2P Require Import Prelude GoFloat Scheduler.

Module Suspension.

(** ** Data *)

Definition SuspensionReason : Type := string.
Definition ReasonManual : SuspensionReason := "manual".
Definition ReasonAbuseSignal : SuspensionReason := "abuse_signal".
Definition ReasonEmergencyStop : SuspensionReason := "emergency_stop".
Definition ReasonSpendCap : SuspensionReason := "spend_cap".
Definition ReasonDunning : SuspensionReason := "dunning".

Record Suspension := {
  s_OrgID : string;
  s_Reason : SuspensionReason;
  s_Note : string;
  s_At : Z;
  s_ManualHold : bool;
}.

#[global] Instance Suspension_eq_dec : EqDecision Suspension.
Proof. solve_decision. Defined.

Definition zero_suspension : Suspension :=
  {| s_OrgID := ""; s_Reason := ""; s_Note := ""; s_At := 0; s_ManualHold := false |}.

(** ** The store *)

(** The operations of a store with states in [S], at a given time; a store may fail. *)
Class SuspensionStore (S : Type) := {
  store_Suspend : Z → Suspension → S → result string unit * S;
  store_Lift : Z → string → S → result string bool * S;
  store_IsSuspended : Z → string → S → result string (Suspension * bool) * S;
}.

(** Re-suspending updates the record but keeps the first suspension time. *)
Definition suspend_in (sus : Suspension) (m : gmap string Suspension) : gmap string Suspension :=
  let at_ := match m !! s_OrgID sus with Some prev => s_At prev | None => s_At sus end in
  <[s_OrgID sus := {| s_OrgID := s_OrgID sus; s_Reason := s_Reason sus; s_Note := s_Note sus;
                      s_At := at_; s_ManualHold := s_ManualHold sus |}]> m.

(** *** In memory *)

Abbreviation MemSuspensionStore := (gmap string Suspension) (only parsing).
Definition NewMemSuspensionStore : MemSuspensionStore := ∅.

Definition mem_Suspend (sus : Suspension) (s : MemSuspensionStore) : MemSuspensionStore :=
  suspend_in sus s.

Definition mem_Lift (orgID : string) (s : MemSuspensionStore) : bool * MemSuspensionStore :=
  (bool_decide (is_Some (s !! orgID)), delete orgID s).

Definition mem_IsSuspended (orgID : string) (s : MemSuspensionStore) : Suspension * bool :=
  match s !! orgID with Some sus => (sus, true) | None => (zero_suspension, false) end.

#[global] Instance mem_store : SuspensionStore MemSuspensionStore := {|
  store_Suspend _ sus s := (Ok tt, mem_Suspend sus s);
  store_Lift _ org s := let '(ok, s') := mem_Lift org s in (Ok ok, s');
  store_IsSuspended _ org s := (Ok (mem_IsSuspended org s), s);
|}.

(** *** With a read cache *)

Definition DefaultSuspensionCacheTTL : Z := 3 * second.

Record suspensionCacheEntry := {
  ce_sus : Suspension;
  ce_suspended : bool;
  ce_expires : Z;
}.

Record CachedSuspensionStore (S : Type) := {
  cs_inner : S;
  cs_ttl : Z;
  cs_entries : gmap string suspensionCacheEntry;
}.
Arguments cs_inner {S}. Arguments cs_ttl {S}. Arguments cs_entries {S}.

Definition NewCachedSuspensionStore {S} (inner : S) (ttl : Z) : CachedSuspensionStore S :=
  {| cs_inner := inner; cs_ttl := if ttl <=? 0 then DefaultSuspensionCacheTTL else ttl;
     cs_entries := ∅ |}.

Section cached.
Context {S : Type} `{!SuspensionStore S}.

Definition invalidate (orgID : string) (entries : gmap string suspensionCacheEntry) :
    gmap string suspensionCacheEntry :=
  delete orgID entries.

Definition cached_Suspend (now : Z) (sus : Suspension) (c : CachedSuspensionStore S) :
    result string unit * CachedSuspensionStore S :=
  let '(r, inner) := store_Suspend now sus (cs_inner c) in
  match r with
  | Err e => (Err e, {| cs_inner := inner; cs_ttl := cs_ttl c; cs_entries := cs_entries c |})
  | Ok _ => (Ok tt, {| cs_inner := inner; cs_ttl := cs_ttl c;
                       cs_entries := invalidate (s_OrgID sus) (cs_entries c) |})
  end.

Definition cached_Lift (now : Z) (orgID : string) (c : CachedSuspensionStore S) :
    result string bool * CachedSuspensionStore S :=
  let '(r, inner) := store_Lift now orgID (cs_inner c) in
  match r with
  | Err e => (Err e, {| cs_inner := inner; cs_ttl := cs_ttl c; cs_entries := cs_entries c |})
  | Ok ok => (Ok ok, {| cs_inner := inner; cs_ttl := cs_ttl c;
                        cs_entries := invalidate orgID (cs_entries c) |})
  end.

(** The entry that answers a read at [now]. *)
Definition cache_hit (now : Z) (orgID : string) (entries : gmap string suspensionCacheEntry) :
    option suspensionCacheEntry :=
  e ← entries !! orgID; if now <? ce_expires e then Some e else None.

Definition cached_IsSuspended (now : Z) (orgID : string) (c : CachedSuspensionStore S) :
    result string (Suspension * bool) * CachedSuspensionStore S :=
  match cache_hit now orgID (cs_entries c) with
  | Some e => (Ok (ce_sus e, ce_suspended e), c)
  | None =>
      let '(r, inner) := store_IsSuspended now orgID (cs_inner c) in
      match r with
      | Err e => (Err e, {| cs_inner := inner; cs_ttl := cs_ttl c; cs_entries := cs_entries c |})
      | Ok (sus, suspended) =>
          (Ok (sus, suspended),
           {| cs_inner := inner; cs_ttl := cs_ttl c;
              cs_entries := <[orgID := {| ce_sus := sus; ce_suspended := suspended;
                                          ce_expires := now + cs_ttl c |}]> (cs_entries c) |})
      end
  end.

#[global] Instance cached_store : SuspensionStore (CachedSuspensionStore S) := {|
  store_Suspend := cached_Suspend;
  store_Lift := cached_Lift;
  store_IsSuspended := cached_IsSuspended;
|}.

End cached.

(** ** The kill switch *)

Section kill_switch.
Context {S : Type} `{!SuspensionStore S}.

Definition ks_Suspend (now : Z) (orgID : string) (reason : SuspensionReason) (note : string)
    (manualHold : bool) (s : S) : result string unit * S :=
  store_Suspend now {| s_OrgID := orgID; s_Reason := reason; s_Note := note; s_At := now;
                       s_ManualHold := manualHold |} s.

Definition ks_Lift (now : Z) (orgID : string) (s : S) : result string bool * S :=
  store_Lift now orgID s.

Definition LiftReason (now : Z) (orgID : string) (reason : SuspensionReason) (s : S) :
    result string bool * S :=
  let '(r, s) := store_IsSuspended now orgID s in
  match r with
  | Err e => (Err ("read suspension for reason-scoped lift: " +:+ e), s)
  | Ok (sus, suspended) =>
      if negb suspended || negb (bool_decide (s_Reason sus = reason)) || s_ManualHold sus
      then (Ok false, s)
      else
        let '(r, s) := store_Lift now orgID s in
        match r with
        | Err e => (Err ("lift " +:+ reason +:+ " suspension: " +:+ e), s)
        | Ok lifted => (Ok lifted, s)
        end
  end.

(** Suspend the organizations one by one, each at the time the clock then shows, until
    a write fails; the result has the organizations done. *)
Fixpoint suspend_loop (clock : nat → Z) (i : nat) (reason : SuspensionReason)
    (orgs : list (string * string)) (s : S) : list string * option string * S :=
  match orgs with
  | [] => ([], None, s)
  | (orgID, note) :: orgs' =>
      let '(r, s) := store_Suspend (clock i)
        {| s_OrgID := orgID; s_Reason := reason; s_Note := note; s_At := clock i;
           s_ManualHold := true |} s in
      match r with
      | Err e => ([], Some e, s)
      | Ok _ =>
          let '(done, err, s) := suspend_loop clock (Datatypes.S i) reason orgs' s in
          (orgID :: done, err, s)
      end
  end.

Definition EmergencyStop (clock : nat → Z) (orgs : list string) (note : string) (s : S) :
    Z * option string * S :=
  let '(done, err, s) := suspend_loop clock 0 ReasonEmergencyStop ((λ o, (o, note)) <$> orgs) s in
  (Z.of_nat (length done), err, s).

(** [fired] is what the signal answers. *)
Definition ProcessSignals `{!MapRange} (clock : nat → Z) (fired : result string (gmap string string)) (s : S) :
    list string * option string * S :=
  match fired with
  | Err e => ([], Some e, s)
  | Ok orgs => suspend_loop clock 0 ReasonAbuseSignal (map_range "ProcessSignals" orgs) s
  end.

(** ** The billing adapter *)

Definition billingReason (reason : string) : option SuspensionReason :=
  if bool_decide (reason = "spend_cap") then Some ReasonSpendCap
  else if bool_decide (reason = "dunning") then Some ReasonDunning
  else None.

Definition billing_Suspend (now : Z) (orgID reason note : string) (manualHold : bool) (s : S) :
    result string unit * S :=
  ks_Suspend now orgID (default ReasonManual (billingReason reason)) note manualHold s.

Definition billing_LiftReason (now : Z) (orgID reason : string) (s : S) : result string bool * S :=
  match billingReason reason with
  | None => (Ok false, s)
  | Some r => LiftReason now orgID r s
  end.

End kill_switch.

(** ** What a store promises *)

Class LawfulStore (S : Type) `{!SuspensionStore S} := {
  view : S → gmap string Suspension;
  store_ok : S → Prop;
  suspend_law now sus s : store_ok s →
    let '(r, s') := store_Suspend now sus s in
    store_ok s' ∧ view s' = match r with Ok _ => suspend_in sus (view s) | Err _ => view s end;
  lift_law now org s : store_ok s →
    let '(r, s') := store_Lift now org s in
    store_ok s' ∧
    match r with
    | Ok b => b = bool_decide (is_Some (view s !! org)) ∧ view s' = delete org (view s)
    | Err _ => view s' = view s
    end;
  is_law now org s : store_ok s →
    let '(r, s') := store_IsSuspended now org s in
    store_ok s' ∧ view s' = view s ∧
    match r with Ok a => a = mem_IsSuspended org (view s) | Err _ => True end;
}.

#[global] Instance mem_lawful : LawfulStore MemSuspensionStore.
Proof. by refine {| view s := s; store_ok _ := True |}. Defined.

(** The cached entries are answers of the inner store. *)
Definition cache_ok {S} `{!SuspensionStore S, !LawfulStore S} (c : CachedSuspensionStore S) : Prop :=
  store_ok (cs_inner c) ∧
  ∀ org e, cs_entries c !! org = Some e →
    (ce_sus e, ce_suspended e) = mem_IsSuspended org (view (cs_inner c)).

Lemma suspend_in_other sus m org :
  org ≠ s_OrgID sus → mem_IsSuspended org (suspend_in sus m) = mem_IsSuspended org m.
Proof. intros. unfold mem_IsSuspended, suspend_in. by rewrite lookup_insert_ne. Qed.

Lemma delete_other org' (m : gmap string Suspension) org :
  org ≠ org' → mem_IsSuspended org (delete org' m) = mem_IsSuspended org m.
Proof. intros. unfold mem_IsSuspended. by rewrite lookup_delete_ne. Qed.

#[global] Program Instance cached_lawful {S} `{!SuspensionStore S, !LawfulStore S} :
    LawfulStore (CachedSuspensionStore S) := {|
  view c := view (cs_inner c);
  store_ok := cache_ok;
|}.
Next Obligation.
  intros S ? ? now sus c [Hin He]. simpl. unfold cached_Suspend.
  pose proof (suspend_law now sus (cs_inner c) Hin) as Hl. destruct (store_Suspend _ _ _) as [[[]|e] i].
  - destruct Hl as [Hok Hv]. split; [split; [done|]|done]. simpl.
    unfold invalidate. intros org e [Hne Hl]%lookup_delete_Some. rewrite Hv, suspend_in_other by done. eauto.
  - destruct Hl as [Hok Hv]. split; [split; [done|]|done]. simpl. rewrite Hv. eauto.
Qed.
Next Obligation.
  intros S ? ? now org c [Hin He]. simpl. unfold cached_Lift.
  pose proof (lift_law now org (cs_inner c) Hin) as Hl. destruct (store_Lift _ _ _) as [[b|e] i].
  - destruct Hl as (Hok & -> & Hv). split; [split; [done|]|done]. simpl.
    unfold invalidate. intros org' e [Hne Hl]%lookup_delete_Some. rewrite Hv, delete_other by done. eauto.
  - destruct Hl as [Hok Hv]. split; [split; [done|]|done]. simpl. rewrite Hv. eauto.
Qed.
Next Obligation.
  intros S ? ? now org c [Hin He]. simpl. unfold cached_IsSuspended.
  destruct (cache_hit _ _ _) as [e|] eqn:Hh.
  { unfold cache_hit in Hh. apply bind_Some in Hh as (e' & Hl & Hif). case_match; simplify_eq.
    split_and!; [by split|done|]. by apply He. }
  pose proof (is_law now org (cs_inner c) Hin) as Hl. destruct (store_IsSuspended _ _ _) as [[[sus b]|e] i].
  - destruct Hl as (Hok & Hv & Ha). split_and!; [split; [done|]|done|done]. simpl. rewrite Hv.
    intros org' e. rewrite lookup_insert_Some. intros [[<- <-]|[_ ?]]; [done|eauto].
  - destruct Hl as (Hok & Hv & _). split_and!; [split; [done|]|done|done]. simpl. rewrite Hv. eauto.
Qed.

End Suspension.
