(* ===== verification/SuspensionTheorems.v ===== *)
(** * Suspensions: theorems

    The kill switch over any lawful store, the transparency of the read cache, and how
    stale the cache can be when other replicas write to the same store. *)

From S2P Require Import Prelude GoFloat Scheduler Suspension.
Import Suspension.

Module SuspensionTheorems.

(** ** Reason-scoped lifts and manual holds *)

Section kill_switch.
Context {S : Type} `{!SuspensionStore S, !LawfulStore S, !MapRange}.

(** The current suspension carries the reason and no manual hold. *)
Definition liftable (org : string) (reason : SuspensionReason) (m : gmap string Suspension) : bool :=
  match m !! org with
  | Some sus => bool_decide (s_Reason sus = reason) && negb (s_ManualHold sus)
  | None => false
  end.

Lemma LiftReason_spec now org reason s :
  store_ok s →
  let '(r, s') := LiftReason now org reason s in
  store_ok s' ∧
  match r with
  | Ok lifted => lifted = liftable org reason (view s) ∧
                 view s' = if lifted then delete org (view s) else view s
  | Err _ => view s' = view s
  end.
Proof.
  intros Hok. unfold LiftReason, liftable. pose proof (is_law now org s Hok) as H1.
  destruct (store_IsSuspended now org s) as [[[sus b]|e] s1].
  2: { by destruct H1 as (? & ? & _). }
  destruct H1 as (Hok1 & Hv1 & Ha). unfold mem_IsSuspended in Ha.
  destruct (view s !! org) as [sus'|] eqn:Hs; injection Ha as -> ->; simpl; [|done].
  case_bool_decide as Hr; simpl; [|done]. destruct (s_ManualHold sus') eqn:Hh; simpl; [done|].
  pose proof (lift_law now org s1 Hok1) as H2. destruct (store_Lift now org s1) as [[b'|e] s2].
  - destruct H2 as (? & -> & Hv2). rewrite Hv1, Hs in *. by rewrite bool_decide_true by done.
  - destruct H2 as (? & Hv2). split; [done|]. by rewrite Hv2.
Qed.

(** The automated lift.  [LiftReason] clears the suspension of the organization
    exactly when the current suspension carries that reason and no manual hold, and
    touches no other; when the store fails nothing changes. *)
Theorem lift_reason_scoped now org reason s :
  store_ok s →
  let '(r, s') := LiftReason now org reason s in
  match r with
  | Ok lifted => lifted = liftable org reason (view s) ∧
                 view s' = if lifted then delete org (view s) else view s
  | Err _ => view s' = view s
  end.
Proof.
  intros Hok. pose proof (LiftReason_spec now org reason s Hok) as Hl.
  by destruct (LiftReason now org reason s) as [? ?], Hl.
Qed.

(** *** Sequences of operations *)

Inductive ks_op :=
| KSuspend (now : Z) (org : string) (reason : SuspensionReason) (note : string) (hold : bool)
| KLift (now : Z) (org : string)
| KLiftReason (now : Z) (org : string) (reason : SuspensionReason)
| KEmergencyStop (clock : nat → Z) (orgs : list string) (note : string)
| KProcessSignals (clock : nat → Z) (fired : result string (gmap string string)).

Definition run_ks (s : S) (o : ks_op) : S :=
  match o with
  | KSuspend now org reason note hold => (ks_Suspend now org reason note hold s).2
  | KLift now org => (ks_Lift now org s).2
  | KLiftReason now org reason => (LiftReason now org reason s).2
  | KEmergencyStop clock orgs note => (EmergencyStop clock orgs note s).2
  | KProcessSignals clock fired => (ProcessSignals clock fired s).2
  end.

(** The operation is an operator's lift of [org], or a suspension of it without a hold. *)
Definition releases (org : string) (o : ks_op) : bool :=
  match o with
  | KLift _ org' => bool_decide (org' = org)
  | KSuspend _ org' _ _ hold => bool_decide (org' = org) && negb hold
  | _ => false
  end.

Definition held_since (org : string) (t : Z) (s : S) : Prop :=
  store_ok s ∧ ∃ sus, view s !! org = Some sus ∧ s_ManualHold sus = true ∧ s_At sus = t.

Lemma held_suspend now sus org t s :
  s_OrgID sus ≠ org ∨ s_ManualHold sus = true → held_since org t s →
  held_since org t (store_Suspend now sus s).2.
Proof.
  intros Hh (Hok & x & Hx & Hhx & Hax). pose proof (suspend_law now sus s Hok) as Hl.
  destruct (store_Suspend now sus s) as [[[]|e] s']; destruct Hl as [Hok' Hv]; (split; [done|]);
    simpl; rewrite Hv; [|by exists x].
  unfold suspend_in. destruct (decide (s_OrgID sus = org)) as [Ho|Hne].
  - rewrite Ho, Hx, lookup_insert_eq. eexists. split; [done|]. destruct Hh; done.
  - rewrite lookup_insert_ne by done. by exists x.
Qed.

Lemma held_loop clock i reason orgs org t s :
  held_since org t s → held_since org t (suspend_loop clock i reason orgs s).2.
Proof.
  revert i s. induction orgs as [|[o note] orgs IH]; intros i s Hs; simpl; [done|].
  set (sus := {| s_OrgID := o |}).
  pose proof (held_suspend (clock i) sus org t s (or_intror eq_refl) Hs) as Hs'.
  destruct (store_Suspend (clock i) sus s) as [[[]|e] s']; [|done].
  specialize (IH (Datatypes.S i) s' Hs'). by destruct (suspend_loop _ _ _ _ s') as [[??]?].
Qed.

Lemma held_run o org t s : releases org o = false → held_since org t s → held_since org t (run_ks s o).
Proof.
  intros Hr Hs. destruct o as [now o r n h|now o|now o r|clock os n|clock f]; simpl in *.
  - apply held_suspend; [|done]. simpl. case_bool_decide; [right; by destruct h|by left].
  - destruct Hs as (Hok & x & Hx & Hh & Ha). pose proof (lift_law now o s Hok) as Hl.
    apply bool_decide_eq_false in Hr. unfold ks_Lift.
    destruct (store_Lift now o s) as [[b|e] s']; simpl.
    + destruct Hl as (? & _ & Hv). split; [done|]. rewrite Hv, lookup_delete_ne by done. by exists x.
    + destruct Hl as (? & Hv). split; [done|]. rewrite Hv. by exists x.
  - destruct Hs as (Hok & x & Hx & Hh & Ha). pose proof (LiftReason_spec now o r s Hok) as Hl.
    destruct (LiftReason now o r s) as [[b|e] s']; simpl.
    + destruct Hl as (? & -> & Hv). split; [done|]. rewrite Hv.
      destruct (decide (o = org)) as [->|].
      * unfold liftable. rewrite Hx, Hh, andb_false_r. by exists x.
      * destruct (liftable o r (view s)); [rewrite lookup_delete_ne by done|]; by exists x.
    + destruct Hl as (? & Hv). split; [done|]. rewrite Hv. by exists x.
  - unfold EmergencyStop. pose proof (held_loop clock 0 ReasonEmergencyStop ((λ o, (o, n)) <$> os) org t s Hs).
    by destruct (suspend_loop _ _ _ _ s) as [[??]?].
  - destruct f as [m|e]; [|done]. by apply held_loop.
Qed.

(** A manual hold survives.  An organization suspended with a manual hold stays
    suspended, held, and with its first suspension time, through every sequence of
    suspensions, automated lifts, emergency stops and abuse signals, whatever fails on
    the way, until an operator lifts it or it is suspended again without a hold. *)
Theorem manual_hold_survives ops org t s :
  held_since org t s → forallb (λ o, negb (releases org o)) ops = true →
  held_since org t (foldl run_ks s ops).
Proof.
  revert s. induction ops as [|o ops IH]; intros s Hs Hf; [done|].
  simpl in *. apply andb_prop in Hf as [Ho%negb_true_iff Hf]. apply IH; [|done]. by apply held_run.
Qed.

End kill_switch.

Definition ex_held : MemSuspensionStore :=
  (EmergencyStop (λ _, 100) ["acme"] "incident" NewMemSuspensionStore).2.

Lemma lift_reason_scoped_witness :
  (LiftReason 200 "acme" ReasonSpendCap ex_held).1 = Ok false ∧
  match LiftReason 200 "acme" ReasonSpendCap ex_held with
  | (Ok lifted, s') => lifted = liftable "acme" ReasonSpendCap ex_held ∧
                       s' = if lifted then delete "acme" ex_held else ex_held
  | (Err _, s') => s' = ex_held
  end.
Proof.
  split; [vm_compute; reflexivity|].
  exact (lift_reason_scoped 200 "acme" ReasonSpendCap ex_held I).
Defined.

Lemma manual_hold_survives_witness :
  held_since "acme" 100
    (foldl run_ks ex_held
      [KLiftReason 200 "acme" ReasonSpendCap; KSuspend 300 "acme" ReasonManual "review" true;
       KLift 400 "other"; KLiftReason 500 "acme" ReasonManual]).
Proof.
  apply manual_hold_survives; [|vm_compute; reflexivity].
  split; [exact I|]. eexists. split; [vm_compute; reflexivity|]. split; reflexivity.
Defined.

(** Billing can release an emergency stop.  A spend-cap suspension written by
    billing over an emergency stop replaces its reason and its manual hold, so the
    next paid top-up lifts the organization although no operator has reviewed it. *)
Theorem billing_releases_emergency_stop :
  let s1 := (EmergencyStop (λ _, 100) ["acme"] "incident" NewMemSuspensionStore).2 in
  let s2 := (billing_Suspend 200 "acme" "spend_cap" "cap reached" false s1).2 in
  (billing_LiftReason 150 "acme" "spend_cap" s1).1 = Ok false ∧
  (billing_LiftReason 300 "acme" "spend_cap" s2).1 = Ok true ∧
  (mem_IsSuspended "acme" (billing_LiftReason 300 "acme" "spend_cap" s2).2).2 = false.
Proof. vm_compute. done. Qed.

(** ** The read cache *)

Inductive store_op :=
| SSuspend (sus : Suspension)
| SLift (org : string)
| SIsSuspended (org : string).

Inductive answer :=
| ASuspended (r : result string unit)
| ALifted (r : result string bool)
| AIs (r : result string (Suspension * bool)).

(** The answers of a store to a sequence of timed operations. *)
Fixpoint answers {S} `{!SuspensionStore S} (ops : list (Z * store_op)) (s : S) : list answer :=
  match ops with
  | [] => []
  | (now, SSuspend sus) :: ops' =>
      let '(r, s) := store_Suspend now sus s in ASuspended r :: answers ops' s
  | (now, SLift org) :: ops' =>
      let '(r, s) := store_Lift now org s in ALifted r :: answers ops' s
  | (now, SIsSuspended org) :: ops' =>
      let '(r, s) := store_IsSuspended now org s in AIs r :: answers ops' s
  end.

Lemma answers_cached ops (c : CachedSuspensionStore MemSuspensionStore) :
  cache_ok c → answers ops c = answers ops (cs_inner c).
Proof.
  revert c. induction ops as [|[now [sus|org|org]] ops IH]; intros c Hc; [done|..].
  - pose proof (suspend_law now sus c Hc) as Hl. cbn -[mem_lawful] in Hl |- *. f_equal. rewrite IH; [done|]. apply Hl.
  - pose proof (lift_law now org c Hc) as Hl. cbn -[mem_lawful] in Hl |- *. f_equal. rewrite IH; [done|]. apply Hl.
  - pose proof (is_law now org c Hc) as Hl. cbn -[mem_lawful cached_IsSuspended] in Hl |- *.
    destruct (cached_IsSuspended now org c) as [r c'] eqn:E. destruct Hl as (Hok & Hv & Ha).
    assert (cs_inner c' = cs_inner c) as Hin by exact Hv.
    assert (∃ a, r = Ok a) as [a ->].
    { unfold cached_IsSuspended in E. destruct (cache_hit _ _ _); [by simplify_eq; eauto|].
      cbn in E. destruct (mem_IsSuspended org (cs_inner c)). simplify_eq. eauto. }
    f_equal; [by rewrite Ha|]. rewrite IH, Hin by done. done.
Qed.

(** The cache is transparent to its own replica.  Over the in-memory store, for any
    lifetime of the entries and any clock, a sequence of operations gets the same
    answers with the cache as without it. *)
Theorem cache_transparent ops ttl :
  answers ops (NewCachedSuspensionStore NewMemSuspensionStore ttl) = answers ops NewMemSuspensionStore.
Proof. rewrite answers_cached; [done|]. by split. Qed.

(** ** The cache among replicas

    The operations of one replica's cache, split at their accesses to the shared
    store and to the cache, so that they interleave with each other and with the
    writes of other replicas. *)

(** A read that missed: its organization and start time, and the answer of the store
    once it has been asked. *)
Record pending := { p_org : string; p_start : Z; p_answer : option (Suspension * bool) }.

(** [h_past] records the shared store at every moment so far. *)
Record replica := {
  h_clock : Z;
  h_store : gmap string Suspension;
  h_entries : gmap string suspensionCacheEntry;
  h_reads : list pending;
  h_past : list (Z * gmap string Suspension);
}.

Inductive event :=
| ETick (d : Z)
| EWrite (sus : Suspension)     (* any replica suspends *)
| EErase (org : string)         (* any replica lifts *)
| EInvalidate (org : string)    (* this replica, after its own write *)
| EReadStart (org : string)
| EReadStore (i : nat)
| EReadCache (i : nat).

(** The next moment, with what is then the case. *)
Definition moment (h : replica) (clock : Z) (store : gmap string Suspension)
    (entries : gmap string suspensionCacheEntry) (reads : list pending) : replica :=
  {| h_clock := clock; h_store := store; h_entries := entries; h_reads := reads;
     h_past := (clock, store) :: h_past h |}.

Definition happen (ttl : Z) (h : replica) (e : event) : replica :=
  match e with
  | ETick d => moment h (h_clock h + Z.max 0 d) (h_store h) (h_entries h) (h_reads h)
  | EWrite sus => moment h (h_clock h) (suspend_in sus (h_store h)) (h_entries h) (h_reads h)
  | EErase org => moment h (h_clock h) (delete org (h_store h)) (h_entries h) (h_reads h)
  | EInvalidate org => moment h (h_clock h) (h_store h) (invalidate org (h_entries h)) (h_reads h)
  | EReadStart org =>
      match cache_hit (h_clock h) org (h_entries h) with
      | Some _ => h
      | None => moment h (h_clock h) (h_store h) (h_entries h)
                  ({| p_org := org; p_start := h_clock h; p_answer := None |} :: h_reads h)
      end
  | EReadStore i =>
      match h_reads h !! i with
      | Some p => moment h (h_clock h) (h_store h) (h_entries h)
                    (<[i := {| p_org := p_org p; p_start := p_start p;
                               p_answer := Some (mem_IsSuspended (p_org p) (h_store h)) |}]> (h_reads h))
      | None => h
      end
  | EReadCache i =>
      match h_reads h !! i with
      | Some {| p_org := org; p_start := t; p_answer := Some (sus, b) |} =>
          moment h (h_clock h) (h_store h)
            (<[org := {| ce_sus := sus; ce_suspended := b; ce_expires := t + ttl |}]> (h_entries h))
            (delete i (h_reads h))
      | _ => h
      end
  end.

Definition boot (now : Z) (m : gmap string Suspension) : replica :=
  {| h_clock := now; h_store := m; h_entries := ∅; h_reads := []; h_past := [(now, m)] |}.

(** The store gave this answer at some moment since [t]. *)
Definition true_since (t : Z) (org : string) (a : Suspension * bool) (h : replica) : Prop :=
  ∃ t' m, (t', m) ∈ h_past h ∧ t ≤ t' ≤ h_clock h ∧ mem_IsSuspended org m = a.

Record replica_ok (ttl : Z) (h : replica) : Prop := {
  ro_now : (h_clock h, h_store h) ∈ h_past h;
  ro_reads p : p ∈ h_reads h → p_start p ≤ h_clock h ∧
    ∀ a, p_answer p = Some a → true_since (p_start p) (p_org p) a h;
  ro_entries org e : h_entries h !! org = Some e →
    true_since (ce_expires e - ttl) org (ce_sus e, ce_suspended e) h;
}.

Lemma true_since_keep t org a h h' :
  h_clock h ≤ h_clock h' → h_past h ⊆ h_past h' → true_since t org a h → true_since t org a h'.
Proof. intros Hc Hp (t' & m & Hin & ? & ?). exists t', m. split_and!; [by apply Hp|lia..|done]. Qed.

Lemma moment_ok ttl h clock store entries reads :
  replica_ok ttl h → h_clock h ≤ clock →
  let h' := moment h clock store entries reads in
  (∀ p, p ∈ reads → p ∈ h_reads h ∨
    p_start p ≤ clock ∧ ∀ a, p_answer p = Some a → true_since (p_start p) (p_org p) a h') →
  (∀ org e, entries !! org = Some e → h_entries h !! org = Some e ∨
    true_since (ce_expires e - ttl) org (ce_sus e, ce_suspended e) h') →
  replica_ok ttl h'.
Proof.
  intros [Hn Hr He] Hc h' Hr' He'.
  assert (∀ t org a, true_since t org a h → true_since t org a h') as Hts.
  { intros t org a. apply true_since_keep; [done|]. set_solver. }
  split; simpl; [set_solver|..].
  - intros p [Hp|?]%Hr'; [|done]. destruct (Hr p Hp). split; [lia|]. eauto.
  - intros org e' [?|?]%He'; eauto.
Qed.

Lemma elem_of_delete_list {A} (l : list A) i x : x ∈ delete i l → x ∈ l.
Proof.
  rewrite delete_take_drop. intros [Hx|Hx]%elem_of_app; apply list_elem_of_lookup in Hx as [j Hj].
  - apply lookup_take_Some in Hj as [? _]. by eapply list_elem_of_lookup_2.
  - rewrite lookup_drop in Hj. by eapply list_elem_of_lookup_2.
Qed.

Lemma happen_ok ttl h e : replica_ok ttl h → replica_ok ttl (happen ttl h e).
Proof.
  intros Hok. pose proof (ro_reads _ _ Hok) as Hr.
  destruct e as [d|sus|org|org|org|i|i]; simpl.
  - apply moment_ok; auto with lia.
  - apply moment_ok; auto with lia.
  - apply moment_ok; auto with lia.
  - apply moment_ok; [done|lia|auto|]. unfold invalidate. intros org' e [_ ?]%lookup_delete_Some. auto.
  - case_match; [done|]. apply moment_ok; [done|lia| |auto].
    intros p [->|?]%elem_of_cons; [right|auto]. simpl. split; [lia|done].
  - destruct (h_reads h !! i) as [p|] eqn:Hp; [|done]. apply moment_ok; [done|lia| |auto].
    intros q Hq. apply list_elem_of_lookup in Hq as [j Hj].
    apply list_lookup_insert_Some in Hj as [(-> & <- & _)|[_ Hj]];
      [right; simpl|left; by eapply list_elem_of_lookup_2].
    destruct (Hr p) as [Hs _]; [by eapply list_elem_of_lookup_2|]. split; [done|]. intros a [= <-].
    exists (h_clock h), (h_store h). split_and!; [set_solver|done..].
  - destruct (h_reads h !! i) as [[org t [[sus b]|]]|] eqn:Hp; [|done..].
    apply moment_ok; [done|lia|intros p ?%elem_of_delete_list; auto|].
    intros org' e. rewrite lookup_insert_Some. intros [[<- <-]|[_ ?]]; [right|auto]. simpl.
    replace (t + ttl - ttl) with t by lia.
    eapply true_since_keep; [| |apply (Hr _ ltac:(by eapply list_elem_of_lookup_2)); done];
      [simpl; lia|set_solver].
Qed.

Lemma replica_ok_run ttl now m es : replica_ok ttl (foldl (happen ttl) (boot now m) es).
Proof.
  assert (replica_ok ttl (boot now m)) as Hb.
  { split; simpl; [set_solver..|]. intros ? ? Hx. by rewrite lookup_empty in Hx. }
  revert Hb. generalize (boot now m). induction es as [|e' es IH]; intros h0 H0; [done|].
  apply IH, happen_ok, H0.
Qed.

(** How stale the cache can be.  Whatever other replicas write, and however reads
    and writes interleave, a cached answer is one that the shared store gave less than
    the lifetime of an entry ago. *)
Theorem cache_staleness_bound ttl now m es org e :
  let h := foldl (happen ttl) (boot now m) es in
  cache_hit (h_clock h) org (h_entries h) = Some e →
  ∃ t past, (t, past) ∈ h_past h ∧ h_clock h - ttl < t ≤ h_clock h ∧
    mem_IsSuspended org past = (ce_sus e, ce_suspended e).
Proof.
  intros h Hh. pose proof (replica_ok_run ttl now m es) as Hok. fold h in Hok.
  unfold cache_hit in Hh. apply bind_Some in Hh as (e' & Hl & Hif).
  destruct (Z.ltb_spec (h_clock h) (ce_expires e')); simplify_eq.
  destruct (ro_entries _ _ Hok org e Hl) as (t & past & ? & ? & ?).
  exists t, past. split_and!; [done|lia..|done].
Qed.

Definition ex_sus : Suspension :=
  {| s_OrgID := "acme"; s_Reason := ReasonManual; s_Note := ""; s_At := 5; s_ManualHold := true |}.

(** A read in flight while this replica suspends the organization. *)
Definition ex_race : list event :=
  [EReadStart "acme"; EReadStore 0; EWrite ex_sus; EInvalidate "acme"; EReadCache 0; ETick second].

Lemma cache_staleness_bound_witness :
  let h := foldl (happen (3 * second)) (boot 0 ∅) ex_race in
  ∃ t past, (t, past) ∈ h_past h ∧ h_clock h - 3 * second < t ≤ h_clock h ∧
    mem_IsSuspended "acme" past = (zero_suspension, false).
Proof.
  apply (cache_staleness_bound (3 * second) 0 ∅ ex_race "acme"
    {| ce_sus := zero_suspension; ce_suspended := false; ce_expires := 3 * second |}).
  vm_compute. reflexivity.
Defined.

(** A replica can miss its own write.  A read that was in flight when the replica
    suspended an organization puts the earlier answer back into the cache after the
    invalidation, and a second later the replica still answers that the organization is
    not suspended. *)
Theorem own_write_missed :
  let h := foldl (happen (3 * second)) (boot 0 ∅) ex_race in
  mem_IsSuspended "acme" (h_store h) = (ex_sus, true) ∧
  cache_hit (h_clock h) "acme" (h_entries h) =
    Some {| ce_sus := zero_suspension; ce_suspended := false; ce_expires := 3 * second |} ∧
  h_clock h = second.
Proof. vm_compute. done. Qed.

End SuspensionTheorems.
