(* ===== verification/Quota.v ===== *)
(** * internal/saas/quota: tiers, rate limits and the enforcer

    tier.go, ratelimit.go, enforcer.go and gateway_adapter.go, and the count of running
    sandboxes of internal/saas/controlplane/livecounter.go.  The enforcer is a
    function of its injected collaborators (the tier of an organization, its live
    usage, a store of suspensions) and of the state of the rate limiter. *)

From S2P Require Import Prelude GoFloat Scheduler Suspension.
Import GoFloat Suspension.

Module Quota.

(** ** Tiers (tier.go) *)

Abbreviation TierName := string (only parsing).
Definition TierFree : TierName := "free".
Definition TierStarter : TierName := "starter".
Definition TierPro : TierName := "pro".

Record EgressTier := {
  eg_BlockNetwork : bool;
  eg_Open : bool;
  eg_AllowCIDRs : list string;
}.

Record Tier := {
  t_Name : TierName;
  t_MaxConcurrentSandboxes : Z;
  t_MaxAggregateVCPUs : Z;
  t_MaxAggregateMemBytes : Z;
  t_MaxAggregateStorageBytes : Z;
  t_MaxSandboxVCPUs : Z;
  t_MaxSandboxMemBytes : Z;
  t_MaxSandboxStorageBytes : Z;
  t_CreationRatePerMinute : float64;
  t_APIRequestsPerMinute : float64;
  t_Egress : EgressTier;
}.

Definition gib : Z := Z.shiftl 1 30.

Definition tier_free : Tier := {|
  t_Name := TierFree;
  t_MaxConcurrentSandboxes := 2;
  t_MaxAggregateVCPUs := 4;
  t_MaxAggregateMemBytes := 4 * gib;
  t_MaxAggregateStorageBytes := 20 * gib;
  t_MaxSandboxVCPUs := 2;
  t_MaxSandboxMemBytes := 2 * gib;
  t_MaxSandboxStorageBytes := 10 * gib;
  t_CreationRatePerMinute := of_int 5;
  t_APIRequestsPerMinute := of_int 60;
  t_Egress := {| eg_BlockNetwork := false; eg_Open := false; eg_AllowCIDRs := [] |};
|}.

Definition tier_starter : Tier := {|
  t_Name := TierStarter;
  t_MaxConcurrentSandboxes := 10;
  t_MaxAggregateVCPUs := 20;
  t_MaxAggregateMemBytes := 40 * gib;
  t_MaxAggregateStorageBytes := 200 * gib;
  t_MaxSandboxVCPUs := 4;
  t_MaxSandboxMemBytes := 8 * gib;
  t_MaxSandboxStorageBytes := 50 * gib;
  t_CreationRatePerMinute := of_int 30;
  t_APIRequestsPerMinute := of_int 300;
  t_Egress := {| eg_BlockNetwork := false; eg_Open := false; eg_AllowCIDRs := [] |};
|}.

Definition tier_pro : Tier := {|
  t_Name := TierPro;
  t_MaxConcurrentSandboxes := 100;
  t_MaxAggregateVCPUs := 400;
  t_MaxAggregateMemBytes := 800 * gib;
  t_MaxAggregateStorageBytes := 4000 * gib;
  t_MaxSandboxVCPUs := 16;
  t_MaxSandboxMemBytes := 64 * gib;
  t_MaxSandboxStorageBytes := 500 * gib;
  t_CreationRatePerMinute := of_int 120;
  t_APIRequestsPerMinute := of_int 1200;
  t_Egress := {| eg_BlockNetwork := false; eg_Open := true; eg_AllowCIDRs := [] |};
|}.

Definition DefaultTiers : gmap TierName Tier :=
  <[TierFree := tier_free]> (<[TierStarter := tier_starter]> (<[TierPro := tier_pro]> ∅)).

Definition AbusePorts : list Z := [25; 465; 587].

Definition EgressDeny : string := "deny".
Definition EgressAllow : string := "allow".
Definition InboundDeny : string := "deny".

(** The fields of netconf's policy that the mapping sets. *)
Record SandboxPolicy := {
  sp_Egress : string;
  sp_AllowCIDRs : list string;
  sp_BlockNetwork : bool;
  sp_Inbound : string;
}.

Definition Policy (e : EgressTier) : SandboxPolicy :=
  if eg_BlockNetwork e
  then {| sp_Egress := ""; sp_AllowCIDRs := []; sp_BlockNetwork := true; sp_Inbound := InboundDeny |}
  else if eg_Open e
  then {| sp_Egress := EgressAllow; sp_AllowCIDRs := []; sp_BlockNetwork := false; sp_Inbound := InboundDeny |}
  else {| sp_Egress := EgressDeny; sp_AllowCIDRs := eg_AllowCIDRs e; sp_BlockNetwork := false;
          sp_Inbound := InboundDeny |}.

Record ResolvedEgress := { re_Policy : SandboxPolicy; re_BlockPorts : list Z }.

Definition ResolveEgress (t : Tier) : ResolvedEgress :=
  {| re_Policy := Policy (t_Egress t); re_BlockPorts := AbusePorts |}.

(** ** The rate limiter (ratelimit.go) *)

Record bucket := {
  b_ratePerMinute : float64;
  b_burst : float64;
  b_tokens : float64;
  b_last : Z;
}.

Definition newBucket (ratePerMinute burst : float64) : bucket :=
  {| b_ratePerMinute := ratePerMinute; b_burst := burst; b_tokens := burst; b_last := 0 |}.

Definition refill (now : Z) (b : bucket) : bucket :=
  let last := if time_is_zero (b_last b) then now else b_last b in
  let elapsed := Seconds (time_sub now last) in
  if fltb (of_int 0) elapsed then
    let tokens := fadd (b_tokens b) (fmul elapsed (fdiv (b_ratePerMinute b) (of_int 60))) in
    {| b_ratePerMinute := b_ratePerMinute b; b_burst := b_burst b;
       b_tokens := if fltb (b_burst b) tokens then b_burst b else tokens; b_last := now |}
  else {| b_ratePerMinute := b_ratePerMinute b; b_burst := b_burst b; b_tokens := b_tokens b;
          b_last := last |}.

Definition allow (now : Z) (n : float64) (b : bucket) : bool * bucket :=
  if fleb (b_ratePerMinute b) (of_int 0) then (true, b)
  else
    let b := refill now b in
    if fleb n (b_tokens b)
    then (true, {| b_ratePerMinute := b_ratePerMinute b; b_burst := b_burst b;
                   b_tokens := fsub (b_tokens b) n; b_last := b_last b |})
    else (false, b).

Inductive BucketKind := BucketLifecycle | BucketInSandbox.

#[global] Instance BucketKind_eq_dec : EqDecision BucketKind.
Proof. solve_decision. Defined.
#[global] Instance BucketKind_countable : Countable BucketKind.
Proof.
  refine (inj_countable' (λ k, match k with BucketLifecycle => true | BucketInSandbox => false end)
    (λ b : bool, if b then BucketLifecycle else BucketInSandbox) _). by intros [].
Defined.

Definition bucketKey : Type := string * BucketKind.
Definition RateLimiter : Type := gmap (string * BucketKind) bucket.
Definition NewRateLimiter : RateLimiter := ∅.

Definition Allow (now : Z) (key : string) (kind : BucketKind) (ratePerMinute burst : float64)
    (rl : RateLimiter) : bool * RateLimiter :=
  let burst := if fleb burst (of_int 0) then ratePerMinute else burst in
  let b := match (rl : gmap (string * BucketKind) bucket) !! (key, kind) with
           | None => newBucket ratePerMinute burst
           | Some b => {| b_ratePerMinute := ratePerMinute; b_burst := burst; b_tokens := b_tokens b;
                          b_last := b_last b |}
           end in
  let '(ok, b) := allow now (of_int 1) b in
  (ok, <[(key, kind) := b]> (rl : gmap (string * BucketKind) bucket)).

(** ** The enforcer (enforcer.go) *)

Inductive quota_error :=
| ErrSuspended
| ErrConcurrencyExceeded
| ErrAggregateExceeded
| ErrSandboxTooLarge
| ErrRateLimited
| ErrUnknownTier
| ErrWrapped (msg : string).

Record LiveUsage := {
  lu_ConcurrentSandboxes : Z;
  lu_VCPUs : Z;
  lu_MemBytes : Z;
  lu_StorageBytes : Z;
}.

(** [LiveCounter.Count] of controlplane/livecounter.go, the source of the gateway: [List]
    answers with the sandbox objects that carry the organization's label, or fails.  The
    aggregates are left at zero. *)
Record SandboxObject := { so_OrgLabel : string; so_Phase : string; so_Replicas : Z }.

Definition live_replicas (orgID : string) (n : Z) (sb : SandboxObject) : Z :=
  if negb (bool_decide (so_OrgLabel sb = orgID)) then n
  else if bool_decide (so_Phase sb ∈ ["Terminated"; "Failed"]) then n
  else int64 (n + (if so_Replicas sb <? 1 then 1 else so_Replicas sb)).

Definition Count (List : string → option (list SandboxObject)) (orgID : string) : result string LiveUsage :=
  match List orgID with
  | None => Err ("list live sandboxes for org " +:+ orgID)
  | Some items =>
      Ok {| lu_ConcurrentSandboxes := foldl (live_replicas orgID) 0 items; lu_VCPUs := 0; lu_MemBytes := 0; lu_StorageBytes := 0 |}
  end.

Record SandboxSpec := { ss_VCPUs : Z; ss_MemBytes : Z; ss_StorageBytes : Z }.

Definition zero_spec : SandboxSpec := {| ss_VCPUs := 0; ss_MemBytes := 0; ss_StorageBytes := 0 |}.

Record Request := { r_Op : string; r_IP : string; r_NewSandbox : SandboxSpec }.

Definition isCreate (r : Request) : bool :=
  bool_decide (r_Op r = "sandbox.create") || bool_decide (r_Op r = "sandbox.fork").

Definition isLifecycle (r : Request) : bool :=
  bool_decide (r_Op r = "sandbox.create") || bool_decide (r_Op r = "sandbox.terminate") ||
  bool_decide (r_Op r = "sandbox.fork").

Definition checkSize (tier : Tier) (s : SandboxSpec) : result quota_error unit :=
  if (0 <? t_MaxSandboxVCPUs tier) && (t_MaxSandboxVCPUs tier <? ss_VCPUs s) then Err ErrSandboxTooLarge
  else if (0 <? t_MaxSandboxMemBytes tier) && (t_MaxSandboxMemBytes tier <? ss_MemBytes s)
  then Err ErrSandboxTooLarge
  else if (0 <? t_MaxSandboxStorageBytes tier) && (t_MaxSandboxStorageBytes tier <? ss_StorageBytes s)
  then Err ErrSandboxTooLarge
  else Ok tt.

(** [live] is what the live-usage source answers for the organization. *)
Definition checkLive (tier : Tier) (live : result string LiveUsage) (s : SandboxSpec) :
    result quota_error unit :=
  match live with
  | Err e => Err (ErrWrapped ("read live usage: " +:+ e))
  | Ok live =>
      if (0 <? t_MaxConcurrentSandboxes tier) &&
         (t_MaxConcurrentSandboxes tier <? int64 (lu_ConcurrentSandboxes live + 1))
      then Err ErrConcurrencyExceeded
      else if (0 <? t_MaxAggregateVCPUs tier) &&
              (t_MaxAggregateVCPUs tier <? int32 (lu_VCPUs live + ss_VCPUs s))
      then Err ErrAggregateExceeded
      else if (0 <? t_MaxAggregateMemBytes tier) &&
              (t_MaxAggregateMemBytes tier <? int64 (lu_MemBytes live + ss_MemBytes s))
      then Err ErrAggregateExceeded
      else if (0 <? t_MaxAggregateStorageBytes tier) &&
              (t_MaxAggregateStorageBytes tier <? int64 (lu_StorageBytes live + ss_StorageBytes s))
      then Err ErrAggregateExceeded
      else Ok tt
  end.

(** Each bucket is charged at the time its [Allow] reads the clock. *)
Definition checkRates (clock : nat → Z) (tier : Tier) (orgID : string) (req : Request) (rl : RateLimiter) :
    result quota_error unit * RateLimiter :=
  let kind := if isLifecycle req then BucketLifecycle else BucketInSandbox in
  let '(ok, rl) := Allow (clock 0%nat) ("org:" +:+ orgID) kind (t_APIRequestsPerMinute tier)
                     (t_APIRequestsPerMinute tier) rl in
  if negb ok then (Err ErrRateLimited, rl)
  else
    let '(ok, rl) :=
      if bool_decide (r_IP req = "") then (true, rl)
      else Allow (clock 1%nat) ("ip:" +:+ r_IP req) kind (t_APIRequestsPerMinute tier)
             (t_APIRequestsPerMinute tier) rl in
    if negb ok then (Err ErrRateLimited, rl)
    else if isCreate req then
      let '(ok, rl) := Allow (clock 2%nat) ("org-create:" +:+ orgID) BucketLifecycle
                         (t_CreationRatePerMinute tier) (t_CreationRatePerMinute tier) rl in
      if negb ok then (Err ErrRateLimited, rl) else (Ok tt, rl)
    else (Ok tt, rl).

Section enforcer.
Context {S : Type} `{!SuspensionStore S}.

(** The collaborators of an enforcer; [None] for a suspension store that is not wired. *)
Record Enforcer := {
  en_tiers : gmap string Tier;
  en_tier : string → result string TierName;
  en_live : string → result string LiveUsage;
  en_sus : option S;
  en_rl : RateLimiter;
}.

Definition with_state (e : Enforcer) (sus : option S) (rl : RateLimiter) : Enforcer :=
  {| en_tiers := en_tiers e; en_tier := en_tier e; en_live := en_live e; en_sus := sus; en_rl := rl |}.

(** The kill switch, the first of the checks. *)
Definition checkSuspended (now : Z) (orgID : string) (sus : option S) :
    result quota_error unit * option S :=
  match sus with
  | None => (Ok tt, None)
  | Some s =>
      let '(r, s) := store_IsSuspended now orgID s in
      (match r with
       | Err e => Err (ErrWrapped ("check suspension: " +:+ e))
       | Ok (_, suspended) => if (suspended : bool) then Err ErrSuspended else Ok tt
       end, Some s)
  end.

Definition Check_ (clock : nat → Z) (orgID : string) (req : Request) (e : Enforcer) :
    result quota_error unit * Enforcer :=
  let '(killed, sus) := checkSuspended (clock 0%nat) orgID (en_sus e) in
  let e := with_state e sus (en_rl e) in
  match killed with
  | Err err => (Err err, e)
  | Ok _ =>
      match en_tier e orgID with
      | Err msg => (Err (ErrWrapped ("resolve tier: " +:+ msg)), e)
      | Ok tierName =>
          match en_tiers e !! tierName with
          | None => (Err ErrUnknownTier, e)
          | Some tier =>
              let caps :=
                if isCreate req then
                  let? _ := checkSize tier (r_NewSandbox req) in
                  checkLive tier (en_live e orgID) (r_NewSandbox req)
                else Ok tt in
              match caps with
              | Err err => (Err err, e)
              | Ok _ =>
                  let '(r, rl) := checkRates (λ i, clock (Datatypes.S i)) tier orgID req (en_rl e) in
                  (r, with_state e (en_sus e) rl)
              end
          end
      end
  end.

End enforcer.
Arguments Enforcer : clear implicits.

(** ** The gateway's seam (gateway_adapter.go) *)

Inductive Code := CodeForbidden | CodeRateLimited | CodeQuotaExceeded.

Definition envelopeFor (err : quota_error) : Code :=
  match err with
  | ErrSuspended | ErrUnknownTier => CodeForbidden
  | ErrRateLimited => CodeRateLimited
  | ErrConcurrencyExceeded | ErrAggregateExceeded | ErrSandboxTooLarge => CodeQuotaExceeded
  | ErrWrapped _ => CodeQuotaExceeded
  end.

Record Denial := { d_Err : quota_error; d_Envelope : Code }.

(** [ip] and [size] are what the adapter's [IPOf] and [SizeOf], when they are wired,
    derive from the request's context. *)
Definition adapter_Check {S} `{!SuspensionStore S} (clock : nat → Z) (ip : option string)
    (size : option SandboxSpec) (orgID op : string) (e : Enforcer S) : result Denial unit * Enforcer S :=
  let spec := if bool_decide (op = "sandbox.create") || bool_decide (op = "sandbox.fork")
              then default zero_spec size else zero_spec in
  let '(r, e) := Check_ clock orgID {| r_Op := op; r_IP := default "" ip; r_NewSandbox := spec |} e in
  (match r with
   | Ok _ => Ok tt
   | Err err => Err {| d_Err := err; d_Envelope := envelopeFor err |}
   end, e).

End Quota.
