(* ===== verification/QuotaTheorems.v ===== *)
(** * Quotas: theorems

    Suspended organizations are denied, with one create after the other the sandboxes of
    an organization stay within the caps of its tier that are wired, and a burst of
    requests is cut off at the tier's rate. *)

From S2P Require Import Prelude GoFloat Scheduler Suspension Quota.
Import GoFloat Suspension Quota.

Module QuotaTheorems.

#[local] Arguments checkLive : simpl never.
#[local] Arguments checkSize : simpl never.

(** ** The kill switch *)

Lemma checkSuspended_denies {S} `{!SuspensionStore S, !LawfulStore S} now org s sus :
  store_ok s → view s !! org = Some sus →
  ∃ err s', checkSuspended now org (Some s) = (Err err, Some s') ∧ store_ok s' ∧ view s' = view s ∧
    (err = ErrSuspended ∨ ∃ msg, err = ErrWrapped ("check suspension: " +:+ msg)).
Proof.
  intros Hok Hv. unfold checkSuspended. pose proof (is_law now org s Hok) as Hl.
  destruct (store_IsSuspended now org s) as [[[sus' b]|msg] s'].
  - destruct Hl as (Hok' & Hv' & Ha). unfold mem_IsSuspended in Ha. rewrite Hv in Ha.
    injection Ha as -> ->. eexists _, _. split_and!; eauto.
  - destruct Hl as (Hok' & Hv' & _). eexists _, _. split_and!; eauto.
Qed.

(** A suspended organization is denied.  Over any lawful store of suspensions, a
    request of a suspended organization is refused before any quota is looked at and
    without charging a rate bucket, also when the store cannot be read. *)
Theorem suspended_denied {S} `{!SuspensionStore S, !LawfulStore S} clock org req (e : Enforcer S) s sus :
  en_sus e = Some s → store_ok s → view s !! org = Some sus →
  match Check_ clock org req e with
  | (Ok _, _) => False
  | (Err err, e') =>
      (err = ErrSuspended ∨ ∃ msg, err = ErrWrapped ("check suspension: " +:+ msg)) ∧
      en_rl e' = en_rl e ∧ ∃ s', en_sus e' = Some s' ∧ view s' = view s
  end.
Proof.
  intros Hs Hok Hv. unfold Check_. rewrite Hs.
  destruct (checkSuspended_denies (clock 0%nat) org s sus Hok Hv) as (err & s' & -> & ? & ? & ?).
  simpl. split_and!; eauto.
Qed.

(** ** Footprints *)

(** What the live-usage source reports for the running sandboxes. *)
Definition sum (f : SandboxSpec → Z) (l : list SandboxSpec) : Z := foldr (λ s, Z.add (f s)) 0 l.

Definition usage (l : list SandboxSpec) : LiveUsage :=
  {| lu_ConcurrentSandboxes := Z.of_nat (length l); lu_VCPUs := sum ss_VCPUs l;
     lu_MemBytes := sum ss_MemBytes l; lu_StorageBytes := sum ss_StorageBytes l |}.

Inductive org_event :=
| ECreate (clock : nat → Z) (op ip : string) (spec : SandboxSpec)
| ETerminate (i : nat).

Definition spec_ok (s : SandboxSpec) : Prop :=
  0 ≤ ss_VCPUs s ∧ 0 ≤ ss_MemBytes s ∧ 0 ≤ ss_StorageBytes s.

#[global] Instance spec_ok_dec s : Decision (spec_ok s).
Proof. unfold spec_ok. apply _. Defined.

Section footprint.
Context {S : Type} `{!SuspensionStore S}.
Context (org : string).

(** How the adapter is wired: with the exact footprint and the size of a new sandbox, as it
    is meant to be, or as the gateway ships it, with the count of the running sandboxes and
    no size. *)
Inductive wiring := Exact | Shipped.

Definition running_object (orgID : string) (s : SandboxSpec) : SandboxObject :=
  {| so_OrgLabel := orgID; so_Phase := "Ready"; so_Replicas := 1 |}.

Definition live_of (w : wiring) (l : list SandboxSpec) : string → result string LiveUsage :=
  match w with
  | Exact => λ _, Ok (usage l)
  | Shipped => Count (λ orgID, Some (running_object orgID <$> l))
  end.

Definition with_live (w : wiring) (e : Enforcer S) (l : list SandboxSpec) : Enforcer S :=
  {| en_tiers := en_tiers e; en_tier := en_tier e; en_live := live_of w l;
     en_sus := en_sus e; en_rl := en_rl e |}.

(** A create runs when the adapter admits it; a running sandbox may end at any time. *)
Definition org_step (w : wiring) (st : Enforcer S * list SandboxSpec) (ev : org_event) : Enforcer S * list SandboxSpec :=
  let '(e, l) := st in
  match ev with
  | ETerminate i => (e, delete i l)
  | ECreate clock op ip spec =>
      let size := match w with Exact => Some spec | Shipped => None end in
      let '(r, e') := adapter_Check clock (Some ip) size org op (with_live w e l) in
      (e', if is_ok r then l ++ [spec] else l)
  end.

(** The caps of a tier, all of them in force. *)
Definition within_caps (t : Tier) (l : list SandboxSpec) : Prop :=
  Forall spec_ok l ∧
  Z.of_nat (length l) ≤ t_MaxConcurrentSandboxes t ∧
  sum ss_VCPUs l ≤ t_MaxAggregateVCPUs t ∧
  sum ss_MemBytes l ≤ t_MaxAggregateMemBytes t ∧
  sum ss_StorageBytes l ≤ t_MaxAggregateStorageBytes t.

(** The caps are set and far from the limits of their types. *)
Definition tier_capped (t : Tier) : Prop :=
  (0 < t_MaxConcurrentSandboxes t < 2 ^ 30) ∧
  (0 < t_MaxAggregateVCPUs t < 2 ^ 30 ∧ 0 < t_MaxSandboxVCPUs t < 2 ^ 30) ∧
  (0 < t_MaxAggregateMemBytes t < 2 ^ 60 ∧ 0 < t_MaxSandboxMemBytes t < 2 ^ 60) ∧
  (0 < t_MaxAggregateStorageBytes t < 2 ^ 60 ∧ 0 < t_MaxSandboxStorageBytes t < 2 ^ 60).

Lemma default_tiers_capped name t : DefaultTiers !! name = Some t → tier_capped t.
Proof.
  unfold DefaultTiers. rewrite !lookup_insert_Some.
  intros [[_ <-]|[_ [[_ <-]|[_ [[_ <-]|[_ ?]]]]]]; [by unfold tier_capped..|done].
Qed.

Lemma sum_app f l1 l2 : sum f (l1 ++ l2) = sum f l1 + sum f l2.
Proof. unfold sum. induction l1 as [|x l1 IH]; simpl; lia. Qed.

Lemma sum_delete f l i :
  Forall (λ s, 0 ≤ f s) l → sum f (delete i l) ≤ sum f l ∧ 0 ≤ sum f l.
Proof.
  intros Hl. revert i. induction Hl as [|x l Hx _ IH]; intros i; [destruct i; simpl; lia|].
  destruct i as [|i]; simpl; [|destruct (IH i)]; [destruct (IH 0%nat)|]; lia.
Qed.

Lemma size_admitted t s :
  tier_capped t → checkSize t s = Ok tt →
  ss_VCPUs s ≤ t_MaxSandboxVCPUs t ∧ ss_MemBytes s ≤ t_MaxSandboxMemBytes t ∧
  ss_StorageBytes s ≤ t_MaxSandboxStorageBytes t.
Proof.
  intros Ht. unfold checkSize, tier_capped in *.
  repeat case_match; try done; intros _;
    repeat match goal with H : _ && _ = false |- _ => apply andb_false_iff in H end; lia.
Qed.

(** The count is what runs. *)
Lemma count_running orgID l : Z.of_nat (length l) ≤ 2 ^ 31 → foldl (live_replicas orgID) 0 (running_object orgID <$> l) = Z.of_nat (length l).
Proof.
  induction l as [|s l IH] using rev_ind; [done|]. rewrite fmap_app, foldl_app, length_app. cbn [length foldl fmap list_fmap]. intros Hl.
  rewrite IH by lia. unfold live_replicas. rewrite bool_decide_eq_true_2 by done. cbn [negb so_Phase running_object so_Replicas].
  rewrite bool_decide_eq_false_2 by by_eval. cbn. rewrite int64_id by (unfold is_int64, min_int64, max_int64; lia). lia.
Qed.

Lemma count_admitted t l orgID s s0 : tier_capped t → Z.of_nat (length l) ≤ t_MaxConcurrentSandboxes t →
  checkLive t (live_of Shipped l orgID) s0 = Ok tt → Z.of_nat (length (l ++ [s])) ≤ t_MaxConcurrentSandboxes t.
Proof.
  intros [Ht _] Hl. unfold checkLive. simpl. rewrite count_running by lia.
  rewrite int64_id by (unfold is_int64, min_int64, max_int64; lia). rewrite length_app. cbn [length].
  destruct (_ && _) eqn:E; [done|]. intros _. apply andb_false_iff in E. lia.
Qed.

Lemma live_admitted t l s :
  tier_capped t → within_caps t l → spec_ok s → checkSize t s = Ok tt →
  checkLive t (Ok (usage l)) s = Ok tt → within_caps t (l ++ [s]).
Proof.
  intros Ht Hl Hs Hsize%size_admitted; [|done]. unfold checkLive. simpl.
  destruct Hl as (Hf & Hn & Hv & Hm & Hd). unfold spec_ok, tier_capped in *.
  assert (0 ≤ sum ss_VCPUs l ∧ 0 ≤ sum ss_MemBytes l ∧ 0 ≤ sum ss_StorageBytes l) as Hpos.
  { split_and!; apply (sum_delete _ l 0%nat); eapply Forall_impl; try done; unfold spec_ok; lia. }
  rewrite !int64_id, !int32_id by (unfold is_int64, is_int32, min_int64, max_int64, min_int32, max_int32; lia).
  intros Hc. unfold within_caps. rewrite length_app, !sum_app. simpl.
  repeat case_match; try done;
    repeat match goal with H : _ && _ = false |- _ => apply andb_false_iff in H end.
  split_and!; [|lia..]. apply Forall_app. split; [done|]. by apply Forall_singleton.
Qed.

Lemma check_admitted clock ip size op (e : Enforcer S) :
  op ∈ ["sandbox.create"; "sandbox.fork"] → is_ok (adapter_Check clock ip size org op e).1 = true →
  ∃ name t, en_tier e org = Ok name ∧ en_tiers e !! name = Some t ∧
    checkSize t (default zero_spec size) = Ok tt ∧ checkLive t (en_live e org) (default zero_spec size) = Ok tt.
Proof.
  intros Hop. unfold adapter_Check. assert (bool_decide (op = "sandbox.create") || bool_decide (op = "sandbox.fork") = true) as Hb.
  { do 2 case_bool_decide; try done. set_solver. }
  rewrite Hb. set (req := {| r_Op := op; r_IP := _; r_NewSandbox := _ |}).
  assert (isCreate req = true) as Hc by exact Hb.
  intros Hok. assert (is_ok (Check_ clock org req e).1 = true) as Hck.
  { destruct (Check_ clock org req e) as [[]]; done. }
  clear Hok. revert Hck. unfold Check_. destruct (checkSuspended _ _ _) as [[[]|] sus]; [|done]. simpl.
  destruct (en_tier e org) as [name|]; [|done]. destruct (en_tiers e !! name) as [t|] eqn:Ht; [|done].
  rewrite Hc. unfold rbind.
  destruct (checkSize t _) as [[]|] eqn:Hs; [|done].
  simpl. destruct (checkLive t _ _) as [[]|] eqn:Hl; [|done]. eauto 10.
Qed.

Lemma check_keeps clock req (e : Enforcer S) :
  en_tiers (Check_ clock org req e).2 = en_tiers e ∧ en_tier (Check_ clock org req e).2 = en_tier e.
Proof.
  unfold Check_. destruct (checkSuspended _ _ _) as [[[]|] sus]; [|done]. simpl.
  destruct (en_tier e org) as [name|]; [|done]. destruct (en_tiers e !! name) as [t|]; [|done].
  destruct (if isCreate req then _ else _); [|done]. by destruct (checkRates _ _ _ _ _).
Qed.

Lemma adapter_keeps clock ip size op (e : Enforcer S) :
  en_tiers (adapter_Check clock ip size org op e).2 = en_tiers e ∧ en_tier (adapter_Check clock ip size org op e).2 = en_tier e.
Proof. unfold adapter_Check. cbv zeta. pose proof (check_keeps clock {| r_Op := op; r_IP := default "" ip;
  r_NewSandbox := if bool_decide (op = "sandbox.create") || bool_decide (op = "sandbox.fork") then default zero_spec size else zero_spec |} e).
  by destruct (Check_ _ _ _ _). Qed.

(** What the wiring keeps the sandboxes within. *)
Definition bounded_by (w : wiring) (t : Tier) (l : list SandboxSpec) : Prop :=
  Z.of_nat (length l) ≤ t_MaxConcurrentSandboxes t ∧ (w = Exact → within_caps t l).

Lemma terminated_bounded w t l i : bounded_by w t l → bounded_by w t (delete i l).
Proof.
  assert (length (delete i l) ≤ length l)%nat as Hlen by (rewrite delete_take_drop, length_app, length_take, length_drop; lia).
  intros [Hn Hw]. split; [lia|]. intros Hx. destruct (Hw Hx) as (Hf & ? & ? & ? & ?).
  assert (∀ f, (∀ s, spec_ok s → 0 ≤ f s) → sum f (delete i l) ≤ sum f l) as Hd.
  { intros f Hp. apply sum_delete. eapply Forall_impl; [done|]. auto. }
  pose proof (Hd ss_VCPUs). pose proof (Hd ss_MemBytes). pose proof (Hd ss_StorageBytes).
  unfold within_caps, spec_ok in *. split; [by apply Forall_delete|].
  split_and!; [lia|etrans; [|done]; auto with lia..].
Qed.

Lemma org_step_ok w e l ev name t :
  en_tiers e = DefaultTiers → en_tier e org = Ok name → DefaultTiers !! name = Some t →
  bounded_by w t l →
  match ev with ECreate _ op _ spec => op ∈ ["sandbox.create"; "sandbox.fork"] ∧ spec_ok spec | _ => True end →
  let '(e', l') := org_step w (e, l) ev in
  en_tiers e' = DefaultTiers ∧ en_tier e' org = Ok name ∧ bounded_by w t l'.
Proof.
  intros Hts Hn Ht Hl Hev. destruct ev as [clock op ip spec|i]; cbn [org_step]; [|split_and!; [done..|by apply terminated_bounded]].
  destruct Hev as [Hop Hspec]. set (size := match w with Exact => _ | Shipped => _ end).
  pose proof (check_admitted clock (Some ip) size op (with_live w e l) Hop) as Ha.
  pose proof (adapter_keeps clock (Some ip) size op (with_live w e l)) as Hk.
  destruct (adapter_Check _ _ _ _ _ _) as [r e']. cbn [fst snd] in *. destruct Hk as [-> ->]. split_and!; [done..|].
  destruct r as [[]|]; [|done]. destruct Ha as (name' & t' & Hn' & Ht' & Hs & Hv); [done|]. cbn in Hn', Ht'.
  rewrite Hts in Ht'. assert (name' = name) as -> by congruence. simplify_eq. cbn [is_ok].
  pose proof (default_tiers_capped _ _ Ht) as Hcap. destruct Hl as [Hlen Hw]. destruct w; cbn in Hs, Hv.
  - assert (within_caps t (l ++ [spec])) as Hin by (eapply live_admitted; [done|by apply Hw|done..]). split; [apply Hin|done].
  - split; [by eapply count_admitted|done].
Qed.


End footprint.

(** ** Bursts *)

(** Requests to one bucket of the limiter, all at the same time. *)
Fixpoint allow_n (n : nat) (now : Z) (key : string) (kind : BucketKind) (rate : float64)
    (rl : RateLimiter) : list bool :=
  match n with
  | O => []
  | Datatypes.S n' =>
      let '(ok, rl) := Allow now key kind rate rate rl in ok :: allow_n n' now key kind rate rl
  end.

(** The same, on the tokens alone. *)
Fixpoint spend_n (n : nat) (tokens : float64) : list bool * float64 :=
  match n with
  | O => ([], tokens)
  | Datatypes.S n' =>
      if fleb (of_int 1) tokens
      then let '(l, t) := spend_n n' (fsub tokens (of_int 1)) in (true :: l, t)
      else ([], tokens)
  end.

Lemma Seconds_now now : fltb (of_int 0) (Seconds (time_sub now now)) = false.
Proof. replace (time_sub now now) with 0 by (unfold time_sub; by rewrite Z.sub_diag). done. Qed.

Lemma refill_now now rate burst tokens last :
  last = 0 ∨ last = now →
  refill now {| b_ratePerMinute := rate; b_burst := burst; b_tokens := tokens; b_last := last |} =
  {| b_ratePerMinute := rate; b_burst := burst; b_tokens := tokens; b_last := now |}.
Proof.
  intros Hlast. unfold refill. cbn [b_ratePerMinute b_burst b_tokens b_last].
  assert ((if time_is_zero last then now else last) = now) as ->.
  { unfold time_is_zero. destruct (Z.eqb_spec last 0), Hlast; subst; done. }
  by rewrite Seconds_now.
Qed.

(** The tokens of the bucket as the next request finds it. *)
Definition level (now : Z) (key : string) (kind : BucketKind) (tokens : float64) (rl : RateLimiter) : Prop :=
  ∃ rate burst, (rl : gmap (string * BucketKind) bucket) !! (key, kind) =
    Some {| b_ratePerMinute := rate; b_burst := burst; b_tokens := tokens; b_last := now |}.

Lemma Allow_now now key kind rate tokens rl :
  fleb rate (of_int 0) = false →
  level now key kind tokens rl ∨
    (rl : gmap (string * BucketKind) bucket) !! (key, kind) = None ∧ tokens = rate →
  let '(ok, rl') := Allow now key kind rate rate rl in
  ok = fleb (of_int 1) tokens ∧
  level now key kind (if ok then fsub tokens (of_int 1) else tokens) rl'.
Proof.
  intros Hr Hl. unfold Allow, allow. rewrite Hr.
  assert (∃ last, (last = 0 ∨ last = now) ∧
    match (rl : gmap (string * BucketKind) bucket) !! (key, kind) with
    | None => newBucket rate rate
    | Some b => {| b_ratePerMinute := rate; b_burst := rate; b_tokens := b_tokens b; b_last := b_last b |}
    end = {| b_ratePerMinute := rate; b_burst := rate; b_tokens := tokens; b_last := last |})
    as (last & Hlast & ->).
  { destruct Hl as [(r & b & ->)|[-> ->]]; [exists now|exists 0]; auto. }
  cbn [b_ratePerMinute]. rewrite Hr, refill_now by done. cbn [b_ratePerMinute b_burst b_tokens b_last].
  destruct (fleb (of_int 1) tokens) eqn:E; (split; [done|]); eexists _, _; by rewrite lookup_insert_eq.
Qed.

Lemma allow_n_spent n now key kind rate tokens rl :
  fleb rate (of_int 0) = false → fleb (of_int 1) tokens = false → level now key kind tokens rl →
  allow_n n now key kind rate rl = replicate n false.
Proof.
  intros Hr Ht. revert rl. induction n as [|n IH]; intros rl Hl; [done|]. cbn [allow_n replicate].
  pose proof (Allow_now now key kind rate tokens rl Hr (or_introl Hl)) as Ha. rewrite Ht in Ha.
  destruct (Allow _ _ _ _ _ _) as [ok rl']. destruct Ha as [-> Hl']. by rewrite IH.
Qed.

Lemma allow_n_spend n k now key kind rate tokens tokens' rl :
  fleb rate (of_int 0) = false →
  spend_n n tokens = (replicate n true, tokens') → fleb (of_int 1) tokens' = false →
  level now key kind tokens rl ∨
    (rl : gmap (string * BucketKind) bucket) !! (key, kind) = None ∧ tokens = rate →
  allow_n k now key kind rate rl = replicate (k `min` n) true ++ replicate (k - n) false.
Proof.
  intros Hr. revert k tokens rl. induction n as [|n IH]; intros k tokens rl Hs Ht Hl.
  - injection Hs as ->. rewrite Nat.min_0_r, Nat.sub_0_r. destruct k as [|k]; [done|].
    pose proof (Allow_now now key kind rate tokens' rl Hr Hl) as Ha. cbn [allow_n replicate app].
    rewrite Ht in Ha. destruct (Allow _ _ _ _ _ _) as [ok rl']. destruct Ha as [-> Hl'].
    by rewrite (allow_n_spent _ _ _ _ _ tokens').
  - destruct k as [|k]; [done|]. cbn [spend_n] in Hs.
    destruct (fleb (of_int 1) tokens) eqn:E; [|done].
    destruct (spend_n n _) as [l t] eqn:Hsn. injection Hs as Hl' ->.
    pose proof (Allow_now now key kind rate tokens rl Hr Hl) as Ha. cbn [allow_n].
    rewrite E in Ha. destruct (Allow _ _ _ _ _ _) as [ok rl']. destruct Ha as [-> Hlv].
    cbn [Nat.min replicate app Nat.sub]. f_equal. eapply IH; [|done|by left]. by rewrite Hsn, Hl'.
Qed.

(** The rates of the built-in tiers. *)
Definition tier_rates : list Z := [5; 30; 60; 120; 300; 1200].

Lemma tier_rates_spend :
  Forall (λ r, fleb (of_int r) (of_int 0) = false ∧
               spend_n (Z.to_nat r) (of_int r) = (replicate (Z.to_nat r) true, of_int 0)) tier_rates.
Proof.
  repeat (apply Forall_cons; split; [split; vm_compute; reflexivity|]). by apply Forall_nil.
Qed.

Lemma default_rates name t :
  DefaultTiers !! name = Some t →
  ∃ c a, c ∈ tier_rates ∧ a ∈ tier_rates ∧ t_CreationRatePerMinute t = of_int c ∧ t_APIRequestsPerMinute t = of_int a.
Proof.
  unfold DefaultTiers. rewrite !lookup_insert_Some.
  intros [[_ <-]|[_ [[_ <-]|[_ [[_ <-]|[_ ?]]]]]]; [exists 5, 60|exists 30, 300|exists 120, 1200|done];
    split_and!; (reflexivity || set_solver).
Qed.

(** A burst is cut off at the rate.  For both rates of every built-in tier, of [n]
    requests that hit a fresh bucket at the same time exactly the first ones up to the
    per-minute rate are allowed; the bucket's floating-point tokens lose nothing. *)
Theorem burst_exact name t n now key :
  DefaultTiers !! name = Some t →
  (∃ c, t_CreationRatePerMinute t = of_int (Z.of_nat c) ∧
    allow_n n now key BucketLifecycle (t_CreationRatePerMinute t) NewRateLimiter =
      replicate (n `min` c) true ++ replicate (n - c) false) ∧
  (∃ a, t_APIRequestsPerMinute t = of_int (Z.of_nat a) ∧
    ∀ kind, allow_n n now key kind (t_APIRequestsPerMinute t) NewRateLimiter =
      replicate (n `min` a) true ++ replicate (n - a) false).
Proof.
  intros Ht. apply default_rates in Ht as (c & a & Hc & Ha & -> & ->).
  assert (∀ r kind, r ∈ tier_rates → of_int r = of_int (Z.of_nat (Z.to_nat r)) ∧
    allow_n n now key kind (of_int r) NewRateLimiter =
      replicate (n `min` Z.to_nat r) true ++ replicate (n - Z.to_nat r) false) as Hb.
  { intros r kind Hr.
    pose proof (proj1 (Forall_forall _ _) tier_rates_spend r Hr) as [Hpos Hs]. split.
    - rewrite Z2Nat.id; [done|]. unfold tier_rates in Hr. set_unfold in Hr. lia.
    - eapply allow_n_spend; [done|exact Hs|done|]. right. split; [|done]. apply lookup_empty. }
  split; [exists (Z.to_nat c); by apply Hb|exists (Z.to_nat a)].
  split; [by apply (Hb a BucketLifecycle)|]. intros kind. by apply Hb.
Qed.

(** ** Concrete inputs *)

Definition ex_enforcer : Enforcer MemSuspensionStore :=
  {| en_tiers := DefaultTiers; en_tier := λ _, Ok TierFree; en_live := λ _, Ok (usage []);
     en_sus := Some ({["acme" := zero_suspension]} : gmap string Suspension); en_rl := NewRateLimiter |}.

Definition ex_spec : SandboxSpec := {| ss_VCPUs := 2; ss_MemBytes := gib; ss_StorageBytes := gib |}.

Lemma suspended_denied_witness :
  match Check_ (λ _, 100) "acme" {| r_Op := "sandbox.exec"; r_IP := ""; r_NewSandbox := zero_spec |} ex_enforcer with
  | (Ok _, _) => False
  | (Err err, e') =>
      (err = ErrSuspended ∨ ∃ msg, err = ErrWrapped ("check suspension: " +:+ msg)) ∧
      en_rl e' = en_rl ex_enforcer ∧
      ∃ s', en_sus e' = Some s' ∧ view s' = view ({["acme" := zero_suspension]} : gmap string Suspension)
  end.
Proof.
  eapply suspended_denied; [reflexivity|exact I|vm_compute; reflexivity].
Defined.

(** Of three creates on the free tier the third is refused, and runs after a termination. *)
Definition ex_events : list org_event :=
  [ECreate (λ _, 100) "sandbox.create" "10.0.0.1" ex_spec; ECreate (λ _, 200) "sandbox.fork" "" ex_spec;
   ECreate (λ _, 300) "sandbox.create" "" ex_spec; ETerminate 0;
   ECreate (λ _, 400) "sandbox.create" "" ex_spec].


(** As the gateway ships it, a sandbox of a thousand vCPUs passes on the free tier. *)
Example shipped_ignores_size :
  let huge := {| ss_VCPUs := 1000; ss_MemBytes := 1024 * gib; ss_StorageBytes := gib |} in
  let create := ECreate (λ _, 100) "sandbox.create" "" huge in
  (org_step "beta" Shipped (ex_enforcer, []) create).2 = [huge] ∧ (org_step "beta" Exact (ex_enforcer, []) create).2 = [] ∧
  t_MaxAggregateVCPUs tier_free < 1000.
Proof. vm_compute. split_and!; reflexivity. Qed.

(** Nothing is reserved between the count and the create: two creates that are checked before
    either runs are both admitted to the last place. *)
Example parallel_creates_overshoot :
  let e := with_live Shipped ex_enforcer [ex_spec] in
  let '(r1, e1) := adapter_Check (λ _, 100) None None "beta" "sandbox.create" e in
  let '(r2, e2) := adapter_Check (λ _, 100) None None "beta" "sandbox.create" e1 in
  r1 = Ok tt ∧ r2 = Ok tt ∧ t_MaxConcurrentSandboxes tier_free = 2.
Proof. vm_compute. split_and!; reflexivity. Qed.

Lemma burst_exact_witness :
  (∃ c, t_CreationRatePerMinute tier_free = of_int (Z.of_nat c) ∧
    allow_n 7 100 "org-create:beta" BucketLifecycle (t_CreationRatePerMinute tier_free) NewRateLimiter =
      replicate (7 `min` c) true ++ replicate (7 - c) false) ∧
  (∃ a, t_APIRequestsPerMinute tier_free = of_int (Z.of_nat a) ∧
    ∀ kind, allow_n 7 100 "org-create:beta" kind (t_APIRequestsPerMinute tier_free) NewRateLimiter =
      replicate (7 `min` a) true ++ replicate (7 - a) false).
Proof. apply (burst_exact TierFree). reflexivity. Defined.

End QuotaTheorems.
