(* ===== verification/Metering.v ===== *)
(** * internal/metering: the copy-on-write aware node report

    report.go.  Forks of a template map the same pages, so that the report counts
    what the forks of a template share once. *)

From Stdlib Require Import Ascii.
From S2P Require Import Prelude.

Module Metering.

Record Sample := {
  ms_ID : string;
  ms_Template : string;
  ms_MemoryUnique : Z;
  ms_MemoryShared : Z;
  ms_DiskUnique : Z;
  ms_DiskShared : Z;
  ms_EgressBytes : Z;
  ms_GPUCount : Z;
  ms_GPUSeconds : Z;
}.

(** A row has the layout of a sample, and [Aggregate] converts one to the other. *)
Definition SandboxMetering : Type := Sample.

Record TemplateMetering := {
  tm_Template : string;
  tm_ForkCount : Z;
  tm_SharedOnce : Z;
  tm_DiskSharedOnce : Z;
}.

Record Report := {
  r_Sandboxes : list SandboxMetering;
  r_Templates : list TemplateMetering;
  r_UsedCoWAware : Z;
  r_UsedNaive : Z;
  r_CoWSavings : Z;
  r_TotalUnique : Z;
  r_DiskUsedCoWAware : Z;
  r_DiskUsedNaive : Z;
  r_DiskCoWSavings : Z;
  r_DiskTotalUnique : Z;
  r_TotalGPUSeconds : Z;
}.

Definition zero_report : Report :=
  {| r_Sandboxes := []; r_Templates := []; r_UsedCoWAware := 0; r_UsedNaive := 0; r_CoWSavings := 0;
     r_TotalUnique := 0; r_DiskUsedCoWAware := 0; r_DiskUsedNaive := 0; r_DiskCoWSavings := 0;
     r_DiskTotalUnique := 0; r_TotalGPUSeconds := 0 |}.

(** ** Aggregate *)

Record group := { g_template : string; g_forkCount : Z; g_sharedMax : Z; g_diskMax : Z }.

Definition NUL : string := String "000" "".

(** The key of a sample's group: a sandbox without a template is a group of its own. *)
Definition group_key (s : Sample) : string :=
  if bool_decide (ms_Template s = "") then NUL +:+ "sandbox" +:+ NUL +:+ ms_ID s else ms_Template s.

(** The sums of the loop over the samples, the groups and the order they appeared in. *)
Record totals := {
  t_unique : Z;
  t_naive : Z;
  t_diskUnique : Z;
  t_diskNaive : Z;
  t_gpu : Z;
  t_groups : gmap string group;
  t_order : list string;
  t_sandboxes : list SandboxMetering;
}.

Definition no_totals : totals :=
  {| t_unique := 0; t_naive := 0; t_diskUnique := 0; t_diskNaive := 0; t_gpu := 0; t_groups := ∅;
     t_order := []; t_sandboxes := [] |}.

(** A fork joins its group. *)
Definition join (s : Sample) (g : group) : group :=
  {| g_template := g_template g; g_forkCount := int64 (g_forkCount g + 1);
     g_sharedMax := if g_sharedMax g <? ms_MemoryShared s then ms_MemoryShared s else g_sharedMax g;
     g_diskMax := if g_diskMax g <? ms_DiskShared s then ms_DiskShared s else g_diskMax g |}.

Definition add_sample (t : totals) (s : Sample) : totals :=
  let key := group_key s in
  let '(g, order) :=
    match t_groups t !! key with
    | Some g => (g, t_order t)
    | None => ({| g_template := ms_Template s; g_forkCount := 0; g_sharedMax := 0; g_diskMax := 0 |},
               t_order t ++ [key])
    end in
  {| t_unique := int64 (t_unique t + ms_MemoryUnique s);
     t_naive := int64 (t_naive t + ms_MemoryShared s);
     t_diskUnique := int64 (t_diskUnique t + ms_DiskUnique s);
     t_diskNaive := int64 (t_diskNaive t + ms_DiskShared s);
     t_gpu := int64 (t_gpu t + ms_GPUSeconds s);
     t_groups := <[key := join s g]> (t_groups t);
     t_order := order;
     t_sandboxes := t_sandboxes t ++ [s] |}.

(** The loop over the groups: the rows and the totals of what is shared. *)
Definition add_template (groups : gmap string group) (acc : list TemplateMetering * Z * Z) (key : string) :
    list TemplateMetering * Z * Z :=
  let '(templates, shared, disk) := acc in
  match groups !! key with
  | Some g =>
      (templates ++ [{| tm_Template := g_template g; tm_ForkCount := g_forkCount g;
                        tm_SharedOnce := g_sharedMax g; tm_DiskSharedOnce := g_diskMax g |}],
       int64 (shared + g_sharedMax g), int64 (disk + g_diskMax g))
  | None => acc
  end.

Definition template_less (a b : TemplateMetering) : bool := str_ltb (tm_Template a) (tm_Template b).
Definition sandbox_less (a b : SandboxMetering) : bool := str_ltb (ms_ID a) (ms_ID b).

Definition Aggregate `{!SliceSort} (samples : list Sample) : Report :=
  match samples with
  | [] => zero_report
  | _ =>
      let t := foldl add_sample no_totals samples in
      let '(templates, sharedOnceTotal, diskSharedOnceTotal) :=
        foldl (add_template (t_groups t)) ([], 0, 0) (t_order t) in
      let usedNaive := int64 (t_naive t + t_unique t) in
      let diskUsedNaive := int64 (t_diskNaive t + t_diskUnique t) in
      let usedCoWAware := int64 (t_unique t + sharedOnceTotal) in
      let diskUsedCoWAware := int64 (t_diskUnique t + diskSharedOnceTotal) in
      {| r_Sandboxes := sort_slice sandbox_less (t_sandboxes t);
         r_Templates := sort_slice template_less templates;
         r_UsedCoWAware := usedCoWAware;
         r_UsedNaive := usedNaive;
         r_CoWSavings := int64 (usedNaive - usedCoWAware);
         r_TotalUnique := t_unique t;
         r_DiskUsedCoWAware := diskUsedCoWAware;
         r_DiskUsedNaive := diskUsedNaive;
         r_DiskCoWSavings := int64 (diskUsedNaive - diskUsedCoWAware);
         r_DiskTotalUnique := t_diskUnique t;
         r_TotalGPUSeconds := t_gpu t |}
  end.

Definition SharedOnceTotal (r : Report) : Z := int64 (r_UsedCoWAware r - r_TotalUnique r).

End Metering.
