(* ===== verification/Usage.v ===== *)
(** * internal/usage: from metering reports to billable usage records

    usage.go, store.go, collector.go, termination.go, husksource.go, livesource.go
    and the roll-up of api.go.  A node's report becomes samples, one per sandbox;
    the collector keeps the recent samples and integrates them into records per
    sandbox and window, which it writes to a store.  An HTTP scrape is a function
    from an endpoint to the report it returns, if any. *)

From S2P Require Import Prelude GoFloat Metering.
Import GoFloat.

Module Usage.

Definition bytesPerGiB : float64 := of_int (Z.shiftl 1 30).

(** ** Data *)

Record Config := { cfg_Window : Z; cfg_MaxHold : Z }.

Definition DefaultConfig : Config := {| cfg_Window := 60 * second; cfg_MaxHold := 120 * second |}.

Record Sample := {
  s_OrgID : string;
  s_SandboxID : string;
  s_Region : string;
  s_Node : string;
  s_Timestamp : Z;
  s_VCPUs : Z;
  s_MemUniqueBytes : Z;
  s_MemSharedAmortizedBytes : Z;
  s_DiskBytes : Z;
  s_EgressBytes : Z;
  s_GPUSeconds : Z;
}.

Definition memLevel (s : Sample) : Z := int64 (s_MemUniqueBytes s + s_MemSharedAmortizedBytes s).

Record UsageRecord := {
  u_OrgID : string;
  u_SandboxID : string;
  u_Region : string;
  u_Window : Z;
  u_VCPUSeconds : float64;
  u_MemGiBSeconds : float64;
  u_StorageGiBHours : float64;
  u_EgressBytes : Z;
  u_GPUSeconds : Z;
}.

(** ** Integration (usage.go) *)

(** [Time.Truncate]: down to a multiple of [d] since the zero time. *)
Definition Truncate (t d : Z) : Z := if d <=? 0 then t else t - t mod d.

Definition counterStep (prev curr : Z) : Z := if prev <=? curr then int64 (curr - prev) else curr.

(** The samples of each sandbox. *)
Definition by_sandbox (samples : list Sample) : gmap string (list Sample) :=
  foldl (λ m s, <[s_SandboxID s := default [] (m !! s_SandboxID s) ++ [s]]> m) ∅ samples.

(** A time is its instant.  A key of type [time.Time] also has a location and may have a
    monotonic reading; the samples of a collector are given times of one origin, where those
    of one instant are equal as keys. *)
Definition dedupe_step (acc : gset Z * list Sample) (s : Sample) : gset Z * list Sample :=
  let '(seen, out) := acc in
  if bool_decide (s_Timestamp s ∈ seen) then acc else ({[s_Timestamp s]} ∪ seen, out ++ [s]).

Definition dedupeByTimestamp (group : list Sample) : list Sample := (foldl dedupe_step (∅, []) group).2.

Definition before (a b : Sample) : bool := s_Timestamp a <? s_Timestamp b.

(** The records of an integration, by sandbox and window. *)
Abbreviation records := (gmap (string * Z) UsageRecord) (only parsing).

Definition empty_record (sandbox : string) (a : Sample) (w : Z) : UsageRecord :=
  {| u_OrgID := s_OrgID a; u_SandboxID := sandbox; u_Region := s_Region a; u_Window := w;
     u_VCPUSeconds := of_int 0; u_MemGiBSeconds := of_int 0; u_StorageGiBHours := of_int 0;
     u_EgressBytes := 0; u_GPUSeconds := 0 |}.

(** [recs[k]], created from the sample when absent. *)
Definition record_at (sandbox : string) (a : Sample) (w : Z) (recs : records) : UsageRecord :=
  default (empty_record sandbox a w) (recs !! (sandbox, w)).

(** A slice of a sample's interval accrues to the window [w]. *)
Definition accrue (a : Sample) (ns : Z) (r : UsageRecord) : UsageRecord :=
  let secs := Seconds ns in
  {| u_OrgID := u_OrgID r; u_SandboxID := u_SandboxID r; u_Region := u_Region r; u_Window := u_Window r;
     u_VCPUSeconds := fadd (u_VCPUSeconds r) (fmul (of_int (s_VCPUs a)) secs);
     u_MemGiBSeconds :=
       fadd (u_MemGiBSeconds r) (fmul (fdiv (of_int (memLevel a)) bytesPerGiB) secs);
     u_StorageGiBHours :=
       fadd (u_StorageGiBHours r)
         (fmul (fdiv (of_int (s_DiskBytes a)) bytesPerGiB) (fdiv secs (of_int 3600)));
     u_EgressBytes := u_EgressBytes r; u_GPUSeconds := u_GPUSeconds r |}.

(** The loop over the windows that an interval touches, with fuel. *)
Fixpoint interval_loop (fuel : nat) (sandbox : string) (a : Sample) (start end_ window : Z)
    (recs : records) : records :=
  match fuel with
  | O => recs
  | S fuel =>
      if start <? end_ then
        let w := Truncate start window in
        let windowEnd := w + window in
        let sliceEnd := if windowEnd <? end_ then windowEnd else end_ in
        let r := accrue a (time_sub sliceEnd start) (record_at sandbox a w recs) in
        interval_loop fuel sandbox a sliceEnd end_ window (<[(sandbox, w) := r]> recs)
      else recs
  end.

(** The windows that an interval touches are at most two more than it holds in full. *)
Definition interval_fuel (start end_ window : Z) : nat := Z.to_nat ((end_ - start) / window + 3).

Definition integrateInterval (sandbox : string) (a : Sample) (start end_ window : Z) (recs : records) : records :=
  interval_loop (interval_fuel start end_ window) sandbox a start end_ window recs.

(** The loop over the consecutive samples of a sandbox for the rates. *)
Fixpoint rate_loop (cfg : Config) (sandbox : string) (group : list Sample) (recs : records) : records :=
  match group with
  | a :: ((b :: _) as group') =>
      let span := time_sub (s_Timestamp b) (s_Timestamp a) in
      let recs :=
        if span <=? 0 then recs
        else
          let held := if cfg_MaxHold cfg <? span then cfg_MaxHold cfg else span in
          integrateInterval sandbox a (s_Timestamp a) (s_Timestamp a + held) (cfg_Window cfg) recs in
      rate_loop cfg sandbox group' recs
  | _ => recs
  end.

Definition add_counters (egress gpu : Z) (r : UsageRecord) : UsageRecord :=
  {| u_OrgID := u_OrgID r; u_SandboxID := u_SandboxID r; u_Region := u_Region r; u_Window := u_Window r;
     u_VCPUSeconds := u_VCPUSeconds r; u_MemGiBSeconds := u_MemGiBSeconds r;
     u_StorageGiBHours := u_StorageGiBHours r;
     u_EgressBytes := int64 (u_EgressBytes r + egress); u_GPUSeconds := int64 (u_GPUSeconds r + gpu) |}.

(** The loop over the consecutive samples of a sandbox for the counters. *)
Fixpoint counter_loop (cfg : Config) (sandbox : string) (group : list Sample) (recs : records) : records :=
  match group with
  | a :: ((b :: _) as group') =>
      let egress := counterStep (s_EgressBytes a) (s_EgressBytes b) in
      let gpu := counterStep (s_GPUSeconds a) (s_GPUSeconds b) in
      let recs :=
        if (egress =? 0) && (gpu =? 0) then recs
        else
          let w := Truncate (s_Timestamp a) (cfg_Window cfg) in
          <[(sandbox, w) := add_counters egress gpu (record_at sandbox a w recs)]> recs in
      counter_loop cfg sandbox group' recs
  | _ => recs
  end.

Definition record_less (a b : UsageRecord) : bool :=
  if negb (bool_decide (u_SandboxID a = u_SandboxID b)) then str_ltb (u_SandboxID a) (u_SandboxID b)
  else u_Window a <? u_Window b.

Definition norm_config (cfg : Config) : Config :=
  {| cfg_Window := if cfg_Window cfg <=? 0 then cfg_Window DefaultConfig else cfg_Window cfg;
     cfg_MaxHold := if cfg_MaxHold cfg <=? 0 then cfg_MaxHold DefaultConfig else cfg_MaxHold cfg |}.

Section integrate.
Context `{!SliceSort, !MapRange}.

Definition integrate_sandbox (cfg : Config) (recs : records) (kv : string * list Sample) : records :=
  let '(sandbox, group) := kv in
  let group := sort_slice before (dedupeByTimestamp group) in
  counter_loop cfg sandbox group (rate_loop cfg sandbox group recs).

Definition Integrate (samples : list Sample) (cfg : Config) : list UsageRecord :=
  let cfg := norm_config cfg in
  let recs := foldl (integrate_sandbox cfg) ∅ (map_range "bySandbox" (by_sandbox samples)) in
  sort_slice record_less (map_range "recs" recs).*2.

End integrate.

(** ** Samples from a report (usage.go) *)

Record Reconciliation := { rc_Node : string; rc_CoWAware : Z; rc_Naive : Z; rc_CoWSavings : Z }.

Definition with_shared (n : Z) (s : Sample) : Sample :=
  {| s_OrgID := s_OrgID s; s_SandboxID := s_SandboxID s; s_Region := s_Region s; s_Node := s_Node s;
     s_Timestamp := s_Timestamp s; s_VCPUs := s_VCPUs s; s_MemUniqueBytes := s_MemUniqueBytes s;
     s_MemSharedAmortizedBytes := n; s_DiskBytes := s_DiskBytes s; s_EgressBytes := s_EgressBytes s;
     s_GPUSeconds := s_GPUSeconds s |}.

(** The forks of each template and what they share, the last row of a name winning. *)
Definition tinfo : Type := Z * Z.
Definition template_info (report : Metering.Report) : gmap string tinfo :=
  foldl (λ m t, <[Metering.tm_Template t := (Metering.tm_ForkCount t, Metering.tm_SharedOnce t)]> m) ∅
    (Metering.r_Templates report).

Record sampling := { sg_assigned : gmap string Z; sg_firstIdx : gmap string nat; sg_samples : list Sample }.

Section samples.
Context `{!MapRange}.
Variable node : string.
Variable at_ : Z.
Variable orgOf : string → option string.
Variable vcpusOf : string → Z.
Variable regionOf : option (string → string).

(** The even share of a fork of the template. *)
Definition amortized (tmpl : gmap string tinfo) (template : string) : Z :=
  match tmpl !! template with
  | Some (forks, sharedOnce) => if 0 <? forks then int64 (Z.quot sharedOnce forks) else 0
  | None => 0
  end.

Definition sample_step (tmpl : gmap string tinfo) (acc : sampling) (sb : Metering.SandboxMetering) : sampling :=
  match orgOf (Metering.ms_ID sb) with
  | None => acc
  | Some org =>
      let region := match regionOf with Some f => f (Metering.ms_ID sb) | None => "" end in
      let template := Metering.ms_Template sb in
      let share := amortized tmpl template in
      let idx := length (sg_samples acc) in
      {| sg_assigned :=
           if bool_decide (template = "") then sg_assigned acc
           else <[template := int64 (default 0 (sg_assigned acc !! template) + share)]> (sg_assigned acc);
         sg_firstIdx :=
           if bool_decide (template = "") then sg_firstIdx acc
           else match sg_firstIdx acc !! template with
                | Some _ => sg_firstIdx acc
                | None => <[template := idx]> (sg_firstIdx acc)
                end;
         sg_samples := sg_samples acc ++
           [{| s_OrgID := org; s_SandboxID := Metering.ms_ID sb; s_Region := region; s_Node := node;
               s_Timestamp := at_; s_VCPUs := vcpusOf (Metering.ms_ID sb);
               s_MemUniqueBytes := Metering.ms_MemoryUnique sb; s_MemSharedAmortizedBytes := share;
               s_DiskBytes := int64 (Metering.ms_DiskUnique sb + Metering.ms_DiskShared sb);
               s_EgressBytes := Metering.ms_EgressBytes sb; s_GPUSeconds := Metering.ms_GPUSeconds sb |}] |}
  end.

(** The remainder of the division goes to the first fork of the template. *)
Definition push_remainder (acc : sampling) (samples : list Sample) (kv : string * tinfo) : list Sample :=
  let '(t, (forks, sharedOnce)) := kv in
  if forks =? 0 then samples
  else match sg_firstIdx acc !! t with
       | None => samples
       | Some idx =>
           let rem := int64 (sharedOnce - default 0 (sg_assigned acc !! t)) in
           alter (λ s, with_shared (int64 (s_MemSharedAmortizedBytes s + rem)) s) idx samples
       end.

Definition SamplesFromReport (report : Metering.Report) : list Sample * Reconciliation :=
  let tmpl := template_info report in
  let acc := foldl (sample_step tmpl) {| sg_assigned := ∅; sg_firstIdx := ∅; sg_samples := [] |}
               (Metering.r_Sandboxes report) in
  (foldl (push_remainder acc) (sg_samples acc) (map_range "tmpl" tmpl),
   {| rc_Node := node; rc_CoWAware := Metering.r_UsedCoWAware report; rc_Naive := Metering.r_UsedNaive report;
      rc_CoWSavings := int64 (Metering.r_UsedNaive report - Metering.r_UsedCoWAware report) |}).

End samples.

(** ** The roll-up (api.go) *)

(** Dollars per unit. *)
Record PriceList := {
  VCPUSecond : float64;
  MemGiBSecond : float64;
  StorageGiBHour : float64;
  EgressGiB : float64;
  GPUSecond : float64;
}.

Record Totals := {
  VCPUSeconds : float64;
  MemGiBSeconds : float64;
  StorageGiBHours : float64;
  EgressBytes : Z;
  GPUSeconds : Z;
}.

Definition zero_totals : Totals :=
  {| VCPUSeconds := of_int 0; MemGiBSeconds := of_int 0; StorageGiBHours := of_int 0; EgressBytes := 0;
     GPUSeconds := 0 |}.

Definition add_record (t : Totals) (r : UsageRecord) : Totals :=
  {| VCPUSeconds := fadd (VCPUSeconds t) (u_VCPUSeconds r);
     MemGiBSeconds := fadd (MemGiBSeconds t) (u_MemGiBSeconds r);
     StorageGiBHours := fadd (StorageGiBHours t) (u_StorageGiBHours r);
     EgressBytes := int64 (EgressBytes t + u_EgressBytes r);
     GPUSeconds := int64 (GPUSeconds t + u_GPUSeconds r) |}.

Definition sub_record (t : Totals) (r : UsageRecord) : Totals :=
  {| VCPUSeconds := fsub (VCPUSeconds t) (u_VCPUSeconds r);
     MemGiBSeconds := fsub (MemGiBSeconds t) (u_MemGiBSeconds r);
     StorageGiBHours := fsub (StorageGiBHours t) (u_StorageGiBHours r);
     EgressBytes := int64 (EgressBytes t - u_EgressBytes r);
     GPUSeconds := int64 (GPUSeconds t - u_GPUSeconds r) |}.

Definition rollUp (recs : list UsageRecord) : Totals := foldl add_record zero_totals recs.

Record Cost := {
  c_VCPU : float64; c_Mem : float64; c_Storage : float64; c_Egress : float64; c_GPU : float64;
  c_Total : float64;
}.

Definition cost (p : PriceList) (t : Totals) : Cost :=
  let egressGiB := fdiv (of_int (EgressBytes t)) bytesPerGiB in
  let vcpu := fmul (VCPUSeconds t) (VCPUSecond p) in
  let mem := fmul (MemGiBSeconds t) (MemGiBSecond p) in
  let storage := fmul (StorageGiBHours t) (StorageGiBHour p) in
  let egress := fmul egressGiB (EgressGiB p) in
  let gpu := fmul (of_int (GPUSeconds t)) (GPUSecond p) in
  {| c_VCPU := vcpu; c_Mem := mem; c_Storage := storage; c_Egress := egress; c_GPU := gpu;
     c_Total := fadd (fadd (fadd (fadd vcpu mem) storage) egress) gpu |}.

(** ** Stores of records (store.go) *)

Class UsageStore (S : Type) := {
  UpsertRecord : UsageRecord → S → result string unit * S;
  ListRecords : string → Z → Z → S → result string (list UsageRecord) * S;
}.

Definition recordKey : Type := string * string * Z.

Definition DefaultRetentionWindows : Z := 24 * 60.

Record MemUsageStore := {
  ms_records : gmap recordKey UsageRecord;
  ms_retentionWindows : Z;
  ms_cumByOrg : gmap string Totals;
}.

Definition NewMemUsageStoreWithRetention (retentionWindows : Z) : MemUsageStore :=
  {| ms_records := ∅;
     ms_retentionWindows := if retentionWindows <=? 0 then DefaultRetentionWindows else retentionWindows;
     ms_cumByOrg := ∅ |}.

Definition NewMemUsageStore : MemUsageStore := NewMemUsageStoreWithRetention DefaultRetentionWindows.

Definition key_of (rec : UsageRecord) : recordKey := (u_OrgID rec, u_SandboxID rec, u_Window rec).

Section store.
Context `{!SliceSort, !MapRange}.

(** The windows present, each once. *)
Definition windows_seen (recs : gmap recordKey UsageRecord) : gset Z := list_to_set (map_to_list recs).*1.*2.

Definition evictOldWindowsLocked (s : MemUsageStore) : MemUsageStore :=
  let seen := windows_seen (ms_records s) in
  if Z.of_nat (size seen) <=? ms_retentionWindows s then s
  else
    let windows := sort_slice Z.ltb (elements seen) in
    match windows !! (length windows - Z.to_nat (ms_retentionWindows s))%nat with
    | None => s
    | Some cutoff =>
        {| ms_records := filter (λ kv, cutoff ≤ kv.1.2) (ms_records s);
           ms_retentionWindows := ms_retentionWindows s; ms_cumByOrg := ms_cumByOrg s |}
    end.

Definition mem_UpsertRecord (rec : UsageRecord) (s : MemUsageStore) : MemUsageStore :=
  let k := key_of rec in
  let cum := add_record (default zero_totals (ms_cumByOrg s !! u_OrgID rec)) rec in
  let cum := match ms_records s !! k with Some prev => sub_record cum prev | None => cum end in
  evictOldWindowsLocked
    {| ms_records := <[k := rec]> (ms_records s); ms_retentionWindows := ms_retentionWindows s;
       ms_cumByOrg := <[u_OrgID rec := cum]> (ms_cumByOrg s) |}.

(** Whether a record is the organization's and in [from, to); a zero bound is none. *)
Definition listed (orgID : string) (from to : Z) (kv : recordKey * UsageRecord) : Prop :=
  kv.1.1.1 = orgID ∧ (from = 0 ∨ from ≤ u_Window kv.2) ∧ (to = 0 ∨ u_Window kv.2 < to).

#[global] Instance listed_dec orgID from to kv : Decision (listed orgID from to kv).
Proof. unfold listed. apply _. Defined.

Definition mem_ListRecords (orgID : string) (from to : Z) (s : MemUsageStore) : list UsageRecord :=
  sort_slice record_less (filter (listed orgID from to) (map_range "records" (ms_records s))).*2.

Definition TotalsByOrg (s : MemUsageStore) : gmap string Totals := ms_cumByOrg s.

#[global] Instance mem_usage_store : UsageStore MemUsageStore := {|
  UpsertRecord rec s := (Ok tt, mem_UpsertRecord rec s);
  ListRecords orgID from to s := (Ok (mem_ListRecords orgID from to s), s);
|}.

End store.

(** ** Terminations (termination.go) *)

Record Termination := {
  t_VMID : string;
  t_APIID : string;
  t_OrgID : string;
  t_Region : string;
  t_StartedAt : Z;
  t_At : Z;
}.

Definition terminationLogCap : Z := 4096.

(** The pending events, oldest first; [None] for a log that is not wired. *)
Definition TerminationLog : Type := option (list Termination).

Definition Record_ (t : Termination) (l : TerminationLog) : TerminationLog :=
  match l with
  | None => None
  | Some pending =>
      let pending := if terminationLogCap <=? Z.of_nat (length pending) then tail pending else pending in
      Some (pending ++ [t])
  end.

Definition Drain (l : TerminationLog) : list Termination * TerminationLog :=
  match l with None => ([], None) | Some pending => (pending, Some []) end.

(** ** Sources (collector.go, livesource.go, husksource.go) *)

(** What a scrape of an endpoint returns: nothing when it is not reachable, answers
    with another status than 200 or with a body that does not decode. *)
Definition scraper : Type := string → option Metering.Report.

Record NodeEndpoint := { ne_Name : string; ne_HTTPEndpoint : string }.

Section sources.
Context `{!MapRange}.
Variable scrape_at : scraper.
Variable vcpus : string → Z.

(** An endpoint that is not known is not scraped. *)
Definition scrape (endpoint : string) : option Metering.Report :=
  if bool_decide (endpoint = "") then None else scrape_at endpoint.

(** [NodeRegistrySource.Collect]: the samples and the number of skipped nodes. *)
Definition node_Collect (at_ : Z) (orgFor : string → option string) (nodes : list NodeEndpoint)
    (skipped : Z) : list Sample * Z :=
  foldl (λ '(out, skipped) node,
    match scrape (ne_HTTPEndpoint node) with
    | None => (out, int64 (skipped + 1))
    | Some report => (out ++ (SamplesFromReport (ne_Name node) at_ orgFor vcpus None report).1, skipped)
    end) ([], skipped) nodes.

Record HuskPod := {
  hp_VMID : string;
  hp_APIID : string;
  hp_OrgID : string;
  hp_Region : string;
  hp_Endpoint : string;
}.

Definition terminationStateRetention : Z := 15 * minute.

Record HuskSource := {
  hs_skipped : Z;
  hs_terminations : TerminationLog;
  hs_last : gmap string Sample;
  hs_finalized : gmap string Z;
  hs_maxHold : Z;
}.

Definition SetTerminations (log : TerminationLog) (maxHold : Z) (s : HuskSource) : HuskSource :=
  {| hs_skipped := hs_skipped s; hs_terminations := log; hs_last := hs_last s;
     hs_finalized := hs_finalized s;
     hs_maxHold := if maxHold <=? 0 then cfg_MaxHold DefaultConfig else maxHold |}.

Definition with_sandbox (id : string) (s : Sample) : Sample :=
  {| s_OrgID := s_OrgID s; s_SandboxID := id; s_Region := s_Region s; s_Node := s_Node s;
     s_Timestamp := s_Timestamp s; s_VCPUs := s_VCPUs s; s_MemUniqueBytes := s_MemUniqueBytes s;
     s_MemSharedAmortizedBytes := s_MemSharedAmortizedBytes s; s_DiskBytes := s_DiskBytes s;
     s_EgressBytes := s_EgressBytes s; s_GPUSeconds := s_GPUSeconds s |}.

Definition with_time (t : Z) (s : Sample) : Sample :=
  {| s_OrgID := s_OrgID s; s_SandboxID := s_SandboxID s; s_Region := s_Region s; s_Node := s_Node s;
     s_Timestamp := t; s_VCPUs := s_VCPUs s; s_MemUniqueBytes := s_MemUniqueBytes s;
     s_MemSharedAmortizedBytes := s_MemSharedAmortizedBytes s; s_DiskBytes := s_DiskBytes s;
     s_EgressBytes := s_EgressBytes s; s_GPUSeconds := s_GPUSeconds s |}.

(** The samples of one pod, and whether it was skipped. *)
Definition podSamples (at_ : Z) (pod : HuskPod) : list Sample * bool :=
  match scrape (hp_Endpoint pod) with
  | None => ([], true)
  | Some report =>
      let orgOf id := if bool_decide (id = hp_VMID pod) then Some (hp_OrgID pod) else None in
      let regionOf id := if bool_decide (id = hp_VMID pod) then hp_Region pod else "" in
      let samples := (SamplesFromReport (hp_VMID pod) at_ orgOf vcpus (Some regionOf) report).1 in
      (if bool_decide (hp_APIID pod = "") then samples else with_sandbox (hp_APIID pod) <$> samples, false)
  end.

(** A released claim's final samples, and the state after. *)
Definition final_step (at_ maxHold : Z) (acc : list Sample * gmap string Sample * gmap string Z)
    (t : Termination) : list Sample * gmap string Sample * gmap string Z :=
  let '(out, last, finalized) := acc in
  if bool_decide (t_VMID t = "") || bool_decide (t_OrgID t = "") || time_is_zero (t_At t) then acc
  else match finalized !! t_VMID t with
  | Some _ => acc
  | None =>
      let finalized := <[t_VMID t := at_]> finalized in
      match last !! t_VMID t with
      | Some lastSample =>
          (if s_Timestamp lastSample <? t_At t then out ++ [with_time (t_At t) lastSample] else out,
           delete (t_VMID t) last, finalized)
      | None =>
          if time_is_zero (t_StartedAt t) then (out, last, finalized)
          else
            let minStart := t_At t - maxHold in
            let start := if t_StartedAt t <? minStart then minStart else t_StartedAt t in
            if negb (start <? t_At t) then (out, last, finalized)
            else
              let id := if bool_decide (t_APIID t = "") then t_VMID t else t_APIID t in
              let first := {| s_OrgID := t_OrgID t; s_SandboxID := id; s_Region := t_Region t;
                              s_Node := t_VMID t; s_Timestamp := start; s_VCPUs := vcpus id;
                              s_MemUniqueBytes := 0; s_MemSharedAmortizedBytes := 0; s_DiskBytes := 0;
                              s_EgressBytes := 0; s_GPUSeconds := 0 |} in
              (out ++ [first; with_time (t_At t) first], last, finalized)
      end
  end.

(** The newest sample of each pod of the cycle. *)
Definition remember (last : gmap string Sample) (pr : HuskPod * list Sample) : gmap string Sample :=
  match list.last pr.2 with Some s => <[hp_VMID pr.1 := s]> last | None => last end.

Definition appendFinalSamples (out : list Sample) (results : list (HuskPod * list Sample)) (at_ : Z)
    (s : HuskSource) : list Sample * HuskSource :=
  match hs_terminations s with
  | None => (out, s)
  | Some _ =>
      let last := foldl remember (hs_last s) results in
      let maxHold := if hs_maxHold s <=? 0 then cfg_MaxHold DefaultConfig else hs_maxHold s in
      let '(events, log) := Drain (hs_terminations s) in
      let '(out, last, finalized) := foldl (final_step at_ maxHold) (out, last, hs_finalized s) events in
      (out, {| hs_skipped := hs_skipped s; hs_terminations := log;
               hs_last := filter (λ kv, time_sub at_ (s_Timestamp kv.2) ≤ terminationStateRetention) last;
               hs_finalized := filter (λ kv, time_sub at_ kv.2 ≤ terminationStateRetention) finalized;
               hs_maxHold := hs_maxHold s |})
  end.

Definition billable (pod : HuskPod) : Prop := hp_OrgID pod ≠ "" ∧ hp_VMID pod ≠ "".

#[global] Instance billable_dec pod : Decision (billable pod).
Proof. unfold billable. apply _. Defined.

(** [HuskSource.Collect]; the workers of the pool leave their results in the pods' order. *)
Definition husk_Collect (at_ : Z) (pods : result string (list HuskPod)) (s : HuskSource) :
    result string (list Sample) * HuskSource :=
  match pods with
  | Err e => (Err ("list husk pods: " +:+ e), s)
  | Ok pods =>
      let results := (λ pod, (pod, podSamples at_ pod)) <$> filter billable pods in
      let skipped := Z.of_nat (length (filter (λ r, r.2.2 = true) results)) in
      let s := {| hs_skipped := int64 (hs_skipped s + skipped); hs_terminations := hs_terminations s;
                  hs_last := hs_last s; hs_finalized := hs_finalized s; hs_maxHold := hs_maxHold s |} in
      let results := (λ r, (r.1, r.2.1)) <$> results in
      let out := concat results.*2 in
      let '(out, s) := appendFinalSamples out results at_ s in
      (Ok out, s)
  end.

End sources.

(** [MultiSource.Collect], over the types of the sources and their outcomes, in order. *)
Fixpoint multi_Collect (sources : list (string * result string (list Sample))) : result string (list Sample) :=
  match sources with
  | [] => Ok []
  | (type_, r) :: sources' =>
      match r with
      | Err e => Err ("sample source " +:+ type_ +:+ ": " +:+ e)
      | Ok samples => let? rest := multi_Collect sources' in Ok (samples ++ rest)
      end
  end.

(** ** The collector (collector.go) *)

Record Collector (S : Type) := { co_store : S; co_cfg : Config; co_buf : list Sample }.
Arguments co_store {S}. Arguments co_cfg {S}. Arguments co_buf {S}.

(** The errors of a cycle, with what they wrap. *)
Inductive cycle_error := ECollect (e : string) | EUpsert (sandbox : string) (window : Z) (e : string).

Record CycleStats := { st_Samples : Z; st_Records : Z; st_Orgs : Z }.

Section collector.
Context `{!SliceSort, !MapRange} {S : Type} `{!UsageStore S}.

Definition NewCollector (store : S) (cfg : Config) : Collector S :=
  {| co_store := store; co_cfg := if cfg_Window cfg <=? 0 then DefaultConfig else cfg; co_buf := [] |}.

Definition retention (c : Collector S) : Z := int64 (cfg_Window (co_cfg c) + cfg_MaxHold (co_cfg c)).

Definition newest (buf : list Sample) : Z :=
  foldl (λ t s, if t <? s_Timestamp s then s_Timestamp s else t) 0 buf.

Definition pruneBuffer (c : Collector S) : Collector S :=
  match co_buf c with
  | [] => c
  | buf =>
      let cutoff := newest buf - retention c in
      {| co_store := co_store c; co_cfg := co_cfg c; co_buf := filter (λ s, cutoff ≤ s_Timestamp s) buf |}
  end.

(** The upserts of a cycle: the error of the first that fails, with the records and the
    organizations of those before it. *)
Fixpoint upsert_loop (recs : list UsageRecord) (n : Z) (orgs : gset string) (store : S) :
    option cycle_error * Z * gset string * S :=
  match recs with
  | [] => (None, n, orgs, store)
  | r :: recs' =>
      let '(res, store) := UpsertRecord r store in
      match res with
      | Err e => (Some (EUpsert (u_SandboxID r) (u_Window r) e), n, orgs, store)
      | Ok _ => upsert_loop recs' (n + 1) ({[u_OrgID r]} ∪ orgs) store
      end
  end.

Definition CollectOnce (collected : result string (list Sample)) (c : Collector S) :
    CycleStats * option cycle_error * Collector S :=
  match collected with
  | Err e => ({| st_Samples := 0; st_Records := 0; st_Orgs := 0 |}, Some (ECollect e), c)
  | Ok samples =>
      let c := pruneBuffer {| co_store := co_store c; co_cfg := co_cfg c; co_buf := co_buf c ++ samples |} in
      let '(err, n, orgs, store) := upsert_loop (Integrate (co_buf c) (co_cfg c)) 0 ∅ (co_store c) in
      ({| st_Samples := Z.of_nat (length samples); st_Records := n; st_Orgs := Z.of_nat (size orgs) |}, err,
       {| co_store := store; co_cfg := co_cfg c; co_buf := co_buf c |})
  end.

End collector.

End Usage.
