(* ===== verification/MeteringTheorems.v ===== *)
(** * Metering: theorems

    The report counts what the forks of a template share once, and the samples
    made from it divide exactly that among the organizations that run the forks. *)

From S2P Require Import Prelude GoFloat Metering Usage.

Module MeteringTheorems.
Import Metering.

(** ** The groups *)

Definition forks (k : string) (ss : list Sample) : list Sample := filter (λ s, group_key s = k) ss.

Definition group_of (k : string) (ss : list Sample) : option group :=
  match forks k ss with
  | [] => None
  | (s :: _) as l => Some {| g_template := ms_Template s; g_forkCount := int64 (Z.of_nat (length l));
                           g_sharedMax := zmax ms_MemoryShared l; g_diskMax := zmax ms_DiskShared l |}
  end.

Lemma max_spec a b : (if a <? b then b else a) = Z.max a b.
Proof. destruct (Z.ltb_spec a b); lia. Qed.

Lemma forks_snoc k ss s : forks k (ss ++ [s]) = forks k ss ++ (if decide (group_key s = k) then [s] else []).
Proof. unfold forks. by rewrite filter_app, filter_cons, filter_nil. Qed.

(** Whether the key is new or not, the sample joins the group of its key. *)
Lemma group_of_snoc ss s :
  group_of (group_key s) (ss ++ [s]) =
  Some (join s (default {| g_template := ms_Template s; g_forkCount := 0; g_sharedMax := 0; g_diskMax := 0 |}
                  (group_of (group_key s) ss))).
Proof.
  unfold group_of. rewrite forks_snoc, decide_True by done.
  destruct (forks (group_key s) ss) as [|s0 l].
  - simpl. unfold join. simpl. rewrite !max_spec. do 2 f_equal; lia.
  - cbn [app from_option id]. unfold join.
    cbn [g_template g_forkCount g_sharedMax g_diskMax]. rewrite !max_spec, int64_add_l.
    change (s0 :: l ++ [s]) with ((s0 :: l) ++ [s]). rewrite !zmax_app, length_app. f_equal. f_equal.
    + f_equal. simpl. lia.
    + pose proof (zmax_nonneg ms_MemoryShared l). simpl. lia.
    + pose proof (zmax_nonneg ms_DiskShared l). simpl. lia.
Qed.

Lemma groups_spec ss :
  let t := foldl add_sample no_totals ss in
  (∀ k, t_groups t !! k = group_of k ss) ∧ NoDup (t_order t) ∧
  (∀ k, k ∈ t_order t ↔ k ∈ group_key <$> ss) ∧ t_sandboxes t = ss.
Proof.
  cbv zeta. induction ss as [|s ss IH] using rev_ind.
  { simpl. split_and!; [done|apply NoDup_nil_2|set_solver|done]. }
  rewrite foldl_app. cbn [foldl]. destruct IH as (Hg & Hnd & Ho & Hs).
  set (t := foldl add_sample no_totals ss) in *. unfold add_sample.
  assert (∀ g, <[group_key s := join s g]> (t_groups t) !! group_key s = Some (join s g)) as Hl
    by (intros; apply lookup_insert_eq).
  assert (∀ k g, k ≠ group_key s → <[group_key s := join s g]> (t_groups t) !! k = group_of k (ss ++ [s])) as Hne.
  { intros k g Hk. rewrite lookup_insert_ne by done. rewrite Hg. unfold group_of.
    by rewrite forks_snoc, decide_False, app_nil_r by done. }
  assert (∀ g, default {| g_template := ms_Template s; g_forkCount := 0; g_sharedMax := 0; g_diskMax := 0 |}
      (group_of (group_key s) ss) = g →
    ∀ k, <[group_key s := join s g]> (t_groups t) !! k = group_of k (ss ++ [s])) as Hall.
  { intros g Hd k. destruct (decide (k = group_key s)) as [->|Hk]; [|by apply Hne].
    by rewrite Hl, group_of_snoc, Hd. }
  rewrite Hg in *. destruct (group_of (group_key s) ss) as [g|] eqn:Eg; simpl;
    (split_and!; [by apply Hall| | |by (simpl; rewrite Hs)]).
  - done.
  - intros k. rewrite Ho, fmap_app. assert (group_key s ∈ group_key <$> ss); [|set_solver].
    unfold group_of in Eg. destruct (forks (group_key s) ss) as [|s0 l] eqn:E; [done|].
    assert (s0 ∈ forks (group_key s) ss) as Hin by (rewrite E; set_solver).
    apply list_elem_of_filter in Hin as [<- Hin]. by apply list_elem_of_fmap_2.
  - apply NoDup_app. split_and!; [done| |apply NoDup_singleton].
    intros k Hk Hk'. apply list_elem_of_singleton in Hk' as ->. rewrite Ho in Hk.
    apply list_elem_of_fmap in Hk as (s0 & Hk & Hin). unfold group_of in Eg.
    assert (s0 ∈ forks (group_key s) ss) as Hf by (by apply list_elem_of_filter).
    destruct (forks (group_key s) ss); [set_solver|done].
  - intros k. rewrite fmap_app. set_solver.
Qed.

(** The sums of the loop, modulo the width of the integers. *)
Lemma sums_spec ss :
  let t := foldl add_sample no_totals ss in
  t_unique t = int64 (zsum ms_MemoryUnique ss) ∧ t_naive t = int64 (zsum ms_MemoryShared ss) ∧
  t_diskUnique t = int64 (zsum ms_DiskUnique ss) ∧ t_diskNaive t = int64 (zsum ms_DiskShared ss) ∧
  t_gpu t = int64 (zsum ms_GPUSeconds ss).
Proof.
  cbv zeta. induction ss as [|s ss IH] using rev_ind; [done|].
  rewrite foldl_app. cbn [foldl]. destruct IH as (H1 & H2 & H3 & H4 & H5).
  set (t := foldl add_sample no_totals ss) in *. unfold add_sample.
  destruct (match t_groups _ !! _ with Some _ => _ | None => _ end) as [g order].
  cbn [t_unique t_naive t_diskUnique t_diskNaive t_gpu].
  rewrite H1, H2, H3, H4, H5, !int64_add_l, !zsum_app. simpl. by rewrite !Z.add_0_r.
Qed.

(** ** The rows *)

Definition row_of (ss : list Sample) (k : string) : TemplateMetering :=
  {| tm_Template := from_option ms_Template "" (head (forks k ss));
     tm_ForkCount := int64 (Z.of_nat (length (forks k ss)));
     tm_SharedOnce := zmax ms_MemoryShared (forks k ss);
     tm_DiskSharedOnce := zmax ms_DiskShared (forks k ss) |}.

Definition group_keys (ss : list Sample) : list string := t_order (foldl add_sample no_totals ss).

Lemma rows_spec ss ks groups :
  (∀ k, groups !! k = group_of k ss) → (∀ k, k ∈ ks → k ∈ group_key <$> ss) →
  foldl (add_template groups) ([], 0, 0) ks =
  (row_of ss <$> ks, int64 (zsum (λ k, tm_SharedOnce (row_of ss k)) ks),
   int64 (zsum (λ k, tm_DiskSharedOnce (row_of ss k)) ks)).
Proof.
  intros Hg. induction ks as [|k ks IH] using rev_ind; intros Hk; [done|].
  rewrite foldl_app, IH by set_solver. cbn [foldl]. unfold add_template. rewrite Hg.
  assert (k ∈ group_key <$> ss) as Hin by (apply Hk; set_solver).
  apply list_elem_of_fmap in Hin as (s & -> & Hin). unfold group_of.
  assert (s ∈ forks (group_key s) ss) as Hf by (by apply list_elem_of_filter).
  assert (row_of ss (group_key s) = row_of ss (group_key s)) as Hrow by done.
  unfold row_of at 1 in Hrow. destruct (forks (group_key s) ss) as [|s0 l] eqn:E; [set_solver|].
  cbn [head from_option] in Hrow. cbn [g_template g_forkCount g_sharedMax g_diskMax].
  rewrite Hrow, fmap_app, !zsum_app, !int64_add_l. rewrite <- Hrow. cbn. rewrite E. cbn.
  by rewrite !Z.add_0_r, <- Hrow.
Qed.

Lemma group_keys_spec ss :
  NoDup (group_keys ss) ∧ ∀ k, k ∈ group_keys ss ↔ k ∈ group_key <$> ss.
Proof. by destruct (groups_spec ss) as (_ & Hnd & Ho & _). Qed.

(** The report, modulo the width of the integers. *)
Lemma Aggregate_spec `{!SliceSort} ss :
  let r := Aggregate ss in
  let shared := zsum (λ k, tm_SharedOnce (row_of ss k)) (group_keys ss) in
  let disk := zsum (λ k, tm_DiskSharedOnce (row_of ss k)) (group_keys ss) in
  r_Sandboxes r ≡ₚ ss ∧ r_Templates r ≡ₚ row_of ss <$> group_keys ss ∧
  r_TotalUnique r = int64 (zsum ms_MemoryUnique ss) ∧
  r_UsedNaive r = int64 (zsum ms_MemoryUnique ss + zsum ms_MemoryShared ss) ∧
  r_UsedCoWAware r = int64 (zsum ms_MemoryUnique ss + shared) ∧
  r_DiskTotalUnique r = int64 (zsum ms_DiskUnique ss) ∧
  r_DiskUsedNaive r = int64 (zsum ms_DiskUnique ss + zsum ms_DiskShared ss) ∧
  r_DiskUsedCoWAware r = int64 (zsum ms_DiskUnique ss + disk) ∧
  r_CoWSavings r = int64 (r_UsedNaive r - r_UsedCoWAware r) ∧
  r_DiskCoWSavings r = int64 (r_DiskUsedNaive r - r_DiskUsedCoWAware r) ∧
  r_TotalGPUSeconds r = int64 (zsum ms_GPUSeconds ss).
Proof.
  destruct ss as [|s ss]; [simpl; split_and!; done|]. set (l := s :: ss).
  destruct (groups_spec l) as (Hg & Hnd & Ho & Hs). destruct (sums_spec l) as (H1 & H2 & H3 & H4 & H5).
  cbv zeta. unfold Aggregate. fold l.
  rewrite (rows_spec l) by (done || intros k; apply Ho). fold (group_keys l).
  cbn [r_Sandboxes r_Templates r_TotalUnique r_UsedNaive r_UsedCoWAware r_DiskTotalUnique r_DiskUsedNaive
    r_DiskUsedCoWAware r_CoWSavings r_DiskCoWSavings r_TotalGPUSeconds].
  rewrite H1, H2, H3, H4, H5, !int64_add_l, !int64_add_r.
  rewrite (Z.add_comm (zsum ms_MemoryShared l)), (Z.add_comm (zsum ms_DiskShared l)).
  split_and!; try done; [rewrite Hs; apply sort_slice_perm|apply sort_slice_perm].
Qed.

(** ** The report counts what is shared once *)

Definition nonneg (s : Sample) : Prop :=
  0 ≤ ms_MemoryUnique s ∧ 0 ≤ ms_MemoryShared s ∧ 0 ≤ ms_DiskUnique s ∧ 0 ≤ ms_DiskShared s ∧
  0 ≤ ms_GPUSeconds s.

#[global] Instance nonneg_dec s : Decision (nonneg s).
Proof. unfold nonneg. apply _. Defined.

(** Samples whose totals fit the machine's integers. *)
Definition metered (ss : list Sample) : Prop :=
  Forall nonneg ss ∧ Z.of_nat (length ss) ≤ max_int64 ∧
  zsum ms_MemoryUnique ss + zsum ms_MemoryShared ss ≤ max_int64 ∧
  zsum ms_DiskUnique ss + zsum ms_DiskShared ss ≤ max_int64 ∧ zsum ms_GPUSeconds ss ≤ max_int64.

#[global] Instance metered_dec ss : Decision (metered ss).
Proof. unfold metered. apply _. Defined.

Lemma nonneg_sums ss (f : Sample → Z) :
  (∀ s, nonneg s → 0 ≤ f s) → Forall nonneg ss → Forall (λ s, 0 ≤ f s) ss.
Proof. intros Hf H. eapply Forall_impl; [exact H|exact Hf]. Qed.

(** What a template's forks share is at most what they share one by one. *)
Lemma shared_once_le (f : Sample → Z) ss :
  Forall (λ s, 0 ≤ f s) ss →
  0 ≤ zsum (λ k, zmax f (forks k ss)) (group_keys ss) ≤ zsum f ss.
Proof.
  intros Hf. destruct (group_keys_spec ss) as [Hnd Hk]. split.
  - apply zsum_nonneg, Forall_forall. intros k _. apply zmax_nonneg.
  - rewrite (zsum_by_key group_key f (group_keys ss) ss) by
      (done || intros s Hs; apply Hk; by apply list_elem_of_fmap_2).
    apply zsum_le, Forall_forall. intros k _. apply zmax_le_zsum.
    rewrite !Forall_forall in *. intros s Hs. apply Hf. by apply list_elem_of_filter in Hs as [_ ?].
Qed.

Lemma cow_exact `{!SliceSort} ss :
  metered ss →
  r_UsedCoWAware (Aggregate ss) =
    zsum ms_MemoryUnique ss + zsum (λ k, zmax ms_MemoryShared (forks k ss)) (group_keys ss).
Proof.
  intros (Hnn & _ & Hm & _). destruct (Aggregate_spec ss) as (_ & _ & _ & _ & -> & _). apply int64_id.
  pose proof (zsum_nonneg ms_MemoryUnique ss (nonneg_sums ss ms_MemoryUnique ltac:(unfold nonneg; tauto) Hnn)).
  pose proof (shared_once_le ms_MemoryShared ss (nonneg_sums ss ms_MemoryShared ltac:(unfold nonneg; tauto) Hnn)).
  unfold is_int64, min_int64, max_int64, row_of in *. cbn [tm_SharedOnce]. lia.
Qed.

(** The node report is exact and counts what the forks of a template share once.
    For samples whose totals fit the machine's integers, the report lists every sample
    and one row per template with its number of forks and the largest shared set among
    them, a sandbox without a template being a group of its own; the copy-on-write aware
    total is the unique bytes plus these sets, each once, the naive total the unique bytes
    plus every shared set, and the savings, their difference, are not negative.  The same
    holds for the disk. *)
Theorem report_counts_once `{!SliceSort} ss :
  metered ss →
  let r := Aggregate ss in
  ∃ ks, NoDup ks ∧ (∀ k, k ∈ ks ↔ k ∈ group_key <$> ss) ∧
  r_Sandboxes r ≡ₚ ss ∧
  r_Templates r ≡ₚ (λ k,
    {| tm_Template := from_option ms_Template "" (head (forks k ss));
       tm_ForkCount := Z.of_nat (length (forks k ss));
       tm_SharedOnce := zmax ms_MemoryShared (forks k ss);
       tm_DiskSharedOnce := zmax ms_DiskShared (forks k ss) |}) <$> ks ∧
  r_UsedNaive r = zsum ms_MemoryUnique ss + zsum ms_MemoryShared ss ∧
  r_UsedCoWAware r = zsum ms_MemoryUnique ss + zsum (λ k, zmax ms_MemoryShared (forks k ss)) ks ∧
  r_CoWSavings r = r_UsedNaive r - r_UsedCoWAware r ∧ 0 ≤ r_CoWSavings r ∧
  r_DiskUsedNaive r = zsum ms_DiskUnique ss + zsum ms_DiskShared ss ∧
  r_DiskUsedCoWAware r = zsum ms_DiskUnique ss + zsum (λ k, zmax ms_DiskShared (forks k ss)) ks ∧
  r_DiskCoWSavings r = r_DiskUsedNaive r - r_DiskUsedCoWAware r ∧ 0 ≤ r_DiskCoWSavings r ∧
  r_TotalGPUSeconds r = zsum ms_GPUSeconds ss.
Proof.
  intros (Hnn & Hlen & Hm & Hd & Hg). cbv zeta. exists (group_keys ss).
  destruct (group_keys_spec ss) as [Hnd Hk].
  destruct (Aggregate_spec ss) as (Hs & Ht & _ & Hn & Hc & _ & Hdn & Hdc & Hcs & Hds & Hgp).
  assert (∀ f : Sample → Z, (∀ s, nonneg s → 0 ≤ f s) → Forall (λ s, 0 ≤ f s) ss) as Hff
    by (intros f Hf; by apply nonneg_sums).
  pose proof (zsum_nonneg ms_MemoryUnique ss (Hff ms_MemoryUnique ltac:(unfold nonneg; tauto))).
  pose proof (zsum_nonneg ms_DiskUnique ss (Hff ms_DiskUnique ltac:(unfold nonneg; tauto))).
  pose proof (zsum_nonneg ms_GPUSeconds ss (Hff ms_GPUSeconds ltac:(unfold nonneg; tauto))).
  pose proof (shared_once_le ms_MemoryShared ss (Hff ms_MemoryShared ltac:(unfold nonneg; tauto))).
  pose proof (shared_once_le ms_DiskShared ss (Hff ms_DiskShared ltac:(unfold nonneg; tauto))).
  cbn [row_of tm_SharedOnce tm_DiskSharedOnce] in Hc, Hdc.
  rewrite int64_id in Hn, Hc, Hdn, Hdc, Hgp by (unfold is_int64, min_int64, max_int64 in *; lia).
  rewrite int64_id in Hcs, Hds by (unfold is_int64, min_int64, max_int64 in *; lia).
  split_and!; try done; [|lia|lia].
  rewrite Ht. apply Permutation_refl'. apply list_fmap_ext. intros i k _. unfold row_of. f_equal.
  apply int64_id. assert (length (forks k ss) ≤ length ss)%nat by apply length_filter.
  unfold is_int64, min_int64, max_int64 in *. lia.
Qed.

(** ** The samples divide the footprint *)

Section division.
Context `{!SliceSort, !MapRange}.
Variable node : string.
Variable at_ : Z.
Variable orgOf : string → option string.
Variable vcpusOf : string → Z.
Variable regionOf : option (string → string).

Definition resolved (sb : Sample) : Prop := is_Some (orgOf (ms_ID sb)).

#[local] Instance resolved_dec sb : Decision (resolved sb).
Proof. unfold resolved. apply _. Defined.

Definition included (rows : list Sample) : list Sample := filter resolved rows.

Lemma included_snoc rows sb :
  included (rows ++ [sb]) = included rows ++ (if decide (resolved sb) then [sb] else []).
Proof. unfold included. by rewrite filter_app, filter_cons, filter_nil. Qed.

(** The included forks of a template. *)
Definition of_template (t : string) (l : list Sample) : list Sample := filter (λ sb, ms_Template sb = t) l.

Abbreviation step := (Usage.sample_step node at_ orgOf vcpusOf regionOf) (only parsing).
Abbreviation shared := Usage.s_MemSharedAmortizedBytes (only parsing).
Abbreviation assigned acc t := (default 0 (Usage.sg_assigned acc !! t)) (only parsing).

Lemma of_template_snoc t l sb :
  of_template t (l ++ [sb]) = of_template t l ++ (if decide (ms_Template sb = t) then [sb] else []).
Proof. unfold of_template. by rewrite filter_app, filter_cons, filter_nil. Qed.

Lemma sampling_spec tmpl rows :
  let acc := foldl (step tmpl)
    {| Usage.sg_assigned := ∅; Usage.sg_firstIdx := ∅; Usage.sg_samples := [] |} rows in
  let incl := included rows in
  Usage.s_MemUniqueBytes <$> Usage.sg_samples acc = ms_MemoryUnique <$> incl ∧
  shared <$> Usage.sg_samples acc = (λ sb, Usage.amortized tmpl (ms_Template sb)) <$> incl ∧
  (∀ t, t ≠ "" → assigned acc t =
    int64 (Usage.amortized tmpl t * Z.of_nat (length (of_template t incl)))) ∧
  (∀ t i, Usage.sg_firstIdx acc !! t = Some i → ∃ sb, incl !! i = Some sb ∧ ms_Template sb = t) ∧
  (∀ t, t ≠ "" → of_template t incl ≠ [] → is_Some (Usage.sg_firstIdx acc !! t)).
Proof.
  cbv zeta. induction rows as [|sb rows IH] using rev_ind.
  { simpl. split_and!; [done|done| |done|done]. intros t _. rewrite Z.mul_0_r. done. }
  rewrite foldl_app. cbn [foldl]. rewrite included_snoc.
  set (acc := foldl _ _ rows) in *. set (incl := included rows) in *.
  destruct IH as (Hu & Hsh & Has & Hfi & Hso). unfold Usage.sample_step.
  destruct (orgOf (ms_ID sb)) as [org|] eqn:Horg.
  2: { rewrite decide_False by (unfold resolved; rewrite Horg; by intros [? ?]). by rewrite app_nil_r. }
  rewrite decide_True by (unfold resolved; rewrite Horg; eauto).
  cbn [Usage.sg_assigned Usage.sg_firstIdx Usage.sg_samples].
  assert (length (Usage.sg_samples acc) = length incl) as Hlen
    by (rewrite <- (length_fmap Usage.s_MemUniqueBytes), Hu, length_fmap; done).
  split_and!.
  - by rewrite !fmap_app, Hu.
  - by rewrite !fmap_app, Hsh.
  - intros t Ht. rewrite of_template_snoc, length_app. case_bool_decide as He.
    + rewrite decide_False by congruence. rewrite Has by done. f_equal. rewrite Nat2Z.inj_add. simpl length. ring.
    + destruct (decide (ms_Template sb = t)) as [<-|Hne].
      * rewrite lookup_insert_eq. simpl. rewrite Has, int64_add_l by done. f_equal. rewrite Nat2Z.inj_add. simpl length. ring.
      * rewrite lookup_insert_ne, Has by done. f_equal. simpl. lia.
  - intros t i Hi. destruct (bool_decide (ms_Template sb = "")) eqn:He.
    + apply Hfi in Hi as (sb' & Hl & Hsb'). exists sb'. split; [by apply lookup_app_l_Some|done].
    + destruct (Usage.sg_firstIdx acc !! ms_Template sb) eqn:Ef.
      * apply Hfi in Hi as (sb' & Hl & Hsb'). exists sb'. split; [by apply lookup_app_l_Some|done].
      * destruct (decide (ms_Template sb = t)) as [<-|Hne].
        -- rewrite lookup_insert_eq in Hi. injection Hi as <-. exists sb. split; [|done].
           rewrite Hlen. by apply list_lookup_middle.
        -- rewrite lookup_insert_ne in Hi by done. apply Hfi in Hi as (sb' & Hl & Hsb').
           exists sb'. split; [by apply lookup_app_l_Some|done].
  - intros t Ht. rewrite of_template_snoc. destruct (decide (ms_Template sb = t)) as [<-|Hne].
    + intros _. rewrite bool_decide_eq_false_2 by done.
      destruct (Usage.sg_firstIdx acc !! ms_Template sb) eqn:Ef; [by rewrite Ef|].
      rewrite lookup_insert_eq. eauto.
    + rewrite app_nil_r. intros Hne'. apply Hso in Hne'; [|done].
      case_bool_decide; [done|]. case_match; [done|]. by rewrite lookup_insert_ne by done.
Qed.

Lemma zsum_alter {A} (f : A → Z) g i (l : list A) x :
  l !! i = Some x → zsum f (alter g i l) = zsum f l + (f (g x) - f x).
Proof.
  revert i. induction l as [|y l IH]; intros [|i] Hi; simplify_eq/=; [lia|].
  specialize (IH i Hi). change (list_alter g i l) with (alter g i l). lia.
Qed.

Lemma push_spec acc B kvs L :
  B ≤ max_int64 → NoDup kvs.*1 →
  (∀ t t' i, Usage.sg_firstIdx acc !! t = Some i → Usage.sg_firstIdx acc !! t' = Some i → t = t') →
  (∀ t fc so, (t, (fc, so)) ∈ kvs → fc ≠ 0 ∧
    ∀ i, Usage.sg_firstIdx acc !! t = Some i →
    ∃ s, L !! i = Some s ∧ 0 ≤ shared s ∧ 0 ≤ so - assigned acc t ∧ shared s + (so - assigned acc t) ≤ B) →
  Forall (λ s, 0 ≤ shared s ≤ B) L →
  let L' := foldl (Usage.push_remainder acc) L kvs in
  zsum shared L' = zsum shared L + zsum (λ kv,
    match Usage.sg_firstIdx acc !! kv.1 with Some _ => kv.2.2 - assigned acc kv.1 | None => 0 end) kvs ∧
  Usage.s_MemUniqueBytes <$> L' = Usage.s_MemUniqueBytes <$> L ∧ Forall (λ s, 0 ≤ shared s ≤ B) L'.
Proof.
  intros HB Hnd Hinj. cbv zeta. revert L. induction kvs as [|[t [fc so]] kvs IH]; intros L Hkv HL.
  { simpl. split_and!; [lia|done|done]. }
  rewrite fmap_cons in Hnd. apply NoDup_cons in Hnd as [Hni Hnd]. specialize (IH Hnd).
  destruct (Hkv t fc so) as [Hfc Hi]; [set_solver|]. cbn [foldl Usage.push_remainder].
  rewrite (proj2 (Z.eqb_neq fc 0)) by done. rewrite (zsum_cons _ (t, (fc, so))). cbn [fst snd].
  destruct (Usage.sg_firstIdx acc !! t) as [i|] eqn:Et.
  2: { destruct (IH L) as (H1 & H2 & H3); [|done|].
       { intros t' fc' so' Hin. apply Hkv. set_solver. }
       split_and!; [lia|done|done]. }
  destruct (Hi i eq_refl) as (s & Hs & Hs0 & Hr & Hb). unfold max_int64 in HB.
  rewrite (int64_id (so - _)) by (unfold is_int64, min_int64, max_int64; lia).
  set (g := λ s, Usage.with_shared (int64 (shared s + (so - assigned acc t))) s).
  assert (shared (g s) = shared s + (so - assigned acc t)) as Hg.
  { apply int64_id. unfold is_int64, min_int64, max_int64. lia. }
  destruct (IH (alter g i L)) as (H1 & H2 & H3).
  - intros t' fc' so' Hin. destruct (Hkv t' fc' so') as [? Hi']; [set_solver|]. split; [done|].
    intros i' Hi''. destruct (Hi' i' Hi'') as (s' & Hs' & ?). exists s'. split; [|done].
    rewrite list_lookup_alter_ne; [done|]. intros <-. assert (t = t') as <- by (by eapply Hinj).
    apply Hni. apply list_elem_of_fmap. by exists (t, (fc', so')).
  - apply Forall_alter; [done|]. intros s' Hs' _. rewrite Hs in Hs'. injection Hs' as <-. rewrite Hg. lia.
  - split_and!; [|rewrite H2|done].
    + rewrite H1, (zsum_alter _ _ _ _ s) by done. rewrite Hg. lia.
    + apply list_eq. intros j. rewrite !list_lookup_fmap.
      destruct (decide (i = j)) as [<-|Hne]; [rewrite list_lookup_alter_eq|by rewrite list_lookup_alter_ne].
      by destruct (L !! i).
Qed.

Lemma foldl_insert_list {K A B} `{!EqDecision K, !Countable K} (k : A → K) (v : A → B) (l : list A) :
  foldl (λ m x, <[k x := v x]> m) (∅ : gmap K B) l = list_to_map (reverse ((λ x, (k x, v x)) <$> l)).
Proof.
  induction l as [|x l IH] using rev_ind; [done|].
  rewrite foldl_app, fmap_app, reverse_app, IH. done.
Qed.

Lemma forks_of_template t ss : Forall (λ s, ms_Template s ≠ "") ss → forks t ss = of_template t ss.
Proof.
  induction 1 as [|s ss Hs _ IH]; [done|]. unfold forks, of_template in *. rewrite !filter_cons, IH.
  assert (group_key s = ms_Template s) as -> by (unfold group_key; by rewrite bool_decide_eq_false_2).
  done.
Qed.

(** The table of templates made from a report. *)
Lemma template_info_spec ss :
  metered ss → Forall (λ s, ms_Template s ≠ "") ss →
  map_to_list (Usage.template_info (Aggregate ss)) ≡ₚ
  (λ t, (t, (Z.of_nat (length (of_template t ss)), zmax ms_MemoryShared (of_template t ss)))) <$> group_keys ss.
Proof.
  intros (Hnn & Hlen & _) Hne. destruct (Aggregate_spec ss) as (_ & Ht & _).
  destruct (group_keys_spec ss) as [Hnd Hk]. unfold Usage.template_info.
  rewrite (foldl_insert_list tm_Template (λ t, (tm_ForkCount t, tm_SharedOnce t))).
  assert ((λ x, (tm_Template x, (tm_ForkCount x, tm_SharedOnce x))) <$> r_Templates (Aggregate ss) ≡ₚ
    (λ t, (t, (Z.of_nat (length (of_template t ss)), zmax ms_MemoryShared (of_template t ss)))) <$> group_keys ss)
    as Hp.
  { rewrite Ht, <- list_fmap_compose. apply Permutation_refl'. apply list_fmap_ext. intros i t Hi. simpl.
    rewrite forks_of_template by done.
    assert (t ∈ group_key <$> ss) as Hin by (apply Hk; by eapply list_elem_of_lookup_2).
    apply list_elem_of_fmap in Hin as (s & -> & Hs).
    assert (group_key s = ms_Template s) as ->.
    { rewrite Forall_forall in Hne. unfold group_key. rewrite bool_decide_eq_false_2; [done|by apply Hne]. }
    assert (s ∈ of_template (ms_Template s) ss) as Hin by (by apply list_elem_of_filter).
    assert (length (of_template (ms_Template s) ss) ≤ length ss)%nat by apply length_filter.
    rewrite int64_id by (unfold is_int64, min_int64, max_int64 in *; lia).
    destruct (of_template (ms_Template s) ss) as [|s0 l] eqn:E; [set_solver|].
    assert (s0 ∈ of_template (ms_Template s) ss) as Hs0 by (rewrite E; set_solver).
    apply list_elem_of_filter in Hs0 as [Hs0 _]. cbn [head from_option]. by rewrite Hs0. }
  assert (NoDup ((λ x, (tm_Template x, (tm_ForkCount x, tm_SharedOnce x))) <$> r_Templates (Aggregate ss)).*1)
    as Hnd'.
  { rewrite Hp, <- list_fmap_compose. cbn. by rewrite list_fmap_id. }
  rewrite <- Hp. rewrite map_to_list_to_map by (by rewrite fmap_reverse, reverse_Permutation).
  apply reverse_Permutation.
Qed.

#[local] Instance included_perm : Proper ((≡ₚ) ==> (≡ₚ)) included.
Proof. intros l1 l2 Hl. unfold included. by rewrite Hl. Qed.

#[local] Instance of_template_perm t : Proper ((≡ₚ) ==> (≡ₚ)) (of_template t).
Proof. intros l1 l2 Hl. unfold of_template. by rewrite Hl. Qed.

Lemma included_le t ss rs :
  rs ≡ₚ ss → (length (of_template t (included rs)) ≤ length (of_template t ss))%nat.
Proof.
  intros ->. unfold of_template, included. rewrite list_filter_filter.
  induction ss as [|s ss IH]; [done|]. rewrite !filter_cons. destruct (decide _) as [[Ht _]|]; simpl.
  - rewrite decide_True by done. simpl. lia.
  - destruct (decide _); simpl; lia.
Qed.

Section shares.
Variable ss : list Sample.
Variable rs : list Sample.
Hypothesis Hm : metered ss.
Hypothesis Hne : Forall (λ s, ms_Template s ≠ "") ss.
Hypothesis Hp : rs ≡ₚ ss.
Let tmpl := Usage.template_info (Aggregate ss).
Let am := Usage.amortized tmpl.
Let so t := zmax ms_MemoryShared (of_template t ss).
Let cnt t := Z.of_nat (length (of_template t (included rs))).

Lemma tmpl_lookup t fc x :
  tmpl !! t = Some (fc, x) ↔ t ∈ group_keys ss ∧ fc = Z.of_nat (length (of_template t ss)) ∧ x = so t.
Proof.
  rewrite <- elem_of_map_to_list. unfold tmpl. rewrite (template_info_spec ss Hm Hne), list_elem_of_fmap.
  split.
  - intros (t' & [= -> -> ->] & Hin). done.
  - intros (Hin & -> & ->). by exists t.
Qed.

Lemma key_template t : t ∈ group_keys ss ↔ ∃ s, s ∈ ss ∧ ms_Template s = t.
Proof.
  destruct (group_keys_spec ss) as [_ Hk]. rewrite Hk, list_elem_of_fmap. rewrite Forall_forall in Hne.
  assert (∀ s, s ∈ ss → group_key s = ms_Template s) as Hg.
  { intros s Hs. unfold group_key. rewrite bool_decide_eq_false_2; [done|by apply Hne]. }
  split.
  - intros (s & -> & Hs). exists s. split; [done|]. symmetry. by apply Hg.
  - intros (s & Hs & <-). exists s. split; [|done]. symmetry. by apply Hg.
Qed.

Lemma incl_key sb : sb ∈ included rs → ms_Template sb ∈ group_keys ss.
Proof.
  intros Hsb. apply key_template. exists sb. split; [|done]. rewrite Hp in Hsb.
  by apply list_elem_of_filter in Hsb as [_ ?].
Qed.

Lemma share_facts t :
  t ∈ group_keys ss →
  t ≠ "" ∧ 0 ≤ am t ∧ 0 ≤ cnt t ∧ am t * cnt t ≤ so t ∧ 0 ≤ so t ≤ zsum ms_MemoryShared ss ∧ am t ≤ so t.
Proof.
  intros Ht. destruct (tmpl_lookup t (Z.of_nat (length (of_template t ss))) (so t)) as [_ Hl].
  specialize (Hl ltac:(done)). apply key_template in Ht as (s & Hs & <-).
  assert (s ∈ of_template (ms_Template s) ss) as Hin by (by apply list_elem_of_filter).
  assert (1 ≤ length (of_template (ms_Template s) ss))%nat as Hlen.
  { destruct (of_template _ _); [set_solver|simpl; lia]. }
  pose proof (included_le (ms_Template s) ss rs Hp) as Hle.
  destruct Hm as (Hnn & _ & Hb & _).
  assert (Forall (λ x, 0 ≤ ms_MemoryShared x) ss) as Hsh
    by (eapply Forall_impl; [exact Hnn|unfold nonneg; tauto]).
  assert (0 ≤ zsum ms_MemoryUnique ss)
    by (apply zsum_nonneg; eapply Forall_impl; [exact Hnn|unfold nonneg; tauto]).
  assert (0 ≤ so (ms_Template s) ≤ zsum ms_MemoryShared ss) as Hso.
  { split; [apply zmax_nonneg|]. etrans; [apply zmax_le_zsum|by apply zsum_filter_le].
    rewrite !Forall_forall in *. intros x Hx. apply Hsh. by apply list_elem_of_filter in Hx as [_ ?]. }
  unfold am, cnt, Usage.amortized. rewrite Hl, (proj2 (Z.ltb_lt _ _)) by lia.
  set (n := Z.of_nat (length (of_template (ms_Template s) ss))) in *.
  assert (0 < n) by (unfold n; lia). unfold max_int64 in Hb.
  rewrite Z.quot_div_nonneg by lia.
  assert (0 ≤ so (ms_Template s) / n ≤ so (ms_Template s)) as Hq.
  { split; [apply Z.div_pos; lia|]. apply Z.div_le_upper_bound; nia. }
  rewrite int64_id by (unfold is_int64, min_int64, max_int64; lia).
  pose proof (Z.mul_div_le (so (ms_Template s)) n). rewrite Forall_forall in Hne.
  split_and!; [by apply Hne|lia|lia|unfold n in *; nia|lia|lia|lia].
Qed.

(** The shares of the included forks and the remainders are the shared sets of the
    templates that have an included fork. *)
Lemma shares_sum :
  let acc := foldl (step tmpl)
    {| Usage.sg_assigned := ∅; Usage.sg_firstIdx := ∅; Usage.sg_samples := [] |} rs in
  let L' := foldl (Usage.push_remainder acc) (Usage.sg_samples acc) (map_range "tmpl" tmpl) in
  zsum shared L' = zsum (λ t, if decide (of_template t (included rs) = []) then 0 else so t) (group_keys ss) ∧
  Usage.s_MemUniqueBytes <$> L' = ms_MemoryUnique <$> included rs ∧
  Forall (λ s, 0 ≤ shared s ≤ zsum ms_MemoryShared ss) L'.
Proof.
  intros acc L'. pose proof (sampling_spec tmpl rs) as (Hu & Hsh & Has & Hfi & Hso).
  fold acc in Hu, Hsh, Has, Hfi, Hso. fold am in Has, Hsh.
  destruct (group_keys_spec ss) as [Hnd Hk].
  assert (∀ t, t ∈ group_keys ss → assigned acc t = am t * cnt t) as Has'.
  { intros t Ht. destruct (share_facts t Ht) as (? & ? & ? & ? & [? ?] & ?). rewrite Has by done.
    apply int64_id. destruct Hm as (Hnn & _ & Hb & _).
    assert (0 ≤ zsum ms_MemoryUnique ss)
      by (apply zsum_nonneg; eapply Forall_impl; [exact Hnn|unfold nonneg; tauto]).
    unfold cnt, am in *. unfold is_int64, min_int64, max_int64 in *. nia. }
  assert (∀ t i, Usage.sg_firstIdx acc !! t = Some i →
    ∃ s sb, Usage.sg_samples acc !! i = Some s ∧ shared s = am t ∧ sb ∈ of_template t (included rs)) as Hi.
  { intros t i Ht. destruct (Hfi t i Ht) as (sb & Hl & <-).
    assert ((shared <$> Usage.sg_samples acc) !! i = Some (am (ms_Template sb))) as Hs
      by (rewrite Hsh, list_lookup_fmap, Hl; done).
    rewrite list_lookup_fmap in Hs. destruct (Usage.sg_samples acc !! i) as [s|] eqn:E; [|done].
    injection Hs as Hs. exists s, sb. split_and!; [done|done|]. apply list_elem_of_filter.
    split; [done|]. by eapply list_elem_of_lookup_2. }
  destruct Hm as (Hnn & _ & Hb & _).
  assert (0 ≤ zsum ms_MemoryUnique ss) as Hun
    by (apply zsum_nonneg; eapply Forall_impl; [exact Hnn|unfold nonneg; tauto]).
  destruct (push_spec acc (zsum ms_MemoryShared ss) (map_range "tmpl" tmpl) (Usage.sg_samples acc))
    as (H1 & H2 & H3); [lia|apply NoDup_map_range| | | |].
  - intros t t' i Ht Ht'. destruct (Hfi t i Ht) as (sb & Hl & <-), (Hfi t' i Ht') as (sb' & Hl' & <-).
    rewrite Hl in Hl'. by injection Hl' as ->.
  - intros t fc x Hin. apply elem_of_map_range, tmpl_lookup in Hin as (Hg & -> & ->). split.
    + apply key_template in Hg as (s & Hs & <-).
      assert (s ∈ of_template (ms_Template s) ss) as Hf by (by apply list_elem_of_filter).
      destruct (of_template _ _); [set_solver|simpl; lia].
    + intros i Ht. destruct (Hi t i Ht) as (s & sb & Hl & Hs & Hsb). exists s.
      destruct (share_facts t Hg) as (? & ? & ? & ? & ? & ?). rewrite Hs, Has' by done.
      assert (1 ≤ cnt t) by (unfold cnt; destruct (of_template t (included rs)); [set_solver|simpl; lia]).
      split_and!; [done|done|lia|nia].
  - assert (Forall (λ x, 0 ≤ x ≤ zsum ms_MemoryShared ss) (shared <$> Usage.sg_samples acc)) as Hall;
      [rewrite Hsh|]; rewrite Forall_fmap in *; [|exact Hall].
    apply Forall_forall. intros sb Hsb. simpl.
    destruct (share_facts _ (incl_key sb Hsb)) as (? & ? & ? & ? & ? & ?). lia.
  - unfold L'. split_and!; [|by rewrite H2, Hu|done]. rewrite H1.
    assert (zsum shared (Usage.sg_samples acc) = zsum (λ t, am t * cnt t) (group_keys ss)) as ->.
    { rewrite <- (zsum_fmap shared (λ x, x)), Hsh, zsum_fmap.
      rewrite (zsum_by_key ms_Template _ (group_keys ss)) by (done || apply incl_key).
      apply zsum_ext. intros t _. unfold cnt. rewrite <- zsum_const. apply zsum_ext.
      intros sb Hsb. by apply list_elem_of_filter in Hsb as [-> _]. }
    rewrite map_range_perm. unfold tmpl. rewrite (template_info_spec ss Hm Hne), zsum_fmap.
    rewrite <- zsum_add. apply zsum_ext. intros t Ht. cbn [fst snd].
    destruct (share_facts t Ht) as (Hte & ? & ? & ? & ? & ?).
    destruct (decide (of_template t (included rs) = [])) as [E|E].
    + destruct (Usage.sg_firstIdx acc !! t) as [i|] eqn:Ef.
      * destruct (Hi t i Ef) as (s & sb & _ & _ & Hsb). rewrite E in Hsb. set_solver.
      * unfold cnt. rewrite E. simpl. lia.
    + destruct (Hso t Hte E) as [i ->]. rewrite Has' by done. unfold so. lia.
Qed.

(** The templates with an included fork. *)
Lemma included_templates :
  zsum (λ t, if decide (of_template t (included rs) = []) then 0 else so t) (group_keys ss) =
  zsum so (remove_dups (ms_Template <$> included ss)).
Proof.
  assert (remove_dups (ms_Template <$> included ss) ≡ₚ
    filter (λ t, of_template t (included rs) ≠ []) (group_keys ss)) as ->.
  { destruct (group_keys_spec ss) as [Hnd _].
    apply NoDup_Permutation; [apply NoDup_remove_dups|by apply NoDup_filter|]. intros t.
    rewrite elem_of_remove_dups, list_elem_of_filter, list_elem_of_fmap. split.
    - intros (s & -> & Hs). rewrite <- Hp in Hs. split; [|by apply incl_key].
      intros E. assert (s ∈ of_template (ms_Template s) (included rs)) as Hin by (by apply list_elem_of_filter).
      rewrite E in Hin. set_solver.
    - intros [E _]. destruct (of_template t (included rs)) as [|s l] eqn:El; [done|].
      assert (s ∈ of_template t (included rs)) as Hin by (rewrite El; set_solver).
      apply list_elem_of_filter in Hin as [<- Hin]. rewrite Hp in Hin. by exists s. }
  rewrite zsum_filter. apply zsum_ext. intros t _. by repeat destruct (decide _).
Qed.

(** No sample's memory level overflows. *)
Lemma memLevel_exact L :
  Usage.s_MemUniqueBytes <$> L = ms_MemoryUnique <$> included rs →
  Forall (λ s, 0 ≤ shared s ≤ zsum ms_MemoryShared ss) L →
  zsum Usage.memLevel L = zsum ms_MemoryUnique (included ss) + zsum shared L.
Proof.
  intros Hu Hb. destruct Hm as (Hnn & _ & Hmax & _).
  assert (zsum ms_MemoryUnique (included ss) = zsum Usage.s_MemUniqueBytes L) as ->
    by (by rewrite <- Hp, <- (zsum_fmap ms_MemoryUnique (λ x, x)), <- Hu, zsum_fmap).
  rewrite <- zsum_add. apply zsum_ext. intros s Hs. apply int64_id.
  assert (Usage.s_MemUniqueBytes s ∈ Usage.s_MemUniqueBytes <$> L) as Hin by (by apply list_elem_of_fmap_2).
  rewrite Hu, Hp in Hin. apply list_elem_of_fmap in Hin as (x & -> & Hx).
  apply list_elem_of_filter in Hx as [_ Hx]. rewrite Forall_forall in Hb. specialize (Hb s Hs).
  apply elem_of_Permutation in Hx as [l Hl]. rewrite Hl in Hnn, Hmax. apply Forall_cons in Hnn as [Hx Hnn].
  assert (0 ≤ zsum ms_MemoryUnique l)
    by (apply zsum_nonneg; eapply Forall_impl; [exact Hnn|unfold nonneg; tauto]).
  rewrite zsum_cons in Hmax. rewrite <- Hl in Hmax. unfold nonneg in Hx.
  unfold is_int64, min_int64, max_int64 in *. lia.
Qed.

End shares.

(** The samples divide the node's footprint.  For a report on sandboxes that all have
    a template, the billable memory of the samples is the unique bytes of the sandboxes
    whose organization is known plus the shared set of every template one of them was
    forked from, each once, to the byte and whatever the order of the ranges; when every
    organization is known that is the copy-on-write aware total of the report. *)
Theorem samples_divide_footprint ss :
  metered ss → Forall (λ s, ms_Template s ≠ "") ss →
  let samples := (Usage.SamplesFromReport node at_ orgOf vcpusOf regionOf (Aggregate ss)).1 in
  zsum Usage.memLevel samples =
    zsum ms_MemoryUnique (included ss) +
    zsum (λ t, zmax ms_MemoryShared (of_template t ss)) (remove_dups (ms_Template <$> included ss)) ∧
  (Forall resolved ss → zsum Usage.memLevel samples = r_UsedCoWAware (Aggregate ss)).
Proof.
  intros Hm Hne. cbv zeta. destruct (Aggregate_spec ss) as (Hrs & _).
  destruct (shares_sum ss (r_Sandboxes (Aggregate ss)) Hm Hne Hrs) as (Hsh & Hu & Hb).
  unfold Usage.SamplesFromReport. cbn [fst]. set (L := foldl (Usage.push_remainder _) _ _) in *.
  pose proof (memLevel_exact ss _ Hm Hrs L Hu Hb) as HL.
  rewrite Hsh, (included_templates ss _ Hm Hne Hrs) in HL. split; [exact HL|].
  intros Hres. rewrite HL, cow_exact by done. destruct (group_keys_spec ss) as [Hnd Hk].
  assert (included ss = ss) as ->
    by (unfold included; clear -Hres; induction Hres; [done|by rewrite filter_cons_True, IHHres]).
  f_equal. assert (remove_dups (ms_Template <$> ss) ≡ₚ group_keys ss) as ->.
  { apply NoDup_Permutation; [apply NoDup_remove_dups|done|]. intros t.
    rewrite elem_of_remove_dups, list_elem_of_fmap, (key_template ss Hne). naive_solver. }
  apply zsum_ext. intros t _. by rewrite forks_of_template.
Qed.

End division.

(** ** Concrete inputs *)

Definition ex_sample (id template : string) (unique shared : Z) : Sample :=
  {| ms_ID := id; ms_Template := template; ms_MemoryUnique := unique; ms_MemoryShared := shared;
     ms_DiskUnique := 1; ms_DiskShared := 2; ms_EgressBytes := 0; ms_GPUCount := 0; ms_GPUSeconds := 3 |}.

(** Three forks of one template and one of another. *)
Definition ex_node : list Sample :=
  [ex_sample "c" "py" 5 100; ex_sample "a" "py" 7 98; ex_sample "d" "go" 11 10; ex_sample "b" "py" 0 100].

(** The organization of all but one. *)
Definition ex_orgs (id : string) : option string :=
  if bool_decide (id = "c") then None else Some "acme".

Lemma report_counts_once_witness :
  let r := Aggregate ex_node in
  ∃ ks, NoDup ks ∧ (∀ k, k ∈ ks ↔ k ∈ group_key <$> ex_node) ∧
  r_Sandboxes r ≡ₚ ex_node ∧
  r_Templates r ≡ₚ (λ k,
    {| tm_Template := from_option ms_Template "" (head (forks k ex_node));
       tm_ForkCount := Z.of_nat (length (forks k ex_node));
       tm_SharedOnce := zmax ms_MemoryShared (forks k ex_node);
       tm_DiskSharedOnce := zmax ms_DiskShared (forks k ex_node) |}) <$> ks ∧
  r_UsedNaive r = zsum ms_MemoryUnique ex_node + zsum ms_MemoryShared ex_node ∧
  r_UsedCoWAware r = zsum ms_MemoryUnique ex_node + zsum (λ k, zmax ms_MemoryShared (forks k ex_node)) ks ∧
  r_CoWSavings r = r_UsedNaive r - r_UsedCoWAware r ∧ 0 ≤ r_CoWSavings r ∧
  r_DiskUsedNaive r = zsum ms_DiskUnique ex_node + zsum ms_DiskShared ex_node ∧
  r_DiskUsedCoWAware r = zsum ms_DiskUnique ex_node + zsum (λ k, zmax ms_DiskShared (forks k ex_node)) ks ∧
  r_DiskCoWSavings r = r_DiskUsedNaive r - r_DiskUsedCoWAware r ∧ 0 ≤ r_DiskCoWSavings r ∧
  r_TotalGPUSeconds r = zsum ms_GPUSeconds ex_node.
Proof. assert (metered ex_node) as Hm by by_eval. exact (report_counts_once ex_node Hm). Defined.

Lemma samples_divide_footprint_witness :
  let samples := (Usage.SamplesFromReport "n1" 9 ex_orgs (λ _, 1) None (Aggregate ex_node)).1 in
  zsum Usage.memLevel samples =
    zsum ms_MemoryUnique (included ex_orgs ex_node) +
    zsum (λ t, zmax ms_MemoryShared (of_template t ex_node))
      (remove_dups (ms_Template <$> included ex_orgs ex_node)) ∧
  (Forall (resolved ex_orgs) ex_node → zsum Usage.memLevel samples = r_UsedCoWAware (Aggregate ex_node)).
Proof.
  assert (metered ex_node) as Hm by by_eval.
  assert (Forall (λ s, ms_Template s ≠ "") ex_node) as Hne by by_eval.
  exact (samples_divide_footprint "n1" 9 ex_orgs (λ _, 1) None ex_node Hm Hne).
Defined.

(** The two forks that are left pay for the share of the third. *)
Example ex_dropped_share :
  Usage.s_MemSharedAmortizedBytes <$>
    (Usage.SamplesFromReport "n1" 9 ex_orgs (λ _, 1) None (Aggregate ex_node)).1 = [67; 33; 10].
Proof. vm_compute. reflexivity. Qed.

(** Sandboxes without a template are billed for each other's memory.  Two sandboxes
    without a template share nothing, and the report counts 40 bytes for them; the table
    of templates keeps one row for both, and the samples bill 60. *)
Theorem untemplated_overbilled :
  let report := Aggregate [ex_sample "a" "" 0 10; ex_sample "b" "" 0 30] in
  let samples := (Usage.SamplesFromReport "n1" 9 (λ _, Some "acme") (λ _, 1) None report).1 in
  r_UsedCoWAware report = 40 ∧ zsum Usage.memLevel samples = 60.
Proof. split; vm_compute; reflexivity. Qed.

End MeteringTheorems.
