(* ===== verification/UsageTheorems.v ===== *)
(** * Usage: theorems

    The integration of samples into records is deterministic and total, bills every
    instant at most once and every step of a counter exactly once; a pruned buffer
    gives the records of the whole history for the current window, and not for the
    earlier ones; a pod bills only its own organization. *)

From S2P Require Import Prelude GoFloat Metering Usage.
Import GoFloat Usage.

Module UsageTheorems.

(** ** Integration as a list of events

    An event adds to the record of its window, which it creates from its sample when
    there is none. *)

Record event := { ev_window : Z; ev_sample : Sample; ev_add : UsageRecord → UsageRecord }.

Definition apply_event (sandbox : string) (recs : records) (e : event) : records :=
  <[(sandbox, ev_window e) := ev_add e (record_at sandbox (ev_sample e) (ev_window e) recs)]> recs.

(** The record of a window after the events. *)
Definition record_of (sandbox : string) (w : Z) (evs : list event) : option UsageRecord :=
  foldl (λ r e, Some (ev_add e (default (empty_record sandbox (ev_sample e) w) r)))
    None (filter (λ e, ev_window e = w) evs).

Lemma apply_events sandbox recs evs :
  (∀ w, recs !! (sandbox, w) = None) →
  ∀ sb w, foldl (apply_event sandbox) recs evs !! (sb, w) =
    if decide (sb = sandbox) then record_of sandbox w evs else recs !! (sb, w).
Proof.
  intros Hnone. induction evs as [|e evs IH] using rev_ind; intros sb w.
  { destruct (decide _) as [->|]; [apply Hnone|done]. }
  rewrite foldl_app. cbn [foldl]. set (r := foldl (apply_event sandbox) recs evs) in *.
  unfold apply_event, record_at. destruct (decide (sb = sandbox)) as [->|Hne].
  - pose proof (IH sandbox (ev_window e)) as He. pose proof (IH sandbox w) as Hw.
    rewrite !decide_True in He, Hw by done. unfold record_of in *. rewrite filter_app, filter_cons, filter_nil.
    destruct (decide (ev_window e = w)) as [<-|Hne].
    + by rewrite lookup_insert_eq, foldl_app, He.
    + by rewrite lookup_insert_ne, app_nil_r by congruence.
  - rewrite lookup_insert_ne by congruence. by rewrite IH, decide_False.
Qed.

(** The slices of an interval: their window, start and end. *)
Fixpoint slices (fuel : nat) (start end_ window : Z) : list (Z * Z * Z) :=
  match fuel with
  | O => []
  | S fuel =>
      if start <? end_ then
        let w := Truncate start window in
        let sliceEnd := if w + window <? end_ then w + window else end_ in
        (w, start, sliceEnd) :: slices fuel sliceEnd end_ window
      else []
  end.

Definition slice_event (a : Sample) (sl : Z * Z * Z) : event :=
  {| ev_window := sl.1.1; ev_sample := a; ev_add := accrue a (time_sub sl.2 sl.1.2) |}.

Definition interval_slices (start end_ window : Z) : list (Z * Z * Z) :=
  slices (interval_fuel start end_ window) start end_ window.

Lemma interval_loop_fuel n sandbox a start end_ window recs :
  interval_loop n sandbox a start end_ window recs =
  foldl (apply_event sandbox) recs (slice_event a <$> slices n start end_ window).
Proof.
  revert start recs. induction n as [|n IH]; intros start recs; [done|]. cbn [interval_loop slices].
  destruct (start <? end_); [|done]. rewrite fmap_cons. cbn [foldl]. by rewrite IH.
Qed.

Lemma interval_events sandbox a start end_ window recs :
  integrateInterval sandbox a start end_ window recs =
  foldl (apply_event sandbox) recs (slice_event a <$> interval_slices start end_ window).
Proof. apply interval_loop_fuel. Qed.

(** How long the level of [a] is held before [b]. *)
Definition held (cfg : Config) (a b : Sample) : Z :=
  let span := time_sub (s_Timestamp b) (s_Timestamp a) in
  if span <=? 0 then 0 else if cfg_MaxHold cfg <? span then cfg_MaxHold cfg else span.

Fixpoint rate_slices (cfg : Config) (group : list Sample) : list (Sample * (Z * Z * Z)) :=
  match group with
  | a :: ((b :: _) as group') =>
      (pair a <$> (if held cfg a b <=? 0 then [] else
        interval_slices (s_Timestamp a) (s_Timestamp a + held cfg a b) (cfg_Window cfg))) ++
      rate_slices cfg group'
  | _ => []
  end.

Definition rate_events (cfg : Config) (group : list Sample) : list event :=
  (λ p, slice_event p.1 p.2) <$> rate_slices cfg group.

Definition step_event (cfg : Config) (a : Sample) (egress gpu : Z) : event :=
  {| ev_window := Truncate (s_Timestamp a) (cfg_Window cfg); ev_sample := a;
     ev_add := add_counters egress gpu |}.

(** The steps of the counters that are not both zero, with the sample they start from. *)
Fixpoint counter_steps (group : list Sample) : list (Sample * (Z * Z)) :=
  match group with
  | a :: ((b :: _) as group') =>
      let egress := counterStep (s_EgressBytes a) (s_EgressBytes b) in
      let gpu := counterStep (s_GPUSeconds a) (s_GPUSeconds b) in
      (if (egress =? 0) && (gpu =? 0) then [] else [(a, (egress, gpu))]) ++ counter_steps group'
  | _ => []
  end.

Definition counter_events (cfg : Config) (group : list Sample) : list event :=
  (λ p, step_event cfg p.1 p.2.1 p.2.2) <$> counter_steps group.

Definition group_events (cfg : Config) (group : list Sample) : list event :=
  rate_events cfg group ++ counter_events cfg group.

Lemma rate_slices_cons cfg a b group :
  rate_slices cfg (a :: b :: group) =
  (pair a <$> (if held cfg a b <=? 0 then [] else
    interval_slices (s_Timestamp a) (s_Timestamp a + held cfg a b) (cfg_Window cfg))) ++
  rate_slices cfg (b :: group).
Proof. done. Qed.

Lemma rate_loop_events cfg sandbox group recs :
  0 < cfg_MaxHold cfg →
  rate_loop cfg sandbox group recs = foldl (apply_event sandbox) recs (rate_events cfg group).
Proof.
  intros Hh. revert recs. induction group as [|a [|b group] IH]; intros recs; [done|done|].
  unfold rate_events in *. rewrite rate_slices_cons, fmap_app, foldl_app, <- IH.
  change (rate_loop cfg sandbox (a :: b :: group) recs) with
    (rate_loop cfg sandbox (b :: group)
      (let span := time_sub (s_Timestamp b) (s_Timestamp a) in
       if span <=? 0 then recs
       else
         let held := if cfg_MaxHold cfg <? span then cfg_MaxHold cfg else span in
         integrateInterval sandbox a (s_Timestamp a) (s_Timestamp a + held) (cfg_Window cfg) recs)).
  f_equal. unfold held. cbv zeta. destruct (_ <=? 0) eqn:E; [done|].
  destruct (cfg_MaxHold cfg <? _) eqn:E2.
  - rewrite (proj2 (Z.leb_gt (cfg_MaxHold cfg) 0)) by lia. rewrite interval_events.
    by rewrite <- list_fmap_compose.
  - rewrite E, interval_events. by rewrite <- list_fmap_compose.
Qed.

Lemma counter_steps_cons a b group :
  counter_steps (a :: b :: group) =
  (let egress := counterStep (s_EgressBytes a) (s_EgressBytes b) in
   let gpu := counterStep (s_GPUSeconds a) (s_GPUSeconds b) in
   if (egress =? 0) && (gpu =? 0) then [] else [(a, (egress, gpu))]) ++ counter_steps (b :: group).
Proof. done. Qed.

Lemma counter_loop_events cfg sandbox group recs :
  counter_loop cfg sandbox group recs = foldl (apply_event sandbox) recs (counter_events cfg group).
Proof.
  revert recs. induction group as [|a [|b group] IH]; intros recs; [done|done|].
  unfold counter_events in *. rewrite counter_steps_cons, fmap_app, foldl_app, <- IH.
  change (counter_loop cfg sandbox (a :: b :: group) recs) with
    (counter_loop cfg sandbox (b :: group)
      (let egress := counterStep (s_EgressBytes a) (s_EgressBytes b) in
       let gpu := counterStep (s_GPUSeconds a) (s_GPUSeconds b) in
       if (egress =? 0) && (gpu =? 0) then recs
       else
         let w := Truncate (s_Timestamp a) (cfg_Window cfg) in
         <[(sandbox, w) := add_counters egress gpu (record_at sandbox a w recs)]> recs)).
  f_equal. cbv zeta. by destruct (_ && _).
Qed.

(** ** The records of an integration *)

#[global] Instance before_sw : StrictWeak before.
Proof. exact (sw_on s_Timestamp Z.ltb). Qed.

Lemma record_less_false a b :
  record_less a b = false ↔
  str_ltb (u_SandboxID a) (u_SandboxID b) = false ∧
  (u_SandboxID a = u_SandboxID b → u_Window b ≤ u_Window a).
Proof.
  unfold record_less. case_bool_decide as Hd; simpl.
  - rewrite Hd, sw_irrefl, Z.ltb_ge. naive_solver.
  - naive_solver.
Qed.

#[global] Instance record_less_sw : StrictWeak record_less.
Proof.
  split.
  - intros r. apply record_less_false. split; [apply sw_irrefl|lia].
  - intros a b c. rewrite <- !not_false_iff_true, !record_less_false. intros Hab Hbc [Hac Hw].
    destruct (str_ltb (u_SandboxID a) (u_SandboxID b)) eqn:E1.
    + destruct (str_ltb (u_SandboxID b) (u_SandboxID c)) eqn:E2.
      * by rewrite (sw_trans _ _ _ E1 E2) in Hac.
      * apply Hbc. split; [done|]. intros Heq. by rewrite Heq, Hac in E1.
    + apply Hab. split; [done|]. intros Heq. apply Z.nlt_ge. intros Hlt.
      apply Hbc. rewrite <- Heq. split; [done|]. intros Heq'. specialize (Hw Heq'). lia.
  - intros a b c. rewrite !record_less_false. intros [Hab Hwab] [Hbc Hwbc].
    split; [by eapply sw_incomp|]. intros Heq. rewrite Heq in Hab.
    pose proof (str_ltb_tie _ _ Hab Hbc) as Heq'. rewrite Heq' in *. rewrite Heq in Hwab.
    specialize (Hwab eq_refl). specialize (Hwbc eq_refl). lia.
Qed.

Lemma record_less_tie a b :
  record_less a b = false → record_less b a = false →
  u_SandboxID a = u_SandboxID b ∧ u_Window a = u_Window b.
Proof.
  rewrite !record_less_false. intros [Hab Hw] [Hba Hw'].
  pose proof (str_ltb_tie _ _ Hab Hba) as Heq. specialize (Hw Heq). specialize (Hw' (eq_sym Heq)). split; [done|lia].
Qed.

(** An event keeps the identity of the record. *)
Definition keeps (e : event) : Prop :=
  ∀ r, u_SandboxID (ev_add e r) = u_SandboxID r ∧ u_Window (ev_add e r) = u_Window r.

Lemma group_events_keep cfg group : Forall keeps (group_events cfg group).
Proof.
  unfold group_events. apply Forall_app_2.
  - apply Forall_fmap, Forall_forall. intros [a sl] _ r. done.
  - apply Forall_fmap, Forall_forall. intros [a st] _ r. done.
Qed.

Lemma record_of_keys sandbox w evs r :
  Forall keeps evs → record_of sandbox w evs = Some r → u_SandboxID r = sandbox ∧ u_Window r = w.
Proof.
  intros Hk. unfold record_of. set (l := filter _ evs).
  assert (Forall keeps l) as Hl by (apply Forall_forall; intros e He; rewrite Forall_forall in Hk;
    apply Hk; by apply list_elem_of_filter in He as [_ ?]). clearbody l.
  revert r. induction l as [|e l IH] using rev_ind; intros r; [done|]. rewrite foldl_app. simpl.
  apply Forall_app in Hl as [Hl He]. rewrite Forall_singleton in He. intros [= <-].
  destruct (He (default (empty_record sandbox (ev_sample e) w)
    (foldl (λ r e, Some (ev_add e (default (empty_record sandbox (ev_sample e) w) r))) None l))) as [-> ->].
  destruct (foldl _ None l) as [r'|] eqn:E; [by apply IH|done].
Qed.

Lemma by_sandbox_lookup samples sb :
  by_sandbox samples !! sb =
  if decide (filter (λ s, s_SandboxID s = sb) samples = []) then None
  else Some (filter (λ s, s_SandboxID s = sb) samples).
Proof.
  unfold by_sandbox. induction samples as [|s samples IH] using rev_ind; [done|].
  rewrite foldl_app, filter_app, filter_cons, filter_nil. cbn [foldl].
  set (m := foldl _ ∅ samples) in *. destruct (decide (s_SandboxID s = sb)) as [->|Hne].
  - rewrite lookup_insert_eq, IH. destruct (decide _) as [E|E].
    + rewrite E. done.
    + rewrite decide_False; [done|]. by destruct (filter _ samples).
  - rewrite lookup_insert_ne by done. rewrite app_nil_r. exact IH.
Qed.

Section integration.
Context `{!SliceSort, !MapRange}.

(** The samples of a sandbox, each instant once, in order. *)
Definition timeline (sb : string) (samples : list Sample) : list Sample :=
  sort_slice before (dedupeByTimestamp (filter (λ s, s_SandboxID s = sb) samples)).

Definition integrated (cfg : Config) (samples : list Sample) (sb : string) (w : Z) : option UsageRecord :=
  record_of sb w (group_events cfg (timeline sb samples)).

Lemma norm_config_pos cfg : 0 < cfg_Window (norm_config cfg) ∧ 0 < cfg_MaxHold (norm_config cfg).
Proof. unfold norm_config, DefaultConfig, second. simpl. split; case_match; lia. Qed.

Lemma integrate_sandbox_lookup cfg recs sandbox group sb w :
  0 < cfg_MaxHold cfg → (∀ w, recs !! (sandbox, w) = None) →
  integrate_sandbox cfg recs (sandbox, group) !! (sb, w) =
  if decide (sb = sandbox)
  then record_of sandbox w (group_events cfg (sort_slice before (dedupeByTimestamp group)))
  else recs !! (sb, w).
Proof.
  intros Hh Hn. unfold integrate_sandbox. rewrite counter_loop_events, rate_loop_events by done.
  rewrite <- foldl_app. by apply apply_events.
Qed.

Lemma integrate_all_lookup cfg kvs sb w :
  0 < cfg_MaxHold cfg → NoDup kvs.*1 →
  foldl (integrate_sandbox cfg) ∅ kvs !! (sb, w) =
  (g ← (list_to_map kvs : gmap string (list Sample)) !! sb;
   record_of sb w (group_events cfg (sort_slice before (dedupeByTimestamp g)))).
Proof.
  intros Hh. revert sb w. induction kvs as [|[sandbox group] kvs IH] using rev_ind; intros sb w Hnd; [done|].
  rewrite foldl_app. cbn [foldl]. rewrite fmap_app in Hnd. apply NoDup_app in Hnd as (Hnd & Hni & _).
  assert (sandbox ∉ kvs.*1) as Hs by (intros Hin; apply (Hni sandbox Hin); set_solver).
  assert ((list_to_map (kvs ++ [(sandbox, group)]) : gmap string (list Sample)) =
    <[sandbox := group]> (list_to_map kvs)) as ->.
  { rewrite (list_to_map_proper (kvs ++ [(sandbox, group)]) ((sandbox, group) :: kvs)); [done| |].
    - rewrite fmap_app. apply NoDup_app. split_and!; [done|set_solver|apply NoDup_singleton].
    - by rewrite Permutation_app_comm. }
  rewrite integrate_sandbox_lookup; [|done|].
  - destruct (decide (sb = sandbox)) as [->|Hne].
    + by rewrite lookup_insert_eq.
    + by rewrite lookup_insert_ne, IH by done.
  - intros w'. rewrite IH by done. by rewrite not_elem_of_list_to_map_1.
Qed.

Lemma integrated_spec cfg samples site sb w :
  0 < cfg_MaxHold cfg →
  foldl (integrate_sandbox cfg) ∅ (map_range site (by_sandbox samples)) !! (sb, w) =
  integrated cfg samples sb w.
Proof.
  intros Hh. rewrite integrate_all_lookup by (done || apply NoDup_map_range).
  assert (list_to_map (map_range site (by_sandbox samples)) = by_sandbox samples) as ->.
  { rewrite (list_to_map_proper _ (map_to_list (by_sandbox samples)));
      [apply list_to_map_to_list|apply NoDup_map_range|apply map_range_perm]. }
  rewrite by_sandbox_lookup. unfold integrated, timeline.
  destruct (decide _) as [->|]; [|done]. simpl.
  assert (sort_slice before (dedupeByTimestamp []) = []) as ->; [|done].
  apply Permutation_nil_r. apply sort_slice_perm.
Qed.

Lemma integrated_keys cfg samples sb w r :
  integrated cfg samples sb w = Some r → u_SandboxID r = sb ∧ u_Window r = w.
Proof. apply record_of_keys, group_events_keep. Qed.

(** What an integration returns: the records, one per sandbox and window, in order. *)
Lemma Integrate_spec samples cfg :
  (∀ r, r ∈ Integrate samples cfg ↔
    integrated (norm_config cfg) samples (u_SandboxID r) (u_Window r) = Some r) ∧
  StronglySorted (not_after record_less) (Integrate samples cfg) ∧
  NoDup (Integrate samples cfg) ∧
  (∀ x y, x ∈ Integrate samples cfg → y ∈ Integrate samples cfg →
    u_SandboxID x = u_SandboxID y → u_Window x = u_Window y → x = y).
Proof.
  unfold Integrate. destruct (norm_config_pos cfg) as [_ Hh].
  set (recs := foldl _ ∅ _).
  assert (∀ r, r ∈ (map_range "recs" recs).*2 ↔
    integrated (norm_config cfg) samples (u_SandboxID r) (u_Window r) = Some r) as Hel.
  { intros r. rewrite <- (integrated_spec _ _ "bySandbox") by done. fold recs. rewrite list_elem_of_fmap. split.
    - intros ([[sb w] r'] & -> & Hin). simpl. apply elem_of_map_range in Hin. pose proof Hin as Hin'.
      unfold recs in Hin'. rewrite integrated_spec in Hin' by done. apply integrated_keys in Hin' as [-> ->]. done.
    - intros Hl. exists ((u_SandboxID r, u_Window r), r). split; [done|]. by apply elem_of_map_range. }
  assert (∀ x y, x ∈ (map_range "recs" recs).*2 → y ∈ (map_range "recs" recs).*2 →
    u_SandboxID x = u_SandboxID y → u_Window x = u_Window y → x = y) as Huniq.
  { intros x y Hx%Hel Hy%Hel H1 H2. rewrite H1, H2 in Hx. congruence. }
  split_and!.
  - intros r. by rewrite sort_slice_perm.
  - apply sort_slice_sorted, _.
  - rewrite sort_slice_perm. apply NoDup_fmap_2_strong.
    + intros [[sb w] r] [[sb' w'] r'] Hin Hin' Heq. simpl in Heq. subst r'.
      apply elem_of_map_range in Hin, Hin'. unfold recs in Hin, Hin'.
      rewrite integrated_spec in Hin, Hin' by done.
      apply integrated_keys in Hin as [<- <-]. by apply integrated_keys in Hin' as [<- <-].
    + eapply NoDup_fmap_1. apply NoDup_map_range.
  - intros x y. rewrite !sort_slice_perm. apply Huniq.
Qed.

End integration.

(** ** Replays *)

Lemma dedupe_seen l : (foldl dedupe_step (∅, []) l).1 = list_to_set (s_Timestamp <$> l).
Proof.
  induction l as [|s l IH] using rev_ind; [done|]. rewrite foldl_app. cbn [foldl].
  destruct (foldl dedupe_step (∅, []) l) as [seen out]. simpl in IH. subst seen. unfold dedupe_step.
  rewrite fmap_app, list_to_set_app_L. case_bool_decide; simpl; set_solver.
Qed.

Lemma dedupe_snoc l s :
  dedupeByTimestamp (l ++ [s]) =
  dedupeByTimestamp l ++ (if decide (s_Timestamp s ∈ s_Timestamp <$> l) then [] else [s]).
Proof.
  unfold dedupeByTimestamp. rewrite foldl_app. cbn [foldl]. pose proof (dedupe_seen l) as Hs.
  destruct (foldl dedupe_step (∅, []) l) as [seen out]. simpl in Hs. subst seen. unfold dedupe_step.
  case_bool_decide as Hin; rewrite elem_of_list_to_set in Hin; simpl.
  - rewrite decide_True by done. by rewrite app_nil_r.
  - by rewrite decide_False.
Qed.

(** The instants of the group, each once. *)
Lemma dedupe_spec l :
  NoDup (s_Timestamp <$> dedupeByTimestamp l) ∧ dedupeByTimestamp l ⊆ l ∧
  (∀ t, t ∈ s_Timestamp <$> dedupeByTimestamp l ↔ t ∈ s_Timestamp <$> l).
Proof.
  induction l as [|s l IH] using rev_ind; [simpl; split_and!; [constructor|done|done]|].
  destruct IH as (Hnd & Hsub & Hts). rewrite dedupe_snoc.
  destruct (decide (s_Timestamp s ∈ s_Timestamp <$> l)) as [Hin|Hin].
  - rewrite app_nil_r. split_and!; [done|set_solver|]. intros t. rewrite Hts, fmap_app. set_solver.
  - split_and!; [|set_solver|].
    + rewrite fmap_app. apply NoDup_app. split_and!; [done| |apply NoDup_singleton].
      intros t Ht. rewrite Hts in Ht. set_solver.
    + intros t. rewrite !fmap_app, !elem_of_app, Hts. done.
Qed.

Lemma dedupe_replay l extra :
  (∀ s, s ∈ extra → s_Timestamp s ∈ s_Timestamp <$> l) →
  dedupeByTimestamp (l ++ extra) = dedupeByTimestamp l.
Proof.
  induction extra as [|s extra IH] using rev_ind; intros He; [by rewrite app_nil_r|].
  rewrite (assoc_L (++)), dedupe_snoc, IH by set_solver. rewrite decide_True; [by rewrite app_nil_r|].
  rewrite fmap_app. assert (s_Timestamp s ∈ s_Timestamp <$> l) by (apply He; set_solver). set_solver.
Qed.

(** Distinct instants leave nothing to the sort. *)
Lemma timeline_tie l x y :
  NoDup (s_Timestamp <$> l) → x ∈ l → y ∈ l → before x y = false → before y x = false → x = y.
Proof.
  unfold before. intros Hnd Hx Hy Hxy Hyx. assert (s_Timestamp x = s_Timestamp y) as Heq by lia.
  apply list_elem_of_lookup in Hx as [i Hi], Hy as [j Hj].
  assert (i = j) as ->; [|congruence].
  eapply NoDup_lookup; [exact Hnd|rewrite list_lookup_fmap, Hi; done|rewrite list_lookup_fmap, Hj; simpl; by rewrite Heq].
Qed.

(** A list of instants in order. *)
Definition ordered (group : list Sample) : Prop :=
  StronglySorted (λ a b, s_Timestamp a < s_Timestamp b) group.

Lemma strict_sorted (l : list Sample) :
  StronglySorted (not_after before) l → NoDup (s_Timestamp <$> l) → ordered l.
Proof.
  induction 1 as [|x l Hl IH Hx]; intros Hnd; [constructor|]. rewrite fmap_cons in Hnd.
  apply NoDup_cons in Hnd as [Hni Hnd]. constructor; [by apply IH|].
  rewrite Forall_forall in *. intros y Hy. specialize (Hx y Hy). unfold not_after, before in Hx.
  assert (s_Timestamp x ≠ s_Timestamp y); [|lia]. intros Heq. apply Hni. rewrite Heq.
  by apply list_elem_of_fmap_2.
Qed.

Section timelines.
Context `{!SliceSort}.

Lemma timeline_perm sb samples :
  timeline sb samples ≡ₚ dedupeByTimestamp (filter (λ s, s_SandboxID s = sb) samples).
Proof. apply sort_slice_perm. Qed.

Lemma timeline_ordered sb samples : ordered (timeline sb samples).
Proof.
  apply strict_sorted; [apply sort_slice_sorted, _|]. rewrite timeline_perm. apply dedupe_spec.
Qed.

Lemma timeline_elem sb samples s : s ∈ timeline sb samples → s ∈ samples ∧ s_SandboxID s = sb.
Proof.
  rewrite timeline_perm. intros Hs. destruct (dedupe_spec (filter (λ s, s_SandboxID s = sb) samples)) as (_ & Hi & _).
  apply Hi, list_elem_of_filter in Hs. tauto.
Qed.

End timelines.

Lemma timeline_replay (S1 S2 : SliceSort) sb samples extra :
  (∀ s, s ∈ extra → ∃ s', s' ∈ samples ∧ s_SandboxID s' = s_SandboxID s ∧ s_Timestamp s' = s_Timestamp s) →
  @timeline S1 sb (samples ++ extra) = @timeline S2 sb samples.
Proof.
  intros He. unfold timeline. rewrite filter_app, dedupe_replay.
  - apply sort_slice_unique; [apply _|done|]. intros x y. apply timeline_tie, dedupe_spec.
  - intros s [Hsb Hs]%list_elem_of_filter. destruct (He s Hs) as (s' & Hs' & Hsb' & <-).
    apply list_elem_of_fmap_2, list_elem_of_filter. split; [congruence|done].
Qed.

(** The integration is deterministic and idempotent.  Whatever the order in which the
    maps are ranged over and however ties are sorted, and when samples are seen again, or
    others of the same sandbox at the same instants, the records are the same. *)
Theorem integrate_deterministic (S1 S2 : SliceSort) (R1 R2 : MapRange) samples extra cfg :
  (∀ s, s ∈ extra → ∃ s', s' ∈ samples ∧ s_SandboxID s' = s_SandboxID s ∧ s_Timestamp s' = s_Timestamp s) →
  @Integrate S1 R1 (samples ++ extra) cfg = @Integrate S2 R2 samples cfg.
Proof.
  intros He. destruct (@Integrate_spec S1 R1 (samples ++ extra) cfg) as (Hel1 & Hs1 & Hn1 & Hu1).
  destruct (@Integrate_spec S2 R2 samples cfg) as (Hel2 & Hs2 & Hn2 & _).
  apply (sorted_ext record_less); [done..| |].
  - intros x y Hx Hy Hxy Hyx. destruct (record_less_tie x y Hxy Hyx). by apply Hu1.
  - intros r. rewrite Hel1, Hel2. unfold integrated. by rewrite (timeline_replay S1 S2).
Qed.

(** ** Every instant is billed at most once *)

Lemma Truncate_spec t d : 0 < d → Truncate t d ≤ t < Truncate t d + d.
Proof.
  intros Hd. unfold Truncate. rewrite (proj2 (Z.leb_gt d 0)) by done.
  pose proof (Z.mod_pos_bound t d Hd). lia.
Qed.

Lemma Truncate_next t d : 0 < d → Truncate (Truncate t d + d) d = Truncate t d + d.
Proof.
  intros Hd. unfold Truncate. rewrite (proj2 (Z.leb_gt d 0)) by done.
  assert ((t - t mod d + d) mod d = 0) as ->; [|lia].
  rewrite (Z.mod_eq t d) by lia. replace (t - (t - d * (t / d)) + d) with ((t / d + 1) * d) by lia.
  apply Z.mod_mul. lia.
Qed.

(** The slices follow one another from the start to the end of the interval, each in its
    window. *)
Fixpoint tiles (l : list (Z * Z * Z)) (window start end_ : Z) : Prop :=
  match l with
  | [] => start = end_
  | (w, s, e) :: l' => s = start ∧ w = Truncate s window ∧ s < e ≤ w + window ∧ tiles l' window e end_
  end.

(** After its first slice, an interval ends or goes on at the start of a window. *)
Lemma slices_aligned n k start end_ window :
  0 < window → start = Truncate start window → start ≤ end_ ≤ start + Z.of_nat k * window → (k ≤ n)%nat →
  tiles (slices n start end_ window) window start end_ ∧
  slices n start end_ window = slices k start end_ window.
Proof.
  intros Hw. revert n start. induction k as [|k IH]; intros n start Ha He Hn.
  - assert (start = end_) as -> by lia. assert (slices n end_ end_ window = []) as ->; [|done].
    destruct n; cbn; [done|]. by rewrite Z.ltb_irrefl.
  - destruct n as [|n]; [lia|]. cbn [slices]. destruct (Z.ltb_spec start end_) as [Hlt|Hge].
    2: { assert (start = end_) by lia. done. }
    rewrite <- Ha. destruct (Z.ltb_spec (start + window) end_) as [Hlt'|Hge'].
    + assert (start + window = Truncate (start + window) window) as Hn'
        by (rewrite Ha at 2; rewrite Truncate_next, <- Ha by done; done).
      destruct (IH n (start + window) Hn') as [Ht Heq]; [lia|lia|].
      rewrite Heq in *. split; [|done]. cbn [tiles]. split_and!; [done|done|lia|lia|done].
    + assert (∀ m, slices m end_ end_ window = []) as Hnil
        by (intros [|m]; cbn; [done|by rewrite Z.ltb_irrefl]).
      rewrite !Hnil. cbn [tiles]. split; [|done]. split_and!; [done|done|lia|lia|done].
Qed.

Lemma interval_tiles n start end_ window :
  0 < window → start ≤ end_ → (interval_fuel start end_ window ≤ n)%nat →
  tiles (interval_slices start end_ window) window start end_ ∧
  slices n start end_ window = interval_slices start end_ window.
Proof.
  intros Hw He Hn. unfold interval_slices. unfold interval_fuel in *.
  assert (0 ≤ (end_ - start) / window) as Hq by (apply Z.div_pos; lia).
  pose proof (Z.mul_succ_div_gt (end_ - start) window Hw) as Hlt.
  set (q := (end_ - start) / window) in *.
  destruct (Z.to_nat (q + 3)) as [|m] eqn:Em; [lia|]. destruct n as [|n]; [lia|]. cbn [slices].
  destruct (Z.ltb_spec start end_) as [Hse|Hse]; [|split; [simpl; lia|done]].
  pose proof (Truncate_spec start window Hw) as Ht.
  assert (∀ k, slices k end_ end_ window = []) as Hnil
    by (intros [|k]; cbn; [done|by rewrite Z.ltb_irrefl]).
  destruct (Z.ltb_spec (Truncate start window + window) end_) as [Hlt'|Hge'].
  - set (s' := Truncate start window + window) in *.
    assert (s' = Truncate s' window) as Ha by (unfold s'; by rewrite Truncate_next).
    assert (end_ ≤ s' + Z.of_nat (Z.to_nat (q + 1)) * window) as Hend
      by (rewrite Z2Nat.id by lia; unfold s'; nia).
    destruct (slices_aligned m (Z.to_nat (q + 1)) s' end_ window) as [H1 H2]; [done|done|lia|lia|].
    destruct (slices_aligned n (Z.to_nat (q + 1)) s' end_ window) as [H3 H4]; [done|done|lia|lia|].
    rewrite H2, H4. rewrite H2 in H1. split; [|done]. cbn [tiles]. split_and!; [done|done|unfold s'; lia|unfold s'; lia|done].
  - rewrite !Hnil. cbn [tiles]. split; [|done]. split_and!; [done|done|lia|lia|done].
Qed.

(** C39: the loop over the windows of an interval ends, and tiles the interval.  With the
    fuel of [integrateInterval] or more, the loop accrues the interval in slices that
    follow one another from its start to its end, none empty and each within the window
    it is accrued to. *)
Theorem interval_loop_terminates n sandbox a start end_ window recs :
  0 < window → start ≤ end_ → (interval_fuel start end_ window ≤ n)%nat →
  interval_loop n sandbox a start end_ window recs = integrateInterval sandbox a start end_ window recs ∧
  ∃ l, tiles l window start end_ ∧
    integrateInterval sandbox a start end_ window recs =
    foldl (λ recs '(w, s, e), <[(sandbox, w) := accrue a (time_sub e s) (record_at sandbox a w recs)]> recs) recs l.
Proof.
  intros Hw He Hn. destruct (interval_tiles n start end_ window Hw He Hn) as [Ht Hs]. split.
  - by rewrite interval_loop_fuel, Hs, interval_events.
  - exists (interval_slices start end_ window). split; [done|]. rewrite interval_events.
    generalize (interval_slices start end_ window) as l. intros l. clear. revert recs.
    induction l as [|[[w s] e] l IH]; intros recs; [done|]. rewrite fmap_cons. cbn [foldl]. by rewrite IH.
Qed.

(** Slices that follow one another, with gaps, each in its window. *)
Fixpoint packed (window lo : Z) (l : list (Sample * (Z * Z * Z))) : Prop :=
  match l with
  | [] => True
  | (_, (w, s, e)) :: l' => lo ≤ s ∧ w ≤ s ∧ s < e ≤ w + window ∧ packed window e l'
  end.

Lemma packed_weaken window lo lo' l : lo' ≤ lo → packed window lo l → packed window lo' l.
Proof. destruct l as [|[a [[w s] e]] l]; simpl; [done|]. intros ? (? & ? & ? & ?). split_and!; (done || lia). Qed.

Lemma packed_filter window lo l (P : Sample * (Z * Z * Z) → Prop) `{!∀ x, Decision (P x)} :
  packed window lo l → packed window lo (filter P l).
Proof.
  revert lo. induction l as [|[a [[w s] e]] l IH]; intros lo; [done|]. simpl. intros (? & ? & ? & Hl).
  rewrite filter_cons. destruct (decide _); [simpl; split_and!; (done || lia || by apply IH)|].
  apply (packed_weaken _ e); [lia|by apply IH].
Qed.

Definition slice_length (p : Sample * (Z * Z * Z)) : Z := p.2.2 - p.2.1.2.

Lemma packed_sum window lo hi l :
  packed window lo l → lo ≤ hi → Forall (λ p, p.2.2 ≤ hi) l → zsum slice_length l ≤ hi - lo.
Proof.
  revert lo. induction l as [|[a [[w s] e]] l IH]; intros lo; simpl; [lia|].
  intros (? & ? & ? & Hl) Hlo Hall. apply Forall_cons in Hall as [He Hall]. simpl in He.
  specialize (IH e Hl He Hall). unfold slice_length in *. simpl in *. lia.
Qed.

Lemma tiles_packed window start end_ l a rest :
  0 < window → tiles l window start end_ → packed window end_ rest →
  packed window start ((pair a <$> l) ++ rest).
Proof.
  intros Hw. revert start. induction l as [|[[w s] e] l IH]; intros start; simpl.
  - by intros ->.
  - intros (-> & -> & Hse & Hl) Hr. pose proof (Truncate_spec start window Hw).
    split_and!; [lia|lia|lia|lia|by apply IH].
Qed.

Lemma rate_slices_packed cfg group :
  0 < cfg_Window cfg → 0 < cfg_MaxHold cfg → ordered group →
  match group with [] => True | a :: _ => packed (cfg_Window cfg) (s_Timestamp a) (rate_slices cfg group) end.
Proof.
  intros Hw Hh Ho. induction Ho as [|a group Hg IH Ha]; [done|]. destruct group as [|b group]; [done|].
  apply Forall_cons in Ha as [Hab _]. rewrite rate_slices_cons.
  assert (0 ≤ held cfg a b ≤ s_Timestamp b - s_Timestamp a) as Hheld.
  { unfold held. pose proof (time_sub_ge (s_Timestamp b) (s_Timestamp a)) as _.
    assert (time_sub (s_Timestamp b) (s_Timestamp a) ≤ s_Timestamp b - s_Timestamp a)
      by (unfold time_sub, min_int64, max_int64; lia).
    destruct (Z.leb_spec (time_sub (s_Timestamp b) (s_Timestamp a)) 0); [lia|].
    destruct (Z.ltb_spec (cfg_MaxHold cfg) (time_sub (s_Timestamp b) (s_Timestamp a))); lia. }
  destruct (Z.leb_spec (held cfg a b) 0) as [H0|H0].
  - simpl. apply (packed_weaken _ (s_Timestamp b)); [lia|done].
  - apply (tiles_packed _ _ (s_Timestamp a + held cfg a b)); [done| |].
    + apply (interval_tiles (interval_fuel (s_Timestamp a) (s_Timestamp a + held cfg a b) (cfg_Window cfg)));
        [done|lia|done].
    + apply (packed_weaken _ (s_Timestamp b)); [lia|done].
Qed.

Lemma rate_slices_from cfg group a sl : (a, sl) ∈ rate_slices cfg group → a ∈ group.
Proof.
  induction group as [|a' [|b group] IH]; [set_solver|set_solver|]. rewrite rate_slices_cons, elem_of_app.
  intros [Hin|Hin]; [|set_solver]. apply list_elem_of_fmap in Hin as (sl' & [= -> ->] & _). set_solver.
Qed.

(** The slices of a window, as the samples that hold and for how long. *)
Definition parts (cfg : Config) (w : Z) (group : list Sample) : list (Sample * Z) :=
  (λ p, (p.1, time_sub p.2.2 p.2.1.2)) <$> filter (λ p, p.2.1.1 = w) (rate_slices cfg group).

Lemma parts_bound cfg w group :
  0 < cfg_Window cfg → 0 < cfg_MaxHold cfg → ordered group →
  zsum snd (parts cfg w group) ≤ cfg_Window cfg ∧
  Forall (λ p, p.1 ∈ group ∧ 0 < p.2) (parts cfg w group).
Proof.
  intros Hw Hh Ho. destruct group as [|a0 group0]; [simpl; split; [lia|constructor]|].
  pose proof (rate_slices_packed cfg (a0 :: group0) Hw Hh Ho : packed _ (s_Timestamp a0) (rate_slices cfg _)) as Hp.
  set (group := a0 :: group0) in *. set (l := rate_slices cfg group) in *.
  assert (Forall (λ p, p.1 ∈ group) l) as Hin
    by (apply Forall_forall; intros [a sl] Hl; by eapply rate_slices_from).
  assert (∀ lo l, packed (cfg_Window cfg) lo l → Forall (λ p, p.2.1.1 ≤ p.2.1.2 < p.2.2 ∧ p.2.2 ≤ p.2.1.1 + cfg_Window cfg) l)
    as Hall.
  { clear. intros lo l. revert lo. induction l as [|[a [[w s] e]] l IH]; intros lo; [constructor|].
    simpl. intros (? & ? & ? & Hl). constructor; [simpl; lia|by eapply IH]. }
  pose proof (packed_filter _ _ _ (λ p, p.2.1.1 = w) Hp) as Hpf. pose proof (Hall _ _ Hpf) as Hf.
  assert (Forall (λ p : Sample * (Z * Z * Z), p.2.1.1 = w ∧ p.1 ∈ group) (filter (λ p, p.2.1.1 = w) l)) as Hwf.
  { apply Forall_forall. intros p [Hpw Hpl]%list_elem_of_filter. rewrite Forall_forall in Hin. by split; [|apply Hin]. }
  unfold parts. fold l. set (fl := filter (λ p, p.2.1.1 = w) l) in *. clearbody fl. split.
  - rewrite zsum_fmap. etrans; [apply (zsum_le _ slice_length)|].
    + rewrite Forall_forall in *. intros p Hpl. specialize (Hf p Hpl). simpl. unfold slice_length, time_sub, min_int64, max_int64. lia.
    + assert (packed (cfg_Window cfg) w fl) as Hpw.
      { destruct fl as [|[a [[w' s] e]] fl]; [done|]. simpl in *. apply Forall_cons in Hwf as [[Hw' _] _].
        simpl in Hw'. subst w'. destruct Hpf as (? & ? & ? & ?). split_and!; (done || lia). }
      cut (zsum slice_length fl ≤ w + cfg_Window cfg - w); [lia|].
      apply (packed_sum (cfg_Window cfg)); [done|lia|].
      rewrite Forall_forall in *. intros p Hpl. destruct (Hwf p Hpl) as [<- _]. specialize (Hf p Hpl). lia.
  - apply Forall_fmap. rewrite Forall_forall in *. intros p Hpl. simpl. destruct (Hwf p Hpl) as [_ Hg].
    specialize (Hf p Hpl). split; [done|]. unfold time_sub, min_int64, max_int64. lia.
Qed.

(** ** What a record holds *)

(** The steps that a window is charged. *)
Definition window_steps (cfg : Config) (w : Z) (group : list Sample) : list (Sample * (Z * Z)) :=
  filter (λ p, Truncate (s_Timestamp p.1) (cfg_Window cfg) = w) (counter_steps group).

(** A field that the slices and the steps update. *)
Lemma record_field {V} (fld : UsageRecord → V) (v0 : V) (g : V → Sample * Z → V) (h : V → Sample * (Z * Z) → V)
    cfg sb w group r :
  (∀ sb a w, fld (empty_record sb a w) = v0) → (∀ a ns r, fld (accrue a ns r) = g (fld r) (a, ns)) →
  (∀ a eg gp r, fld (add_counters eg gp r) = h (fld r) (a, (eg, gp))) →
  record_of sb w (group_events cfg group) = Some r →
  fld r = foldl h (foldl g v0 (parts cfg w group)) (window_steps cfg w group).
Proof.
  intros H0 Hg Hh. unfold record_of, group_events, rate_events, counter_events, parts, window_steps.
  rewrite filter_app, foldl_app. set (F := λ (r : option UsageRecord) e, Some _).
  assert (∀ l r0, from_option fld v0 (foldl F r0 (filter (λ e, ev_window e = w) ((λ p, slice_event p.1 p.2) <$> l))) =
    foldl g (from_option fld v0 r0) ((λ p, (p.1, time_sub p.2.2 p.2.1.2)) <$> filter (λ p, p.2.1.1 = w) l)) as Hr.
  { induction l as [|[a [[w' s] e]] l IH]; intros r0; [done|]. rewrite fmap_cons, !filter_cons. simpl.
    destruct (decide (w' = w)); [|apply IH]. rewrite fmap_cons. simpl. rewrite IH. f_equal. simpl.
    rewrite Hg. f_equal. by destruct r0; simpl; rewrite ?H0. }
  assert (∀ l r0, from_option fld v0 (foldl F r0 (filter (λ e, ev_window e = w)
      ((λ p, step_event cfg p.1 p.2.1 p.2.2) <$> l))) =
    foldl h (from_option fld v0 r0) (filter (λ p, Truncate (s_Timestamp p.1) (cfg_Window cfg) = w) l)) as Hc.
  { induction l as [|[a [eg gp]] l IH]; intros r0; [done|]. rewrite fmap_cons, !filter_cons. simpl.
    destruct (decide (Truncate (s_Timestamp a) (cfg_Window cfg) = w)); [|apply IH]. simpl. rewrite IH. f_equal. simpl.
    rewrite (Hh a). f_equal. by destruct r0; simpl; rewrite ?H0. }
  intros Hs. pose proof (f_equal (from_option fld v0) Hs) as Hf. rewrite Hc, Hr in Hf. by symmetry.
Qed.

Section billing.
Context `{!SliceSort, !MapRange}.

(** C38: a window never bills more than its width.  A record is for samples of its sandbox
    that are among the given ones, each held for some time, and these times together are
    at most the width of the window; the vCPU seconds, the memory GiB seconds and the
    storage GiB hours are the sums over them of the level times the time. *)
Theorem window_billed_once samples cfg r :
  r ∈ Integrate samples cfg →
  ∃ l : list (Sample * Z),
    Forall (λ p, p.1 ∈ samples ∧ s_SandboxID p.1 = u_SandboxID r ∧ 0 < p.2) l ∧
    zsum snd l ≤ cfg_Window (norm_config cfg) ∧
    u_VCPUSeconds r = foldl (λ x p, fadd x (fmul (of_int (s_VCPUs p.1)) (Seconds p.2))) (of_int 0) l ∧
    u_MemGiBSeconds r =
      foldl (λ x p, fadd x (fmul (fdiv (of_int (memLevel p.1)) bytesPerGiB) (Seconds p.2))) (of_int 0) l ∧
    u_StorageGiBHours r =
      foldl (λ x p, fadd x (fmul (fdiv (of_int (s_DiskBytes p.1)) bytesPerGiB)
        (fdiv (Seconds p.2) (of_int 3600)))) (of_int 0) l.
Proof.
  destruct (Integrate_spec samples cfg) as (Hel & _). rewrite Hel. unfold integrated. intros Hr.
  destruct (norm_config_pos cfg) as [Hw Hh]. set (cfg' := norm_config cfg) in *.
  set (group := timeline (u_SandboxID r) samples) in *. exists (parts cfg' (u_Window r) group).
  destruct (parts_bound cfg' (u_Window r) group Hw Hh (timeline_ordered _ _)) as [Hs Hp].
  assert (∀ (v : float64) (l : list (Sample * (Z * Z))), foldl (λ x _, x) v l = v) as Hid
    by (intros v l; by induction l).
  split_and!; [|done| | |].
  - eapply Forall_impl; [exact Hp|]. intros [a ns] [Ha Hns]. simpl in *. apply timeline_elem in Ha. tauto.
  - etrans; [apply (record_field u_VCPUSeconds (of_int 0)
      (λ x p, fadd x (fmul (of_int (s_VCPUs p.1)) (Seconds p.2))) (λ x _, x) _ _ _ _ _
      (λ _ _ _, eq_refl) (λ _ _ _, eq_refl) (λ _ _ _ _, eq_refl) Hr)|apply Hid].
  - etrans; [apply (record_field u_MemGiBSeconds (of_int 0)
      (λ x p, fadd x (fmul (fdiv (of_int (memLevel p.1)) bytesPerGiB) (Seconds p.2))) (λ x _, x) _ _ _ _ _
      (λ _ _ _, eq_refl) (λ _ _ _, eq_refl) (λ _ _ _ _, eq_refl) Hr)|apply Hid].
  - etrans; [apply (record_field u_StorageGiBHours (of_int 0)
      (λ x p, fadd x (fmul (fdiv (of_int (s_DiskBytes p.1)) bytesPerGiB) (fdiv (Seconds p.2) (of_int 3600))))
      (λ x _, x) _ _ _ _ _ (λ _ _ _, eq_refl) (λ _ _ _, eq_refl) (λ _ _ _ _, eq_refl) Hr)|apply Hid].
Qed.

(** ** Every step of a counter is billed once *)

Lemma record_of_some sb w evs e : e ∈ evs → ev_window e = w → is_Some (record_of sb w evs).
Proof.
  intros He Hw. unfold record_of.
  assert (filter (λ e, ev_window e = w) evs ≠ []) as Hne.
  { intros Hf. assert (e ∈ filter (λ e, ev_window e = w) evs) as Hin by (by apply list_elem_of_filter).
    rewrite Hf in Hin. set_solver. }
  destruct (filter _ evs) as [|e' l _] using rev_ind; [done|]. rewrite foldl_app. simpl. eauto.
Qed.

(** How far a counter went over the samples: a smaller reading counts from zero. *)
Fixpoint progress (f : Sample → Z) (group : list Sample) : Z :=
  match group with
  | a :: ((b :: _) as group') => (if f a <=? f b then f b - f a else f b) + progress f group'
  | _ => 0
  end.

Lemma counterStep_exact x y :
  0 ≤ x ≤ max_int64 → 0 ≤ y ≤ max_int64 → counterStep x y = if x <=? y then y - x else y.
Proof.
  intros Hx Hy. unfold counterStep. destruct (Z.leb_spec x y); [|done].
  rewrite int64_id by (unfold is_int64, min_int64, max_int64 in *; lia). done.
Qed.

Lemma steps_progress group :
  Forall (λ s, 0 ≤ s_EgressBytes s ≤ max_int64 ∧ 0 ≤ s_GPUSeconds s ≤ max_int64) group →
  zsum (λ p, p.2.1) (counter_steps group) = progress s_EgressBytes group ∧
  zsum (λ p, p.2.2) (counter_steps group) = progress s_GPUSeconds group.
Proof.
  induction group as [|a [|b group] IH]; intros Hg; [done|done|]. rewrite counter_steps_cons, !zsum_app.
  apply Forall_cons in Hg as [Ha Hg]. destruct (IH Hg) as [-> ->]. apply Forall_cons in Hg as [Hb _].
  cbv zeta. cbn [progress]. rewrite !counterStep_exact by tauto.
  destruct (_ && _) eqn:E; cbn [zsum foldr fst snd]; [|lia].
  apply andb_true_iff in E as [->%Z.eqb_eq ->%Z.eqb_eq]. done.
Qed.

(** A counter that is never reset goes from its first to its last value. *)
Lemma progress_monotone f a group :
  Forall (λ s, 0 ≤ f s ≤ max_int64) (a :: group) → Sorted (λ x y, f x ≤ f y) (a :: group) →
  progress f (a :: group) = f (default a (last group)) - f a.
Proof.
  revert a. induction group as [|b group IH]; intros a Hr Hs; [simpl; lia|].
  change (progress f (a :: b :: group)) with
    ((if f a <=? f b then f b - f a else f b) + progress f (b :: group)).
  apply Forall_cons in Hr as [Ha Hr]. apply Sorted_inv in Hs as [Hs Hab]. apply HdRel_inv in Hab.
  rewrite IH by done. rewrite (proj2 (Z.leb_le (f a) (f b))) by done.
  destruct group as [|c group]; simpl; [lia|]. rewrite last_cons. destruct (last group); simpl; lia.
Qed.

Lemma steps_nonneg group :
  Forall (λ s, 0 ≤ s_EgressBytes s ≤ max_int64 ∧ 0 ≤ s_GPUSeconds s ≤ max_int64) group →
  Forall (λ p, 0 ≤ p.2.1 ∧ 0 ≤ p.2.2) (counter_steps group).
Proof.
  assert (∀ x y, 0 ≤ x ≤ max_int64 → 0 ≤ y ≤ max_int64 → 0 ≤ counterStep x y) as Hs.
  { intros x y Hx Hy. rewrite counterStep_exact by done. destruct (Z.leb_spec x y); lia. }
  induction group as [|a [|b group] IH]; intros Hg; [constructor|constructor|].
  rewrite counter_steps_cons. apply Forall_cons in Hg as [Ha Hg]. specialize (IH Hg).
  apply Forall_cons in Hg as [Hb _]. apply Forall_app_2; [|done]. cbv zeta.
  case_match; [constructor|]. apply Forall_singleton. simpl. split; apply Hs; tauto.
Qed.

Lemma counter_fold {A} (f : A → Z) l :
  Forall (λ x, 0 ≤ f x) l → zsum f l ≤ max_int64 → foldl (λ x p, int64 (x + f p)) 0 l = zsum f l.
Proof.
  intros Hf Hm. assert (∀ x, foldl (λ x p, int64 (x + f p)) (int64 x) l = int64 (x + zsum f l)) as Hfold.
  { clear. induction l as [|p l IH]; intros x; simpl; [by rewrite Z.add_0_r|].
    rewrite int64_add_l, IH. f_equal. lia. }
  etrans; [exact (Hfold 0)|]. apply int64_id. pose proof (zsum_nonneg f l Hf).
  unfold is_int64, min_int64, max_int64 in *. lia.
Qed.

(** What the records of a sandbox hold of a counter, for either counter. *)
Lemma counter_total samples cfg sb (fld : UsageRecord → Z) (d : Sample * (Z * Z) → Z) :
  (∀ sb a w, fld (empty_record sb a w) = 0) → (∀ a ns r, fld (accrue a ns r) = fld r) →
  (∀ a eg gp r, fld (add_counters eg gp r) = int64 (fld r + d (a, (eg, gp)))) →
  Forall (λ p, 0 ≤ d p) (counter_steps (timeline sb samples)) →
  zsum d (counter_steps (timeline sb samples)) ≤ max_int64 →
  zsum fld (filter (λ r, u_SandboxID r = sb) (Integrate samples cfg)) =
  zsum d (counter_steps (timeline sb samples)).
Proof.
  intros Hz Ha Hc Hd Hm. destruct (Integrate_spec samples cfg) as (Hel & _ & Hnd & Hu).
  set (cfg' := norm_config cfg) in *. set (group := timeline sb samples) in *.
  set (R := filter (λ r, u_SandboxID r = sb) (Integrate samples cfg)).
  assert (∀ r, r ∈ R ↔ u_SandboxID r = sb ∧ record_of sb (u_Window r) (group_events cfg' group) = Some r) as HR.
  { intros r. unfold R. rewrite list_elem_of_filter, Hel. unfold integrated. split; intros [<- ?]; done. }
  rewrite (zsum_by_key (λ p, Truncate (s_Timestamp p.1) (cfg_Window cfg')) d (u_Window <$> R)).
  - rewrite zsum_fmap. apply zsum_ext. intros r [Hsb Hr]%HR.
    rewrite (record_field fld 0 (λ x _, x) (λ x p, int64 (x + d p)) cfg' sb (u_Window r) group r) by done.
    assert (∀ (v : Z) (l : list (Sample * Z)), foldl (λ x _, x) v l = v) as -> by (intros v l; by induction l).
    unfold window_steps. apply counter_fold.
    + rewrite Forall_forall in *. intros p Hp. apply Hd. by apply list_elem_of_filter in Hp as [_ ?].
    + etrans; [by apply zsum_filter_le|done].
  - apply NoDup_fmap_2_strong; [|by apply NoDup_filter]. intros x y [Hx Hx']%HR [Hy Hy']%HR Hxy.
    rewrite Hxy in Hx'. congruence.
  - intros p Hp. destruct (record_of_some sb (Truncate (s_Timestamp p.1) (cfg_Window cfg'))
      (group_events cfg' group) (step_event cfg' p.1 p.2.1 p.2.2)) as [r Hr]; [|done|].
    { apply elem_of_app. right. apply list_elem_of_fmap. by exists p. }
    destruct (record_of_keys _ _ _ _ (group_events_keep _ _) Hr) as [Hsb Hw]. rewrite <- Hw.
    apply list_elem_of_fmap_2, HR. split; [done|]. by rewrite Hw.
Qed.

(** Every step of a counter is billed exactly once.  The bytes and the GPU seconds of a
    sandbox's records together are the progress of its counters from sample to sample, a
    decrease being a reset to zero; for a counter that is never reset that is its last
    value minus its first. *)
Theorem counters_billed_once samples cfg sb :
  let group := timeline sb samples in
  let recs := filter (λ r, u_SandboxID r = sb) (Integrate samples cfg) in
  Forall (λ s, 0 ≤ s_EgressBytes s ≤ max_int64 ∧ 0 ≤ s_GPUSeconds s ≤ max_int64) samples →
  progress s_EgressBytes group ≤ max_int64 → progress s_GPUSeconds group ≤ max_int64 →
  zsum u_EgressBytes recs = progress s_EgressBytes group ∧
  zsum u_GPUSeconds recs = progress s_GPUSeconds group ∧
  (∀ a rest, group = a :: rest → Sorted (λ x y, s_EgressBytes x ≤ s_EgressBytes y) group →
    zsum u_EgressBytes recs = s_EgressBytes (default a (last rest)) - s_EgressBytes a).
Proof.
  intros group recs Hr He Hg.
  assert (Forall (λ s, 0 ≤ s_EgressBytes s ≤ max_int64 ∧ 0 ≤ s_GPUSeconds s ≤ max_int64) group) as Hgr.
  { rewrite Forall_forall in *. intros s Hs. apply Hr. by apply timeline_elem in Hs as [? _]. }
  pose proof (steps_nonneg group Hgr) as Hnn. destruct (steps_progress group Hgr) as [Hse Hsg].
  assert (zsum u_EgressBytes recs = progress s_EgressBytes group) as HE.
  { rewrite <- Hse. apply (counter_total samples cfg sb u_EgressBytes (λ p, p.2.1)); [done..| |fold group; by rewrite Hse].
    eapply Forall_impl; [exact Hnn|]. by intros p [? _]. }
  split_and!; [done| |].
  - rewrite <- Hsg. apply (counter_total samples cfg sb u_GPUSeconds (λ p, p.2.2)); [done..| |fold group; by rewrite Hsg].
    eapply Forall_impl; [exact Hnn|]. by intros p [_ ?].
  - intros a rest Hgroup Hs. rewrite HE, Hgroup in *. apply progress_monotone; [|done].
    eapply Forall_impl; [exact Hgr|]. by intros s [? _].
Qed.

End billing.

(** ** Concrete inputs *)

Definition ex_sample (sb : string) (t egress : Z) : Sample :=
  {| s_OrgID := "acme"; s_SandboxID := sb; s_Region := ""; s_Node := "n1"; s_Timestamp := t * second;
     s_VCPUs := 2; s_MemUniqueBytes := Z.shiftl 1 30; s_MemSharedAmortizedBytes := 0; s_DiskBytes := 0;
     s_EgressBytes := egress; s_GPUSeconds := 0 |}.

(** A sandbox sampled three times, and once more at the second instant. *)
Definition ex_samples : list Sample :=
  [ex_sample "s1" 100 10; ex_sample "s1" 40 4; ex_sample "s2" 40 7; ex_sample "s1" 150 25].

Lemma integrate_deterministic_witness :
  @Integrate merge_slice_sort list_map_range (ex_samples ++ [ex_sample "s1" 100 99]) DefaultConfig =
  @Integrate merge_slice_sort list_map_range ex_samples DefaultConfig.
Proof.
  apply (integrate_deterministic _ _ _ _ ex_samples [ex_sample "s1" 100 99]).
  intros s Hs. apply list_elem_of_singleton in Hs as ->. exists (ex_sample "s1" 100 10).
  split; [by apply (list_elem_of_lookup_2 _ 0%nat)|done].
Defined.

Lemma interval_loop_terminates_witness :
  interval_loop 9 "s1" (ex_sample "s1" 40 4) 40 100 30 ∅ = integrateInterval "s1" (ex_sample "s1" 40 4) 40 100 30 ∅ ∧
  ∃ l, tiles l 30 40 100 ∧
    integrateInterval "s1" (ex_sample "s1" 40 4) 40 100 30 ∅ =
    foldl (λ recs '(w, s, e), <[("s1", w) :=
      accrue (ex_sample "s1" 40 4) (time_sub e s) (record_at "s1" (ex_sample "s1" 40 4) w recs)]> recs) ∅ l.
Proof. apply interval_loop_terminates; [lia|lia|by_eval]. Defined.

Definition ex_record : UsageRecord :=
  {| u_OrgID := "acme"; u_SandboxID := "s1"; u_Region := ""; u_Window := 60 * second;
     u_VCPUSeconds := of_int 120; u_MemGiBSeconds := of_int 60; u_StorageGiBHours := of_int 0;
     u_EgressBytes := 15; u_GPUSeconds := 0 |}.

Lemma window_billed_once_witness :
  ∃ l : list (Sample * Z),
    Forall (λ p, p.1 ∈ ex_samples ∧ s_SandboxID p.1 = u_SandboxID ex_record ∧ 0 < p.2) l ∧
    zsum snd l ≤ cfg_Window (norm_config DefaultConfig) ∧
    u_VCPUSeconds ex_record = foldl (λ x p, fadd x (fmul (of_int (s_VCPUs p.1)) (Seconds p.2))) (of_int 0) l ∧
    u_MemGiBSeconds ex_record =
      foldl (λ x p, fadd x (fmul (fdiv (of_int (memLevel p.1)) bytesPerGiB) (Seconds p.2))) (of_int 0) l ∧
    u_StorageGiBHours ex_record =
      foldl (λ x p, fadd x (fmul (fdiv (of_int (s_DiskBytes p.1)) bytesPerGiB)
        (fdiv (Seconds p.2) (of_int 3600)))) (of_int 0) l.
Proof.
  assert (Integrate ex_samples DefaultConfig !! 1%nat = Some ex_record) as Hl by (vm_compute; reflexivity).
  exact (window_billed_once ex_samples DefaultConfig ex_record (list_elem_of_lookup_2 _ _ _ Hl)).
Defined.

Lemma counters_billed_once_witness :
  let group := timeline "s1" ex_samples in
  let recs := filter (λ r, u_SandboxID r = "s1") (Integrate ex_samples DefaultConfig) in
  zsum u_EgressBytes recs = progress s_EgressBytes group ∧
  zsum u_GPUSeconds recs = progress s_GPUSeconds group ∧
  (∀ a rest, group = a :: rest → Sorted (λ x y, s_EgressBytes x ≤ s_EgressBytes y) group →
    zsum u_EgressBytes recs = s_EgressBytes (default a (last rest)) - s_EgressBytes a).
Proof.
  assert (Forall (λ s, 0 ≤ s_EgressBytes s ≤ max_int64 ∧ 0 ≤ s_GPUSeconds s ≤ max_int64) ex_samples) as Hr
    by by_eval.
  assert (progress s_EgressBytes (timeline "s1" ex_samples) ≤ max_int64) as He by by_eval.
  assert (progress s_GPUSeconds (timeline "s1" ex_samples) ≤ max_int64) as Hg by by_eval.
  exact (counters_billed_once ex_samples DefaultConfig "s1" Hr He Hg).
Defined.

End UsageTheorems.
