(* ===== verification/CollectorTheorems.v ===== *)
(** * The usage collector: theorems

    What pruning the sample buffer keeps and what it loses, and that a pod bills only
    its own organization. *)

From S2P Require Import Prelude GoFloat Metering Usage UsageTheorems.
Import GoFloat Usage UsageTheorems.

Module CollectorTheorems.

(** ** Pruning *)

Lemma dedupe_filter c l :
  dedupeByTimestamp (filter (λ s, c ≤ s_Timestamp s) l) = filter (λ s, c ≤ s_Timestamp s) (dedupeByTimestamp l).
Proof.
  induction l as [|s l IH] using rev_ind; [done|]. rewrite dedupe_snoc, !filter_app, !filter_cons, !filter_nil.
  destruct (decide (c ≤ s_Timestamp s)) as [Hc|Hc].
  - rewrite dedupe_snoc, IH. f_equal.
    assert (s_Timestamp s ∈ s_Timestamp <$> filter (λ s, c ≤ s_Timestamp s) l ↔ s_Timestamp s ∈ s_Timestamp <$> l)
      as Hiff.
    { rewrite !list_elem_of_fmap. setoid_rewrite list_elem_of_filter. split; [naive_solver|].
      intros (x & Hx & Hin). exists x. by rewrite <- Hx. }
    destruct (decide (s_Timestamp s ∈ s_Timestamp <$> l)) as [Hin|Hin].
    + rewrite decide_True by (by apply Hiff). done.
    + rewrite decide_False by (by rewrite Hiff). by rewrite filter_cons_True.
  - rewrite app_nil_r, IH. destruct (decide _); [by rewrite filter_nil, app_nil_r|].
    by rewrite filter_cons_False, filter_nil, app_nil_r.
Qed.

Lemma ordered_filter c group :
  ordered group → ∃ old, group = old ++ filter (λ s, c ≤ s_Timestamp s) group ∧
    Forall (λ s, s_Timestamp s < c) old.
Proof.
  induction 1 as [|a group Hg IH Ha]; [by exists []|]. destruct (decide (c ≤ s_Timestamp a)) as [Hc|Hc].
  - exists []. split; [|constructor]. simpl.
    assert (Forall (λ s, c ≤ s_Timestamp s) (a :: group)) as Hall.
    { constructor; [done|]. eapply Forall_impl; [exact Ha|]. simpl. lia. }
    clear -Hall. induction Hall as [|x l Hx Hl IHl]; [done|]. rewrite filter_cons_True by done. by f_equal.
  - destruct IH as (old & Heq & Hold). exists (a :: old). rewrite filter_cons_False by done.
    split; [by simpl; f_equal|]. constructor; [lia|done].
Qed.

Section pruning.
Context `{!SliceSort, !MapRange}.

Lemma timeline_filter c sb samples :
  timeline sb (filter (λ s, c ≤ s_Timestamp s) samples) =
  filter (λ s, c ≤ s_Timestamp s) (timeline sb samples).
Proof.
  unfold timeline. rewrite list_filter_filter.
  rewrite (list_filter_iff _ (λ s, c ≤ s_Timestamp s ∧ s_SandboxID s = sb)) by tauto.
  rewrite <- list_filter_filter, dedupe_filter.
  set (l := dedupeByTimestamp (filter (λ s, s_SandboxID s = sb) samples)).
  assert (NoDup (s_Timestamp <$> l)) as Hnd by apply dedupe_spec.
  apply (StronglySorted_unique_strong (not_after before)).
  - intros x y Hx Hy Hxy Hyx. rewrite sort_slice_perm in Hx. apply list_elem_of_filter in Hx as [_ Hx], Hy as [_ Hy].
    rewrite sort_slice_perm in Hy. by apply (timeline_tie l).
  - apply sort_slice_sorted, _.
  - apply StronglySorted_filter, sort_slice_sorted, _.
  - by rewrite !sort_slice_perm.
Qed.

(** Nothing that starts before the cutoff reaches a window from [c + MaxHold] on. *)
Lemma old_sample_events cfg c w a b group :
  0 < cfg_Window cfg → 0 < cfg_MaxHold cfg → s_Timestamp a < c → c + cfg_MaxHold cfg ≤ w →
  filter (λ e, ev_window e = w) (rate_events cfg (a :: b :: group)) =
    filter (λ e, ev_window e = w) (rate_events cfg (b :: group)) ∧
  filter (λ e, ev_window e = w) (counter_events cfg (a :: b :: group)) =
    filter (λ e, ev_window e = w) (counter_events cfg (b :: group)).
Proof.
  intros Hw Hh Ha Hc.
  assert (∀ l1 l2 : list event, (∀ e, e ∈ l1 → ev_window e ≠ w) →
    filter (λ e, ev_window e = w) (l1 ++ l2) = filter (λ e, ev_window e = w) l2) as Hskip.
  { intros l1 l2 Hne. rewrite filter_app. induction l1 as [|e l1 IH]; [done|].
    rewrite filter_cons_False by (apply Hne; set_solver). apply IH. intros e' He'. apply Hne. set_solver. }
  split.
  - unfold rate_events. rewrite rate_slices_cons, fmap_app. apply Hskip.
    intros e He. apply list_elem_of_fmap in He as ([a' sl] & -> & Hin).
    apply list_elem_of_fmap in Hin as (sl' & [= -> ->] & Hin). simpl.
    assert (held cfg a b ≤ cfg_MaxHold cfg) as Hheld by (unfold held; repeat case_match; lia).
    destruct (held cfg a b <=? 0) eqn:E; [set_solver|]. apply Z.leb_gt in E.
    set (t := s_Timestamp a) in *.
    destruct (interval_tiles (interval_fuel t (t + held cfg a b) (cfg_Window cfg)) t
      (t + held cfg a b) (cfg_Window cfg)) as [Ht _]; [done|lia|done|].
    assert (∀ l s e, tiles l (cfg_Window cfg) s e → sl' ∈ l → sl'.1.1 < e) as Hlt; [|specialize (Hlt _ _ _ Ht Hin); lia].
    clear -Hw. induction l as [|[[w0 s0] e0] l IH]; intros s e; [set_solver|]. simpl.
    intros (-> & -> & Hse & Hl) Hin. pose proof (Truncate_spec s (cfg_Window cfg) Hw).
    assert (∀ l s, tiles l (cfg_Window cfg) s e → s ≤ e) as Hle.
    { clear. induction l as [|[[w0 s0] e0] l IH]; intros s; simpl; [lia|].
      intros (-> & _ & ? & Hl). specialize (IH _ Hl). lia. }
    specialize (Hle _ _ Hl). apply elem_of_cons in Hin as [->|Hin]; [simpl; lia|by eapply IH].
  - unfold counter_events. rewrite counter_steps_cons, fmap_app. apply Hskip.
    intros e He. apply list_elem_of_fmap in He as ([a' st] & -> & Hin). cbv zeta in Hin.
    destruct (_ && _); [set_solver|]. apply list_elem_of_singleton in Hin as [= -> ->]. simpl.
    pose proof (Truncate_spec (s_Timestamp a) (cfg_Window cfg) Hw). lia.
Qed.

Lemma old_events cfg c w old group :
  0 < cfg_Window cfg → 0 < cfg_MaxHold cfg → Forall (λ s, s_Timestamp s < c) old → c + cfg_MaxHold cfg ≤ w →
  filter (λ e, ev_window e = w) (group_events cfg (old ++ group)) =
  filter (λ e, ev_window e = w) (group_events cfg group).
Proof.
  intros Hw Hh Hold Hc. unfold group_events. rewrite !filter_app.
  cut (filter (λ e, ev_window e = w) (rate_events cfg (old ++ group)) =
         filter (λ e, ev_window e = w) (rate_events cfg group) ∧
       filter (λ e, ev_window e = w) (counter_events cfg (old ++ group)) =
         filter (λ e, ev_window e = w) (counter_events cfg group)); [by intros [-> ->]|].
  induction Hold as [|a old Ha Hold IH]; [done|]. change ((a :: old) ++ group) with (a :: (old ++ group)).
  destruct (old ++ group) as [|b rest] eqn:E.
  - apply app_nil in E as [-> ->]. done.
  - destruct (old_sample_events cfg c w a b rest Hw Hh Ha Hc) as [-> ->]. done.
Qed.

Lemma integrated_filter cfg c samples sb w :
  0 < cfg_Window cfg → 0 < cfg_MaxHold cfg → c + cfg_MaxHold cfg ≤ w →
  integrated cfg (filter (λ s, c ≤ s_Timestamp s) samples) sb w = integrated cfg samples sb w.
Proof.
  intros Hw Hh Hc. unfold integrated, record_of. rewrite timeline_filter.
  destruct (ordered_filter c (timeline sb samples) (timeline_ordered sb samples)) as (old & Heq & Hold).
  rewrite Heq at 2. by rewrite (old_events cfg c w old).
Qed.

Lemma prune_current cfg c samples :
  filter (λ r, c + cfg_MaxHold (norm_config cfg) ≤ u_Window r)
    (Integrate (filter (λ s, c ≤ s_Timestamp s) samples) cfg) =
  filter (λ r, c + cfg_MaxHold (norm_config cfg) ≤ u_Window r) (Integrate samples cfg).
Proof.
  destruct (norm_config_pos cfg) as [Hw Hh].
  destruct (Integrate_spec (filter (λ s, c ≤ s_Timestamp s) samples) cfg) as (Hel1 & Hs1 & Hn1 & Hu1).
  destruct (Integrate_spec samples cfg) as (Hel2 & Hs2 & Hn2 & _).
  apply (sorted_ext record_less);
    [by apply StronglySorted_filter|by apply StronglySorted_filter|by apply NoDup_filter|by apply NoDup_filter| |].
  - intros x y [_ Hx]%list_elem_of_filter [_ Hy]%list_elem_of_filter Hxy Hyx.
    destruct (record_less_tie x y Hxy Hyx). by apply Hu1.
  - intros r. rewrite !list_elem_of_filter, Hel1, Hel2. split; intros [Hr Hi]; (split; [done|]).
    + by rewrite <- (integrated_filter _ c) by done.
    + by rewrite (integrated_filter _ c) by done.
Qed.

End pruning.

(** ** The collector *)

Lemma newest_zmax buf : newest buf = zmax s_Timestamp buf.
Proof.
  unfold newest. assert (∀ t, 0 ≤ t →
    foldl (λ t s, if t <? s_Timestamp s then s_Timestamp s else t) t buf = Z.max t (zmax s_Timestamp buf)) as Hf.
  { induction buf as [|s buf IH]; intros t Ht; simpl; [lia|].
    rewrite IH by (destruct (Z.ltb_spec t (s_Timestamp s)); lia).
    destruct (Z.ltb_spec t (s_Timestamp s)); change (foldr _ 0 buf) with (zmax s_Timestamp buf); lia. }
  rewrite Hf by done. pose proof (zmax_nonneg s_Timestamp buf). lia.
Qed.

(** Pruning keeps the newest sample. *)
Lemma newest_filter ret l :
  0 ≤ ret → newest (filter (λ s, newest l - ret ≤ s_Timestamp s) l) = newest l.
Proof.
  intros Hr. rewrite !newest_zmax. apply Z.le_antisymm.
  - destruct (decide (zmax s_Timestamp (filter (λ s, zmax s_Timestamp l - ret ≤ s_Timestamp s) l) = 0)) as [->|Hne];
      [apply zmax_nonneg|].
    destruct (zmax_attained s_Timestamp (filter (λ s, zmax s_Timestamp l - ret ≤ s_Timestamp s) l)) as (x & Hx & <-).
    { pose proof (zmax_nonneg s_Timestamp (filter (λ s, zmax s_Timestamp l - ret ≤ s_Timestamp s) l)). lia. }
    apply zmax_ge. by apply list_elem_of_filter in Hx as [_ ?].
  - destruct (decide (zmax s_Timestamp l = 0)) as [E|Hne]; [rewrite E at 1; apply zmax_nonneg|].
    destruct (zmax_attained s_Timestamp l) as (x & Hx & He); [pose proof (zmax_nonneg s_Timestamp l); lia|].
    rewrite <- He at 1. apply zmax_ge, list_elem_of_filter. split; [lia|done].
Qed.

(** The samples of the cycles that could collect. *)
Definition collected (outcomes : list (result string (list Sample))) : list Sample :=
  concat ((λ o, match o with Ok samples => samples | Err _ => [] end) <$> outcomes).

Section collector.
Context `{!SliceSort, !MapRange} {S : Type} `{!UsageStore S}.
Variable cfg : Config.
Hypothesis Hw : 0 < cfg_Window cfg.
Hypothesis Hh : 0 < cfg_MaxHold cfg.
Hypothesis Hb : cfg_Window cfg + cfg_MaxHold cfg ≤ max_int64.
Let ret := cfg_Window cfg + cfg_MaxHold cfg.

(** The collector after some cycles, whatever became of their upserts. *)
Definition after (store : S) (outcomes : list (result string (list Sample))) : Collector S :=
  foldl (λ c o, (CollectOnce o c).2) (NewCollector store cfg) outcomes.

Lemma pruned_buffer (c : Collector S) :
  co_cfg c = cfg → co_buf (pruneBuffer c) = filter (λ s, newest (co_buf c) - ret ≤ s_Timestamp s) (co_buf c) ∧
  co_cfg (pruneBuffer c) = cfg.
Proof.
  intros Hc. unfold pruneBuffer, retention. rewrite Hc.
  rewrite int64_id by (unfold is_int64, min_int64, max_int64 in *; lia).
  by destruct (co_buf c) eqn:E.
Qed.

Lemma CollectOnce_buffer samples (c : Collector S) :
  let c1 := pruneBuffer {| co_store := co_store c; co_cfg := co_cfg c; co_buf := co_buf c ++ samples |} in
  let c' := (CollectOnce (Ok samples) c).2 in
  co_buf c' = co_buf c1 ∧ co_cfg c' = co_cfg c1 ∧
  co_store c' = (upsert_loop (Integrate (co_buf c') (co_cfg c')) 0 ∅ (co_store c)).2.
Proof.
  cbv zeta. unfold CollectOnce. set (c1 := pruneBuffer _).
  assert (co_store c1 = co_store c) as Hs by (unfold c1, pruneBuffer; simpl; by case_match).
  destruct (upsert_loop (Integrate (co_buf c1) (co_cfg c1)) 0 ∅ (co_store c1)) as [[[err n] orgs] store] eqn:E.
  simpl. split_and!; [done..|]. by rewrite <- Hs, E.
Qed.

Lemma after_buffer store outcomes :
  let all := collected outcomes in
  co_buf (after store outcomes) = filter (λ s, newest all - ret ≤ s_Timestamp s) all ∧
  co_cfg (after store outcomes) = cfg.
Proof.
  cbv zeta. induction outcomes as [|o outcomes IH] using rev_ind.
  { simpl. unfold NewCollector. simpl. by rewrite (proj2 (Z.leb_gt _ _)). }
  destruct IH as [IHb IHc]. unfold after in *. rewrite foldl_app. cbn [foldl].
  set (c := foldl _ _ outcomes) in *.
  assert (collected (outcomes ++ [o]) = collected outcomes ++ match o with Ok s => s | Err _ => [] end) as ->
    by (unfold collected; rewrite fmap_app, concat_app; simpl; by rewrite app_nil_r).
  destruct o as [samples|e]; [|simpl; by rewrite app_nil_r].
  destruct (CollectOnce_buffer samples c) as (-> & -> & _).
  destruct (pruned_buffer {| co_store := co_store c; co_cfg := co_cfg c; co_buf := co_buf c ++ samples |} IHc) as [-> ->].
  split; [|done]. cbn [co_buf]. rewrite IHb. set (all := collected outcomes) in *.
  assert (newest (filter (λ s, newest all - ret ≤ s_Timestamp s) all ++ samples) = newest (all ++ samples)) as ->.
  { rewrite !(newest_zmax (_ ++ _)), !zmax_app, <- !newest_zmax. rewrite newest_filter by (unfold ret; lia). done. }
  rewrite !filter_app. f_equal. rewrite list_filter_filter. apply list_filter_iff. intros s.
  assert (newest all ≤ newest (all ++ samples)) by (rewrite !newest_zmax, zmax_app; lia). lia.
Qed.

(** C22: each cycle writes the right records for the current windows.  After any cycles,
    failed or not, a cycle hands the store the integration of its pruned buffer, and this
    agrees with the integration of every sample ever collected on the windows that start
    no earlier than a window's width before the newest sample. *)
Theorem collector_current_exact store outcomes samples :
  let c := after store outcomes in
  let c' := (CollectOnce (Ok samples) c).2 in
  let all := collected outcomes ++ samples in
  co_store c' = (upsert_loop (Integrate (co_buf c') cfg) 0 ∅ (co_store c)).2 ∧
  filter (λ r, newest all - cfg_Window cfg ≤ u_Window r) (Integrate (co_buf c') cfg) =
  filter (λ r, newest all - cfg_Window cfg ≤ u_Window r) (Integrate all cfg).
Proof.
  intros c c' all. destruct (after_buffer store (outcomes ++ [Ok samples])) as [Hbuf Hcfg].
  assert (after store (outcomes ++ [Ok samples]) = c') as Hc' by (unfold after; by rewrite foldl_app).
  rewrite Hc' in Hbuf, Hcfg.
  assert (collected (outcomes ++ [Ok samples]) = all) as Hall
    by (unfold collected, all; rewrite fmap_app, concat_app; simpl; by rewrite app_nil_r).
  rewrite Hall in Hbuf. split.
  - destruct (CollectOnce_buffer samples c) as (_ & _ & Hst). fold c' in Hst.
    by rewrite Hcfg in Hst.
  - pose proof (prune_current cfg (newest all - ret) all) as Hp. rewrite Hbuf.
    assert (norm_config cfg = cfg) as Hn.
    { unfold norm_config. rewrite !(proj2 (Z.leb_gt _ _)) by done. by destruct cfg. }
    rewrite Hn in Hp.
    rewrite !(list_filter_iff (λ r, newest all - cfg_Window cfg ≤ u_Window r)
      (λ r, newest all - ret + cfg_MaxHold cfg ≤ u_Window r)) by (intros r; unfold ret; lia).
    exact Hp.
Qed.

End collector.

(** ** Pods *)

Lemma push_remainder_ids acc L kvs :
  (λ s, (s_OrgID s, s_SandboxID s)) <$> foldl (push_remainder acc) L kvs = (λ s, (s_OrgID s, s_SandboxID s)) <$> L.
Proof.
  revert L. induction kvs as [|[t [fc so]] kvs IH]; intros L; [done|]. cbn [foldl]. rewrite IH. unfold push_remainder.
  destruct (fc =? 0); [done|]. destruct (sg_firstIdx acc !! t) as [i|]; [|done].
  apply list_eq. intros j. rewrite !list_lookup_fmap.
  destruct (decide (i = j)) as [<-|Hne]; [rewrite list_lookup_alter_eq|by rewrite list_lookup_alter_ne].
  by destruct (L !! i).
Qed.

Lemma samples_org `{!MapRange} node at_ orgOf vcpusOf regionOf report s :
  s ∈ (SamplesFromReport node at_ orgOf vcpusOf regionOf report).1 → orgOf (s_SandboxID s) = Some (s_OrgID s).
Proof.
  unfold SamplesFromReport. cbn [fst].
  set (acc := foldl (sample_step _ _ _ _ _ _) _ _). intros Hs.
  assert ((s_OrgID s, s_SandboxID s) ∈ (λ s, (s_OrgID s, s_SandboxID s)) <$> sg_samples acc) as Hin.
  { rewrite <- (push_remainder_ids acc _ (map_range "tmpl" (template_info report))). apply list_elem_of_fmap.
    by exists s. }
  apply list_elem_of_fmap in Hin as (s' & [= -> ->] & Hin). clear Hs. unfold acc in Hin. clear acc.
  induction (Metering.r_Sandboxes report) as [|sb rows IH] using rev_ind; [set_solver|].
  rewrite foldl_app in Hin. cbn [foldl] in Hin. unfold sample_step at 1 in Hin.
  destruct (orgOf (Metering.ms_ID sb)) as [org|] eqn:Ho; [|by apply IH].
  cbn [sg_samples] in Hin. apply elem_of_app in Hin as [Hin|Hin]; [by apply IH|].
  apply list_elem_of_singleton in Hin as ->. done.
Qed.

(** A pod bills only itself.  Whatever report a pod returns to the scrape, every sample
    made from it is for the organization of the pod's own label, and for the sandbox that
    the label of its claim names, or for the pod when it has none. *)
Theorem pod_bills_itself `{!MapRange} scrape_at vcpus at_ pod s :
  s ∈ (podSamples scrape_at vcpus at_ pod).1 →
  s_OrgID s = hp_OrgID pod ∧
  s_SandboxID s = (if decide (hp_APIID pod = "") then hp_VMID pod else hp_APIID pod).
Proof.
  unfold podSamples. destruct (scrape scrape_at (hp_Endpoint pod)) as [report|]; [|set_solver]. cbn [fst].
  set (samples := (SamplesFromReport _ _ _ _ _ report).1).
  assert (∀ s, s ∈ samples → s_OrgID s = hp_OrgID pod ∧ s_SandboxID s = hp_VMID pod) as Hall.
  { intros x Hx. apply samples_org in Hx. case_bool_decide; [|done]. injection Hx as ->. done. }
  case_bool_decide as Ha.
  - rewrite decide_True by done. apply Hall.
  - rewrite decide_False by done. intros Hs. apply list_elem_of_fmap in Hs as (x & -> & Hx). simpl.
    split; [|done]. by apply Hall in Hx as [? _].
Qed.

(** ** Concrete inputs *)

(** A sandbox with one vCPU, sampled each minute, a second before the minute. *)
Definition ex_scrape (i : Z) : Sample :=
  {| s_OrgID := "acme"; s_SandboxID := "s1"; s_Region := ""; s_Node := "n1";
     s_Timestamp := (i * 60 + 59) * second; s_VCPUs := 1; s_MemUniqueBytes := 0;
     s_MemSharedAmortizedBytes := 0; s_DiskBytes := 0; s_EgressBytes := 0; s_GPUSeconds := 0 |}.

Definition ex_outcomes : list (result string (list Sample)) :=
  [Ok [ex_scrape 0]; Ok [ex_scrape 1]; Err "node"; Ok [ex_scrape 2]; Ok [ex_scrape 3]].

Lemma collector_current_exact_witness :
  let c := after DefaultConfig NewMemUsageStore ex_outcomes in
  let c' := (CollectOnce (Ok [ex_scrape 4]) c).2 in
  let all := collected ex_outcomes ++ [ex_scrape 4] in
  co_store c' = (upsert_loop (Integrate (co_buf c') DefaultConfig) 0 ∅ (co_store c)).2 ∧
  filter (λ r, newest all - cfg_Window DefaultConfig ≤ u_Window r) (Integrate (co_buf c') DefaultConfig) =
  filter (λ r, newest all - cfg_Window DefaultConfig ≤ u_Window r) (Integrate all DefaultConfig).
Proof.
  assert (0 < cfg_Window DefaultConfig) as Hw by by_eval.
  assert (0 < cfg_MaxHold DefaultConfig) as Hh by by_eval.
  assert (cfg_Window DefaultConfig + cfg_MaxHold DefaultConfig ≤ max_int64) as Hb by by_eval.
  exact (collector_current_exact DefaultConfig Hw Hh Hb NewMemUsageStore ex_outcomes [ex_scrape 4]).
Defined.

Definition ex_pod : HuskPod :=
  {| hp_VMID := "pod-1"; hp_APIID := "sb-1"; hp_OrgID := "acme"; hp_Region := ""; hp_Endpoint := "10.0.0.7:80" |}.

(** A report that also names another pod. *)
Definition ex_report : Metering.Report :=
  Metering.Aggregate
    [{| Metering.ms_ID := "pod-1"; Metering.ms_Template := "py"; Metering.ms_MemoryUnique := 5;
        Metering.ms_MemoryShared := 7; Metering.ms_DiskUnique := 0; Metering.ms_DiskShared := 0;
        Metering.ms_EgressBytes := 1; Metering.ms_GPUCount := 0; Metering.ms_GPUSeconds := 0 |};
     {| Metering.ms_ID := "pod-2"; Metering.ms_Template := "py"; Metering.ms_MemoryUnique := 9;
        Metering.ms_MemoryShared := 7; Metering.ms_DiskUnique := 0; Metering.ms_DiskShared := 0;
        Metering.ms_EgressBytes := 1; Metering.ms_GPUCount := 0; Metering.ms_GPUSeconds := 0 |}].

Definition ex_pod_sample : Sample :=
  {| s_OrgID := "acme"; s_SandboxID := "sb-1"; s_Region := ""; s_Node := "pod-1"; s_Timestamp := 100;
     s_VCPUs := 1; s_MemUniqueBytes := 5; s_MemSharedAmortizedBytes := 7; s_DiskBytes := 0;
     s_EgressBytes := 1; s_GPUSeconds := 0 |}.

Lemma pod_bills_itself_witness :
  s_OrgID ex_pod_sample = hp_OrgID ex_pod ∧
  s_SandboxID ex_pod_sample = (if decide (hp_APIID ex_pod = "") then hp_VMID ex_pod else hp_APIID ex_pod).
Proof.
  assert ((podSamples (λ _, Some ex_report) (λ _, 1) 100 ex_pod).1 !! 0%nat = Some ex_pod_sample) as Hl
    by (vm_compute; reflexivity).
  exact (pod_bills_itself (λ _, Some ex_report) (λ _, 1) 100 ex_pod ex_pod_sample (list_elem_of_lookup_2 _ _ _ Hl)).
Defined.

(** Pruning rewrites settled windows.  A sandbox with one vCPU that is sampled a second
    before every minute runs through the whole second window: the samples of the first
    three cycles give its record 60 vCPU seconds, and so does the whole history.  Once the
    sample of the first window has left the buffer, the fifth cycle replaces the record by
    one with a single vCPU second. *)
Theorem pruning_underbills :
  let run n := after DefaultConfig NewMemUsageStore (Ok ∘ (λ i, [ex_scrape i]) <$> seqZ 0 n) in
  let key := ("acme", "s1", 60 * second) in
  u_VCPUSeconds <$> ms_records (co_store (run 3)) !! key = Some (of_int 60) ∧
  u_VCPUSeconds <$> integrated DefaultConfig (ex_scrape <$> seqZ 0 6) "s1" (60 * second) = Some (of_int 60) ∧
  u_VCPUSeconds <$> ms_records (co_store (run 5)) !! key = Some (of_int 1) ∧
  u_VCPUSeconds <$> ms_records (co_store (run 6)) !! key = Some (of_int 1).
Proof. vm_compute. done. Qed.

End CollectorTheorems.
