(* ===== verification/Billing.v ===== *)
(** * internal/saas/billing: pricing, the credit ledger, drawdown, caps and dunning

    pricing.go, ledger.go, service.go, dunning.go, stores.go, webhook.go, plans.go and
    reservation.go, and the drawdown driver of cmd/console/drawdown.go.  Money is a
    count of cents in an int64.  The service is written against the class
    [CreditLedger]; [LawfulLedger] says what it relies on, with the in-memory ledger as
    the reference, and any of its operations may fail. *)

From Stdlib Require Import Ascii.
From S2P Require Import Prelude GoFloat Json GoTime Suspension Metering Usage.
Import GoFloat GoTime Suspension.
Import Usage(UsageRecord, u_OrgID, u_SandboxID, u_Region, u_Window, u_VCPUSeconds, u_MemGiBSeconds,
  u_StorageGiBHours, u_EgressBytes, u_GPUSeconds, PriceList, VCPUSecond, MemGiBSecond, StorageGiBHour,
  EgressGiB, GPUSecond).

Module Billing.

(** ** Pricing (pricing.go) *)

Definition Money : Type := Z.

Definition USD (dollars : Z) : Money := int64 (dollars * 100).

Definition Dollars (m : Money) : float64 := fdiv (of_int m) (of_int 100).

Inductive MeterUnit :=
| MeterVCPUSecond | MeterMemGiBSecond | MeterStorageGiBHour | MeterEgressGiB | MeterGPUSecond.

Definition meter_name (u : MeterUnit) : string :=
  match u with
  | MeterVCPUSecond => "vcpu_second"
  | MeterMemGiBSecond => "mem_gib_second"
  | MeterStorageGiBHour => "storage_gib_hour"
  | MeterEgressGiB => "egress_gib"
  | MeterGPUSecond => "gpu_second"
  end.

Record Rates := {
  VCPUSecondMilliCents : float64;
  MemGiBSecondMilliCents : float64;
  StorageGiBHourMilliCents : float64;
  EgressGiBMilliCents : float64;
  GPUSecondMilliCents : float64;
}.

Definition DefaultRates : Rates := {|
  VCPUSecondMilliCents := fdiv (of_int 128) (of_int 100);
  MemGiBSecondMilliCents := fdiv (of_int 16) (of_int 100);
  StorageGiBHourMilliCents := of_int 10;
  EgressGiBMilliCents := of_int 9000;
  GPUSecondMilliCents := of_int 60;
|}.

Definition FromPriceList (pl : PriceList) : Rates :=
  let dollarsToMilliCents := of_int 100000 in
  {| VCPUSecondMilliCents := fmul (VCPUSecond pl) dollarsToMilliCents;
     MemGiBSecondMilliCents := fmul (MemGiBSecond pl) dollarsToMilliCents;
     StorageGiBHourMilliCents := fmul (StorageGiBHour pl) dollarsToMilliCents;
     EgressGiBMilliCents := fmul (EgressGiB pl) dollarsToMilliCents;
     GPUSecondMilliCents := fmul (GPUSecond pl) dollarsToMilliCents |}.

Definition bytesPerGiB : float64 := of_int (Z.shiftl 1 30).

Definition QuantityFor (unit : MeterUnit) (rec : UsageRecord) : float64 :=
  match unit with
  | MeterVCPUSecond => u_VCPUSeconds rec
  | MeterMemGiBSecond => u_MemGiBSeconds rec
  | MeterStorageGiBHour => u_StorageGiBHours rec
  | MeterEgressGiB => fdiv (of_int (u_EgressBytes rec)) bytesPerGiB
  | MeterGPUSecond => of_int (u_GPUSeconds rec)
  end.

Definition AllMeters : list MeterUnit :=
  [MeterVCPUSecond; MeterMemGiBSecond; MeterStorageGiBHour; MeterEgressGiB; MeterGPUSecond].

Section pricing.
Context `{!GoPlatform}.

(** The sum is evaluated from the left, each operation rounded. *)
Definition CostMilliCents (r : Rates) (rec : UsageRecord) : Z :=
  let milliCents :=
    fadd (fadd (fadd (fadd
      (fmul (QuantityFor MeterVCPUSecond rec) (VCPUSecondMilliCents r))
      (fmul (QuantityFor MeterMemGiBSecond rec) (MemGiBSecondMilliCents r)))
      (fmul (QuantityFor MeterStorageGiBHour rec) (StorageGiBHourMilliCents r)))
      (fmul (QuantityFor MeterEgressGiB rec) (EgressGiBMilliCents r)))
      (fmul (QuantityFor MeterGPUSecond rec) (GPUSecondMilliCents r)) in
  let m := to_int64 (fround milliCents) in
  if m <? 0 then 0 else m.

Definition CostCents (r : Rates) (rec : UsageRecord) : Money :=
  Z.quot (int64 (CostMilliCents r rec + 500)) 1000.

End pricing.

(** ** The ledger (ledger.go) *)

Definition KindSignupCredit : string := "signup_credit".
Definition KindTopUp : string := "top_up".
Definition KindUsageDrawdown : string := "usage_drawdown".
Definition KindAdjustment : string := "adjustment".
Definition KindBoxGrant : string := "box_grant".

Record LedgerEntry := {
  e_OrgID : string;
  e_Kind : string;
  e_Amount : Money;
  e_Key : string;
  e_At : Z;
  e_Note : string;
}.

Definition DrawdownKey (orgID sandboxID : string) (window : Z) : string :=
  "drawdown:" +:+ orgID +:+ "|" +:+ sandboxID +:+ "|" +:+ RFC3339Nano window.

Record ProcessedWindow := { w_OrgID : string; w_SandboxID : string; w_Window : Z }.

Definition window_Key (w : ProcessedWindow) : string :=
  DrawdownKey (w_OrgID w) (w_SandboxID w) (w_Window w).

Record MemCreditLedger := {
  l_byOrg : gmap string (list LedgerEntry);
  l_seenKey : gset string;
  l_remainder : gmap string Z;
  l_processed : gmap string (gmap string Z);
}.

Definition NewMemCreditLedger : MemCreditLedger :=
  {| l_byOrg := ∅; l_seenKey := ∅; l_remainder := ∅; l_processed := ∅ |}.

Inductive ledger_error :=
| ErrDuplicateEntry
| ErrLedger (msg : string).

(** The entries of an organization; a missing map entry is an empty slice. *)
Definition entries_of (orgID : string) (l : MemCreditLedger) : list LedgerEntry :=
  default [] (l_byOrg l !! orgID).

Definition processed_of (orgID : string) (l : MemCreditLedger) : gmap string Z :=
  default ∅ (l_processed l !! orgID).

Definition seen_key (orgID key : string) : string := orgID +:+ String (Ascii.ascii_of_nat 0) key.

Definition appendLocked (e : LedgerEntry) (l : MemCreditLedger) : result ledger_error MemCreditLedger :=
  let k := seen_key (e_OrgID e) (e_Key e) in
  if negb (bool_decide (e_Key e = "")) && bool_decide (k ∈ l_seenKey l) then Err ErrDuplicateEntry
  else Ok {| l_byOrg := <[e_OrgID e := entries_of (e_OrgID e) l ++ [e]]> (l_byOrg l);
             l_seenKey := if bool_decide (e_Key e = "") then l_seenKey l else {[k]} ∪ l_seenKey l;
             l_remainder := l_remainder l; l_processed := l_processed l |}.

Definition mem_Append (e : LedgerEntry) (l : MemCreditLedger) : result ledger_error unit * MemCreditLedger :=
  match appendLocked e l with Ok l' => (Ok tt, l') | Err err => (Err err, l) end.

Definition mem_Remainder (orgID : string) (l : MemCreditLedger) : Z :=
  default 0 (l_remainder l !! orgID).

Definition mem_SettleWindow (e : LedgerEntry) (remainderMilliCents : Z) (w : ProcessedWindow)
    (l : MemCreditLedger) : result ledger_error unit * MemCreditLedger :=
  let key := window_Key w in
  match processed_of (w_OrgID w) l !! key with
  | Some _ => (Err ErrDuplicateEntry, l)
  | None =>
      match (if e_Amount e =? 0 then Ok l else appendLocked e l) with
      | Err err => (Err err, l)
      | Ok l' =>
          (Ok tt, {| l_byOrg := l_byOrg l'; l_seenKey := l_seenKey l';
                     l_remainder := <[e_OrgID e := remainderMilliCents]> (l_remainder l');
                     l_processed :=
                       <[w_OrgID w := <[key := w_Window w]> (processed_of (w_OrgID w) l')]>
                         (l_processed l') |})
      end
  end.

Definition mem_SettledWindowKeys (orgID : string) (since : Z) (l : MemCreditLedger) : gset string :=
  dom (filter (λ kw, since ≤ kw.2) (processed_of orgID l)) ∪
  list_to_set (e_Key <$> filter (λ e, e_Kind e = KindUsageDrawdown ∧ e_Key e ≠ "" ∧ since ≤ e_At e)
                           (entries_of orgID l)).

(** The markers left, organization by organization, and how many were removed. *)
Definition mem_PruneProcessedWindows (olderThan : Z) (l : MemCreditLedger) : Z * MemCreditLedger :=
  let kept := (λ keys : gmap string Z, filter (λ kw, olderThan ≤ kw.2) keys) <$> l_processed l in
  let removed := (λ keys : gmap string Z, Z.of_nat (size (filter (λ kw, kw.2 < olderThan) keys))) <$>
                   l_processed l in
  (map_fold (λ _ n acc, n + acc) 0 removed,
   {| l_byOrg := l_byOrg l; l_seenKey := l_seenKey l; l_remainder := l_remainder l;
      l_processed := filter (λ kw, kw.2 ≠ ∅) kept |}).

Definition mem_Balance (orgID : string) (l : MemCreditLedger) : Money :=
  foldl (λ bal e, int64 (bal + e_Amount e)) 0 (entries_of orgID l).

Definition mem_Entries (orgID : string) (l : MemCreditLedger) : list LedgerEntry := entries_of orgID l.

Definition mem_EntriesSince (orgID : string) (since : Z) (l : MemCreditLedger) : list LedgerEntry :=
  filter (λ e, since ≤ e_At e) (entries_of orgID l).

(** *** The interface *)

Class CreditLedger (L : Type) := {
  Append : LedgerEntry → L → result ledger_error unit * L;
  Balance : string → L → result string Money * L;
  Entries : string → L → result string (list LedgerEntry) * L;
  Remainder : string → L → result string Z * L;
  SettleWindow : LedgerEntry → Z → ProcessedWindow → L → result ledger_error unit * L;
  SettledWindowKeys : string → Z → L → result string (gset string) * L;
  PruneProcessedWindows : Z → L → result string Z * L;
  EntriesSince : string → Z → L → result string (list LedgerEntry) * L;
}.

#[global] Instance mem_ledger : CreditLedger MemCreditLedger := {|
  Append := mem_Append;
  Balance org l := (Ok (mem_Balance org l), l);
  Entries org l := (Ok (mem_Entries org l), l);
  Remainder org l := (Ok (mem_Remainder org l), l);
  SettleWindow := mem_SettleWindow;
  SettledWindowKeys org since l := (Ok (mem_SettledWindowKeys org since l), l);
  PruneProcessedWindows t l := let '(n, l') := mem_PruneProcessedWindows t l in (Ok n, l');
  EntriesSince org since l := (Ok (mem_EntriesSince org since l), l);
|}.

(** *** What the service relies on *)

(** An operation that fails changes nothing; one that does not is that of the reference. *)
Class LawfulLedger (L : Type) `{!CreditLedger L} := {
  lview : L → MemCreditLedger;
  append_law e l :
    let '(r, l') := Append e l in
    match r with
    | Err (ErrLedger _) => lview l' = lview l
    | r => (r, lview l') = mem_Append e (lview l)
    end;
  balance_law org l :
    let '(r, l') := Balance org l in
    lview l' = lview l ∧ match r with Ok b => b = mem_Balance org (lview l) | Err _ => True end;
  entries_law org l :
    let '(r, l') := Entries org l in
    lview l' = lview l ∧ match r with Ok es => es = mem_Entries org (lview l) | Err _ => True end;
  entries_since_law org t l :
    let '(r, l') := EntriesSince org t l in
    lview l' = lview l ∧ match r with Ok es => es = mem_EntriesSince org t (lview l) | Err _ => True end;
  remainder_law org l :
    let '(r, l') := Remainder org l in
    lview l' = lview l ∧ match r with Ok c => c = mem_Remainder org (lview l) | Err _ => True end;
  settle_law e c w l :
    let '(r, l') := SettleWindow e c w l in
    match r with
    | Err (ErrLedger _) => lview l' = lview l
    | r => (r, lview l') = mem_SettleWindow e c w (lview l)
    end;
  prune_law t l :
    let '(r, l') := PruneProcessedWindows t l in
    match r with
    | Ok n => (n, lview l') = mem_PruneProcessedWindows t (lview l)
    | Err _ => lview l' = lview l
    end;
}.

#[global] Instance mem_ledger_lawful : LawfulLedger MemCreditLedger.
Proof.
  refine {| lview l := l |}; intros; simpl; try done.
  - destruct (mem_Append e l) as [[|[]] ?] eqn:E; try done. unfold mem_Append, appendLocked in E.
    repeat case_match; simplify_eq; done.
  - destruct (mem_SettleWindow e c w l) as [[|[]] ?] eqn:E; try done.
    unfold mem_SettleWindow, appendLocked in E. repeat case_match; simplify_eq; done.
Defined.

(** *** Grants and top-ups *)

Section grants.
Context {L : Type} `{!CreditLedger L}.

Definition GrantSignupCredit (orgID : string) (amount : Money) (now : Z) (l : L) :
    result ledger_error unit * L :=
  Append {| e_OrgID := orgID; e_Kind := KindSignupCredit; e_Amount := amount;
            e_Key := "signup:" +:+ orgID; e_At := now; e_Note := "signup credit" |} l.

Definition TopUp (orgID : string) (amount : Money) (ref : string) (now : Z) (l : L) :
    result ledger_error unit * L :=
  Append {| e_OrgID := orgID; e_Kind := KindTopUp; e_Amount := amount; e_Key := "topup:" +:+ ref;
            e_At := now; e_Note := "prepaid top-up" |} l.

End grants.

Definition TopUpLadder : list Money := [USD 10; USD 25; USD 50; USD 100; USD 250].
Definition DefaultSignupCredit : Money := USD 100.

(** ** Reserved boxes (reservation.go) *)

Record Reservation := { res_Key : string; res_VCPU : Z; res_MemGiB : Z; res_MonthlyCents : Z }.

Definition boxS : Reservation :=
  {| res_Key := "box_s"; res_VCPU := 2; res_MemGiB := 4; res_MonthlyCents := 1900 |}.
Definition boxM : Reservation :=
  {| res_Key := "box_m"; res_VCPU := 4; res_MemGiB := 8; res_MonthlyCents := 3900 |}.
Definition boxL : Reservation :=
  {| res_Key := "box_l"; res_VCPU := 8; res_MemGiB := 16; res_MonthlyCents := 7500 |}.
Definition BoxCatalog : list Reservation := [boxS; boxM; boxL].

Definition boxDiscount : float64 := fdiv (of_int 70) (of_int 100).

Definition CreditCentsForReservation `{!GoPlatform} (res : Reservation) : Z :=
  to_int64 (fround (fdiv (of_int (res_MonthlyCents res)) boxDiscount)).

Definition BoxGrantKey (orgID yearMonth resKey : string) : string :=
  "box|" +:+ orgID +:+ "|" +:+ yearMonth +:+ "|" +:+ resKey.

(** [time.Parse("2006-01", s)]: four digits, a dash, two digits of a month. *)
Definition digit (c : Ascii.ascii) : option Z :=
  let d := Z.of_nat (Ascii.nat_of_ascii c) - 48 in
  if (0 <=? d) && (d <=? 9) then Some d else None.

Definition parse_year_month (s : string) : option Z :=
  match s with
  | String a (String b (String c (String d (String h (String e (String f "")))))) =>
      a ← digit a; b ← digit b; c ← digit c; d ← digit d; e ← digit e; f ← digit f;
      let month := 10 * e + f in
      if bool_decide (h = "-"%char) && (1 <=? month) && (month <=? 12)
      then Some (days_of_civil (1000 * a + 100 * b + 10 * c + d) month 1 * day)
      else None
  | _ => None
  end.

Inductive grant_error := EInvalidYearMonth | EGrantLedger (e : ledger_error).

Definition ApplyMonthlyGrant `{!GoPlatform} {L} `{!CreditLedger L} (orgID : string) (res : Reservation)
    (yearMonth : string) (l : L) : result grant_error unit * L :=
  match parse_year_month yearMonth with
  | None => (Err EInvalidYearMonth, l)
  | Some at_ =>
      let '(r, l) := Append
        {| e_OrgID := orgID; e_Kind := KindBoxGrant; e_Amount := CreditCentsForReservation res;
           e_Key := BoxGrantKey orgID yearMonth (res_Key res); e_At := at_;
           e_Note := "box grant: " +:+ res_Key res +:+ " (" +:+ Json.fmt_int (res_VCPU res) +:+
                     " vCPU / " +:+ Json.fmt_int (res_MemGiB res) +:+ " GiB) reserved capacity for " +:+
                     yearMonth |} l in
      (match r with Ok _ => Ok tt | Err e => Err (EGrantLedger e) end, l)
  end.

(** ** Plans (plans.go) *)

Definition PlanFree : string := "free".
Definition PlanTeam : string := "team".

Record Entitlements := {
  SSOEnforced : bool;
  SCIM : bool;
  AuditStreaming : bool;
  AuditRetentionDays : Z;
  SeatPriceCents : Z;
}.

Definition hostedFreeAuditRetentionDays : Z := 30.
Definition hostedTeamAuditRetentionDays : Z := 365.
Definition TeamSeatPriceCents : Z := 2000.

Definition EntitlementsFor (plan edition : string) : Entitlements :=
  if bool_decide (edition = "community") then
    {| SSOEnforced := true; SCIM := true; AuditStreaming := true; AuditRetentionDays := 0;
       SeatPriceCents := 0 |}
  else if bool_decide (plan = PlanTeam) then
    {| SSOEnforced := true; SCIM := true; AuditStreaming := true;
       AuditRetentionDays := hostedTeamAuditRetentionDays; SeatPriceCents := TeamSeatPriceCents |}
  else
    {| SSOEnforced := false; SCIM := false; AuditStreaming := false;
       AuditRetentionDays := hostedFreeAuditRetentionDays; SeatPriceCents := 0 |}.

Record StaticPlanSource := { ps_Default : string; ps_Teams : gset string }.

Definition NewStaticPlanSource (teamOrgIDs : list string) : StaticPlanSource :=
  {| ps_Default := PlanFree; ps_Teams := list_to_set (filter (λ id, id ≠ "") teamOrgIDs) |}.

Definition GetPlan (s : StaticPlanSource) (orgID : string) : string :=
  if bool_decide (orgID ∈ ps_Teams s) then PlanTeam
  else if bool_decide (ps_Default s = "") then PlanFree else ps_Default s.

(** ** Dunning (dunning.go) *)

Abbreviation BillingStatus := string (only parsing).
Definition StatusActive : BillingStatus := "active".
Definition StatusPastDue : BillingStatus := "past_due".
Definition StatusSuspended : BillingStatus := "suspended".

Abbreviation DunningEvent := string (only parsing).
Definition EventPaymentSucceeded : DunningEvent := "payment_succeeded".
Definition EventPaymentFailed : DunningEvent := "payment_failed".
Definition EventRetriesExhausted : DunningEvent := "retries_exhausted".
Definition EventSuspend : DunningEvent := "suspend".

Definition NextStatus (s : BillingStatus) (ev : DunningEvent) : BillingStatus :=
  if bool_decide (ev = EventPaymentSucceeded) then StatusActive
  else if bool_decide (ev = EventSuspend) || bool_decide (ev = EventRetriesExhausted) then StatusSuspended
  else if bool_decide (ev = EventPaymentFailed) then
    if bool_decide (s = StatusActive) then StatusPastDue
    else if bool_decide (s = StatusPastDue) then StatusPastDue
    else if bool_decide (s = StatusSuspended) then StatusSuspended
    else s
  else s.

(** ** The other stores (stores.go) *)

Record SpendCap := { cap_OrgID : string; cap_SoftCap : Money; cap_HardCap : Money }.

Class SpendCapStore (C : Type) := {
  caps_Get : string → C → result string (option SpendCap);
  caps_Set : SpendCap → C → result string unit * C;
}.

Definition MemSpendCapStore_Set (cap : SpendCap) (s : gmap string SpendCap) : gmap string SpendCap :=
  <[cap_OrgID cap := cap]> s.

#[global] Instance mem_caps : SpendCapStore (gmap string SpendCap) := {|
  caps_Get org s := Ok (s !! org);
  caps_Set cap s := (Ok tt, MemSpendCapStore_Set cap s);
|}.

Class StatusStore (T : Type) := {
  status_Get : string → T → result string BillingStatus;
  status_Set : string → BillingStatus → T → result string unit * T;
}.

Definition MemStatusStore_Status (orgID : string) (s : gmap string BillingStatus) : BillingStatus :=
  default StatusActive (s !! orgID).

#[global] Instance mem_status : StatusStore (gmap string BillingStatus) := {|
  status_Get org s := Ok (MemStatusStore_Status org s);
  status_Set org st s := (Ok tt, <[org := st]> s);
|}.

Record BudgetAlertEvent := {
  ba_OrgID : string; ba_SoftCap : Money; ba_HardCap : Money; ba_Spend : Money; ba_At : Z;
}.

Class AlertSink (A : Type) := { BudgetAlert : BudgetAlertEvent → A → result string unit * A }.

(** A sink that records its alerts. *)
#[global] Instance list_alerts : AlertSink (list BudgetAlertEvent) := {|
  BudgetAlert ev l := (Ok tt, l ++ [ev]);
|}.

(** ** The service (service.go) *)

Definition IdempotencyKey (rec : UsageRecord) (unit : MeterUnit) : string :=
  u_OrgID rec +:+ "|" +:+ u_SandboxID rec +:+ "|" +:+ RFC3339Nano (u_Window rec) +:+ "|" +:+
  meter_name unit.

Record UsageEvent := {
  ue_CustomerID : string; ue_Unit : MeterUnit; ue_Quantity : float64; ue_IdempotencyKey : string;
}.

(** The payment provider, with states in [X]. *)
Class StripeClient (X : Type) := {
  EnsureCustomer : string → X → result string string * X;
  ReportUsage : UsageEvent → X → result string unit * X;
}.

Fixpoint push_loop {X} `{!StripeClient X} (customerID : string) (rec : UsageRecord)
    (units : list MeterUnit) (n : Z) (x : X) : Z * option string * X :=
  match units with
  | [] => (n, None, x)
  | unit :: units' =>
      let q := QuantityFor unit rec in
      if fleb q (of_int 0) then push_loop customerID rec units' n x
      else
        let '(r, x) := ReportUsage {| ue_CustomerID := customerID; ue_Unit := unit; ue_Quantity := q;
                                      ue_IdempotencyKey := IdempotencyKey rec unit |} x in
        match r with
        | Err e => (n, Some ("report usage (" +:+ meter_name unit +:+ "): " +:+ e), x)
        | Ok _ => push_loop customerID rec units' (n + 1) x
        end
  end.

Definition PushUsage {X} `{!StripeClient X} (rec : UsageRecord) (x : X) : Z * option string * X :=
  let '(r, x) := EnsureCustomer (u_OrgID rec) x in
  match r with
  | Err e => (0, Some ("ensure customer: " +:+ e), x)
  | Ok customerID => push_loop customerID rec AllMeters 0 x
  end.

(** The in-memory provider of stripe.go; [fs_fail] are the failures a test has armed. *)
Record FakeStripe := {
  fs_reported : gmap string UsageEvent;
  fs_customers : gmap string string;
  fs_fail : gmap string Z;
}.

Definition fake_EnsureCustomer (orgID : string) (f : FakeStripe) : result string string * FakeStripe :=
  match fs_customers f !! orgID with
  | Some id => (Ok id, f)
  | None =>
      let id := "cus_" +:+ orgID in
      (Ok id, {| fs_reported := fs_reported f; fs_customers := <[orgID := id]> (fs_customers f);
                 fs_fail := fs_fail f |})
  end.

Definition fake_ReportUsage (ev : UsageEvent) (f : FakeStripe) : result string unit * FakeStripe :=
  let n := default 0 (fs_fail f !! ue_IdempotencyKey ev) in
  if 0 <? n
  then (Err "billing: fake stripe report failed (test-armed)",
        {| fs_reported := fs_reported f; fs_customers := fs_customers f;
           fs_fail := <[ue_IdempotencyKey ev := n - 1]> (fs_fail f) |})
  else (Ok tt, {| fs_reported := <[ue_IdempotencyKey ev := ev]> (fs_reported f);
                  fs_customers := fs_customers f; fs_fail := fs_fail f |}).

#[global] Instance fake_stripe : StripeClient FakeStripe := {|
  EnsureCustomer := fake_EnsureCustomer;
  ReportUsage := fake_ReportUsage;
|}.

Record DrawdownResult := {
  dr_Cost : Money;
  dr_FromCredit : Money;
  dr_Remaining : Money;
  dr_CarriedMilliCents : Z;
  dr_Replayed : bool;
}.

Definition zero_drawdown : DrawdownResult :=
  {| dr_Cost := 0; dr_FromCredit := 0; dr_Remaining := 0; dr_CarriedMilliCents := 0; dr_Replayed := false |}.

Definition usageKey (rec : UsageRecord) : string :=
  DrawdownKey (u_OrgID rec) (u_SandboxID rec) (u_Window rec).

(** The debit of the first entry with the record's key. *)
Definition prior_credit (key : string) (entries : list LedgerEntry) : Money :=
  foldr (λ e rest,
    if bool_decide (e_Kind e = KindUsageDrawdown) && bool_decide (e_Key e = key)
    then if e_Amount e <? 0 then int64 (- e_Amount e) else 0
    else rest) 0 entries.

Section drawdown.
Context `{!GoPlatform} {L : Type} `{!CreditLedger L}.

Definition priorDrawdownCredit (rec : UsageRecord) (l : L) : result string Money * L :=
  let '(r, l) := Entries (u_OrgID rec) l in
  (match r with
   | Err e => Err ("read ledger for prior drawdown: " +:+ e)
   | Ok entries => Ok (prior_credit (usageKey rec) entries)
   end, l).

Definition Drawdown (rates : Rates) (now : Z) (rec : UsageRecord) (l : L) :
    result string DrawdownResult * L :=
  let costMilli := CostMilliCents rates rec in
  if costMilli =? 0 then (Ok zero_drawdown, l)
  else
    let '(r, l) := Remainder (u_OrgID rec) l in
    match r with
    | Err e => (Err ("read drawdown remainder: " +:+ e), l)
    | Ok carried =>
        let totalMilli := int64 (carried + costMilli) in
        let cost := Z.quot (int64 (totalMilli + 500)) 1000 in
        let newCarry := int64 (totalMilli - int64 (cost * 1000)) in
        let '(r, l) := Balance (u_OrgID rec) l in
        match r with
        | Err e => (Err ("balance: " +:+ e), l)
        | Ok bal =>
            let fromCredit := if bal <? cost then bal else cost in
            let fromCredit := if fromCredit <? 0 then 0 else fromCredit in
            let '(r, l) := SettleWindow
              {| e_OrgID := u_OrgID rec; e_Kind := KindUsageDrawdown; e_Amount := int64 (- fromCredit);
                 e_Key := usageKey rec; e_At := now; e_Note := "usage drawdown" |}
              newCarry
              {| w_OrgID := u_OrgID rec; w_SandboxID := u_SandboxID rec; w_Window := u_Window rec |} l in
            match r with
            | Err ErrDuplicateEntry =>
                let '(r, l) := priorDrawdownCredit rec l in
                (match r with
                 | Err e => Err e
                 | Ok prior => Ok {| dr_Cost := prior; dr_FromCredit := prior; dr_Remaining := 0;
                                     dr_CarriedMilliCents := carried; dr_Replayed := true |}
                 end, l)
            | Err (ErrLedger e) => (Err ("append drawdown: " +:+ e), l)
            | Ok _ => (Ok {| dr_Cost := cost; dr_FromCredit := fromCredit;
                             dr_Remaining := int64 (cost - fromCredit);
                             dr_CarriedMilliCents := newCarry; dr_Replayed := false |}, l)
            end
        end
    end.

End drawdown.

(** The collaborators that the caps and the dunning use; [None] for a suspender or an
    alert sink that is not wired.  An operation reads the clock once. *)
Record Service (L C T S A : Type) := {
  sv_ledger : L;
  sv_caps : C;
  sv_status : T;
  sv_suspend : option S;
  sv_alerts : option A;
}.
Arguments sv_ledger {L C T S A}. Arguments sv_caps {L C T S A}. Arguments sv_status {L C T S A}.
Arguments sv_suspend {L C T S A}. Arguments sv_alerts {L C T S A}.

Section service.
Context {L C T S A : Type}.
Context `{!CreditLedger L, !SpendCapStore C, !StatusStore T, !SuspensionStore S, !AlertSink A}.
Abbreviation service := (Service L C T S A) (only parsing).

Definition with_ledger (l : L) (s : service) : service :=
  {| sv_ledger := l; sv_caps := sv_caps s; sv_status := sv_status s; sv_suspend := sv_suspend s;
     sv_alerts := sv_alerts s |}.
Definition with_status (t : T) (s : service) : service :=
  {| sv_ledger := sv_ledger s; sv_caps := sv_caps s; sv_status := t; sv_suspend := sv_suspend s;
     sv_alerts := sv_alerts s |}.
Definition with_suspend (x : S) (s : service) : service :=
  {| sv_ledger := sv_ledger s; sv_caps := sv_caps s; sv_status := sv_status s; sv_suspend := Some x;
     sv_alerts := sv_alerts s |}.
Definition with_alerts (a : A) (s : service) : service :=
  {| sv_ledger := sv_ledger s; sv_caps := sv_caps s; sv_status := sv_status s;
     sv_suspend := sv_suspend s; sv_alerts := Some a |}.

(** [s.suspend.Suspend] with no manual hold, when a suspender is wired. *)
Definition try_suspend (now : Z) (orgID reason note : string) (s : service) : result string unit * service :=
  match sv_suspend s with
  | None => (Ok tt, s)
  | Some x => let '(r, x) := billing_Suspend now orgID reason note false x in (r, with_suspend x s)
  end.

Definition EnforceSpendCap (now : Z) (orgID : string) (periodSpend : Money) (s : service) :
    bool * option string * service :=
  match caps_Get orgID (sv_caps s) with
  | Err e => (false, Some ("get spend cap: " +:+ e), s)
  | Ok None => (false, None, s)
  | Ok (Some cap) =>
      if (0 <? cap_HardCap cap) && (cap_HardCap cap <=? periodSpend) then
        let note := "hard spend cap reached: spend " +:+ Json.fmt_int periodSpend +:+ " cents >= cap " +:+
                    Json.fmt_int (cap_HardCap cap) +:+ " cents" in
        let '(r, s) := try_suspend now orgID "spend_cap" note s in
        match r with
        | Err e => (false, Some ("suspend on spend cap: " +:+ e), s)
        | Ok _ =>
            let '(r, t) := status_Set orgID StatusSuspended (sv_status s) in
            let s := with_status t s in
            match r with
            | Err e => (true, Some ("set suspended status: " +:+ e), s)
            | Ok _ => (true, None, s)
            end
        end
      else
        match sv_alerts s with
        | Some a =>
            if (0 <? cap_SoftCap cap) && (cap_SoftCap cap <=? periodSpend) then
              let '(r, a) := BudgetAlert {| ba_OrgID := orgID; ba_SoftCap := cap_SoftCap cap;
                                            ba_HardCap := cap_HardCap cap; ba_Spend := periodSpend;
                                            ba_At := now |} a in
              let s := with_alerts a s in
              match r with
              | Err e => (false, Some ("budget alert: " +:+ e), s)
              | Ok _ => (false, None, s)
              end
            else (false, None, s)
        | None => (false, None, s)
        end
  end.

Definition SetSpendCap (cap : SpendCap) (s : service) : result string unit * service :=
  let '(r, c) := caps_Set cap (sv_caps s) in
  (r, {| sv_ledger := sv_ledger s; sv_caps := c; sv_status := sv_status s; sv_suspend := sv_suspend s;
         sv_alerts := sv_alerts s |}).

(** The later of the month's start and the latest top-up since. *)
Definition spend_window (periodStart : Z) (entries : list LedgerEntry) : Z :=
  foldl (λ windowStart e,
    if bool_decide (e_Kind e = KindTopUp) && (0 <? e_Amount e) && (periodStart <=? e_At e) &&
       (windowStart <? e_At e)
    then e_At e else windowStart) periodStart entries.

Definition spend_since (windowStart : Z) (entries : list LedgerEntry) : Money :=
  foldl (λ spend e,
    if bool_decide (e_Kind e = KindUsageDrawdown) && (e_Amount e <? 0) && (windowStart <=? e_At e)
    then int64 (spend + int64 (- e_Amount e)) else spend) 0 entries.

(** The ledgers of the repository implement the scoped read, and so does [CreditLedger]. *)
Definition EnforceSpendCapFromLedger (now : Z) (orgID : string) (s : service) :
    bool * option string * service :=
  match caps_Get orgID (sv_caps s) with
  | Err e => (false, Some ("get spend cap: " +:+ e), s)
  | Ok None => (false, None, s)
  | Ok (Some cap) =>
      if (cap_HardCap cap <=? 0) && (cap_SoftCap cap <=? 0) then (false, None, s)
      else
        let periodStart := month_start now in
        let '(r, l) := EntriesSince orgID periodStart (sv_ledger s) in
        let s := with_ledger l s in
        match r with
        | Err e => (false, Some ("read ledger for spend cap: " +:+ e), s)
        | Ok entries =>
            let windowStart := spend_window periodStart entries in
            EnforceSpendCap now orgID (spend_since windowStart entries) s
        end
  end.

Definition applyDunning (now : Z) (orgID : string) (ev : DunningEvent) (s : service) :
    BillingStatus * option string * service :=
  match status_Get orgID (sv_status s) with
  | Err e => ("", Some ("status: " +:+ e), s)
  | Ok cur =>
      let next := NextStatus cur ev in
      let '(r, s) :=
        if bool_decide (next = StatusSuspended) && negb (bool_decide (cur = StatusSuspended))
        then try_suspend now orgID "dunning" ("dunning: " +:+ ev) s
        else (Ok tt, s) in
      match r with
      | Err e => (cur, Some ("suspend on dunning: " +:+ e), s)
      | Ok _ =>
          let '(r, t) := status_Set orgID next (sv_status s) in
          let s := with_status t s in
          match r with
          | Err e => (cur, Some ("set status: " +:+ e), s)
          | Ok _ => (next, None, s)
          end
      end
  end.

(** ** Webhooks (webhook.go) *)

Definition EventTypePaymentSucceeded : string := "invoice.payment_succeeded".
Definition EventTypePaymentFailed : string := "invoice.payment_failed".

Record WebhookEvent := { wh_OrgID : string; wh_Type : string }.

Definition dunningEventFor (t : string) : option DunningEvent :=
  if bool_decide (t = EventTypePaymentSucceeded) then Some EventPaymentSucceeded
  else if bool_decide (t = EventTypePaymentFailed) then Some EventPaymentFailed
  else None.

Inductive webhook_error := ErrWebhookSignature (msg : string) | EWebhook (msg : string).

(** [verified] is what the signature verifier makes of the payload and its header. *)
Definition Handle (now : Z) (verified : result string WebhookEvent) (s : service) :
    result webhook_error BillingStatus * service :=
  match verified with
  | Err e => (Err (ErrWebhookSignature e), s)
  | Ok ev =>
      match dunningEventFor (wh_Type ev) with
      | None =>
          match status_Get (wh_OrgID ev) (sv_status s) with
          | Err e => (Err (EWebhook e), s)
          | Ok st => (Ok st, s)
          end
      | Some dev =>
          let '(st, err, s) := applyDunning now (wh_OrgID ev) dev s in
          (match err with None => Ok st | Some e => Err (EWebhook e) end, s)
      end
  end.

(** ** The drawdown driver (cmd/console/drawdown.go) *)

Record drawdownStats := {
  ds_orgs : Z; ds_records : Z; ds_drawn : Z; ds_failed : Z; ds_replayed : Z;
  ds_settledCents : Z; ds_carriedMilli : Z; ds_pruned : Z; ds_suspended : Z;
}.

Definition zero_stats : drawdownStats :=
  {| ds_orgs := 0; ds_records := 0; ds_drawn := 0; ds_failed := 0; ds_replayed := 0;
     ds_settledCents := 0; ds_carriedMilli := 0; ds_pruned := 0; ds_suspended := 0 |}.

(** What one organization's records add to the statistics. *)
Record org_stats := {
  os_records : Z; os_drawn : Z; os_failed : Z; os_replayed : Z; os_settledCents : Z;
  os_carried : option Z;
}.

Context `{!GoPlatform}.

(** The loop over an organization's records; each settles at the time the clock shows. *)
Fixpoint settle_records (rates : Rates) (clock : nat → Z) (i : nat) (settled : gset string)
    (recs : list UsageRecord) (st : org_stats) (l : L) : org_stats * L :=
  match recs with
  | [] => (st, l)
  | rec :: recs' =>
      let st := {| os_records := os_records st + 1; os_drawn := os_drawn st; os_failed := os_failed st;
                   os_replayed := os_replayed st; os_settledCents := os_settledCents st;
                   os_carried := os_carried st |} in
      let replayed :=
        {| os_records := os_records st; os_drawn := os_drawn st; os_failed := os_failed st;
           os_replayed := os_replayed st + 1; os_settledCents := os_settledCents st;
           os_carried := os_carried st |} in
      if bool_decide (usageKey rec ∈ settled)
      then settle_records rates clock i settled recs' replayed l
      else
        let '(r, l) := Drawdown rates (clock i) rec l in
        let st' :=
          match r with
          | Err _ => {| os_records := os_records st; os_drawn := os_drawn st;
                        os_failed := os_failed st + 1; os_replayed := os_replayed st;
                        os_settledCents := os_settledCents st; os_carried := os_carried st |}
          | Ok res =>
              if dr_Replayed res then replayed
              else {| os_records := os_records st; os_drawn := os_drawn st + 1;
                      os_failed := os_failed st; os_replayed := os_replayed st;
                      os_settledCents := int64 (os_settledCents st + dr_FromCredit res);
                      os_carried := Some (dr_CarriedMilliCents res) |}
          end in
        settle_records rates clock (Datatypes.S i) settled recs' st' l
  end.

Definition usage_window : Z := 60 * second.
Definition drawdownLookback : Z := 2 * hour.

Definition fail_one (st : drawdownStats) : drawdownStats :=
  {| ds_orgs := ds_orgs st; ds_records := ds_records st; ds_drawn := ds_drawn st;
     ds_failed := ds_failed st + 1; ds_replayed := ds_replayed st;
     ds_settledCents := ds_settledCents st; ds_carriedMilli := ds_carriedMilli st;
     ds_pruned := ds_pruned st; ds_suspended := ds_suspended st |}.

Definition add_org (os : org_stats) (st : drawdownStats) : drawdownStats :=
  {| ds_orgs := ds_orgs st; ds_records := ds_records st + os_records os;
     ds_drawn := ds_drawn st + os_drawn os; ds_failed := ds_failed st + os_failed os;
     ds_replayed := ds_replayed st + os_replayed os;
     ds_settledCents := int64 (ds_settledCents st + os_settledCents os);
     ds_carriedMilli := int64 (ds_carriedMilli st + default 0 (os_carried os));
     ds_pruned := ds_pruned st; ds_suspended := ds_suspended st |}.

(** One organization of a cycle.  [listing] is what the usage store answers for the
    records of the organization with windows in [[from, to)]. *)
Definition settle_org (rates : Rates) (clock : nat → Z) (from : Z) (orgID : string)
    (listing : result string (list UsageRecord)) (st : drawdownStats) (s : service) :
    drawdownStats * service :=
  match listing with
  | Err _ => (fail_one st, s)
  | Ok [] => (st, s)
  | Ok recs =>
      let '(r, l) := SettledWindowKeys orgID from (sv_ledger s) in
      let s := with_ledger l s in
      match r with
      | Err _ => (fail_one st, s)
      | Ok settled =>
          let '(os, l) := settle_records rates clock 1 settled recs
            {| os_records := 0; os_drawn := 0; os_failed := 0; os_replayed := 0; os_settledCents := 0;
               os_carried := None |} (sv_ledger s) in
          let st := add_org os st in
          let '(suspended, err, s) := EnforceSpendCapFromLedger (clock 0%nat) orgID (with_ledger l s) in
          match err with
          | Some _ => (fail_one st, s)
          | None =>
              (if (suspended : bool)
               then {| ds_orgs := ds_orgs st; ds_records := ds_records st; ds_drawn := ds_drawn st;
                       ds_failed := ds_failed st; ds_replayed := ds_replayed st;
                       ds_settledCents := ds_settledCents st; ds_carriedMilli := ds_carriedMilli st;
                       ds_pruned := ds_pruned st; ds_suspended := ds_suspended st + 1 |}
               else st, s)
          end
      end
  end.

(** A cycle at [now]: [orgs] is the listing of the organizations, [records] the listing
    of an organization's records in a range, [clock] the time of each read of the
    service's clock while an organization is settled. *)
Definition runDrawdownOnce (rates : Rates) (lookback now : Z) (clock : string → nat → Z)
    (orgs : result string (list string))
    (records : string → Z → Z → result string (list UsageRecord)) (s : service) :
    drawdownStats * service :=
  match orgs with
  | Err _ => (fail_one zero_stats, s)
  | Ok list =>
      let from := now - lookback in
      let to := now - usage_window in
      let st := {| ds_orgs := Z.of_nat (length list); ds_records := 0; ds_drawn := 0; ds_failed := 0;
                   ds_replayed := 0; ds_settledCents := 0; ds_carriedMilli := 0; ds_pruned := 0;
                   ds_suspended := 0 |} in
      let '(st, s) :=
        foldl (λ '(st, s) orgID, settle_org rates (clock orgID) from orgID (records orgID from to) st s)
          (st, s) list in
      let '(r, l) := PruneProcessedWindows from (sv_ledger s) in
      let s := with_ledger l s in
      match r with
      | Err _ => (fail_one st, s)
      | Ok pruned =>
          ({| ds_orgs := ds_orgs st; ds_records := ds_records st; ds_drawn := ds_drawn st;
              ds_failed := ds_failed st; ds_replayed := ds_replayed st;
              ds_settledCents := ds_settledCents st; ds_carriedMilli := ds_carriedMilli st;
              ds_pruned := pruned; ds_suspended := ds_suspended st |}, s)
      end
  end.

End service.

End Billing.
