(* ===== verification/BillingTheorems.v ===== *)
(** * Billing: theorems

    The ledger's accounting is exact: cumulative debits and overage track cumulative
    usage to within half a cent, the balance never goes negative, each usage window
    settles at most once and a replay moves nothing, over any lawful ledger and
    whatever fails. *)

From S2P Require Import Prelude GoFloat Json GoTime Scheduler Suspension Metering Usage Billing.
Import GoFloat GoTime Suspension Billing.
Import Usage(UsageRecord, u_OrgID, u_SandboxID, u_Region, u_Window, u_VCPUSeconds, u_MemGiBSeconds,
  u_StorageGiBHours, u_EgressBytes, u_GPUSeconds).

Module BillingTheorems.

(** ** The arithmetic of a settle *)

Lemma settle_arith carried cost :
  -500 ≤ carried < 500 → 0 < cost ≤ 2 ^ 62 →
  let total := int64 (carried + cost) in
  let cents := Z.quot (int64 (total + 500)) 1000 in
  let carry := int64 (total - int64 (cents * 1000)) in
  carried + cost = 1000 * cents + carry ∧ -500 ≤ carry < 500 ∧ 0 ≤ cents ≤ 2 ^ 62.
Proof.
  intros Hc Hm. rewrite (int64_id (carried + cost)) by (unfold is_int64, min_int64, max_int64; lia).
  cbv zeta. rewrite (int64_id (carried + cost + 500)) by (unfold is_int64, min_int64, max_int64; lia).
  rewrite Z.quot_div_nonneg by lia.
  pose proof (Z.div_mod (carried + cost + 500) 1000). pose proof (Z.mod_pos_bound (carried + cost + 500) 1000).
  rewrite (int64_id (_ * 1000)) by (unfold is_int64, min_int64, max_int64; lia).
  rewrite int64_id by (unfold is_int64, min_int64, max_int64; lia). lia.
Qed.

Lemma CostMilliCents_nonneg `{!GoPlatform} rates rec : 0 ≤ CostMilliCents rates rec.
Proof. unfold CostMilliCents. case_match; lia. Qed.

(** ** The reference ledger *)

Lemma appendLocked_ok e m m' :
  appendLocked e m = Ok m' →
  (∀ org, mem_Balance org m' =
    if decide (org = e_OrgID e) then int64 (mem_Balance org m + e_Amount e) else mem_Balance org m) ∧
  l_remainder m' = l_remainder m ∧ l_processed m' = l_processed m.
Proof.
  unfold appendLocked. destruct (_ && _); [done|]. intros [= <-]. split; [|done]. intros org.
  unfold mem_Balance, entries_of. simpl. destruct (decide (org = e_OrgID e)) as [->|].
  - rewrite lookup_insert_eq. simpl. by rewrite foldl_app.
  - by rewrite lookup_insert_ne by done.
Qed.

Lemma mem_Append_effect e m r m' :
  mem_Append e m = (r, m') →
  match r with
  | Ok _ => (∀ org, mem_Balance org m' =
      if decide (org = e_OrgID e) then int64 (mem_Balance org m + e_Amount e) else mem_Balance org m) ∧
      l_remainder m' = l_remainder m ∧ l_processed m' = l_processed m
  | Err _ => m' = m
  end.
Proof.
  unfold mem_Append. destruct (appendLocked e m) as [m1|] eqn:E; intros [= <- <-]; [|done].
  by apply appendLocked_ok.
Qed.

Lemma mem_Settle_effect e c w m r m' :
  mem_SettleWindow e c w m = (r, m') → w_OrgID w = e_OrgID e →
  match r with
  | Ok _ =>
      (∀ org, is_int64 (mem_Balance org m) → mem_Balance org m' =
        if decide (org = e_OrgID e) then int64 (mem_Balance org m + e_Amount e) else mem_Balance org m) ∧
      (∀ org, mem_Remainder org m' = if decide (org = e_OrgID e) then c else mem_Remainder org m) ∧
      processed_of (w_OrgID w) m !! window_Key w = None ∧
      (∀ org, processed_of org m' =
        if decide (org = w_OrgID w) then <[window_Key w := w_Window w]> (processed_of org m)
        else processed_of org m)
  | Err _ => m' = m
  end.
Proof.
  unfold mem_SettleWindow. intros Hs Hw.
  destruct (processed_of _ m !! window_Key w) eqn:Hp; [by simplify_eq|].
  destruct (if e_Amount e =? 0 then Ok m else appendLocked e m) as [m1|] eqn:E; simplify_eq; [|done].
  assert ((∀ org, is_int64 (mem_Balance org m) → mem_Balance org m1 =
      if decide (org = e_OrgID e) then int64 (mem_Balance org m + e_Amount e) else mem_Balance org m) ∧
    l_remainder m1 = l_remainder m ∧ l_processed m1 = l_processed m) as (Hb & Hr & Hpr).
  { destruct (Z.eqb_spec (e_Amount e) 0) as [Ha|Ha].
    - injection E as <-. split; [|done]. intros org Hi. rewrite Ha, Z.add_0_r, int64_id by done. by case_decide.
    - apply appendLocked_ok in E as (? & ? & ?). auto. }
  split_and!.
  - intros org Hi. rewrite <- Hb by done. done.
  - intros org. unfold mem_Remainder. simpl. rewrite Hr. destruct (decide (org = e_OrgID e)) as [->|].
    + by rewrite lookup_insert_eq.
    + by rewrite lookup_insert_ne by done.
  - done.
  - intros org. unfold processed_of. simpl. rewrite Hpr. destruct (decide (org = w_OrgID w)) as [->|].
    + by rewrite lookup_insert_eq.
    + by rewrite lookup_insert_ne by done.
Qed.

(** ** Drawdown over a lawful ledger *)

Section lawful.
Context `{!GoPlatform} {L : Type} `{!CreditLedger L, !LawfulLedger L}.
Context (rates : Rates).

(** The window of a record. *)
Definition record_window (rec : UsageRecord) : ProcessedWindow :=
  {| w_OrgID := u_OrgID rec; w_SandboxID := u_SandboxID rec; w_Window := u_Window rec |}.

(** What a drawdown debits, of a cost in cents. *)
Definition credit_part (cost bal : Money) : Money :=
  let c := if bal <? cost then bal else cost in if c <? 0 then 0 else c.

Definition drawdown_entry (now : Z) (rec : UsageRecord) (fromCredit : Money) : LedgerEntry :=
  {| e_OrgID := u_OrgID rec; e_Kind := KindUsageDrawdown; e_Amount := int64 (- fromCredit);
     e_Key := usageKey rec; e_At := now; e_Note := "usage drawdown" |}.

(** A drawdown either moves nothing or is one settle of the reference ledger. *)
Lemma Drawdown_cases now rec l :
  let m := lview l in
  let org := u_OrgID rec in
  let total := int64 (mem_Remainder org m + CostMilliCents rates rec) in
  let cost := Z.quot (int64 (total + 500)) 1000 in
  let carry := int64 (total - int64 (cost * 1000)) in
  let fc := credit_part cost (mem_Balance org m) in
  let settle := mem_SettleWindow (drawdown_entry now rec fc) carry (record_window rec) m in
  let '(r, l') := Drawdown rates now rec l in
  match r with
  | Ok res =>
      if CostMilliCents rates rec =? 0 then res = zero_drawdown ∧ lview l' = m
      else if dr_Replayed res then
        settle = (Err ErrDuplicateEntry, m) ∧ lview l' = m ∧
        dr_FromCredit res = prior_credit (usageKey rec) (mem_Entries org m) ∧
        dr_Cost res = dr_FromCredit res ∧ dr_Remaining res = 0
      else settle = (Ok tt, lview l') ∧
        res = {| dr_Cost := cost; dr_FromCredit := fc; dr_Remaining := int64 (cost - fc);
                 dr_CarriedMilliCents := carry; dr_Replayed := false |}
  | Err _ => lview l' = m
  end.
Proof.
  intros m org total cost carry fc settle. unfold Drawdown.
  destruct (CostMilliCents rates rec =? 0); [done|].
  pose proof (remainder_law org l) as H1. destruct (Remainder _ l) as [[carried|e] l1]; [|by destruct H1].
  destruct H1 as [Hv1 ->].
  pose proof (balance_law org l1) as H2. destruct (Balance _ l1) as [[bal|e] l2];
    [|destruct H2 as [Hv2 _]; by rewrite Hv2].
  destruct H2 as [Hv2 ->]. rewrite Hv1 in Hv2 |- *. fold m. fold total. fold cost. fold carry.
  change (if (if mem_Balance org m <? cost then mem_Balance org m else cost) <? 0 then 0 else _) with fc.
  match goal with |- context [SettleWindow ?e ?c ?w l2] => pose proof (settle_law e c w l2) as H3 end.
  rewrite Hv2 in H3. fold m in H3. change (mem_SettleWindow _ _ _ m) with settle in H3.
  destruct (SettleWindow _ _ _ l2) as [[[]|[|e]] l3]; simpl.
  - done.
  - assert (lview l3 = m) as Hv3.
    { assert (settle = (settle.1, settle.2)) as Es by (by destruct settle).
      rewrite <- H3 in Es. subst settle. unfold mem_SettleWindow in H3.
      repeat case_match; simplify_eq; done. }
    unfold priorDrawdownCredit. pose proof (entries_law org l3) as H4.
    destruct (Entries _ l3) as [[es|e] l4]; destruct H4 as [Hv4 H4]; simpl; [|by rewrite Hv4].
    rewrite Hv3 in *. split_and!; [by rewrite <- H3|done|by rewrite H4|done..].
  - by rewrite H3.
Qed.

(** ** The accounting of an organization *)

Inductive bill_event :=
| BDrawdown (now : Z) (rec : UsageRecord)
| BTopUp (org : string) (amount : Money) (ref : string) (now : Z)
| BSignup (org : string) (amount : Money) (now : Z)
| BPrune (t : Z).

(** What has happened to one organization: the milli-cents its settled usage cost, the
    cents billed for it, of those the cents debited from credit and the cents left to
    invoice, the credit granted, and the keys of the windows settled. *)
Record account := {
  a_used : Z; a_billed : Z; a_debited : Z; a_overage : Z; a_granted : Z; a_settled : list string;
}.

Definition new_account : account :=
  {| a_used := 0; a_billed := 0; a_debited := 0; a_overage := 0; a_granted := 0; a_settled := [] |}.

Definition grant (r : result ledger_error unit) (amount : Money) (a : account) : account :=
  {| a_used := a_used a; a_billed := a_billed a; a_debited := a_debited a; a_overage := a_overage a;
     a_granted := a_granted a + (if is_ok r then amount else 0); a_settled := a_settled a |}.

Definition settle (rec : UsageRecord) (r : result string DrawdownResult) (a : account) : account :=
  match r with
  | Ok res =>
      if dr_Replayed res || (CostMilliCents rates rec =? 0) then a
      else {| a_used := a_used a + CostMilliCents rates rec; a_billed := a_billed a + dr_Cost res;
              a_debited := a_debited a + dr_FromCredit res; a_overage := a_overage a + dr_Remaining res;
              a_granted := a_granted a; a_settled := usageKey rec :: a_settled a |}
  | Err _ => a
  end.

Definition bill_step (org : string) (st : L * account) (ev : bill_event) : L * account :=
  let '(l, a) := st in
  match ev with
  | BDrawdown now rec =>
      let '(r, l) := Drawdown rates now rec l in
      (l, if decide (u_OrgID rec = org) then settle rec r a else a)
  | BTopUp o amount ref now =>
      let '(r, l) := TopUp o amount ref now l in (l, if decide (o = org) then grant r amount a else a)
  | BSignup o amount now =>
      let '(r, l) := GrantSignupCredit o amount now l in (l, if decide (o = org) then grant r amount a else a)
  | BPrune t => ((PruneProcessedWindows t l).2, a)
  end.

(** The inputs are of a size that occurs: no window costs 2^62 milli-cents, and no
    credit is negative. *)
Definition event_ok (ev : bill_event) : Prop :=
  match ev with
  | BDrawdown _ rec => CostMilliCents rates rec ≤ 2 ^ 62
  | BTopUp _ amount _ _ | BSignup _ amount _ => 0 ≤ amount
  | BPrune _ => True
  end.

(** The credit that the events offer. *)
Definition offered (evs : list bill_event) : Z :=
  foldr (λ ev n, match ev with BTopUp _ amount _ _ | BSignup _ amount _ => amount | _ => 0 end + n) 0 evs.

Record account_ok (org : string) (m : MemCreditLedger) (a : account) : Prop := {
  ao_exact : a_used a = 1000 * a_billed a + mem_Remainder org m;
  ao_carry : -500 ≤ mem_Remainder org m < 500;
  ao_split : a_billed a = a_debited a + a_overage a;
  ao_balance : mem_Balance org m = a_granted a - a_debited a;
  ao_nonneg : 0 ≤ mem_Balance org m;
  ao_overage : 0 ≤ a_debited a ∧ 0 ≤ a_overage a;
}.

Lemma credit_part_bounds cost bal :
  0 ≤ cost → 0 ≤ bal → 0 ≤ credit_part cost bal ≤ cost ∧ credit_part cost bal ≤ bal.
Proof. unfold credit_part. intros. repeat case_match; lia. Qed.

Lemma account_settle org m m' a now rec :
  account_ok org m a → a_granted a ≤ 2 ^ 62 → u_OrgID rec = org →
  0 < CostMilliCents rates rec ≤ 2 ^ 62 →
  let total := int64 (mem_Remainder org m + CostMilliCents rates rec) in
  let cost := Z.quot (int64 (total + 500)) 1000 in
  let carry := int64 (total - int64 (cost * 1000)) in
  let fc := credit_part cost (mem_Balance org m) in
  mem_SettleWindow (drawdown_entry now rec fc) carry (record_window rec) m = (Ok tt, m') →
  account_ok org m'
    {| a_used := a_used a + CostMilliCents rates rec; a_billed := a_billed a + cost;
       a_debited := a_debited a + fc; a_overage := a_overage a + int64 (cost - fc);
       a_granted := a_granted a; a_settled := usageKey rec :: a_settled a |}.
Proof.
  intros [Hx Hc Hs Hb Hn Ho] Hg <- Hm total cost carry fc Hset.
  pose proof (settle_arith _ _ Hc Hm) as Har. cbv zeta in Har.
  fold total in Har. fold cost in Har. fold carry in Har. destruct Har as (Ht & Hcarry & Hcost).
  pose proof (credit_part_bounds cost (mem_Balance (u_OrgID rec) m)) as Hfc. fold fc in Hfc.
  assert (is_int64 (mem_Balance (u_OrgID rec) m)) as Hi by (unfold is_int64, min_int64, max_int64; lia).
  apply mem_Settle_effect in Hset as (Hbal & Hrem & _ & _); [|done].
  specialize (Hbal (u_OrgID rec) Hi). specialize (Hrem (u_OrgID rec)). simpl in Hbal, Hrem.
  rewrite decide_True in Hbal, Hrem by done.
  rewrite (int64_id (- fc)) in Hbal by (unfold is_int64, min_int64, max_int64; lia).
  rewrite int64_id in Hbal by (unfold is_int64, min_int64, max_int64; lia).
  split; simpl; rewrite ?Hbal, ?Hrem, ?(int64_id (cost - fc)) by (unfold is_int64, min_int64, max_int64; lia);
    lia.
Qed.

Lemma account_grant org m m' a e r :
  account_ok org m a → a_granted a + e_Amount e ≤ 2 ^ 62 → 0 ≤ e_Amount e → e_OrgID e = org →
  mem_Append e m = (r, m') → account_ok org m' (grant r (e_Amount e) a).
Proof.
  intros [Hx Hc Hs Hb Hn Ho] Hg Ha <- Hap. apply mem_Append_effect in Hap.
  destruct r as [[]|].
  - destruct Hap as (Hbal & Hrem & _). specialize (Hbal (e_OrgID e)). rewrite decide_True in Hbal by done.
    rewrite int64_id in Hbal by (unfold is_int64, min_int64, max_int64; lia).
    assert (mem_Remainder (e_OrgID e) m' = mem_Remainder (e_OrgID e) m) as Hr
      by (unfold mem_Remainder; by rewrite Hrem).
    split; simpl; rewrite ?Hr, ?Hbal; lia.
  - subst m'. split; simpl; lia.
Qed.

(** Nothing that happens to another organization touches this one. *)
Lemma account_other org m m' a :
  account_ok org m a → mem_Remainder org m' = mem_Remainder org m → mem_Balance org m' = mem_Balance org m →
  account_ok org m' a.
Proof. intros [Hx Hc Hs Hb Hn Ho] Hr Hbal. by split; rewrite ?Hr, ?Hbal. Qed.

Lemma account_drawdown org l a now rec :
  account_ok org (lview l) a → a_granted a ≤ 2 ^ 62 → CostMilliCents rates rec ≤ 2 ^ 62 →
  let '(l', a') := bill_step org (l, a) (BDrawdown now rec) in
  account_ok org (lview l') a' ∧ a_granted a' = a_granted a.
Proof.
  intros Hok Hg Hm. simpl. pose proof (Drawdown_cases now rec l) as Hd. cbv zeta in Hd.
  destruct (Drawdown rates now rec l) as [[res|e] l'].
  2: { rewrite Hd. by case_decide. }
  destruct (CostMilliCents rates rec =? 0) eqn:Hz.
  { destruct Hd as [-> ->]. case_decide; simpl; [rewrite Hz|]; done. }
  destruct (dr_Replayed res) eqn:Hrep.
  { destruct Hd as (_ & -> & _). case_decide; simpl; [rewrite Hrep|]; done. }
  destruct Hd as [Hset Hres]. pose proof (CostMilliCents_nonneg rates rec).
  case_decide as Ho.
  - simpl. rewrite Hrep, Hz. subst res org. simpl.
    split; [|done]. eapply account_settle; (done || lia).
  - split; [|done]. apply mem_Settle_effect in Hset as (Hbal & Hrem & _ & _); [|done].
    specialize (Hrem org). specialize (Hbal org). simpl in Hrem, Hbal.
    rewrite decide_False in Hrem, Hbal by congruence.
    eapply account_other; [done|done|]. apply Hbal. destruct Hok.
    unfold is_int64, min_int64, max_int64. lia.
Qed.

Lemma account_append org l a e :
  account_ok org (lview l) a → a_granted a + e_Amount e ≤ 2 ^ 62 → 0 ≤ e_Amount e →
  let '(r, l') := Append e l in
  let a' := if decide (e_OrgID e = org) then grant r (e_Amount e) a else a in
  account_ok org (lview l') a' ∧ a_granted a' ≤ a_granted a + e_Amount e.
Proof.
  intros Hok Hg Ha. pose proof (append_law e l) as Hl.
  destruct (Append e l) as [r l']. cbv zeta.
  assert ((if decide (e_OrgID e = org) then a_granted (grant r (e_Amount e) a) else a_granted a) ≤
          a_granted a + e_Amount e) as Hgr by (case_decide; simpl; [destruct (is_ok r)|]; lia).
  destruct r as [[]|[|msg]].
  - split; [|by case_decide]. symmetry in Hl. case_decide as Ho; [by eapply account_grant|].
    apply mem_Append_effect in Hl as (Hbal & Hrem & _). specialize (Hbal org).
    rewrite decide_False in Hbal by congruence.
    eapply account_other; [done| |done]. unfold mem_Remainder. by rewrite Hrem.
  - split; [|by case_decide]. symmetry in Hl. case_decide as Ho; [by eapply account_grant|].
    apply mem_Append_effect in Hl. by rewrite Hl.
  - split; [|by case_decide]. rewrite Hl. case_decide; [|done].
    destruct Hok. split; simpl; rewrite ?Z.add_0_r; done.
Qed.

Lemma account_step org l a ev :
  account_ok org (lview l) a → event_ok ev → a_granted a + offered [ev] ≤ 2 ^ 62 →
  let '(l', a') := bill_step org (l, a) ev in
  account_ok org (lview l') a' ∧ a_granted a' ≤ a_granted a + offered [ev].
Proof.
  intros Hok Hev Hg. destruct ev as [now rec|o amount ref now|o amount now|t]; cbn [offered foldr] in *.
  - pose proof (account_drawdown org l a now rec Hok) as Hd.
    destruct (bill_step org (l, a) (BDrawdown now rec)) as [l' a'].
    destruct Hd as [? ->]; [lia|done|]. split; [done|lia].
  - simpl in *. unfold TopUp.
    match goal with |- context [Append ?e l] => pose proof (account_append org l a e Hok) as Hap end.
    simpl in Hap.
    destruct (Append _ l) as [r l']. destruct Hap; [lia|lia|]. split; [done|lia].
  - simpl in *. unfold GrantSignupCredit.
    match goal with |- context [Append ?e l] => pose proof (account_append org l a e Hok) as Hap end.
    simpl in Hap.
    destruct (Append _ l) as [r l']. destruct Hap; [lia|lia|]. split; [done|lia].
  - simpl in *. split; [|lia]. pose proof (prune_law t l) as Hl.
    destruct (PruneProcessedWindows t l) as [[n|e] l']; simpl; [|by rewrite Hl].
    unfold mem_PruneProcessedWindows in Hl. injection Hl as _ Hl. rewrite Hl.
    by eapply account_other.
Qed.

Lemma account_run org evs l a :
  account_ok org (lview l) a → Forall event_ok evs → a_granted a + offered evs ≤ 2 ^ 62 →
  let '(l', a') := foldl (bill_step org) (l, a) evs in account_ok org (lview l') a'.
Proof.
  intros Hok Hev. revert l a Hok. induction Hev as [|ev evs Hev Hevs IH]; intros l a Hok Hg; [done|].
  assert (offered (ev :: evs) = offered [ev] + offered evs ∧ 0 ≤ offered evs) as [Ho Hpos].
  { split; [simpl; lia|]. clear -Hevs. induction Hevs as [|x xs Hx _ IHx]; simpl; [lia|].
    destruct x; simpl in *; lia. }
  cbn [foldl]. pose proof (account_step org l a ev Hok Hev) as Hs.
  destruct (bill_step org (l, a) ev) as [l1 a1]. destruct Hs as [Hok1 Hg1]; [lia|]. apply IH; [done|lia].
Qed.

(** C12: the accounting is exact.  Over any lawful ledger that starts empty, for every
    organization and after any sequence of drawdowns, replays, top-ups, signup credits
    and prunings, with any of the ledger's operations failing: the settled usage costs
    exactly the billed cents plus a carried remainder of at most half a cent, what is
    billed is what was debited plus what is left to invoice, the balance is the credit
    granted minus what was debited, and it is never negative. *)
Theorem settlement_exact org evs l :
  lview l = NewMemCreditLedger → Forall event_ok evs → offered evs ≤ 2 ^ 62 →
  let '(l', a) := foldl (bill_step org) (l, new_account) evs in
  let m := lview l' in
  a_used a = 1000 * a_billed a + mem_Remainder org m ∧ -500 ≤ mem_Remainder org m < 500 ∧
  a_billed a = a_debited a + a_overage a ∧
  mem_Balance org m = a_granted a - a_debited a ∧ 0 ≤ mem_Balance org m ∧ 0 ≤ a_overage a.
Proof.
  intros Hl Hev Ho. pose proof (account_run org evs l new_account) as Hr.
  destruct (foldl (bill_step org) (l, new_account) evs) as [l' a].
  destruct Hr as [Hx Hc Hs Hb Hn [_ Ho']]; [|done|simpl; lia|done].
  split; rewrite ?Hl; unfold mem_Remainder, mem_Balance, entries_of; simpl;
    rewrite ?lookup_empty; simpl; lia.
Qed.

(** ** Windows settle once *)

Definition is_prune (ev : bill_event) : bool := match ev with BPrune _ => true | _ => false end.

(** The settled windows are marked. *)
Definition marked (org : string) (m : MemCreditLedger) (a : account) : Prop :=
  NoDup (a_settled a) ∧ ∀ k, k ∈ a_settled a → is_Some (processed_of org m !! k).

Lemma marked_keep org m m' a :
  marked org m a → (∀ k, is_Some (processed_of org m !! k) → is_Some (processed_of org m' !! k)) →
  marked org m' a.
Proof. intros [Hn Hm] Hk. split; [done|]. auto. Qed.

Lemma marked_append org l a e :
  marked org (lview l) a → marked org (lview (Append e l).2) a.
Proof.
  intros Hm. pose proof (append_law e l) as Hl. destruct (Append e l) as [r l']. simpl.
  assert (lview l' = lview l ∨ l_processed (lview l') = l_processed (lview l)) as [->|Hp]; [|done|].
  { destruct r as [[]|[|msg]]; [| |by left]; symmetry in Hl; apply mem_Append_effect in Hl; [|by left].
    right. by destruct Hl as (_ & _ & ?). }
  eapply marked_keep; [done|]. intros k. unfold processed_of. by rewrite Hp.
Qed.

Lemma marked_step org l a ev :
  is_prune ev = false → marked org (lview l) a →
  let '(l', a') := bill_step org (l, a) ev in marked org (lview l') a'.
Proof.
  intros Hp Hm. destruct ev as [now rec|o amount ref now|o amount now|t]; simpl; [| | |done].
  - pose proof (Drawdown_cases now rec l) as Hd. cbv zeta in Hd.
    destruct (Drawdown rates now rec l) as [[res|e] l']; [|rewrite Hd; by case_decide].
    destruct (CostMilliCents rates rec =? 0) eqn:Hz.
    { destruct Hd as [-> ->]. case_decide; simpl; [rewrite Hz|]; done. }
    destruct (dr_Replayed res) eqn:Hrep.
    { destruct Hd as (_ & -> & _). case_decide; simpl; [rewrite Hrep|]; done. }
    destruct Hd as [Hset _]. apply mem_Settle_effect in Hset as (_ & _ & Hnew & Hproc); [|done].
    specialize (Hproc org). simpl in Hproc, Hnew. destruct (decide (u_OrgID rec = org)) as [Ho|Ho].
    + subst org. simpl. rewrite Hrep, Hz. rewrite decide_True in Hproc by done.
      destruct Hm as [Hn Hk]. split; simpl.
      * apply NoDup_cons. split; [|done]. intros [w Hw]%Hk.
        change (window_Key _) with (usageKey rec) in Hnew. congruence.
      * intros k. rewrite Hproc. change (window_Key _) with (usageKey rec).
        intros [->|Hin]%elem_of_cons; [rewrite lookup_insert_eq; eauto|].
        apply lookup_insert_is_Some'. eauto.
    + rewrite decide_False in Hproc by congruence. eapply marked_keep; [done|]. by rewrite Hproc.
  - pose proof (marked_append org l a) as Ha. unfold TopUp.
    match goal with |- context [Append ?e l] => specialize (Ha e Hm) end.
    destruct (Append _ l) as [r l']. by case_decide.
  - pose proof (marked_append org l a) as Ha. unfold GrantSignupCredit.
    match goal with |- context [Append ?e l] => specialize (Ha e Hm) end.
    destruct (Append _ l) as [r l']. by case_decide.
Qed.

(** A usage window is billed at most once.  In any sequence of drawdowns, top-ups
    and signup credits over a lawful ledger, failing or not, no two drawdowns of an
    organization that settle have the same (organization, sandbox, window) key. *)
Theorem window_settles_once org evs l :
  forallb (λ ev, negb (is_prune ev)) evs = true →
  NoDup (a_settled (foldl (bill_step org) (l, new_account) evs).2).
Proof.
  intros Hp.
  assert (marked org (lview l) new_account) as Hm by (split; simpl; [constructor|set_solver]).
  revert Hm. generalize new_account. revert l Hp.
  induction evs as [|ev evs IH]; intros l Hp a Hm; [apply Hm|].
  simpl in Hp. apply andb_prop in Hp as [Hp1%negb_true_iff Hp2]. cbn [foldl].
  pose proof (marked_step org l a ev Hp1 Hm) as Hs. destruct (bill_step org (l, a) ev) as [l1 a1]. auto.
Qed.

(** ** Replays *)

(** The keys of the entries are recorded as seen. *)
Definition keys_seen (m : MemCreditLedger) : Prop :=
  ∀ org e, e ∈ entries_of org m → e_Key e ≠ "" → seen_key org (e_Key e) ∈ l_seenKey m.

Lemma mem_Balance_int64 org m : is_int64 (mem_Balance org m).
Proof.
  unfold mem_Balance. induction (entries_of org m) as [|e es _] using rev_ind; [done|].
  rewrite foldl_app. simpl. apply int64_range.
Qed.

Lemma prior_credit_none key es :
  (∀ e, e ∈ es → e_Key e ≠ key) → prior_credit key es = 0.
Proof.
  induction es as [|e es IH]; intros Hk; [done|]. simpl.
  rewrite (bool_decide_false (e_Key e = key)), andb_false_r by (apply Hk; set_solver). set_solver.
Qed.

Lemma prior_credit_app key es es' :
  (∀ e, e ∈ es → e_Key e ≠ key) → prior_credit key (es ++ es') = prior_credit key es'.
Proof.
  induction es as [|e es IH]; intros Hk; [done|]. simpl.
  rewrite (bool_decide_false (e_Key e = key)), andb_false_r by (apply Hk; set_solver).
  apply IH. set_solver.
Qed.

Lemma usageKey_nonempty rec : usageKey rec ≠ "".
Proof. done. Qed.

(** The entry of a settled window is found again. *)
Lemma prior_of_settle now rec fc carry m m' :
  keys_seen m → seen_key (u_OrgID rec) (usageKey rec) ∉ l_seenKey m → 0 ≤ fc → is_int64 fc →
  mem_SettleWindow (drawdown_entry now rec fc) carry (record_window rec) m = (Ok tt, m') →
  prior_credit (usageKey rec) (entries_of (u_OrgID rec) m') = fc.
Proof.
  intros Hk Hnew Hfc Hi Hs.
  assert (∀ e, e ∈ entries_of (u_OrgID rec) m → e_Key e ≠ usageKey rec) as Hfresh.
  { intros e He Heq. apply Hnew. rewrite <- Heq. apply Hk; [done|]. by rewrite Heq. }
  unfold mem_SettleWindow in Hs. destruct (processed_of _ m !! _); [done|]. simpl in Hs.
  rewrite (int64_id (- fc)) in Hs by (unfold is_int64, min_int64, max_int64 in *; lia).
  destruct (Z.eqb_spec (- fc) 0) as [Hz|Hz]; simplify_eq.
  - unfold entries_of. simpl. rewrite prior_credit_none by done. lia.
  - unfold appendLocked in Hs. simpl in Hs. rewrite (bool_decide_false (seen_key _ _ ∈ _)), ?andb_false_r in Hs by done.
    simplify_eq. unfold entries_of at 1. simpl. rewrite lookup_insert_eq. simpl.
    rewrite prior_credit_app by done. simpl.
    rewrite (bool_decide_true (usageKey rec = usageKey rec)) by done. simpl.
    rewrite (int64_id (- fc)) by (unfold is_int64, min_int64, max_int64 in *; lia).
    destruct (Z.ltb_spec (- fc) 0); [|lia].
    rewrite int64_id by (unfold is_int64, min_int64, max_int64 in *; lia). lia.
Qed.

Lemma credit_part_int64 cost bal : is_int64 cost → is_int64 bal → 0 ≤ credit_part cost bal ∧ is_int64 (credit_part cost bal).
Proof. unfold credit_part, is_int64, min_int64, max_int64. intros. repeat case_match; lia. Qed.

(** A replay is free.  When the window of a record has settled, drawing the same
    record down again, at any later time, changes nothing in the ledger; if the ledger
    answers, the result is marked as replayed, reports the credit that the first call
    debited, and asks for nothing more to be billed. *)
Theorem replay_moves_nothing now now' rec l l1 res :
  keys_seen (lview l) → seen_key (u_OrgID rec) (usageKey rec) ∉ l_seenKey (lview l) →
  CostMilliCents rates rec ≠ 0 →
  Drawdown rates now rec l = (Ok res, l1) → dr_Replayed res = false →
  let '(r2, l2) := Drawdown rates now' rec l1 in
  lview l2 = lview l1 ∧
  match r2 with
  | Ok res2 => dr_Replayed res2 = true ∧ dr_FromCredit res2 = dr_FromCredit res ∧
               dr_Cost res2 = dr_FromCredit res ∧ dr_Remaining res2 = 0
  | Err _ => True
  end.
Proof.
  intros Hk Hnew Hc Hd Hrep.
  pose proof (Drawdown_cases now rec l) as H1. rewrite Hd in H1. cbv zeta in H1.
  rewrite (proj2 (Z.eqb_neq _ _) Hc), Hrep in H1. destruct H1 as [Hset Hres].
  pose proof Hset as Heff. apply mem_Settle_effect in Heff as (_ & _ & _ & Hproc); [|done].
  specialize (Hproc (u_OrgID rec)). simpl in Hproc. rewrite decide_True in Hproc by done.
  pose proof (Drawdown_cases now' rec l1) as H2. cbv zeta in H2.
  rewrite (proj2 (Z.eqb_neq _ _) Hc) in H2.
  destruct (Drawdown rates now' rec l1) as [[res2|e] l2]; [|by rewrite H2].
  assert (∀ e c, mem_SettleWindow e c (record_window rec) (lview l1) = (Err ErrDuplicateEntry, lview l1)) as Hdup.
  { intros e c. unfold mem_SettleWindow. simpl. by rewrite Hproc, lookup_insert_eq. }
  rewrite Hdup in H2. destruct (dr_Replayed res2); [|by destruct H2].
  destruct H2 as (_ & -> & Hf & -> & ->). split; [done|].
  assert (dr_FromCredit res2 = dr_FromCredit res) as ->; [|done].
  rewrite Hf, Hres. unfold mem_Entries. cbn [dr_FromCredit].
  match type of Hset with mem_SettleWindow (drawdown_entry _ _ (credit_part ?c ?b)) _ _ _ = _ =>
    destruct (credit_part_int64 c b) as [Hpos Hi]; [|apply mem_Balance_int64|] end.
  - unfold is_int64. match goal with |- _ ≤ int64 ?x `quot` 1000 ≤ _ => pose proof (int64_range x) as Hx end.
    unfold is_int64, min_int64, max_int64 in *. Z.quot_rem_to_equations. lia.
  - by eapply prior_of_settle.
Qed.

End lawful.

(** ** Concrete inputs *)

(** [gib_hours] of storage, at 10 milli-cents each. *)
Definition ex_record (sandbox : string) (window gib_hours : Z) : UsageRecord :=
  {| u_OrgID := "acme"; u_SandboxID := sandbox; u_Region := ""; u_Window := window;
     u_VCPUSeconds := of_int 0; u_MemGiBSeconds := of_int 0; u_StorageGiBHours := of_int gib_hours;
     u_EgressBytes := 0; u_GPUSeconds := 0 |}.

Definition ex_bill : list bill_event :=
  [BSignup "acme" 2 5; BDrawdown 10 (ex_record "s1" 0 50); BDrawdown 20 (ex_record "s1" 0 50);
   BDrawdown 30 (ex_record "s2" 0 260); BTopUp "acme" 100 "pi_1" 40; BTopUp "acme" 100 "pi_1" 50;
   BDrawdown 60 (ex_record "s1" (60 * second) 130)].

Lemma ex_bill_ok : Forall (event_ok DefaultRates) ex_bill.
Proof. repeat (apply Forall_cons_2; [cbn [event_ok]; by_eval|]). apply Forall_nil_2. Qed.

(** Two windows of 0.5 and 2.6 cents, one of them replayed, then a third. *)
Lemma settlement_exact_witness :
  let '(l', a) := foldl (bill_step DefaultRates "acme") (NewMemCreditLedger, new_account) ex_bill in
  let m := lview l' in
  a_used a = 1000 * a_billed a + mem_Remainder "acme" m ∧ -500 ≤ mem_Remainder "acme" m < 500 ∧
  a_billed a = a_debited a + a_overage a ∧
  mem_Balance "acme" m = a_granted a - a_debited a ∧ 0 ≤ mem_Balance "acme" m ∧ 0 ≤ a_overage a.
Proof.
  assert (offered ex_bill ≤ 2 ^ 62) as Ho by by_eval.
  exact (settlement_exact DefaultRates "acme" ex_bill NewMemCreditLedger eq_refl ex_bill_ok Ho).
Defined.

Lemma window_settles_once_witness :
  NoDup (a_settled (foldl (bill_step DefaultRates "acme") (NewMemCreditLedger, new_account) ex_bill).2).
Proof. apply (window_settles_once DefaultRates "acme" ex_bill). vm_compute. reflexivity. Defined.

Definition ex_settled : MemCreditLedger :=
  (Drawdown DefaultRates 30 (ex_record "s2" 0 260) (GrantSignupCredit "acme" 2 5 NewMemCreditLedger).2).2.

Definition ex_granted : MemCreditLedger := (GrantSignupCredit "acme" 2 5 NewMemCreditLedger).2.

Definition ex_result : DrawdownResult :=
  {| dr_Cost := 3; dr_FromCredit := 2; dr_Remaining := 1; dr_CarriedMilliCents := -400;
     dr_Replayed := false |}.

Lemma ex_granted_seen : keys_seen ex_granted.
Proof.
  assert (l_byOrg ex_granted = {["acme" := entries_of "acme" ex_granted]}) as Hby
    by (vm_compute; reflexivity).
  intros org e He Hk. unfold entries_of in He. rewrite Hby in He.
  destruct (decide (org = "acme")) as [->|Hne].
  - rewrite lookup_singleton_eq in He. apply list_elem_of_singleton in He as ->. by_eval.
  - rewrite lookup_singleton_ne in He by done. by apply not_elem_of_nil in He.
Qed.

Lemma replay_moves_nothing_witness :
  let '(r2, l2) := Drawdown DefaultRates 99 (ex_record "s2" 0 260) ex_settled in
  lview l2 = lview ex_settled ∧
  match r2 with
  | Ok res2 => dr_Replayed res2 = true ∧ dr_FromCredit res2 = dr_FromCredit ex_result ∧
               dr_Cost res2 = dr_FromCredit ex_result ∧ dr_Remaining res2 = 0
  | Err _ => True
  end.
Proof.
  assert (seen_key "acme" (usageKey (ex_record "s2" 0 260)) ∉ l_seenKey ex_granted) as Hnew by by_eval.
  assert (CostMilliCents DefaultRates (ex_record "s2" 0 260) ≠ 0) as Hc by by_eval.
  assert (Drawdown DefaultRates 30 (ex_record "s2" 0 260) ex_granted = (Ok ex_result, ex_settled)) as Hd
    by (vm_compute; reflexivity).
  exact (replay_moves_nothing DefaultRates 30 99 (ex_record "s2" 0 260) ex_granted ex_settled ex_result
    ex_granted_seen Hnew Hc Hd eq_refl).
Defined.

(** The carried remainder reaches minus half a cent: half a cent of usage settles a cent. *)
Example carry_minus_half :
  mem_Remainder "acme" (Drawdown DefaultRates 10 (ex_record "s1" 0 50) NewMemCreditLedger).2 = -500.
Proof. vm_compute. reflexivity. Qed.

End BillingTheorems.
