(* ===== verification/SpendCapTheorems.v ===== *)
(** * Spend caps: theorems

    The spend cap is enforced on the prepaid credit spent in the period and stops the
    organization at the front door: billing, the kill switch and the quotas together. *)

From S2P Require Import Prelude GoFloat Json GoTime Scheduler Suspension Quota QuotaTheorems.
From S2P Require Import Billing BillingTheorems.
Import GoFloat GoTime Suspension Quota QuotaTheorems Billing.

Module SpendCapTheorems.

(** ** The spend of the period *)

(** A top-up of the current month. *)
Definition topped_up (periodStart : Z) (e : LedgerEntry) : Prop :=
  e_Kind e = KindTopUp ∧ 0 < e_Amount e ∧ periodStart ≤ e_At e.

(** A debit of the month for usage, not before any of the month's top-ups. *)
Definition counts (periodStart : Z) (entries : list LedgerEntry) (e : LedgerEntry) : Prop :=
  e_Kind e = KindUsageDrawdown ∧ e_Amount e < 0 ∧ periodStart ≤ e_At e ∧
  Forall (λ t, topped_up periodStart t → e_At t ≤ e_At e) entries.

#[global] Instance topped_up_dec p e : Decision (topped_up p e).
Proof. unfold topped_up. apply _. Defined.
#[global] Instance counts_dec p es e : Decision (counts p es e).
Proof. unfold counts. apply _. Defined.

Definition debit_total (es : list LedgerEntry) : Z := foldr (λ e n, n - e_Amount e) 0 es.

Definition period_spend (now : Z) (entries : list LedgerEntry) : Z :=
  debit_total (filter (counts (month_start now) entries) entries).

(** ** The two loops *)

Lemma spend_window_spec p es :
  p ≤ spend_window p es ∧
  (spend_window p es = p ∨ ∃ t, t ∈ es ∧ topped_up p t ∧ spend_window p es = e_At t) ∧
  Forall (λ t, topped_up p t → e_At t ≤ spend_window p es) es.
Proof.
  unfold spend_window. induction es as [|e es IH] using rev_ind; [simpl; split_and!; auto; lia|].
  rewrite foldl_app. simpl. set (w := foldl _ p es) in *. destruct IH as (Hp & Hw & Hall).
  destruct (bool_decide (e_Kind e = KindTopUp) && (0 <? e_Amount e) && (p <=? e_At e)) eqn:Ht; simpl.
  - rewrite !andb_true_iff, bool_decide_eq_true, Z.ltb_lt, Z.leb_le in Ht.
    destruct Ht as [[Hk Ha] Hat]. destruct (w <? e_At e) eqn:Hlt.
    + apply Z.ltb_lt in Hlt. split_and!; [lia|right; exists e; unfold topped_up; set_solver|].
      apply Forall_app_2; [|repeat constructor; lia].
      eapply Forall_impl; [exact Hall|]. intros t H1 H2. specialize (H1 H2). lia.
    + apply Z.ltb_ge in Hlt. split_and!; [lia|set_solver|].
      apply Forall_app_2; [done|repeat constructor; lia].
  - split_and!; [lia|set_solver|]. apply Forall_app_2; [done|]. repeat constructor.
    intros (Hk & Ha & Hat). exfalso. rewrite <- not_true_iff_false in Ht. apply Ht.
    rewrite !andb_true_iff, bool_decide_eq_true, Z.ltb_lt, Z.leb_le. done.
Qed.

(** The window of the code is the window of the specification. *)
Lemma window_counts p es e :
  counts p es e ↔ e_Kind e = KindUsageDrawdown ∧ e_Amount e < 0 ∧ spend_window p es ≤ e_At e.
Proof.
  destruct (spend_window_spec p es) as (Hp & Hw & Hall). unfold counts. split.
  - intros (Hk & Ha & Hat & Hf). split_and!; [done..|].
    destruct Hw as [->|(t & Ht & Htu & ->)]; [done|]. by apply (proj1 (Forall_forall _ _) Hf).
  - intros (Hk & Ha & Hat). split_and!; [done|done|lia|].
    eapply Forall_impl; [exact Hall|]. intros t H1 H2. specialize (H1 H2). lia.
Qed.

Lemma debit_total_app es es' : debit_total (es ++ es') = debit_total es + debit_total es'.
Proof. induction es; simpl; lia. Qed.

Lemma debit_total_nonneg es : Forall (λ e, e_Amount e < 0) es → 0 ≤ debit_total es.
Proof. induction 1; simpl; lia. Qed.

(** The sum is exact when it fits the machine's integers. *)
Lemma spend_since_spec w es :
  let es' := filter (λ e, e_Kind e = KindUsageDrawdown ∧ e_Amount e < 0 ∧ w ≤ e_At e) es in
  debit_total es' ≤ max_int64 → spend_since w es = debit_total es'.
Proof.
  unfold spend_since. induction es as [|e es IH] using rev_ind; [done|]. cbv zeta in *.
  rewrite foldl_app, filter_app, debit_total_app. simpl.
  assert (0 ≤ debit_total (filter (λ e, e_Kind e = KindUsageDrawdown ∧ e_Amount e < 0 ∧ w ≤ e_At e) es))
    as Hnn. { apply debit_total_nonneg, Forall_forall. intros x. rewrite list_elem_of_filter. tauto. }
  destruct (decide (e_Kind e = KindUsageDrawdown ∧ e_Amount e < 0 ∧ w ≤ e_At e)) as [H|H].
  - rewrite filter_cons_True, filter_nil by done. simpl. intros Hm. destruct H as (Hk & Ha & Hat).
    rewrite IH by lia. rewrite bool_decide_eq_true_2, (proj2 (Z.ltb_lt _ _)), (proj2 (Z.leb_le _ _)) by done.
    simpl. unfold max_int64 in Hm. rewrite (int64_id (- _)) by (unfold is_int64, min_int64, max_int64; lia).
    rewrite int64_id by (unfold is_int64, min_int64, max_int64; lia). lia.
  - rewrite filter_cons_False, filter_nil by done. simpl. intros Hm. rewrite IH by lia.
    destruct (_ && _) eqn:E; [|lia]. exfalso. apply H.
    rewrite !andb_true_iff, bool_decide_eq_true, Z.ltb_lt, Z.leb_le in E. tauto.
Qed.

(** Reading the entries of the month only makes no difference. *)
Lemma month_entries p es :
  filter (counts p (filter (λ e, p ≤ e_At e) es)) (filter (λ e, p ≤ e_At e) es) = filter (counts p es) es.
Proof.
  rewrite list_filter_filter. apply list_filter_iff. intros e. unfold counts, topped_up.
  rewrite !Forall_forall. setoid_rewrite list_elem_of_filter. naive_solver.
Qed.

Lemma spend_exact now es :
  period_spend now es ≤ max_int64 →
  let es' := filter (λ e, month_start now ≤ e_At e) es in
  spend_since (spend_window (month_start now) es') es' = period_spend now es.
Proof.
  cbv zeta. unfold period_spend. rewrite <- month_entries. set (es' := filter (λ e, _ ≤ e_At e) es).
  intros Hm. rewrite (list_filter_iff (counts (month_start now) es')
    (λ e, e_Kind e = KindUsageDrawdown ∧ e_Amount e < 0 ∧ spend_window (month_start now) es' ≤ e_At e))
    in Hm |- * by apply window_counts.
  by apply spend_since_spec.
Qed.

(** ** Enforcement *)

Section enforce.
Context {L S A : Type}.
Context `{!CreditLedger L, !LawfulLedger L, !SuspensionStore S, !LawfulStore S, !AlertSink A}.
Abbreviation service := (Service L (gmap string SpendCap) (gmap string BillingStatus) S A) (only parsing).

(** What enforcing a cap at a spend leaves behind. *)
Definition enforced (cap : SpendCap) (spend : Z) (now : Z) (org : string) (x : S) (s : service)
    (b : bool) (err : option string) (s' : service) : Prop :=
  let breached := 0 < cap_HardCap cap ∧ cap_HardCap cap ≤ spend in
  lview (sv_ledger s') = lview (sv_ledger s) ∧ sv_caps s' = sv_caps s ∧
  ∃ x', sv_suspend s' = Some x' ∧ store_ok x' ∧
  match b, err with
  | true, Some _ => False
  | true, None =>
      breached ∧ sv_status s' = <[org := StatusSuspended]> (sv_status s) ∧
      (∃ sus, view x' !! org = Some sus ∧ s_Reason sus = ReasonSpendCap) ∧
      delete org (view x') = delete org (view x) ∧
      ∀ clock req (e : Enforcer S), en_sus e = Some x' → (Check_ clock org req e).1 ≠ Ok tt
  | false, None => ¬ breached ∧ sv_status s' = sv_status s ∧ view x' = view x
  | false, Some _ => sv_status s' = sv_status s ∧ view x' = view x
  end.

Lemma suspended_at_the_door clock org req (e : Enforcer S) x sus :
  store_ok x → view x !! org = Some sus → en_sus e = Some x → (Check_ clock org req e).1 ≠ Ok tt.
Proof.
  intros Hok Hv He. unfold Check_. rewrite He.
  by destruct (checkSuspended_denies (clock 0%nat) org x sus Hok Hv) as (err & x' & -> & _).
Qed.

Lemma EnforceSpendCap_enforced now org spend (s : service) x cap :
  sv_suspend s = Some x → store_ok x → sv_caps s !! org = Some cap →
  let '(b, err, s') := EnforceSpendCap now org spend s in enforced cap spend now org x s b err s'.
Proof.
  intros Hx Hok Hcap. unfold EnforceSpendCap. simpl caps_Get. rewrite Hcap.
  destruct ((0 <? cap_HardCap cap) && (cap_HardCap cap <=? spend)) eqn:Hb.
  - rewrite andb_true_iff, Z.ltb_lt, Z.leb_le in Hb.
    unfold try_suspend. rewrite Hx. cbv zeta. unfold billing_Suspend, ks_Suspend.
    match goal with |- context [store_Suspend now ?a x] =>
      set (sus := a); pose proof (suspend_law now sus x Hok) as Hl end.
    destruct (store_Suspend now sus x) as [[[]|msg] x'] eqn:E; destruct Hl as [Hok' Hv']; simpl.
    + unfold enforced. simpl. split_and!; [done..|]. exists x'. rewrite Hv'.
      assert (suspend_in sus (view x) !! org =
        Some {| s_OrgID := org; s_Reason := ReasonSpendCap; s_Note := s_Note sus;
                s_At := match view x !! org with Some prev => s_At prev | None => now end;
                s_ManualHold := false |}) as Hs by apply lookup_insert_eq.
      split_and!; [tauto..|eexists; split; [exact Hs|done]|apply delete_insert_eq|].
      intros clock req e. rewrite <- Hv' in Hs. by eapply suspended_at_the_door.
    + unfold enforced. simpl. split_and!; [done..|]. by exists x'.
  - assert (¬ (0 < cap_HardCap cap ∧ cap_HardCap cap ≤ spend)) as Hn.
    { intros [??]. rewrite (proj2 (Z.ltb_lt _ _)), (proj2 (Z.leb_le _ _)) in Hb by done. done. }
    assert (∀ s' : service, sv_ledger s' = sv_ledger s → sv_caps s' = sv_caps s →
      sv_status s' = sv_status s → sv_suspend s' = sv_suspend s → ∀ err,
      enforced cap spend now org x s false err s') as Hsame.
    { intros s' H1 H2 H3 H4 err. unfold enforced. rewrite H1, H2, H3, H4.
      split_and!; [done..|]. exists x. by destruct err. }
    repeat case_match; simplify_eq; by apply Hsame.
Qed.

(** C24: the hard spend cap is enforced on the prepaid spend of the period.  Over any lawful
    ledger and any lawful store of suspensions, with the caps and the status in memory and
    an organization's cap on record, [EnforceSpendCapFromLedger] reports a suspension only
    when the cap is positive and at most the debits of credit for usage since the later of
    the month's start and the month's last top-up, summed exactly (usage that exceeds the
    credit is not debited, and not in the sum); it then has recorded the suspension for the
    cap, touched no other organization and moved no money, and a quota enforcer that reads
    the store it was recorded in refuses every request of the organization (one that reads a
    cache of its own may be three seconds behind).  When it reports no suspension and no
    error the cap is not reached and nothing has changed, and an error leaves the
    organization as it was. *)
Theorem spend_cap_enforced now org (s : service) x cap :
  sv_suspend s = Some x → store_ok x → sv_caps s !! org = Some cap →
  period_spend now (entries_of org (lview (sv_ledger s))) ≤ max_int64 →
  let '(b, err, s') := EnforceSpendCapFromLedger now org s in
  enforced cap (period_spend now (entries_of org (lview (sv_ledger s)))) now org x s b err s'.
Proof.
  intros Hx Hok Hcap Hm. unfold EnforceSpendCapFromLedger. simpl caps_Get. rewrite Hcap.
  set (spend := period_spend _ _) in *.
  destruct ((cap_HardCap cap <=? 0) && (cap_SoftCap cap <=? 0)) eqn:Hz.
  - rewrite andb_true_iff, !Z.leb_le in Hz. unfold enforced. split_and!; [done..|].
    exists x. split_and!; [done|done|lia|done|done].
  - pose proof (entries_since_law org (month_start now) (sv_ledger s)) as Hl.
    destruct (EntriesSince org (month_start now) (sv_ledger s)) as [[es|msg] l]; destruct Hl as [Hv He].
    + subst es. unfold mem_EntriesSince. rewrite spend_exact by done. fold spend.
      pose proof (EnforceSpendCap_enforced now org spend (with_ledger l s) x cap Hx Hok Hcap) as Hf.
      destruct (EnforceSpendCap now org spend (with_ledger l s)) as [[b err] s'].
      unfold enforced in *. simpl in Hf. by rewrite Hv in Hf.
    + unfold enforced. simpl. split_and!; [done..|]. by exists x.
Qed.

End enforce.

(** ** A concrete input *)

(** Debits of 40 and 35 cents in January, a top-up between them. *)
Definition ex_entry (kind : string) (amount at_ : Z) : LedgerEntry :=
  {| e_OrgID := "acme"; e_Kind := kind; e_Amount := amount; e_Key := ""; e_At := at_; e_Note := "" |}.

Definition ex_ledger : MemCreditLedger :=
  foldl (λ l e, (mem_Append e l).2) NewMemCreditLedger
    [ex_entry KindSignupCredit 500 1; ex_entry KindUsageDrawdown (-40) 2; ex_entry KindTopUp 100 3;
     ex_entry KindUsageDrawdown (-35) 4].

Definition ex_service : Service MemCreditLedger (gmap string SpendCap) (gmap string BillingStatus)
    MemSuspensionStore (list BudgetAlertEvent) :=
  {| sv_ledger := ex_ledger;
     sv_caps := {["acme" := {| cap_OrgID := "acme"; cap_SoftCap := 10; cap_HardCap := 35 |}]};
     sv_status := ∅; sv_suspend := Some NewMemSuspensionStore; sv_alerts := Some [] |}.

Lemma spend_cap_enforced_witness :
  let '(b, err, s') := EnforceSpendCapFromLedger 5 "acme" ex_service in
  enforced {| cap_OrgID := "acme"; cap_SoftCap := 10; cap_HardCap := 35 |}
    (period_spend 5 (entries_of "acme" (lview (sv_ledger ex_service)))) 5 "acme" NewMemSuspensionStore
    ex_service b err s'.
Proof.
  assert (period_spend 5 (entries_of "acme" (lview (sv_ledger ex_service))) ≤ max_int64) as Hm.
  { by_eval. }
  assert (sv_caps ex_service !! "acme" = Some {| cap_OrgID := "acme"; cap_SoftCap := 10; cap_HardCap := 35 |})
    as Hc by (vm_compute; reflexivity).
  exact (spend_cap_enforced 5 "acme" ex_service NewMemSuspensionStore _ eq_refl I Hc Hm).
Defined.

Example ex_spend : period_spend 5 (entries_of "acme" ex_ledger) = 35.
Proof. vm_compute. reflexivity. Qed.

End SpendCapTheorems.
