(* ===== verification/CapToken.v ===== *)
(** * internal/captoken: attenuated capability tokens

    captoken.go.  A token is a chain of claims, each with a tag that is a MAC of the
    claims under the previous tag, the first under the signer's key.  HMAC-SHA256, the
    JSON encoding and unpadded URL base64 are those of the standard library.  A nil
    signer is [None]; the errors are the ones of the code, without their texts. *)

From Stdlib Require Import Ascii.
From S2P Require Import Prelude Sha256 Json Base64.
Import Sha256 Json.

Module CapToken.

(** ** Budgets and scopes *)

Definition Scope : Type := string.

Definition ScopeExec : Scope := "exec".
Definition ScopeFiles : Scope := "files".
Definition ScopeFork : Scope := "fork".
Definition ScopeCheckpoint : Scope := "checkpoint".
Definition ScopeExtend : Scope := "extend".
Definition ScopeNetwork : Scope := "network".

Record Budget := {
  MaxForks : Z;
  MaxCheckpoints : Z;
  MaxCpuSeconds : Z;
  MaxLifetimeExtension : Z;
  MaxEgressBytes : Z;
}.

Record BudgetSpend := {
  Forks : Z;
  Checkpoints : Z;
  CpuSeconds : Z;
  LifetimeExtension : Z;
  EgressBytes : Z;
}.

Definition subFloor (a b : Z) : Z := if a <=? b then 0 else int64 (a - b).
Definition min64 (a b : Z) : Z := if a <? b then a else b.

Definition Remaining (b : Budget) (spend : BudgetSpend) : Budget :=
  {| MaxForks := subFloor (MaxForks b) (Forks spend);
     MaxCheckpoints := subFloor (MaxCheckpoints b) (Checkpoints spend);
     MaxCpuSeconds := subFloor (MaxCpuSeconds b) (CpuSeconds spend);
     MaxLifetimeExtension := subFloor (MaxLifetimeExtension b) (LifetimeExtension spend);
     MaxEgressBytes := subFloor (MaxEgressBytes b) (EgressBytes spend) |}.

Definition Intersect (b other : Budget) : Budget :=
  {| MaxForks := min64 (MaxForks b) (MaxForks other);
     MaxCheckpoints := min64 (MaxCheckpoints b) (MaxCheckpoints other);
     MaxCpuSeconds := min64 (MaxCpuSeconds b) (MaxCpuSeconds other);
     MaxLifetimeExtension := min64 (MaxLifetimeExtension b) (MaxLifetimeExtension other);
     MaxEgressBytes := min64 (MaxEgressBytes b) (MaxEgressBytes other) |}.

Definition fitsWithin (b parent : Budget) : bool :=
  (MaxForks b <=? MaxForks parent) && (MaxCheckpoints b <=? MaxCheckpoints parent) &&
  (MaxCpuSeconds b <=? MaxCpuSeconds parent) && (MaxLifetimeExtension b <=? MaxLifetimeExtension parent) &&
  (MaxEgressBytes b <=? MaxEgressBytes parent).

(** ** Tokens *)

Record claims := { c_SandboxID : string; c_Budget : Budget; c_Scopes : list Scope }.

Definition hasScope (c : claims) (sc : Scope) : bool := existsb (λ s, bool_decide (s = sc)) (c_Scopes c).

Record Token := { links : list claims; tags : list string }.

Definition zero_budget : Budget :=
  {| MaxForks := 0; MaxCheckpoints := 0; MaxCpuSeconds := 0; MaxLifetimeExtension := 0; MaxEgressBytes := 0 |}.

Definition token_SandboxID (t : Token) : string := from_option c_SandboxID "" (last (links t)).
Definition token_Budget (t : Token) : Budget := from_option c_Budget zero_budget (last (links t)).
Definition token_Scopes (t : Token) : list Scope := from_option c_Scopes [] (last (links t)).
Definition HasScope (t : Token) (sc : Scope) : bool := from_option (λ c, hasScope c sc) false (last (links t)).
Definition Depth (t : Token) : Z := Z.of_nat (length (links t)).

Inductive cap_error :=
| ErrKeyLen | ErrNilSigner | ErrEmptySandbox | ErrUnsealed | ErrMalformed | ErrRootTag
| ErrLinkTag (i : nat) | ErrWidensBudget (i : nat) | ErrWidensScope (i : nat) (sc : Scope) | ErrReparents (i : nat)
| ErrBase64 | ErrJSON | ErrChain | ErrTagBase64.

Record Signer := { key : string }.

Definition minKeyLen : Z := 16.

Definition NewSigner (k : string) : result cap_error Signer :=
  if Z.of_nat (String.length k) <? minKeyLen then Err ErrKeyLen else Ok {| key := k |}.

Section tokens.
Context `{!SliceSort}.

(** Each scope once, then in order. *)
Definition dedupe_scopes (scopes : list Scope) : list Scope :=
  (foldl (λ '(seen, out) s, if bool_decide (s ∈ seen) then (seen, out) else ({[s]} ∪ seen, out ++ [s]))
    ((∅ : gset string), []) scopes).2.

Definition canonicalize (scopes : list Scope) : list Scope := sort_slice str_ltb (dedupe_scopes scopes).

Definition budget_json (b : Budget) : json :=
  JObj [("maxForks", JNum (fmt_int (MaxForks b))); ("maxCheckpoints", JNum (fmt_int (MaxCheckpoints b)));
        ("maxCpuSeconds", JNum (fmt_int (MaxCpuSeconds b)));
        ("maxLifetimeExtension", JNum (fmt_int (MaxLifetimeExtension b)));
        ("maxEgressBytes", JNum (fmt_int (MaxEgressBytes b)))].

Definition claims_json (c : claims) : json :=
  JObj [("sandboxID", JStr (c_SandboxID c)); ("budget", budget_json (c_Budget c));
        ("scopes", JArr (JStr <$> c_Scopes c))].

Definition canonical_claims (c : claims) : claims :=
  {| c_SandboxID := c_SandboxID c; c_Budget := c_Budget c; c_Scopes := canonicalize (c_Scopes c) |}.

(** Marshalling strings and integers does not fail. *)
Definition encodeClaims (c : claims) : string := render (claims_json (canonical_claims c)).

Definition root_label : string := "captoken-root-v1" +:+ String "000" "".
Definition link_label : string := "captoken-link-v1" +:+ String "000" "".

Definition rootTag (s : Signer) (c : claims) : string := hmac_sha256 (key s) (root_label +:+ encodeClaims c).
Definition linkTag (parentTag : string) (c : claims) : string :=
  hmac_sha256 parentTag (link_label +:+ encodeClaims c).

Definition Mint (s : option Signer) (sandboxID : string) (budget : Budget) (scopes : list Scope) :
    result cap_error Token :=
  match s with
  | None => Err ErrNilSigner
  | Some s =>
      if bool_decide (sandboxID = "") then Err ErrEmptySandbox
      else
        let root := {| c_SandboxID := sandboxID; c_Budget := budget; c_Scopes := canonicalize scopes |} in
        Ok {| links := [root]; tags := [rootTag s root] |}
  end.

Definition intersectScopes (parent requested : list Scope) : list Scope :=
  canonicalize (filter (λ s, s ∈ requested) parent).

Definition Attenuate (s : option Signer) (parent : Token) (requested : Budget) (requestedScopes : list Scope) :
    result cap_error Token :=
  match s with
  | None => Err ErrNilSigner
  | Some _ =>
      match last (links parent), last (tags parent) with
      | Some parentClaims, Some parentTag =>
          let child := {| c_SandboxID := c_SandboxID parentClaims;
                          c_Budget := Intersect (c_Budget parentClaims) requested;
                          c_Scopes := intersectScopes (c_Scopes parentClaims) requestedScopes |} in
          Ok {| links := links parent ++ [child]; tags := tags parent ++ [linkTag parentTag child] |}
      | _, _ => Err ErrUnsealed
      end
  end.

(** The first scope of the child that the parent lacks. *)
Definition widened_scope (parent child : claims) : option Scope :=
  snd <$> list_find (λ sc, hasScope parent sc = false) (c_Scopes child).

(** The loop over the links after the first: the previous link and its tag, the next. *)
Fixpoint verify_links (i : nat) (parent : claims) (parentTag : string) (ls : list claims) (ts : list string) :
    result cap_error unit :=
  match ls, ts with
  | child :: ls', tag :: ts' =>
      if negb (bool_decide (tag = linkTag parentTag child)) then Err (ErrLinkTag i)
      else if negb (fitsWithin (c_Budget child) (c_Budget parent)) then Err (ErrWidensBudget i)
      else match widened_scope parent child with
           | Some sc => Err (ErrWidensScope i sc)
           | None =>
               if negb (bool_decide (c_SandboxID child = c_SandboxID parent)) then Err (ErrReparents i)
               else verify_links (S i) child tag ls' ts'
           end
  | _, _ => Ok tt
  end.

Definition Verify (s : option Signer) (t : Token) : result cap_error unit :=
  match s with
  | None => Err ErrNilSigner
  | Some s =>
      match links t, tags t with
      | root :: ls, tag :: ts =>
          if negb (bool_decide (length ts = length ls)) then Err ErrMalformed
          else if negb (bool_decide (tag = rootTag s root)) then Err ErrRootTag
          else verify_links 1 root tag ls ts
      | _, _ => Err ErrMalformed
      end
  end.

(** The tags of a chain after the first. *)
Fixpoint reseal_links (parentTag : string) (ls : list claims) : list string :=
  match ls with
  | [] => []
  | c :: ls' => let tag := linkTag parentTag c in tag :: reseal_links tag ls'
  end.

Definition reseal (s : Signer) (t : Token) : result cap_error Token :=
  match canonical_claims <$> links t with
  | [] => Err ErrUnsealed
  | root :: ls =>
      let tag := rootTag s root in
      Ok {| links := root :: ls; tags := tag :: reseal_links tag ls |}
  end.

(** ** The wire form *)

Definition wire_json (t : Token) : json :=
  JObj [("l", JArr (claims_json <$> links t)); ("h", JArr (JStr <$> (Base64.EncodeToString <$> tags t)))].

Definition Serialize (t : Token) : result cap_error string :=
  if bool_decide (links t = []) || negb (bool_decide (length (tags t) = length (links t))) then Err ErrUnsealed
  else Ok (Base64.EncodeToString (render (wire_json t))).

Definition set_budget (n : string) (v : json) (b : Budget) : option Budget :=
  if bool_decide (n = "maxForks") then
    x ← into_int64 (MaxForks b) v;
    Some {| MaxForks := x; MaxCheckpoints := MaxCheckpoints b; MaxCpuSeconds := MaxCpuSeconds b;
            MaxLifetimeExtension := MaxLifetimeExtension b; MaxEgressBytes := MaxEgressBytes b |}
  else if bool_decide (n = "maxCheckpoints") then
    x ← into_int64 (MaxCheckpoints b) v;
    Some {| MaxForks := MaxForks b; MaxCheckpoints := x; MaxCpuSeconds := MaxCpuSeconds b;
            MaxLifetimeExtension := MaxLifetimeExtension b; MaxEgressBytes := MaxEgressBytes b |}
  else if bool_decide (n = "maxCpuSeconds") then
    x ← into_int64 (MaxCpuSeconds b) v;
    Some {| MaxForks := MaxForks b; MaxCheckpoints := MaxCheckpoints b; MaxCpuSeconds := x;
            MaxLifetimeExtension := MaxLifetimeExtension b; MaxEgressBytes := MaxEgressBytes b |}
  else if bool_decide (n = "maxLifetimeExtension") then
    x ← into_int64 (MaxLifetimeExtension b) v;
    Some {| MaxForks := MaxForks b; MaxCheckpoints := MaxCheckpoints b; MaxCpuSeconds := MaxCpuSeconds b;
            MaxLifetimeExtension := x; MaxEgressBytes := MaxEgressBytes b |}
  else
    x ← into_int64 (MaxEgressBytes b) v;
    Some {| MaxForks := MaxForks b; MaxCheckpoints := MaxCheckpoints b; MaxCpuSeconds := MaxCpuSeconds b;
            MaxLifetimeExtension := MaxLifetimeExtension b; MaxEgressBytes := x |}.

Definition budget_fields : list string :=
  ["maxForks"; "maxCheckpoints"; "maxCpuSeconds"; "maxLifetimeExtension"; "maxEgressBytes"].

Definition set_claims (n : string) (v : json) (c : claims) : option claims :=
  if bool_decide (n = "sandboxID") then
    x ← into_string (c_SandboxID c) v;
    Some {| c_SandboxID := x; c_Budget := c_Budget c; c_Scopes := c_Scopes c |}
  else if bool_decide (n = "budget") then
    x ← into_struct budget_fields set_budget (c_Budget c) v;
    Some {| c_SandboxID := c_SandboxID c; c_Budget := x; c_Scopes := c_Scopes c |}
  else
    x ← into_list (into_string "") (c_Scopes c) v;
    Some {| c_SandboxID := c_SandboxID c; c_Budget := c_Budget c; c_Scopes := x |}.

Definition claims_fields : list string := ["sandboxID"; "budget"; "scopes"].

Definition zero_claims : claims := {| c_SandboxID := ""; c_Budget := zero_budget; c_Scopes := [] |}.

Definition wireToken : Type := list claims * list string.

Definition set_wire (n : string) (v : json) (w : wireToken) : option wireToken :=
  if bool_decide (n = "l") then
    x ← into_list (into_struct claims_fields set_claims zero_claims) w.1 v; Some (x, w.2)
  else x ← into_list (into_string "") w.2 v; Some (w.1, x).

Definition Parse (encoded : string) : result cap_error Token :=
  match Base64.DecodeString encoded with
  | None => Err ErrBase64
  | Some raw =>
      match v ← parse raw; into_struct ["l"; "h"] set_wire ([], []) v with
      | None => Err ErrJSON
      | Some (ls, hs) =>
          if bool_decide (ls = []) || negb (bool_decide (length hs = length ls)) then Err ErrChain
          else match mapM Base64.DecodeString hs with
               | None => Err ErrTagBase64
               | Some ts => Ok {| links := canonical_claims <$> ls; tags := ts |}
               end
      end
  end.

End tokens.

End CapToken.
