(* ===== verification/CapTokenTheorems.v ===== *)
(** * Capability tokens: theorems

    Verification accepts only chains that never widen, and accepts every token that
    was minted and attenuated, also after a trip over the wire; the tags bind the
    claims.  Attenuation can be undone by whoever holds the attenuated token. *)

From Stdlib Require Import Ascii.
From S2P Require Import Prelude Sha256 Json Base64 CapToken.
Import Sha256 Json CapToken.

Module CapTokenTheorems.

#[local] Arguments rootTag : simpl never.
#[local] Arguments linkTag : simpl never.
#[local] Arguments encodeClaims : simpl never.
#[local] Arguments hmac_sha256 : simpl never.
#[local] Opaque hmac_sha256.

(** ** Scopes *)

Lemma dedupe_scopes_spec l : NoDup (dedupe_scopes l) ∧ ∀ s, s ∈ dedupe_scopes l ↔ s ∈ l.
Proof.
  unfold dedupe_scopes. set (f := λ '(seen, out) s, _).
  assert ((foldl f (∅ : gset string, []) l).1 = list_to_set l ∧ NoDup (foldl f (∅ : gset string, []) l).2 ∧
    ∀ s, s ∈ (foldl f (∅ : gset string, []) l).2 ↔ s ∈ l) as (_ & H); [|exact H].
  induction l as [|x l IH] using rev_ind; [split_and!; [done|constructor|done]|].
  rewrite foldl_app. cbn [foldl]. destruct (foldl f (∅, []) l) as [seen out]. simpl in IH.
  destruct IH as (-> & Hnd & Hel). unfold f. case_bool_decide as Hx; rewrite elem_of_list_to_set in Hx; simpl.
  - split_and!; [set_solver|done|set_solver].
  - split_and!; [set_solver| |set_solver]. apply NoDup_app. split_and!; [done|set_solver|apply NoDup_singleton].
Qed.

Section scopes.
Context `{!SliceSort}.

Lemma canonicalize_elem l s : s ∈ canonicalize l ↔ s ∈ l.
Proof. unfold canonicalize. rewrite sort_slice_perm. apply dedupe_scopes_spec. Qed.

(** Equal as sets is equal once canonical. *)
Lemma canonicalize_ext l1 l2 : (∀ s, s ∈ l1 ↔ s ∈ l2) → canonicalize l1 = canonicalize l2.
Proof.
  intros Hel. apply (sorted_ext str_ltb).
  - apply sort_slice_sorted, _.
  - apply sort_slice_sorted, _.
  - unfold canonicalize. rewrite sort_slice_perm. apply dedupe_scopes_spec.
  - unfold canonicalize. rewrite sort_slice_perm. apply dedupe_scopes_spec.
  - intros x y _ _. apply str_ltb_tie.
  - intros s. by rewrite !canonicalize_elem, Hel.
Qed.

Lemma canonicalize_idemp l : canonicalize (canonicalize l) = canonicalize l.
Proof. apply canonicalize_ext. intros s. apply canonicalize_elem. Qed.

End scopes.

Lemma hasScope_elem c sc : hasScope c sc = true ↔ sc ∈ c_Scopes c.
Proof.
  unfold hasScope. rewrite existsb_exists. setoid_rewrite bool_decide_eq_true.
  setoid_rewrite <- list_elem_of_In. naive_solver.
Qed.

(** ** Narrowing *)

(** The child has no more of any budget, no further scope and the same sandbox. *)
Definition narrows (child parent : claims) : Prop :=
  fitsWithin (c_Budget child) (c_Budget parent) = true ∧
  (∀ sc, hasScope child sc = true → hasScope parent sc = true) ∧ c_SandboxID child = c_SandboxID parent.

Lemma fits_spec a b :
  fitsWithin a b = true ↔
  MaxForks a ≤ MaxForks b ∧ MaxCheckpoints a ≤ MaxCheckpoints b ∧ MaxCpuSeconds a ≤ MaxCpuSeconds b ∧
  MaxLifetimeExtension a ≤ MaxLifetimeExtension b ∧ MaxEgressBytes a ≤ MaxEgressBytes b.
Proof. unfold fitsWithin. rewrite !andb_true_iff, !Z.leb_le. tauto. Qed.

#[global] Instance narrows_preorder : PreOrder narrows.
Proof.
  split.
  - intros c. split_and!; [rewrite fits_spec; lia|done|done].
  - intros a b c (Hab & Hs & Hi) (Hbc & Hs' & Hi'). rewrite fits_spec in *.
    split_and!; [rewrite fits_spec; lia|auto|congruence].
Qed.

Lemma Intersect_fits a b : fitsWithin (Intersect a b) a = true ∧ fitsWithin (Intersect a b) b = true.
Proof.
  rewrite !fits_spec. unfold Intersect, min64. simpl.
  repeat match goal with |- context [?x <? ?y] => destruct (Z.ltb_spec x y) end; lia.
Qed.

Lemma widened_scope_none p c :
  widened_scope p c = None ↔ ∀ sc, hasScope c sc = true → hasScope p sc = true.
Proof.
  unfold widened_scope. setoid_rewrite hasScope_elem at 1.
  destruct (list_find _ (c_Scopes c)) as [[i sc]|] eqn:E; simpl.
  - apply list_find_Some in E as (Hi & Hsc & _). split; [done|]. intros H.
    rewrite (H sc) in Hsc; [done|]. by eapply list_elem_of_lookup_2.
  - split; [|done]. intros _ sc Hsc. apply list_find_None in E. rewrite Forall_forall in E.
    specialize (E sc Hsc). by destruct (hasScope p sc).
Qed.

Section tokens.
Context `{!SliceSort}.

(** ** What verification accepts *)

Lemma verify_links_ok i p tag ls ts :
  verify_links i p tag ls ts = Ok tt → length ts = length ls →
  StronglySorted (flip narrows) (p :: ls) ∧ ts = reseal_links tag ls.
Proof.
  revert i p tag ts. induction ls as [|c ls IH]; intros i p tag [|t ts] Hv Hlen; simplify_eq/=.
  { split; [repeat constructor|done]. }
  case_bool_decide as Ht; simplify_eq/=. destruct (fitsWithin (c_Budget c) (c_Budget p)) eqn:Hb; simplify_eq/=.
  destruct (widened_scope p c) eqn:Hs; [done|]. case_bool_decide as Hi; simplify_eq/=.
  destruct (IH _ _ _ _ Hv Hlen) as [Hss ->]. split; [|done]. constructor; [done|].
  assert (narrows c p) as Hn by (split_and!; [done|by apply widened_scope_none|done]).
  apply StronglySorted_inv in Hss as [_ Hall]. constructor; [done|].
  eapply Forall_impl; [exact Hall|]. intros c' Hc'. simpl in *. by etrans.
Qed.

(** A chain sealed by a key. *)
Definition sealed (s : Signer) (root : claims) (ls : list claims) : Token :=
  {| links := root :: ls; tags := rootTag s root :: reseal_links (rootTag s root) ls |}.

Lemma Verify_ok s t :
  Verify (Some s) t = Ok tt ↔
  ∃ root ls, t = sealed s root ls ∧ StronglySorted (flip narrows) (root :: ls).
Proof.
  split.
  - destruct t as [[|root ls] [|tag ts]]; unfold Verify; simpl; try done.
    case_bool_decide as Hlen; simpl; [|done]. case_bool_decide as Ht; simpl; [|done].
    intros Hv. destruct (verify_links_ok _ _ _ _ _ Hv Hlen) as [Hs ->]. exists root, ls. by subst tag.
  - intros (root & ls & -> & Hs). unfold Verify, sealed. cbn [links tags].
    rewrite (bool_decide_eq_true_2 (length _ = _))
      by (generalize (rootTag s root); clear; induction ls; intros tag; simpl; [done|by rewrite IHls]).
    rewrite bool_decide_eq_true_2 by done. cbn [negb]. generalize (rootTag s root) 1%nat.
    revert root Hs. induction ls as [|c ls IH]; intros root Hs tag i; [done|].
    apply StronglySorted_inv in Hs as [Hs Hall]. apply Forall_cons in Hall as [(Hb & Hsc & Hi) _].
    cbn [verify_links reseal_links]. rewrite bool_decide_eq_true_2, Hb by done. cbn [negb].
    rewrite (proj2 (widened_scope_none root c)) by done. rewrite bool_decide_eq_true_2 by done. cbn [negb].
    by apply IH.
Qed.

(** C17: verification accepts only chains that never widen.  In a token that verifies, the
    effective budget fits within that of every link, the root's included, every effective
    scope is one of every link's, the sandbox is the same throughout, and the tags are the
    chain of MACs of the claims that starts from the signer's key. *)
Theorem verify_never_widens s t :
  Verify (Some s) t = Ok tt →
  (∀ i c, links t !! i = Some c →
    fitsWithin (token_Budget t) (c_Budget c) = true ∧
    (∀ sc, HasScope t sc = true → hasScope c sc = true) ∧ token_SandboxID t = c_SandboxID c) ∧
  ∃ root ls, t = sealed s root ls.
Proof.
  intros (root & ls & -> & Hs)%Verify_ok. split; [|eauto]. intros i c Hi. unfold token_Budget, HasScope, token_SandboxID.
  cbn [links sealed] in *.
  assert (∃ e, last (root :: ls) = Some e ∧ narrows e c) as (e & -> & Hn); [|exact Hn].
  clear s. revert root i Hs Hi. induction ls as [|c' ls IH]; intros root i Hs Hi.
  - destruct i; simplify_eq/=. by exists c.
  - apply StronglySorted_inv in Hs as [Hs Hall]. destruct i as [|i].
    + simplify_eq/=. destruct (last (c' :: ls)) as [e|] eqn:He; [|by apply last_None in He].
      exists e. split; [done|]. rewrite Forall_forall in Hall. apply Hall.
      apply last_Some in He as [l' ->]. set_solver.
    + destruct (IH c' i Hs Hi) as (e & He & Hn). by exists e.
Qed.

(** ** What is issued verifies *)

Definition derive (s : Signer) (t : Token) (reqs : list (Budget * list Scope)) : result cap_error Token :=
  foldl (λ r req, let? t := r in Attenuate (Some s) t req.1 req.2) (Ok t) reqs.

(** The child of an attenuation. *)
Definition child_of (p : claims) (req : Budget * list Scope) : claims :=
  {| c_SandboxID := c_SandboxID p; c_Budget := Intersect (c_Budget p) req.1;
     c_Scopes := intersectScopes (c_Scopes p) req.2 |}.

Fixpoint children (p : claims) (reqs : list (Budget * list Scope)) : list claims :=
  match reqs with [] => [] | req :: reqs' => child_of p req :: children (child_of p req) reqs' end.

Lemma child_narrows p req : narrows (child_of p req) p.
Proof.
  split_and!; [apply Intersect_fits| |done]. intros sc. rewrite !hasScope_elem. simpl. unfold intersectScopes.
  rewrite canonicalize_elem, list_elem_of_filter. tauto.
Qed.

Lemma children_narrow p reqs : StronglySorted (flip narrows) (p :: children p reqs).
Proof.
  revert p. induction reqs as [|req reqs IH]; intros p; simpl; [repeat constructor|].
  specialize (IH (child_of p req)). constructor; [done|]. apply StronglySorted_inv in IH as [_ Hall].
  constructor; [apply child_narrows|]. eapply Forall_impl; [exact Hall|]. intros c Hc. simpl in *.
  etrans; [exact Hc|apply child_narrows].
Qed.

Lemma reseal_links_app tag ls ls' :
  reseal_links tag (ls ++ ls') = reseal_links tag ls ++ reseal_links (default tag (last (reseal_links tag ls))) ls'.
Proof.
  revert tag. induction ls as [|c ls IH]; intros tag; [done|]. simpl. f_equal. rewrite IH. f_equal. f_equal.
  destruct (reseal_links (linkTag tag c) ls) as [|x l] eqn:E using rev_ind; [done|].
  by rewrite !last_snoc, app_comm_cons, last_snoc.
Qed.

Lemma attenuate_sealed s root ls req :
  Attenuate (Some s) (sealed s root ls) req.1 req.2 =
  Ok (sealed s root (ls ++ [child_of (default root (last ls)) req])).
Proof.
  unfold Attenuate, sealed. cbn [links tags]. rewrite !last_cons. set (tag := rootTag s root).
  destruct (last ls) as [p|] eqn:El.
  - assert (∃ t, last (reseal_links tag ls) = Some t) as [t Ht].
    { apply last_Some in El as [l' ->]. rewrite reseal_links_app. cbn [reseal_links]. rewrite last_snoc. eauto. }
    rewrite Ht. rewrite reseal_links_app, Ht. done.
  - apply last_None in El as ->. done.
Qed.

Lemma derive_sealed s root reqs :
  derive s (sealed s root []) reqs = Ok (sealed s root (children root reqs)).
Proof.
  unfold derive. assert (∀ p ls, default root (last ls) = p →
    foldl (λ r req, let? t := r in Attenuate (Some s) t req.1 req.2) (Ok (sealed s root ls)) reqs =
    Ok (sealed s root (ls ++ children p reqs))) as Hd; [|by apply (Hd root [])].
  induction reqs as [|req reqs IH]; intros p ls Hp; cbn [foldl rbind children]; [by rewrite app_nil_r|].
  pose proof (attenuate_sealed s root ls req) as Ha. rewrite Hp in Ha. rewrite Ha. cbn [rbind].
  rewrite (IH (child_of p req)); [by rewrite <- app_assoc|]. by rewrite last_snoc.
Qed.

(** ** Over the wire *)

Definition budget_ok (b : Budget) : Prop :=
  is_int64 (MaxForks b) ∧ is_int64 (MaxCheckpoints b) ∧ is_int64 (MaxCpuSeconds b) ∧
  is_int64 (MaxLifetimeExtension b) ∧ is_int64 (MaxEgressBytes b).

(** Claims with ASCII strings, int64 budgets and canonical scopes. *)
Definition claims_ok (c : claims) : Prop :=
  ascii_only (c_SandboxID c) = true ∧ budget_ok (c_Budget c) ∧
  Forall (λ s, ascii_only s = true) (c_Scopes c) ∧ canonicalize (c_Scopes c) = c_Scopes c.

#[global] Instance budget_ok_dec b : Decision (budget_ok b).
Proof. unfold budget_ok. apply _. Defined.

Lemma wf_claims c : claims_ok c → wf (claims_json c).
Proof.
  intros (Hi & Hb & Hs & _). constructor. repeat apply Forall_cons_2; try apply Forall_nil_2; simpl.
  - split; [done|]. by constructor.
  - split; [done|]. constructor. repeat constructor.
  - split; [done|]. constructor. apply Forall_fmap. eapply Forall_impl; [exact Hs|]. intros x Hx. by constructor.
Qed.

Lemma unmarshal_budget b cur :
  budget_ok b → into_struct budget_fields set_budget cur (budget_json b) = Some b.
Proof.
  intros (H1 & H2 & H3 & H4 & H5). unfold into_struct, budget_json. cbn [foldl].
  repeat (progress (closed_fields; cbn [mbind option_bind]; unfold set_budget; closed_fields;
    rewrite ?into_int64_fmt by done; cbn [mbind option_bind])).
  by destruct b.
Qed.

Lemma unmarshal_claims c :
  claims_ok c → into_struct claims_fields set_claims zero_claims (claims_json c) = Some c.
Proof.
  intros (Hi & Hb & Hs & _). unfold into_struct, claims_json. cbn [foldl].
  repeat (progress (closed_fields; cbn [mbind option_bind]; unfold set_claims; closed_fields;
    cbn [into_string mbind option_bind]; rewrite ?unmarshal_budget by done)).
  change (JStr <$> c_Scopes c) with (map JStr (c_Scopes c)).
  rewrite (into_list_map (into_string "") JStr (λ s, s)) by (apply Forall_forall; done).
  rewrite map_id. cbn. by destruct c.
Qed.

(** Tokens whose claims are in that form, sealed. *)
Definition token_ok (t : Token) : Prop :=
  links t ≠ [] ∧ length (tags t) = length (links t) ∧ Forall claims_ok (links t).

Lemma unmarshal_wire t :
  token_ok t →
  into_struct ["l"; "h"] set_wire ([], []) (wire_json t) = Some (links t, Base64.EncodeToString <$> tags t).
Proof.
  intros (_ & _ & Hc). unfold into_struct, wire_json. cbn [foldl].
  closed_fields. cbn [mbind option_bind]. unfold set_wire at 2. closed_fields. cbn [fst snd].
  change (claims_json <$> links t) with (map claims_json (links t)).
  rewrite (into_list_map _ claims_json (λ c, c))
    by (eapply Forall_impl; [exact Hc|]; apply unmarshal_claims).
  rewrite map_id. cbn [mbind option_bind]. unfold set_wire. closed_fields. cbn [fst snd].
  change (JStr <$> (Base64.EncodeToString <$> tags t)) with (map JStr (Base64.EncodeToString <$> tags t)).
  rewrite (into_list_map (into_string "") JStr (λ s, s)) by (apply Forall_forall; done).
  by rewrite map_id.
Qed.

Lemma wf_wire t : token_ok t → wf (wire_json t).
Proof.
  intros (_ & _ & Hc). constructor. repeat apply Forall_cons_2; try apply Forall_nil_2; simpl; (split; [done|]).
  - constructor. apply Forall_fmap. eapply Forall_impl; [exact Hc|]. apply wf_claims.
  - constructor. rewrite !Forall_fmap. apply Forall_forall. intros x _. constructor. apply Base64.base64_ascii.
Qed.

(** What is serialized parses back to the token. *)
Lemma parse_serialize t : token_ok t → ∃ w, Serialize t = Ok w ∧ Parse w = Ok t.
Proof.
  intros Ht. pose proof Ht as (Hne & Hlen & Hc). unfold Serialize. rewrite bool_decide_eq_false_2 by done.
  rewrite bool_decide_eq_true_2 by done. eexists; split; [done|]. unfold Parse.
  rewrite Base64.base64_roundtrip, parse_render by by apply wf_wire. cbn [mbind option_bind].
  rewrite unmarshal_wire by done. rewrite bool_decide_eq_false_2 by done. rewrite length_fmap.
  rewrite bool_decide_eq_true_2 by done. cbn [negb orb].
  rewrite (mapM_fmap_Forall_Some Base64.DecodeString Base64.EncodeToString)
    by (apply Forall_forall; intros x _; apply Base64.base64_roundtrip).
  f_equal. destruct t as [ls ts]. f_equal. cbn [links] in *. clear -Hc.
  induction Hc as [|c ls Hc Hls IH]; [done|]. rewrite fmap_cons, IH. f_equal.
  destruct c, Hc as (_ & _ & _ & Hs). unfold canonical_claims. simpl in *. by rewrite Hs.
Qed.

(** Attenuating keeps claims in that form. *)
Lemma Intersect_ok a b : budget_ok a → budget_ok b → budget_ok (Intersect a b).
Proof.
  unfold budget_ok, Intersect, min64. simpl. intros Ha Hb.
  split_and!; match goal with |- context [?x <? ?y] => destruct (x <? y) end; tauto.
Qed.

Lemma child_ok p req : claims_ok p → budget_ok req.1 → claims_ok (child_of p req).
Proof.
  intros (Hi & Hb & Hs & Hc) Hr. unfold child_of. split_and!; simpl; [done|by apply Intersect_ok| |apply canonicalize_idemp].
  rewrite Forall_forall in *. intros sc. unfold intersectScopes. rewrite canonicalize_elem, list_elem_of_filter. naive_solver.
Qed.

Lemma children_ok p reqs : claims_ok p → Forall (λ r, budget_ok r.1) reqs → Forall claims_ok (p :: children p reqs).
Proof.
  intros Hp Hr. revert p Hp. induction Hr as [|req reqs Hreq Hr IH]; intros p Hp; (constructor; [done|]); [constructor|].
  by apply IH, child_ok.
Qed.

Lemma sealed_lengths s root ls : length (tags (sealed s root ls)) = length (links (sealed s root ls)).
Proof. simpl. f_equal. generalize (rootTag s root). induction ls; intros tag; simpl; auto. Qed.

Lemma sealed_ok s root ls : Forall claims_ok (root :: ls) → token_ok (sealed s root ls).
Proof. intros Hf. split_and!; [done|apply sealed_lengths|done]. Qed.

Lemma children_last p reqs :
  let e := default p (last (children p reqs)) in
  c_SandboxID e = c_SandboxID p ∧ c_Budget e = foldl Intersect (c_Budget p) (fst <$> reqs) ∧
  (∀ sc, hasScope e sc = true ↔ hasScope p sc = true ∧ Forall (λ r, sc ∈ r.2) reqs) ∧
  length (children p reqs) = length reqs.
Proof.
  revert p. induction reqs as [|req reqs IH]; intros p; [naive_solver|]. cbn [children fmap list_fmap foldl].
  rewrite last_cons. specialize (IH (child_of p req)). cbn zeta in *.
  assert (default p (match last (children (child_of p req) reqs) with Some y => Some y | None => Some (child_of p req) end) =
    default (child_of p req) (last (children (child_of p req) reqs))) as -> by (by destruct (last _)).
  destruct IH as (-> & -> & Hs & Hl). split_and!; [done|done| |simpl; by rewrite Hl].
  intros sc. rewrite Hs, Forall_cons, !hasScope_elem. simpl. unfold intersectScopes.
  rewrite canonicalize_elem, list_elem_of_filter. tauto.
Qed.

Lemma Mint_sealed s id b scopes :
  id ≠ "" →
  Mint (Some s) id b scopes = Ok (sealed s {| c_SandboxID := id; c_Budget := b; c_Scopes := canonicalize scopes |} []).
Proof. intros Hid. unfold Mint. by rewrite bool_decide_eq_false_2. Qed.

(** C40: what is issued is accepted, and means what was asked for.  A token minted for a
    sandbox and attenuated any number of times verifies under the key, survives the trip
    over the wire unchanged, names the sandbox it was minted for, has as its budget the
    minimum of all the budgets asked for, and has exactly the scopes that are in every
    list asked for. *)
Theorem issued_token_accepted s id b scopes reqs :
  id ≠ "" → ascii_only id = true → Forall (λ sc, ascii_only sc = true) scopes →
  budget_ok b → Forall (λ r, budget_ok r.1) reqs →
  ∃ t0 t w,
    Mint (Some s) id b scopes = Ok t0 ∧ derive s t0 reqs = Ok t ∧ Verify (Some s) t = Ok tt ∧
    Serialize t = Ok w ∧ Parse w = Ok t ∧
    token_SandboxID t = id ∧ token_Budget t = foldl Intersect b (fst <$> reqs) ∧
    (∀ sc, HasScope t sc = true ↔ sc ∈ scopes ∧ Forall (λ r, sc ∈ r.2) reqs) ∧
    Depth t = 1 + Z.of_nat (length reqs).
Proof.
  intros Hid Hai Hasc Hb Hr. rewrite Mint_sealed by done.
  set (root := {| c_SandboxID := id; c_Budget := b; c_Scopes := canonicalize scopes |}).
  assert (claims_ok root) as Hroot.
  { split_and!; simpl; [done|done| |apply canonicalize_idemp].
    rewrite Forall_forall in *. intros sc. rewrite canonicalize_elem. apply Hasc. }
  destruct (parse_serialize (sealed s root (children root reqs))) as (w & Hw & Hp);
    [by apply sealed_ok, children_ok|].
  destruct (children_last root reqs) as (H1 & H2 & H3 & H4).
  eexists _, _, w. split_and!; [done|apply derive_sealed| |done|done|..].
  - apply Verify_ok. eexists _, _. split; [done|apply children_narrow].
  - unfold token_SandboxID. simpl. rewrite last_cons. by destruct (last (children root reqs)).
  - unfold token_Budget. simpl. rewrite last_cons. by destruct (last (children root reqs)).
  - intros sc. specialize (H3 sc). rewrite (hasScope_elem root) in H3. simpl in H3. rewrite canonicalize_elem in H3.
    unfold HasScope. simpl. rewrite last_cons. by destruct (last (children root reqs)).
  - unfold Depth. simpl. rewrite H4. lia.
Qed.

(** ** What attenuation does not do *)

(** The holder of a token drops its last link; no key is needed. *)
Definition strip_last (w : string) : result cap_error string :=
  let? t := Parse w in Serialize {| links := removelast (links t); tags := removelast (tags t) |}.

(** Attenuation does not bind the holder.  From the wire form of an attenuated token
    alone, without the key, its holder recovers the wire form of the token it was
    attenuated from, which verifies and carries the wider budget and scopes. *)
Theorem attenuation_undone s t req scopes :
  token_ok t → budget_ok req → Verify (Some s) t = Ok tt →
  ∃ child w w', Attenuate (Some s) t req scopes = Ok child ∧ Serialize child = Ok w ∧
    strip_last w = Ok w' ∧ Parse w' = Ok t ∧ Verify (Some s) t = Ok tt.
Proof.
  intros Hok Hreq Hv. pose proof Hv as (root & ls & -> & _)%Verify_ok.
  pose proof (attenuate_sealed s root ls (req, scopes)) as Ha. cbn [fst snd] in Ha.
  set (c := child_of (default root (last ls)) (req, scopes)) in *.
  assert (claims_ok c) as Hc.
  { apply child_ok; [|done]. destruct Hok as (_ & _ & Hf). apply Forall_cons in Hf as [? Hf].
    destruct (last ls) as [e|] eqn:El; [|done]. apply last_Some in El as [l' ->].
    apply Forall_app in Hf as [_ Hf]. by apply Forall_cons in Hf as [? _]. }
  destruct (parse_serialize (sealed s root (ls ++ [c]))) as (w & Hw & Hp).
  { apply sealed_ok. destruct Hok as (_ & _ & Hf). rewrite app_comm_cons. apply Forall_app; split; [done|].
    by constructor; [|constructor]. }
  destruct (parse_serialize _ Hok) as (w' & Hw' & Hp').
  exists (sealed s root (ls ++ [c])), w, w'. split_and!; [done|done| |done|done].
  unfold strip_last. rewrite Hp. cbn [rbind sealed links tags]. rewrite <- Hw'. f_equal. unfold sealed. f_equal.
  - by rewrite app_comm_cons, removelast_last.
  - rewrite reseal_links_app. cbn [reseal_links]. by rewrite app_comm_cons, removelast_last.
Qed.

(** ** What the tags bind *)

(** The key and the message of each MAC of a token. *)
Fixpoint link_inputs (tag : string) (ls : list claims) : list (string * string) :=
  match ls with
  | [] => []
  | c :: ls' => (tag, link_label +:+ encodeClaims c) :: link_inputs (linkTag tag c) ls'
  end.

Definition mac_inputs (s : Signer) (t : Token) : list (string * string) :=
  match links t with
  | [] => []
  | root :: ls => (key s, root_label +:+ encodeClaims root) :: link_inputs (rootTag s root) ls
  end.

Lemma encodeClaims_inj c c' : claims_ok c → claims_ok c' → encodeClaims c = encodeClaims c' → c = c'.
Proof.
  assert (∀ c, claims_ok c → canonical_claims c = c) as Hcan.
  { intros [i b sc] (_ & _ & _ & Hs). unfold canonical_claims. simpl in *. by rewrite Hs. }
  intros Hc Hc'. unfold encodeClaims. rewrite !Hcan by done. intros He%(f_equal parse).
  rewrite !parse_render in He by by apply wf_claims. apply (inj Some) in He.
  apply (f_equal (into_struct claims_fields set_claims zero_claims)) in He.
  rewrite !unmarshal_claims in He by done. by apply (inj Some) in He.
Qed.

Lemma labels_differ x y : root_label +:+ x ≠ link_label +:+ y.
Proof. intros E%(f_equal (String.get 9)). vm_compute in E. discriminate. Qed.

Lemma link_inputs_snoc tag ls c :
  link_inputs tag (ls ++ [c]) =
  link_inputs tag ls ++ [(default tag (last (reseal_links tag ls)), link_label +:+ encodeClaims c)].
Proof.
  revert tag. induction ls as [|c' ls IH]; intros tag; [done|]. cbn [app link_inputs reseal_links]. rewrite IH.
  rewrite last_cons. by destruct (last (reseal_links (linkTag tag c') ls)).
Qed.

(** Two different inputs with one MAC. *)
Definition collision (l1 l2 : list (string * string)) : Prop :=
  ∃ x1 x2, x1 ∈ l1 ∧ x2 ∈ l2 ∧ x1 ≠ x2 ∧ hmac_sha256 x1.1 x1.2 = hmac_sha256 x2.1 x2.2.

Lemma same_input_or_collision l1 l2 k1 m1 k2 m2 :
  (k1, m1) ∈ l1 → (k2, m2) ∈ l2 → hmac_sha256 k1 m1 = hmac_sha256 k2 m2 →
  (k1 = k2 ∧ m1 = m2) ∨ collision l1 l2.
Proof.
  intros H1 H2 Hmac. destruct (decide ((k1, m1) = (k2, m2))) as [[= -> ->]|Hne]; [by left|].
  right. by exists (k1, m1), (k2, m2).
Qed.

Lemma collision_mono l1 l1' l2 l2' : l1 ⊆ l1' → l2 ⊆ l2' → collision l1 l2 → collision l1' l2'.
Proof. intros H1 H2 (x1 & x2 & ? & ? & ? & ?). exists x1, x2. split_and!; auto. Qed.

Definition last_tag (s : Signer) (root : claims) (ls : list claims) : string :=
  default (rootTag s root) (last (reseal_links (rootTag s root) ls)).

Lemma last_tag_snoc s root ls c : last_tag s root (ls ++ [c]) = linkTag (last_tag s root ls) c.
Proof. unfold last_tag. rewrite reseal_links_app. cbn [reseal_links]. by rewrite last_snoc. Qed.

Lemma mac_inputs_snoc s root ls c :
  mac_inputs s (sealed s root (ls ++ [c])) =
  mac_inputs s (sealed s root ls) ++ [(last_tag s root ls, link_label +:+ encodeClaims c)].
Proof. unfold mac_inputs. cbn [sealed links]. by rewrite link_inputs_snoc. Qed.

Lemma last_input s root ls c :
  (last_tag s root ls, link_label +:+ encodeClaims c) ∈ mac_inputs s (sealed s root (ls ++ [c])).
Proof. rewrite mac_inputs_snoc. apply elem_of_app. right. by apply list_elem_of_singleton. Qed.

Lemma sealed_binding s1 s2 r1 r2 ls1 ls2 :
  Forall claims_ok (r1 :: ls1) → Forall claims_ok (r2 :: ls2) → last_tag s1 r1 ls1 = last_tag s2 r2 ls2 →
  (key s1 = key s2 ∧ r1 = r2 ∧ ls1 = ls2) ∨
  collision (mac_inputs s1 (sealed s1 r1 ls1)) (mac_inputs s2 (sealed s2 r2 ls2)).
Proof.
  revert ls2. induction ls1 as [|c1 ls1 IH] using rev_ind; intros ls2;
    destruct ls2 as [|c2 ls2 _] using rev_ind; intros Hok1 Hok2 Ht; rewrite ?last_tag_snoc in Ht;
    unfold linkTag in Ht; try change (last_tag ?s ?r []) with (rootTag s r) in Ht; unfold rootTag in Ht.
  - apply Forall_cons in Hok1 as [Hok1 _], Hok2 as [Hok2 _].
    eapply same_input_or_collision in Ht as [[-> Hm]|Hcol]; [left|right; exact Hcol|by left..].
    apply str_app_inj_l, encodeClaims_inj in Hm; auto.
  - eapply same_input_or_collision in Ht as [[_ Hm]|Hcol];
      [by apply labels_differ in Hm|right; exact Hcol|apply list_elem_of_here|apply last_input].
  - eapply same_input_or_collision in Ht as [[_ Hm]|Hcol];
      [symmetry in Hm; by apply labels_differ in Hm|right; exact Hcol|apply last_input|apply list_elem_of_here].
  - rewrite !app_comm_cons, !Forall_app, !Forall_singleton in *.
    eapply same_input_or_collision in Ht as [[Htag Hm]|Hcol]; [|right; exact Hcol|apply last_input..].
    apply str_app_inj_l, encodeClaims_inj in Hm as ->; [|tauto..].
    destruct (IH ls2) as [(? & ? & ->)|Hcol]; [tauto|tauto|done|by left|right].
    eapply collision_mono; [| |exact Hcol]; rewrite mac_inputs_snoc; apply list_subseteq_app_l; done.
Qed.

(** The last tag binds the whole token.  Two tokens that verify and end in the same
    tag, whatever their lengths and signers, are the same token under the same key, or
    their MACs contain two different inputs with the same HMAC-SHA256. *)
Theorem last_tag_binds s1 s2 t1 t2 :
  token_ok t1 → token_ok t2 → Verify (Some s1) t1 = Ok tt → Verify (Some s2) t2 = Ok tt →
  last (tags t1) = last (tags t2) →
  (t1 = t2 ∧ key s1 = key s2) ∨ collision (mac_inputs s1 t1) (mac_inputs s2 t2).
Proof.
  intros (_ & _ & Hok1) (_ & _ & Hok2) (r1 & ls1 & -> & _)%Verify_ok (r2 & ls2 & -> & _)%Verify_ok Ht.
  destruct (sealed_binding s1 s2 r1 r2 ls1 ls2) as [(Hk & -> & ->)|Hcol]; [done|done| | |by right].
  - cbn [tags sealed] in Ht. rewrite !last_cons in Ht. unfold last_tag.
    destruct (last (reseal_links (rootTag s1 r1) ls1)), (last (reseal_links (rootTag s2 r2) ls2)); cbn in *; congruence.
  - left. split; [|done]. destruct s1, s2. simpl in Hk. by subst.
Qed.

End tokens.

(** ** Examples *)

Definition ex_signer : Signer := {| key := "0123456789abcdef" |}.

Definition ex_budget : Budget :=
  {| MaxForks := 8; MaxCheckpoints := 4; MaxCpuSeconds := 3600; MaxLifetimeExtension := 60; MaxEgressBytes := 1000 |}.
Definition ex_request : Budget :=
  {| MaxForks := 2; MaxCheckpoints := 9; MaxCpuSeconds := 600; MaxLifetimeExtension := 0; MaxEgressBytes := 5000 |}.

Definition ex_root : claims :=
  {| c_SandboxID := "sb-1"; c_Budget := ex_budget; c_Scopes := [ScopeExec; ScopeFork] |}.
Definition ex_child : claims :=
  {| c_SandboxID := "sb-1"; c_Budget := Intersect ex_budget ex_request; c_Scopes := [ScopeExec] |}.
Definition ex_token : Token := sealed ex_signer ex_root [ex_child].

Lemma ex_token_ok : token_ok ex_token.
Proof. apply sealed_ok. repeat (constructor; [split_and!; by_eval || (vm_compute; reflexivity)|]). constructor. Qed.

Lemma ex_token_verifies : Verify (Some ex_signer) ex_token = Ok tt.
Proof.
  apply Verify_ok. eexists _, _. split; [done|].
  apply SSorted_cons; [repeat constructor|]. apply Forall_singleton. split_and!; [done| |done].
  intros sc. rewrite !hasScope_elem. simpl. set_solver.
Qed.

Lemma verify_never_widens_witness :
  (∀ i c, links ex_token !! i = Some c →
    fitsWithin (token_Budget ex_token) (c_Budget c) = true ∧
    (∀ sc, HasScope ex_token sc = true → hasScope c sc = true) ∧ token_SandboxID ex_token = c_SandboxID c) ∧
  ∃ root ls, ex_token = sealed ex_signer root ls.
Proof. exact (verify_never_widens ex_signer ex_token ex_token_verifies). Defined.

Lemma issued_token_accepted_witness :
  ∃ t0 t w,
    Mint (Some ex_signer) "sb-1" ex_budget [ScopeFork; ScopeExec; ScopeFork] = Ok t0 ∧
    derive ex_signer t0 [(ex_request, [ScopeFiles; ScopeExec])] = Ok t ∧ Verify (Some ex_signer) t = Ok tt ∧
    Serialize t = Ok w ∧ Parse w = Ok t ∧ token_SandboxID t = "sb-1" ∧
    token_Budget t = {| MaxForks := 2; MaxCheckpoints := 4; MaxCpuSeconds := 600; MaxLifetimeExtension := 0;
                        MaxEgressBytes := 1000 |} ∧
    HasScope t ScopeExec = true ∧ HasScope t ScopeFork = false ∧ Depth t = 2.
Proof.
  destruct (issued_token_accepted ex_signer "sb-1" ex_budget [ScopeFork; ScopeExec; ScopeFork]
    [(ex_request, [ScopeFiles; ScopeExec])]) as (t0 & t & w & H1 & H2 & H3 & H4 & H5 & H6 & H7 & H8 & H9);
    [done|done|by_eval|by_eval|by repeat constructor|].
  exists t0, t, w. split_and!; try done.
  - apply H8. split; [set_solver|]. by_eval.
  - apply not_true_iff_false. rewrite H8. intros [_ Hf]. apply Forall_cons in Hf as [Hf _]. simpl in Hf.
    apply list_elem_of_In in Hf. simpl in Hf. naive_solver.
Defined.

Lemma attenuation_undone_witness :
  ∃ child w w', Attenuate (Some ex_signer) ex_token zero_budget [] = Ok child ∧ Serialize child = Ok w ∧
    strip_last w = Ok w' ∧ Parse w' = Ok ex_token ∧ Verify (Some ex_signer) ex_token = Ok tt.
Proof.
  apply (attenuation_undone ex_signer ex_token zero_budget []); [exact ex_token_ok|by_eval|exact ex_token_verifies].
Defined.

Lemma last_tag_binds_witness :
  (ex_token = ex_token ∧ key ex_signer = key ex_signer) ∨
  collision (mac_inputs ex_signer ex_token) (mac_inputs ex_signer ex_token).
Proof.
  apply (last_tag_binds ex_signer ex_signer ex_token ex_token ex_token_ok ex_token_ok
    ex_token_verifies ex_token_verifies). reflexivity.
Defined.

End CapTokenTheorems.
