(* ===== verification/GoStrings.v ===== *)
(** * package strings

    What the components use of Go's [strings] package.  Case mapping and white space are
    those of Unicode: [Unicode] is their interface, which is fixed on ASCII strings.  The
    module GoStringsTheorems holds the lemmas. *)

From Stdlib Require Import Ascii DecimalString DecimalFacts DecimalPos DecimalZ.
From S2P Require Import Prelude Sha256 Json.
Import Sha256 Json.

Module GoStrings.

Definition HasPrefix (s p : string) : bool := String.prefix p s.

Definition CutPrefix (s p : string) : option string := strip_prefix p s.

Definition TrimPrefix (s p : string) : string := default s (strip_prefix p s).

Definition rev_string (s : string) : string :=
  String.string_of_list_ascii (reverse (String.list_ascii_of_string s)).

Definition HasSuffix (s p : string) : bool := String.prefix (rev_string p) (rev_string s).

Definition CutSuffix (s p : string) : option string :=
  if HasSuffix s p then Some (String.substring 0 (String.length s - String.length p) s) else None.

Definition TrimSuffix (s p : string) : string := default s (CutSuffix s p).

(** [strings.Contains] of one character. *)
Definition contains_char (s : string) (c : ascii) : bool :=
  existsb (λ d, bool_decide (d = c)) (String.list_ascii_of_string s).

(** [strconv.Atoi]: an optional sign and digits, in range. *)
Definition Atoi (s : string) : option Z :=
  let '(neg, ds) :=
    match s with String "+" s' => (false, s') | String "-" s' => (true, s') | _ => (false, s) end in
  let '(digits, rest) := scan_digits ds in
  if bool_decide (digits = "") || negb (bool_decide (rest = "")) then None
  else
    let v := foldl (λ acc c, 10 * acc + (byte_of c - 48)) 0 (String.list_ascii_of_string digits) in
    let v := if (neg : bool) then - v else v in
    if bool_decide (is_int64 v) then Some v else None.

(** [strings.TrimRight] of a set of characters. *)
Definition TrimRight (s cutset : string) : string :=
  let fix trim (l : list ascii) :=
    match l with c :: l' => if contains_char cutset c then trim l' else l | [] => [] end in
  String.string_of_list_ascii (reverse (trim (reverse (String.list_ascii_of_string s)))).

(** The pieces of [s] between the occurrences of [c]; there is always one. *)
Fixpoint Split (s : string) (c : ascii) : list string :=
  match s with
  | "" => [""]
  | String d s' =>
      match Split s' c with
      | [] => []
      | p :: ps => if bool_decide (d = c) then "" :: p :: ps else String d p :: ps
      end
  end.

(** The text before the first [c] and the one after it. *)
Fixpoint Cut (s : string) (c : ascii) : option (string * string) :=
  match s with
  | "" => None
  | String d s' =>
      if bool_decide (d = c) then Some ("", s')
      else '(a, b) ← Cut s' c; Some (String d a, b)
  end.

(** The text before the last [c] and the one after it. *)
Fixpoint CutLast (s : string) (c : ascii) : option (string * string) :=
  match s with
  | "" => None
  | String d s' =>
      match CutLast s' c with
      | Some (a, b) => Some (String d a, b)
      | None => if bool_decide (d = c) then Some ("", s') else None
      end
  end.

Definition lower (c : ascii) : ascii :=
  let n := byte_of c in if (65 <=? n) && (n <=? 90) then of_byte (n + 32) else c.

Fixpoint ascii_lower (s : string) : string :=
  match s with "" => "" | String c s' => String (lower c) (ascii_lower s') end.

(** Tab, the line breaks and the space. *)
Definition is_space (c : ascii) : bool :=
  let n := byte_of c in ((9 <=? n) && (n <=? 13)) || (n =? 32).

Fixpoint trim_left (s : string) : string :=
  match s with String c s' => if is_space c then trim_left s' else s | "" => "" end.

Definition ascii_trim (s : string) : string := rev_string (trim_left (rev_string (trim_left s))).

(** The runs of characters that are not space. *)
Fixpoint ascii_fields_from (field s : string) : list string :=
  match s with
  | "" => if bool_decide (field = "") then [] else [field]
  | String c s' =>
      if is_space c then (if bool_decide (field = "") then [] else [field]) ++ ascii_fields_from "" s'
      else ascii_fields_from (field +:+ String c "") s'
  end.

Definition ascii_fields (s : string) : list string := ascii_fields_from "" s.

Class Unicode := {
  ToLower : string → string;
  Fields : string → list string;
  EqualFold : string → string → bool;
  TrimSpace : string → string;
  ToLower_ascii s : ascii_only s = true → ToLower s = ascii_lower s;
  EqualFold_ascii s t :
    ascii_only s = true → ascii_only t = true → EqualFold s t = bool_decide (ascii_lower s = ascii_lower t);
  TrimSpace_ascii s : ascii_only s = true → TrimSpace s = ascii_trim s;
  Fields_ascii s : ascii_only s = true → Fields s = ascii_fields s;
  EqualFold_refl s : EqualFold s s = true;
  EqualFold_sym s t : EqualFold s t = true → EqualFold t s = true;
  EqualFold_trans s t u : EqualFold s t = true → EqualFold t u = true → EqualFold s u = true;
}.

(** The functions that leave bytes outside ASCII alone are one implementation. *)
#[global] Program Instance ascii_unicode : Unicode := {|
  ToLower := ascii_lower;
  EqualFold s t := bool_decide (ascii_lower s = ascii_lower t);
  TrimSpace := ascii_trim;
  Fields := ascii_fields;
|}.
Solve Obligations with (intros; rewrite ?bool_decide_eq_true in *; congruence).

End GoStrings.

(** ** Lemmas *)

Import GoStrings.

Module GoStringsTheorems.

(** ** Prefixes and suffixes *)

Abbreviation chars := String.list_ascii_of_string.

Lemma chars_app s t : chars (s +:+ t) = chars s ++ chars t.
Proof. induction s as [|c s IH]; [done|]. rewrite str_app_cons. simpl. by rewrite IH. Qed.

Lemma chars_inj s t : chars s = chars t → s = t.
Proof. intros H. by rewrite <- (String.string_of_list_ascii_of_string s), H, String.string_of_list_ascii_of_string. Qed.

Lemma prefix_spec p s : String.prefix p s = true ↔ ∃ t, s = p +:+ t.
Proof.
  revert s. induction p as [|c p IH]; intros s.
  - split; [|by destruct s]. intros _. exists s. by rewrite str_app_nil_l.
  - destruct s as [|d s]; simpl; [split; [done|]; intros [t H]; by rewrite str_app_cons in H|].
    setoid_rewrite str_app_cons. destruct (Ascii.ascii_dec c d) as [->|Hne].
    + rewrite IH. split; intros [t H]; exists t; [by rewrite H|by injection H].
    + split; [done|]. intros [t [= <- _]]. done.
Qed.

Lemma HasSuffix_spec s p : HasSuffix s p = true ↔ ∃ t, s = t +:+ p.
Proof.
  unfold HasSuffix, rev_string. rewrite prefix_spec. split.
  - intros [t H]. exists (String.string_of_list_ascii (reverse (chars t))). apply chars_inj.
    apply (f_equal chars) in H. rewrite chars_app, !String.list_ascii_of_string_of_list_ascii in H.
    apply (f_equal reverse) in H. rewrite reverse_involutive, reverse_app, reverse_involutive in H.
    by rewrite chars_app, String.list_ascii_of_string_of_list_ascii.
  - intros [t ->]. exists (String.string_of_list_ascii (reverse (chars t))). apply chars_inj.
    by rewrite !chars_app, !String.list_ascii_of_string_of_list_ascii, reverse_app.
Qed.

Lemma substring_app t p : String.substring 0 (String.length t) (t +:+ p) = t.
Proof. induction t as [|c t IH]; [by destruct p|]. rewrite str_app_cons. simpl. by rewrite IH. Qed.

Lemma CutSuffix_spec s p t : CutSuffix s p = Some t ↔ s = t +:+ p.
Proof.
  unfold CutSuffix. destruct (HasSuffix s p) eqn:E.
  - apply HasSuffix_spec in E as [u ->]. rewrite str_length_app. replace (String.length u + String.length p - String.length p)%nat
      with (String.length u) by lia. rewrite substring_app. split; [by intros [= ->]|].
    intros H%(f_equal chars). rewrite !chars_app in H. apply app_inv_tail, chars_inj in H. by subst.
  - split; [done|]. intros ->. assert (HasSuffix (t +:+ p) p = true) by (apply HasSuffix_spec; by exists t). congruence.
Qed.

Lemma strip_prefix_spec p s t : strip_prefix p s = Some t ↔ s = p +:+ t.
Proof.
  revert s. induction p as [|c p IH]; intros s; simpl; [rewrite str_app_nil_l; split; congruence|].
  rewrite str_app_cons. destruct s as [|d s]; [done|]. destruct (Ascii.eqb_spec c d) as [->|Hne].
  - rewrite IH. split; [by intros ->|by intros [= ->]].
  - split; [done|]. intros [= <- _]. done.
Qed.

Lemma all_chars_chars f s : all_chars f s = forallb f (chars s).
Proof. induction s as [|c s IH]; simpl; [done|]. by rewrite <- IH. Qed.

(** ** Pieces *)

Lemma Split_ne s c : Split s c ≠ [].
Proof. induction s as [|d s IH]; simpl; [done|]. destruct (Split s c); [done|]. by case_bool_decide. Qed.

(** The separator ends the pieces before it. *)
Lemma Split_app s t c : Split (s +:+ String c t) c = Split s c ++ Split t c.
Proof.
  induction s as [|d s IH].
  - change ("" +:+ String c t) with (String c t). cbn [Split]. pose proof (Split_ne t c).
    destruct (Split t c); [done|]. by rewrite bool_decide_eq_true_2.
  - rewrite str_app_cons. cbn [Split]. rewrite IH. pose proof (Split_ne s c).
    destruct (Split s c); [done|]. simpl. by case_bool_decide.
Qed.

Lemma Split_chars s c d : d ∈ chars s → d = c ∨ ∃ l, l ∈ Split s c ∧ d ∈ chars l.
Proof.
  induction s as [|x s IH]; simpl; [by intros ?%elem_of_nil|]. pose proof (Split_ne s c) as Hne.
  destruct (Split s c) as [|l ls]; [done|]. intros [->|Hd]%elem_of_cons.
  - case_bool_decide as Hx; [by left|]. right. exists (String x l). split; [apply list_elem_of_here|]. simpl. apply list_elem_of_here.
  - destruct (IH Hd) as [->|(l' & Hl' & Hd')]; [by left|]. right. case_bool_decide as Hx.
    + exists l'. split; [by apply list_elem_of_further|done].
    + apply elem_of_cons in Hl' as [->|Hl'].
      * exists (String x l). split; [apply list_elem_of_here|]. simpl. by apply list_elem_of_further.
      * exists l'. split; [by apply list_elem_of_further|done].
Qed.

Lemma Split_trailing t c : Split (t +:+ String c "") c = Split t c ++ [""].
Proof. by rewrite Split_app. Qed.

(** A text without the separator is one piece. *)
Lemma Split_one s c : c ∉ chars s → Split s c = [s].
Proof.
  induction s as [|d s IH]; [done|]. simpl. intros [Hd Hs]%not_elem_of_cons. rewrite IH by done.
  by rewrite bool_decide_eq_false_2.
Qed.

Lemma Cut_spec s c a b : Cut s c = Some (a, b) ↔ (c ∉ chars a) ∧ (s = a +:+ String c b).
Proof.
  revert a. induction s as [|d s IH]; intros a; simpl.
  { split; [done|]. intros [_ H]. by destruct a. }
  case_bool_decide as Hd.
  - subst d. split; [intros [= <- <-]; split; [apply not_elem_of_nil|by rewrite str_app_nil_l]|].
    intros [Ha H]. destruct a as [|x a]; [rewrite str_app_nil_l in H; by injection H as <-|].
    rewrite str_app_cons in H. injection H as <- ->. simpl in Ha. by apply not_elem_of_cons in Ha as [].
  - destruct a as [|x a].
    { split; [intros ([a' b'] & _ & [= ])%bind_Some|]. intros [_ H]. rewrite str_app_nil_l in H. by injection H as ->. }
    rewrite str_app_cons. simpl. rewrite not_elem_of_cons. transitivity ((x = d) ∧ Cut s c = Some (a, b)).
    + split; [intros ([a' b'] & -> & [= <- <- <-])%bind_Some; done|]. intros [-> ->]. done.
    + rewrite IH. split; [intros (-> & ? & ->); done|]. intros ([? ?] & [= -> ->]). done.
Qed.

Lemma Cut_None s c : Cut s c = None ↔ c ∉ chars s.
Proof.
  induction s as [|d s IH]; simpl; [split; [intros _; apply not_elem_of_nil|done]|]. rewrite not_elem_of_cons.
  case_bool_decide as Hd; [naive_solver|]. rewrite bind_None, IH. split; [|naive_solver].
  intros [H|([a b] & _ & [=])]. split; [congruence|done].
Qed.

Lemma CutLast_spec c a b : c ∉ chars b → CutLast (a +:+ String c b) c = Some (a, b).
Proof.
  intros Hb. assert (CutLast b c = None) as HN.
  { clear a. induction b as [|d b IH]; simpl in *; [done|]. apply not_elem_of_cons in Hb as [Hd Hb]. rewrite IH by done.
    by rewrite bool_decide_eq_false_2. }
  induction a as [|d a IH]; [rewrite str_app_nil_l; simpl; rewrite HN; by rewrite bool_decide_eq_true_2|].
  rewrite str_app_cons. simpl. by rewrite IH.
Qed.

Lemma CutLast_None s c : CutLast s c = None ↔ c ∉ chars s.
Proof.
  induction s as [|d s IH]; simpl; [split; [intros _; apply not_elem_of_nil|done]|]. rewrite not_elem_of_cons, <- IH.
  destruct (CutLast s c) as [[? ?]|]; [naive_solver|]. case_bool_decide; naive_solver.
Qed.

Lemma contains_char_spec s c : contains_char s c = true ↔ c ∈ chars s.
Proof.
  unfold contains_char. rewrite existsb_exists. setoid_rewrite bool_decide_eq_true. setoid_rewrite <- list_elem_of_In.
  naive_solver.
Qed.

Lemma contains_char_false s c : contains_char s c = false ↔ c ∉ chars s.
Proof. rewrite <- contains_char_spec. destruct (contains_char s c); naive_solver. Qed.

(** ** Decimals *)

Definition digit_value (acc : Z) (c : ascii) : Z := 10 * acc + (byte_of c - 48).

Lemma uint_value_acc d p :
  foldl digit_value (Z.pos p) (String.list_ascii_of_string (NilEmpty.string_of_uint d)) = Z.pos (Pos.of_uint_acc d p).
Proof.
  revert p. induction d as [|d IH|d IH|d IH|d IH|d IH|d IH|d IH|d IH|d IH|d IH]; intros p; [done|..];
    cbn [NilEmpty.string_of_uint String.list_ascii_of_string foldl Pos.of_uint_acc];
    rewrite <- IH; f_equal; unfold digit_value;
    match goal with |- context [byte_of ?c] => let v := eval vm_compute in (byte_of c) in change (byte_of c) with v end; lia.
Qed.

Lemma uint_value d :
  foldl digit_value 0 (String.list_ascii_of_string (NilEmpty.string_of_uint d)) = Z.of_N (Pos.of_uint d).
Proof.
  induction d; [done|..]; cbn [NilEmpty.string_of_uint String.list_ascii_of_string foldl Pos.of_uint Z.of_N];
    rewrite <- ?uint_value_acc; [exact IHd|reflexivity..].
Qed.

Lemma uint_digits d : Forall (λ c, is_digit c = true) (chars (NilEmpty.string_of_uint d)).
Proof. induction d; simpl; by constructor. Qed.

Lemma fmt_int_pos p : fmt_int (Z.pos p) = NilEmpty.string_of_uint (Pos.to_uint p).
Proof.
  unfold fmt_int. cbn. unfold NilZero.string_of_uint. destruct (Pos.to_uint p) eqn:E; try done.
  by apply DecimalPos.Unsigned.to_uint_nonnil in E.
Qed.

Lemma fmt_int_digits z : 0 < z → fmt_int z ≠ "" ∧ Forall (λ c, is_digit c = true) (chars (fmt_int z)).
Proof.
  intros Hz. destruct z as [|p|p]; [lia| |lia]. rewrite fmt_int_pos. destruct (pos_to_uint_str p) as (c & s & Hs & _).
  split; [by rewrite Hs|apply uint_digits].
Qed.

(** [strconv.Atoi] reads what [strconv.Itoa] writes. *)
Lemma Atoi_fmt_int z : 0 < z → is_int64 z → Atoi (fmt_int z) = Some z.
Proof.
  intros Hz Hi. destruct z as [|p|p]; [lia| |lia]. rewrite fmt_int_pos. unfold Atoi.
  pose proof (scan_digits_uint (Pos.to_uint p) "" eq_refl) as Hs. rewrite str_app_nil_r in Hs.
  destruct (pos_to_uint_str p) as (c & s & Hc & Hd).
  replace (match NilEmpty.string_of_uint (Pos.to_uint p) with String "+" s' => (false, s') | String "-" s' => (true, s')
           | _ => (false, NilEmpty.string_of_uint (Pos.to_uint p)) end) with (false, NilEmpty.string_of_uint (Pos.to_uint p))
    by (rewrite Hc; each_ascii c; (reflexivity || discriminate Hd)).
  cbn beta iota. rewrite Hs. rewrite (bool_decide_eq_false_2 (_ = "")) by (by rewrite Hc).
  rewrite (bool_decide_eq_true_2 ("" = "")) by done. cbn [negb orb].
  fold digit_value. rewrite uint_value, DecimalPos.Unsigned.of_to. cbn [Z.of_N]. by rewrite bool_decide_eq_true_2.
Qed.

End GoStringsTheorems.
