(* ===== verification/GoNet.v ===== *)
(** * package net

    What the components use of Go's [net] package.  An [IP] is its bytes, four or sixteen
    of them (none for a nil address); the classes of addresses, their text forms, networks
    and [host:port] strings follow the package's code. *)

From Stdlib Require Import Ascii.
From S2P Require Import Prelude Sha256 Json GoStrings.
Import Sha256 Json GoStrings.

Module GoNet.

(** ** Addresses *)

Definition IP : Type := list Z.

Definition v4InV6Prefix : IP := [0; 0; 0; 0; 0; 0; 0; 0; 0; 0; 255; 255].

Definition IPv4 (a b c d : Z) : IP := v4InV6Prefix ++ [a; b; c; d].

(** The bytes of an IPv4 address, none when [ip] is not one. *)
Definition To4 (ip : IP) : IP :=
  if (length ip =? 4)%nat then ip
  else if (length ip =? 16)%nat && bool_decide (take 12 ip = v4InV6Prefix) then drop 12 ip
  else [].

Definition To16 (ip : IP) : IP :=
  if (length ip =? 4)%nat then v4InV6Prefix ++ ip
  else if (length ip =? 16)%nat then ip
  else [].

Definition is4 (ip : IP) : bool := bool_decide (To4 ip ≠ []).

Definition IP_Equal (ip x : IP) : bool :=
  if (length ip =? length x)%nat then bool_decide (ip = x)
  else if (length ip =? 4)%nat && (length x =? 16)%nat then bool_decide (x = v4InV6Prefix ++ ip)
  else if (length ip =? 16)%nat && (length x =? 4)%nat then bool_decide (ip = v4InV6Prefix ++ x)
  else false.

Definition IPv4zero : IP := IPv4 0 0 0 0.
Definition IPv6unspecified : IP := replicate 16 0.
Definition IPv6loopback : IP := replicate 15 0 ++ [1].

(** Byte [i] of an address. *)
Definition byte_at (ip : IP) (i : nat) : Z := default 0 (ip !! i).

Definition IsUnspecified (ip : IP) : bool := IP_Equal ip IPv4zero || IP_Equal ip IPv6unspecified.

Definition IsLoopback (ip : IP) : bool :=
  if is4 ip then byte_at (To4 ip) 0 =? 127 else IP_Equal ip IPv6loopback.

Definition IsPrivate (ip : IP) : bool :=
  if is4 ip then
    let b := byte_at (To4 ip) in
    (b 0%nat =? 10) || ((b 0%nat =? 172) && (Z.land (b 1%nat) 0xf0 =? 16)) || ((b 0%nat =? 192) && (b 1%nat =? 168))
  else (length ip =? 16)%nat && (Z.land (byte_at ip 0) 0xfe =? 0xfc).

Definition IsMulticast (ip : IP) : bool :=
  if is4 ip then Z.land (byte_at (To4 ip) 0) 0xf0 =? 0xe0
  else (length ip =? 16)%nat && (byte_at ip 0 =? 0xff).

Definition IsLinkLocalMulticast (ip : IP) : bool :=
  if is4 ip then
    let b := byte_at (To4 ip) in (b 0%nat =? 224) && (b 1%nat =? 0) && (b 2%nat =? 0)
  else (length ip =? 16)%nat && (byte_at ip 0 =? 0xff) && (Z.land (byte_at ip 1) 0x0f =? 0x02).

Definition IsLinkLocalUnicast (ip : IP) : bool :=
  if is4 ip then let b := byte_at (To4 ip) in (b 0%nat =? 169) && (b 1%nat =? 254)
  else (length ip =? 16)%nat && (byte_at ip 0 =? 0xfe) && (Z.land (byte_at ip 1) 0xc0 =? 0x80).

(** ** Text *)

Definition dotted (ip : IP) : string :=
  fmt_int (byte_at ip 0) +:+ "." +:+ fmt_int (byte_at ip 1) +:+ "." +:+ fmt_int (byte_at ip 2) +:+ "." +:+
  fmt_int (byte_at ip 3).

(** The eight groups of sixteen bits. *)
Fixpoint groups (ip : IP) : list Z :=
  match ip with a :: b :: ip' => (256 * a + b) :: groups ip' | _ => [] end.

(** Hex digits without leading zeros. *)
Definition hex_group (v : Z) : string :=
  let d i := String (hex_digit (Z.land (Z.shiftr v i) 15)) "" in
  if 0x1000 <=? v then d 12 +:+ d 8 +:+ d 4 +:+ d 0
  else if 0x100 <=? v then d 8 +:+ d 4 +:+ d 0
  else if 0x10 <=? v then d 4 +:+ d 0
  else d 0.

(** The length of the run of zeros at the head of [gs]. *)
Fixpoint zero_run (gs : list Z) : nat :=
  match gs with 0 :: gs' => S (zero_run gs') | _ => 0 end.

(** The longest run of at least two zeros, the first of them: its start and end. *)
Fixpoint longest_run (i : nat) (gs : list Z) (best : nat * nat) : nat * nat :=
  match gs with
  | [] => best
  | _ :: gs' =>
      let l := zero_run gs in
      longest_run (S i) gs' (if (2 <=? l)%nat && (best.2 - best.1 <? l)%nat then (i, (i + l)%nat) else best)
  end.

Definition colons (gs : list Z) : string :=
  match gs with
  | [] => ""
  | g :: gs' => foldl (λ s g, s +:+ ":" +:+ hex_group g) (hex_group g) gs'
  end.

Definition text6 (ip : IP) : string :=
  let gs := groups ip in
  let '(a, b) := longest_run 0 gs (8, 8)%nat in
  if (a =? 8)%nat then colons gs else colons (take a gs) +:+ "::" +:+ colons (drop b gs).

Definition IP_String (ip : IP) : string :=
  if (length ip =? 0)%nat then "<nil>"
  else if negb ((length ip =? 4)%nat || (length ip =? 16)%nat) then "?" +:+ hex_of_bytes ip
  else if is4 ip then dotted (To4 ip)
  else text6 ip.

(** [parseIPv4Fields]: four decimal numbers up to 255 without leading zeros. *)
Definition parse_octet (s : string) : option Z :=
  let '(digits, rest) := scan_digits s in
  if bool_decide (digits = "") || negb (bool_decide (rest = "")) || (3 <? String.length digits)%nat ||
     (HasPrefix s "0" && negb (bool_decide (s = "0")))
  then None
  else
    let v := foldl (λ acc c, 10 * acc + (byte_of c - 48)) 0 (String.list_ascii_of_string digits) in
    if v <=? 255 then Some v else None.

Definition parse4 (s : string) : option IP :=
  let fields := Split s "." in
  if (length fields =? 4)%nat then mapM parse_octet fields else None.

Definition hex_value (c : ascii) : option Z :=
  let n := byte_of c in
  if (48 <=? n) && (n <=? 57) then Some (n - 48)
  else if (97 <=? n) && (n <=? 102) then Some (n - 87)
  else if (65 <=? n) && (n <=? 70) then Some (n - 55)
  else None.

(** The hex digits at the head of [s], their number, their value and what follows them. *)
Fixpoint scan_hex (n : nat) (acc : Z) (s : string) : nat * Z * string :=
  match s with
  | "" => (n, acc, "")
  | String c s' =>
      match hex_value c with
      | Some d => scan_hex (S n) (16 * acc + d) s'
      | None => (n, acc, s)
      end
  end.

(** [parseIPv6] after the zone and a leading [::]: [ip] holds the bytes so far and
    [ellipsis] the position of [::].  A group takes two of the sixteen bytes, so that eight
    rounds are enough. *)
Fixpoint parse6_loop (fuel : nat) (ip : IP) (ellipsis : option nat) (s : string) : option (IP * option nat) :=
  match fuel with
  | O => None
  | S fuel =>
      let '(off, acc, rest) := scan_hex 0 0 s in
      if (off =? 0)%nat || (4 <? off)%nat then None
      else
        match rest with
        | String "." _ =>
            if (bool_decide (ellipsis = None) && negb (length ip =? 12)%nat) || (12 <? length ip)%nat then None
            else tail ← parse4 s; Some (ip ++ tail, ellipsis)
        | "" => Some (ip ++ [acc / 256; acc mod 256], ellipsis)
        | String ":" "" => None
        | String ":" (String ":" rest') =>
            if bool_decide (ellipsis = None) then
              let ip' := ip ++ [acc / 256; acc mod 256] in
              if bool_decide (rest' = "") then Some (ip', Some (length ip'))
              else if (16 <=? length ip')%nat then None
              else parse6_loop fuel ip' (Some (length ip')) rest'
            else None
        | String ":" rest' =>
            let ip' := ip ++ [acc / 256; acc mod 256] in
            if (16 <=? length ip')%nat then None else parse6_loop fuel ip' ellipsis rest'
        | _ => None
        end
  end.

Definition parse6 (s : string) : option IP :=
  let '(ellipsis, s) := match s with String ":" (String ":" s') => (Some 0%nat, s') | _ => (None, s) end in
  if bool_decide (ellipsis = Some 0%nat) && bool_decide (s = "") then Some IPv6unspecified
  else
    '(ip, ellipsis) ← parse6_loop 8 [] ellipsis s;
    match ellipsis with
    | None => if (length ip =? 16)%nat then Some ip else None
    | Some e =>
        if (length ip <? 16)%nat then Some (take e ip ++ replicate (16 - length ip) 0 ++ drop e ip) else None
    end.

(** The first dot, colon or percent sign tells the form. *)
Fixpoint first_mark (s : string) : option ascii :=
  match s with
  | "" => None
  | String c s' => if bool_decide (c ∈ ["."%char; ":"%char; "%"%char]) then Some c else first_mark s'
  end.

(** [netip.ParseAddr] of an address without a zone; [net] refuses one with a zone. *)
Definition parse_addr (s : string) : option IP :=
  match first_mark s with
  | Some "."%char => parse4 s
  | Some ":"%char => if bool_decide (Cut s "%" = None) then parse6 s else None
  | _ => None
  end.

Definition ParseIP (s : string) : option IP := To16 <$> parse_addr s.

(** ** Networks *)

Record IPNet := { net_IP : IP; net_Mask : list Z }.

(** Byte [i] of a mask of [ones] bits. *)
Definition mask_byte (ones : Z) (i : nat) : Z :=
  let n := Z.max 0 (Z.min 8 (ones - 8 * Z.of_nat i)) in 256 - Z.shiftl 1 (8 - n).

Definition CIDRMask (ones bits : Z) : list Z := mask_byte ones <$> seq 0 (Z.to_nat (bits / 8)).

Definition IP_Mask (ip : IP) (mask : list Z) : IP :=
  let mask := if (length mask =? 16)%nat && (length ip =? 4)%nat && bool_decide (take 12 mask = replicate 12 255)
              then drop 12 mask else mask in
  let ip := if (length mask =? 4)%nat && (length ip =? 16)%nat && bool_decide (take 12 ip = v4InV6Prefix)
            then drop 12 ip else ip in
  if (length ip =? length mask)%nat then zip_with Z.land ip mask else [].

Definition networkNumberAndMask (n : IPNet) : option (IP * list Z) :=
  let ip := if is4 (net_IP n) then To4 (net_IP n) else net_IP n in
  if negb ((length ip =? 4)%nat || (length ip =? 16)%nat) then None
  else
    let m := net_Mask n in
    if (length m =? 4)%nat then if (length ip =? 4)%nat then Some (ip, m) else None
    else if (length m =? 16)%nat then Some (ip, if (length ip =? 4)%nat then drop 12 m else m)
    else None.

Definition Contains (n : IPNet) (ip : IP) : bool :=
  let x := if is4 ip then To4 ip else ip in
  match networkNumberAndMask n with
  | None => false
  | Some (nn, m) => (length x =? length nn)%nat && bool_decide (zip_with Z.land nn m = zip_with Z.land x m)
  end.

(** The number of ones that a mask starts with, when zeros follow them. *)
Fixpoint mask_length (m : list Z) : option Z :=
  match m with
  | [] => Some 0
  | b :: m' =>
      if b =? 255 then Z.add 8 <$> mask_length m'
      else if forallb (Z.eqb 0) m' then
        '(i, _) ← list_find (λ i, mask_byte (Z.of_nat i) 0 = b) (seq 0 8); Some (Z.of_nat i)
      else None
  end.

Definition IPNet_String (n : IPNet) : string :=
  match networkNumberAndMask n with
  | None => "<nil>"
  | Some (nn, m) =>
      IP_String nn +:+ "/" +:+
      match mask_length m with Some l => fmt_int l | None => hex_of_bytes m end
  end.

(** [dtoi] of a whole string. *)
Definition parse_prefix (s : string) : option Z :=
  let '(digits, rest) := scan_digits s in
  if bool_decide (digits = "") || negb (bool_decide (rest = "")) then None
  else
    let v := foldl (λ acc c, 10 * acc + (byte_of c - 48)) 0 (String.list_ascii_of_string digits) in
    if v <? 0xFFFFFF then Some v else None.

Definition ParseCIDR (s : string) : option (IP * IPNet) :=
  '(addr, mask) ← Cut s "/";
  ip ← parse_addr addr;
  let bits := 8 * Z.of_nat (length ip) in
  n ← parse_prefix mask;
  if n <=? bits then
    let m := CIDRMask n bits in Some (To16 ip, {| net_IP := IP_Mask (To16 ip) m; net_Mask := m |})
  else None.

(** ** Hosts and ports *)

(** The port follows the last colon, and an address in brackets ends right before it. *)
Definition SplitHostPort (addr : string) : option (string * string) :=
  match CutLast addr ":" with
  | None => None
  | Some (before, port) =>
      match addr with
      | String "["%char rest =>
          match Cut rest "]" with
          | Some (host, after) =>
              if bool_decide (before = String "["%char (host +:+ "]")) && bool_decide (Cut host "[" = None) &&
                 bool_decide (Cut after "[" = None) && bool_decide (Cut after "]" = None)
              then Some (host, port) else None
          | None => None
          end
      | _ => if bool_decide (Cut before ":" = None) && bool_decide (Cut addr "[" = None) &&
                bool_decide (Cut addr "]" = None)
             then Some (before, port) else None
      end
  end.

Definition JoinHostPort (host port : string) : string :=
  if bool_decide (Cut host ":" = None) then host +:+ ":" +:+ port else "[" +:+ host +:+ "]:" +:+ port.

(** ** Examples *)

Example text_v6 : IP_String <$> ParseIP "fd00:ec2:0:0:0:0:0:254" = Some "fd00:ec2::254".
Proof. vm_compute. reflexivity. Qed.

Example text_mapped : IP_String <$> ParseIP "::ffff:10.0.0.7" = Some "10.0.0.7".
Proof. vm_compute. reflexivity. Qed.

Example cidr_v4 : IPNet_String ∘ snd <$> ParseCIDR "169.254.7.1/16" = Some "169.254.0.0/16".
Proof. vm_compute. reflexivity. Qed.

Example cidr_v6 : IPNet_String ∘ snd <$> ParseCIDR "64:ff9b::/96" = Some "64:ff9b::/96".
Proof. vm_compute. reflexivity. Qed.

End GoNet.
