(* ===== verification/Atomic.v ===== *)
(** * Programs over a shared store

    A request handler runs concurrently with others; what it does to a store guarded by a
    lock is a sequence of atomic operations, between which other handlers run.  A program
    is such a sequence; [run] executes it alone, and [reaches] interleaves any number of
    programs.  A property of the store that every operation of every program keeps, holds
    in every interleaving. *)

From S2P Require Import Prelude.

Inductive prog (S A : Type) : Type :=
| Ret (a : A)
| Atomic {B : Type} (f : S → B * S) (k : B → prog S A).
Arguments Ret {S A} a.
Arguments Atomic {S A B} f k.

Fixpoint pbind {S A B} (p : prog S A) (k : A → prog S B) : prog S B :=
  match p with
  | Ret a => k a
  | Atomic f k' => Atomic f (λ b, pbind (k' b) k)
  end.

(** One operation. *)
Definition op {S A} (f : S → A * S) : prog S A := Atomic f Ret.

(** An operation that only reads. *)
Definition rd {S A} (f : S → A) : prog S A := op (λ s, (f s, s)).

Declare Scope prog_scope.
Delimit Scope prog_scope with prog.
#[global] Open Scope prog_scope.

Notation "'do' x := p ; k" := (pbind p (fun x => k))
  (at level 200, x pattern, p at level 100, k at level 200, right associativity) : prog_scope.

(** Go's early return on an error. *)
Definition pbind_ok {S E A B} (p : prog S (result E A)) (k : A → prog S (result E B)) : prog S (result E B) :=
  pbind p (λ r, match r with Ok a => k a | Err e => Ret (Err e) end).

Notation "'do?' x := p ; k" := (pbind_ok p (fun x => k))
  (at level 200, x pattern, p at level 100, k at level 200, right associativity) : prog_scope.

(** A program on one part of the state. *)
Fixpoint on_fst {S T A} (p : prog S A) : prog (S * T) A :=
  match p with
  | Ret a => Ret a
  | Atomic f k => Atomic (λ '(s, t), let '(b, s') := f s in (b, (s', t))) (λ b, on_fst (k b))
  end.

Fixpoint on_snd {S T A} (p : prog T A) : prog (S * T) A :=
  match p with
  | Ret a => Ret a
  | Atomic f k => Atomic (λ '(s, t), let '(b, t') := f t in (b, (s, t'))) (λ b, on_snd (k b))
  end.

(** ** Alone *)

Fixpoint run {S A} (p : prog S A) (s : S) : A * S :=
  match p with
  | Ret a => (a, s)
  | Atomic f k => let '(b, s') := f s in run (k b) s'
  end.

Lemma run_op {S A} (f : S → A * S) s : run (op f) s = f s.
Proof. unfold op. simpl. by destruct (f s). Qed.

Lemma run_bind {S A B} (p : prog S A) (k : A → prog S B) s :
  run (pbind p k) s = let '(a, s') := run p s in run (k a) s'.
Proof. revert s. induction p as [a|B' f k' IH]; intros s; simpl; [done|]. by destruct (f s) as [b s']. Qed.

Lemma run_bind_ok {S E A B} (p : prog S (result E A)) (k : A → prog S (result E B)) s :
  run (pbind_ok p k) s = let '(r, s') := run p s in match r with Ok a => run (k a) s' | Err e => (Err e, s') end.
Proof. unfold pbind_ok. rewrite run_bind. by destruct (run p s) as [[a|e] s']. Qed.

Lemma run_on_fst {S T A} (p : prog S A) s (t : T) : run (on_fst p) (s, t) = let '(a, s') := run p s in (a, (s', t)).
Proof. revert s. induction p as [a|B f k IH]; intros s; simpl; [done|]. by destruct (f s). Qed.

Lemma run_on_snd {S T A} (p : prog T A) (s : S) t : run (on_snd p) (s, t) = let '(a, t') := run p t in (a, (s, t')).
Proof. revert t. induction p as [a|B f k IH]; intros t; simpl; [done|]. by destruct (f t). Qed.

(** ** Interleaved *)

Section interleaving.
Context {S A : Type}.

(** The store and the programs that are under way. *)
Definition config : Type := S * list (prog S A).

Inductive step (new : prog S A → Prop) : config → config → Prop :=
| step_atomic {B} s ps1 (f : S → B * S) k ps2 b s' :
    f s = (b, s') → step new (s, ps1 ++ Atomic f k :: ps2) (s', ps1 ++ k b :: ps2)
| step_arrive s ps p : new p → step new (s, ps) (s, p :: ps).

Definition reaches (new : prog S A → Prop) : config → config → Prop := rtc (step new).

(** One schedule: a program arrives, or the one at a position takes its next step. *)
Definition advance (i : nat) (c : config) : config :=
  match c.2 !! i with
  | Some (Atomic f k) => let '(b, s') := f c.1 in (s', <[i := k b]> c.2)
  | _ => c
  end.

Definition schedule (acts : list (prog S A + nat)) (c : config) : config :=
  foldl (λ c act, match act with inl p => (c.1, p :: c.2) | inr i => advance i c end) c acts.

Lemma advance_reaches new i c : reaches new c (advance i c).
Proof.
  destruct c as [s ps]. unfold advance. simpl. destruct (ps !! i) as [[a|B f k]|] eqn:E; [done| |done].
  destruct (f s) as [b s'] eqn:Ef. apply rtc_once. rewrite insert_take_drop by by eapply lookup_lt_Some.
  rewrite <- (take_drop_middle _ _ _ E) at 1. by apply step_atomic.
Qed.

Lemma schedule_reaches (new : prog S A → Prop) acts c :
  Forall (λ act, match act with inl p => new p | inr _ => True end) acts → reaches new c (schedule acts c).
Proof.
  intros Hall. revert c. induction Hall as [|act acts Ha Hall IH]; intros c; [done|]. simpl.
  etrans; [|apply IH]. destruct act as [p|i]; [|apply advance_reaches]. apply rtc_once. destruct c. by apply step_arrive.
Qed.

(** Every operation of the program keeps [I], whatever the answers to the ones before it. *)
Fixpoint keeps (I : S → Prop) (p : prog S A) : Prop :=
  match p with
  | Ret _ => True
  | Atomic f k => (∀ s, I s → I (f s).2) ∧ ∀ b, keeps I (k b)
  end.

Lemma step_keeps (I : S → Prop) (new : prog S A → Prop) c c' :
  (∀ p, new p → keeps I p) → step new c c' → Forall (keeps I) c.2 → Forall (keeps I) c'.2 ∧ (I c.1 → I c'.1).
Proof.
  intros Hnew [B s ps1 f k ps2 b s' Hf|s ps p Hp] Hps; simpl in *.
  - rewrite Forall_app, Forall_cons in *. destruct Hps as (H1 & [Hk Hb] & H2). split; [auto|].
    intros HI. specialize (Hk s HI). by rewrite Hf in Hk.
  - split; [|done]. constructor; auto.
Qed.

Lemma reaches_keeps (I : S → Prop) (new : prog S A → Prop) c c' :
  (∀ p, new p → keeps I p) → reaches new c c' → Forall (keeps I) c.2 → Forall (keeps I) c'.2 ∧ (I c.1 → I c'.1).
Proof.
  intros Hnew. induction 1 as [c|c1 c2 c3 Hstep _ IH]; [done|]. intros Hc.
  destruct (step_keeps I new c1 c2 Hnew Hstep Hc) as [H1 H2]. destruct (IH H1). auto.
Qed.

End interleaving.

(** A program keeps what each of its parts keeps. *)
Lemma keeps_bind {S A B} (I : S → Prop) (p : prog S A) (k : A → prog S B) :
  keeps I p → (∀ a, keeps I (k a)) → keeps I (pbind p k).
Proof.
  intros Hp Hk. induction p as [a|B' f k' IH]; simpl in *; [done|].
  destruct Hp as [H1 H2]. auto.
Qed.

Lemma run_keeps {S A} (I : S → Prop) (p : prog S A) s : keeps I p → I s → I (run p s).2.
Proof.
  revert s. induction p as [a|B f k IH]; intros s; simpl; [done|]. intros [H1 H2] HI.
  specialize (H1 s HI). destruct (f s) as [b s']. by apply IH.
Qed.

Lemma keeps_bind_ok {S E A B} (I : S → Prop) (p : prog S (result E A)) (k : A → prog S (result E B)) :
  keeps I p → (∀ a, keeps I (k a)) → keeps I (pbind_ok p k).
Proof. intros Hp Hk. apply keeps_bind; [done|]. intros [a|e]; simpl; auto. Qed.

(** A check that touches nothing. *)
Lemma keeps_check {S E A B} (I : S → Prop) (r : result E A) (k : A → prog S (result E B)) :
  (∀ a, r = Ok a → keeps I (k a)) → keeps I (pbind_ok (Ret r) k).
Proof. intros Hk. destruct r as [a|e]; [by apply Hk|done]. Qed.

Lemma keeps_op {S A} (I : S → Prop) (f : S → A * S) : (∀ s, I s → I (f s).2) → keeps I (op f).
Proof. by intros Hf. Qed.

Lemma keeps_rd {S A} (I : S → Prop) (f : S → A) : keeps I (rd f).
Proof. done. Qed.

(** The same, where the answers are ones that a store with [I] gives. *)
Fixpoint maintains {S A} (I : S → Prop) (p : prog S A) : Prop :=
  match p with
  | Ret _ => True
  | Atomic f k => ∀ s, I s → I (f s).2 ∧ maintains I (k (f s).1)
  end.

Lemma keeps_maintains {S A} (I : S → Prop) (p : prog S A) : keeps I p → maintains I p.
Proof. induction p as [a|B f k IH]; simpl; [done|]. intros [Hf Hk] s Hs. auto. Qed.

Lemma maintains_rd_ok {S E A B} (I : S → Prop) (f : S → result E A) (k : A → prog S (result E B)) :
  (∀ s a, I s → f s = Ok a → maintains I (k a)) → maintains I (pbind_ok (rd f) k).
Proof. intros Hk s Hs. simpl. split; [done|]. destruct (f s) as [a|e] eqn:Hf; [by eapply Hk|done]. Qed.

Lemma reaches_maintains {S A} (I : S → Prop) (new : prog S A → Prop) c c' :
  (∀ p, new p → maintains I p) → reaches new c c' → I c.1 → Forall (maintains I) c.2 → I c'.1.
Proof.
  intros Hnew. induction 1 as [c|c1 c2 c3 Hstep _ IH]; [done|]. intros HI Hps. apply IH; clear IH;
    destruct Hstep as [B s ps1 f k ps2 b s' Hf|s ps p Hp]; simpl in *; [| done | | by constructor; [apply Hnew|]];
    rewrite Forall_app, Forall_cons in *; destruct Hps as (H1 & Hk & H2); destruct (Hk s HI) as [Hs Hb]; rewrite Hf in Hs, Hb; auto.
Qed.

(** ** Tokens

    A number in the store that counts tokens which programs take and give back.  A program
    is honest when each of its steps accounts for the tokens that it holds, and then the
    number is the sum of what the programs under way hold. *)

Section tokens.
Context {S : Type} (count : S → Z) (I : S → Prop).

(** [p] starts with [t] tokens, keeps [I], changes the number by what it takes or gives
    back, and ends with a result and tokens in [Q]. *)
Fixpoint honest {A} (t : Z) (p : prog S A) (Q : A → Z → Prop) : Prop :=
  match p with
  | Ret a => Q a t
  | Atomic f k => ∀ s, I s → 0 ≤ t ≤ count s →
      I (f s).2 ∧ ∃ t', 0 ≤ t' ∧ count (f s).2 - t' = count s - t ∧ honest t' (k (f s).1) Q
  end.

Lemma honest_mono {A} t (p : prog S A) (Q Q' : A → Z → Prop) : (∀ a t, Q a t → Q' a t) → honest t p Q → honest t p Q'.
Proof.
  intros HQ. revert t. induction p as [a|B f k IH]; intros t; simpl; [apply HQ|]. intros H s HI Ht.
  destruct (H s HI Ht) as (HI' & t' & ? & ? & ?). split; [done|]. exists t'. eauto.
Qed.

Lemma honest_bind {A B} t (p : prog S A) (k : A → prog S B) Q :
  honest t p (λ a t', honest t' (k a) Q) → honest t (pbind p k) Q.
Proof.
  revert t. induction p as [a|B' f k' IH]; intros t; simpl; [done|]. intros H s HI Ht.
  destruct (H s HI Ht) as (HI' & t' & ? & ? & ?). split; [done|]. exists t'. eauto.
Qed.

(** A step that leaves the number alone. *)
Lemma honest_op {A} t (f : S → A * S) (Q : A → Z → Prop) :
  (∀ s, I s → I (f s).2 ∧ count (f s).2 = count s) → 0 ≤ t → (∀ a, Q a t) → honest t (op f) Q.
Proof. intros Hf Ht HQ s HI Hs. destruct (Hf s HI) as [HI' Hc]. split; [done|]. exists t. split_and!; [done|lia|apply HQ]. Qed.

Definition accounted {A} (c : config (A := A)) : Prop :=
  I c.1 ∧ ∃ ts, Forall2 (λ t p, 0 ≤ t ∧ honest t p (λ _ t, t = 0)) ts c.2 ∧ zsum id ts = count c.1.

Lemma tokens_nonneg ts : Forall (Z.le 0) ts → 0 ≤ zsum id ts.
Proof. induction 1; [done|]. rewrite zsum_cons. change (id x) with x. lia. Qed.

Lemma step_accounted {A} (new : prog S A → Prop) c c' :
  (∀ p, new p → honest 0 p (λ _ t, t = 0)) → step new c c' → accounted c → accounted c'.
Proof.
  intros Hnew [B s ps1 f k ps2 b s' Hf|s ps p Hp] (HI & ts & Hts & Hsum); simpl in *.
  - apply Forall2_app_inv_r in Hts as (ts1 & ts' & H1 & H2 & ->).
    apply Forall2_cons_inv_r in H2 as (t & ts2 & [Ht Hh] & H2 & ->). rewrite zsum_app in Hsum. rewrite zsum_cons in Hsum.
    assert (0 ≤ zsum id ts1) as Hn1.
    { apply tokens_nonneg. eapply Forall2_Forall_l; [exact H1|]. apply Forall_true. by intros ? ? []. }
    assert (0 ≤ zsum id ts2) as Hn2.
    { apply tokens_nonneg. eapply Forall2_Forall_l; [exact H2|]. apply Forall_true. by intros ? ? []. }
    destruct (Hh s HI) as (HI' & t' & Ht' & Hc & Hk); [change (id t) with t in Hsum; lia|]. rewrite Hf in HI', Hc, Hk. simpl in *.
    split; [done|]. exists (ts1 ++ t' :: ts2). split; [apply Forall2_app; [done|]; by constructor|].
    rewrite zsum_app, zsum_cons. change (id t') with t'. simpl. lia.
  - split; [done|]. exists (0 :: ts). split; [constructor; [split; [lia|by apply Hnew]|done]|done].
Qed.

Lemma reaches_accounted {A} (new : prog S A → Prop) c c' :
  (∀ p, new p → honest 0 p (λ _ t, t = 0)) → reaches new c c' → accounted c → accounted c'.
Proof. intros Hnew. induction 1 as [c|c1 c2 c3 Hs _ IH]; [done|]. intros Hc. by apply IH, (step_accounted new c1). Qed.

(** When every program has finished, no token is out. *)
Lemma accounted_finished {A} (c : config (A := A)) :
  accounted c → Forall (λ p, ∃ a, p = Ret a) c.2 → count c.1 = 0.
Proof.
  intros (_ & ts & Hts & <-) Hf. induction Hts as [|t p ts ps [_ Ht] _ IH]; [done|].
  apply Forall_cons in Hf as [[a ->] Hf]. simpl in Ht. rewrite zsum_cons, IH by done. change (id t) with t. lia.
Qed.

End tokens.

Create HintDb keeps.
#[export] Hint Resolve keeps_bind keeps_bind_ok keeps_op keeps_rd : keeps.
