(* ===== verification/Saas.v ===== *)
(** * internal/saas: accounts, organizations and their store

    model.go and store.go.  An account is a person, an organization owns things; a
    membership gives an account a role in an organization.  [Store] is the interface the
    services use, [MemStore] the in-memory implementation; an operation runs under the
    store's lock and is atomic.  The errors are the sentinels of the package, which
    wrapping preserves; other errors are [ErrOther]. *)

From Stdlib Require Import Ascii.
From S2P Require Import Prelude GoStrings.
Import GoStrings.

Module Saas.

Inductive saas_error :=
| ErrNotFound | ErrConflict | ErrForbidden | ErrLastOwner | ErrRoleNotGrantable
| ErrInvitePending | ErrInviteExpired | ErrInviteNotPending | ErrInviteEmailMismatch
| ErrKeyMalformed | ErrKeyUnknown | ErrKeyExpired | ErrKeyRevoked | ErrKeyScope | ErrKeyWrongOrg | ErrUnknownScope
| ErrSessionInvalid | ErrLoginRejected | ErrOther.

#[global] Instance saas_error_eq_dec : EqDecision saas_error.
Proof. solve_decision. Defined.

(** ** model.go *)

Record Account := {
  a_ID : string;
  a_Email : string;
  a_CreatedAt : Z;
  a_PersonalOrgID : string;
  a_DisplayName : string;
  a_Timezone : string;
  a_Locale : string;
}.

Record Organization := {
  o_ID : string;
  o_Name : string;
  o_CreatedAt : Z;
  o_Personal : bool;
  o_HomeRegion : string;
}.

Definition Role : Type := string.

Definition RoleOwner : Role := "owner".
Definition RoleMember : Role := "member".
Definition RoleAdmin : Role := "admin".
Definition RoleBilling : Role := "billing".
Definition RoleViewer : Role := "viewer".

Definition Permission : Type := string.

Definition PermManageMembers : Permission := "members.manage".
Definition PermManageProjects : Permission := "projects.manage".
Definition PermManageSecrets : Permission := "secrets.manage".
Definition PermManageBilling : Permission := "billing.manage".
Definition PermUseResources : Permission := "resources.use".
Definition PermReadOnly : Permission := "read".
Definition PermManageSettings : Permission := "settings.manage".

Definition rolePerms : list (Role * list Permission) :=
  [(RoleOwner, [PermManageMembers; PermManageProjects; PermManageSecrets; PermManageBilling; PermUseResources;
                PermReadOnly; PermManageSettings]);
   (RoleAdmin, [PermManageMembers; PermManageProjects; PermManageSecrets; PermUseResources; PermReadOnly;
                PermManageSettings]);
   (RoleBilling, [PermManageBilling; PermReadOnly]);
   (RoleMember, [PermUseResources; PermReadOnly]);
   (RoleViewer, [PermReadOnly])].

Definition Can (r : Role) (p : Permission) : bool :=
  existsb (λ '(r', ps), bool_decide (r' = r) && existsb (λ p', bool_decide (p' = p)) ps) rolePerms.

Definition canGrantRole (actorRole targetRole : Role) : bool :=
  if bool_decide (targetRole = RoleOwner) then bool_decide (actorRole = RoleOwner) else true.

Record Membership := {
  m_AccountID : string;
  m_OrgID : string;
  m_Role : Role;
  m_CreatedAt : Z;
}.

Record ApiKey := {
  k_ID : string;
  k_OrgID : string;
  k_Name : string;
  k_Prefix : string;
  k_Hash : string;
  k_Scopes : list string;
  k_CreatedAt : Z;
  k_ExpiresAt : Z;
  k_RevokedAt : Z;
}.

Definition zero_key : ApiKey :=
  {| k_ID := ""; k_OrgID := ""; k_Name := ""; k_Prefix := ""; k_Hash := ""; k_Scopes := [];
     k_CreatedAt := 0; k_ExpiresAt := 0; k_RevokedAt := 0 |}.

Definition IsExpired (k : ApiKey) (now : Z) : bool :=
  if time_is_zero (k_ExpiresAt k) then false else negb (now <? k_ExpiresAt k).

Definition IsRevoked (k : ApiKey) : bool := negb (time_is_zero (k_RevokedAt k)).

Definition ScopeReadOnly : string := "read".
Definition ScopeExecute : string := "execute".
Definition ScopeLifecycle : string := "lifecycle".
Definition ScopeAdmin : string := "admin".
Definition ScopeSandboxes : string := "sandboxes".

Definition scopeImplied (held : string) : list string :=
  if bool_decide (held = ScopeSandboxes) then [ScopeReadOnly; ScopeExecute; ScopeLifecycle]
  else if bool_decide (held = ScopeLifecycle) then [ScopeReadOnly]
  else if bool_decide (held = ScopeExecute) then [ScopeReadOnly]
  else [].

Definition scopeSatisfies (held required : string) : bool :=
  bool_decide (held = required) || existsb (λ imp, bool_decide (imp = required)) (scopeImplied held).

Definition HasScope (k : ApiKey) (required : string) : bool :=
  existsb (λ held, scopeSatisfies held required) (k_Scopes k).

Definition knownScopes (sc : string) : bool :=
  bool_decide (sc ∈ [ScopeReadOnly; ScopeExecute; ScopeLifecycle; ScopeAdmin; ScopeSandboxes]).

Definition FullScopes : list string := [ScopeReadOnly; ScopeExecute; ScopeLifecycle; ScopeAdmin].
Definition DefaultScopes : list string := [ScopeReadOnly; ScopeExecute; ScopeLifecycle].

(** ** Invitations (the types of invites.go) *)

Definition InvitationState : Type := string.

Definition InvitationPending : InvitationState := "pending".
Definition InvitationAccepted : InvitationState := "accepted".
Definition InvitationExpired : InvitationState := "expired".
Definition InvitationRevoked : InvitationState := "revoked".

Record Invitation := {
  i_ID : string;
  i_OrgID : string;
  i_Email : string;
  i_Role : Role;
  i_TokenHash : string;
  i_State : InvitationState;
  i_InviterID : string;
  i_CreatedAt : Z;
  i_ExpiresAt : Z;
}.

Definition EffectiveState (i : Invitation) (now : Z) : InvitationState :=
  if bool_decide (i_State i = InvitationPending) && negb (time_is_zero (i_ExpiresAt i)) &&
     negb (now <? i_ExpiresAt i)
  then InvitationExpired else i_State i.

Definition InvitationTTL : Z := 7 * 24 * hour.

(** ** The store

    [wall] is the reading of the process clock that the operation takes. *)

Class Store (S : Type) := {
  PutAccount : Account → S → result saas_error unit * S;
  GetAccount : string → S → result saas_error Account;
  GetAccountByEmail : string → S → result saas_error Account;
  PutOrg : Organization → S → result saas_error unit * S;
  GetOrg : string → S → result saas_error Organization;
  ListOrgs : S → result saas_error (list Organization);
  PutMembership : Membership → S → result saas_error unit * S;
  ListMemberships : string → S → result saas_error (list Membership);
  ListOrgMembers : string → S → result saas_error (list Membership);
  SetMembershipRole : string → string → Role → S → result saas_error unit * S;
  DeleteMembership : string → string → S → result saas_error unit * S;
  PutApiKey : ApiKey → S → result saas_error unit * S;
  GetApiKeyByHash : string → S → result saas_error ApiKey;
  GetApiKey : string → S → result saas_error ApiKey;
  ListApiKeys : string → S → result saas_error (list ApiKey);
  RevokeApiKey : string → Z → S → result saas_error unit * S;
  CreateInvitation (wall : Z) : Invitation → S → result saas_error unit * S;
  ReplaceInvitation (wall : Z) : string → Invitation → S → result saas_error unit * S;
  ListInvitations : string → S → result saas_error (list Invitation);
  GetInvitationByTokenHash : string → S → result saas_error Invitation;
  UpdateInvitationState : string → InvitationState → S → result saas_error unit * S;
  RemoveInvitation : string → S → result saas_error unit * S;
}.

(** ** The in-memory store *)

Record MemStore := {
  accounts : gmap string Account;
  byEmail : gmap string string;
  orgs : gmap string Organization;
  members : gmap string (list Membership);
  keys : gmap string ApiKey;
  byHash : gmap string string;
  invitations : gmap string Invitation;
  inviteHash : gmap string string;
}.

Definition NewMemStore : MemStore :=
  {| accounts := ∅; byEmail := ∅; orgs := ∅; members := ∅; keys := ∅; byHash := ∅; invitations := ∅;
     inviteHash := ∅ |}.

Definition set_accounts (a : gmap string Account) (e : gmap string string) (s : MemStore) : MemStore :=
  {| accounts := a; byEmail := e; orgs := orgs s; members := members s; keys := keys s; byHash := byHash s;
     invitations := invitations s; inviteHash := inviteHash s |}.

Definition set_orgs (o : gmap string Organization) (s : MemStore) : MemStore :=
  {| accounts := accounts s; byEmail := byEmail s; orgs := o; members := members s; keys := keys s;
     byHash := byHash s; invitations := invitations s; inviteHash := inviteHash s |}.

Definition set_members (m : gmap string (list Membership)) (s : MemStore) : MemStore :=
  {| accounts := accounts s; byEmail := byEmail s; orgs := orgs s; members := m; keys := keys s;
     byHash := byHash s; invitations := invitations s; inviteHash := inviteHash s |}.

Definition set_keys (k : gmap string ApiKey) (h : gmap string string) (s : MemStore) : MemStore :=
  {| accounts := accounts s; byEmail := byEmail s; orgs := orgs s; members := members s; keys := k;
     byHash := h; invitations := invitations s; inviteHash := inviteHash s |}.

Definition set_invites (i : gmap string Invitation) (h : gmap string string) (s : MemStore) : MemStore :=
  {| accounts := accounts s; byEmail := byEmail s; orgs := orgs s; members := members s; keys := keys s;
     byHash := byHash s; invitations := i; inviteHash := h |}.

(** A map with a value that must be there. *)
Definition found {A} (o : option A) : result saas_error A := from_option Ok (Err ErrNotFound) o.

Definition zero_account : Account :=
  {| a_ID := ""; a_Email := ""; a_CreatedAt := 0; a_PersonalOrgID := ""; a_DisplayName := ""; a_Timezone := "";
     a_Locale := "" |}.

Definition zero_invitation : Invitation :=
  {| i_ID := ""; i_OrgID := ""; i_Email := ""; i_Role := ""; i_TokenHash := ""; i_State := "";
     i_InviterID := ""; i_CreatedAt := 0; i_ExpiresAt := 0 |}.

Section mem.
Context `{!SliceSort, !MapRange, !Unicode}.

Definition mem_PutAccount (a : Account) (s : MemStore) : result saas_error unit * MemStore :=
  match byEmail s !! a_Email a with
  | Some existing =>
      if negb (bool_decide (existing = a_ID a)) then (Err ErrConflict, s)
      else (Ok tt, set_accounts (<[a_ID a := a]> (accounts s)) (<[a_Email a := a_ID a]> (byEmail s)) s)
  | None => (Ok tt, set_accounts (<[a_ID a := a]> (accounts s)) (<[a_Email a := a_ID a]> (byEmail s)) s)
  end.

Definition mem_GetAccount (id : string) (s : MemStore) : result saas_error Account := found (accounts s !! id).

Definition mem_GetAccountByEmail (email : string) (s : MemStore) : result saas_error Account :=
  match byEmail s !! email with
  | None => Err ErrNotFound
  | Some id => Ok (default zero_account (accounts s !! id))
  end.

Definition with_region (region : string) (o : Organization) : Organization :=
  {| o_ID := o_ID o; o_Name := o_Name o; o_CreatedAt := o_CreatedAt o; o_Personal := o_Personal o;
     o_HomeRegion := region |}.

Definition mem_PutOrg (o : Organization) (s : MemStore) : result saas_error unit * MemStore :=
  let o := match orgs s !! o_ID o with
           | Some existing =>
               if negb (bool_decide (o_HomeRegion existing = "")) then with_region (o_HomeRegion existing) o else o
           | None => o
           end in
  (Ok tt, set_orgs (<[o_ID o := o]> (orgs s)) s).

Definition mem_GetOrg (id : string) (s : MemStore) : result saas_error Organization := found (orgs s !! id).

Definition mem_ListOrgs (s : MemStore) : result saas_error (list Organization) :=
  Ok (map_range "ListOrgs" (orgs s)).*2.

(** The position of the membership in an organization. *)
Definition member_index (orgID : string) (l : list Membership) : option nat :=
  fst <$> list_find (λ m, m_OrgID m = orgID) l.

Definition mem_PutMembership (m : Membership) (s : MemStore) : result saas_error unit * MemStore :=
  let l := default [] (members s !! m_AccountID m) in
  match member_index (m_OrgID m) l with
  | Some i => (Ok tt, set_members (<[m_AccountID m := <[i := m]> l]> (members s)) s)
  | None => (Ok tt, set_members (<[m_AccountID m := l ++ [m]]> (members s)) s)
  end.

Definition mem_ListMemberships (accountID : string) (s : MemStore) : result saas_error (list Membership) :=
  Ok (default [] (members s !! accountID)).

(** The memberships of all accounts, as a range over the map meets them. *)
Definition all_members (site : string) (s : MemStore) : list Membership :=
  concat (map_range site (members s)).*2.

Definition mem_ListOrgMembers (orgID : string) (s : MemStore) : result saas_error (list Membership) :=
  Ok (filter (λ m, m_OrgID m = orgID) (all_members "ListOrgMembers" s)).

Definition org_owners (site orgID : string) (s : MemStore) : list Membership :=
  filter (λ m, m_OrgID m = orgID ∧ m_Role m = RoleOwner) (all_members site s).

Definition with_role (role : Role) (m : Membership) : Membership :=
  {| m_AccountID := m_AccountID m; m_OrgID := m_OrgID m; m_Role := role; m_CreatedAt := m_CreatedAt m |}.

Definition mem_SetMembershipRole (orgID targetAccountID : string) (role : Role) (s : MemStore) :
    result saas_error unit * MemStore :=
  let owners := org_owners "SetMembershipRole" orgID s in
  let targetIsOwner := existsb (λ m, bool_decide (m_AccountID m = targetAccountID)) owners in
  if negb (bool_decide (role = RoleOwner)) && (targetIsOwner && (Z.of_nat (length owners) <=? 1))
  then (Err ErrLastOwner, s)
  else match members s !! targetAccountID with
       | None => (Err ErrNotFound, s)
       | Some l =>
           match member_index orgID l with
           | Some i => (Ok tt, set_members (<[targetAccountID := alter (with_role role) i l]> (members s)) s)
           | None => (Err ErrNotFound, s)
           end
       end.

Definition mem_DeleteMembership (orgID accountID : string) (s : MemStore) : result saas_error unit * MemStore :=
  match members s !! accountID with
  | None => (Err ErrNotFound, s)
  | Some l =>
      match list_find (λ m, m_OrgID m = orgID) l with
      | None => (Err ErrNotFound, s)
      | Some (i, target) =>
          if bool_decide (m_Role target = RoleOwner) &&
             (Z.of_nat (length (org_owners "DeleteMembership" orgID s)) <=? 1)
          then (Err ErrLastOwner, s)
          else (Ok tt, set_members (<[accountID := take i l ++ drop (S i) l]> (members s)) s)
      end
  end.

Definition mem_PutApiKey (k : ApiKey) (s : MemStore) : result saas_error unit * MemStore :=
  match keys s !! k_ID k with
  | Some _ => (Err ErrConflict, s)
  | None => (Ok tt, set_keys (<[k_ID k := k]> (keys s)) (<[k_Hash k := k_ID k]> (byHash s)) s)
  end.

Definition mem_GetApiKeyByHash (hash : string) (s : MemStore) : result saas_error ApiKey :=
  match byHash s !! hash with
  | None => Err ErrNotFound
  | Some id => Ok (default zero_key (keys s !! id))
  end.

Definition mem_GetApiKey (id : string) (s : MemStore) : result saas_error ApiKey := found (keys s !! id).

Definition mem_ListApiKeys (orgID : string) (s : MemStore) : result saas_error (list ApiKey) :=
  Ok (filter (λ k, k_OrgID k = orgID) (map_range "ListApiKeys" (keys s)).*2).

Definition with_revoked (at_ : Z) (k : ApiKey) : ApiKey :=
  {| k_ID := k_ID k; k_OrgID := k_OrgID k; k_Name := k_Name k; k_Prefix := k_Prefix k; k_Hash := k_Hash k;
     k_Scopes := k_Scopes k; k_CreatedAt := k_CreatedAt k; k_ExpiresAt := k_ExpiresAt k; k_RevokedAt := at_ |}.

Definition mem_RevokeApiKey (id : string) (at_ : Z) (s : MemStore) : result saas_error unit * MemStore :=
  match keys s !! id with
  | None => (Err ErrNotFound, s)
  | Some k =>
      if IsRevoked k then (Ok tt, s)
      else (Ok tt, set_keys (<[id := with_revoked at_ k]> (keys s)) (byHash s) s)
  end.

Definition hasPendingInvitationLocked (orgID email : string) (now : Z) (s : MemStore) : bool :=
  existsb (λ '(_, i), bool_decide (i_OrgID i = orgID) && EqualFold (i_Email i) email &&
                      bool_decide (EffectiveState i now = InvitationPending))
    (map_range "hasPendingInvitationLocked" (invitations s)).

Definition with_times (created expires : Z) (i : Invitation) : Invitation :=
  {| i_ID := i_ID i; i_OrgID := i_OrgID i; i_Email := i_Email i; i_Role := i_Role i; i_TokenHash := i_TokenHash i;
     i_State := i_State i; i_InviterID := i_InviterID i; i_CreatedAt := created; i_ExpiresAt := expires |}.

(** Times that are not set are now and the standard lifetime later. *)
Definition default_times (wall : Z) (i : Invitation) : Invitation :=
  let created := if time_is_zero (i_CreatedAt i) then wall else i_CreatedAt i in
  with_times created (if time_is_zero (i_ExpiresAt i) then created + InvitationTTL else i_ExpiresAt i) i.

Definition mem_CreateInvitation (wall : Z) (inv : Invitation) (s : MemStore) : result saas_error unit * MemStore :=
  match invitations s !! i_ID inv, inviteHash s !! i_TokenHash inv with
  | Some _, _ => (Err ErrConflict, s)
  | None, Some _ => (Err ErrConflict, s)
  | None, None =>
      let inv := default_times wall inv in
      if hasPendingInvitationLocked (i_OrgID inv) (i_Email inv) (i_CreatedAt inv) s then (Err ErrInvitePending, s)
      else (Ok tt, set_invites (<[i_ID inv := inv]> (invitations s)) (<[i_TokenHash inv := i_ID inv]> (inviteHash s)) s)
  end.

Definition mem_ReplaceInvitation (wall : Z) (oldID : string) (fresh : Invitation) (s : MemStore) :
    result saas_error unit * MemStore :=
  match invitations s !! oldID with
  | None => (Err ErrNotFound, s)
  | Some old =>
      if negb (bool_decide (i_ID fresh = oldID)) && bool_decide (is_Some (invitations s !! i_ID fresh))
      then (Err ErrConflict, s)
      else if from_option (λ existingID, negb (bool_decide (existingID = oldID))) false
                (inviteHash s !! i_TokenHash fresh)
      then (Err ErrConflict, s)
      else
        let fresh := default_times wall fresh in
        (Ok tt, set_invites (<[i_ID fresh := fresh]> (delete oldID (invitations s)))
                  (<[i_TokenHash fresh := i_ID fresh]> (delete (i_TokenHash old) (inviteHash s))) s)
  end.

Definition newer (a b : Invitation) : bool := i_CreatedAt b <? i_CreatedAt a.

Definition mem_ListInvitations (orgID : string) (s : MemStore) : result saas_error (list Invitation) :=
  Ok (sort_slice newer (filter (λ i, i_OrgID i = orgID) (map_range "ListInvitations" (invitations s)).*2)).

Definition mem_GetInvitationByTokenHash (hash : string) (s : MemStore) : result saas_error Invitation :=
  match inviteHash s !! hash with
  | None => Err ErrNotFound
  | Some id => Ok (default zero_invitation (invitations s !! id))
  end.

Definition with_state (st : InvitationState) (i : Invitation) : Invitation :=
  {| i_ID := i_ID i; i_OrgID := i_OrgID i; i_Email := i_Email i; i_Role := i_Role i; i_TokenHash := i_TokenHash i;
     i_State := st; i_InviterID := i_InviterID i; i_CreatedAt := i_CreatedAt i; i_ExpiresAt := i_ExpiresAt i |}.

Definition mem_UpdateInvitationState (id : string) (state : InvitationState) (s : MemStore) :
    result saas_error unit * MemStore :=
  match invitations s !! id with
  | None => (Err ErrNotFound, s)
  | Some inv => (Ok tt, set_invites (<[id := with_state state inv]> (invitations s)) (inviteHash s) s)
  end.

Definition mem_RemoveInvitation (id : string) (s : MemStore) : result saas_error unit * MemStore :=
  match invitations s !! id with
  | None => (Err ErrNotFound, s)
  | Some inv => (Ok tt, set_invites (delete id (invitations s)) (delete (i_TokenHash inv) (inviteHash s)) s)
  end.

#[global] Instance mem_store : Store MemStore := {|
  PutAccount := mem_PutAccount;
  GetAccount := mem_GetAccount;
  GetAccountByEmail := mem_GetAccountByEmail;
  PutOrg := mem_PutOrg;
  GetOrg := mem_GetOrg;
  ListOrgs := mem_ListOrgs;
  PutMembership := mem_PutMembership;
  ListMemberships := mem_ListMemberships;
  ListOrgMembers := mem_ListOrgMembers;
  SetMembershipRole := mem_SetMembershipRole;
  DeleteMembership := mem_DeleteMembership;
  PutApiKey := mem_PutApiKey;
  GetApiKeyByHash := mem_GetApiKeyByHash;
  GetApiKey := mem_GetApiKey;
  ListApiKeys := mem_ListApiKeys;
  RevokeApiKey := mem_RevokeApiKey;
  CreateInvitation := mem_CreateInvitation;
  ReplaceInvitation := mem_ReplaceInvitation;
  ListInvitations := mem_ListInvitations;
  GetInvitationByTokenHash := mem_GetInvitationByTokenHash;
  UpdateInvitationState := mem_UpdateInvitationState;
  RemoveInvitation := mem_RemoveInvitation;
|}.

End mem.

End Saas.
