(* ===== verification/Accounts.v ===== *)
(** * internal/saas: API keys and accounts

    keys.go and account.go.  A service call is a program over the store: the clock's
    reading, the generated identifiers and the random bytes are arguments of the call. *)

From Stdlib Require Import Ascii.
From S2P Require Import Prelude Sha256 Base64 GoStrings Atomic Saas.
Import GoStrings Saas.

Module Accounts.

(** ** keys.go *)

Definition keyPrefix : string := "mitos_live_".

Record CreateKeyRequest := {
  cr_OrgID : string;
  cr_Name : string;
  cr_Scopes : list string;
  cr_TTL : Z;
}.

Record CreatedKey := { ck_RawKey : string; ck_Record : ApiKey }.

(** [salt] is the pepper the service was built with. *)
Definition hash (salt raw : string) : string := Sha256.EncodeToString (Sha256.Sum256 (salt +:+ raw)).

Definition maskKey (raw : string) : string :=
  let body := TrimPrefix raw keyPrefix in
  let shown := if 6 <? Z.of_nat (String.length body) then String.substring 0 6 body else body in
  keyPrefix +:+ shown +:+ "...".

(** [rnd] is what [rand.Read] delivered. *)
Definition randomSecret (rnd : option string) : result saas_error string :=
  from_option (λ b, Ok (Base64.EncodeToString b)) (Err ErrOther) rnd.

Definition requested_scopes (scopes : list string) : result saas_error (list string) :=
  if bool_decide (scopes = []) then Ok DefaultScopes
  else if forallb knownScopes scopes then Ok scopes else Err ErrUnknownScope.

Definition new_key (salt raw id : string) (now : Z) (scopes : list string) (req : CreateKeyRequest) : ApiKey :=
  {| k_ID := id; k_OrgID := cr_OrgID req; k_Name := cr_Name req; k_Prefix := maskKey raw; k_Hash := hash salt raw;
     k_Scopes := scopes; k_CreatedAt := now;
     k_ExpiresAt := if 0 <? cr_TTL req then now + cr_TTL req else 0; k_RevokedAt := 0 |}.

Section services.
Context `{!SliceSort} {S : Type} `{!Store S}.

Abbreviation call A := (prog S (result saas_error A)) (only parsing).

Definition CreateKey (salt id : string) (now : Z) (rnd : option string) (req : CreateKeyRequest) : call CreatedKey :=
  if bool_decide (cr_OrgID req = "") then Ret (Err ErrOther)
  else
    do? _ := rd (GetOrg (cr_OrgID req));
    do? scopes := Ret (requested_scopes (cr_Scopes req));
    do? secret := Ret (randomSecret rnd);
    let raw := keyPrefix +:+ secret in
    let rec := new_key salt raw id now scopes req in
    do? _ := op (PutApiKey rec);
    Ret (Ok {| ck_RawKey := raw; ck_Record := rec |}).

Definition Verify (salt : string) (now : Z) (raw requiredScope : string) : call ApiKey :=
  if negb (HasPrefix raw keyPrefix) || (String.length raw <=? String.length keyPrefix)%nat
  then Ret (Err ErrKeyMalformed)
  else
    let h := hash salt raw in
    do r := rd (GetApiKeyByHash h);
    Ret (match r with
         | Err _ => Err ErrKeyUnknown
         | Ok rec =>
             if negb (bool_decide (k_Hash rec = h)) then Err ErrKeyUnknown
             else if IsExpired rec now then Err ErrKeyExpired
             else if IsRevoked rec then Err ErrKeyRevoked
             else if negb (bool_decide (requiredScope = "")) && negb (HasScope rec requiredScope) then Err ErrKeyScope
             else Ok rec
         end).

(** ** account.go *)

(** [orgID] and [acctID] are the generated identifiers. *)
Definition SignUp (homeRegion orgID acctID : string) (now : Z) (email : string) : call (Account * Organization) :=
  if bool_decide (email = "") then Ret (Err ErrOther)
  else
    do existing := rd (GetAccountByEmail email);
    if is_ok existing then Ret (Err ErrConflict)
    else
      let org := {| o_ID := orgID; o_Name := "Personal"; o_CreatedAt := now; o_Personal := true;
                    o_HomeRegion := homeRegion |} in
      let acct := {| a_ID := acctID; a_Email := email; a_CreatedAt := now; a_PersonalOrgID := orgID;
                     a_DisplayName := ""; a_Timezone := ""; a_Locale := "" |} in
      do? _ := op (PutOrg org);
      do? _ := op (PutAccount acct);
      do? _ := op (PutMembership {| m_AccountID := acctID; m_OrgID := orgID; m_Role := RoleOwner; m_CreatedAt := now |});
      Ret (Ok (acct, org)).

Definition FindOrCreateByEmail (homeRegion orgID acctID : string) (now : Z) (email : string) : call Account :=
  do existing := rd (GetAccountByEmail email);
  match existing with
  | Ok acct => Ret (Ok acct)
  | Err _ =>
      do r := SignUp homeRegion orgID acctID now email;
      match r with
      | Ok (acct, _) => Ret (Ok acct)
      | Err ErrConflict => rd (GetAccountByEmail email)
      | Err e => Ret (Err e)
      end
  end.

(** The organizations that can be read. *)
Fixpoint get_orgs (ids : list string) : prog S (list Organization) :=
  match ids with
  | [] => Ret []
  | id :: ids' =>
      do r := rd (GetOrg id);
      do rest := get_orgs ids';
      Ret (match r with Ok org => org :: rest | Err _ => rest end)
  end.

Definition org_less (a b : Organization) : bool := str_ltb (o_ID a) (o_ID b).

Definition Organizations (accountID : string) : call (list Organization) :=
  do? ms := rd (ListMemberships accountID);
  do out := get_orgs (m_OrgID <$> ms);
  Ret (Ok (sort_slice org_less out)).

Fixpoint OrganizationsFor (mems : list Membership) (out : gmap string Organization) :
    prog S (gmap string Organization) :=
  match mems with
  | [] => Ret out
  | m :: mems' =>
      match out !! m_OrgID m with
      | Some _ => OrganizationsFor mems' out
      | None =>
          do r := rd (GetOrg (m_OrgID m));
          OrganizationsFor mems' (match r with Ok org => <[m_OrgID m := org]> out | Err _ => out end)
      end
  end.

(** The role that a list of memberships gives in an organization. *)
Definition role_in (orgID : string) (ms : list Membership) : option Role :=
  (λ '(_, m), m_Role m) <$> list_find (λ m, m_OrgID m = orgID) ms.

Definition isMember (accountID orgID : string) : prog S bool :=
  do r := rd (ListMemberships accountID);
  Ret (match r with Ok ms => bool_decide (is_Some (role_in orgID ms)) | Err _ => false end).

Definition memberRole (accountID orgID : string) : call Role :=
  do? ms := rd (ListMemberships accountID);
  Ret (from_option Ok (Err ErrKeyWrongOrg) (role_in orgID ms)).

Definition SetMemberRole (actorID orgID targetAccountID : string) (role : Role) : call unit :=
  do? actorRole := memberRole actorID orgID;
  if negb (Can actorRole PermManageMembers) then Ret (Err ErrForbidden)
  else if negb (canGrantRole actorRole role) then Ret (Err ErrRoleNotGrantable)
  else op (SetMembershipRole orgID targetAccountID role).

Definition RemoveMember (actorID orgID targetAccountID : string) : call unit :=
  do? actorRole := memberRole actorID orgID;
  if negb (bool_decide (actorID = targetAccountID)) && negb (Can actorRole PermManageMembers)
  then Ret (Err ErrForbidden)
  else op (DeleteMembership orgID targetAccountID).

Definition account_CreateKey (salt id : string) (now : Z) (rnd : option string) (accountID : string)
    (req : CreateKeyRequest) : call CreatedKey :=
  do ok := isMember accountID (cr_OrgID req);
  if negb ok then Ret (Err ErrKeyWrongOrg) else CreateKey salt id now rnd req.

Definition older_key (a b : ApiKey) : bool := k_CreatedAt a <? k_CreatedAt b.

Definition ListKeys (accountID orgID : string) : call (list ApiKey) :=
  do ok := isMember accountID orgID;
  if negb ok then Ret (Err ErrKeyWrongOrg)
  else
    do? ks := rd (ListApiKeys orgID);
    Ret (Ok (sort_slice older_key ks)).

Definition member_less (a b : Membership) : bool := str_ltb (m_AccountID a) (m_AccountID b).

Definition ListMembers (accountID orgID : string) : call (list Membership) :=
  do ok := isMember accountID orgID;
  if negb ok then Ret (Err ErrKeyWrongOrg)
  else
    do? ms := rd (ListOrgMembers orgID);
    Ret (Ok (sort_slice member_less ms)).

Record ProfileUpdate := { pu_DisplayName : string; pu_Timezone : string; pu_Locale : string }.

Definition Profile (accountID : string) : call (Account * list Membership) :=
  do? acct := rd (GetAccount accountID);
  do? ms := rd (ListMemberships accountID);
  Ret (Ok (acct, ms)).

(** A field that is given. *)
Definition given (new old : string) : string := if negb (bool_decide (new = "")) then new else old.

Definition UpdateProfile (accountID : string) (u : ProfileUpdate) : call Account :=
  do? acct := rd (GetAccount accountID);
  let acct := {| a_ID := a_ID acct; a_Email := a_Email acct; a_CreatedAt := a_CreatedAt acct;
                 a_PersonalOrgID := a_PersonalOrgID acct;
                 a_DisplayName := given (pu_DisplayName u) (a_DisplayName acct);
                 a_Timezone := given (pu_Timezone u) (a_Timezone acct);
                 a_Locale := given (pu_Locale u) (a_Locale acct) |} in
  do? _ := op (PutAccount acct);
  Ret (Ok acct).

Definition RevokeKey (now : Z) (accountID keyID : string) : call unit :=
  do? rec := rd (GetApiKey keyID);
  do ok := isMember accountID (k_OrgID rec);
  if negb ok then Ret (Err ErrKeyWrongOrg) else op (RevokeApiKey keyID now).

End services.

End Accounts.
