(* ===== verification/Invites.v ===== *)
(** * internal/saas: invitations

    invites.go.  The invitation types are in Saas.v.  The e-mail sender is an argument
    of the calls that send: [None] when there is none, otherwise a function that tells
    whether the message was delivered. *)

From Stdlib Require Import Ascii.
From S2P Require Import Prelude Sha256 Base64 GoStrings Atomic Saas Accounts.
Import GoStrings Saas Accounts.

Module Invites.

Definition consumerEmailDomains : list string :=
  ["gmail.com"; "googlemail.com"; "outlook.com"; "hotmail.com"; "live.com"; "yahoo.com"; "icloud.com"; "me.com";
   "proton.me"; "protonmail.com"; "gmx.de"; "gmx.net"; "web.de"; "mail.com"].

Section invites.
Context `{!SliceSort, !Unicode}.

Definition emailDomain (email : string) : string :=
  match CutLast email "@" with
  | None | Some (_, "") => ""
  | Some (_, domain) => ToLower domain
  end.

Definition InviteEmailMatches (inviteEmail accountEmail : string) : bool :=
  let a := ToLower (TrimSpace inviteEmail) in
  let b := ToLower (TrimSpace accountEmail) in
  if bool_decide (a = "") || bool_decide (b = "") then false
  else if bool_decide (a = b) then true
  else
    let da := emailDomain a in
    let db := emailDomain b in
    if bool_decide (da = "") || bool_decide (db = "") || negb (bool_decide (da = db)) then false
    else negb (bool_decide (da ∈ consumerEmailDomains)).

Definition randomInviteToken (rnd : option string) : result saas_error string :=
  from_option (λ b, Ok (Base64.EncodeToString b)) (Err ErrOther) rnd.

Definition hashInviteToken (v : string) : string := Sha256.EncodeToString (Sha256.Sum256 v).

Definition displayNameOrEmailSaas (a : Account) : string :=
  if negb (bool_decide (a_DisplayName a = "")) then a_DisplayName a else a_Email a.

(** Whether a message to an address, with the names of the organization and the inviter
    and the token, is delivered. *)
Definition InviteEmailSender : Type := string → string → string → string → bool.

Definition maskEmail (email : string) : string :=
  match CutLast email "@" with
  | None | Some ("", _) => email
  | Some (local, domain) =>
      let keep := Nat.min 2 (String.length local) in
      let stars := Nat.max 1 (String.length local - keep) in
      String.substring 0 keep local +:+ String.string_of_list_ascii (replicate stars "*"%char) +:+ "@" +:+ domain
  end.

Record InviteLookup := {
  il_OrgName : string;
  il_InviterName : string;
  il_EmailHint : string;
  il_Role : Role;
  il_State : InvitationState;
}.

Section service.
Context {S : Type} `{!Store S} (email : option InviteEmailSender) (tokenTTL : Z).

Abbreviation call A := (prog S (result saas_error A)) (only parsing).

Definition org_name (orgID other : string) : prog S string :=
  do r := rd (GetOrg orgID); Ret (match r with Ok org => o_Name org | Err _ => other end).

Definition inviter_name (accountID other : string) : prog S string :=
  do r := rd (GetAccount accountID);
  Ret (match r with Ok acct => displayNameOrEmailSaas acct | Err _ => other end).

Definition sendInvite (inv : Invitation) (rawToken : string) : prog S bool :=
  match email with
  | None => Ret true
  | Some send =>
      do orgName := org_name (i_OrgID inv) (i_OrgID inv);
      do inviterName := inviter_name (i_InviterID inv) (i_InviterID inv);
      Ret (send (i_Email inv) orgName inviterName rawToken)
  end.

Definition memberRoleIn (orgID accountID : string) : call Role :=
  do? ms := rd (ListMemberships accountID);
  Ret (from_option Ok (Err ErrNotFound) (role_in orgID ms)).

Definition is_pending (addr : string) (now : Z) (inv : Invitation) : bool :=
  EqualFold (i_Email inv) addr && bool_decide (EffectiveState inv now = InvitationPending).

(** [wall] is the store's own clock reading, [id] the generated identifier and [rnd] the
    random bytes of the token. *)
Definition CreateInvite (wall now : Z) (id : string) (rnd : option string) (orgID inviterID addr : string)
    (role : Role) : call Invitation :=
  let addr := ToLower (TrimSpace addr) in
  if bool_decide (addr = "") then Ret (Err ErrOther)
  else
    let role := if bool_decide (role = "") then RoleMember else role in
    do? inviterRole := memberRoleIn orgID inviterID;
    if negb (canGrantRole inviterRole role) then Ret (Err ErrRoleNotGrantable)
    else
      do? existing := rd (ListInvitations orgID);
      if existsb (is_pending addr now) existing then Ret (Err ErrInvitePending)
      else
        do? rawToken := Ret (randomInviteToken rnd);
        let inv := {| i_ID := id; i_OrgID := orgID; i_Email := addr; i_Role := role;
                      i_TokenHash := hashInviteToken rawToken; i_State := InvitationPending;
                      i_InviterID := inviterID; i_CreatedAt := now; i_ExpiresAt := now + tokenTTL |} in
        do? _ := op (CreateInvitation wall inv);
        do sent := sendInvite inv rawToken;
        if negb sent then
          do _ := op (RemoveInvitation id);
          Ret (Err ErrOther)
        else Ret (Ok inv).

Definition ListInvites (orgID : string) : call (list Invitation) :=
  do? invs := rd (ListInvitations orgID);
  Ret (Ok (sort_slice newer invs)).

Definition findInOrg (orgID id : string) : call Invitation :=
  do? invs := rd (ListInvitations orgID);
  Ret (from_option (λ '(_, inv), Ok inv) (Err ErrNotFound) (list_find (λ inv, i_ID inv = id) invs)).

Definition RevokeInvite (orgID id : string) : call Invitation :=
  do? inv := findInOrg orgID id;
  do? _ := op (RemoveInvitation id);
  Ret (Ok inv).

Definition ResendInvite (wall now : Z) (newID : string) (rnd : option string) (orgID id : string) : call Invitation :=
  do? inv := findInOrg orgID id;
  let st := EffectiveState inv now in
  if negb (bool_decide (st = InvitationPending)) && negb (bool_decide (st = InvitationExpired))
  then Ret (Err ErrInviteNotPending)
  else
    do? rawToken := Ret (randomInviteToken rnd);
    let fresh := {| i_ID := newID; i_OrgID := i_OrgID inv; i_Email := i_Email inv; i_Role := i_Role inv;
                    i_TokenHash := hashInviteToken rawToken; i_State := InvitationPending;
                    i_InviterID := i_InviterID inv; i_CreatedAt := now; i_ExpiresAt := now + tokenTTL |} in
    do sent := sendInvite fresh rawToken;
    if negb sent then Ret (Err ErrOther)
    else
      do? _ := op (ReplaceInvitation wall (i_ID inv) fresh);
      Ret (Ok fresh).

Definition LookupInvite (now : Z) (rawToken : string) : call InviteLookup :=
  if bool_decide (rawToken = "") then Ret (Err ErrNotFound)
  else
    do? inv := rd (GetInvitationByTokenHash (hashInviteToken rawToken));
    do orgName := org_name (i_OrgID inv) "";
    do inviterName := inviter_name (i_InviterID inv) "";
    Ret (Ok {| il_OrgName := orgName; il_InviterName := inviterName; il_EmailHint := maskEmail (i_Email inv);
               il_Role := i_Role inv; il_State := EffectiveState inv now |}).

Definition AcceptInvite (now : Z) (accountID accountEmail rawToken : string) : call Invitation :=
  if bool_decide (rawToken = "") then Ret (Err ErrNotFound)
  else
    do? inv := rd (GetInvitationByTokenHash (hashInviteToken rawToken));
    let st := EffectiveState inv now in
    if bool_decide (st = InvitationExpired) then Ret (Err ErrInviteExpired)
    else if negb (bool_decide (st = InvitationPending)) then Ret (Err ErrInviteNotPending)
    else if negb (InviteEmailMatches (i_Email inv) accountEmail) then Ret (Err ErrInviteEmailMismatch)
    else
      do? existing := rd (ListMemberships accountID);
      do? _ := (if bool_decide (is_Some (role_in (i_OrgID inv) existing)) then Ret (Ok tt)
                else op (PutMembership {| m_AccountID := accountID; m_OrgID := i_OrgID inv; m_Role := i_Role inv;
                                          m_CreatedAt := now |}));
      do? _ := op (UpdateInvitationState (i_ID inv) InvitationAccepted);
      Ret (Ok (with_state InvitationAccepted inv)).

End service.

End invites.

End Invites.
