(* ===== verification/Sessions.v ===== *)
(** * internal/saas: browser sessions

    session.go and oidc.go.  The store keeps the hash of a session token; [maxAge] and
    the clock's readings are arguments.  The verifier of identity tokens is an argument
    of the sign-in. *)

From Stdlib Require Import Ascii.
From S2P Require Import Prelude Sha256 Json GoStrings Atomic Saas Accounts.
Import GoStrings Saas Accounts.

Module Sessions.

Record Session := {
  se_ID : string;
  se_AccountID : string;
  se_CreatedAt : Z;
  se_Label : string;
}.

Record SessionStore := {
  ss_byHash : gmap string string;
  ss_records : gmap string Session;
  ss_hashByID : gmap string string;
  ss_createdH : gmap string Z;
  ss_nextID : Z;
}.

Definition DefaultSessionMaxAge : Z := 30 * 24 * hour.

Definition NewSessionStore : SessionStore :=
  {| ss_byHash := ∅; ss_records := ∅; ss_hashByID := ∅; ss_createdH := ∅; ss_nextID := 0 |}.

Definition hashSession (token : string) : string := Sha256.EncodeToString (Sha256.Sum256 token).

(** [nextID] is a uint64. *)
Definition session_id (n : Z) : string := "sess-" +:+ Json.fmt_int n.

Definition IssueSession (now : Z) (accountID token label : string) (s : SessionStore) : string * SessionStore :=
  let next := (ss_nextID s + 1) mod 2 ^ 64 in
  let id := session_id next in
  let h := hashSession token in
  (id, {| ss_byHash := <[h := accountID]> (ss_byHash s);
          ss_records := <[id := {| se_ID := id; se_AccountID := accountID; se_CreatedAt := now; se_Label := label |}]>
                          (ss_records s);
          ss_hashByID := <[id := h]> (ss_hashByID s);
          ss_createdH := <[h := now]> (ss_createdH s);
          ss_nextID := next |}).

Definition Issue (now : Z) (accountID token : string) (s : SessionStore) : SessionStore :=
  (IssueSession now accountID token "session" s).2.

(** Without the session of an identifier and a hash. *)
Definition drop_session (id h : string) (s : SessionStore) : SessionStore :=
  {| ss_byHash := delete h (ss_byHash s); ss_records := delete id (ss_records s);
     ss_hashByID := delete id (ss_hashByID s); ss_createdH := delete h (ss_createdH s); ss_nextID := ss_nextID s |}.

Definition drop_hash (h : string) (s : SessionStore) : SessionStore :=
  {| ss_byHash := delete h (ss_byHash s); ss_records := ss_records s; ss_hashByID := ss_hashByID s;
     ss_createdH := delete h (ss_createdH s); ss_nextID := ss_nextID s |}.

Section sessions.
Context `{!SliceSort, !MapRange}.

(** Only the first session met with the hash loses its record. *)
Definition expireByHash (h : string) (s : SessionStore) : SessionStore :=
  match list_find (λ '(_, hh), hh = h) (map_range "expireByHash" (ss_hashByID s)) with
  | Some (_, (id, _)) => drop_session id h s
  | None => drop_hash h s
  end.

(** The lookup and the removal of an expired session take the lock separately. *)
Definition Resolve (maxAge now : Z) (token : string) : prog SessionStore (result saas_error string) :=
  let h := hashSession token in
  do (id, created) := rd (λ s, (ss_byHash s !! h, ss_createdH s !! h));
  match id with
  | None => Ret (Err ErrSessionInvalid)
  | Some id =>
      if (0 <? maxAge) && from_option (λ c, maxAge <? time_sub now c) false created then
        do _ := op (λ s, (tt, expireByHash h s));
        Ret (Err ErrSessionInvalid)
      else Ret (Ok id)
  end.

Definition later (a b : Session) : bool := se_CreatedAt b <? se_CreatedAt a.

Definition ListByAccount (accountID : string) (s : SessionStore) : list Session :=
  sort_slice later (filter (λ r, se_AccountID r = accountID) (map_range "ListByAccount" (ss_records s)).*2).

Definition Revoke (accountID sessionID : string) (s : SessionStore) : result saas_error unit * SessionStore :=
  match ss_records s !! sessionID with
  | Some rec =>
      if negb (bool_decide (se_AccountID rec = accountID)) then (Err ErrNotFound, s)
      else (Ok tt, drop_session sessionID (default "" (ss_hashByID s !! sessionID)) s)
  | None => (Err ErrNotFound, s)
  end.

Definition revoke_step (accountID : string) (s : SessionStore) (kv : string * Session) : SessionStore :=
  if negb (bool_decide (se_AccountID kv.2 = accountID)) then s
  else drop_session kv.1 (default "" (ss_hashByID s !! kv.1)) s.

Definition RevokeAll (accountID : string) (s : SessionStore) : SessionStore :=
  foldl (revoke_step accountID) s (map_range "RevokeAll" (ss_records s)).

(** ** The session service and the sign-in *)

Section service.
Context {S : Type} `{!Store S}.

Abbreviation state := (S * SessionStore)%type (only parsing).

Definition session_Resolve (maxAge now : Z) (token : string) :
    prog state (result saas_error (Account * list Organization)) :=
  do? accountID := on_snd (Resolve maxAge now token);
  do acct := on_fst (rd (GetAccount accountID));
  match acct with
  | Err _ => Ret (Err ErrSessionInvalid)
  | Ok acct =>
      do? orgs := on_fst (Organizations accountID);
      Ret (Ok (acct, orgs))
  end.

Record OIDCClaims := { oc_Subject : string; oc_Email : string; oc_EmailVerified : bool }.

(** [verify] is the provider's verifier, [token] the fresh session token. *)
Definition SignIn (verify : string → option OIDCClaims) (homeRegion orgID acctID token : string) (now : Z)
    (rawIDToken : string) : prog state (result saas_error (Account * string)) :=
  match verify rawIDToken with
  | None => Ret (Err ErrLoginRejected)
  | Some claims =>
      if bool_decide (oc_Email claims = "") || negb (oc_EmailVerified claims) then Ret (Err ErrLoginRejected)
      else
        do? acct := on_fst (FindOrCreateByEmail homeRegion orgID acctID now (oc_Email claims));
        do _ := on_snd (op (λ s, (tt, Issue now (a_ID acct) token s)));
        Ret (Ok (acct, token))
  end.

End service.

End sessions.

End Sessions.
