(* ===== verification/SaasTheorems.v ===== *)
(** * Accounts, keys and invitations: the store under concurrent requests

    The service calls as one type, what each of them does to the store, and the
    properties that hold in every interleaving of any calls: the indexes of the store
    agree with its records, a key that verifies was issued with what it grants, and a
    revoked key stays dead. *)

From Stdlib Require Import Ascii.
From S2P Require Import Prelude Sha256 Base64 GoStrings Atomic Saas Accounts Invites.
Import GoStrings Saas Accounts Invites.

Module SaasTheorems.

(** Walk through a program, leaving the operations that write. *)
Ltac walk_prog :=
  repeat match goal with
  | |- keeps _ (Ret _) => exact Logic.I
  | |- keeps _ (pbind_ok (Ret _) _) => apply keeps_check; intros ? ?
  | |- keeps _ (pbind_ok _ _) => apply keeps_bind_ok; [|intros ?]
  | |- keeps _ (pbind _ _) => apply keeps_bind; [|intros ?]
  | |- keeps _ (rd _) => apply keeps_rd
  | |- keeps _ (match ?x with _ => _ end) => destruct x eqn:?
  end.

Section calls.
Context {sorting : SliceSort} {ranging : MapRange} {unicode : Unicode}.

(** ** The calls *)

(** A call with its inputs: what the caller sent, and the clock readings, identifiers and
    random bytes it drew. *)
Inductive call :=
| CSignUp (homeRegion orgID acctID : string) (now : Z) (email : string)
| CFindOrCreate (homeRegion orgID acctID : string) (now : Z) (email : string)
| CUpdateProfile (accountID : string) (u : ProfileUpdate)
| CSetMemberRole (actorID orgID targetID : string) (role : Role)
| CRemoveMember (actorID orgID targetID : string)
| CCreateKey (id : string) (now : Z) (rnd : option string) (accountID : string) (req : CreateKeyRequest)
| CRevokeKey (now : Z) (accountID keyID : string)
| CCreateInvite (wall now : Z) (id : string) (rnd : option string) (orgID inviterID addr : string) (role : Role)
| CRevokeInvite (orgID id : string)
| CResendInvite (wall now : Z) (newID : string) (rnd : option string) (orgID id : string)
| CAcceptInvite (now : Z) (accountID accountEmail rawToken : string).

Context (salt : string) (email : option InviteEmailSender) (tokenTTL : Z).

(** Only whether the call succeeded. *)
Definition outcome {A} (p : prog MemStore (result saas_error A)) : prog MemStore (result saas_error unit) :=
  do? _ := p; Ret (Ok tt).

Definition prog_of (c : call) : prog MemStore (result saas_error unit) :=
  match c with
  | CSignUp r o a now e => outcome (SignUp r o a now e)
  | CFindOrCreate r o a now e => outcome (FindOrCreateByEmail r o a now e)
  | CUpdateProfile a u => outcome (UpdateProfile a u)
  | CSetMemberRole actor o t role => SetMemberRole actor o t role
  | CRemoveMember actor o t => RemoveMember actor o t
  | CCreateKey id now rnd a req => outcome (account_CreateKey salt id now rnd a req)
  | CRevokeKey now a k => RevokeKey now a k
  | CCreateInvite wall now id rnd o i e role => outcome (CreateInvite email tokenTTL wall now id rnd o i e role)
  | CRevokeInvite o id => outcome (RevokeInvite o id)
  | CResendInvite wall now id rnd o old => outcome (ResendInvite email tokenTTL wall now id rnd o old)
  | CAcceptInvite now a e tok => outcome (AcceptInvite now a e tok)
  end.

(** ** What a call does to the store

    Every operation of a call that writes is one of these; the accounts it files are in
    [filed]. *)
Inductive writes_of (filed : Account → Prop) (allowed : call → Prop) : (MemStore → result saas_error unit * MemStore) → Prop :=
| w_account a : filed a → writes_of filed allowed (mem_PutAccount a)
| w_org o : writes_of filed allowed (mem_PutOrg o)
| w_member m : writes_of filed allowed (mem_PutMembership m)
| w_role o a r : writes_of filed allowed (mem_SetMembershipRole o a r)
| w_leave o a : writes_of filed allowed (mem_DeleteMembership o a)
| w_key id now rnd a req scopes secret :
    allowed (CCreateKey id now rnd a req) → requested_scopes (cr_Scopes req) = Ok scopes →
    randomSecret rnd = Ok secret →
    writes_of filed allowed (mem_PutApiKey (new_key salt (keyPrefix +:+ secret) id now scopes req))
| w_revoke id now a : allowed (CRevokeKey now a id) → writes_of filed allowed (mem_RevokeApiKey id now)
| w_invite wall i : i_State i = InvitationPending → writes_of filed allowed (mem_CreateInvitation wall i)
| w_replace wall old i : i_State i = InvitationPending → writes_of filed allowed (mem_ReplaceInvitation wall old i)
| w_accept id : writes_of filed allowed (mem_UpdateInvitationState id InvitationAccepted)
| w_remove id : writes_of filed allowed (mem_RemoveInvitation id).

Abbreviation writes := (writes_of (λ _, True)).

(** A property that these operations keep, every call keeps at every point. *)
Lemma calls_keep (allowed : call → Prop) (I : MemStore → Prop) c :
  allowed c → (∀ f s, writes allowed f → I s → I (f s).2) → keeps I (prog_of c).
Proof.
  intros Hc HI.
  assert (∀ f, writes allowed f → keeps I (op f)) as Hop by (intros f Hf; apply keeps_op; eauto).
  destruct c; cbn [prog_of]; unfold outcome, SignUp, FindOrCreateByEmail, UpdateProfile, SetMemberRole, RemoveMember,
    account_CreateKey, CreateKey, RevokeKey, CreateInvite, RevokeInvite, ResendInvite, AcceptInvite, SignUp, memberRole,
    memberRoleIn, isMember, findInOrg, sendInvite, org_name, inviter_name; walk_prog; apply Hop; by econstructor.
Qed.

(** ** The indexes agree with the records *)

Record wf (s : MemStore) : Prop := {
  wf_accounts id a : accounts s !! id = Some a → a_ID a = id ∧ byEmail s !! a_Email a = Some id;
  wf_emails e id : byEmail s !! e = Some id → is_Some (accounts s !! id);
  wf_orgs id o : orgs s !! id = Some o → o_ID o = id;
  wf_members a l : members s !! a = Some l → Forall (λ m, m_AccountID m = a) l ∧ NoDup (m_OrgID <$> l);
  wf_keys id k : keys s !! id = Some k → k_ID k = id ∧ is_Some (byHash s !! k_Hash k);
  wf_hashes h id : byHash s !! h = Some id → ∃ k, keys s !! id = Some k ∧ k_Hash k = h;
  wf_invites id i : invitations s !! id = Some i → i_ID i = id ∧ inviteHash s !! i_TokenHash i = Some id;
  wf_tokens h id : inviteHash s !! h = Some id → ∃ i, invitations s !! id = Some i ∧ i_TokenHash i = h;
}.

Lemma wf_new : wf NewMemStore.
Proof. split; intros *; simpl; rewrite lookup_empty; done. Qed.

(** Look up in a map after an insertion or a deletion. *)
Local Ltac lookups :=
  repeat match goal with
  | H : <[?i := ?x]> ?m !! ?j = Some _ |- _ => apply lookup_insert_Some in H as [[<- <-]|[? H]]
  | H : delete ?i ?m !! ?j = Some _ |- _ => apply lookup_delete_Some in H as [? H]
  | |- context [<[?i := ?x]> ?m !! ?i] => rewrite lookup_insert_eq
  end.

Lemma wf_set_accounts a s :
  wf s → (∀ id, byEmail s !! a_Email a = Some id → id = a_ID a) →
  wf (set_accounts (<[a_ID a := a]> (accounts s)) (<[a_Email a := a_ID a]> (byEmail s)) s).
Proof.
  intros [] Hmail. split; simpl; [| |done..].
  - intros id b Hb. lookups; [done|]. destruct (wf_accounts0 _ _ Hb) as [<- He]. split; [done|].
    apply lookup_insert_Some. destruct (decide (a_Email a = a_Email b)) as [Heq|]; [|by right].
    rewrite <- Heq in He. apply Hmail in He. naive_solver.
  - intros e id He. destruct (decide (a_ID a = id)) as [<-|]; [by rewrite lookup_insert_eq|].
    rewrite lookup_insert_ne by done. lookups; [done|eauto].
Qed.

Lemma mem_PutAccount_wf a s : wf s → wf (mem_PutAccount a s).2.
Proof.
  intros Hs. unfold mem_PutAccount. destruct (byEmail s !! a_Email a) as [id|] eqn:E.
  - case_bool_decide; simpl; [|done]. apply wf_set_accounts; [done|]. congruence.
  - apply wf_set_accounts; [done|]. congruence.
Qed.

Lemma mem_PutOrg_wf o s : wf s → wf (mem_PutOrg o s).2.
Proof.
  intros []. unfold mem_PutOrg. simpl. set (o' := match orgs s !! o_ID o with Some _ => _ | None => _ end).
  split; simpl; try done. intros id o1 Ho. lookups; [done|eauto].
Qed.

(** A list of memberships of one account, each in another organization. *)
Definition wf_list (a : string) (l : list Membership) : Prop :=
  Forall (λ m, m_AccountID m = a) l ∧ NoDup (m_OrgID <$> l).

Lemma wf_set_members a l s : wf s → wf_list a l → wf (set_members (<[a := l]> (members s)) s).
Proof. intros [] Hl. split; simpl; try done. intros a' l' H'. lookups; [done|eauto]. Qed.

Lemma wf_list_of a s : wf s → wf_list a (default [] (members s !! a)).
Proof. intros Hs. destruct (members s !! a) as [l|] eqn:E; [by apply (wf_members s Hs)|by repeat constructor]. Qed.

Lemma wf_list_insert a i m l : wf_list a l → member_index (m_OrgID m) l = Some i → m_AccountID m = a → wf_list a (<[i := m]> l).
Proof.
  unfold member_index, wf_list. intros [Ha Hn] Hi Hm. destruct (list_find _ l) as [[j x]|] eqn:E; simplify_eq/=.
  apply list_find_Some in E as (Hx & Ho & _). split; [by apply Forall_insert|].
  rewrite list_fmap_insert, <- Ho. rewrite list_insert_id; [done|]. by rewrite list_lookup_fmap, Hx.
Qed.

Lemma member_index_none o l : member_index o l = None → o ∉ m_OrgID <$> l.
Proof.
  unfold member_index. destruct (list_find _ l) as [[j x]|] eqn:E; [done|]. intros _ (m & -> & Hm)%list_elem_of_fmap.
  apply list_find_None in E. rewrite Forall_forall in E. by apply (E m).
Qed.

Lemma mem_PutMembership_wf m s : wf s → wf (mem_PutMembership m s).2.
Proof.
  intros Hs. unfold mem_PutMembership. pose proof (wf_list_of (m_AccountID m) s Hs) as Hl.
  destruct (member_index _ _) as [i|] eqn:E; simpl; (apply wf_set_members; [done|]).
  - by apply wf_list_insert.
  - destruct Hl as [Ha Hn]. split; [apply Forall_app; split; [done|by repeat constructor]|].
    rewrite fmap_app. apply NoDup_app. split_and!; [done| |apply NoDup_singleton].
    intros o Ho Ho'. apply list_elem_of_singleton in Ho' as ->. by apply member_index_none in E.
Qed.

Lemma wf_list_alter a r i l : wf_list a l → wf_list a (alter (with_role r) i l).
Proof.
  intros [Ha Hn]. assert (m_OrgID <$> alter (with_role r) i l = m_OrgID <$> l) as Ho.
  { clear. revert i. induction l as [|m l IH]; intros [|i]; try done. cbn. f_equal. apply IH. }
  split; [|by rewrite Ho]. apply Forall_alter; [done|]. by intros [].
Qed.

Lemma mem_SetMembershipRole_wf o a r s : wf s → wf (mem_SetMembershipRole o a r s).2.
Proof.
  intros Hs. unfold mem_SetMembershipRole. case_match; [done|]. destruct (members s !! a) as [l|] eqn:E; [|done].
  destruct (member_index o l) as [i|]; [|done]. apply wf_set_members; [done|]. apply wf_list_alter, (wf_members s Hs _ _ E).
Qed.

Lemma wf_list_remove a i l : wf_list a l → wf_list a (take i l ++ drop (S i) l).
Proof.
  intros [Ha Hn]. rewrite <- delete_take_drop. split; [by apply Forall_delete|].
  assert (m_OrgID <$> delete i l = delete i (m_OrgID <$> l)) as ->.
  { clear. revert i. induction l as [|m l IH]; intros [|i]; try done. cbn. f_equal. apply IH. }
  eapply sublist_NoDup; [exact Hn|apply sublist_delete].
Qed.

Lemma mem_DeleteMembership_wf o a s : wf s → wf (mem_DeleteMembership o a s).2.
Proof.
  intros Hs. unfold mem_DeleteMembership. destruct (members s !! a) as [l|] eqn:E; [|done].
  destruct (list_find _ l) as [[i m]|]; [|done]. case_match; [done|]. apply wf_set_members; [done|].
  apply wf_list_remove, (wf_members s Hs _ _ E).
Qed.

Lemma mem_PutApiKey_wf k s : wf s → wf (mem_PutApiKey k s).2.
Proof.
  intros []. unfold mem_PutApiKey. destruct (keys s !! k_ID k) as [k'|] eqn:E; [done|]. split; simpl; try done.
  - intros id k1 Hk. lookups; [done|]. apply wf_keys0 in Hk as [? Hh]. split; [done|].
    apply lookup_insert_is_Some. destruct (decide (k_Hash k = k_Hash k1)); auto.
  - intros h id Hh. lookups.
    + by exists k.
    + destruct (wf_hashes0 _ _ Hh) as (k1 & Hk1 & Heq). exists k1. split; [|done].
      rewrite lookup_insert_ne; [done|]. congruence.
Qed.

Lemma mem_RevokeApiKey_wf id now s : wf s → wf (mem_RevokeApiKey id now s).2.
Proof.
  intros []. unfold mem_RevokeApiKey. destruct (keys s !! id) as [k|] eqn:E; [|done]. destruct (IsRevoked k); [done|].
  split; simpl; try done.
  - intros id1 k1 Hk. lookups; [by apply (wf_keys0 _ k)|eauto].
  - intros h id1 Hh. destruct (wf_hashes0 _ _ Hh) as (k1 & Hk1 & Heq). destruct (decide (id = id1)) as [<-|].
    + exists (with_revoked now k). rewrite lookup_insert_eq. split; [done|]. simpl. congruence.
    + exists k1. by rewrite lookup_insert_ne.
Qed.

Lemma mem_CreateInvitation_wf wall i s : wf s → wf (mem_CreateInvitation wall i s).2.
Proof.
  intros []. unfold mem_CreateInvitation. destruct (invitations s !! i_ID i) eqn:E1; [done|].
  destruct (inviteHash s !! i_TokenHash i) eqn:E2; [done|]. cbv zeta. set (i' := default_times wall i).
  change (i_ID i) with (i_ID i') in E1. change (i_TokenHash i) with (i_TokenHash i') in E2. clearbody i'.
  case_match; [done|]. split; simpl; try done.
  - intros id i1 Hi. lookups; [done|]. apply wf_invites0 in Hi as [? Hi]. split; [done|].
    rewrite lookup_insert_ne; [done|]. congruence.
  - intros h id Hh. lookups.
    + by exists i'.
    + destruct (wf_tokens0 _ _ Hh) as (i1 & Hi1 & Heq). exists i1. split; [|done].
      rewrite lookup_insert_ne; [done|]. congruence.
Qed.

Lemma mem_ReplaceInvitation_wf wall old i s : wf s → wf (mem_ReplaceInvitation wall old i s).2.
Proof.
  intros []. unfold mem_ReplaceInvitation. destruct (invitations s !! old) as [o|] eqn:E; [|done].
  destruct (negb _ && _) eqn:E1; [done|]. destruct (from_option _ _ _) eqn:E2; [done|]. cbv zeta.
  set (i' := default_times wall i). change (i_ID i) with (i_ID i') in E1.
  change (i_TokenHash i) with (i_TokenHash i') in E2. clearbody i'.
  assert (∀ id i1, id ≠ old → invitations s !! id = Some i1 → i_ID i' ≠ id ∧ i_TokenHash i' ≠ i_TokenHash i1) as Hfresh.
  { intros id i1 Hne Hi1. split.
    - intros <-. rewrite Hi1, (bool_decide_eq_false_2 (i_ID i' = old)) in E1 by done.
      rewrite bool_decide_eq_true_2 in E1 by eauto. done.
    - intros Ht. destruct (wf_invites0 _ _ Hi1) as [_ Hh]. rewrite Ht, Hh in E2. simpl in E2.
      apply negb_false_iff, bool_decide_eq_true in E2. done. }
  destruct (wf_invites0 _ _ E) as [Hid Hho]. split; simpl; try done.
  - intros id i1 Hi. lookups; [done|]. destruct (wf_invites0 _ _ Hi) as [? Hh]. split; [done|].
    rewrite lookup_insert_ne by (eapply Hfresh; eauto).
    rewrite lookup_delete_ne; [done|]. intros Heq. rewrite Heq, Hh in Hho. congruence.
  - intros h id Hh. lookups.
    + by exists i'.
    + destruct (wf_tokens0 _ _ Hh) as (i1 & Hi1 & Heq). assert (id ≠ old) as Hne.
      { intros ->. congruence. }
      exists i1. split; [|done]. rewrite lookup_insert_ne by (eapply Hfresh; eauto). by rewrite lookup_delete_ne.
Qed.

Lemma mem_UpdateInvitationState_wf id st s : wf s → wf (mem_UpdateInvitationState id st s).2.
Proof.
  intros []. unfold mem_UpdateInvitationState. destruct (invitations s !! id) as [i|] eqn:E; [|done].
  split; simpl; try done.
  - intros id1 i1 Hi. lookups; [by apply (wf_invites0 _ i)|eauto].
  - intros h id1 Hh. destruct (wf_tokens0 _ _ Hh) as (i1 & Hi1 & Heq). destruct (decide (id = id1)) as [<-|].
    + exists (with_state st i). rewrite lookup_insert_eq. split; [done|]. simpl. congruence.
    + exists i1. by rewrite lookup_insert_ne.
Qed.

Lemma mem_RemoveInvitation_wf id s : wf s → wf (mem_RemoveInvitation id s).2.
Proof.
  intros []. unfold mem_RemoveInvitation. destruct (invitations s !! id) as [i|] eqn:E; [|done].
  destruct (wf_invites0 _ _ E) as [Hid Hh]. split; simpl; try done.
  - intros id1 i1 Hi. lookups. destruct (wf_invites0 _ _ Hi) as [? Hh1]. split; [done|].
    rewrite lookup_delete_ne; [done|]. intros Heq. congruence.
  - intros h id1 Hh1. lookups. destruct (wf_tokens0 _ _ Hh1) as (i1 & Hi1 & Heq). exists i1. split; [|done].
    rewrite lookup_delete_ne; [done|]. congruence.
Qed.

Create HintDb saas.
#[local] Hint Resolve mem_PutAccount_wf mem_PutOrg_wf mem_PutMembership_wf mem_SetMembershipRole_wf mem_DeleteMembership_wf
  mem_PutApiKey_wf mem_RevokeApiKey_wf mem_CreateInvitation_wf mem_ReplaceInvitation_wf mem_UpdateInvitationState_wf
  mem_RemoveInvitation_wf : saas.

(** The store and the calls under way after any calls have arrived and have run, in any
    interleaving. *)
Definition serving (allowed : call → Prop) : MemStore * list (prog MemStore (result saas_error unit)) → Prop :=
  reaches (λ p, ∃ c, allowed c ∧ p = prog_of c) (NewMemStore, []).

Lemma serving_keeps (allowed : call → Prop) (I : MemStore → Prop) s ps :
  I NewMemStore → (∀ f s, writes allowed f → I s → I (f s).2) → serving allowed (s, ps) → I s.
Proof.
  intros Hnew Hw Hr. eapply (reaches_keeps I) in Hr as [_ HI]; [by apply HI| |constructor].
  intros p (c & Hc & ->). by apply (calls_keep allowed).
Qed.

Lemma writes_wf allowed f s : writes allowed f → wf s → wf (f s).2.
Proof. intros [] Hs; auto with saas. Qed.

(** ** Keys *)

Lemma hex_digit_inj a b : 0 ≤ a < 16 → 0 ≤ b < 16 → Sha256.hex_digit a = Sha256.hex_digit b → a = b.
Proof.
  intros Ha Hb. assert (Forall (λ x, Forall (λ y, Sha256.hex_digit x = Sha256.hex_digit y → x = y) (seqZ 0 16)) (seqZ 0 16))
    as Hall by by_eval.
  rewrite Forall_forall in Hall. specialize (Hall a). rewrite Forall_forall in Hall.
  apply Hall; apply elem_of_seqZ; lia.
Qed.

Lemma hex_inj s t : Sha256.EncodeToString s = Sha256.EncodeToString t → s = t.
Proof.
  unfold Sha256.EncodeToString. intros Heq. rewrite <- (Base64.string_of_bytes_of s), <- (Base64.string_of_bytes_of t).
  f_equal. pose proof (Base64.bytes_of_range s) as Hs. pose proof (Base64.bytes_of_range t) as Ht.
  revert Heq Ht. generalize (Sha256.bytes_of t). induction Hs as [|a l Ha Hl IH]; intros [|b l'] Heq Ht; try done.
  cbn [Sha256.hex_of_bytes] in Heq. change 15 with (Z.ones 4) in Heq.
  rewrite !Z.land_ones, !Z.shiftr_div_pow2 in Heq by lia. injection Heq as Hhi Hlo Hrest.
  apply Forall_cons in Ht as [Hb Ht]. f_equal; [|auto].
  apply hex_digit_inj in Hhi, Hlo; Z.div_mod_to_equations; lia.
Qed.

(** The key was made by a call to create one; only its revocation may have changed. *)
Definition issued (allowed : call → Prop) (k : ApiKey) : Prop :=
  ∃ created rnd a req scopes secret,
    allowed (CCreateKey (k_ID k) created rnd a req) ∧ requested_scopes (cr_Scopes req) = Ok scopes ∧
    randomSecret rnd = Ok secret ∧
    k = with_revoked (k_RevokedAt k) (new_key salt (keyPrefix +:+ secret) (k_ID k) created scopes req).

(** What an operation does to the keys: nothing, or it adds an issued one under a new
    identifier, or it revokes one. *)
Lemma writes_keys allowed f s :
  writes allowed f → wf s →
  keys (f s).2 = keys s ∨
  (∃ k, issued allowed k ∧ keys s !! k_ID k = None ∧ keys (f s).2 = <[k_ID k := k]> (keys s)) ∨
  (∃ k now, keys s !! k_ID k = Some k ∧ IsRevoked k = false ∧
    keys (f s).2 = <[k_ID k := with_revoked now k]> (keys s)).
Proof.
  intros Hf Hs. destruct Hf as [a|o|m|o a r|o a|id now rnd a req scopes secret Ha Hsc Hrnd|id now a Ha|wall i Hi|wall old i Hi|id|id];
    try (left; unfold mem_PutAccount, mem_PutMembership, mem_SetMembershipRole, mem_DeleteMembership, mem_CreateInvitation,
      mem_ReplaceInvitation, mem_UpdateInvitationState, mem_RemoveInvitation, mem_PutOrg; cbv zeta; repeat case_match; done).
  - unfold mem_PutApiKey. set (k := new_key _ _ _ _ _ _). destruct (keys s !! k_ID k) eqn:E; [by left|].
    right. left. exists k. split_and!; [|done|done]. by exists now, rnd, a, req, scopes, secret.
  - unfold mem_RevokeApiKey. destruct (keys s !! id) as [k|] eqn:E; [|by left].
    destruct (IsRevoked k) eqn:Er; [by left|]. right. right.
    destruct (wf_keys s Hs _ _ E) as [<- _]. by exists k, now.
Qed.

Lemma writes_issued allowed f s : writes allowed f → wf s →
  map_Forall (λ _, issued allowed) (keys s) → map_Forall (λ _, issued allowed) (keys (f s).2).
Proof.
  intros Hf Hwf HI. destruct (writes_keys allowed f s Hf Hwf) as [->|[(k & Hk & _ & ->)|(k & now & Hk & _ & ->)]]; [done|..].
  - by apply map_Forall_insert_2.
  - apply map_Forall_insert_2; [|done]. destruct (HI _ _ Hk) as (c & rnd & a & req & sc & sec & H1 & H2 & H3 & H4).
    exists c, rnd, a, req, sc, sec. split_and!; [done|done|done|]. rewrite H4. done.
Qed.

Lemma keys_issued allowed s ps : serving allowed (s, ps) → map_Forall (λ _, issued allowed) (keys s).
Proof.
  intros Hr. apply (serving_keeps allowed (λ s, wf s ∧ map_Forall (λ _, issued allowed) (keys s)) s ps); [| |done].
  { split; [apply wf_new|]. apply map_Forall_empty. }
  intros f s0 Hf [Hwf HI]. split; [by eapply writes_wf|by apply writes_issued].
Qed.

(** ** No two of a kind *)

(** The account identifiers that were drawn for an e-mail address. *)
Definition signed_up (allowed : call → Prop) (id email : string) : Prop :=
  ∃ region orgID now, allowed (CSignUp region orgID id now email) ∨ allowed (CFindOrCreate region orgID id now email).

(** An identifier is drawn for one address only, and a secret for one key only, as far as
    their hashes tell. *)
Definition drawn_once (allowed : call → Prop) : Prop :=
  (∀ id e e', signed_up allowed id e → signed_up allowed id e' → e = e') ∧
  (∀ k k', issued allowed k → issued allowed k' → k_Hash k = k_Hash k' → k_ID k = k_ID k').

Record bijective (allowed : call → Prop) (s : MemStore) : Prop := {
  bi_wf : wf s;
  bi_issued : map_Forall (λ _, issued allowed) (keys s);
  bi_signed id a : accounts s !! id = Some a → signed_up allowed id (a_Email a);
  bi_emails e id : byEmail s !! e = Some id → ∃ a, accounts s !! id = Some a ∧ a_Email a = e;
  bi_hashes id k : keys s !! id = Some k → byHash s !! k_Hash k = Some id;
}.

Lemma bijective_new allowed : bijective allowed NewMemStore.
Proof. split; [apply wf_new|apply map_Forall_empty|..]; intros *; simpl; rewrite lookup_empty; done. Qed.

Lemma PutAccount_bijective allowed a s : drawn_once allowed → signed_up allowed (a_ID a) (a_Email a) → bijective allowed s →
  bijective allowed (mem_PutAccount a s).2.
Proof.
  intros [Hd _] Ha Hs. pose proof (mem_PutAccount_wf a s (bi_wf _ _ Hs)) as Hwf. revert Hwf. unfold mem_PutAccount.
  assert (∀ s', s' = set_accounts (<[a_ID a := a]> (accounts s)) (<[a_Email a := a_ID a]> (byEmail s)) s → wf s' → bijective allowed s') as H.
  { intros s' -> Hwf. destruct Hs as [Hs Hi Hg He Hh]. split; simpl; [done|done| | |done].
    - intros id b [[<- <-]|[_ Hb]]%lookup_insert_Some; [done|by apply Hg].
    - intros e id [[<- <-]|[Hne Hb]]%lookup_insert_Some; [by exists a; rewrite lookup_insert_eq|].
      destruct (He e id Hb) as (b & Hl & <-). destruct (decide (a_ID a = id)) as [<-|]; [|by exists b; rewrite lookup_insert_ne].
      destruct Hne. eapply Hd; [exact Ha|]. by apply Hg. }
  destruct (byEmail s !! a_Email a); [case_bool_decide; [|done]|]; simpl; by apply H.
Qed.

Lemma writes_of_any filed allowed f : writes_of filed allowed f → writes allowed f.
Proof. intros []; by econstructor. Qed.

Lemma writes_bijective allowed f s : drawn_once allowed →
  writes_of (λ a, signed_up allowed (a_ID a) (a_Email a)) allowed f → bijective allowed s → bijective allowed (f s).2.
Proof.
  intros Hd0 Hf Hs. pose proof (writes_of_any _ _ _ Hf) as Hfa. pose proof (writes_wf allowed f s Hfa (bi_wf _ _ Hs)) as Hwf.
  assert (map_Forall (λ _, issued allowed) (keys (f s).2)) as Hi by (apply writes_issued; [done|apply Hs..]).
  pose proof Hs as Hs0. pose proof (proj2 Hd0) as Hd. destruct Hs as [Hs His Hg He Hh].
  assert ((∀ id k, keys (f s).2 !! id = Some k → byHash (f s).2 !! k_Hash k = Some id) →
    accounts (f s).2 = accounts s → byEmail (f s).2 = byEmail s → bijective allowed (f s).2) as H.
  { intros Hk Ha Hb. split; [done|done|by rewrite Ha|by rewrite Ha, Hb|done]. }
  destruct Hf as [a|o|m|o a r|o a|id now rnd a req scopes secret Ha Hsc Hrnd|id now a Ha|wall i Hp|wall old i Hp|id|id];
    [by apply PutAccount_bijective|..];
    try (apply H; unfold mem_PutMembership, mem_SetMembershipRole, mem_DeleteMembership, mem_CreateInvitation,
      mem_ReplaceInvitation, mem_UpdateInvitationState, mem_RemoveInvitation, mem_PutOrg; cbv zeta; repeat case_match; done).
  - revert H Hi. unfold mem_PutApiKey. set (k := new_key _ _ _ _ _ _). destruct (keys s !! k_ID k) as [k'|] eqn:E; simpl; [by auto|].
    intros H Hi. apply H; [|done..]. intros id' k' [[<- <-]|[Hne Hk']]%lookup_insert_Some; [by rewrite lookup_insert_eq|].
    rewrite lookup_insert_ne; [by apply Hh|]. intros Heq. apply Hne.
    destruct (wf_keys s Hs _ _ Hk') as [<- _]. apply (Hd k k'); [|by eapply His|done]. by apply (Hi (k_ID k) k); rewrite lookup_insert_eq.
  - revert H. unfold mem_RevokeApiKey. destruct (keys s !! id) as [k|] eqn:E; simpl; [|by auto]. destruct (IsRevoked k); simpl; [by auto|].
    intros H. apply H; [|done..]. intros id' k' [[<- <-]|[Hne Hk']]%lookup_insert_Some; [|by apply Hh]. by apply (Hh id k).
Qed.

Lemma calls_bijective allowed c : drawn_once allowed → allowed c → maintains (bijective allowed) (prog_of c).
Proof.
  intros Hd Hc. set (filed := λ a, signed_up allowed (a_ID a) (a_Email a)).
  assert (∀ f, writes_of filed allowed f → keeps (bijective allowed) (op f)) as Hop
    by (intros f Hf; apply keeps_op; intros s; by apply writes_bijective).
  destruct c as [region org id now e|region org id now e|id u| | | | | | | |]; cycle 2.
  { unfold prog_of, outcome, UpdateProfile. intros s Hs. split; [done|]. cbn.
    destruct (mem_GetAccount id s) as [acct|] eqn:E; [|done]. apply keeps_maintains. split.
    - intros s' Hs'. eapply writes_bijective; [done| |done]. constructor. simpl.
      unfold mem_GetAccount, found in E. destruct (accounts s !! id) as [a|] eqn:Ea; simplify_eq/=.
      destruct (wf_accounts s (bi_wf _ _ Hs) _ _ Ea) as [-> _]. by apply (bi_signed _ _ Hs).
    - by intros [[]|]. }
  all: apply keeps_maintains; cbn [prog_of]; unfold outcome, SignUp, FindOrCreateByEmail, SetMemberRole, RemoveMember,
    account_CreateKey, CreateKey, RevokeKey, CreateInvite, RevokeInvite, ResendInvite, AcceptInvite, SignUp, memberRole,
    memberRoleIn, isMember, findInOrg, sendInvite, org_name, inviter_name; walk_prog; apply Hop; econstructor; try done.
  all: by exists region, org, now; auto.
Qed.

(** C20: the store stays well formed under concurrent requests.  Whatever calls arrive, with
    whatever identifiers, clock readings and random bytes, and however their operations
    interleave: every record is filed under its identifier; an account and an invitation are
    found by their e-mail address and token; an e-mail address leads to an account, and a
    key's hash and an invitation's token to a record that has them; and an account has at
    most one membership in an organization.  When no account identifier is drawn for two
    addresses, and no two keys have one hash, an e-mail address leads to the account that has
    it, and a key is found by its hash. *)
Theorem store_well_formed allowed s ps : serving allowed (s, ps) →
  wf s ∧
  (drawn_once allowed →
   (∀ e id, byEmail s !! e = Some id → ∃ a, accounts s !! id = Some a ∧ a_Email a = e) ∧
   (∀ id k, keys s !! id = Some k → byHash s !! k_Hash k = Some id)).
Proof.
  intros Hr. split; [eapply serving_keeps; [apply wf_new|intros f s0; apply writes_wf|exact Hr]|]. intros Hd.
  assert (bijective allowed s) as []; [|done].
  apply (reaches_maintains (bijective allowed) _ _ _) in Hr; [done| |apply bijective_new|constructor].
  intros p (c & Hc & ->). by apply calls_bijective.
Qed.

(** A presented key that verifies. *)
Lemma Verify_inv now raw scope s k :
  wf s → (run (Verify salt now raw scope) s).1 = Ok k →
  HasPrefix raw keyPrefix = true ∧ keys s !! k_ID k = Some k ∧ k_Hash k = hash salt raw ∧ IsExpired k now = false ∧
  IsRevoked k = false ∧ (scope ≠ "" → HasScope k scope = true).
Proof.
  intros Hs. unfold Verify. destruct (HasPrefix raw keyPrefix) eqn:Hp; simpl; [|done]. case_match; [done|]. simpl.
  unfold mem_GetApiKeyByHash. destruct (byHash s !! hash salt raw) as [id|] eqn:E; simpl; [|done].
  destruct (wf_hashes s Hs _ _ E) as (k' & Hk' & _). rewrite Hk'. simpl.
  destruct (wf_keys s Hs _ _ Hk') as [Hid _].
  case_bool_decide as Hh; simpl; [|done]. destruct (IsExpired k' now) eqn:He; [done|].
  destruct (IsRevoked k') eqn:Hr; [done|]. destruct (negb _ && negb _) eqn:Hsc; [done|]. intros [= <-].
  split_and!; try done; [congruence|]. intros Hne. rewrite bool_decide_eq_false_2 in Hsc by done.
  by destruct (HasScope k' scope).
Qed.

(** Only the scope itself satisfies [admin]. *)
Lemma admin_not_implied held : scopeSatisfies held ScopeAdmin = true → held = ScopeAdmin.
Proof.
  unfold scopeSatisfies, scopeImplied. case_bool_decide as Hh; [done|]. simpl.
  repeat case_bool_decide; simpl; try done.
Qed.

Lemma HasScope_elem k scope : HasScope k scope = true → ∃ held, held ∈ k_Scopes k ∧ scopeSatisfies held scope = true.
Proof. unfold HasScope. rewrite existsb_exists. intros (x & Hx%list_elem_of_In & ?). eauto. Qed.

Lemma requested_admin scopes req : requested_scopes req = Ok scopes → ScopeAdmin ∈ scopes → ScopeAdmin ∈ req.
Proof.
  unfold requested_scopes. case_bool_decide as He; [|by destruct (forallb _ _); intros [= <-]].
  intros [= <-] Ha. exfalso. revert Ha. apply (bool_decide_unpack _). by vm_compute.
Qed.

(** C25: a key that verifies was issued, for the organization and with the scopes it gives.
    However the calls interleave: if a presented key is accepted for a scope, some call to
    create a key issued it, for its organization; the key is the one that call returned,
    or SHA-256 has a collision in the two; it is within its lifetime, the scope is one
    that call asked for or the default set has, or one implied by these, and it is not
    [admin] unless the call asked for [admin]. *)
Theorem verified_key_was_issued allowed s ps now raw scope k :
  serving allowed (s, ps) → (run (Verify salt now raw scope) s).1 = Ok k →
  ∃ created rnd a req scopes secret,
    allowed (CCreateKey (k_ID k) created rnd a req) ∧ requested_scopes (cr_Scopes req) = Ok scopes ∧
    randomSecret rnd = Ok secret ∧ k_OrgID k = cr_OrgID req ∧
    (let raw' := keyPrefix +:+ secret in
     raw = raw' ∨ (salt +:+ raw ≠ salt +:+ raw' ∧ Sha256.Sum256 (salt +:+ raw) = Sha256.Sum256 (salt +:+ raw'))) ∧
    (0 < cr_TTL req → 0 ≤ created → now < created + cr_TTL req) ∧
    (scope ≠ "" → ∃ held, held ∈ scopes ∧ scopeSatisfies held scope = true) ∧
    (scope = ScopeAdmin → ScopeAdmin ∈ cr_Scopes req).
Proof.
  intros Hr Hv. pose proof (serving_keeps allowed wf s ps wf_new (writes_wf allowed) Hr) as Hwf.
  destruct (Verify_inv _ _ _ _ _ Hwf Hv) as (Hp & Hk & Hh & He & _ & Hs).
  destruct (keys_issued allowed s ps Hr _ _ Hk) as (c & rnd & a & req & sc & sec & H1 & H2 & H3 & H4).
  exists c, rnd, a, req, sc, sec. assert (k_Scopes k = sc) as Hsc by by rewrite H4.
  split_and!; [done|done|done|by rewrite H4| | | |].
  - destruct (decide (raw = keyPrefix +:+ sec)) as [->|Hne]; [by left|]. right.
    split; [by intros Heq%str_app_inj_l|]. rewrite H4 in Hh. simpl in Hh. unfold hash in Hh. by apply hex_inj in Hh.
  - intros Ht Hc. rewrite H4 in He. unfold IsExpired in He. simpl in He.
    rewrite (proj2 (Z.ltb_lt _ _) Ht) in He. unfold time_is_zero in He.
    rewrite (proj2 (Z.eqb_neq _ _)) in He by lia. apply negb_false_iff, Z.ltb_lt in He. done.
  - intros Hne. apply Hs, HasScope_elem in Hne as (held & Hh' & ?). exists held. by rewrite <- Hsc.
  - intros ->. apply (requested_admin sc); [done|]. destruct (HasScope_elem k ScopeAdmin) as (held & Hh' & Ha); [by apply Hs|].
    apply admin_not_implied in Ha as ->. by rewrite <- Hsc.
Qed.

(** A revoked key. *)
Definition revoked (id : string) (s : MemStore) : Prop := ∃ k, keys s !! id = Some k ∧ IsRevoked k = true.

Lemma writes_revoked allowed id f s : writes allowed f → wf s ∧ revoked id s → wf (f s).2 ∧ revoked id (f s).2.
Proof.
  intros Hf [Hwf (k & Hk & Hr)]. split; [by eapply writes_wf|]. unfold revoked.
  destruct (writes_keys allowed f s Hf Hwf) as [->|[(k' & _ & Hn & ->)|(k' & now & Hk' & Hr' & ->)]]; [by exists k|..].
  - exists k. rewrite lookup_insert_ne; [done|]. congruence.
  - exists k. rewrite lookup_insert_ne; [done|]. intros <-. congruence.
Qed.

Lemma RevokeKey_revokes now a id s :
  wf s → now ≠ 0 → (run (RevokeKey now a id) s).1 = Ok tt → revoked id (run (RevokeKey now a id) s).2.
Proof.
  intros Hs Hn. unfold RevokeKey. simpl. unfold mem_GetApiKey. destruct (keys s !! id) as [k|] eqn:E; simpl; [|done].
  destruct (negb _); simpl; [done|]. unfold mem_RevokeApiKey. rewrite E.
  destruct (IsRevoked k) eqn:Er; simpl; intros _; [by exists k|]. exists (with_revoked now k). simpl.
  rewrite lookup_insert_eq. split; [done|]. unfold IsRevoked, time_is_zero. simpl. by rewrite (proj2 (Z.eqb_neq _ _)).
Qed.

(** C35: a revoked key is dead for good.  Once a call to revoke a key has succeeded, no
    presented value is ever again accepted as that key: whatever calls were under way and
    whatever calls arrive later, and however they interleave. *)
Theorem revoked_key_dead allowed s ps now a id s' ps' t raw scope k :
  serving allowed (s, ps) → now ≠ 0 → (run (RevokeKey now a id) s).1 = Ok tt →
  reaches (λ p, ∃ c, allowed c ∧ p = prog_of c) ((run (RevokeKey now a id) s).2, ps) (s', ps') →
  (run (Verify salt t raw scope) s').1 = Ok k → k_ID k ≠ id.
Proof.
  intros Hr Hn Hok Hr' Hv.
  pose proof (serving_keeps allowed wf s ps wf_new (writes_wf allowed) Hr) as Hwf.
  assert (∀ p, (∃ c, allowed c ∧ p = prog_of c) → keeps (λ s, wf s ∧ revoked id s) p) as Hkeep.
  { intros p (c & Hc & ->). apply (calls_keep allowed); [done|]. intros f s0 Hf. by apply (writes_revoked allowed). }
  assert (Forall (keeps (λ s, wf s ∧ revoked id s)) ps) as Hps.
  { by apply (reaches_keeps _ _ _ _ Hkeep Hr); constructor. }
  destruct (reaches_keeps _ _ _ _ Hkeep Hr' Hps) as [_ Hend].
  destruct Hend as [Hwf' (k' & Hk' & Hrk)].
  { split; [|by apply RevokeKey_revokes]. cbn [fst].
    assert (keeps wf (RevokeKey now a id)) as Hkw.
    { apply (calls_keep (λ _, True) wf (CRevokeKey now a id)); [done|]. intros f s0. apply writes_wf. }
    by apply run_keeps. }
  destruct (Verify_inv _ _ _ _ _ Hwf' Hv) as (_ & Hk & _ & _ & Hnr & _). intros <-. congruence.
Qed.

(** ** Requests that follow one another *)

Definition any_call (c : call) : Prop := True.

(** Each call arrives and takes up to [n] steps before the next one arrives. *)
Definition arrivals (n : nat) (cs : list call) : list (prog MemStore (result saas_error unit) + nat) :=
  c ← cs; inl (prog_of c) :: (inr <$> replicate n 0%nat).

Lemma schedule_any acts c :
  Forall (λ act, match act with inl p => ∃ c, p = prog_of c | inr _ => True end) acts →
  reaches (λ p, ∃ c, any_call c ∧ p = prog_of c) c (schedule acts c).
Proof.
  intros Hall. apply schedule_reaches. eapply Forall_impl; [exact Hall|]. intros [p|i]; [|done].
  intros [c0 ->]. by exists c0.
Qed.

Lemma arrivals_of n cs : serving (λ c, c ∈ cs) (schedule (arrivals n cs) (NewMemStore, [])).
Proof.
  apply schedule_reaches. unfold arrivals. rewrite Forall_bind. apply Forall_forall. intros c Hc.
  constructor; [by exists c|]. apply Forall_fmap, Forall_replicate. done.
Qed.

Lemma serving_mono (allowed allowed' : call → Prop) c : (∀ c, allowed c → allowed' c) → serving allowed c → serving allowed' c.
Proof.
  intros Ha. unfold serving, reaches. apply rtc_subrel. intros c1 c2 [B s ps1 f k ps2 b s' Hf|s ps p (c0 & ? & ->)].
  - by apply step_atomic.
  - apply step_arrive. eauto.
Qed.

Lemma arrivals_serving n cs : serving any_call (schedule (arrivals n cs) (NewMemStore, [])).
Proof. by eapply serving_mono, arrivals_of. Qed.

End calls.

(** ** Concrete inputs *)

(** Olga signs up and makes two keys, one of them for a day and only to read. *)
Definition ex_calls : list call :=
  [CSignUp "eu" "acme" "olga" hour "olga@corp.com";
   CCreateKey "k1" hour (Some "0123") "olga" {| cr_OrgID := "acme"; cr_Name := "ci"; cr_Scopes := []; cr_TTL := 0 |};
   CCreateKey "k2" hour (Some "4567") "olga"
     {| cr_OrgID := "acme"; cr_Name := "ro"; cr_Scopes := [ScopeReadOnly]; cr_TTL := 24 * hour |}].

Definition ex_state := schedule (arrivals "pepper" None InvitationTTL 4 ex_calls) (NewMemStore, []).

Definition ex_raw (b : string) : string := keyPrefix +:+ Base64.EncodeToString b.

Definition ex_key2 : ApiKey :=
  new_key "pepper" (ex_raw "4567") "k2" hour [ScopeReadOnly]
    {| cr_OrgID := "acme"; cr_Name := "ro"; cr_Scopes := [ScopeReadOnly]; cr_TTL := 24 * hour |}.

Lemma ex_serving : serving "pepper" None InvitationTTL any_call (ex_state.1, ex_state.2).
Proof. rewrite <- (surjective_pairing ex_state). apply arrivals_serving. Qed.

(** The keys that the two calls can make. *)
Lemma ex_issued k : issued "pepper" (λ c, c ∈ ex_calls) k →
  (k_ID k, k_Hash k) ∈ [("k1", hash "pepper" (ex_raw "0123")); ("k2", hash "pepper" (ex_raw "4567"))].
Proof.
  intros (c & rnd & a & req & sc & sec & Hin & _ & Hs & Hk). rewrite Hk. cbn [k_ID k_Hash new_key with_revoked].
  unfold ex_calls in Hin. rewrite !elem_of_cons in Hin. destruct Hin as [[=]|[[= <- _ -> _ _]|[[= <- _ -> _ _]|[]%not_elem_of_nil]]];
    injection Hs as <-; [apply list_elem_of_here|apply list_elem_of_further, list_elem_of_here].
Qed.

Lemma ex_drawn_once : drawn_once "pepper" (λ c, c ∈ ex_calls).
Proof.
  split.
  - assert (∀ id e, signed_up (λ c, c ∈ ex_calls) id e → e = "olga@corp.com") as Ho; [|by intros id e e' ->%Ho ->%Ho].
    intros id e (r & o & n & [H|H]); unfold ex_calls in H; rewrite !elem_of_cons in H;
      destruct H as [[=]|[[=]|[[=]|[]%not_elem_of_nil]]]; done.
  - assert (hash "pepper" (ex_raw "0123") ≠ hash "pepper" (ex_raw "4567")) as Hne by (apply (bool_decide_unpack _); by vm_compute).
    intros k k' Hk%ex_issued Hk'%ex_issued. rewrite !elem_of_cons in Hk, Hk'. intros Heq.
    destruct Hk as [[= -> Hh]|[[= -> Hh]|[]%not_elem_of_nil]], Hk' as [[= -> Hh']|[[= -> Hh']|[]%not_elem_of_nil]]; congruence.
Qed.

Lemma store_well_formed_witness :
  (∀ id k, keys ex_state.1 !! id = Some k → byHash ex_state.1 !! k_Hash k = Some id) ∧
  ∃ a, accounts ex_state.1 !! "olga" = Some a ∧ a_Email a = "olga@corp.com".
Proof.
  assert (serving "pepper" None InvitationTTL (λ c, c ∈ ex_calls) (ex_state.1, ex_state.2)) as Hr
    by (rewrite <- (surjective_pairing ex_state); apply arrivals_of).
  destruct (store_well_formed "pepper" None InvitationTTL _ ex_state.1 ex_state.2 Hr) as [_ H].
  destruct (H ex_drawn_once) as [He Hk]. split; [exact Hk|]. apply He. vm_compute. reflexivity.
Defined.

Lemma ex_verify2 : (run (Verify "pepper" (2 * hour) (ex_raw "4567") ScopeReadOnly) ex_state.1).1 = Ok ex_key2.
Proof. vm_compute. reflexivity. Qed.

Lemma verified_key_was_issued_witness :
  ∃ created rnd a req scopes secret,
    any_call (CCreateKey (k_ID ex_key2) created rnd a req) ∧ requested_scopes (cr_Scopes req) = Ok scopes ∧
    randomSecret rnd = Ok secret ∧ k_OrgID ex_key2 = cr_OrgID req ∧
    (let raw' := keyPrefix +:+ secret in
     ex_raw "4567" = raw' ∨
     ("pepper" +:+ ex_raw "4567" ≠ "pepper" +:+ raw' ∧
      Sha256.Sum256 ("pepper" +:+ ex_raw "4567") = Sha256.Sum256 ("pepper" +:+ raw'))) ∧
    (0 < cr_TTL req → 0 ≤ created → 2 * hour < created + cr_TTL req) ∧
    (ScopeReadOnly ≠ "" → ∃ held, held ∈ scopes ∧ scopeSatisfies held ScopeReadOnly = true) ∧
    (ScopeReadOnly = ScopeAdmin → ScopeAdmin ∈ cr_Scopes req).
Proof.
  exact (verified_key_was_issued "pepper" None InvitationTTL any_call ex_state.1 ex_state.2 (2 * hour) (ex_raw "4567")
    ScopeReadOnly ex_key2 ex_serving ex_verify2).
Defined.

Lemma ex_revoke_ok : (run (RevokeKey (2 * hour) "olga" "k1") ex_state.1).1 = Ok tt.
Proof. vm_compute. reflexivity. Qed.

Lemma ex_verify2_after :
  (run (Verify "pepper" (2 * hour) (ex_raw "4567") ScopeReadOnly) (run (RevokeKey (2 * hour) "olga" "k1") ex_state.1).2).1 =
  Ok ex_key2.
Proof. vm_compute. reflexivity. Qed.

Lemma revoked_key_dead_witness : k_ID ex_key2 ≠ "k1".
Proof.
  assert (2 * hour ≠ 0) as Hn by done.
  exact (revoked_key_dead "pepper" None InvitationTTL any_call ex_state.1 ex_state.2 (2 * hour) "olga" "k1"
    (run (RevokeKey (2 * hour) "olga" "k1") ex_state.1).2 ex_state.2 (2 * hour) (ex_raw "4567") ScopeReadOnly ex_key2
    ex_serving Hn ex_revoke_ok (rtc_refl _ _) ex_verify2_after).
Defined.

End SaasTheorems.
