(* ===== verification/MembershipTheorems.v ===== *)
(** * Memberships and invitations: who owns an organization

    When the calls run one after the other, an organization that has an owner keeps one,
    and only owners make owners.  Interleaved calls can leave an organization without an
    owner, and resending can leave two live invitations for one address. *)

From Stdlib Require Import Ascii.
From S2P Require Import Prelude Sha256 Base64 GoStrings Atomic Saas Accounts Invites SaasTheorems.
Import GoStrings Saas Accounts Invites SaasTheorems.

Module MembershipTheorems.

Section members.
Context {sorting : SliceSort} {ranging : MapRange} {unicode : Unicode}.

(** ** Roles *)

Definition has_role (s : MemStore) (x o : string) (r : Role) : Prop :=
  ∃ m, m ∈ default [] (members s !! x) ∧ m_OrgID m = o ∧ m_Role m = r.

Abbreviation owns s o x := (has_role s x o RoleOwner) (only parsing).

(** The code reads the first membership in the organization, which is the only one. *)
Lemma role_in_spec o l r :
  NoDup (m_OrgID <$> l) → role_in o l = Some r ↔ ∃ m, m ∈ l ∧ m_OrgID m = o ∧ m_Role m = r.
Proof.
  intros Hn. unfold role_in. split.
  - destruct (list_find _ l) as [[i m]|] eqn:E; simpl; [|done]. intros [= <-].
    apply list_find_Some in E as (Hi & Ho & _). exists m. split; [by eapply list_elem_of_lookup_2|done].
  - intros (m & Hm & Ho & Hr). apply list_elem_of_lookup in Hm as [i Hi].
    assert (list_find (λ m, m_OrgID m = o) l = Some (i, m)) as ->; [|by rewrite <- Hr].
    apply list_find_Some. split_and!; [done|done|]. intros j m' Hj Ho' Hlt.
    assert (i = j); [|lia]. eapply (NoDup_lookup (m_OrgID <$> l)); [done|by rewrite list_lookup_fmap, Hi|].
    rewrite list_lookup_fmap, Hj. simpl. congruence.
Qed.

Lemma role_read s x o r : wf s → role_in o (default [] (members s !! x)) = Some r ↔ has_role s x o r.
Proof. intros Hs. apply role_in_spec, wf_list_of, Hs. Qed.

Lemma role_unique s x o r r' : wf s → has_role s x o r → has_role s x o r' → r = r'.
Proof. intros Hs H1 H2. apply role_read in H1, H2; [congruence|done..]. Qed.

Lemma elem_replace l i old m m' :
  NoDup (m_OrgID <$> l) → l !! i = Some old →
  m' ∈ <[i := m]> l ↔ m' = m ∨ (m' ∈ l ∧ m_OrgID m' ≠ m_OrgID old).
Proof.
  intros Hn Hi. assert (i < length l)%nat as Hlt by by eapply lookup_lt_Some.
  rewrite !list_elem_of_lookup. split.
  - intros [j Hj]. apply list_lookup_insert_Some in Hj as [(_ & -> & _)|[Hne Hj]]; [by left|]. right. split; [by exists j|].
    intros Ho. apply Hne. eapply (NoDup_lookup (m_OrgID <$> l)); [done|by rewrite list_lookup_fmap, Hi|].
    rewrite list_lookup_fmap, Hj. simpl. congruence.
  - intros [->|[[j Hj] Ho]]; [exists i; by apply list_lookup_insert_eq|]. exists j. rewrite list_lookup_insert_ne; [done|].
    intros <-. congruence.
Qed.

Lemma elem_remove l i old m' :
  NoDup (m_OrgID <$> l) → l !! i = Some old →
  m' ∈ take i l ++ drop (S i) l ↔ m' ∈ l ∧ m_OrgID m' ≠ m_OrgID old.
Proof.
  intros Hn Hi. rewrite <- (take_drop_middle _ _ _ Hi) in Hn at 1. rewrite <- (take_drop_middle _ _ _ Hi) at 3.
  rewrite fmap_app, fmap_cons in Hn. apply NoDup_app in Hn as (_ & Hx & [Hy _]%NoDup_cons).
  rewrite !elem_of_app, elem_of_cons. split; [|naive_solver]. intros [Hm|Hm].
  - split; [by left|]. intros Ho. apply (Hx (m_OrgID m')); [by apply list_elem_of_fmap_2|]. rewrite Ho. left.
  - split; [by auto|]. intros Ho. apply Hy. rewrite <- Ho. by apply list_elem_of_fmap_2.
Qed.

Lemma member_index_some o l i : member_index o l = Some i → ∃ m, l !! i = Some m ∧ m_OrgID m = o.
Proof.
  unfold member_index. destruct (list_find _ l) as [[j m]|] eqn:E; [|done]. intros [= <-].
  apply list_find_Some in E as (? & ? & _). eauto.
Qed.

(** ** What the operations do to roles *)

Lemma has_role_set_members s a l x o r :
  has_role (set_members (<[a := l]> (members s)) s) x o r ↔
  (x = a ∧ ∃ m, m ∈ l ∧ m_OrgID m = o ∧ m_Role m = r) ∨ (x ≠ a ∧ has_role s x o r).
Proof.
  unfold has_role. simpl. destruct (decide (x = a)) as [->|Hne]; [rewrite lookup_insert_eq|rewrite lookup_insert_ne by done]; simpl; naive_solver.
Qed.

Lemma put_role m s x o r :
  wf s →
  has_role (mem_PutMembership m s).2 x o r ↔
  (x = m_AccountID m ∧ o = m_OrgID m ∧ r = m_Role m) ∨ (¬ (x = m_AccountID m ∧ o = m_OrgID m) ∧ has_role s x o r).
Proof.
  intros Hs. destruct (wf_list_of (m_AccountID m) s Hs) as [_ Hn]. unfold mem_PutMembership.
  destruct (member_index _ _) as [i|] eqn:E; simpl; rewrite has_role_set_members.
  - apply member_index_some in E as (old & Hi & Ho). setoid_rewrite elem_replace; [|done..]. rewrite Ho. unfold has_role.
    destruct (decide (x = m_AccountID m)) as [->|]; naive_solver.
  - apply member_index_none in E. setoid_rewrite elem_of_app. setoid_rewrite list_elem_of_singleton. unfold has_role.
    destruct (decide (x = m_AccountID m)) as [->|]; [|naive_solver].
    assert (∀ m', m' ∈ default [] (members s !! m_AccountID m) → m_OrgID m' ≠ m_OrgID m) as Hne.
    { intros m' Hm' Heq. apply E. rewrite <- Heq. by apply list_elem_of_fmap_2. }
    naive_solver.
Qed.

(** ** Counting owners *)

Lemma org_owners_elem site o s m :
  m ∈ org_owners site o s ↔ ∃ x l, members s !! x = Some l ∧ m ∈ l ∧ m_OrgID m = o ∧ m_Role m = RoleOwner.
Proof.
  unfold org_owners, all_members. rewrite list_elem_of_filter, list_elem_of_In, in_concat.
  setoid_rewrite <- list_elem_of_In. setoid_rewrite list_elem_of_fmap. split.
  - intros [[Ho Hr] (l & ([x l'] & -> & Hx%elem_of_map_range) & Hm)]. eauto 10.
  - intros (x & l & Hx & Hm & Ho & Hr). split; [done|]. exists l. split; [|done]. exists (x, l).
    split; [done|]. by apply elem_of_map_range.
Qed.

(** Each owner is counted once. *)
Lemma org_owners_NoDup site o s : wf s → NoDup (m_AccountID <$> org_owners site o s).
Proof.
  intros Hs. unfold org_owners, all_members.
  pose proof (NoDup_map_range site (members s)) as Hnd.
  assert (Forall (λ kv, wf_list kv.1 kv.2) (map_range site (members s))) as Hall.
  { apply Forall_forall. intros [x l] Hx%elem_of_map_range. by apply (wf_members s Hs). }
  revert Hnd Hall. generalize (map_range site (members s)). clear s Hs.
  induction l as [|[x l] kvs IH]; intros Hnd Hall; [constructor|].
  apply NoDup_cons in Hnd as [Hx Hnd]. apply Forall_cons in Hall as [[Ha Hn] Hall].
  change (concat ((x, l) :: kvs).*2) with (l ++ concat kvs.*2). rewrite filter_app, fmap_app. apply NoDup_app. split_and!; [| |by apply IH].
  - apply NoDup_fmap_2_strong.
    + intros m m' Hm Hm' _. apply list_elem_of_filter in Hm as [[Ho _] Hm], Hm' as [[Ho' _] Hm'].
      apply list_elem_of_lookup in Hm as [i Hi], Hm' as [k Hk]. assert (i = k); [|congruence].
      eapply (NoDup_lookup (m_OrgID <$> l)); [done|by rewrite list_lookup_fmap, Hi|].
      rewrite list_lookup_fmap, Hk. simpl. congruence.
    + apply NoDup_filter. by eapply NoDup_fmap_1.
  - intros y (m & -> & Hm)%list_elem_of_fmap (m' & Heq & Hm')%list_elem_of_fmap.
    apply list_elem_of_filter in Hm as [_ Hm], Hm' as [_ Hm']. apply Hx.
    rewrite Forall_forall in Ha. rewrite (Ha m Hm) in Heq. simpl in Heq. rewrite Heq.
    apply list_elem_of_In, in_concat in Hm' as (l' & Hl' & Hm'). apply list_elem_of_In in Hl', Hm'.
    apply list_elem_of_fmap in Hl' as ([z l''] & -> & Hz). rewrite Forall_forall in Hall.
    destruct (Hall _ Hz) as [Hz' _]. rewrite Forall_forall in Hz'. rewrite (Hz' m' Hm').
    by apply (list_elem_of_fmap_2 fst _ (z, l'')).
Qed.

Lemma owns_elem site o s x : wf s → owns s o x ↔ ∃ m, m ∈ org_owners site o s ∧ m_AccountID m = x.
Proof.
  intros Hs. setoid_rewrite org_owners_elem. unfold has_role. split.
  - intros (m & Hm & Ho & Hr). destruct (members s !! x) as [l|] eqn:E; simpl in Hm; [|set_solver].
    exists m. split; [by exists x, l|]. destruct (wf_members s Hs _ _ E) as [Ha _]. rewrite Forall_forall in Ha. auto.
  - intros (m & (y & l & Hy & Hm & Ho & Hr) & Hx). exists m. split; [|done].
    destruct (wf_members s Hs _ _ Hy) as [Ha _]. rewrite Forall_forall in Ha. rewrite <- Hx, (Ha m Hm), Hy. done.
Qed.

(** With more than one owner there is another one. *)
Lemma another_owner site o s x : wf s → 1 < Z.of_nat (length (org_owners site o s)) → ∃ y, y ≠ x ∧ owns s o y.
Proof.
  intros Hs Hlen. pose proof (org_owners_NoDup site o s Hs) as Hnd.
  setoid_rewrite (owns_elem site); [|done]. destruct (org_owners site o s) as [|m1 [|m2 ms]]; simpl in Hlen; try lia.
  rewrite !fmap_cons, !NoDup_cons in Hnd. destruct Hnd as (H12 & _ & _).
  destruct (decide (m_AccountID m1 = x)) as [<-|Hne].
  - exists (m_AccountID m2). split; [intros Heq; apply H12; rewrite Heq; left|]. exists m2. split; [right; left|done].
  - exists (m_AccountID m1). split; [done|]. exists m1. split; [left|done].
Qed.

Lemma set_role o a r0 s x o' r :
  wf s → (mem_SetMembershipRole o a r0 s).1 = Ok tt →
  has_role (mem_SetMembershipRole o a r0 s).2 x o' r ↔
  (x = a ∧ o' = o ∧ r = r0) ∨ (¬ (x = a ∧ o' = o) ∧ has_role s x o' r).
Proof.
  intros Hs. unfold mem_SetMembershipRole. case_match; [done|]. destruct (members s !! a) as [l|] eqn:E; [|done].
  destruct (member_index o l) as [i|] eqn:Ei; [|done]. intros _. simpl. rewrite has_role_set_members.
  apply member_index_some in Ei as (old & Hi & Ho). destruct (wf_members s Hs _ _ E) as [_ Hn].
  assert (alter (with_role r0) i l = <[i := with_role r0 old]> l) as ->.
  { apply list_eq. intros k. destruct (decide (k = i)) as [->|].
    - by rewrite list_lookup_alter_eq, list_lookup_insert_eq, Hi by by eapply lookup_lt_Some.
    - by rewrite list_lookup_alter_ne, list_lookup_insert_ne. }
  setoid_rewrite elem_replace; [|done..]. rewrite Ho. unfold has_role.
  destruct (decide (x = a)) as [->|]; [|naive_solver]. rewrite E. simpl. split.
  - intros [[_ (m & [->|[Hm Hne]] & Hmo & Hmr)]|[? _]]; [left; simpl in *; by subst| |done].
    right. split; [naive_solver|eauto].
  - intros [(_ & -> & ->)|[Hn' (m & Hm & Hmo & Hmr)]]; left; (split; [done|]).
    + exists (with_role r0 old). split; [by left|done].
    + exists m. split; [right; split; [done|naive_solver]|done].
Qed.

Lemma delete_role o a s x o' r :
  wf s → (mem_DeleteMembership o a s).1 = Ok tt →
  has_role (mem_DeleteMembership o a s).2 x o' r ↔ ¬ (x = a ∧ o' = o) ∧ has_role s x o' r.
Proof.
  intros Hs. unfold mem_DeleteMembership. destruct (members s !! a) as [l|] eqn:E; [|done].
  destruct (list_find _ l) as [[i old]|] eqn:Ei; [|done]. case_match; [done|]. intros _. simpl.
  rewrite has_role_set_members. apply list_find_Some in Ei as (Hi & Ho & _).
  destruct (wf_members s Hs _ _ E) as [_ Hn]. setoid_rewrite elem_remove; [|done..]. rewrite Ho. unfold has_role.
  destruct (decide (x = a)) as [->|]; [|naive_solver]. rewrite E. simpl. naive_solver.
Qed.

(** ** One call after another *)

Context (salt : string) (email : option InviteEmailSender) (tokenTTL : Z).

Abbreviation after c s := ((run (prog_of salt email tokenTTL c) s).2) (only parsing).

(** The invitation that a token names. *)
Definition invited (s : MemStore) (tok : string) (i : Invitation) : Prop :=
  inviteHash s !! hashInviteToken tok = Some (i_ID i) ∧ invitations s !! i_ID i = Some i.

Lemma put_members m s s' : members s = members s' → members (mem_PutMembership m s).2 = members (mem_PutMembership m s').2.
Proof. intros Heq. unfold mem_PutMembership. rewrite Heq. by case_match. Qed.

Lemma has_role_members s s' x o r : members s = members s' → has_role s x o r ↔ has_role s' x o r.
Proof. unfold has_role. by intros ->. Qed.

(** The calls that touch memberships, with what they have checked. *)
Inductive member_effect (s s' : MemStore) : call → Prop :=
| e_signup r o a now e m c :
    c = CSignUp r o a now e ∨ c = CFindOrCreate r o a now e →
    m_AccountID m = a → m_OrgID m = o → m_Role m = RoleOwner →
    members s' = members (mem_PutMembership m s).2 → member_effect s s' c
| e_accept now x e tok i m :
    invited s tok i → EffectiveState i now = InvitationPending → InviteEmailMatches (i_Email i) e = true →
    (∀ r, ¬ has_role s x (i_OrgID i) r) → m_AccountID m = x → m_OrgID m = i_OrgID i → m_Role m = i_Role i →
    members s' = members (mem_PutMembership m s).2 → member_effect s s' (CAcceptInvite now x e tok)
| e_set actor o t r ar :
    has_role s actor o ar → Can ar PermManageMembers = true → canGrantRole ar r = true →
    (mem_SetMembershipRole o t r s).1 = Ok tt → members s' = members (mem_SetMembershipRole o t r s).2 →
    member_effect s s' (CSetMemberRole actor o t r)
| e_remove actor o t ar :
    has_role s actor o ar → actor = t ∨ Can ar PermManageMembers = true → (mem_DeleteMembership o t s).1 = Ok tt →
    members s' = members (mem_DeleteMembership o t s).2 → member_effect s s' (CRemoveMember actor o t)
| e_none c : members s' = members s → member_effect s s' c.

Lemma PutAccount_members a s : members (mem_PutAccount a s).2 = members s.
Proof. unfold mem_PutAccount. by repeat case_match. Qed.

Lemma signup_effect r o a now e c s :
  c = CSignUp r o a now e ∨ c = CFindOrCreate r o a now e → wf s →
  member_effect s (run (SignUp r o a now e) s).2 c.
Proof.
  intros Hc Hs. unfold SignUp. case_bool_decide; [by apply e_none|]. simpl.
  destruct (is_ok _); [by apply e_none|]. simpl. set (s1 := set_orgs _ s).
  set (acct := {| a_ID := a |}). pose proof (PutAccount_members acct s1) as Hm.
  destruct (mem_PutAccount acct s1) as [[[]|err] s2]; simpl in *; [|by apply e_none].
  set (m := {| m_AccountID := a |}). pose proof (put_members m s2 s Hm) as Hp.
  eapply (e_signup _ _ r o a now e m); [done|done|done|done|].
  destruct (mem_PutMembership m s2) as [[[]|err] s3]; done.
Qed.

Lemma run_outcome {A} (p : prog MemStore (result saas_error A)) s : (run (outcome p) s).2 = (run p s).2.
Proof. unfold outcome. rewrite run_bind_ok. by destruct (run p s) as [[] ?]. Qed.

(** The other calls leave memberships alone. *)
Lemma quiet_call c s :
  match c with
  | CUpdateProfile _ _ | CCreateKey _ _ _ _ _ | CRevokeKey _ _ _ | CCreateInvite _ _ _ _ _ _ _ _ | CRevokeInvite _ _
  | CResendInvite _ _ _ _ _ _ => members (after c s) = members s
  | _ => True
  end.
Proof.
  destruct c; try done; apply (run_keeps (λ s', members s' = members s)); try done; cbn [prog_of];
    unfold outcome, UpdateProfile, account_CreateKey, CreateKey, RevokeKey, CreateInvite, RevokeInvite, ResendInvite,
      isMember, memberRoleIn, findInOrg, sendInvite, org_name, inviter_name; walk_prog;
    apply keeps_op; intros s0 <-; simpl; unfold mem_PutAccount, mem_PutApiKey, mem_RevokeApiKey, mem_CreateInvitation,
      mem_ReplaceInvitation, mem_RemoveInvitation; repeat case_match; done.
Qed.

Lemma accept_effect now x e tok s : wf s → member_effect s (run (AcceptInvite now x e tok) s).2 (CAcceptInvite now x e tok).
Proof.
  intros Hs. unfold AcceptInvite. case_bool_decide; [by apply e_none|]. simpl. unfold mem_GetInvitationByTokenHash.
  destruct (inviteHash s !! hashInviteToken tok) as [id|] eqn:E; simpl; [|by apply e_none].
  destruct (wf_tokens s Hs _ _ E) as (i & Hi & _). rewrite Hi. simpl. destruct (wf_invites s Hs _ _ Hi) as [Hid _].
  case_bool_decide; [by apply e_none|]. case_bool_decide as Hst; simpl; [|by apply e_none].
  destruct (InviteEmailMatches (i_Email i) e) eqn:He; simpl; [|by apply e_none].
  case_bool_decide as Hr; simpl.
  - unfold mem_UpdateInvitationState. rewrite Hid, Hi. by apply e_none.
  - set (m := {| m_AccountID := x |}). assert (members (mem_PutMembership m s).2 = members (mem_PutMembership m s).2 ∧
      invitations (mem_PutMembership m s).2 = invitations s) as [_ Hinv] by (unfold mem_PutMembership; by case_match).
    assert ((mem_PutMembership m s).1 = Ok tt) as Hok by (unfold mem_PutMembership; by case_match).
    apply (e_accept _ _ now x e tok i m); try done; [by split; congruence| |].
    + intros r Hrole. apply Hr. apply role_read in Hrole; [|done]. eauto.
    + destruct (mem_PutMembership m s) as [r s1]. simpl in *. subst r. simpl.
      unfold mem_UpdateInvitationState. by rewrite Hid, Hinv, Hi.
Qed.

Lemma set_effect actor o t role s :
  wf s → member_effect s (run (SetMemberRole actor o t role) s).2 (CSetMemberRole actor o t role).
Proof.
  intros Hs. unfold SetMemberRole, memberRole. simpl.
  destruct (role_in o (default [] (members s !! actor))) as [ar|] eqn:Er; simpl; [|by apply e_none].
  destruct (Can ar PermManageMembers) eqn:Hc; simpl; [|by apply e_none].
  destruct (canGrantRole ar role) eqn:Hg; simpl; [|by apply e_none]. apply role_read in Er; [|done].
  destruct (mem_SetMembershipRole o t role s) as [[[]|err] s'] eqn:E; simpl.
  - by apply (e_set _ _ actor o t role ar); rewrite ?E.
  - apply e_none. revert E. unfold mem_SetMembershipRole. repeat case_match; by intros [= <- <-].
Qed.

Lemma remove_effect actor o t s :
  wf s → member_effect s (run (RemoveMember actor o t) s).2 (CRemoveMember actor o t).
Proof.
  intros Hs. unfold RemoveMember, memberRole. simpl.
  destruct (role_in o (default [] (members s !! actor))) as [ar|] eqn:Er; simpl; [|by apply e_none].
  destruct (negb _ && negb _) eqn:Hc; simpl; [by apply e_none|]. apply role_read in Er; [|done].
  destruct (mem_DeleteMembership o t s) as [[[]|err] s'] eqn:E; simpl.
  - apply (e_remove _ _ actor o t ar); rewrite ?E; try done.
    apply andb_false_iff in Hc as [Hc%negb_false_iff%bool_decide_eq_true|Hc%negb_false_iff]; auto.
  - apply e_none. revert E. unfold mem_DeleteMembership. repeat case_match; by intros [= <- <-].
Qed.

Lemma call_members c s : wf s → member_effect s (after c s) c.
Proof.
  intros Hs. pose proof (quiet_call c s) as Hq.
  destruct c as [r o a now e|r o a now e|a u|actor o t role|actor o t|id now rnd a req|now a k|wall now id rnd o i e role|o id|wall now id rnd o old|now x e tok];
    try (by apply e_none); cbn [prog_of]; rewrite ?run_outcome.
  - apply signup_effect; eauto.
  - unfold FindOrCreateByEmail. simpl. destruct (mem_GetAccountByEmail e s); [by apply e_none|]. simpl.
    rewrite run_bind. pose proof (signup_effect r o a now e (CFindOrCreate r o a now e) s (or_intror eq_refl) Hs) as He.
    destruct (run (SignUp r o a now e) s) as [[[acct org]|[]] s']; simpl in *; exact He.
  - by apply set_effect.
  - by apply remove_effect.
  - by apply accept_effect.
Qed.

Lemma after_wf c s : wf s → wf (after c s).
Proof.
  intros Hs. apply run_keeps; [|done]. apply (calls_keep _ _ _ (λ _, True)); [done|]. intros f s0. apply writes_wf.
Qed.

Definition runs (cs : list call) (s : MemStore) : MemStore := foldl (λ s c, after c s) s cs.

Lemma runs_wf cs s : wf s → wf (runs cs s).
Proof. revert s. induction cs as [|c cs IH]; intros s Hs; [done|]. by apply IH, after_wf. Qed.

(** ** An organization keeps an owner *)

Lemma set_keeps_owner o t r s o' x :
  wf s → (mem_SetMembershipRole o t r s).1 = Ok tt → owns s o' x → ∃ y, owns (mem_SetMembershipRole o t r s).2 o' y.
Proof.
  intros Hs Hok Hx. setoid_rewrite set_role; [|done..].
  destruct (decide (r = RoleOwner)) as [->|Hr].
  { destruct (decide (x = t ∧ o' = o)) as [[-> ->]|]; eauto. }
  destruct (decide (x = t ∧ o' = o)) as [[-> ->]|Hne]; [|by eauto].
  assert (∃ y, y ≠ t ∧ owns s o y) as (y & Hy & ?); [|exists y; right; naive_solver].
  apply (another_owner "SetMembershipRole"); [done|]. revert Hok. unfold mem_SetMembershipRole.
  rewrite bool_decide_eq_false_2 by done.
  assert (existsb (λ m, bool_decide (m_AccountID m = t)) (org_owners "SetMembershipRole" o s) = true) as ->.
  { apply existsb_exists. apply (owns_elem "SetMembershipRole") in Hx as (m & Hm & <-); [|done]. exists m.
    split; [by apply list_elem_of_In|by apply bool_decide_eq_true]. }
  simpl. destruct (Z.leb_spec (Z.of_nat (length (org_owners "SetMembershipRole" o s))) 1); [done|]. intros _. lia.
Qed.

Lemma delete_keeps_owner o t s o' x :
  wf s → (mem_DeleteMembership o t s).1 = Ok tt → owns s o' x → ∃ y, owns (mem_DeleteMembership o t s).2 o' y.
Proof.
  intros Hs Hok Hx. setoid_rewrite delete_role; [|done..].
  destruct (decide (x = t ∧ o' = o)) as [[-> ->]|Hne]; [|by eauto].
  assert (∃ y, y ≠ t ∧ owns s o y) as (y & Hy & ?); [|exists y; naive_solver].
  apply (another_owner "DeleteMembership"); [done|]. revert Hok. unfold mem_DeleteMembership.
  apply role_read in Hx; [|done]. unfold role_in in Hx. destruct (members s !! t) as [l|] eqn:E; [|done]. simpl in Hx.
  destruct (list_find _ l) as [[i m]|]; [|done]. injection Hx as Hx. rewrite bool_decide_eq_true_2 by done. simpl.
  destruct (Z.leb_spec (Z.of_nat (length (org_owners "DeleteMembership" o s))) 1); [done|]. intros _. lia.
Qed.

Lemma call_keeps_owner c s o x : wf s → owns s o x → ∃ y, owns (after c s) o y.
Proof.
  intros Hs Hx. pose proof (call_members c s Hs) as He. revert He. generalize (after c s). intros s' He.
  destruct He as [r o' a now e m c _ Ha Ho Hr Heq|now x' e tok i m _ _ _ Hno Ha Ho _ Heq|actor o' t r ar _ _ _ Hok Heq|actor o' t ar _ _ Hok Heq|c Heq];
    setoid_rewrite (has_role_members _ _ _ _ _ Heq).
  - exists x. apply put_role; [done|]. rewrite Ha, Ho, Hr. destruct (decide (x = a ∧ o = o')) as [[-> ->]|]; auto.
  - exists x. apply put_role; [done|]. right. split; [|done]. rewrite Ha, Ho. intros [-> ->]. by apply (Hno RoleOwner).
  - by eapply set_keeps_owner.
  - by eapply delete_keeps_owner.
  - by exists x.
Qed.

(** C36: an organization that has an owner keeps one.  When calls run one after the other,
    whatever they are and whoever makes them, an organization that has an owner after some
    of them has one after any more; and a sign-up that succeeds leaves its organization
    with the new account as its owner. *)
Theorem org_keeps_owner cs more :
  (∀ o x, owns (runs cs NewMemStore) o x → ∃ y, owns (runs more (runs cs NewMemStore)) o y) ∧
  (∀ region orgID acctID now e acct org,
    (run (SignUp region orgID acctID now e) (runs cs NewMemStore)).1 = Ok (acct, org) →
    owns (run (SignUp region orgID acctID now e) (runs cs NewMemStore)).2 (o_ID org) (a_ID acct)).
Proof.
  pose proof (runs_wf cs _ wf_new) as Hwf. revert Hwf. generalize (runs cs NewMemStore). intros s Hs. split.
  - intros o x. revert s Hs x. induction more as [|c more IH]; intros s Hs x Hx; [by exists x|].
    destruct (call_keeps_owner c s o x Hs Hx) as [y Hy]. by apply (IH (after c s) (after_wf c s Hs) y).
  - intros region orgID acctID now e acct org Hok.
    pose proof (signup_effect region orgID acctID now e (CSignUp region orgID acctID now e) s (or_introl eq_refl) Hs) as He.
    revert Hok He. unfold SignUp. case_bool_decide; [done|]. simpl. destruct (is_ok _); [done|]. simpl.
    set (s1 := set_orgs _ s). set (ac := {| a_ID := acctID |}). 
    pose proof (mem_PutAccount_wf ac s1 (mem_PutOrg_wf {| o_ID := orgID |} s Hs)) as Hwf2.
    destruct (mem_PutAccount ac s1) as [[[]|err] s2]; simpl; [|done].
    set (m := {| m_AccountID := acctID |}). destruct (mem_PutMembership m s2) as [[[]|err] s3] eqn:E; simpl; [|done].
    intros [= <- <-] _. simpl. change s3 with ((Ok tt : result saas_error unit, s3).2). rewrite <- E.
    apply put_role; [done|by left].
Qed.

(** ** Only owners make owners *)

Lemma quiet_invites c s :
  match c with
  | CCreateInvite _ _ _ _ _ _ _ _ | CRevokeInvite _ _ | CResendInvite _ _ _ _ _ _ | CAcceptInvite _ _ _ _ => True
  | _ => invitations (after c s) = invitations s
  end.
Proof.
  destruct c; try done; apply (run_keeps (λ s', invitations s' = invitations s)); try done; cbn [prog_of];
    unfold outcome, SignUp, FindOrCreateByEmail, UpdateProfile, SetMemberRole, RemoveMember, account_CreateKey, CreateKey,
      RevokeKey, SignUp, memberRole, isMember; walk_prog;
    apply keeps_op; intros s0 <-; simpl; unfold mem_PutAccount, mem_PutOrg, mem_PutMembership, mem_SetMembershipRole,
      mem_DeleteMembership, mem_PutApiKey, mem_RevokeApiKey; cbv zeta; repeat case_match; done.
Qed.

(** The same offer: to join an organization with a role, from someone. *)
Definition same_offer (i i' : Invitation) : Prop :=
  i_OrgID i' = i_OrgID i ∧ i_Role i' = i_Role i ∧ i_InviterID i' = i_InviterID i.

Definition offers_from (s : MemStore) (i' : Invitation) : Prop := ∃ id i, invitations s !! id = Some i ∧ same_offer i i'.

Lemma sub_offers s s' :
  (∀ id i', invitations s' !! id = Some i' → ∃ i, invitations s !! id = Some i ∧ same_offer i i') →
  ∀ id i', invitations s' !! id = Some i' → offers_from s i'.
Proof. intros Hsub id i' Hi'. destruct (Hsub _ _ Hi') as (i & Hi & ?). by exists id, i. Qed.

Lemma accept_offers now x e tok s id i' :
  invitations (run (AcceptInvite now x e tok) s).2 !! id = Some i' → offers_from s i'.
Proof.
  intros H. apply (sub_offers s (run (AcceptInvite now x e tok) s).2) with id; [|done]. clear id i' H.
  apply (run_keeps (λ s', ∀ id i', invitations s' !! id = Some i' → ∃ i, invitations s !! id = Some i ∧ same_offer i i')).
  - unfold AcceptInvite. walk_prog; apply keeps_op; intros s0 HI id i'; simpl.
    + unfold mem_PutMembership. case_match; apply HI.
    + unfold mem_UpdateInvitationState. case_match eqn:E; [|apply HI]. simpl.
      intros [[<- <-]|[_ Hi]]%lookup_insert_Some; [|by apply HI]. destruct (HI _ _ E) as (i0 & Hi0 & ?). by exists i0.
  - intros id i' Hi. by exists i'.
Qed.

Lemma remove_offers o id0 s id i' : invitations (run (RevokeInvite o id0) s).2 !! id = Some i' → offers_from s i'.
Proof.
  intros H. apply (sub_offers s (run (RevokeInvite o id0) s).2) with id; [|done]. clear id i' H.
  apply (run_keeps (λ s', ∀ id i', invitations s' !! id = Some i' → ∃ i, invitations s !! id = Some i ∧ same_offer i i')).
  - unfold RevokeInvite, findInOrg. walk_prog; apply keeps_op; intros s0 HI id i'; simpl.
    unfold mem_RemoveInvitation. case_match; [|apply HI]. simpl. intros [_ Hi]%lookup_delete_Some. by apply HI.
  - intros id i' Hi. by exists i'.
Qed.

Lemma find_in_org o id s :
  run (findInOrg o id) s = (Err ErrNotFound, s) ∨
  ∃ inv id1, run (findInOrg o id) s = (Ok inv, s) ∧ invitations s !! id1 = Some inv.
Proof.
  unfold findInOrg. simpl. destruct (list_find _ _) as [[k inv]|] eqn:E; simpl; [|by left]. right.
  apply list_find_Some in E as (Hk & _ & _). apply list_elem_of_lookup_2 in Hk.
  rewrite sort_slice_perm in Hk. apply list_elem_of_filter in Hk as [_ Hk].
  apply list_elem_of_fmap in Hk as ([id1 i1] & -> & H1%elem_of_map_range). by exists i1, id1.
Qed.

Lemma resend_offers wall now nid rnd o id0 s id i' :
  invitations (run (ResendInvite email tokenTTL wall now nid rnd o id0) s).2 !! id = Some i' → offers_from s i'.
Proof.
  assert (∀ id i', invitations s !! id = Some i' → offers_from s i') as Hself by (intros id1 i1 Hi1; by exists id1, i1).
  unfold ResendInvite. rewrite run_bind_ok. destruct (find_in_org o id0 s) as [->|(inv & id1 & -> & H1)]; [apply Hself|].
  intros Hi. revert id i' Hi. cbv zeta.
  set (rest := if negb _ && negb _ then _ else _).
  apply (run_keeps (λ s', ∀ id i', invitations s' !! id = Some i' → offers_from s i') rest); [|done].
  unfold rest, sendInvite, org_name, inviter_name. walk_prog; apply keeps_op; intros s0 HI id i'; simpl;
    unfold mem_ReplaceInvitation; repeat (case_match; simpl; try apply HI);
    (intros [[<- <-]|[_ [_ Hi]%lookup_delete_Some]]%lookup_insert_Some; [by exists id1, inv|by eapply HI]).
Qed.

Lemma create_offers wall now nid rnd o inviter e role s id i' :
  wf s → invitations (run (CreateInvite email tokenTTL wall now nid rnd o inviter e role) s).2 !! id = Some i' →
  offers_from s i' ∨
  (∃ ir, has_role s inviter o ir ∧ canGrantRole ir (i_Role i') = true ∧ i_OrgID i' = o ∧ i_InviterID i' = inviter).
Proof.
  intros Hs. assert (∀ id i', invitations s !! id = Some i' → offers_from s i') as Hself by (intros id1 i1 Hi1; by exists id1, i1).
  unfold CreateInvite. case_bool_decide; [eauto|]. set (role' := if bool_decide (role = "") then _ else _).
  unfold memberRoleIn. simpl. destruct (role_in o _) as [ir|] eqn:Er; simpl; [|eauto].
  apply role_read in Er; [|done]. destruct (canGrantRole ir role') eqn:Hg; simpl; [|eauto].
  destruct (existsb _ _); simpl; [eauto|]. destruct (randomInviteToken rnd) as [tok|]; simpl; [|eauto].
  set (inv := {| i_ID := nid |}). intros Hi.
  assert (keeps (λ s', ∀ id i', invitations s' !! id = Some i' → offers_from s i' ∨ same_offer inv i')
    (do? _ := op (mem_CreateInvitation wall inv);
     do sent := sendInvite email inv tok;
     if negb sent then (do _ := op (mem_RemoveInvitation nid); Ret (Err ErrOther)) else Ret (Ok inv))) as Hk.
  { unfold sendInvite, org_name, inviter_name. walk_prog; apply keeps_op; intros s0 HI id1 i1; simpl.
    - unfold mem_CreateInvitation. destruct (invitations s0 !! _); [apply HI|].
      destruct (inviteHash s0 !! _); [apply HI|]. cbv zeta. destruct (hasPendingInvitationLocked _ _ _ _); [apply HI|]. simpl.
      intros [[<- <-]|[_ Hin]]%lookup_insert_Some; [by right|eauto].
    - unfold mem_RemoveInvitation. destruct (invitations s0 !! nid); [|apply HI]. simpl.
      intros [_ Hin]%lookup_delete_Some. eauto. }
  destruct (run_keeps _ _ s Hk (λ id1 i1 H1, or_introl (Hself id1 i1 H1)) _ _ Hi) as [|(-> & -> & ->)]; [by left|].
  right. exists ir. done.
Qed.

Lemma call_offers c s id i' :
  wf s → invitations (after c s) !! id = Some i' →
  offers_from s i' ∨
  (∃ wall now nid rnd e role ir, c = CCreateInvite wall now nid rnd (i_OrgID i') (i_InviterID i') e role ∧
    has_role s (i_InviterID i') (i_OrgID i') ir ∧ canGrantRole ir (i_Role i') = true).
Proof.
  intros Hs. pose proof (quiet_invites c s) as Hq.
  destruct c as [r o a now e|r o a now e|a u|actor o t role|actor o t|k now rnd a req|now a k|wall now nid rnd o inviter e role|o k|wall now nid rnd o old|now x e tok];
    try (rewrite Hq; intros Hi; left; by exists id, i'); cbn [prog_of]; rewrite run_outcome; intros Hi.
  - destruct (create_offers _ _ _ _ _ _ _ _ _ _ _ Hs Hi) as [|(ir & H1 & H2 & H3 & H4)]; [by left|right].
    exists wall, now, nid, rnd, e, role, ir. by subst.
  - left. by eapply remove_offers.
  - left. by eapply resend_offers.
  - left. by eapply accept_offers.
Qed.

(** The accounts that have owned an organization at some time, over calls that run one
    after the other. *)
Inductive history : MemStore → (string → string → Prop) → Prop :=
| h_new : history NewMemStore (λ _ _, False)
| h_call s E c : history s E → history (after c s) (λ o x, E o x ∨ owns (after c s) o x).

Lemma history_spec s E :
  history s E →
  wf s ∧ (∀ o x, owns s o x → E o x) ∧
  (∀ id i, invitations s !! id = Some i → i_Role i = RoleOwner → E (i_OrgID i) (i_InviterID i)).
Proof.
  induction 1 as [|s E c _ (Hwf & Hown & Hinv)].
  { split_and!; [apply wf_new|..]; [|done]. intros o x (m & Hm & _). simpl in Hm. rewrite lookup_empty in Hm. simpl in Hm. set_solver. }
  split_and!; [by apply after_wf|by auto|]. intros id i Hi Hr. left.
  destruct (call_offers c s id i Hwf Hi) as [(id0 & i0 & H0 & Ho & Hrole & Hin)|(wall & now & nid & rnd & e & role & ir & _ & Hir & Hg)].
  - rewrite Ho, Hin. apply (Hinv id0); congruence.
  - apply Hown. unfold canGrantRole in Hg. rewrite Hr, bool_decide_eq_true_2 in Hg by done.
    apply bool_decide_eq_true in Hg as ->. done.
Qed.

(** Only owners make owners.  Over calls that run one after the other, whoever comes to
    own an organization has signed up for it, was given the role by someone who owned it
    then, or has accepted an invitation, sent to an address that matches theirs and not
    expired, from someone who owned the organization at some time before. *)
Theorem owners_make_owners s E c o x :
  history s E → owns (after c s) o x → ¬ owns s o x →
  (∃ r now e, c = CSignUp r o x now e ∨ c = CFindOrCreate r o x now e) ∨
  (∃ y, owns s o y ∧ c = CSetMemberRole y o x RoleOwner) ∨
  (∃ now e tok i, c = CAcceptInvite now x e tok ∧ invited s tok i ∧ i_OrgID i = o ∧ i_Role i = RoleOwner ∧
    EffectiveState i now = InvitationPending ∧ InviteEmailMatches (i_Email i) e = true ∧ E o (i_InviterID i)).
Proof.
  intros (Hwf & Hown & Hinv)%history_spec. pose proof (call_members c s Hwf) as He. revert He.
  generalize (after c s). intros s' He.
  destruct He as [r o' a now e m c Hc Ha Ho Hr Heq|now x' e tok i m Hi Hst Hmail Hno Ha Ho Hr Heq|actor o' t r ar Har Hcan Hg Hok Heq|actor o' t ar _ _ Hok Heq|c Heq];
    rewrite (has_role_members _ _ _ _ _ Heq); intros Hnew Hold.
  - left. apply put_role in Hnew as [(-> & -> & _)|[_ ?]]; [|done|done]. rewrite Ha, Ho. eauto.
  - right. right. apply put_role in Hnew as [(-> & -> & Hro)|[_ ?]]; [|done|done]. rewrite Ha, Ho.
    exists now, e, tok, i. split_and!; try done; [congruence|]. apply (Hinv (i_ID i)); [by destruct Hi|congruence].
  - right. left. apply set_role in Hnew as [(-> & -> & <-)|[_ ?]]; [|done..]. exists actor. split; [|done].
    unfold canGrantRole in Hg. rewrite bool_decide_eq_true_2 in Hg by done. apply bool_decide_eq_true in Hg as ->. done.
  - apply delete_role in Hnew as [_ ?]; done.
  - done.
Qed.

End members.

(** ** What interleaving and resending can do *)

Abbreviation owns s o x := (has_role s x o RoleOwner) (only parsing).

Definition day : Z := 24 * hour.

(** Olga signs up and invites two colleagues at one domain, one as an owner. *)
Definition ex_joins : list call :=
  [CSignUp "eu" "acme" "olga" day "olga@corp.com";
   CCreateInvite day day "i-owner" (Some "0") "acme" "olga" "lead@corp.com" RoleOwner;
   CCreateInvite day day "i-member" (Some "1") "acme" "olga" "dev@corp.com" RoleMember].

Abbreviation ex_prog := (prog_of "" None InvitationTTL) (only parsing).

(** Max accepts both; while the acceptance as a member is between its check and its
    write, the one as an owner runs, and Olga leaves. *)
Definition ex_race : list (prog MemStore (result saas_error unit) + nat) :=
  [inl (ex_prog (CAcceptInvite (2 * day) "max" "max@corp.com" (Base64.EncodeToString "1"))); inr 0; inr 0;
   inl (ex_prog (CAcceptInvite (2 * day) "max" "max@corp.com" (Base64.EncodeToString "0"))); inr 0; inr 0; inr 0; inr 0;
   inl (ex_prog (CRemoveMember "olga" "acme" "olga")); inr 0; inr 0;
   inr 2; inr 2]%nat.

Definition ex_start := schedule (arrivals "" None InvitationTTL 6 ex_joins) (NewMemStore, []).
Definition ex_end := schedule ex_race ex_start.

Lemma ex_race_ok : Forall (λ act, match act with inl p => ∃ c, p = ex_prog c | inr _ => True end) ex_race.
Proof. unfold ex_race. repeat (apply Forall_cons_2; [done || (eexists; reflexivity)|]). constructor. Qed.

(** Interleaved calls can leave an organization without an owner.  In a state that
    requests lead to, Olga owns an organization; Max accepts two of its invitations, as
    an owner and as a member, and Olga leaves.  Accepting checks that there is no
    membership and writes it in two steps: when the other calls run in between, Max's
    ownership is overwritten after Olga's last-owner check has counted it. *)
Theorem accept_race_orphans_org :
  ∃ s ps s' ps',
    serving "" None InvitationTTL any_call (s, ps) ∧ owns s "acme" "olga" ∧
    reaches (λ p, ∃ c, any_call c ∧ p = ex_prog c) (s, ps) (s', ps') ∧
    is_Some (orgs s' !! "acme") ∧ (∃ r, has_role s' "max" "acme" r) ∧ ∀ x, ¬ owns s' "acme" x.
Proof.
  exists ex_start.1, ex_start.2, ex_end.1, ex_end.2. rewrite <- (surjective_pairing ex_start), <- (surjective_pairing ex_end). split_and!.
  - apply arrivals_serving.
  - assert (members ex_start.1 !! "olga" =
      Some [{| m_AccountID := "olga"; m_OrgID := "acme"; m_Role := RoleOwner; m_CreatedAt := day |}]) as Hm by (vm_compute; reflexivity).
    unfold has_role. rewrite Hm. clear Hm. eexists. split; [apply list_elem_of_here|done].
  - apply schedule_any, ex_race_ok.
  - assert (bool_decide (is_Some (orgs ex_end.1 !! "acme")) = true) as Ho by (vm_compute; reflexivity).
    by apply bool_decide_eq_true in Ho.
  - assert (members ex_end.1 !! "max" =
      Some [{| m_AccountID := "max"; m_OrgID := "acme"; m_Role := RoleMember; m_CreatedAt := 2 * day |}]) as Hm by (vm_compute; reflexivity).
    exists RoleMember. unfold has_role. rewrite Hm. clear Hm. eexists. split; [apply list_elem_of_here|done].
  - intros x (m & Hm & Ho & Hr). assert (org_owners "" "acme" ex_end.1 = []) as Hnone by (vm_compute; reflexivity).
    revert Hnone Hm. generalize ex_end.1. intros s Hnone Hm.
    destruct (members s !! x) as [l|] eqn:El; [|by apply elem_of_nil in Hm].
    assert (m ∈ org_owners "" "acme" s) as Hin by (apply org_owners_elem; eauto 10).
    rewrite Hnone in Hin. by apply elem_of_nil in Hin.
Qed.

Lemma history_runs cs :
  ∃ E, history "" None InvitationTTL (runs "" None InvitationTTL cs NewMemStore) E.
Proof.
  induction cs as [|c cs [E HE]] using rev_ind; [eexists; apply h_new|].
  unfold runs. rewrite foldl_app. eexists. by apply (h_call _ _ _ _ E c).
Qed.

Definition ex_joined : MemStore := runs "" None InvitationTTL ex_joins NewMemStore.
Definition ex_accept : call := CAcceptInvite (2 * day) "max" "max@corp.com" (Base64.EncodeToString "0").

Lemma ex_accept_owns : owns (run (ex_prog ex_accept) ex_joined).2 "acme" "max".
Proof.
  assert (members (run (ex_prog ex_accept) ex_joined).2 !! "max" =
    Some [{| m_AccountID := "max"; m_OrgID := "acme"; m_Role := RoleOwner; m_CreatedAt := 2 * day |}]) as Hm
    by (vm_compute; reflexivity).
  unfold has_role. rewrite Hm. clear Hm. eexists. split; [apply list_elem_of_here|done].
Qed.

Lemma ex_not_member : ¬ owns ex_joined "acme" "max".
Proof.
  assert (members ex_joined !! "max" = None) as Hm by (vm_compute; reflexivity).
  unfold has_role. rewrite Hm. clear Hm. intros (m & Hm & _). by apply elem_of_nil in Hm.
Qed.

Lemma owners_make_owners_witness :
  ∃ E, history "" None InvitationTTL ex_joined E ∧
  ((∃ r now e, ex_accept = CSignUp r "acme" "max" now e ∨ ex_accept = CFindOrCreate r "acme" "max" now e) ∨
   (∃ y, owns ex_joined "acme" y ∧ ex_accept = CSetMemberRole y "acme" "max" RoleOwner) ∨
   (∃ now e tok i, ex_accept = CAcceptInvite now "max" e tok ∧ invited ex_joined tok i ∧ i_OrgID i = "acme" ∧
     i_Role i = RoleOwner ∧ EffectiveState i now = InvitationPending ∧ InviteEmailMatches (i_Email i) e = true ∧
     E "acme" (i_InviterID i))).
Proof.
  destruct (history_runs ex_joins) as [E HE]. exists E. split; [exact HE|].
  exact (owners_make_owners "" None InvitationTTL ex_joined E ex_accept "acme" "max" HE ex_accept_owns ex_not_member).
Defined.

(** Two invitations of one address, the first of them resent after it had expired. *)
Definition ex_resend : list call :=
  [CSignUp "eu" "acme" "olga" day "olga@corp.com";
   CCreateInvite day day "i1" (Some "0") "acme" "olga" "dev@corp.com" RoleMember;
   CCreateInvite (9 * day) (9 * day) "i2" (Some "1") "acme" "olga" "dev@corp.com" RoleMember;
   CResendInvite (10 * day) (10 * day) "i3" (Some "2") "acme" "i1"].

(** Resending leaves two live invitations for one address.  An invitation that has
    expired does not stand in the way of a new one, and can be resent: the two calls leave
    two tokens with which the address can be accepted, which creating invitations refuses
    to do and the store's check of pending invitations is there to prevent. *)
Theorem resend_two_pending :
  let s := runs "" None InvitationTTL ex_resend NewMemStore in
  let live := filter (λ i, i_Email i = "dev@corp.com" ∧ EffectiveState i (11 * day) = InvitationPending)
                (map_to_list (invitations s)).*2 in
  (i_ID <$> live) ≡ₚ ["i2"; "i3"] ∧
  (run (CreateInvite None InvitationTTL (11 * day) (11 * day) "i4" (Some "3") "acme" "olga" "dev@corp.com" RoleMember) s).1 =
    Err ErrInvitePending.
Proof. vm_compute. split; [|reflexivity]. solve_Permutation. Qed.

End MembershipTheorems.
