(* ===== verification/SessionsTheorems.v ===== *)
(** * Sessions: the store refines a table of live sessions

    The session store keeps four maps in step.  What it promises is simpler: a table of
    the live sessions, each with its account, its time of issue and the hash of its token;
    issuing adds a row, revoking and expiring remove one, and a token resolves to the
    account of the row that has its hash.  The store answers every sequence of operations
    as the table does, when no token is issued twice. *)

From Stdlib Require Import Ascii.
From S2P Require Import Prelude Sha256 Json GoStrings Atomic Saas Accounts Sessions.
Import Saas Sessions.

Module SessionsTheorems.

Section refinement.
Context {sorting : SliceSort} {ranging : MapRange} (maxAge : Z).

(** ** Operations and answers *)

Inductive sop :=
| OIssue (now : Z) (accountID token label : string)
| OResolve (now : Z) (token : string)
| ORevoke (accountID sessionID : string)
| ORevokeAll (accountID : string)
| OList (accountID : string).

Inductive answer :=
| AIssued (id : string)
| AResolved (r : result saas_error string)
| ARevoked (r : result saas_error unit)
| ADone
| AListed (l : list Session).

Definition perform (o : sop) (s : SessionStore) : answer * SessionStore :=
  match o with
  | OIssue now a tok label => let '(id, s') := IssueSession now a tok label s in (AIssued id, s')
  | OResolve now tok => let '(r, s') := run (Resolve maxAge now tok) s in (AResolved r, s')
  | ORevoke a id => let '(r, s') := Revoke a id s in (ARevoked r, s')
  | ORevokeAll a => (ADone, RevokeAll a s)
  | OList a => (AListed (ListByAccount a s), s)
  end.

(** ** The specification: a table of live sessions *)

Record spec := { sp_issued : Z; sp_live : gmap string (Session * string) }.

Definition row_of (h : string) (t : gmap string (Session * string)) : option (string * Session) :=
  (λ '(_, (id, (se, _))), (id, se)) <$> list_find (λ kv, kv.2.2 = h) (map_to_list t).

Definition expired (now : Z) (se : Session) : bool := (0 <? maxAge) && (maxAge <? time_sub now (se_CreatedAt se)).

Definition spec_perform (o : sop) (sp : spec) : answer * spec :=
  let t := sp_live sp in
  let live t' := {| sp_issued := sp_issued sp; sp_live := t' |} in
  match o with
  | OIssue now a tok label =>
      let id := session_id (sp_issued sp + 1) in
      let se := {| se_ID := id; se_AccountID := a; se_CreatedAt := now; se_Label := label |} in
      (AIssued id, {| sp_issued := sp_issued sp + 1; sp_live := <[id := (se, hashSession tok)]> t |})
  | OResolve now tok =>
      match row_of (hashSession tok) t with
      | Some (id, se) => if expired now se then (AResolved (Err ErrSessionInvalid), live (delete id t))
                         else (AResolved (Ok (se_AccountID se)), sp)
      | None => (AResolved (Err ErrSessionInvalid), sp)
      end
  | ORevoke a id =>
      match t !! id with
      | Some (se, _) => if bool_decide (se_AccountID se = a) then (ARevoked (Ok tt), live (delete id t))
                        else (ARevoked (Err ErrNotFound), sp)
      | None => (ARevoked (Err ErrNotFound), sp)
      end
  | ORevokeAll a => (ADone, live (filter (λ kv, se_AccountID kv.2.1 ≠ a) t))
  | OList a => (AListed (sort_slice later (filter (λ r, se_AccountID r = a) (map_range "ListByAccount" (fst <$> t)).*2)), sp)
  end.

(** ** The simulation *)

(** A field of the row that has a hash, as the maps by hash keep it. *)
Definition by_hash {A} (f : Session → A) (m : gmap string A) (t : gmap string (Session * string)) : Prop :=
  ∀ h x, m !! h = Some x ↔ ∃ id se, t !! id = Some (se, h) ∧ f se = x.

Record sim (s : SessionStore) (sp : spec) : Prop := {
  sim_records : ss_records s = fst <$> sp_live sp;
  sim_hashes : ss_hashByID s = snd <$> sp_live sp;
  sim_accounts : by_hash se_AccountID (ss_byHash s) (sp_live sp);
  sim_created : by_hash se_CreatedAt (ss_createdH s) (sp_live sp);
  sim_next : ss_nextID s = sp_issued sp;
  sim_unique id id' se se' h : sp_live sp !! id = Some (se, h) → sp_live sp !! id' = Some (se', h) → id = id';
  sim_ids id row : sp_live sp !! id = Some row → ∃ n, 0 < n ≤ sp_issued sp ∧ id = session_id n;
}.

Lemma session_id_inj n m : is_int64 n → is_int64 m → session_id n = session_id m → n = m.
Proof.
  intros Hn Hm. unfold session_id. intros Heq%str_app_inj_l.
  apply (f_equal Json.parse_int64) in Heq. rewrite !Json.parse_int64_fmt_int in Heq by done. by injection Heq.
Qed.

Lemma row_of_spec h t :
  (∀ id id' se se', t !! id = Some (se, h) → t !! id' = Some (se', h) → id = id') →
  ∀ id se, row_of h t = Some (id, se) ↔ t !! id = Some (se, h).
Proof.
  intros Hu id se. unfold row_of. destruct (list_find _ _) as [[i [id' [se' h']]]|] eqn:E; simpl.
  - apply list_find_Some in E as (Hi & Hh & _). simpl in Hh. subst h'.
    apply list_elem_of_lookup_2, elem_of_map_to_list in Hi. split; [by intros [= -> ->]|].
    intros Hid. assert (id' = id) as -> by eauto. congruence.
  - split; [done|]. intros Hid. apply list_find_None in E. rewrite Forall_forall in E.
    exfalso. apply (E (id, (se, h))); [by apply elem_of_map_to_list|done].
Qed.

(** Removing a row removes its entries. *)
Lemma sim_delete s sp id se h :
  sim s sp → sp_live sp !! id = Some (se, h) →
  sim (drop_session id h s) {| sp_issued := sp_issued sp; sp_live := delete id (sp_live sp) |}.
Proof.
  intros Hsim Hid. assert (∀ {A} (f : Session → A) m, by_hash f m (sp_live sp) → by_hash f (delete h m) (delete id (sp_live sp))) as Hby.
  { unfold by_hash. intros A f m Hm h' x. rewrite lookup_delete_Some, Hm. split.
    - intros (Hne & id' & se' & Hid' & Hf). exists id', se'. split; [|done]. apply lookup_delete_Some. split; [|done].
      intros <-. congruence.
    - intros (id' & se' & [Hne Hid']%lookup_delete_Some & Hf). split; [|by eauto]. intros <-. apply Hne.
      by eapply (sim_unique s sp Hsim). }
  split; simpl.
  - by rewrite fmap_delete, (sim_records s sp Hsim).
  - by rewrite fmap_delete, (sim_hashes s sp Hsim).
  - apply Hby, Hsim.
  - apply Hby, Hsim.
  - apply Hsim.
  - intros id1 id2 se1 se2 h' [_ H1]%lookup_delete_Some [_ H2]%lookup_delete_Some. by eapply (sim_unique s sp Hsim).
  - intros id1 row [_ H1]%lookup_delete_Some. by eapply (sim_ids s sp Hsim).
Qed.

Lemma sim_hash_of s sp id se h : sim s sp → sp_live sp !! id = Some (se, h) → ss_hashByID s !! id = Some h.
Proof. intros Hsim Hid. by rewrite (sim_hashes s sp Hsim), lookup_fmap, Hid. Qed.

Lemma sim_expire s sp id se h :
  sim s sp → sp_live sp !! id = Some (se, h) →
  sim (expireByHash h s) {| sp_issued := sp_issued sp; sp_live := delete id (sp_live sp) |}.
Proof.
  intros Hsim Hid. unfold expireByHash. destruct (list_find _ _) as [[i [id' h']]|] eqn:E.
  - apply list_find_Some in E as (Hi & Hh & _). simpl in Hh. subst h'.
    apply list_elem_of_lookup_2, elem_of_map_range in Hi. rewrite (sim_hashes s sp Hsim), lookup_fmap_Some in Hi.
    destruct Hi as ([se' h''] & Hh & Hi). simpl in Hh. subst h''. assert (id' = id) as -> by by eapply (sim_unique s sp Hsim).
    by eapply sim_delete.
  - exfalso. apply list_find_None in E. rewrite Forall_forall in E. apply (E (id, h)); [|done].
    apply elem_of_map_range. by eapply sim_hash_of.
Qed.

Lemma sim_issue s sp now a tok label :
  sim s sp → 0 ≤ sp_issued sp < max_int64 → (∀ id se, sp_live sp !! id ≠ Some (se, hashSession tok)) →
  let '(id, s') := IssueSession now a tok label s in
  let '(ans, sp') := spec_perform (OIssue now a tok label) sp in
  ans = AIssued id ∧ sim s' sp'.
Proof.
  intros Hsim Hn Hfresh. unfold IssueSession, spec_perform. rewrite (sim_next s sp Hsim).
  rewrite Z.mod_small by (unfold max_int64 in *; lia). cbv zeta.
  set (id := session_id (sp_issued sp + 1)). set (h := hashSession tok) in *. clearbody h. split; [done|].
  set (se := {| se_ID := id; se_AccountID := a; se_CreatedAt := now; se_Label := label |}).
  assert (sp_live sp !! id = None) as Hid.
  { destruct (sp_live sp !! id) as [row|] eqn:E; [|done]. destruct (sim_ids s sp Hsim _ _ E) as (n & Hle & Heq).
    apply session_id_inj in Heq; unfold is_int64, min_int64, max_int64 in *; lia. }
  assert (∀ {A} (f : Session → A) m, by_hash f m (sp_live sp) → by_hash f (<[h := f se]> m) (<[id := (se, h)]> (sp_live sp))) as Hby.
  { unfold by_hash. intros A f m Hm h' x. rewrite lookup_insert_Some, Hm. split.
    - intros [[<- <-]|(Hne & id' & se' & Hid' & Hf)].
      + exists id, se. by rewrite lookup_insert_eq.
      + exists id', se'. split; [|done]. rewrite lookup_insert_ne; [done|]. intros <-. congruence.
    - intros (id' & se' & [[-> [= <- <-]]|[Hne Hid']]%lookup_insert_Some & Hf); [by left|]. right.
      split; [|by eauto]. intros <-. by eapply Hfresh. }
  split; simpl.
  - by rewrite fmap_insert, (sim_records s sp Hsim).
  - by rewrite fmap_insert, (sim_hashes s sp Hsim).
  - apply (Hby _ se_AccountID), Hsim.
  - apply (Hby _ se_CreatedAt), Hsim.
  - done.
  - intros id1 id2 se1 se2 h' H1 H2.
    apply lookup_insert_Some in H1 as [[<- [= <- <-]]|[_ H1]], H2 as [[<- E2]|[_ H2]]; simplify_eq; try done.
    + by apply Hfresh in H2.
    + by apply Hfresh in H1.
    + by eapply (sim_unique s sp Hsim).
  - intros id1 row [[<- _]|[_ H1]]%lookup_insert_Some; [exists (sp_issued sp + 1); split; [lia|done]|].
    destruct (sim_ids s sp Hsim _ _ H1) as (n & ? & ->). exists n. split; [lia|done].
Qed.

(** The rows that revoking everything removes, one by one. *)
Definition drop_row (a : string) (t : gmap string (Session * string)) (kv : string * Session) :
    gmap string (Session * string) := if bool_decide (se_AccountID kv.2 = a) then delete kv.1 t else t.

Lemma sim_revoke_steps a kvs s sp :
  sim s sp → NoDup kvs.*1 → Forall (λ kv, fst <$> sp_live sp !! kv.1 = Some kv.2) kvs →
  sim (foldl (revoke_step a) s kvs) {| sp_issued := sp_issued sp; sp_live := foldl (drop_row a) (sp_live sp) kvs |}.
Proof.
  revert s sp. induction kvs as [|[id se] kvs IH]; intros s sp Hsim Hnd Hall; simpl; [by destruct sp|].
  apply NoDup_cons in Hnd as [Hni Hnd]. apply Forall_cons in Hall as [Hid Hall]. cbn [fst snd] in Hid.
  unfold revoke_step at 2, drop_row at 2. simpl. case_bool_decide as Ha; simpl; [|by apply IH].
  destruct (sp_live sp !! id) as [[se' h]|] eqn:E; simpl in Hid; [|done]. injection Hid as ->.
  rewrite (sim_hash_of s sp id se h Hsim E). simpl.
  refine (IH (drop_session id h s) {| sp_issued := sp_issued sp; sp_live := delete id (sp_live sp) |}
    (sim_delete s sp id se h Hsim E) Hnd _).
  simpl. rewrite Forall_forall in *. intros [id' se'] Hin. simpl. rewrite lookup_delete_ne; [by apply (Hall (id', se'))|].
  intros <-. apply Hni. by apply (list_elem_of_fmap_2 fst _ (id, se')).
Qed.

Lemma drop_rows_lookup a kvs t id :
  foldl (drop_row a) t kvs !! id =
  if bool_decide (Exists (λ kv, kv.1 = id ∧ se_AccountID kv.2 = a) kvs) then None else t !! id.
Proof.
  revert t. induction kvs as [|[k se] kvs IH]; intros t; cbn [foldl].
  { rewrite bool_decide_eq_false_2; [done|]. by intros ?%Exists_nil. }
  rewrite IH. unfold drop_row. cbn [fst snd]. case_bool_decide as H1.
  { rewrite bool_decide_eq_true_2; [done|]. by apply Exists_cons_tl. }
  case_bool_decide as Ha.
  - destruct (decide (k = id)) as [->|Hne].
    + rewrite bool_decide_eq_true_2 by (by apply Exists_cons_hd). by rewrite lookup_delete_eq.
    + rewrite lookup_delete_ne by done. rewrite bool_decide_eq_false_2; [done|]. rewrite Exists_cons. naive_solver.
  - rewrite bool_decide_eq_false_2; [done|]. rewrite Exists_cons. naive_solver.
Qed.

Lemma sim_revoke_all s sp a :
  sim s sp →
  sim (RevokeAll a s) {| sp_issued := sp_issued sp; sp_live := filter (λ kv, se_AccountID kv.2.1 ≠ a) (sp_live sp) |}.
Proof.
  intros Hsim. unfold RevokeAll.
  assert (filter (λ kv, se_AccountID kv.2.1 ≠ a) (sp_live sp) =
    foldl (drop_row a) (sp_live sp) (map_range "RevokeAll" (ss_records s))) as ->.
  { apply map_eq. intros id. rewrite drop_rows_lookup. case_bool_decide as He.
    - apply Exists_exists in He as ([k se] & Hk%elem_of_map_range & <- & Ha). simpl in *.
      rewrite (sim_records s sp Hsim), lookup_fmap_Some in Hk. destruct Hk as ([se' h] & <- & Hk).
      apply map_lookup_filter_None. right. intros row Hrow. rewrite Hk in Hrow. simplify_eq/=. tauto.
    - destruct (sp_live sp !! id) as [[se h]|] eqn:E; [|by apply map_lookup_filter_None; left].
      apply map_lookup_filter_Some. split; [done|]. simpl. intros Ha. apply He, Exists_exists. exists (id, se).
      split; [|done]. apply elem_of_map_range. by rewrite (sim_records s sp Hsim), lookup_fmap, E. }
  apply sim_revoke_steps; [done|apply NoDup_map_range|].
  apply Forall_forall. intros [id se] Hin%elem_of_map_range. simpl.
  by rewrite <- lookup_fmap, <- (sim_records s sp Hsim).
Qed.

Lemma sim_resolve s sp now tok :
  sim s sp →
  let '(r, s') := run (Resolve maxAge now tok) s in
  let '(ans, sp') := spec_perform (OResolve now tok) sp in
  ans = AResolved r ∧ sim s' sp'.
Proof.
  intros Hsim. unfold Resolve. cbn [run pbind rd op]. set (h := hashSession tok). unfold spec_perform.
  fold h. clearbody h.
  pose proof (row_of_spec h (sp_live sp) (λ id id' se se', sim_unique s sp Hsim id id' se se' h)) as Hrow.
  destruct (row_of h (sp_live sp)) as [[id se]|].
  - assert (sp_live sp !! id = Some (se, h)) as Hid by by apply Hrow.
    assert (ss_byHash s !! h = Some (se_AccountID se)) as -> by (apply (sim_accounts s sp Hsim); eauto).
    assert (ss_createdH s !! h = Some (se_CreatedAt se)) as -> by (apply (sim_created s sp Hsim); eauto).
    unfold expired. cbn [from_option]. destruct (_ && _); cbn [run pbind op].
    + split; [done|]. by eapply sim_expire.
    + done.
  - assert (ss_byHash s !! h = None) as ->; [|done]. destruct (ss_byHash s !! h) as [x|] eqn:E; [|done].
    apply (sim_accounts s sp Hsim) in E as (id & se & Hid & _). apply Hrow in Hid. done.
Qed.

Lemma sim_revoke s sp a id :
  sim s sp →
  let '(r, s') := Revoke a id s in
  let '(ans, sp') := spec_perform (ORevoke a id) sp in
  ans = ARevoked r ∧ sim s' sp'.
Proof.
  intros Hsim. unfold Revoke, spec_perform. rewrite (sim_records s sp Hsim), lookup_fmap.
  destruct (sp_live sp !! id) as [[se h]|] eqn:E; simpl; [|done]. case_bool_decide; simpl; [|done].
  rewrite (sim_hash_of s sp id se h Hsim E). split; [done|]. by eapply sim_delete.
Qed.

(** ** Traces *)

Fixpoint trace {St} (step : sop → St → answer * St) (ops : list sop) (st : St) : list answer :=
  match ops with
  | [] => []
  | o :: ops' => let '(ans, st') := step o st in ans :: trace step ops' st'
  end.

(** The hashes of the tokens that are issued. *)
Definition issued_hashes (ops : list sop) : list string :=
  omap (λ o, match o with OIssue _ _ tok _ => Some (hashSession tok) | _ => None end) ops.

Lemma sim_step s sp o :
  sim s sp → 0 ≤ sp_issued sp < max_int64 →
  (∀ h, h ∈ issued_hashes [o] → ∀ id se, sp_live sp !! id ≠ Some (se, h)) →
  (perform o s).1 = (spec_perform o sp).1 ∧ sim (perform o s).2 (spec_perform o sp).2.
Proof.
  intros Hsim Hn Hf. destruct o as [now a tok label|now tok|a id|a|a]; cbn [perform].
  - pose proof (sim_issue s sp now a tok label Hsim Hn) as Hi. destruct (IssueSession _ _ _ _ s) as [id s'].
    destruct (spec_perform _ sp) as [ans sp']. destruct Hi as [-> ?]; [|done]. apply Hf. simpl. by left.
  - pose proof (sim_resolve s sp now tok Hsim) as Hi. destruct (run _ s) as [r s'].
    destruct (spec_perform _ sp) as [ans sp']. by destruct Hi as [-> ?].
  - pose proof (sim_revoke s sp a id Hsim) as Hi. destruct (Revoke a id s) as [r s'].
    destruct (spec_perform _ sp) as [ans sp']. by destruct Hi as [-> ?].
  - split; [done|]. by apply sim_revoke_all.
  - split; [|done]. simpl. unfold ListByAccount. by rewrite (sim_records s sp Hsim).
Qed.

(** What an operation does to the number of sessions and the live hashes. *)
Lemma spec_step_live o sp :
  sp_issued sp ≤ sp_issued (spec_perform o sp).2 ≤ sp_issued sp + 1 ∧
  (∀ id se h, sp_live (spec_perform o sp).2 !! id = Some (se, h) →
    (∃ id' se', sp_live sp !! id' = Some (se', h)) ∨ h ∈ issued_hashes [o]).
Proof.
  destruct o as [now a tok label|now tok|a id|a|a]; simpl.
  - split; [lia|]. intros id se h [[_ [= _ <-]]|[_ ?]]%lookup_insert_Some; [right; by left|eauto].
  - destruct (row_of _ _) as [[id se]|]; [destruct (expired now se)|]; simpl; (split; [lia|]); [|eauto..].
    intros id' se' h [_ ?]%lookup_delete_Some. eauto.
  - destruct (sp_live sp !! id) as [[se h]|]; [case_bool_decide|]; simpl; (split; [lia|]); [|eauto..].
    intros id' se' h' [_ ?]%lookup_delete_Some. eauto.
  - split; [lia|]. intros id se h [? _]%map_lookup_filter_Some. eauto.
  - split; [lia|eauto].
Qed.

Lemma sim_trace ops s sp :
  sim s sp → 0 ≤ sp_issued sp → sp_issued sp + Z.of_nat (length ops) ≤ max_int64 → NoDup (issued_hashes ops) →
  (∀ h, h ∈ issued_hashes ops → ∀ id se, sp_live sp !! id ≠ Some (se, h)) →
  trace perform ops s = trace spec_perform ops sp.
Proof.
  revert s sp. induction ops as [|o ops IH]; intros s sp Hsim H0 Hlen Hnd Hfresh; [done|]. cbn [trace].
  assert (issued_hashes (o :: ops) = issued_hashes [o] ++ issued_hashes ops) as Hsplit by (by destruct o).
  rewrite Hsplit in Hnd, Hfresh. apply NoDup_app in Hnd as (_ & Hdis & Hnd). cbn [length] in Hlen.
  destruct (sim_step s sp o Hsim) as [Ha Hs]; [lia|intros h Hh; apply Hfresh, elem_of_app; by left|].
  destruct (spec_step_live o sp) as [Hn Hl].
  destruct (perform o s) as [ans s'], (spec_perform o sp) as [ans' sp']. cbn [fst snd] in *. subst ans'. f_equal.
  apply IH; [done|lia|lia|done|]. intros h Hh id se Hid. destruct (Hl _ _ _ Hid) as [(id' & se' & Hold)|Hnew].
  - eapply (Hfresh h); [apply elem_of_app; by right|done].
  - by apply (Hdis h).
Qed.

(** C37: the session store refines the table of live sessions.  For every sequence of
    operations, in which no token is issued twice (the issued tokens have different
    hashes), the store's answers are those of the table: a token resolves, to the account
    it was issued to, from its issue until it is revoked, alone or with all of its
    account's, or is resolved past its maximal age, and never again after that; revoking
    needs the account that the session belongs to; and a listing has exactly the live
    sessions of the account. *)
Theorem sessions_refine_table ops :
  NoDup (issued_hashes ops) → Z.of_nat (length ops) ≤ max_int64 →
  trace perform ops NewSessionStore = trace spec_perform ops {| sp_issued := 0; sp_live := ∅ |}.
Proof.
  intros Hnd Hlen. apply sim_trace; [|done|simpl; lia|done|]; [|by intros h _ id se; simpl; rewrite lookup_empty].
  split; simpl; try done.
  - intros h x. rewrite lookup_empty. split; [done|]. intros (id & se & Hid & _). by rewrite lookup_empty in Hid.
  - intros h x. rewrite lookup_empty. split; [done|]. intros (id & se & Hid & _). by rewrite lookup_empty in Hid.
Qed.

End refinement.

(** ** A concrete trace *)

Definition ex_ops : list sop :=
  [OIssue hour "olga" "t1" "browser"; OIssue hour "olga" "t2" "cli"; OResolve (2 * hour) "t1";
   ORevoke "max" "sess-1"; ORevoke "olga" "sess-1"; OResolve (3 * hour) "t1"; OResolve (800 * hour) "t2";
   OResolve (2 * hour) "t2"].

Lemma ex_hashes : NoDup (issued_hashes ex_ops).
Proof. by_eval. Qed.

Lemma sessions_refine_table_witness :
  trace (perform DefaultSessionMaxAge) ex_ops NewSessionStore =
  trace (spec_perform DefaultSessionMaxAge) ex_ops {| sp_issued := 0; sp_live := ∅ |}.
Proof.
  assert (Z.of_nat (length ex_ops) ≤ max_int64) as Hlen by by_eval.
  exact (sessions_refine_table DefaultSessionMaxAge ex_ops ex_hashes Hlen).
Defined.

Example ex_trace :
  trace (perform DefaultSessionMaxAge) ex_ops NewSessionStore =
  [AIssued "sess-1"; AIssued "sess-2"; AResolved (Ok "olga"); ARevoked (Err ErrNotFound); ARevoked (Ok tt);
   AResolved (Err ErrSessionInvalid); AResolved (Err ErrSessionInvalid); AResolved (Err ErrSessionInvalid)].
Proof. vm_compute. reflexivity. Qed.

End SessionsTheorems.
