(* ===== verification/GoUrl.v ===== *)
(** * Packages net/url and path

    What the components use of queries, of the path of a URL and of [path.Clean] on rooted
    paths.  [url.Values] is a map from keys to their values in order.  The module
    GoUrlTheorems holds the lemmas. *)

From Stdlib Require Import Ascii.
From S2P Require Import Prelude Sha256 Json Base64 GoStrings.
Import Sha256 Json GoStrings.

Module GoUrl.

(** ** Escapes of a query *)

(** The characters that stand for themselves. *)
Definition unreserved (c : ascii) : bool :=
  let n := byte_of c in
  is_digit c || ((65 <=? n) && (n <=? 90)) || ((97 <=? n) && (n <=? 122)) ||
  (n =? 45) || (n =? 95) || (n =? 46) || (n =? 126).

Definition upper_hex (z : Z) : ascii := if z <? 10 then of_byte (48 + z) else of_byte (55 + z).

Definition percent (c : ascii) : string :=
  let n := byte_of c in String "%" (String (upper_hex (n / 16)) (String (upper_hex (n mod 16)) "")).

Definition escape_char (c : ascii) : string :=
  let n := byte_of c in
  if unreserved c then String c ""
  else if n =? 32 then "+"
  else percent c.

Fixpoint QueryEscape (s : string) : string :=
  match s with "" => "" | String c s' => escape_char c +:+ QueryEscape s' end.

Fixpoint QueryUnescape (s : string) : option string :=
  match s with
  | "" => Some ""
  | String "%" (String a (String b s')) =>
      x ← hex_val a; y ← hex_val b; r ← QueryUnescape s'; Some (String (of_byte (16 * x + y)) r)
  | String "%" _ => None
  | String "+" s' => r ← QueryUnescape s'; Some (String " " r)
  | String c s' => r ← QueryUnescape s'; Some (String c r)
  end.

(** ** Values *)

Abbreviation Values := (gmap string (list string)).

Definition Get (v : Values) (key : string) : string := match v !! key with Some (x :: _) => x | _ => "" end.
Definition Has (v : Values) (key : string) : bool := bool_decide (is_Some (v !! key)).
Definition Del (v : Values) (key : string) : Values := delete key v.

Definition add_value (v : Values) (key value : string) : Values := <[key := default [] (v !! key) ++ [value]]> v.

(** A piece of a query between ampersands; pieces that cannot be read are left out. *)
Definition parse_piece (v : Values) (piece : string) : Values :=
  if contains_char piece ";" || bool_decide (piece = "") then v
  else
    let '(key, value) := match Cut piece "=" with Some kv => kv | None => (piece, "") end in
    match QueryUnescape key, QueryUnescape value with
    | Some key, Some value => add_value v key value
    | _, _ => v
    end.

(** [URL.Query]: the errors of [ParseQuery] are ignored. *)
Definition ParseQuery (query : string) : Values := foldl parse_piece ∅ (Split query "&").

Fixpoint join (sep : string) (l : list string) : string :=
  match l with
  | [] => ""
  | [s] => s
  | s :: l' => s +:+ sep +:+ join sep l'
  end.

Definition encode_pair (key value : string) : string := QueryEscape key +:+ "=" +:+ QueryEscape value.

(** The keys in order. *)
Definition sorted_keys {A} (m : gmap string A) : list string := merge_sort (λ s t, str_ltb t s = false) (map_to_list m).*1.

Definition Encode (v : Values) : string :=
  join "&" (sorted_keys v ≫= λ k, encode_pair k <$> default [] (v !! k)).

(** ** Paths *)

(** [path.Clean] of a rooted path: empty and dot elements go, and two dots take the
    element before them. *)
Definition clean_step (out : list string) (e : string) : list string :=
  if bool_decide (e = "") || bool_decide (e = ".") then out
  else if bool_decide (e = "..") then take (length out - 1) out
  else out ++ [e].

Definition clean_rooted (p : string) : string := "/" +:+ join "/" (foldl clean_step [] (Split p "/")).

(** ** The path of a URL *)

(** The characters a path keeps besides the unreserved ones. *)
Definition path_char (c : ascii) : bool := unreserved c || contains_char "$&+,/:;=@" c.

Fixpoint escape_path (s : string) : string :=
  match s with
  | "" => ""
  | String c s' => (if path_char c then String c "" else percent c) +:+ escape_path s'
  end.

(** [url.PathUnescape], which is also how a path is read. *)
Fixpoint PathUnescape (s : string) : option string :=
  match s with
  | "" => Some ""
  | String "%" (String a (String b s')) =>
      x ← hex_val a; y ← hex_val b; r ← PathUnescape s'; Some (String (of_byte (16 * x + y)) r)
  | String "%" _ => None
  | String c s' => r ← PathUnescape s'; Some (String c r)
  end.

Record URL := { u_Path : string; u_RawPath : string; u_RawQuery : string; u_ForceQuery : bool }.

Definition valid_encoded (s : string) : bool :=
  forallb (λ c, contains_char "!$&'()*+,;=:@[]%" c || path_char c) (String.list_ascii_of_string s).

Definition EscapedPath (u : URL) : string :=
  if negb (bool_decide (u_RawPath u = "")) && valid_encoded (u_RawPath u) &&
     bool_decide (PathUnescape (u_RawPath u) = Some (u_Path u))
  then u_RawPath u
  else if bool_decide (u_Path u = "*") then "*" else escape_path (u_Path u).

Definition RequestURI (u : URL) : string :=
  let p := EscapedPath u in
  (if bool_decide (p = "") then "/" else p) +:+
  (if u_ForceQuery u || negb (bool_decide (u_RawQuery u = "")) then "?" +:+ u_RawQuery u else "").

Definition Query (u : URL) : Values := ParseQuery (u_RawQuery u).

Example encode_query :
  Encode {["token" := ["a.b"]; "path" := ["/x y?z=1"; "é"]]} = "path=%2Fx+y%3Fz%3D1&path=%C3%A9&token=a.b".
Proof. vm_compute. reflexivity. Qed.

Example clean_dots : clean_rooted "/a/../../b//./c/" = "/b/c".
Proof. vm_compute. reflexivity. Qed.

End GoUrl.

(** ** Lemmas

    A query that is encoded is read back; an escaped path is read back piece by piece; a
    cleaned path has no empty and no dot elements. *)

Import Base64 GoStringsTheorems GoUrl.

Module GoUrlTheorems.

(** ** Characters *)

(** All characters. *)
Definition all_ascii : list ascii := (λ n, of_byte (Z.of_nat n)) <$> seq 0 256.

Lemma all_ascii_spec (P : ascii → bool) : forallb P all_ascii = true → ∀ c, P c = true.
Proof.
  rewrite forallb_forall. intros H c. apply H, list_elem_of_In, list_elem_of_fmap. exists (Z.to_nat (byte_of c)).
  pose proof (byte_of_range c). rewrite Z2Nat.id by lia. rewrite of_byte_of. split; [done|]. apply elem_of_seq. lia.
Qed.

(** Decide a property of characters by looking at all of them. *)
Ltac every_char := apply (all_ascii_spec (λ c, bool_decide _)); vm_compute; reflexivity.

Lemma percent_inv c : ∃ a b x y, percent c = String "%" (String a (String b "")) ∧
  hex_val a = Some x ∧ hex_val b = Some y ∧ of_byte (16 * x + y) = c.
Proof.
  unfold percent. eexists _, _, (byte_of c / 16), (byte_of c mod 16). split; [done|].
  pose proof (byte_of_range c).
  assert (∀ z, 0 ≤ z < 16 → hex_val (upper_hex z) = Some z) as Hh.
  { intros z Hz. assert (Forall (λ z, hex_val (upper_hex z) = Some z) (seqZ 0 16)) as Hall by (by repeat constructor).
    rewrite Forall_forall in Hall. apply Hall, elem_of_seqZ. lia. }
  split_and!; [apply Hh; split; [apply Z.div_pos; lia|apply Z.div_lt_upper_bound; lia]
              |apply Hh, Z.mod_pos_bound; lia|].
  rewrite <- Z.div_mod by lia. apply of_byte_of.
Qed.

(** ** Queries *)

Lemma QueryUnescape_percent c s : QueryUnescape (percent c +:+ s) = r ← QueryUnescape s; Some (String c r).
Proof.
  destruct (percent_inv c) as (a & b & x & y & -> & Ha & Hb & Hc). rewrite !str_app_cons, str_app_nil_l. simpl.
  rewrite Ha, Hb. simpl. by rewrite Hc.
Qed.

Lemma QueryUnescape_plain c s : c ≠ "%"%char → c ≠ "+"%char →
  QueryUnescape (String c s) = r ← QueryUnescape s; Some (String c r).
Proof. intros H1 H2. destruct c as [[] [] [] [] [] [] [] []]; try done. Qed.

Lemma query_escape_char c s : QueryUnescape (escape_char c +:+ s) = r ← QueryUnescape s; Some (String c r).
Proof.
  unfold escape_char. destruct (unreserved c) eqn:Hu.
  - rewrite str_app_cons, str_app_nil_l. apply QueryUnescape_plain; intros ->; done.
  - destruct (Z.eqb_spec (byte_of c) 32) as [H|H]; [|apply QueryUnescape_percent].
    rewrite str_app_cons, str_app_nil_l. rewrite <- (of_byte_of c), H. done.
Qed.

Lemma query_roundtrip s : QueryUnescape (QueryEscape s) = Some s.
Proof. induction s as [|c s IH]; [done|]. cbn [QueryEscape]. by rewrite query_escape_char, IH. Qed.

Definition query_char (c : ascii) : bool := unreserved c || bool_decide (c ∈ ["+"%char; "%"%char]).

Lemma escape_char_chars c : Forall (λ d, query_char d = true) (chars (escape_char c)).
Proof.
  revert c. assert (∀ c, forallb query_char (chars (escape_char c)) = true) as H.
  { apply (all_ascii_spec (λ c, forallb query_char (chars (escape_char c)))). vm_compute. reflexivity. }
  intros c. apply Forall_forall. intros d Hd. by eapply forallb_forall; [apply H|apply list_elem_of_In].
Qed.

Lemma QueryEscape_chars s : Forall (λ d, query_char d = true) (chars (QueryEscape s)).
Proof.
  induction s as [|c s IH]; [constructor|]. cbn [QueryEscape]. rewrite chars_app, Forall_app.
  split; [apply escape_char_chars|done].
Qed.

Lemma QueryEscape_free s c : query_char c = false → c ∉ chars (QueryEscape s).
Proof. intros Hc Hin. pose proof (QueryEscape_chars s) as H. rewrite Forall_forall in H. specialize (H c Hin). congruence. Qed.

Lemma encode_pair_free k v c : query_char c = false → c ≠ "="%char → c ∉ chars (encode_pair k v).
Proof.
  intros Hc He. unfold encode_pair. rewrite !chars_app. simpl. rewrite !not_elem_of_app, not_elem_of_cons.
  split_and!; auto using QueryEscape_free, not_elem_of_nil.
Qed.

Lemma parse_encode_pair m k v : parse_piece m (encode_pair k v) = add_value m k v.
Proof.
  unfold parse_piece. rewrite (proj2 (contains_char_false _ _)) by (by apply encode_pair_free).
  rewrite bool_decide_eq_false_2 by (unfold encode_pair; by destruct (QueryEscape k)). simpl.
  assert (Cut (encode_pair k v) "=" = Some (QueryEscape k, QueryEscape v)) as ->.
  { apply Cut_spec. split; [by apply QueryEscape_free|]. unfold encode_pair. by str_simpl. }
  by rewrite !query_roundtrip.
Qed.

Lemma Split_join c l : l ≠ [] → Forall (λ s, c ∉ chars s) l → Split (join (String c "") l) c = l.
Proof.
  intros Hl Hall. destruct l as [|s l]; [done|]. clear Hl. apply Forall_cons in Hall as [Hs Hall].
  revert s Hs. induction Hall as [|t l Ht _ IH]; intros s Hs; [by apply Split_one|].
  change (join _ (s :: t :: l)) with (s +:+ String c "" +:+ join (String c "") (t :: l)).
  rewrite str_app_cons, str_app_nil_l, Split_app, (Split_one s) by done. cbn [app]. f_equal. by apply IH.
Qed.

Lemma fold_values m k vs :
  foldl parse_piece m (encode_pair k <$> vs) =
  match vs with [] => m | _ => <[k := default [] (m !! k) ++ vs]> m end.
Proof.
  revert m. induction vs as [|v vs IH]; intros m; [done|]. rewrite fmap_cons. cbn [foldl].
  rewrite parse_encode_pair, IH. unfold add_value. destruct vs as [|w vs]; [done|].
  rewrite lookup_insert_eq, insert_insert_eq. simpl. by rewrite <- app_assoc.
Qed.

(** Values that a query can carry: no key without values. *)
Definition encodable (v : Values) : Prop := map_Forall (λ _ vs, vs ≠ []) v.

Lemma fold_keys (v : Values) ks m : encodable v → NoDup ks → (∀ k, k ∈ ks → m !! k = None ∧ is_Some (v !! k)) →
  ∀ k, foldl parse_piece m (ks ≫= λ k, encode_pair k <$> default [] (v !! k)) !! k =
       (if decide (k ∈ ks) then v !! k else m !! k).
Proof.
  intros He Hnd. revert m. induction Hnd as [|k0 ks Hk0 Hnd IH]; intros m Hm k; [done|]. rewrite bind_cons, foldl_app.
  destruct (Hm k0) as [Hm0 [vs Hvs]]; [set_solver|]. rewrite fold_values, Hvs. simpl.
  assert (vs ≠ []) as Hne by (exact (He _ _ Hvs)).
  destruct vs as [|v0 vs]; [done|]. rewrite Hm0. simpl. rewrite IH.
  - destruct (decide (k ∈ ks)) as [Hin|Hnin]; [by rewrite decide_True by set_solver|].
    destruct (decide (k = k0)) as [->|Hk]; [rewrite lookup_insert_eq, decide_True by set_solver; by rewrite Hvs|].
    rewrite lookup_insert_ne by done. by rewrite decide_False by set_solver.
  - intros k' Hk'. destruct (Hm k') as [Hm' Hv']; [set_solver|]. split; [|done].
    rewrite lookup_insert_ne by set_solver. done.
Qed.

Lemma sorted_keys_perm {A} (m : gmap string A) : sorted_keys m ≡ₚ (map_to_list m).*1.
Proof. apply merge_sort_Permutation. Qed.

Lemma elem_of_sorted_keys {A} (m : gmap string A) k : k ∈ sorted_keys m ↔ is_Some (m !! k).
Proof.
  rewrite sorted_keys_perm, list_elem_of_fmap. split.
  - intros ([k' x] & -> & Hin). exists x. by apply elem_of_map_to_list.
  - intros [x Hx]. exists (k, x). split; [done|]. by apply elem_of_map_to_list.
Qed.

(** Encoded values are read back. *)
Lemma ParseQuery_Encode (v : Values) : encodable v → ParseQuery (Encode v) = v.
Proof.
  intros He. unfold ParseQuery, Encode. set (pieces := sorted_keys v ≫= _).
  destruct (decide (pieces = [])) as [Hp|Hp].
  - rewrite Hp. simpl. destruct (map_choose_or_empty v) as [(k & vs & Hk)|Hv]; [|by rewrite Hv]. exfalso.
    assert (∃ e, e ∈ pieces) as (e & He'); [|rewrite Hp in He'; by apply elem_of_nil in He'].
    pose proof (He _ _ Hk) as Hne. destruct vs as [|x vs]; [done|]. exists (encode_pair k x).
    apply list_elem_of_bind. exists k. rewrite Hk. simpl. split; [apply list_elem_of_here|]. by apply elem_of_sorted_keys.
  - rewrite Split_join; [|done|].
    + apply map_eq. intros k. unfold pieces. rewrite fold_keys; [|done| |].
      * destruct (decide (k ∈ sorted_keys v)) as [|Hn]; [done|]. rewrite elem_of_sorted_keys in Hn. rewrite lookup_empty.
        destruct (v !! k) eqn:E; [|done]. destruct Hn. by eexists.
      * rewrite sorted_keys_perm. apply NoDup_fst_map_to_list.
      * intros k' Hk'. split; [done|]. by apply elem_of_sorted_keys.
    + apply Forall_forall. intros e (k & Hk & _)%list_elem_of_bind. apply list_elem_of_fmap in Hk as (x & -> & _).
      by apply encode_pair_free.
Qed.

(** What is read of a query can be encoded again. *)
Lemma ParseQuery_encodable q : encodable (ParseQuery q).
Proof.
  unfold ParseQuery. generalize (Split q "&"). intros ps. assert (encodable ∅) as H0 by apply map_Forall_empty.
  revert H0. generalize (∅ : Values). induction ps as [|e ps IH]; intros m Hm; [done|]. cbn [foldl]. apply IH.
  unfold parse_piece, add_value. repeat case_match; first [done|apply map_Forall_insert_2; [by destruct (default _ _)|done]].
Qed.

(** ** Paths *)

Lemma PathUnescape_percent c s : PathUnescape (percent c +:+ s) = r ← PathUnescape s; Some (String c r).
Proof.
  destruct (percent_inv c) as (a & b & x & y & -> & Ha & Hb & Hc). rewrite !str_app_cons, str_app_nil_l. simpl.
  rewrite Ha, Hb. simpl. by rewrite Hc.
Qed.

Lemma PathUnescape_plain c s : c ≠ "%"%char → PathUnescape (String c s) = r ← PathUnescape s; Some (String c r).
Proof. intros H. destruct c as [[] [] [] [] [] [] [] []]; try done. Qed.

(** An escaped path is read back. *)
Lemma path_roundtrip s : PathUnescape (escape_path s) = Some s.
Proof.
  induction s as [|c s IH]; [done|]. cbn [escape_path]. destruct (path_char c) eqn:Hc.
  - rewrite str_app_cons, str_app_nil_l, PathUnescape_plain, IH by (by intros ->). done.
  - by rewrite PathUnescape_percent, IH.
Qed.

(** Slashes stay, and no other character gives one. *)
Lemma Split_escape_path s : Split (escape_path s) "/" = escape_path <$> Split s "/".
Proof.
  assert (∀ c, path_char c = false → "/"%char ∉ chars (percent c)) as Hp.
  { intros c _. apply contains_char_false, negb_true_iff. revert c.
    apply (all_ascii_spec (λ c, negb (contains_char (percent c) "/"))). vm_compute. reflexivity. }
  assert (∀ e t, "/"%char ∉ chars e → Split (e +:+ t) "/" =
            match Split t "/" with [] => [] | p :: ps => (e +:+ p) :: ps end) as He.
  { induction e as [|d e IHe]; intros t Hd; [rewrite str_app_nil_l; by destruct (Split t "/")|].
    simpl in Hd. apply not_elem_of_cons in Hd as [Hd He]. rewrite str_app_cons. simpl. rewrite IHe by done.
    destruct (Split t "/"); [done|]. by rewrite bool_decide_eq_false_2. }
  induction s as [|c s IH]; [done|]. cbn [escape_path Split]. pose proof (Split_ne s "/") as Hne.
  destruct (decide (c = "/"%char)) as [->|Hc].
  - change (if path_char "/" then String "/" "" else percent "/") with "/". rewrite str_app_cons, str_app_nil_l. cbn [Split].
    rewrite IH. destruct (Split s "/") as [|p ps]; [done|]. by rewrite !fmap_cons, !bool_decide_eq_true_2.
  - rewrite He; [|destruct (path_char c) eqn:E; [simpl; rewrite not_elem_of_cons; split; [done|apply not_elem_of_nil]|by apply Hp]].
    rewrite IH. destruct (Split s "/") as [|p ps]; [done|]. rewrite !fmap_cons. by rewrite bool_decide_eq_false_2.
Qed.

(** The elements that are left when a path is cleaned. *)
Definition clean_elems (p : string) : list string := foldl clean_step [] (Split p "/").

Definition clean_elem (e : string) : Prop := e ≠ "" ∧ e ≠ "." ∧ e ≠ ".." ∧ "/"%char ∉ chars e.

Lemma Split_free s c : Forall (λ e, c ∉ chars e) (Split s c).
Proof.
  induction s as [|d s IH]; simpl; [repeat constructor; apply not_elem_of_nil|].
  destruct (Split s c) as [|p ps]; [done|]. case_bool_decide as Hd; [constructor; [apply not_elem_of_nil|done]|].
  apply Forall_cons in IH as [Hp Hps]. constructor; [|done]. simpl. by apply not_elem_of_cons.
Qed.

Lemma clean_elems_ok p : Forall clean_elem (clean_elems p).
Proof.
  unfold clean_elems. generalize (Split_free p "/"). generalize (Split p "/"). intros es Hes.
  assert (∀ out, Forall clean_elem out → Forall clean_elem (foldl clean_step out es)) as H; [|by apply H].
  induction Hes as [|e es He _ IH]; intros out Hout; [done|]. cbn [foldl]. apply IH. unfold clean_step.
  destruct (bool_decide (e = "")) eqn:E1; [done|]. destruct (bool_decide (e = ".")) eqn:E2; [done|]. simpl.
  destruct (bool_decide (e = "..")) eqn:E3; [by apply Forall_take|].
  rewrite bool_decide_eq_false in E1, E2, E3. apply Forall_app. split; [done|]. by repeat constructor.
Qed.

Lemma clean_rooted_elems p :
  Split (clean_rooted p) "/" = "" :: match clean_elems p with [] => [""] | es => es end.
Proof.
  unfold clean_rooted. fold (clean_elems p). rewrite str_app_cons, str_app_nil_l. cbn [Split].
  pose proof (clean_elems_ok p) as Hok. destruct (clean_elems p) as [|e es] eqn:E; [done|].
  rewrite Split_join; [by rewrite bool_decide_eq_true_2|done|]. eapply Forall_impl; [exact Hok|]. by intros x (_ & _ & _ & ?).
Qed.

(** Cleaning twice is cleaning once, also below a slash. *)
Lemma clean_step_ok out e : clean_elem e → clean_step out e = out ++ [e].
Proof. intros (H1 & H2 & H3 & _). unfold clean_step. by rewrite !bool_decide_eq_false_2. Qed.

Lemma clean_steps_ok out es : Forall clean_elem es → foldl clean_step out es = out ++ es.
Proof.
  intros H. revert out. induction H as [|e es He _ IH]; intros out; simpl; [by rewrite app_nil_r|].
  rewrite clean_step_ok by done. by rewrite IH, <- app_assoc.
Qed.

Lemma clean_elems_clean p : clean_elems (clean_rooted p) = clean_elems p.
Proof.
  unfold clean_elems at 1. rewrite clean_rooted_elems. pose proof (clean_elems_ok p) as H.
  destruct (clean_elems p) as [|e es]; [done|]. change (foldl clean_step [] ("" :: e :: es)) with (foldl clean_step [] (e :: es)).
  by apply (clean_steps_ok []).
Qed.

Lemma clean_elems_slash p : clean_elems ("/" +:+ p) = clean_elems p.
Proof.
  unfold clean_elems. rewrite str_app_cons, str_app_nil_l. cbn [Split]. pose proof (Split_ne p "/").
  destruct (Split p "/"); [done|]. by rewrite bool_decide_eq_true_2.
Qed.

End GoUrlTheorems.
