(* ===== verification/GoHttp.v ===== *)
(** * Package net/http

    What the preview proxy, the gateway and the daemon use of it: header names, cookies, [http.Redirect], the requests
    that a reverse proxy sends and the redirections that a client follows.  The other end
    of a client's connection is an argument. *)

From Stdlib Require Import Ascii.
From S2P Require Import Prelude Sha256 Json GoStrings GoNet GoUrl.
Import Sha256 Json GoStrings GoNet GoUrl.

Module GoHttp.

(** ** Headers *)

Abbreviation Header := (gmap string (list string)).

(** The characters of a header name. *)
Definition token_char (c : ascii) : bool :=
  let n := byte_of c in
  is_digit c || ((65 <=? n) && (n <=? 90)) || ((97 <=? n) && (n <=? 122)) ||
  contains_char "!#$%&'*+-.^_`|~" c.

Fixpoint canon (upper : bool) (s : string) : string :=
  match s with
  | "" => ""
  | String c s' => String (if upper then to_upper c else lower c) (canon (bool_decide (c = "-"%char)) s')
  end.

Definition CanonicalHeaderKey (s : string) : string :=
  if forallb token_char (String.list_ascii_of_string s) then canon true s else s.

Definition header_Get (h : Header) (key : string) : string := match h !! CanonicalHeaderKey key with Some (x :: _) => x | _ => "" end.
Definition header_Set (h : Header) (key value : string) : Header := <[CanonicalHeaderKey key := [value]]> h.
Definition header_Del (h : Header) (key : string) : Header := delete (CanonicalHeaderKey key) h.

(** ** Requests *)

Record Request := {
  r_Method : string;
  r_Host : string;
  r_URL : URL;
  r_Header : Header;
  r_RemoteAddr : string;
  r_TLS : bool;
}.

(** ** Cookies *)

(** [textproto.TrimString]. *)
Definition is_ascii_space (c : ascii) : bool :=
  let n := byte_of c in (n =? 32) || (n =? 9) || (n =? 10) || (n =? 13).

Fixpoint trim_space_left (s : string) : string :=
  match s with String c s' => if is_ascii_space c then trim_space_left s' else s | "" => "" end.

Definition TrimString (s : string) : string := rev_string (trim_space_left (rev_string (trim_space_left s))).

Definition cookie_char (c : ascii) : bool :=
  let n := byte_of c in (32 <=? n) && (n <? 127) && negb (n =? 34) && negb (n =? 59) && negb (n =? 92).

(** Between double quotes, the quotes go. *)
Definition unquote_cookie (v : string) : string :=
  match v with
  | String a v' =>
      match CutSuffix v' (String dquote "") with
      | Some inner => if bool_decide (a = dquote) then inner else v
      | None => v
      end
  | "" => v
  end.

Definition parse_cookie_value (v : string) : option string :=
  let v := unquote_cookie v in
  if forallb cookie_char (String.list_ascii_of_string v) then Some v else None.

(** The values of the cookies with a name, which is a valid one. *)
Definition cookies_of (name : string) (line : string) : list string :=
  omap (λ part,
          let part := TrimString part in
          let '(n, v) := match Cut part "=" with Some nv => nv | None => (part, "") end in
          if bool_decide (part = "") || negb (bool_decide (TrimString n = name)) then None else parse_cookie_value v)
       (Split line ";").

(** [Request.Cookie]: the first. *)
Definition request_Cookie (r : Request) (name : string) : option string :=
  head (default [] (r_Header r !! "Cookie") ≫= cookies_of name).

(** ** [http.Redirect] *)

Definition is_ctl (c : ascii) : bool := (byte_of c <? 32) || (byte_of c =? 127).

(** The characters of user information in a URL. *)
Definition userinfo_char (c : ascii) : bool := unreserved c || contains_char "-._:~!$&'()*+,;=%@" c.

(** Whether [url.Parse] reads a URL that begins with a slash, and finds no host in it. *)
Definition no_host (authority : string) : bool :=
  match CutLast authority "@" with
  | None => bool_decide (authority = "")
  | Some (user, host) =>
      bool_decide (host = "") && forallb userinfo_char (String.list_ascii_of_string user) &&
      match Cut user ":" with
      | None => bool_decide (is_Some (PathUnescape user))
      | Some (u, p) => bool_decide (is_Some (PathUnescape u)) && bool_decide (is_Some (PathUnescape p))
      end
  end.

Definition parses_local (s : string) : bool :=
  let '(u, frag) := match Cut s "#" with Some uf => uf | None => (s, "") end in
  let rest := match Cut u "?" with Some (p, _) => p | None => u end in
  let '(host_ok, path) :=
    match rest with
    | String "/" (String "/" rest') =>
        if HasPrefix rest' "/" then (true, rest)
        else match Cut rest' "/" with
             | Some (authority, p) => (no_host authority, "/" +:+ p)
             | None => (no_host rest', "")
             end
    | _ => (true, rest)
    end in
  negb (existsb is_ctl (String.list_ascii_of_string u)) && host_ok &&
  bool_decide (is_Some (PathUnescape path)) && bool_decide (is_Some (PathUnescape frag)).

Definition escape_non_ascii_char (c : ascii) : string :=
  let n := byte_of c in
  if n <? 128 then String c ""
  else String "%" (String (hex_digit (n / 16)) (String (hex_digit (n mod 16)) "")).

Fixpoint hexEscapeNonASCII (s : string) : string :=
  match s with "" => "" | String c s' => escape_non_ascii_char c +:+ hexEscapeNonASCII s' end.

(** The location [http.Redirect] sends for a URL that begins with a slash or has a scheme,
    the ones the handlers pass.  A local path is cleaned; its last slash stays. *)
Definition redirect_location (url : string) : string :=
  hexEscapeNonASCII
    (if HasPrefix url "/" && parses_local url then
       let '(p, query) := match Cut url "?" with Some (p, q) => (p, "?" +:+ q) | None => (url, "") end in
       let q := clean_rooted p in
       (if HasSuffix p "/" && negb (HasSuffix q "/") then q +:+ "/" else q) +:+ query
     else url).

(** ** Reverse proxies *)

Definition hopHeaders : list string :=
  ["Connection"; "Proxy-Connection"; "Keep-Alive"; "Proxy-Authenticate"; "Proxy-Authorization"; "Te"; "Trailer";
   "Transfer-Encoding"; "Upgrade"].

(** The names that the Connection header lists. *)
Definition connection_names (h : Header) : list string :=
  filter (λ n, n ≠ "") (TrimString <$> (default [] (h !! "Connection") ≫= λ f, Split f ",")).

Definition removeHopByHopHeaders (h : Header) : Header :=
  foldl header_Del (foldl header_Del h (connection_names h)) hopHeaders.

Definition has_token (values : list string) (token : string) : bool :=
  existsb (λ v, existsb (λ p, bool_decide (ascii_lower (TrimString p) = ascii_lower token)) (Split v ",")) values.

Definition upgradeType (h : Header) : string :=
  if has_token (default [] (h !! "Connection")) "Upgrade" then header_Get h "Upgrade" else "".

Definition is_print (s : string) : bool :=
  forallb (λ c, (32 <=? byte_of c) && (byte_of c <=? 126)) (String.list_ascii_of_string s).

(** The request that is sent: where to, and what. *)
Record Outgoing := {
  o_Endpoint : string;
  o_Host : string;
  o_Path : string;
  o_RawQuery : string;
  o_Header : Header;
}.

(** The headers that are for one connection go, also those the director set; the proxy
    then writes its own. *)
Definition trailers_header (r : Request) (h : Header) : Header :=
  if has_token (default [] (r_Header r !! "Te")) "trailers" then header_Set h "Te" "trailers" else h.

Definition upgrade_header (up : string) (h : Header) : Header :=
  if bool_decide (up = "") then h else header_Set (header_Set h "Connection" "Upgrade") "Upgrade" up.

Definition forwarded_for (r : Request) (h : Header) : Header :=
  match SplitHostPort (r_RemoteAddr r) with
  | None => h
  | Some (clientIP, _) =>
      header_Set h "X-Forwarded-For" (join ", " (default [] (h !! "X-Forwarded-For") ++ [clientIP]))
  end.

Definition agent_header (h : Header) : Header :=
  if bool_decide (is_Some (h !! "User-Agent")) then h else header_Set h "User-Agent" "".

Definition forwarded_header (r : Request) (h : Header) : Header :=
  agent_header (forwarded_for r (upgrade_header (upgradeType h) (trailers_header r (removeHopByHopHeaders h)))).

(** [ReverseProxy.ServeHTTP] after its director has returned [out]. *)
Definition forwarded (r : Request) (out : Outgoing) : option Outgoing :=
  if negb (is_print (upgradeType (o_Header out))) then None
  else Some {| o_Endpoint := o_Endpoint out; o_Host := o_Host out; o_Path := o_Path out;
               o_RawQuery := o_RawQuery out; o_Header := forwarded_header r (o_Header out) |}.

(** ** Clients *)

Record Response := { resp_StatusCode : Z; resp_Header : Header }.

(** A server, and the request a client makes next for a redirection: both are outside. *)
Class HttpClient := {
  roundTrip : string → Header → option Response;
  follow : string → Header → string → option (string * Header);
}.

Definition redirects (resp : Response) : bool :=
  bool_decide (resp_StatusCode resp ∈ [301; 302; 303; 307; 308]) &&
  negb (bool_decide (header_Get (resp_Header resp) "Location" = "")).

(** [Client.Do] of a GET request with the client's default policy: ten requests at most. *)
Fixpoint client_Do `{!HttpClient} (requests : nat) (url : string) (h : Header) : option Response :=
  match requests with
  | O => None
  | S n =>
      resp ← roundTrip url h;
      if redirects resp then
        '(url', h') ← follow url h (header_Get (resp_Header resp) "Location"); client_Do n url' h'
      else Some resp
  end.

Example canonical_key : CanonicalHeaderKey "x-auth-request-EMAIL" = "X-Auth-Request-Email".
Proof. vm_compute. reflexivity. Qed.

(** ** What a reverse proxy sends on *)

Lemma header_Dels_lookup names h k :
  foldl header_Del h names !! k = if decide (k ∈ CanonicalHeaderKey <$> names) then None else h !! k.
Proof.
  revert h. induction names as [|n names IH]; intros h; [done|]. cbn [foldl]. rewrite IH. unfold header_Del.
  rewrite fmap_cons. destruct (decide (k ∈ CanonicalHeaderKey <$> names)) as [Hin|Hin]; [by rewrite decide_True by set_solver|].
  destruct (decide (k = CanonicalHeaderKey n)) as [->|Hne].
  - rewrite lookup_delete_eq, decide_True by set_solver. done.
  - rewrite lookup_delete_ne by done. by rewrite decide_False by set_solver.
Qed.

(** The headers a reverse proxy writes itself. *)
Definition own_headers : list string := ["Te"; "Connection"; "Upgrade"; "X-Forwarded-For"; "User-Agent"].

Lemma header_Set_ne h n v k : CanonicalHeaderKey n = n → k ≠ n → header_Set h n v !! k = h !! k.
Proof. intros Hn Hk. unfold header_Set. rewrite Hn. by rewrite lookup_insert_ne. Qed.

Lemma forwarded_header_lookup r h k : k ∉ own_headers → k ∉ hopHeaders →
  forwarded_header r h !! k = if decide (k ∈ CanonicalHeaderKey <$> connection_names h) then None else h !! k.
Proof.
  intros Hown Hhop. unfold own_headers in Hown. rewrite !not_elem_of_cons in Hown. destruct Hown as (H1 & H2 & H3 & H4 & H5 & _). unfold forwarded_header.
  assert (∀ h, agent_header h !! k = h !! k) as ->.
  { intros h'. unfold agent_header. case_bool_decide; [done|]. by apply header_Set_ne. }
  assert (∀ h, forwarded_for r h !! k = h !! k) as ->.
  { intros h'. unfold forwarded_for. destruct (SplitHostPort _) as [[? ?]|]; [|done]. by apply header_Set_ne. }
  assert (∀ up h, upgrade_header up h !! k = h !! k) as ->.
  { intros up h'. unfold upgrade_header. case_bool_decide; [done|]. rewrite header_Set_ne by done. by apply header_Set_ne. }
  assert (∀ h, trailers_header r h !! k = h !! k) as ->.
  { intros h'. unfold trailers_header. destruct (has_token _ _); [by apply header_Set_ne|done]. }
  unfold removeHopByHopHeaders. rewrite header_Dels_lookup. rewrite decide_False by exact Hhop. apply header_Dels_lookup.
Qed.

End GoHttp.
