(* ===== verification/Gateway.v ===== *)
(** * internal/saas: the public gateway

    gateway.go, gateway_ws.go and clientip.go.  A request is authenticated by its API key,
    charged to the quota of the key's organization and then handed to the control plane,
    in the name of that organization.  [gate] is the part of [ServeHTTP] that decides, the
    rest of it answers; the control plane is an argument of the answer, and a WebSocket is
    answered with the request that is sent to the sandbox.  An error is its envelope's code.
    Metrics, telemetry, logging, the copying of streams and a sandbox that cannot be reached
    are left out. *)

From Stdlib Require Import Ascii.
From S2P Require Import Prelude GoStrings GoNet GoUrl GoHttp Atomic Saas Accounts Suspension Quota.
Import GoStrings GoNet GoUrl Saas Accounts.
Import GoHttp(Header, header_Get, header_Set, Outgoing, r_Method, r_URL, r_Header, r_RemoteAddr, forwarded).

Module Gateway.

(** ** Requests *)

(** What the server has read, and the body, unless reading it fails. *)
Record Request := { rq : GoHttp.Request; rq_Body : option string }.

Definition rq_Method (r : Request) : string := r_Method (rq r).
Definition rq_Path (r : Request) : string := u_Path (r_URL (rq r)).
Definition rq_Header (r : Request) : string → string := header_Get (r_Header (rq r)).
Definition rq_Query (r : Request) : string → string := Get (Query (r_URL (rq r))).
Definition rq_RemoteAddr (r : Request) : string := r_RemoteAddr (rq r).

Definition slash : ascii := "/".

Definition opRuntime : string := "sandbox.runtime".

Definition runtimeMethod (path : string) : option string :=
  match CutPrefix path "/sandbox.v1.Sandbox/" with
  | Some m => if negb (bool_decide (m = "")) && bool_decide (Cut m slash = None) then Some m else None
  | None =>
      match CutPrefix (TrimPrefix path "/v1/") "sandboxes/" with
      | None => None
      | Some rest =>
          match Cut rest slash with
          | None | Some ("", _) => None
          | Some (_, verb) =>
              if bool_decide (verb = "exec") then Some "Exec"
              else if bool_decide (verb = "files") then Some "Files"
              else if bool_decide (verb = "run_code") then Some "RunCode"
              else None
          end
      end
  end.

Definition requiredScopeFor (op : string) : string :=
  if bool_decide (op ∈ ["sandbox.list"; "sandbox.status"; "template.list"]) then ScopeReadOnly
  else if bool_decide (op = opRuntime) then ScopeExecute
  else ScopeLifecycle.

Section gateway.
Context `{!Unicode}.

Definition opFromPath (method path : string) : string :=
  match runtimeMethod path with
  | Some _ => opRuntime
  | None =>
      let p := TrimPrefix path "/v1/" in
      let get := bool_decide (method = "GET") in
      let post := bool_decide (method = "POST") in
      if bool_decide (p = "sandboxes") && get then "sandbox.list"
      else if bool_decide (p = "sandboxes") && post then "sandbox.create"
      else if HasPrefix p "sandboxes/" && get then "sandbox.status"
      else if HasPrefix p "sandboxes/" && bool_decide (method = "DELETE") then "sandbox.terminate"
      else if HasPrefix p "sandboxes/" && HasSuffix p "/fork" && post then "sandbox.fork"
      else if bool_decide (p = "templates") && post then "template.ensure"
      else if bool_decide (p = "templates") && get then "template.list"
      else if bool_decide (p = "fork") && post then "sandbox.create"
      else if bool_decide (p = "pause") && post then "sandbox.pause"
      else if bool_decide (p = "resume") && post then "sandbox.resume"
      else "sandbox." +:+ ToLower method
  end.

Definition bearerToken (r : Request) : option string :=
  let h := rq_Header r "Authorization" in
  let n := String.length "Bearer " in
  if (String.length h <=? n)%nat || negb (EqualFold (String.substring 0 n h) "Bearer ") then None
  else
    let tok := TrimSpace (String.substring n (String.length h - n) h) in
    if bool_decide (tok = "") then None else Some tok.

(** ** clientip.go *)

Definition hostOnly (addr : string) : string :=
  if bool_decide (addr = "") then "" else default addr (fst <$> SplitHostPort addr).

Definition clientIP (r : Request) (hops : Z) : string :=
  let remote := hostOnly (rq_RemoteAddr r) in
  if hops <=? 0 then remote
  else
    let xff := rq_Header r "X-Forwarded-For" in
    if bool_decide (xff = "") then remote
    else
      let parts := Split xff "," in
      let idx := Z.of_nat (length parts) - hops in
      if idx <? 0 then remote
      else default remote (IP_String <$> ParseIP (TrimSpace (default "" (parts !! Z.to_nat idx)))).

(** ** gateway_ws.go *)

Definition isWebSocketUpgrade (r : Request) : bool :=
  if negb (bool_decide (rq_Method r = "GET")) then false
  else if negb (EqualFold (rq_Header r "Upgrade") "websocket") then false
  else existsb (λ tok, EqualFold (TrimSpace tok) "upgrade") (Split (rq_Header r "Connection") ",").

Definition runtimeSandboxID (r : Request) : string :=
  if negb (bool_decide (rq_Header r "X-Sandbox-Id" = "")) then rq_Header r "X-Sandbox-Id" else rq_Query r "sandbox".

Definition execWSPath : string := "/sandbox.v1.Sandbox/Exec".

(** What a sandbox of an organization is resolved to. *)
Record RuntimeTarget := { rt_Endpoint : string; rt_Token : string; rt_SandboxID : string }.

(** The director of [proxyRuntimeWebSocket]: the sandbox is the resolved one, and its token
    takes the place of the customer's credential. *)
Definition director (target : RuntimeTarget) (r : Request) : Outgoing := {|
  GoHttp.o_Endpoint := rt_Endpoint target;
  GoHttp.o_Host := rt_Endpoint target;
  GoHttp.o_Path := execWSPath;
  GoHttp.o_RawQuery := Encode {["sandbox" := [rt_SandboxID target]]};
  GoHttp.o_Header :=
    header_Set (header_Set (r_Header (rq r)) "Authorization" ("Bearer " +:+ rt_Token target))
      "X-Sandbox-Id" (rt_SandboxID target);
|}.

(** ** The control plane and the answer *)

Record ForwardRequest := {
  fr_OrgID : string;
  fr_Op : string;
  fr_Path : string;
  fr_Method : string;
  fr_Header : list (string * string);
  fr_Body : string;
}.

Record ForwardResponse := { fs_Status : Z; fs_ContentType : string; fs_Body : string }.

Inductive envelope := Unauthorized | Forbidden | QuotaEnvelope (c : Quota.Code) | Internal | BodyTooLarge | NotFound.

Definition curatedRuntimeHeaders (h : string → string) : list (string * string) :=
  filter (λ kv, kv.2 ≠ "")
    ((λ k, (k, h k)) <$>
       ["X-Sandbox-Id"; "Content-Type"; "Accept"; "Connect-Protocol-Version"; "Connect-Timeout-Ms"]).

Definition maxBodyBytes : Z := Z.shiftl 8 20.

Definition failVerify (err : saas_error) : envelope :=
  match err with
  | ErrKeyScope | ErrKeyWrongOrg => Forbidden
  | _ => Unauthorized
  end.

(** What the gateway does with a request. *)
Inductive decision :=
| Deny (e : envelope)
| ProxyWebSocket (orgID : string)
| Forward (f : ForwardRequest).

(** The quota seam: the check of a request from an address, for an organization. *)
Class QuotaEnforcer (Q : Type) := {
  quota_Check (ip orgID op : string) : Q → result Quota.Code unit * Q;
}.

(** [AllowAllQuota]. *)
Definition allow_all : QuotaEnforcer unit := {| quota_Check _ _ _ q := (Ok tt, q) |}.

(** The quota adapter, with its seam for the address wired to the gateway's; [size] is the
    requested footprint. *)
Definition adapter_quota {T} `{!Suspension.SuspensionStore T} (clock : nat → Z) (size : option Quota.SandboxSpec) :
    QuotaEnforcer (Quota.Enforcer T) := {|
  quota_Check ip orgID op e :=
    let '(r, e') := Quota.adapter_Check clock (Some ip) size orgID op e in
    (match r with Ok _ => Ok tt | Err d => Err (Quota.d_Envelope d) end, e');
|}.

Section serve.
Context {S Q : Type} `{!Store S, !QuotaEnforcer Q}.

Definition body_of (op : string) (r : Request) : result envelope (list (string * string) * string) :=
  if bool_decide (op = opRuntime) then Ok (curatedRuntimeHeaders (rq_Header r), default "" (rq_Body r))
  else match rq_Body r with
       | None => Err Internal
       | Some body => if maxBodyBytes <? Z.of_nat (String.length body) then Err BodyTooLarge else Ok ([], body)
       end.

Definition gate (salt : string) (now : Z) (hops : Z) (r : Request) :
    prog (S * Q) decision :=
  let op := opFromPath (rq_Method r) (rq_Path r) in
  let scope := requiredScopeFor op in
  match bearerToken r with
  | None => Ret (Deny Unauthorized)
  | Some raw =>
      do res := on_fst (Verify salt now raw scope);
      match res with
      | Err err => Ret (Deny (failVerify err))
      | Ok key =>
          let orgID := k_OrgID key in
          do q := on_snd (Atomic.op (quota_Check (clientIP r hops) orgID op));
          Ret (match q with
               | Err c => Deny (QuotaEnvelope c)
               | Ok _ =>
                   if bool_decide (op = opRuntime) && isWebSocketUpgrade r then ProxyWebSocket orgID
                   else match body_of op r with
                        | Err e => Deny e
                        | Ok (header, body) =>
                            Forward {| fr_OrgID := orgID; fr_Op := op; fr_Path := rq_Path r; fr_Method := rq_Method r;
                                       fr_Header := header; fr_Body := body |}
                        end
               end)
      end
  end.

(** The control plane, when it can resolve a sandbox of an organization for a WebSocket. *)
Record ControlPlane := {
  cp_Forward : ForwardRequest → option ForwardResponse;
  cp_ResolveRuntime : option (string → string → result envelope RuntimeTarget);
}.

(** An answer is an envelope, the control plane's response, or a connection that begins with
    a request to a sandbox. *)
Inductive response :=
| Failed (e : envelope)
| Answered (status : Z) (contentType body : string)
| Proxied (out : Outgoing).

Definition proxyRuntimeWebSocket (cp : ControlPlane) (r : Request) (orgID : string) : response :=
  match cp_ResolveRuntime cp with
  | None => Failed Internal
  | Some ResolveRuntime =>
      let id := runtimeSandboxID r in
      if bool_decide (id = "") then Failed NotFound
      else match ResolveRuntime orgID id with
           | Err e => Failed e
           | Ok target =>
               match forwarded (rq r) (director target r) with
               | Some out => Proxied out
               | None => Failed Internal
               end
           end
  end.

Definition answer (cp : ControlPlane) (r : Request) (d : decision) : response :=
  match d with
  | Deny e => Failed e
  | ProxyWebSocket orgID => proxyRuntimeWebSocket cp r orgID
  | Forward f =>
      match cp_Forward cp f with
      | None => Failed Internal
      | Some resp =>
          Answered (if fs_Status resp =? 0 then 200 else fs_Status resp)
            (if bool_decide (fs_ContentType resp = "") then "application/json" else fs_ContentType resp) (fs_Body resp)
      end
  end.

Definition ServeHTTP (salt : string) (now : Z) (hops : Z) (cp : ControlPlane)
    (r : Request) : prog (S * Q) response :=
  do d := gate salt now hops r;
  Ret (answer cp r d).

End serve.

End gateway.

End Gateway.
