(* ===== verification/GatewayTheorems.v ===== *)
(** * The gateway: theorems

    What reaches the control plane: only requests with a live key that was issued for the
    organization they act for, with the scope they need, after the store of suspensions
    has answered that the organization is not suspended; and what reaches a sandbox carries
    its token, not the key.  The address a request is charged to cannot be chosen by its
    sender, when the trusted proxies extend the header the sender may have set. *)

From Stdlib Require Import Ascii.
From S2P Require Import Prelude Sha256 Base64 GoStrings GoNet GoUrl GoHttp Atomic Saas Accounts Invites SaasTheorems.
From S2P Require Import Suspension SuspensionTheorems Quota QuotaTheorems Gateway.
Import GoStrings GoStringsTheorems GoNet GoUrl Saas Accounts SaasTheorems Gateway.
Import GoHttp(Header, header_Get, header_Set, Outgoing, r_Method, r_URL, r_Header, r_RemoteAddr, forwarded).
Import Suspension(SuspensionStore, store_IsSuspended, LawfulStore, store_ok, view).
Import Quota(Enforcer, en_sus, adapter_Check, Check_) QuotaTheorems(checkSuspended_denies).

Module GatewayTheorems.

(** ** The client's address *)

Definition with_xff (xff : list string) (r : Request) : Request :=
  {| rq := {| GoHttp.r_Method := r_Method (rq r); GoHttp.r_Host := GoHttp.r_Host (rq r); GoHttp.r_URL := r_URL (rq r);
              GoHttp.r_Header := <["X-Forwarded-For" := xff]> (r_Header (rq r)); GoHttp.r_RemoteAddr := r_RemoteAddr (rq r);
              GoHttp.r_TLS := GoHttp.r_TLS (rq r) |};
     rq_Body := rq_Body r |}.

Lemma xff_header xff xffs r : rq_Header (with_xff (xff :: xffs) r) "X-Forwarded-For" = xff.
Proof.
  unfold rq_Header, header_Get. change (GoHttp.CanonicalHeaderKey "X-Forwarded-For") with "X-Forwarded-For". simpl.
  by rewrite lookup_insert_eq.
Qed.

(** The trusted proxies append to what the sender wrote: what stands to the left of their
    entries does not matter. *)
Lemma client_ip_not_spoofed `{!Unicode} r spoof trusted hops :
  trusted ≠ "" → hops ≤ Z.of_nat (length (Split trusted ",")) →
  clientIP (with_xff [spoof +:+ String "," trusted] r) hops = clientIP (with_xff [trusted] r) hops.
Proof.
  intros Ht Hh. unfold clientIP. rewrite !xff_header. destruct (Z.leb_spec hops 0); [done|].
  rewrite (bool_decide_eq_false_2 (trusted = "")) by done.
  rewrite bool_decide_eq_false_2 by (by destruct spoof).
  rewrite Split_app, length_app, Nat2Z.inj_add.
  destruct (Z.ltb_spec (Z.of_nat (length (Split spoof ",")) + Z.of_nat (length (Split trusted ",")) - hops) 0); [lia|].
  destruct (Z.ltb_spec (Z.of_nat (length (Split trusted ",")) - hops) 0); [lia|].
  rewrite lookup_app_r by lia.
  by replace (Z.to_nat _ - length (Split spoof ","))%nat with (Z.to_nat (Z.of_nat (length (Split trusted ",")) - hops)) by lia.
Qed.

(** ** What is forwarded *)

(** That is so when a proxy appends to the line of the sender.  A proxy that adds a line of its
    own leaves the first to them, and the first alone is read. *)
Example xff_second_line_ignored :
  let r := {| rq := {| GoHttp.r_Method := "GET"; GoHttp.r_Host := ""; GoHttp.r_RemoteAddr := "10.0.0.1:80"; GoHttp.r_TLS := false;
                       GoHttp.r_URL := {| u_Path := "/"; u_RawPath := ""; u_RawQuery := ""; u_ForceQuery := false |};
                       GoHttp.r_Header := ∅ |};
              rq_Body := None |} in
  @clientIP ascii_unicode (with_xff ["203.0.113.9"; "192.0.2.7"] r) 1 = "203.0.113.9" ∧
  @clientIP ascii_unicode (with_xff ["203.0.113.9,192.0.2.7"] r) 1 = "192.0.2.7".
Proof. split; by vm_compute. Qed.

Section gate.
Context {sorting : SliceSort} {ranging : MapRange} {unicode : Unicode}.

(** The control plane is reached in the name of an organization. *)
Definition admitted_for (d : decision) : option string :=
  match d with Deny _ => None | ProxyWebSocket o => Some o | Forward f => Some (fr_OrgID f) end.

Lemma gate_inv {Q} `{!QuotaEnforcer Q} salt now hops r s (q : Q) d st o :
  run (gate salt now hops r) (s, q) = (d, st) → admitted_for d = Some o →
  let op := opFromPath (rq_Method r) (rq_Path r) in
  ∃ raw k q',
    bearerToken r = Some raw ∧ (run (Verify salt now raw (requiredScopeFor op)) s).1 = Ok k ∧ k_OrgID k = o ∧
    quota_Check (clientIP r hops) o op q = (Ok tt, q') ∧ st = (s, q') ∧
    (∀ f, d = Forward f → fr_Op f = op ∧ body_of op r = Ok (fr_Header f, fr_Body f)).
Proof.
  intros Hrun Ho op. revert Hrun. unfold gate. fold op. destruct (bearerToken r) as [raw|]; [|by intros [= <- _]].
  rewrite run_bind.
  assert (run (on_fst (Verify salt now raw (requiredScopeFor op))) (s, q) =
    ((run (Verify salt now raw (requiredScopeFor op)) s).1, (s, q))) as ->.
  { unfold Verify. by case_match. }
  destruct (run (Verify salt now raw (requiredScopeFor op)) s).1 as [k|err] eqn:Ev; [|by intros [= <- _]].
  rewrite run_bind. cbn [run on_snd Atomic.op]. intros Hrun. exists raw, k.
  destruct (quota_Check _ (k_OrgID k) op q) as [[[]|c] q'] eqn:Eq; [|by simplify_eq].
  exists q'. destruct (bool_decide (op = opRuntime) && isWebSocketUpgrade r); [by simplify_eq/=|].
  destruct (body_of op r) as [[header body]|] eqn:Eb; simplify_eq/=. split_and!; try done. intros f [= <-]. done.
Qed.

Lemma curated_no_credential h : "Authorization" ∉ (curatedRuntimeHeaders h).*1.
Proof.
  unfold curatedRuntimeHeaders. intros ([k v] & Hk & Hin)%list_elem_of_fmap. simpl in Hk. subst k.
  apply list_elem_of_filter in Hin as [_ Hin]. apply list_elem_of_fmap in Hin as (k & Hk & Hin).
  injection Hk as <- _. revert Hin. apply (bool_decide_unpack _). by vm_compute.
Qed.

Lemma body_of_safe op r header body : body_of op r = Ok (header, body) → "Authorization" ∉ header.*1.
Proof.
  unfold body_of. case_bool_decide; [intros [= <- _]; apply curated_no_credential|].
  destruct (rq_Body r) as [b|]; [|done]. case_match; [done|]. intros [= <- _]. apply not_elem_of_nil.
Qed.

(** What the sandbox behind a WebSocket is sent: to the endpoint that the control plane names
    for the organization, and with at most the token of the sandbox. *)
Lemma proxied_target cp r o out : proxyRuntimeWebSocket cp r o = Proxied out →
  ∃ resolve target, cp_ResolveRuntime cp = Some resolve ∧ resolve o (runtimeSandboxID r) = Ok target ∧
    GoHttp.o_Endpoint out = rt_Endpoint target ∧ GoHttp.o_Path out = execWSPath ∧
    GoHttp.o_RawQuery out = "sandbox=" +:+ QueryEscape (rt_SandboxID target) ∧
    GoHttp.o_Header out !! "Authorization" =
      if decide ("Authorization" ∈ GoHttp.CanonicalHeaderKey <$> GoHttp.connection_names (r_Header (rq r))) then None
      else Some ["Bearer " +:+ rt_Token target].
Proof.
  unfold proxyRuntimeWebSocket. destruct (cp_ResolveRuntime cp) as [resolve|]; [|done]. case_bool_decide; [done|].
  destruct (resolve o _) as [target|] eqn:Er; [|done]. unfold forwarded. destruct (negb _); [done|]. intros [= <-].
  exists resolve, target. split_and!; [done..| |].
  - cbn [GoHttp.o_RawQuery director]. unfold Encode, sorted_keys. rewrite map_to_list_singleton. cbn. by rewrite lookup_singleton_eq.
  - cbn [GoHttp.o_Header director]. rewrite GoHttp.forwarded_header_lookup by (apply (bool_decide_unpack _); by vm_compute).
    unfold GoHttp.connection_names. rewrite !GoHttp.header_Set_ne by done. case_decide; [done|].
    unfold header_Set. change (GoHttp.CanonicalHeaderKey "Authorization") with "Authorization". by rewrite lookup_insert_eq.
Qed.

(** C4: what reaches the control plane and the sandboxes.  With the in-memory store of
    accounts behind any interleaving of service calls and the quota adapter over any store
    of suspensions: a request that is forwarded or proxied in the name of an organization
    presented a key that some call issued for that organization (or SHA-256 has a
    collision), that is neither expired nor revoked and has the scope that the operation
    requires; and the store of suspensions, asked about the organization, has answered that
    it is not suspended.  When the store answers with what it has on record, it is not; the
    cache that the service puts before it may be three seconds behind.  The control plane is
    given no Authorization header, and the request that a sandbox is sent over a WebSocket
    goes to the sandbox that the control plane names for that organization and has that
    sandbox's token for its Authorization header, or none.  The check does not change the
    accounts. *)
Theorem gateway_admits {T} `{!SuspensionStore T, !LawfulStore T} clock size salt email tokenTTL allowed s ps
    (e : Enforcer T) now hops r d st o :
  serving salt email tokenTTL allowed (s, ps) →
  run (@gate unicode MemStore (Enforcer T) mem_store (adapter_quota clock size) salt now hops r) (s, e) = (d, st) →
  admitted_for d = Some o →
  (∃ raw k created rnd a req secret,
    bearerToken r = Some raw ∧ allowed (CCreateKey (k_ID k) created rnd a req) ∧ cr_OrgID req = o ∧
    randomSecret rnd = Ok secret ∧
    (raw = keyPrefix +:+ secret ∨
     (salt +:+ raw ≠ salt +:+ keyPrefix +:+ secret ∧
      Sha256.Sum256 (salt +:+ raw) = Sha256.Sum256 (salt +:+ keyPrefix +:+ secret))) ∧
    keys s !! k_ID k = Some k ∧ IsRevoked k = false ∧ IsExpired k now = false ∧
    HasScope k (requiredScopeFor (opFromPath (rq_Method r) (rq_Path r))) = true) ∧
  (∀ sus, en_sus e = Some sus →
    (∃ su, (store_IsSuspended (clock 0%nat) o sus).1 = Ok (su, false)) ∧ (store_ok sus → view sus !! o = None)) ∧
  (∀ f, d = Forward f → fr_Op f = opFromPath (rq_Method r) (rq_Path r) ∧ "Authorization" ∉ (fr_Header f).*1) ∧
  (∀ cp out, answer cp r d = Proxied out →
    ∃ resolve target, cp_ResolveRuntime cp = Some resolve ∧ resolve o (runtimeSandboxID r) = Ok target ∧
      GoHttp.o_Endpoint out = rt_Endpoint target ∧ GoHttp.o_Path out = execWSPath ∧
      GoHttp.o_RawQuery out = "sandbox=" +:+ QueryEscape (rt_SandboxID target) ∧
      (GoHttp.o_Header out !! "Authorization" = None ∨ GoHttp.o_Header out !! "Authorization" = Some ["Bearer " +:+ rt_Token target])) ∧
  st.1 = s.
Proof.
  intros Hserve Hrun Ho.
  destruct (@gate_inv _ (adapter_quota clock size) _ _ _ _ _ _ _ _ _ Hrun Ho) as (raw & k & q' & Hb & Hv & Hk & Hq & -> & Hf).
  pose proof (serving_keeps salt email tokenTTL allowed wf s ps wf_new (writes_wf salt allowed) Hserve) as Hwf.
  destruct (Verify_inv salt _ _ _ _ _ Hwf Hv) as (_ & Hks & Hh & He & Hr & Hs).
  destruct (keys_issued salt email tokenTTL allowed s ps Hserve _ _ Hks) as (c & rnd & a & req & sc & sec & H1 & _ & H3 & H4).
  split_and!; [| |intros f Hd; destruct (Hf f Hd) as [Hop Hbody]; split; [done|by eapply body_of_safe]| |done].
  - exists raw, k, c, rnd, a, req, sec. split_and!; try done; [by rewrite <- Hk, H4| |].
    + destruct (decide (raw = keyPrefix +:+ sec)) as [->|Hne]; [by left|]. right.
      split; [by intros Heq%str_app_inj_l|]. rewrite H4 in Hh. simpl in Hh. unfold hash in Hh. by apply hex_inj in Hh.
    + apply Hs. unfold requiredScopeFor. repeat case_bool_decide; done.
  - intros sus Hsus. revert Hq. unfold quota_Check, adapter_quota, adapter_Check, Check_. rewrite Hsus. intros Hq. split.
    + revert Hq. unfold Quota.checkSuspended. destruct (store_IsSuspended _ o sus) as [[[su []]|] sus']; [done|by eauto|done].
    + intros Hok. destruct (view sus !! o) as [su|] eqn:Ev; [|done]. exfalso. revert Hq.
      destruct (checkSuspended_denies (clock 0%nat) o sus su Hok Ev) as (err & s' & -> & _). done.
  - intros cp out Hout. destruct d as [env|o'|f]; [done| |revert Hout; simpl; by case_match]. injection Ho as ->.
    apply proxied_target in Hout as (resolve & target & ? & ? & ? & ? & ? & Ha). exists resolve, target. split_and!; [done..|].
    rewrite Ha. case_decide; auto.
Qed.

End gate.

(** ** A request *)

(** Olga lists their sandboxes with the key that can only read; another organization is
    suspended. *)
Definition ex_request : Request := {|
  rq := {|
    GoHttp.r_Method := "GET";
    GoHttp.r_Host := "api.mitos.run";
    GoHttp.r_URL := {| u_Path := "/v1/sandboxes"; u_RawPath := ""; u_RawQuery := ""; u_ForceQuery := false |};
    GoHttp.r_Header := {["Authorization" := ["bearer " +:+ ex_raw "4567"]]};
    GoHttp.r_RemoteAddr := "192.0.2.7:4321";
    GoHttp.r_TLS := true;
  |};
  rq_Body := Some "";
|}.

Definition ex_quota : Enforcer Suspension.MemSuspensionStore := Quota.with_state QuotaTheorems.ex_enforcer
  (Some ({["beta" := Suspension.zero_suspension]} : Suspension.MemSuspensionStore)) (Quota.en_rl QuotaTheorems.ex_enforcer).

Abbreviation ex_gate :=
  (run (@gate ascii_unicode MemStore (Enforcer Suspension.MemSuspensionStore) mem_store (adapter_quota (λ _, 100) None)
    "pepper" (2 * hour) 0 ex_request) (ex_state.1, ex_quota)) (only parsing).

Definition ex_forwarded : ForwardRequest := {|
  fr_OrgID := "acme";
  fr_Op := "sandbox.list";
  fr_Path := "/v1/sandboxes";
  fr_Method := "GET";
  fr_Header := [];
  fr_Body := "";
|}.

Lemma ex_gate_forwards : ex_gate.1 = Forward ex_forwarded.
Proof. vm_compute. reflexivity. Qed.

Lemma run_fst {A B} (p : A * B) x : p.1 = x → p = (x, p.2).
Proof. destruct p. by intros <-. Qed.

Lemma ex_gate_run : ex_gate = (Forward ex_forwarded, ex_gate.2).
Proof. exact (run_fst _ _ ex_gate_forwards). Qed.

Lemma gateway_admits_witness :
  (∃ raw k created rnd a req secret,
    bearerToken ex_request = Some raw ∧ any_call (CCreateKey (k_ID k) created rnd a req) ∧ cr_OrgID req = "acme" ∧
    randomSecret rnd = Ok secret ∧
    (raw = keyPrefix +:+ secret ∨
     ("pepper" +:+ raw ≠ "pepper" +:+ keyPrefix +:+ secret ∧
      Sha256.Sum256 ("pepper" +:+ raw) = Sha256.Sum256 ("pepper" +:+ keyPrefix +:+ secret))) ∧
    keys ex_state.1 !! k_ID k = Some k ∧ IsRevoked k = false ∧ IsExpired k (2 * hour) = false ∧
    HasScope k (requiredScopeFor (opFromPath (rq_Method ex_request) (rq_Path ex_request))) = true) ∧
  (∀ sus : Suspension.MemSuspensionStore, en_sus ex_quota = Some sus →
    (∃ su, (store_IsSuspended 100 "acme" sus).1 = Ok (su, false)) ∧ (store_ok sus → view sus !! "acme" = None)) ∧
  (∀ f, Forward ex_forwarded = Forward f →
    fr_Op f = opFromPath (rq_Method ex_request) (rq_Path ex_request) ∧ "Authorization" ∉ (fr_Header f).*1) ∧
  (∀ cp out, answer cp ex_request (Forward ex_forwarded) = Proxied out →
    ∃ resolve target, cp_ResolveRuntime cp = Some resolve ∧ resolve "acme" (runtimeSandboxID ex_request) = Ok target ∧
      GoHttp.o_Endpoint out = rt_Endpoint target ∧ GoHttp.o_Path out = execWSPath ∧
      GoHttp.o_RawQuery out = "sandbox=" +:+ QueryEscape (rt_SandboxID target) ∧
      (GoHttp.o_Header out !! "Authorization" = None ∨ GoHttp.o_Header out !! "Authorization" = Some ["Bearer " +:+ rt_Token target])) ∧
  ex_gate.2.1 = ex_state.1.
Proof.
  exact (gateway_admits (λ _, 100) None "pepper" None InvitationTTL any_call ex_state.1 ex_state.2 ex_quota (2 * hour)
    0 ex_request (Forward ex_forwarded) ex_gate.2 "acme" ex_serving ex_gate_run eq_refl).
Defined.

End GatewayTheorems.
