(* ===== verification/Netconf.v ===== *)
(** * internal/netconf: network identities

    identity.go: the allocator that gives every sandbox a /30 block of the node's subnet,
    a tap name and a MAC.  A [uint32] is a [Z] reduced modulo [2 ^ 32]; the set of used
    blocks is the set of the keys of the source's map, whose values are all true. *)

From Stdlib Require Import Ascii.
From S2P Require Import Prelude Sha256 Json GoStrings GoNet.
Import Sha256 Json GoStrings GoNet.

Module Netconf.

Definition uint32 (z : Z) : Z := z mod 2 ^ 32.

Definition maxIfaceName : nat := 15.

Record Identity := {
  id_TapName : string;
  id_GuestMAC : string;
  id_HostIP : IP;
  id_GuestIP : IP;
}.

Record Allocator := {
  al_cidr : string;
  al_base : Z;
  al_count : Z;
  al_prefix : string;
  al_next : Z;
  al_byID : gmap string Identity;
  al_inUse : gset Z;
  al_idIndex : gmap string Z;
}.

Definition ipToUint32 (ip : IP) : Z :=
  let b := byte_at (To4 ip) in
  Z.lor (Z.shiftl (b 0%nat) 24) (Z.lor (Z.shiftl (b 1%nat) 16) (Z.lor (Z.shiftl (b 2%nat) 8) (b 3%nat))).

Definition uint32ToIP (v : Z) : IP :=
  To4 (IPv4 (Z.shiftr v 24 mod 256) (Z.shiftr v 16 mod 256) (Z.shiftr v 8 mod 256) (v mod 256)).

(** [Mask.Size]: the ones and the bits of a mask, both zero when it is not canonical. *)
Definition mask_size (m : list Z) : Z * Z :=
  match mask_length m with Some l => (l, 8 * Z.of_nat (length m)) | None => (0, 0) end.

Inductive alloc_error := ErrParse | ErrNotIPv4 | ErrTooSmall | ErrPrefix | ErrSubnetExhausted | ErrGuestIP.

Definition NewAllocator (cidr tapPrefix : string) : result alloc_error Allocator :=
  match ParseCIDR cidr with
  | None => Err ErrParse
  | Some (_, ipNet) =>
      let ip4 := To4 (net_IP ipNet) in
      if bool_decide (ip4 = []) then Err ErrNotIPv4
      else
        let '(ones, bits) := mask_size (net_Mask ipNet) in
        if negb (bits =? 32) then Err ErrNotIPv4
        else if 30 <? ones then Err ErrTooSmall
        else
          let count := uint32 (Z.shiftl 1 (30 - ones)) in
          if bool_decide (tapPrefix = "") then Err ErrPrefix
          else if (maxIfaceName <? String.length tapPrefix + 8)%nat then Err ErrPrefix
          else Ok {| al_cidr := cidr; al_base := ipToUint32 ip4; al_count := count; al_prefix := tapPrefix;
                     al_next := 0; al_byID := ∅; al_inUse := ∅; al_idIndex := ∅ |}
  end.

Definition tapName (prefix sandboxID : string) : string :=
  prefix +:+ hex_of_bytes (take 4 (bytes_of (Sum256 sandboxID))).

(** The first octet is locally administered and unicast. *)
Definition deriveMAC (sandboxID : string) : string :=
  let sum := bytes_of (Sum256 sandboxID) in
  let octet i := hex_of_bytes [byte_at sum i] in
  hex_of_bytes [Z.ldiff (Z.lor (byte_at sum 0) 0x02) 0x01] +:+ ":" +:+ octet 1%nat +:+ ":" +:+ octet 2%nat +:+ ":" +:+
  octet 3%nat +:+ ":" +:+ octet 4%nat +:+ ":" +:+ octet 5%nat.

Definition identityForBlock (a : Allocator) (sandboxID : string) (block : Z) : Identity :=
  let blockBase := uint32 (al_base a + 4 * block) in
  {| id_TapName := tapName (al_prefix a) sandboxID;
     id_GuestMAC := deriveMAC sandboxID;
     id_HostIP := uint32ToIP (uint32 (blockBase + 1));
     id_GuestIP := uint32ToIP (uint32 (blockBase + 2)) |}.

(** The loop of [Acquire] from its [i]-th round on: the first free block.  A round that
    goes on meets another used block, so that one more round than there are used blocks
    is enough. *)
Fixpoint acquire_loop (fuel : nat) (a : Allocator) (i : Z) : option Z :=
  match fuel with
  | O => None
  | S fuel =>
      if i <? al_count a then
        let block := uint32 (al_next a + i) mod al_count a in
        if bool_decide (block ∈ al_inUse a) then acquire_loop fuel a (i + 1) else Some block
      else None
  end.

Definition take_block (a : Allocator) (sandboxID : string) (block next : Z) (ident : Identity) : Allocator :=
  {| al_cidr := al_cidr a; al_base := al_base a; al_count := al_count a; al_prefix := al_prefix a;
     al_next := next;
     al_byID := <[sandboxID := ident]> (al_byID a);
     al_inUse := {[block]} ∪ al_inUse a;
     al_idIndex := <[sandboxID := block]> (al_idIndex a) |}.

Definition Acquire (sandboxID : string) (a : Allocator) : result alloc_error Identity * Allocator :=
  match al_byID a !! sandboxID with
  | Some id => (Ok id, a)
  | None =>
      match acquire_loop (S (base.size (al_inUse a))) a 0 with
      | Some block =>
          let ident := identityForBlock a sandboxID block in
          (Ok ident, take_block a sandboxID block (uint32 (block + 1) mod al_count a) ident)
      | None => (Err ErrSubnetExhausted, a)
      end
  end.

Definition MarkInUse (sandboxID : string) (id : Identity) (a : Allocator) : result alloc_error unit * Allocator :=
  let guest := To4 (id_GuestIP id) in
  if bool_decide (guest = []) then (Err ErrGuestIP, a)
  else
    let guestU := ipToUint32 guest in
    if guestU <? uint32 (al_base a + 2) then (Err ErrGuestIP, a)
    else
      let offset := uint32 (guestU - al_base a) in
      let block := uint32 (offset - 2) / 4 in
      if negb (uint32 (offset - 2) mod 4 =? 0) || (al_count a <=? block) then (Err ErrGuestIP, a)
      else match al_byID a !! sandboxID with
           | Some _ => (Ok tt, a)
           | None => (Ok tt, take_block a sandboxID block (al_next a) id)
           end.

Definition TapForGuestIP `{!MapRange} (ip : IP) (a : Allocator) : string :=
  let want := To4 ip in
  if bool_decide (want = []) then ""
  else match list_find (λ id, IP_Equal (id_GuestIP id.2) want = true) (map_range "TapForGuestIP" (al_byID a)) with
       | Some (_, (_, id)) => id_TapName id
       | None => ""
       end.

Definition Release (sandboxID : string) (a : Allocator) : Allocator :=
  match al_idIndex a !! sandboxID with
  | None => a
  | Some block =>
      {| al_cidr := al_cidr a; al_base := al_base a; al_count := al_count a; al_prefix := al_prefix a;
         al_next := al_next a;
         al_byID := delete sandboxID (al_byID a);
         al_inUse := al_inUse a ∖ {[block]};
         al_idIndex := delete sandboxID (al_idIndex a) |}
  end.

(** ** Links derived without an allocator *)

Definition DeriveTapName (guestIP : string) : string :=
  let name := "sbt" +:+ String.substring 0 12 (hex_of_bytes (bytes_of (Sum256 guestIP))) in
  if (maxIfaceName <? String.length name)%nat then String.substring 0 maxIfaceName name else name.

Definition inPodSecondaryBase : Z := Z.lor (Z.shiftl 100 24) (Z.shiftl 64 16).

Definition inPodSecondaryBlocks : Z := Z.shiftl 1 14.

Definition DeriveInPodSecondaryLink (vmID : string) : IP * IP * string :=
  let sum := bytes_of (Sum256 vmID) in
  let block := Z.lor (Z.shiftl (byte_at sum 0) 8) (byte_at sum 1) mod inPodSecondaryBlocks in
  let blockBase := uint32 (inPodSecondaryBase + 4 * block) in
  (uint32ToIP (uint32 (blockBase + 2)), uint32ToIP (uint32 (blockBase + 1)), deriveMAC vmID).

Example acquire_first :
  match NewAllocator "10.200.0.0/16" "sbtap" with
  | Ok a => match Acquire "sb-1" a with
            | (Ok id, _) => (IP_String (id_HostIP id), IP_String (id_GuestIP id)) = ("10.200.0.1", "10.200.0.2")
            | _ => False
            end
  | Err _ => False
  end.
Proof. vm_compute. reflexivity. Qed.

End Netconf.
