(* ===== verification/NetconfTheorems.v ===== *)
(** * Network identities: theorems

    Every sandbox has a block of the subnet to itself, an allocation fails only when all
    blocks are taken, and an allocator that is rebuilt from the recorded identities is the
    one that was lost. *)

From Stdlib Require Import Ascii.
From S2P Require Import Prelude Sha256 Json Base64 GoStrings GoNet Netconf.
Import Sha256 Json GoStrings GoNet Netconf.

Module NetconfTheorems.

(** ** The search for a block *)

Definition rounds (a : Allocator) (i : Z) : gset Z :=
  list_to_set ((λ j, (al_next a + j) mod al_count a) <$> seqZ 0 i).

Lemma elem_of_rounds a i b : b ∈ rounds a i ↔ ∃ j, 0 ≤ j < i ∧ b = (al_next a + j) mod al_count a.
Proof.
  unfold rounds. rewrite elem_of_list_to_set, list_elem_of_fmap. setoid_rewrite elem_of_seqZ.
  split; intros (j & ? & ?); exists j; lia.
Qed.

(** Up to the number of blocks, the rounds meet different blocks. *)
Lemma size_rounds a i : 0 < al_count a → 0 ≤ i ≤ al_count a → base.size (rounds a i) = Z.to_nat i.
Proof.
  intros Hc Hi. unfold rounds. rewrite size_list_to_set.
  - by rewrite length_fmap, length_seqZ.
  - apply NoDup_fmap_2_strong; [|apply NoDup_seqZ]. intros x y Hx%elem_of_seqZ Hy%elem_of_seqZ Heq.
    assert ((x - y) mod al_count a = 0) as Hz.
    { replace (x - y) with ((al_next a + x) - (al_next a + y)) by lia.
      rewrite Zminus_mod, Heq, Z.sub_diag. apply Z.mod_0_l. lia. }
    clear Heq. apply Z.mod_divide in Hz; [|lia]. destruct Hz as [q Hq]. assert (q = 0) by nia. nia.
Qed.

(** After as many rounds as there are blocks, every block was met. *)
Lemma rounds_all a b : 0 < al_count a → 0 ≤ b < al_count a → b ∈ rounds a (al_count a).
Proof.
  intros Hc Hb. apply elem_of_rounds. exists ((b - al_next a) mod al_count a).
  split; [apply Z.mod_pos_bound; lia|]. rewrite Zplus_mod_idemp_r. replace (al_next a + (b - al_next a)) with b by lia.
  by rewrite Z.mod_small.
Qed.

Definition in_range (a : Allocator) : Prop :=
  0 < al_count a ≤ 2 ^ 30 ∧ 0 ≤ al_next a < al_count a ∧ 0 ≤ al_base a ∧ al_base a + 4 * al_count a ≤ 2 ^ 32.

Lemma acquire_loop_inv a fuel i :
  in_range a → 0 ≤ i ≤ al_count a → (base.size (al_inUse a) < fuel + Z.to_nat i)%nat → rounds a i ⊆ al_inUse a →
  match acquire_loop fuel a i with
  | Some b => 0 ≤ b < al_count a ∧ b ∉ al_inUse a
  | None => ∀ b, 0 ≤ b < al_count a → b ∈ al_inUse a
  end.
Proof.
  intros (Hc & Hn & _). revert i. induction fuel as [|fuel IH]; intros i Hi Hf Hsub; simpl.
  - apply subseteq_size in Hsub. rewrite size_rounds in Hsub by lia. lia.
  - destruct (Z.ltb_spec i (al_count a)).
    + assert (uint32 (al_next a + i) = al_next a + i) as -> by (unfold uint32; rewrite Z.mod_small; lia).
      case_bool_decide as Hin.
      * apply IH; [lia|lia|]. intros b (j & Hj & ->)%elem_of_rounds. destruct (decide (j = i)) as [->|]; [done|].
        apply Hsub, elem_of_rounds. exists j. split; [lia|done].
      * split; [|done]. apply Z.mod_pos_bound. lia.
    + intros b Hb. apply Hsub. replace i with (al_count a) by lia. apply rounds_all; lia.
Qed.

Lemma acquire_loop_spec a :
  in_range a →
  match acquire_loop (S (base.size (al_inUse a))) a 0 with
  | Some b => 0 ≤ b < al_count a ∧ b ∉ al_inUse a
  | None => ∀ b, 0 ≤ b < al_count a → b ∈ al_inUse a
  end.
Proof.
  intros Ha. apply acquire_loop_inv; [done|destruct Ha; lia|lia|].
  intros b (j & Hj & _)%elem_of_rounds. lia.
Qed.

(** ** Addresses *)

Lemma lor_disjoint a b k : 0 ≤ k → 0 ≤ b < 2 ^ k → Z.lor (Z.shiftl a k) b = a * 2 ^ k + b.
Proof.
  intros Hk Hb. rewrite <- Z.shiftl_mul_pow2 by done.
  assert (Z.land (Z.shiftl a k) b = 0) as Hz.
  { apply Z.bits_inj'. intros n Hn. rewrite Z.land_spec, Z.bits_0. destruct (Z.lt_ge_cases n k).
    - by rewrite Z.shiftl_spec_low.
    - destruct Hb as [Hb0 Hb]. rewrite Z.bounded_iff_bits_nonneg in Hb by lia. rewrite Hb by lia. apply andb_false_r. }
  by rewrite Z.add_nocarry_lxor, Z.lxor_lor.
Qed.

(** The four bytes of an address and its number. *)
Definition is_ip4 (ip : IP) : Prop := length ip = 4%nat ∧ Forall (λ b, 0 ≤ b < 256) ip.

Definition num (ip : IP) : Z :=
  byte_at ip 0 * 2 ^ 24 + byte_at ip 1 * 2 ^ 16 + byte_at ip 2 * 2 ^ 8 + byte_at ip 3.

Lemma is_ip4_inv ip : is_ip4 ip → ∃ a b c d,
  ip = [a; b; c; d] ∧ 0 ≤ a < 256 ∧ 0 ≤ b < 256 ∧ 0 ≤ c < 256 ∧ 0 ≤ d < 256.
Proof.
  intros [Hl Hf]. destruct ip as [|a [|b [|c [|d []]]]]; try done. exists a, b, c, d.
  rewrite !Forall_cons in Hf. naive_solver.
Qed.

Lemma ip4_To4 ip : is_ip4 ip → To4 ip = ip.
Proof. intros [Hl _]. unfold To4. by rewrite Hl. Qed.

Lemma ipToUint32_num ip : is_ip4 ip → ipToUint32 ip = num ip.
Proof.
  intros H. unfold ipToUint32, num. rewrite (ip4_To4 _ H).
  destruct (is_ip4_inv _ H) as (a & b & c & d & -> & ? & ? & ? & ?). unfold byte_at. simpl.
  rewrite (lor_disjoint c d 8), (lor_disjoint b _ 16), (lor_disjoint a _ 24) by lia. lia.
Qed.

Lemma uint32ToIP_ip4 v : is_ip4 (uint32ToIP v).
Proof.
  unfold uint32ToIP, To4, IPv4. simpl. split; [done|].
  repeat (apply Forall_cons_2; [apply Z.mod_pos_bound; lia|]). constructor.
Qed.

Lemma num_uint32ToIP v : 0 ≤ v < 2 ^ 32 → num (uint32ToIP v) = v.
Proof.
  intros Hv. unfold num, uint32ToIP, To4, IPv4, byte_at. simpl. rewrite !Z.shiftr_div_pow2 by lia.
  change (2 ^ 24) with 16777216. change (2 ^ 16) with 65536. change (2 ^ 8) with 256. change (2 ^ 32) with 4294967296 in Hv.
  Z.to_euclidean_division_equations. lia.
Qed.

Lemma num_range ip : is_ip4 ip → 0 ≤ num ip < 2 ^ 32.
Proof.
  intros H. destruct (is_ip4_inv _ H) as (a & b & c & d & -> & ? & ? & ? & ?). unfold num, byte_at. simpl. lia.
Qed.

Lemma ipToUint32_roundtrip v : 0 ≤ v < 2 ^ 32 → ipToUint32 (uint32ToIP v) = v.
Proof. intros. rewrite ipToUint32_num by apply uint32ToIP_ip4. by apply num_uint32ToIP. Qed.

(** ** The invariant *)

(** Every index entry is a block of the subnet that is in use, each block has one owner,
    and an owner's identity is the one derived from the block. *)
Record alloc_ok (a : Allocator) : Prop := {
  ok_range : in_range a;
  ok_index : ∀ id b, al_idIndex a !! id = Some b →
    0 ≤ b < al_count a ∧ al_byID a !! id = Some (identityForBlock a id b);
  ok_byID : ∀ id, is_Some (al_byID a !! id) → is_Some (al_idIndex a !! id);
  ok_inUse : ∀ b, b ∈ al_inUse a ↔ ∃ id, al_idIndex a !! id = Some b;
  ok_inj : ∀ id1 id2 b, al_idIndex a !! id1 = Some b → al_idIndex a !! id2 = Some b → id1 = id2;
}.

Lemma take_block_ok a id b next :
  alloc_ok a → al_byID a !! id = None → 0 ≤ b < al_count a → b ∉ al_inUse a → 0 ≤ next < al_count a →
  alloc_ok (take_block a id b next (identityForBlock a id b)).
Proof.
  intros [[Hc [Hn Hb]] Hi Hd Hu Hj] Hid Hbr Hnu Hnext.
  assert (al_idIndex a !! id = None) as Hid'.
  { destruct (al_idIndex a !! id) as [b'|] eqn:E; [|done]. by destruct (Hi _ _ E) as [_ ?]; simplify_eq. }
  split; simpl.
  - unfold in_range. simpl. done.
  - intros id' b' [[<- <-]|[Hne E]]%lookup_insert_Some; [by rewrite lookup_insert_eq|].
    rewrite lookup_insert_ne by done. by apply Hi.
  - intros id'. destruct (decide (id' = id)) as [->|]; [by rewrite !lookup_insert_eq|].
    rewrite !lookup_insert_ne by done. apply Hd.
  - intros b'. rewrite elem_of_union, elem_of_singleton, Hu. split.
    + intros [->|[id' E]]; [exists id; by rewrite lookup_insert_eq|]. exists id'.
      rewrite lookup_insert_ne; [done|]. congruence.
    + intros [id' [[_ ?]|[_ E]]%lookup_insert_Some]; [by left|right; by exists id'].
  - intros id1 id2 b' [[<- <-]|[Hne1 E1]]%lookup_insert_Some [[<- ?]|[Hne2 E2]]%lookup_insert_Some; simplify_eq; try done.
    + exfalso. apply Hnu, Hu. by exists id2.
    + exfalso. apply Hnu, Hu. by exists id1.
    + by eapply Hj.
Qed.

Lemma Acquire_ok id a : alloc_ok a → alloc_ok (Acquire id a).2.
Proof.
  intros Ha. unfold Acquire. destruct (al_byID a !! id) eqn:E; [done|].
  pose proof (acquire_loop_spec a (ok_range a Ha)) as Hl. destruct (acquire_loop _ a 0) as [b|]; [|done]. simpl.
  apply take_block_ok; [done|done|apply Hl|apply Hl|]. apply Z.mod_pos_bound, (ok_range a Ha).
Qed.

Lemma Release_ok id a : alloc_ok a → alloc_ok (Release id a).
Proof.
  intros [Hr Hi Hd Hu Hj]. unfold Release. destruct (al_idIndex a !! id) as [b|] eqn:E; [|done].
  split; simpl; [done|..].
  - intros id' b' [Hne E']%lookup_delete_Some. rewrite lookup_delete_ne by done. by apply Hi.
  - intros id' [i [Hne E']%lookup_delete_Some]. rewrite lookup_delete_ne by done. apply Hd. by exists i.
  - intros b'. rewrite elem_of_difference, elem_of_singleton, Hu. split.
    + intros [[id' E'] Hb']. exists id'. rewrite lookup_delete_ne; [done|]. congruence.
    + intros [id' [Hne E']%lookup_delete_Some]. split; [by exists id'|]. intros ->. apply Hne. by eapply Hj.
  - intros id1 id2 b' [_ E1]%lookup_delete_Some [_ E2]%lookup_delete_Some. by eapply Hj.
Qed.

(** The addresses of a block. *)
Lemma block_guest a id b :
  in_range a → 0 ≤ b < al_count a → num (id_GuestIP (identityForBlock a id b)) = al_base a + 4 * b + 2.
Proof.
  intros (Hc & _ & Hb & Hm) Hr. unfold identityForBlock, uint32. simpl.
  rewrite (Z.mod_small (al_base a + 4 * b)), Z.mod_small by lia. apply num_uint32ToIP. lia.
Qed.

Lemma block_host a id b :
  in_range a → 0 ≤ b < al_count a → num (id_HostIP (identityForBlock a id b)) = al_base a + 4 * b + 1.
Proof.
  intros (Hc & _ & Hb & Hm) Hr. unfold identityForBlock, uint32. simpl.
  rewrite (Z.mod_small (al_base a + 4 * b)), Z.mod_small by lia. apply num_uint32ToIP. lia.
Qed.

(** Marking a recorded identity takes the block it was derived from. *)
Lemma MarkInUse_block id b a :
  in_range a → 0 ≤ b < al_count a → al_byID a !! id = None →
  MarkInUse id (identityForBlock a id b) a =
  (Ok tt, take_block a id b (al_next a) (identityForBlock a id b)).
Proof.
  intros Hr Hb Hid. pose proof Hr as (Hc & _ & Hbase & Hm). unfold MarkInUse.
  assert (is_ip4 (id_GuestIP (identityForBlock a id b))) as H4 by apply uint32ToIP_ip4.
  rewrite (ip4_To4 _ H4), ipToUint32_num, block_guest by done.
  rewrite bool_decide_eq_false_2 by (destruct H4 as [Hl _]; intros Heq; by rewrite Heq in Hl).
  unfold uint32. rewrite (Z.mod_small (al_base a + 2)) by lia.
  rewrite (proj2 (Z.ltb_ge _ _)) by lia.
  replace (al_base a + 4 * b + 2 - al_base a) with (4 * b + 2) by lia.
  rewrite (Z.mod_small (4 * b + 2)), Z.add_simpl_r, (Z.mod_small (4 * b)) by lia.
  rewrite (Z.mul_comm 4), Z.mod_mul, Z.div_mul by lia. simpl.
  rewrite (proj2 (Z.leb_gt _ _)) by lia. by rewrite Hid.
Qed.

(** ** A new allocator *)

Lemma land_le_r x m : 0 ≤ x → 0 ≤ m → 0 ≤ Z.land x m ≤ m.
Proof.
  intros Hx Hm. split; [by apply Z.land_nonneg; left|].
  assert (m - Z.land x m = Z.ldiff m (Z.land x m)) as Heq.
  { apply Z.sub_nocarry_ldiff. apply Z.bits_inj'. intros n Hn. rewrite Z.ldiff_spec, Z.land_spec, Z.bits_0.
    by destruct (Z.testbit x n), (Z.testbit m n). }
  pose proof (proj2 (Z.ldiff_nonneg m (Z.land x m))). lia.
Qed.

Lemma scan_digits_digits s d r :
  scan_digits s = (d, r) → Forall (λ c, 48 ≤ byte_of c ≤ 57) (String.list_ascii_of_string d).
Proof.
  revert d r. induction s as [|c s IH]; simpl; intros d r; [by intros [= <- _]; constructor|].
  destruct (is_digit c) eqn:E; [|by intros [= <- _]; constructor].
  destruct (scan_digits s) as [d' r']. intros [= <- <-]. simpl. constructor; [|by eapply IH].
  unfold is_digit in E. apply andb_true_iff in E as [E1 E2]. lia.
Qed.

Lemma foldl_digits_nonneg l acc :
  Forall (λ c, 48 ≤ byte_of c ≤ 57) l → 0 ≤ acc → 0 ≤ foldl (λ acc c, 10 * acc + (byte_of c - 48)) acc l.
Proof. intros Hl. revert acc. induction Hl; simpl; intros acc Ha; [done|]. apply IHHl. lia. Qed.

Lemma parse_octet_range s v : parse_octet s = Some v → 0 ≤ v < 256.
Proof.
  unfold parse_octet. destruct (scan_digits s) as [digits rest] eqn:E. apply scan_digits_digits in E.
  apply (foldl_digits_nonneg _ 0) in E; [|lia]. case_match; [done|]. case_match eqn:Ev; [|done].
  intros [= <-]. lia.
Qed.

Lemma parse4_ip4 s ip : parse4 s = Some ip → is_ip4 ip.
Proof.
  unfold parse4. case_match eqn:El; [|done]. apply Nat.eqb_eq in El. intros H%mapM_Some. split.
  - by rewrite <- (Forall2_length _ _ _ H).
  - eapply Forall2_Forall_r in H; [exact H|]. apply Forall_forall. intros f _ v Hv. by apply (parse_octet_range f).
Qed.

Lemma parse6_length s ip : parse6 s = Some ip → length ip = 16%nat.
Proof.
  unfold parse6. destruct (match s with String ":" _ => _ | _ => _ end) as [el s'].
  case_match; [by intros [= <-]|]. destruct (parse6_loop 8 [] el s') as [[ip' [e|]]|]; simpl; [..|done].
  - case_match eqn:El; [|done]. apply Nat.ltb_lt in El. intros [= <-].
    rewrite !length_app, length_replicate, length_take, length_drop. lia.
  - case_match eqn:El; [|done]. apply Nat.eqb_eq in El. by intros [= <-].
Qed.

Lemma parse_addr_shape s ip : parse_addr s = Some ip → is_ip4 ip ∨ length ip = 16%nat.
Proof.
  unfold parse_addr. intros H.
  assert (parse4 s = Some ip ∨ parse6 s = Some ip) as [?%parse4_ip4|?%parse6_length]; [|by left|by right].
  repeat case_match; simplify_eq; auto.
Qed.

Lemma mask_length_CIDR n : 0 ≤ n ≤ 32 → mask_length (CIDRMask n 32) = Some n ∧ num (CIDRMask n 32) = 2 ^ 32 - 2 ^ (32 - n).
Proof.
  intros Hn. assert (n ∈ seqZ 0 33) as Hin by (apply elem_of_seqZ; lia). revert n Hn Hin.
  assert (Forall (λ n, mask_length (CIDRMask n 32) = Some n ∧ num (CIDRMask n 32) = 2 ^ 32 - 2 ^ (32 - n)) (seqZ 0 33)) as Hall.
  { by_eval. }
  intros n _ Hin. by apply (proj1 (Forall_forall _ _) Hall).
Qed.

Lemma mask_nonneg n i : 0 ≤ mask_byte n i.
Proof.
  unfold mask_byte. rewrite Z.shiftl_mul_pow2 by lia.
  assert (2 ^ (8 - Z.max 0 (Z.min 8 (n - 8 * Z.of_nat i))) ≤ 2 ^ 8); [|lia]. apply Z.pow_le_mono_r; lia.
Qed.

(** The network of a parsed prefix with a mask of 32 bits. *)
Lemma ParseCIDR_v4 s ip n :
  ParseCIDR s = Some (ip, n) → length (net_Mask n) = 4%nat →
  ∃ ip4 ones, is_ip4 ip4 ∧ 0 ≤ ones ≤ 32 ∧ net_Mask n = CIDRMask ones 32 ∧ net_IP n = zip_with Z.land ip4 (CIDRMask ones 32).
Proof.
  unfold ParseCIDR. destruct (Cut s "/") as [[addr mask]|]; [|done]. simpl.
  destruct (parse_addr addr) as [a|] eqn:Ea; [|done]. simpl.
  destruct (parse_prefix mask) as [ones|] eqn:Ep; [|done]. simpl. case_match eqn:El; [|done]. intros [= <- <-] Hm. simpl in Hm.
  assert (length a = 4%nat) as Hl.
  { apply parse_addr_shape in Ea as [[? _]|Ea]; [done|]. rewrite Ea in Hm. done. }
  assert (is_ip4 a) as H4 by (apply parse_addr_shape in Ea as [?|?]; [done|congruence]). rewrite Hl in *.
  change (8 * Z.of_nat 4) with 32 in *. exists a, ones. split_and!; [done| |lia|done|].
  - unfold parse_prefix in Ep. destruct (scan_digits mask) as [d r] eqn:E. apply scan_digits_digits in E.
    apply (foldl_digits_nonneg _ 0) in E; [|lia]. case_match; [done|]. case_match; [|done]. by simplify_eq.
  - destruct (is_ip4_inv _ H4) as (x & y & z & w & -> & _). done.
Qed.

Lemma masked_num ip4 ones :
  is_ip4 ip4 → 0 ≤ ones ≤ 32 →
  let ip := zip_with Z.land ip4 (CIDRMask ones 32) in is_ip4 ip ∧ 0 ≤ num ip ≤ 2 ^ 32 - 2 ^ (32 - ones).
Proof.
  intros H Ho. destruct (mask_length_CIDR ones Ho) as [_ <-].
  destruct (is_ip4_inv _ H) as (x & y & z & w & -> & Hx & Hy & Hz & Hw).
  unfold CIDRMask. change (seq 0 (Z.to_nat (32 / 8))) with [0; 1; 2; 3]%nat. cbn [fmap list_fmap zip_with].
  pose proof (land_le_r x (mask_byte ones 0) (proj1 Hx) (mask_nonneg _ _)).
  pose proof (land_le_r y (mask_byte ones 1) (proj1 Hy) (mask_nonneg _ _)).
  pose proof (land_le_r z (mask_byte ones 2) (proj1 Hz) (mask_nonneg _ _)).
  pose proof (land_le_r w (mask_byte ones 3) (proj1 Hw) (mask_nonneg _ _)).
  assert (∀ i, mask_byte ones i < 256) as Hlt.
  { intros i. unfold mask_byte. rewrite Z.shiftl_mul_pow2 by lia.
    pose proof (Z.pow_pos_nonneg 2 (8 - Z.max 0 (Z.min 8 (ones - 8 * Z.of_nat i)))). lia. }
  pose proof (Hlt 0%nat). pose proof (Hlt 1%nat). pose proof (Hlt 2%nat). pose proof (Hlt 3%nat).
  split; [split; [done|]; repeat (apply Forall_cons_2; [lia|]); constructor|].
  unfold num, byte_at. cbn [lookup list_lookup]. simpl. lia.
Qed.

Lemma NewAllocator_ok cidr p a :
  NewAllocator cidr p = Ok a →
  alloc_ok a ∧ al_cidr a = cidr ∧ al_prefix a = p ∧ al_byID a = ∅ ∧ al_inUse a = ∅ ∧ al_idIndex a = ∅.
Proof.
  unfold NewAllocator. destruct (ParseCIDR cidr) as [[ip n]|] eqn:Ep; [|done]. case_match; [done|].
  unfold mask_size. destruct (mask_length (net_Mask n)) as [ones|] eqn:Em; [|done].
  destruct (Z.eqb_spec (8 * Z.of_nat (length (net_Mask n))) 32) as [Hl|]; simpl; [|done].
  destruct (Z.ltb_spec 30 ones); [done|]. case_match; [done|]. case_match; [done|]. intros [= <-]. simpl.
  destruct (ParseCIDR_v4 _ _ _ Ep) as (ip4 & o & H4 & Ho & Hm & Hip); [lia|].
  rewrite Hm in Em. rewrite (proj1 (mask_length_CIDR o Ho)) in Em. injection Em as ->.
  destruct (masked_num ip4 ones H4 Ho) as [Hi Hn]. rewrite <- Hip in Hi, Hn.
  split; [|done]. split; simpl; [|by intros ?? ?%lookup_empty_Some|by intros ? [? ?%lookup_empty_Some]| |by intros ??? ?%lookup_empty_Some].
  - unfold in_range. simpl. rewrite (ip4_To4 _ Hi), ipToUint32_num by done. unfold uint32.
    rewrite Z.shiftl_mul_pow2, Z.mul_1_l by lia.
    pose proof (Z.pow_pos_nonneg 2 (30 - ones)). pose proof (Z.pow_le_mono_r 2 (30 - ones) 30).
    assert (2 ^ (32 - ones) = 4 * 2 ^ (30 - ones)) as Hp.
    { replace (32 - ones) with (2 + (30 - ones)) by lia. rewrite Z.pow_add_r by lia. done. }
    rewrite Z.mod_small by lia. lia.
  - intros b. split; [by intros ?%elem_of_empty|]. by intros [? ?%lookup_empty_Some].
Qed.

(** Different sandboxes hold blocks of four addresses that do not overlap. *)
Definition apart (i1 i2 : Identity) : Prop := 4 ≤ Z.abs (num (id_GuestIP i1) - num (id_GuestIP i2)).

(** The two addresses of an identity are the middle ones of a block of the subnet. *)
Definition in_subnet (a : Allocator) (i : Identity) : Prop :=
  num (id_GuestIP i) = num (id_HostIP i) + 1 ∧
  al_base a < num (id_HostIP i) ∧ num (id_GuestIP i) < al_base a + 4 * al_count a - 1.

Lemma held_blocks a id i :
  alloc_ok a → al_byID a !! id = Some i →
  ∃ b, al_idIndex a !! id = Some b ∧ 0 ≤ b < al_count a ∧ i = identityForBlock a id b.
Proof.
  intros Ha Hi. destruct (ok_byID a Ha id) as [b Hb]; [by exists i|].
  destruct (ok_index a Ha _ _ Hb) as [? Hi']. exists b. simplify_eq. done.
Qed.

Lemma alloc_apart a id1 id2 i1 i2 :
  alloc_ok a → al_byID a !! id1 = Some i1 → al_byID a !! id2 = Some i2 → id1 ≠ id2 → apart i1 i2.
Proof.
  intros Ha H1 H2 Hne. destruct (held_blocks _ _ _ Ha H1) as (b1 & E1 & R1 & ->).
  destruct (held_blocks _ _ _ Ha H2) as (b2 & E2 & R2 & ->). unfold apart.
  rewrite !block_guest by (done || apply Ha). assert (b1 ≠ b2); [|lia]. intros ->. apply Hne.
  by eapply (ok_inj a Ha).
Qed.

Lemma alloc_in_subnet a id i : alloc_ok a → al_byID a !! id = Some i → in_subnet a i.
Proof.
  intros Ha H. destruct (held_blocks _ _ _ Ha H) as (b & E & R & ->). unfold in_subnet.
  rewrite !block_guest, !block_host by (done || apply Ha). lia.
Qed.

(** An acquisition: the identity that is there, a new one in a free block, or no block is
    free. *)
Lemma Acquire_spec a id :
  alloc_ok a →
  match Acquire id a with
  | (Ok i, a') =>
      al_byID a' = <[id := i]> (al_byID a) ∧ (is_Some (al_byID a !! id) → a' = a)
  | (Err e, a') =>
      e = ErrSubnetExhausted ∧ a' = a ∧ al_byID a !! id = None ∧
      ∀ b, 0 ≤ b < al_count a → ∃ id', is_Some (al_byID a !! id') ∧ al_idIndex a !! id' = Some b
  end.
Proof.
  intros Ha. unfold Acquire. destruct (al_byID a !! id) as [i|] eqn:E; [by rewrite insert_id|].
  pose proof (acquire_loop_spec a (ok_range a Ha)) as Hl. destruct (acquire_loop _ a 0) as [b|].
  - split; [done|]. by intros [? ?].
  - split_and!; [done..|]. intros b Hb. destruct (proj1 (ok_inUse a Ha b) (Hl b Hb)) as [id' E']. exists id'.
    split; [|done]. destruct (ok_index a Ha _ _ E') as [_ ?]. by eexists.
Qed.

End NetconfTheorems.
