(* ===== verification/Allowlist.v ===== *)
(** * internal/netconf and internal/dnsproxy: allowlists

    The parsing of egress allowlists (nftables.go and netpolicy.go) and the registry of the
    DNS proxy (registry.go).  An entry is [host:port]; the host is an IPv4 address, a name
    or a wildcard [*.D].  Errors are without their texts; the ports of a name are a set. *)

From Stdlib Require Import Ascii.
From S2P Require Import Prelude Sha256 Json GoStrings GoNet.
Import Sha256 Json GoStrings GoNet.

Module Allowlist.

(** ** Entries *)

Record HostPort := { hp_IP : IP; hp_Port : Z }.

Inductive allow_error := ErrEntry | ErrHost | ErrPort | ErrNotIPv4 | ErrName | ErrCIDR.

(** The host and the port of an entry. *)
Definition split_entry (s : string) : result allow_error (string * Z) :=
  match SplitHostPort s with
  | None => Err ErrEntry
  | Some (host, portStr) =>
      if bool_decide (host = "") then Err ErrHost
      else match Atoi portStr with
           | None => Err ErrPort
           | Some port => if (port <? 1) || (65535 <? port) then Err ErrPort else Ok (host, port)
           end
  end.

(** [None] is a name. *)
Definition ParseAllowEntry (s : string) : result allow_error (option HostPort) :=
  let? (host, port) := split_entry s in
  match ParseIP host with
  | None => Ok None
  | Some ip => if is4 ip then Ok (Some {| hp_IP := To4 ip; hp_Port := port |}) else Err ErrNotIPv4
  end.

(** The addresses and the names of an allowlist. *)
Fixpoint SplitAllowList (entries : list string) : result allow_error (list HostPort * list string) :=
  match entries with
  | [] => Ok ([], [])
  | e :: entries' =>
      let? hp := ParseAllowEntry e in
      let? (enforceable, skipped) := SplitAllowList entries' in
      Ok (match hp with Some hp => (hp :: enforceable, skipped) | None => (enforceable, e :: skipped) end)
  end.

Definition isValidLabel (label : string) : bool :=
  let ok c := let n := byte_of c in
    ((97 <=? n) && (n <=? 122)) || ((65 <=? n) && (n <=? 90)) || ((48 <=? n) && (n <=? 57)) || (n =? 45) in
  negb (bool_decide (label = "") || (63 <? String.length label)%nat) &&
  negb (HasPrefix label "-" || HasSuffix label "-") &&
  forallb ok (String.list_ascii_of_string label).

Definition isValidDomain (s : string) : bool :=
  if bool_decide (s = "") then false
  else
    let labels := Split s "." in
    if (length labels <? 2)%nat then false else forallb isValidLabel labels.

Definition validateNameAllowEntry (host : string) : bool :=
  let name := TrimSuffix host "." in
  if bool_decide (name = "") then false
  else if HasPrefix name "*." then
    let domain := TrimPrefix name "*." in negb (contains_char domain "*") && isValidDomain domain
  else negb (contains_char name "*") && isValidDomain name.

Definition ParseCIDRList `{!Unicode} (entries : list string) : result allow_error (list IPNet * list IPNet) :=
  let fix parse (es : list string) (v4 v6 : list IPNet) :=
    match es with
    | [] => Ok (v4, v6)
    | e :: es' =>
        match ParseCIDR (TrimSpace e) with
        | None => Err ErrCIDR
        | Some (_, n) => if is4 (net_IP n) then parse es' (v4 ++ [n]) v6 else parse es' v4 (v6 ++ [n])
        end
    end in
  parse entries [] [].

(** [ParseCIDRList] where the error is ignored. *)
Definition cidrs_or_none (r : result allow_error (list IPNet * list IPNet)) : list IPNet * list IPNet :=
  match r with Ok p => p | Err _ => ([], []) end.

Section names.
Context `{!Unicode, !SliceSort, !MapRange}.

(** The names so far and their ports, in the order of the entries. *)
Fixpoint name_entries (entries : list string) (names : gmap string (list Z)) : result allow_error (gmap string (list Z)) :=
  match entries with
  | [] => Ok names
  | e :: entries' =>
      let? (host, port) := split_entry e in
      match ParseIP host with
      | Some _ => name_entries entries' names
      | None =>
          if negb (validateNameAllowEntry host) then Err ErrName
          else
            let key := ToLower (TrimSuffix host ".") in
            let ports := default [] (names !! key) in
            name_entries entries' (if bool_decide (port ∈ ports) then names else <[key := ports ++ [port]]> names)
      end
  end.

Definition ParseNameAllowList (entries : list string) : result allow_error (gmap string (list Z)) :=
  let? names := name_entries entries ∅ in Ok (sort_slice Z.ltb <$> names).

(** ** The registry *)

(** The allowlists of the guests, by the text of their address: names to sets of ports. *)
Definition Registry : Type := gmap string (gmap string (gset Z)).

Definition NewRegistry : Registry := ∅.

Definition canonicalName (name : string) : string := TrimSuffix (ToLower name) ".".

Definition Register (guestIP : IP) (names : gmap string (list Z)) (r : Registry) : Registry :=
  let al := foldl (λ al '(name, ports), <[canonicalName name := list_to_set ports]> al) ∅ (map_range "Register" names) in
  <[IP_String guestIP := al]> r.

Definition Deregister (guestIP : IP) (r : Registry) : Registry := delete (IP_String guestIP) r.

Definition nameMatchesEntry (query entry : string) : bool :=
  match CutPrefix entry "*." with
  | None => bool_decide (query = entry)
  | Some suffix =>
      match CutSuffix query ("." +:+ suffix) with
      | None => false
      | Some label => negb (bool_decide (label = ""))
      end
  end.

(** The ports are in the order of a map range. *)
Definition Lookup (guestIP : IP) (name : string) (r : Registry) : option (list Z) :=
  let key := canonicalName name in
  if bool_decide (key = "") then None
  else match r !! IP_String guestIP with
       | None => None
       | Some al =>
           let matched := filter (λ e, nameMatchesEntry key e.1 = true) (map_range "Lookup" al) in
           match matched with
           | [] => None
           | _ => Some (map_range "Lookup.union" (gset_to_gmap true (⋃ matched.*2))).*1
           end
       end.

End names.

End Allowlist.
