(* ===== verification/AllowlistTheorems.v ===== *)
(** * Name allowlists: theorems

    An allowlist that is parsed and registered opens exactly what its entries say. *)

From Stdlib Require Import Ascii.
From S2P Require Import Prelude Sha256 Json GoStrings GoNet Allowlist.
Import Sha256 Json GoStrings GoStringsTheorems GoNet Allowlist.

Module AllowlistTheorems.

(** ** Domains *)

(** The characters of a domain or of [*.D]. *)
Definition name_char (c : ascii) : Prop := byte_of c < 128.

Lemma isValidLabel_chars l c : isValidLabel l = true → c ∈ chars l → name_char c.
Proof.
  unfold isValidLabel. rewrite !andb_true_iff. intros [_ H] Hc. rewrite forallb_forall in H. apply list_elem_of_In in Hc.
  specialize (H c Hc). unfold name_char. rewrite !orb_true_iff, !andb_true_iff, !Z.leb_le, Z.eqb_eq in H. lia.
Qed.

Lemma isValidDomain_spec s :
  isValidDomain s = true → s ≠ "" ∧ Forall name_char (chars s) ∧ ∀ t, s ≠ t +:+ ".".
Proof.
  unfold isValidDomain. case_bool_decide as Hs; [done|]. destruct (_ <? 2)%nat; [done|]. rewrite forallb_forall. intros H.
  split_and!; [done| |].
  - apply Forall_forall. intros c Hc. destruct (Split_chars s "." c Hc) as [->|(l & Hl & Hcl)]; [by vm_compute|].
    eapply isValidLabel_chars; [|exact Hcl]. by apply H, list_elem_of_In.
  - intros t ->. specialize (H ""). rewrite Split_trailing in H.
    assert (isValidLabel "" = true) as Hl; [|done]. apply H, list_elem_of_In, elem_of_app. right. apply list_elem_of_here.
Qed.

Lemma validate_spec host :
  validateNameAllowEntry host = true →
  Forall name_char (chars (TrimSuffix host ".")) ∧ ∀ t, TrimSuffix host "." ≠ t +:+ ".".
Proof.
  unfold validateNameAllowEntry. set (name := TrimSuffix host "."). case_bool_decide as Hn; [done|].
  destruct (HasPrefix name "*.") eqn:Ep; [|by intros [_ (_ & ? & ?)%isValidDomain_spec]%andb_true_iff].
  unfold HasPrefix in Ep. apply prefix_spec in Ep as [d Hd]. unfold TrimPrefix.
  rewrite (proj2 (strip_prefix_spec "*." name d) Hd). simpl. intros [_ (Hd0 & Hf & Ht)%isValidDomain_spec]%andb_true_iff.
  rewrite Hd, chars_app. split; [apply Forall_app; split; [by repeat constructor|done]|].
  intros t Heq. destruct t as [|c1 [|c2 t]]; [done| |].
  - injection Heq as _ Heq. done.
  - injection Heq as _ _ Heq. by apply (Ht t).
Qed.

(** ** What matches *)

(** A name matches itself, and [*.D] what has at least one label before [.D]. *)
Lemma nameMatchesEntry_spec q e :
  nameMatchesEntry q e = true ↔
  ((∀ d, e ≠ "*." +:+ d) ∧ q = e) ∨ ∃ d l, e = "*." +:+ d ∧ l ≠ "" ∧ q = l +:+ "." +:+ d.
Proof.
  unfold nameMatchesEntry, CutPrefix. destruct (strip_prefix "*." e) as [d|] eqn:Ep.
  - apply strip_prefix_spec in Ep. destruct (CutSuffix q ("." +:+ d)) as [l|] eqn:Ec.
    + apply CutSuffix_spec in Ec. rewrite negb_true_iff, bool_decide_eq_false. split.
      * intros Hl. right. by exists d, l.
      * intros [[Hn _]|(d' & l' & He & Hl' & Hq)]; [by destruct (Hn d)|]. subst e.
        apply str_app_inj_l in He. subst d'. rewrite Ec in Hq. apply (f_equal chars) in Hq. rewrite !chars_app in Hq.
        apply app_inv_tail, chars_inj in Hq. by subst.
    + split; [done|]. intros [[Hn _]|(d' & l' & He & Hl' & Hq)]; [by destruct (Hn d)|]. rewrite Ep in He.
      apply str_app_inj_l in He. subst d'. apply (CutSuffix_spec q ("." +:+ d) l') in Hq. congruence.
  - rewrite bool_decide_eq_true. split.
    + intros ->. left. split; [|done]. intros d He%strip_prefix_spec. congruence.
    + intros [[_ ?]|(d & l & He%strip_prefix_spec & _)]; [done|congruence].
Qed.

Section names.
Context {unicode : Unicode} {sliceSort : SliceSort} {mapRange : MapRange}.

(** The name of an entry, as it is kept. *)
Definition key_of (host : string) : string := ToLower (TrimSuffix host ".").

(** Entry [e] is for the name [k] and the port. *)
Definition opens (e k : string) (port : Z) : Prop :=
  ∃ host, split_entry e = Ok (host, port) ∧ ParseIP host = None ∧ validateNameAllowEntry host = true ∧ k = key_of host.

Definition holds (names : gmap string (list Z)) (k : string) (port : Z) : Prop := ∃ ports, names !! k = Some ports ∧ port ∈ ports.

Lemma holds_default names k port : holds names k port ↔ port ∈ default [] (names !! k).
Proof.
  unfold holds. destruct (names !! k) as [ports|]; simpl; [|rewrite elem_of_nil; naive_solver].
  split; [by intros (? & [= <-] & ?)|by exists ports].
Qed.

Lemma name_entries_holds entries names names' k port :
  name_entries entries names = Ok names' →
  holds names' k port ↔ holds names k port ∨ ∃ e, e ∈ entries ∧ opens e k port.
Proof.
  revert names. induction entries as [|e entries IH]; simpl; intros names.
  - intros [= <-]. split; [by left|]. intros [|(e & ?%elem_of_nil & _)]; done.
  - destruct (split_entry e) as [[host p]|] eqn:Es; simpl; [|done]. destruct (ParseIP host) as [ip|] eqn:Ei.
    + intros H. rewrite (IH _ H). apply or_iff_compat_l. split.
      * intros (e' & Hin & Ho). exists e'. split; [by apply list_elem_of_further|done].
      * intros (e' & [->|Hin]%elem_of_cons & Ho); [|by exists e'].
        destruct Ho as (h & Es' & Ei' & _). rewrite Es in Es'. injection Es' as -> _. congruence.
    + destruct (validateNameAllowEntry host) eqn:Ev; simpl; [|done]. fold (key_of host). intros H. rewrite (IH _ H).
      assert (holds (if bool_decide (p ∈ default [] (names !! key_of host)) then names
                     else <[key_of host := default [] (names !! key_of host) ++ [p]]> names) k port ↔
              holds names k port ∨ (k = key_of host ∧ port = p)) as ->.
      { rewrite !holds_default. case_bool_decide as Hp; [naive_solver|]. destruct (decide (k = key_of host)) as [->|Hne].
        - rewrite lookup_insert_eq. simpl. rewrite elem_of_app, list_elem_of_singleton. naive_solver.
        - rewrite lookup_insert_ne by done. naive_solver. }
      split.
      * intros [[Hh|[-> ->]]|(e' & Hin & Ho)]; [by left|right; exists e; split; [apply list_elem_of_here|by exists host]|].
        right. exists e'. split; [by apply list_elem_of_further|done].
      * intros [Hh|(e' & [->|Hin]%elem_of_cons & Ho)]; [by left; left| |right; by exists e'].
        destruct Ho as (h & Es' & _ & _ & ->). rewrite Es in Es'. injection Es' as -> ->. left. by right.
Qed.

(** ** Keys *)

Lemma lower_lower c : lower (lower c) = lower c.
Proof. destruct c as [[] [] [] [] [] [] [] []]; reflexivity. Qed.

Lemma lower_small c : name_char c → name_char (lower c).
Proof. unfold name_char. destruct c as [[] [] [] [] [] [] [] []]; vm_compute; done. Qed.

Lemma lower_dot c : lower c = "."%char → c = "."%char.
Proof. destruct c as [[] [] [] [] [] [] [] []]; vm_compute; done. Qed.

Lemma chars_lower s : chars (ascii_lower s) = lower <$> chars s.
Proof. induction s as [|c s IH]; simpl; [done|]. by rewrite IH. Qed.

Lemma ascii_name s : Forall name_char (chars s) → ascii_only s = true.
Proof.
  intros H. unfold ascii_only. rewrite all_chars_chars, forallb_forall. intros c Hc%list_elem_of_In.
  rewrite Forall_forall in H. apply Z.ltb_lt, (H c Hc).
Qed.

Lemma key_canonical host : validateNameAllowEntry host = true → canonicalName (key_of host) = key_of host.
Proof.
  intros [Hf Ht]%validate_spec. unfold key_of, canonicalName. set (n := TrimSuffix host ".") in *.
  rewrite (ToLower_ascii n) by by apply ascii_name.
  assert (Forall name_char (chars (ascii_lower n))) as Hf'.
  { rewrite chars_lower. apply Forall_fmap. eapply Forall_impl; [exact Hf|]. apply lower_small. }
  rewrite ToLower_ascii by by apply ascii_name.
  assert (ascii_lower (ascii_lower n) = ascii_lower n) as ->.
  { apply chars_inj. rewrite !chars_lower, <- list_fmap_compose. apply list_fmap_ext. intros ? c ?. apply lower_lower. }
  unfold TrimSuffix. destruct (CutSuffix (ascii_lower n) ".") as [t|] eqn:E; [|done].
  apply CutSuffix_spec in E. exfalso. apply (f_equal chars) in E. rewrite chars_lower, chars_app in E.
  apply fmap_app_inv in E as (l1 & l2 & _ & H2 & Hn). destruct l2 as [|c [|]]; try done. injection H2 as Hc.
  symmetry in Hc. apply lower_dot in Hc as ->. apply (Ht (String.string_of_list_ascii l1)). apply chars_inj.
  by rewrite chars_app, String.list_ascii_of_string_of_list_ascii.
Qed.

Lemma name_entries_keys entries names names' k :
  name_entries entries names = Ok names' → is_Some (names' !! k) →
  is_Some (names !! k) ∨ canonicalName k = k.
Proof.
  revert names. induction entries as [|e entries IH]; simpl; intros names; [intros [= <-]; by left|].
  destruct (split_entry e) as [[host p]|]; simpl; [|done]. destruct (ParseIP host); [by apply IH|].
  destruct (validateNameAllowEntry host) eqn:Ev; simpl; [|done]. fold (key_of host). intros H Hk.
  destruct (IH _ H Hk) as [Hk'|]; [|by right]. case_bool_decide; [by left|].
  destruct (decide (k = key_of host)) as [->|Hne]; [right; by apply key_canonical|]. rewrite lookup_insert_ne in Hk' by done. by left.
Qed.

(** ** The registry *)

Lemma foldl_insert_lookup (l : list (string * list Z)) (al : gmap string (gset Z)) k :
  NoDup l.*1 → (∀ kv, kv ∈ l → canonicalName kv.1 = kv.1) →
  foldl (λ al '(name, ports), <[canonicalName name := list_to_set ports]> al) al l !! k =
  match list_to_map (M := gmap string (list Z)) l !! k with Some ports => Some (list_to_set ports) | None => al !! k end.
Proof.
  revert al. induction l as [|[n ps] l IH]; intros al Hnd Hc; [done|]. cbn [foldl]. rewrite IH.
  - apply NoDup_cons in Hnd as [Hn _]. assert (canonicalName n = n) as -> by (apply (Hc (n, ps)), list_elem_of_here).
    rewrite list_to_map_cons. destruct (decide (k = n)) as [->|Hne].
    + rewrite not_elem_of_list_to_map_1 by done. by rewrite !lookup_insert_eq.
    + by rewrite !lookup_insert_ne by done.
  - by apply NoDup_cons in Hnd as [_ Hnd].
  - intros kv Hkv. apply Hc. by apply list_elem_of_further.
Qed.

Lemma Register_lookup guestIP names r :
  (∀ k, is_Some (names !! k) → canonicalName k = k) →
  Register guestIP names r !! IP_String guestIP = Some (list_to_set (C := gset Z) <$> names).
Proof.
  intros Hk. unfold Register. etransitivity; [apply lookup_insert_eq|]. f_equal. apply map_eq. intros k.
  rewrite foldl_insert_lookup, lookup_fmap, lookup_empty.
  - assert (list_to_map (M := gmap string (list Z)) (map_range "Register" names) = names) as ->; [|by destruct (names !! k)].
    rewrite (list_to_map_proper _ (map_to_list names)); [apply list_to_map_to_list| |apply map_range_perm]. apply NoDup_map_range.
  - apply NoDup_map_range.
  - intros [k' ps] Hin. apply elem_of_map_range in Hin. apply Hk. by exists ps.
Qed.

Lemma Lookup_ports guestIP name r port :
  (∃ ports, Lookup guestIP name r = Some ports ∧ port ∈ ports) ↔
  canonicalName name ≠ "" ∧ ∃ al e ps, r !! IP_String guestIP = Some al ∧ al !! e = Some ps ∧ port ∈ ps ∧
    nameMatchesEntry (canonicalName name) e = true.
Proof.
  unfold Lookup. case_bool_decide as Hn; [naive_solver|].
  destruct (r !! IP_String guestIP) as [al|]; [|naive_solver].
  set (matched := filter _ _).
  assert (∀ p, p ∈ ⋃ matched.*2 ↔ ∃ e ps, al !! e = Some ps ∧ p ∈ ps ∧ nameMatchesEntry (canonicalName name) e = true) as Hu.
  { intros p. rewrite elem_of_union_list. split.
    - intros (X & ([e ps] & -> & [Hm Hin]%list_elem_of_filter)%list_elem_of_fmap & Hp). exists e, ps. by apply elem_of_map_range in Hin.
    - intros (e & ps & He & Hp & Hm). exists ps. split; [|done]. apply list_elem_of_fmap. exists (e, ps). split; [done|].
      apply list_elem_of_filter. split; [done|]. by apply elem_of_map_range. }
  assert (∀ p, p ∈ (map_range "Lookup.union" (gset_to_gmap true (⋃ matched.*2))).*1 ↔ p ∈ ⋃ matched.*2) as Hr.
  { intros p. rewrite list_elem_of_fmap. split.
    - intros ([p' b] & -> & Hin). apply elem_of_map_range, lookup_gset_to_gmap_Some in Hin. tauto.
    - intros Hp. exists (p, true). split; [done|]. apply elem_of_map_range, lookup_gset_to_gmap_Some. done. }
  split.
  - intros (ports & Hl & Hp). split; [done|]. destruct matched eqn:Em; [done|]. rewrite <- Em in *. injection Hl as <-.
    apply Hr, Hu in Hp as (e & ps & ?). exists al, e, ps. tauto.
  - intros (_ & al' & e & ps & [= <-] & He & Hp & Hm).
    assert (port ∈ ⋃ matched.*2) as Hin by (apply Hu; by exists e, ps). eexists. split; [|by apply Hr].
    destruct matched as [|x l]; [|done]. simpl in Hin. by apply elem_of_empty in Hin.
Qed.

(** C27: a name allowlist means what its entries say: after it is parsed and registered for a
    guest, the DNS proxy opens a port of a name to that guest exactly when some entry
    [host:port] of the text has that port and a host that is the name, up to case and a
    final dot, or is [*.D] with the name at least one label below [D]. *)
Theorem allowlist_exact entries names guestIP name r port :
  ParseNameAllowList entries = Ok names →
  (∃ ports, Lookup guestIP name (Register guestIP names r) = Some ports ∧ port ∈ ports) ↔
  canonicalName name ≠ "" ∧
  ∃ e host, e ∈ entries ∧ split_entry e = Ok (host, port) ∧ ParseIP host = None ∧ validateNameAllowEntry host = true ∧
    (((∀ d, key_of host ≠ "*." +:+ d) ∧ canonicalName name = key_of host) ∨
     ∃ d l, key_of host = "*." +:+ d ∧ l ≠ "" ∧ canonicalName name = l +:+ "." +:+ d).
Proof.
  unfold ParseNameAllowList. destruct (name_entries entries ∅) as [names0|] eqn:En; simpl; [|done]. intros [= <-].
  rewrite Lookup_ports. apply and_iff_compat_l. setoid_rewrite <- nameMatchesEntry_spec.
  assert (∀ k, holds names0 k port ↔ ∃ e, e ∈ entries ∧ opens e k port) as Hh.
  { intros k. rewrite (name_entries_holds _ _ _ _ _ En). unfold holds. setoid_rewrite lookup_empty. naive_solver. }
  rewrite Register_lookup.
  2:{ intros k Hk. rewrite lookup_fmap, fmap_is_Some in Hk. destruct (name_entries_keys _ _ _ _ En Hk) as [[? ?]|]; [|done].
      by rewrite lookup_empty in *. }
  split.
  - intros (al & k & ps & [= <-] & Hk & Hp & Hm). rewrite lookup_fmap, lookup_fmap in Hk.
    destruct (names0 !! k) as [ports|] eqn:Ek; simpl in Hk; [|done]. injection Hk as <-.
    rewrite elem_of_list_to_set, sort_slice_perm in Hp.
    destruct (proj1 (Hh k)) as (e & He & host & Hs & Hi & Hv & ->); [by exists ports|]. by exists e, host.
  - intros (e & host & He & Hs & Hi & Hv & Hm).
    destruct (proj2 (Hh (key_of host))) as (ports & Hk & Hp); [exists e; split; [done|]; by exists host|].
    eexists _, (key_of host), (list_to_set (sort_slice Z.ltb ports)). split; [done|]. split_and!; [| |done].
    + by rewrite !lookup_fmap, Hk.
    + by rewrite elem_of_list_to_set, sort_slice_perm.
Qed.

End names.

Lemma allowlist_exact_witness :
  (∃ ports, Lookup [10; 200; 0; 2] "API.Example.com." (Register [10; 200; 0; 2]
      {[ "*.example.com" := [443] ]} NewRegistry) = Some ports ∧ 443 ∈ ports).
Proof.
  apply (allowlist_exact ["*.Example.com:443"; "10.0.0.1:80"] {[ "*.example.com" := [443] ]} [10; 200; 0; 2]
    "API.Example.com." NewRegistry 443); [reflexivity|].
  split; [done|]. exists "*.Example.com:443", "*.Example.com". split_and!; [apply list_elem_of_here|reflexivity..|].
  right. exists "example.com", "api". split_and!; [reflexivity|done|reflexivity].
Defined.

End AllowlistTheorems.
