(* ===== verification/Nft.v ===== *)
(** * nftables

    The part of nftables that the host networking uses: the statements it writes, their
    text, what a rule set does with a packet, and what a statement does to a rule set, as
    the nft manual describes them.  A host runs commands; [LawfulHost] is what the
    components rely on: a file of statements is applied as a whole or not at all, and no
    other command touches the rules. *)

From Stdlib Require Import Ascii.
From S2P Require Import Prelude Json GoStrings GoNet.
Import Json GoStrings GoNet.

Module Nft.

(** ** Statements *)

Inductive family := Inet | Ip.

#[global] Instance family_eq_dec : EqDecision family.
Proof. solve_decision. Defined.

#[global] Program Instance family_countable : Countable family :=
  inj_countable' (λ f, match f with Inet => true | Ip => false end) (λ b, if b then Inet else Ip) _.
Solve Obligations with (by intros []).

(** A table, and an object of a table. *)
Definition table : Type := family * string.
Definition object : Type := table * string.

Inductive addr := One (ip : IP) | Net (n : IPNet).

Inductive expr :=
| IpSaddr (a : addr)
| IpDaddr (a : addr)
| Ip6Saddr (a : addr)
| Ip6Daddr (a : addr)
| TcpDport (p : Z)
| UdpDport (p : Z)
| CtEstablished
| IpDaddrDport (set : string)
| Ip6DaddrDport (set : string)
| NfprotoIpv6.

Inductive action :=
| Accept
| Drop
| Count (counter : string)
| IifnameVmap (map : string)
| Masquerade
| DnatTo (ip : IP) (port : Z).

Record rule := { r_match : list expr; r_action : action }.

Inductive stmt :=
| AddTable (t : table)
| AddBaseChain (t : table) (c hookType hook : string) (priority : Z)
| AddChain (t : table) (c : string)
| AddMap (t : table) (m : string)
| AddSet (t : table) (s : string) (v6 : bool)
| AddCounter (t : table) (c : string)
| FlushChain (t : table) (c : string)
| AddRule (t : table) (c : string) (r : rule)
| AddElement (t : table) (m key chain : string)
| AddSetElement (t : table) (s : string) (ip : IP) (port secs : Z)
| DeleteElement (t : table) (m key : string)
| DeleteChain (t : table) (c : string)
| DeleteSet (t : table) (s : string)
| DeleteCounter (t : table) (c : string)
| DeleteTable (t : table).

(** ** Their text *)

Definition family_text (f : family) : string := match f with Inet => "inet" | Ip => "ip" end.

Definition table_text (t : table) : string := family_text t.1 +:+ " " +:+ t.2.

Definition addr_text (a : addr) : string := match a with One ip => IP_String ip | Net n => IPNet_String n end.

Definition expr_text (e : expr) : string :=
  match e with
  | IpSaddr a => "ip saddr " +:+ addr_text a
  | IpDaddr a => "ip daddr " +:+ addr_text a
  | Ip6Saddr a => "ip6 saddr " +:+ addr_text a
  | Ip6Daddr a => "ip6 daddr " +:+ addr_text a
  | TcpDport p => "tcp dport " +:+ fmt_int p
  | UdpDport p => "udp dport " +:+ fmt_int p
  | CtEstablished => "ct state established,related"
  | IpDaddrDport s => "ip daddr . tcp dport @" +:+ s
  | Ip6DaddrDport s => "ip6 daddr . tcp dport @" +:+ s
  | NfprotoIpv6 => "meta nfproto ipv6"
  end.

Definition action_text (a : action) : string :=
  match a with
  | Accept => "accept"
  | Drop => "drop"
  | Count c => "counter name " +:+ c
  | IifnameVmap m => "iifname vmap @" +:+ m
  | Masquerade => "masquerade"
  | DnatTo ip port => "dnat to " +:+ IP_String ip +:+ ":" +:+ fmt_int port
  end.

Definition rule_text (r : rule) : string :=
  str_concat ((λ e, expr_text e +:+ " ") <$> r_match r) +:+ action_text (r_action r).

(** [%q] of an interface name, which is printable ASCII without quotes or backslashes. *)
Definition quoted (s : string) : string := String "034" (s +:+ String "034" "").

Definition newline : string := String "010" "".

Definition stmt_text (s : stmt) : string :=
  match s with
  | AddTable t => "add table " +:+ table_text t
  | AddBaseChain t c ty hook prio =>
      "add chain " +:+ table_text t +:+ " " +:+ c +:+ " { type " +:+ ty +:+ " hook " +:+ hook +:+ " priority " +:+
      fmt_int prio +:+ " ; policy accept ; }"
  | AddChain t c => "add chain " +:+ table_text t +:+ " " +:+ c
  | AddMap t m => "add map " +:+ table_text t +:+ " " +:+ m +:+ " { type ifname : verdict ; }"
  | AddSet t s v6 =>
      "add set " +:+ table_text t +:+ " " +:+ s +:+ " { type " +:+ (if v6 then "ipv6_addr" else "ipv4_addr") +:+
      " . inet_service ; flags timeout ; }"
  | AddCounter t c => "add counter " +:+ table_text t +:+ " " +:+ c
  | FlushChain t c => "flush chain " +:+ table_text t +:+ " " +:+ c
  | AddRule t c r => "add rule " +:+ table_text t +:+ " " +:+ c +:+ " " +:+ rule_text r
  | AddElement t m key chain =>
      "add element " +:+ table_text t +:+ " " +:+ m +:+ " { " +:+ quoted key +:+ " : jump " +:+ chain +:+ " }"
  | AddSetElement t s ip port secs =>
      "add element " +:+ table_text t +:+ " " +:+ s +:+ " { " +:+ IP_String ip +:+ " . " +:+ fmt_int port +:+
      " timeout " +:+ fmt_int secs +:+ "s }"
  | DeleteElement t m key => "delete element " +:+ table_text t +:+ " " +:+ m +:+ " { " +:+ quoted key +:+ " }"
  | DeleteChain t c => "delete chain " +:+ table_text t +:+ " " +:+ c
  | DeleteSet t s => "delete set " +:+ table_text t +:+ " " +:+ s
  | DeleteCounter t c => "delete counter " +:+ table_text t +:+ " " +:+ c
  | DeleteTable t => "delete table " +:+ table_text t
  end.

Definition script (l : list stmt) : string := str_concat ((λ s, stmt_text s +:+ newline) <$> l).

(** ** Rule sets *)

Record chain := { ch_base : option (string * string * Z); ch_rules : list rule }.

(** A set of addresses with ports, each with the time when it expires. *)
Record vset := { vs_v6 : bool; vs_elems : list (IP * Z * Z) }.

Record ruleset := {
  rs_tables : gset table;
  rs_chains : gmap object chain;
  rs_maps : gmap object (gmap string string);
  rs_sets : gmap object vset;
  rs_counters : gset object;
}.

Definition no_rules : ruleset :=
  {| rs_tables := ∅; rs_chains := ∅; rs_maps := ∅; rs_sets := ∅; rs_counters := ∅ |}.

Definition set_chains (f : gmap object chain → gmap object chain) (R : ruleset) : ruleset :=
  {| rs_tables := rs_tables R; rs_chains := f (rs_chains R); rs_maps := rs_maps R; rs_sets := rs_sets R;
     rs_counters := rs_counters R |}.
Definition set_maps (f : gmap object (gmap string string) → gmap object (gmap string string)) (R : ruleset) : ruleset :=
  {| rs_tables := rs_tables R; rs_chains := rs_chains R; rs_maps := f (rs_maps R); rs_sets := rs_sets R;
     rs_counters := rs_counters R |}.
Definition set_sets (f : gmap object vset → gmap object vset) (R : ruleset) : ruleset :=
  {| rs_tables := rs_tables R; rs_chains := rs_chains R; rs_maps := rs_maps R; rs_sets := f (rs_sets R);
     rs_counters := rs_counters R |}.
Definition set_counters (f : gset object → gset object) (R : ruleset) : ruleset :=
  {| rs_tables := rs_tables R; rs_chains := rs_chains R; rs_maps := rs_maps R; rs_sets := rs_sets R;
     rs_counters := f (rs_counters R) |}.

(** An address is of the family of its place: IPv4 after [ip], IPv6 after [ip6]. *)
Definition addr_v6 (a : addr) : option bool :=
  let of_ip ip := if is4 ip then Some false else if (length ip =? 16)%nat then Some true else None in
  match a with One ip => of_ip ip | Net n => of_ip (net_IP n) end.

(** Whether a rule can be loaded: its addresses are well formed and the objects that it
    names exist. *)
Definition expr_ok (R : ruleset) (t : table) (e : expr) : bool :=
  match e with
  | IpSaddr a | IpDaddr a => bool_decide (addr_v6 a = Some false)
  | Ip6Saddr a | Ip6Daddr a => bool_decide (addr_v6 a = Some true)
  | TcpDport p | UdpDport p => (0 <=? p) && (p <=? 65535)
  | IpDaddrDport s => bool_decide (vs_v6 <$> rs_sets R !! (t, s) = Some false)
  | Ip6DaddrDport s => bool_decide (vs_v6 <$> rs_sets R !! (t, s) = Some true)
  | CtEstablished | NfprotoIpv6 => true
  end.

Definition action_ok (R : ruleset) (t : table) (a : action) : bool :=
  match a with
  | Count c => bool_decide ((t, c) ∈ rs_counters R)
  | IifnameVmap m => bool_decide (is_Some (rs_maps R !! (t, m)))
  | DnatTo ip _ => is4 ip
  | _ => true
  end.

Definition rule_ok (R : ruleset) (t : table) (r : rule) : bool :=
  forallb (expr_ok R t) (r_match r) && action_ok R t (r_action r).

Definition uses_set (s : string) (r : rule) : bool :=
  existsb (λ e, match e with IpDaddrDport s' | Ip6DaddrDport s' => bool_decide (s' = s) | _ => false end) (r_match r).

Definition uses_counter (c : string) (r : rule) : bool :=
  match r_action r with Count c' => bool_decide (c' = c) | _ => false end.

(** Some rule of table [t] satisfies [f]. *)
Definition in_rules (t : table) (f : rule → bool) (R : ruleset) : bool :=
  existsb (λ kc, bool_decide (kc.1.1 = t) && existsb f (ch_rules kc.2)) (map_to_list (rs_chains R)).

Definition jumped_to (t : table) (c : string) (R : ruleset) : bool :=
  existsb (λ km, bool_decide (km.1.1 = t) && existsb (λ kv, bool_decide (kv.2 = c)) (map_to_list km.2))
    (map_to_list (rs_maps R)).

Definition outside {A} (t : table) (kv : object * A) : Prop := kv.1.1 ≠ t.

(** The effect of a statement at time [now]; none when nft refuses it. *)
Definition apply (now : Z) (s : stmt) (R : ruleset) : option ruleset :=
  match s with
  | AddTable t =>
      Some {| rs_tables := {[t]} ∪ rs_tables R; rs_chains := rs_chains R; rs_maps := rs_maps R;
              rs_sets := rs_sets R; rs_counters := rs_counters R |}
  | AddBaseChain t c ty hook prio =>
      guard (t ∈ rs_tables R);;
      match rs_chains R !! (t, c) with
      | Some ch => guard (ch_base ch = Some (ty, hook, prio));; Some R
      | None => Some (set_chains (<[(t, c) := {| ch_base := Some (ty, hook, prio); ch_rules := [] |}]>) R)
      end
  | AddChain t c =>
      guard (t ∈ rs_tables R);;
      match rs_chains R !! (t, c) with
      | Some _ => Some R
      | None => Some (set_chains (<[(t, c) := {| ch_base := None; ch_rules := [] |}]>) R)
      end
  | AddMap t m =>
      guard (t ∈ rs_tables R);;
      match rs_maps R !! (t, m) with Some _ => Some R | None => Some (set_maps (<[(t, m) := ∅]>) R) end
  | AddSet t s v6 =>
      guard (t ∈ rs_tables R);;
      match rs_sets R !! (t, s) with
      | Some vs => guard (vs_v6 vs = v6);; Some R
      | None => Some (set_sets (<[(t, s) := {| vs_v6 := v6; vs_elems := [] |}]>) R)
      end
  | AddCounter t c => guard (t ∈ rs_tables R);; Some (set_counters (union {[(t, c)]}) R)
  | FlushChain t c =>
      ch ← rs_chains R !! (t, c);
      Some (set_chains (<[(t, c) := {| ch_base := ch_base ch; ch_rules := [] |}]>) R)
  | AddRule t c r =>
      ch ← rs_chains R !! (t, c);
      guard (rule_ok R t r);;
      Some (set_chains (<[(t, c) := {| ch_base := ch_base ch; ch_rules := ch_rules ch ++ [r] |}]>) R)
  | AddElement t m key c =>
      mp ← rs_maps R !! (t, m);
      _ ← rs_chains R !! (t, c);
      match mp !! key with
      | Some c' => guard (c' = c);; Some R
      | None => Some (set_maps (<[(t, m) := <[key := c]> mp]>) R)
      end
  | AddSetElement t s ip port secs =>
      vs ← rs_sets R !! (t, s);
      guard (addr_v6 (One ip) = Some (vs_v6 vs));;
      Some (set_sets (<[(t, s) := {| vs_v6 := vs_v6 vs; vs_elems := (ip, port, now + secs * second) :: vs_elems vs |}]>) R)
  | DeleteElement t m key =>
      mp ← rs_maps R !! (t, m);
      _ ← mp !! key;
      Some (set_maps (<[(t, m) := delete key mp]>) R)
  | DeleteChain t c =>
      _ ← rs_chains R !! (t, c);
      guard (jumped_to t c R = false);;
      Some (set_chains (delete (t, c)) R)
  | DeleteSet t s =>
      _ ← rs_sets R !! (t, s);
      guard (in_rules t (uses_set s) R = false);;
      Some (set_sets (delete (t, s)) R)
  | DeleteCounter t c =>
      guard ((t, c) ∈ rs_counters R);;
      guard (in_rules t (uses_counter c) R = false);;
      Some (set_counters (λ cs, cs ∖ {[(t, c)]}) R)
  | DeleteTable t =>
      guard (t ∈ rs_tables R);;
      Some {| rs_tables := rs_tables R ∖ {[t]}; rs_chains := filter (outside t) (rs_chains R);
              rs_maps := filter (outside t) (rs_maps R); rs_sets := filter (outside t) (rs_sets R);
              rs_counters := filter (λ k, k.1 ≠ t) (rs_counters R) |}
  end.

Fixpoint apply_all (now : Z) (l : list stmt) (R : ruleset) : option ruleset :=
  match l with [] => Some R | s :: l' => R' ← apply now s R; apply_all now l' R' end.

(** ** Packets *)

Inductive proto := Tcp | Udp | OtherProto.

#[global] Instance proto_eq_dec : EqDecision proto.
Proof. solve_decision. Defined.

(** The source and the destination are four bytes in an IPv4 packet and sixteen in an IPv6
    one; [pk_established] is the state of the connection. *)
Record packet := {
  pk_iif : string;
  pk_v6 : bool;
  pk_src : IP;
  pk_dst : IP;
  pk_proto : proto;
  pk_dport : Z;
  pk_established : bool;
}.

Definition addr_matches (a : addr) (ip : IP) : bool :=
  match a with One x => IP_Equal x ip | Net n => Contains n ip end.

(** An element that has not expired. *)
Definition in_set (now : Z) (elems : list (IP * Z * Z)) (ip : IP) (port : Z) : bool :=
  existsb (λ '(a, p, expires), IP_Equal a ip && (p =? port) && (now <? expires)) elems.

Definition expr_matches (now : Z) (R : ruleset) (t : table) (p : packet) (e : expr) : bool :=
  match e with
  | IpSaddr a => negb (pk_v6 p) && addr_matches a (pk_src p)
  | IpDaddr a => negb (pk_v6 p) && addr_matches a (pk_dst p)
  | Ip6Saddr a => pk_v6 p && addr_matches a (pk_src p)
  | Ip6Daddr a => pk_v6 p && addr_matches a (pk_dst p)
  | TcpDport q => bool_decide (pk_proto p = Tcp) && (pk_dport p =? q)
  | UdpDport q => bool_decide (pk_proto p = Udp) && (pk_dport p =? q)
  | CtEstablished => pk_established p
  | IpDaddrDport s =>
      negb (pk_v6 p) && bool_decide (pk_proto p = Tcp) &&
      in_set now (default [] (vs_elems <$> rs_sets R !! (t, s))) (pk_dst p) (pk_dport p)
  | Ip6DaddrDport s =>
      pk_v6 p && bool_decide (pk_proto p = Tcp) &&
      in_set now (default [] (vs_elems <$> rs_sets R !! (t, s))) (pk_dst p) (pk_dport p)
  | NfprotoIpv6 => pk_v6 p
  end.

(** The verdict of a list of rules, if they have one; [jump] gives the verdict of a chain. *)
Fixpoint rules_verdict (now : Z) (R : ruleset) (t : table) (p : packet) (jump : string → option bool)
    (rs : list rule) : option bool :=
  match rs with
  | [] => None
  | r :: rs' =>
      let continue := rules_verdict now R t p jump rs' in
      if forallb (expr_matches now R t p) (r_match r) then
        match r_action r with
        | Accept => Some true
        | Drop => Some false
        | IifnameVmap m =>
            match (mp ← rs_maps R !! (t, m); c ← mp !! pk_iif p; jump c) with
            | Some v => Some v
            | None => continue
            end
        | _ => continue
        end
      else continue
  end.

Definition chain_rules (R : ruleset) (t : table) (c : string) : list rule :=
  default [] (ch_rules <$> rs_chains R !! (t, c)).

(** The verdict of a base chain: its dispatch goes one chain deep, and its policy is to
    accept. *)
Definition hook_verdict (now : Z) (R : ruleset) (t : table) (base : string) (p : packet) : bool :=
  default true (rules_verdict now R t p
    (λ c, rules_verdict now R t p (λ _, None) (chain_rules R t c)) (chain_rules R t base)).

(** ** Hosts *)

(** A command and what it reads. *)
Inductive command :=
| NftFile (l : list stmt)
| NftStmt (s : stmt)
| Other (argv : list string) (stdin : string).

Class Host (H : Type) := {
  host_run : command → H → result string unit * H;
  host_now : H → Z;
  host_rules : H → ruleset;
}.

Definition stmts_of (c : command) : list stmt :=
  match c with NftFile l => l | NftStmt s => [s] | Other _ _ => [] end.

(** A command that succeeds has applied its statements; one that fails has applied none. *)
Class LawfulHost (H : Type) `{!Host H} : Prop := {
  host_run_law c h :
    match host_run c h with
    | (Ok _, h') => apply_all (host_now h) (stmts_of c) (host_rules h) = Some (host_rules h')
    | (Err _, h') => host_rules h' = host_rules h
    end;
}.

(** A host that only has rules and a clock that stands still. *)
Record rules_host := { rh_now : Z; rh_rules : ruleset }.

#[global] Instance rules_host_host : Host rules_host := {|
  host_run c h :=
    match apply_all (rh_now h) (stmts_of c) (rh_rules h) with
    | Some R => (Ok tt, {| rh_now := rh_now h; rh_rules := R |})
    | None => (Err "", h)
    end;
  host_now := rh_now;
  host_rules := rh_rules;
|}.

#[global] Instance rules_host_lawful : LawfulHost rules_host.
Proof. split. intros c h. simpl. by destruct (apply_all _ _ _). Qed.

End Nft.
