(* ===== verification/NftTheorems.v ===== *)
(** * nftables: what statements do to a rule set

    The effect of a list of statements on the rules of a chain, the dispatch of a tap and
    the elements of a set, and the parts of a rule set that the verdict of a hook reads. *)

From Stdlib Require Import Ascii.
From S2P Require Import Prelude Json GoStrings GoNet Nft.
Import Json GoStrings GoNet Nft.

Module NftTheorems.

(** ** Views *)

Definition jump_of (R : ruleset) (t : table) (m key : string) : option string :=
  mp ← rs_maps R !! (t, m); mp !! key.

Definition elems_of (R : ruleset) (t : table) (s : string) : list (IP * Z * Z) :=
  default [] (vs_elems <$> rs_sets R !! (t, s)).

(** Statements applied one after the other, at any times. *)
Inductive applied : list stmt → ruleset → ruleset → Prop :=
| applied_nil R : applied [] R R
| applied_cons now s l R R1 R2 : apply now s R = Some R1 → applied l R1 R2 → applied (s :: l) R R2.

Lemma apply_all_applied now l R R' : apply_all now l R = Some R' → applied l R R'.
Proof.
  revert R. induction l as [|s l IH]; simpl; intros R Ha; [injection Ha as <-; constructor|].
  apply bind_Some in Ha as (R1 & H1 & Ha). econstructor; eauto.
Qed.

Lemma applied_app l1 l2 R R1 R2 : applied l1 R R1 → applied l2 R1 R2 → applied (l1 ++ l2) R R2.
Proof. induction 1; simpl; [done|]. intros. econstructor; eauto. Qed.

Lemma applied_app_inv l1 l2 R R2 : applied (l1 ++ l2) R R2 → ∃ R1, applied l1 R R1 ∧ applied l2 R1 R2.
Proof.
  revert R. induction l1 as [|s l1 IH]; simpl; intros R Ha; [by exists R; split; [constructor|]|].
  inversion Ha as [|now ? ? ? R0 ? H0 Hl]; subst. destruct (IH R0 Hl) as (R1 & ? & ?). exists R1. split; [econstructor; eauto|done].
Qed.

(** ** Chains *)

(** Statements that only add to chain [c]. *)
Definition keeps_chain (t : table) (c : string) (s : stmt) : bool :=
  match s with
  | FlushChain t' c' | DeleteChain t' c' => negb (bool_decide ((t', c') = (t, c)))
  | DeleteTable t' => negb (bool_decide (t' = t))
  | _ => true
  end.

Definition added_rule (t : table) (c : string) (s : stmt) : option rule :=
  match s with AddRule t' c' r => if bool_decide ((t', c') = (t, c)) then Some r else None | _ => None end.

Ltac split_apply :=
  repeat match goal with
  | H : mbind _ _ = Some _ |- _ => apply bind_Some in H as (? & ? & H)
  | H : (guard _;; _) = Some _ |- _ => apply bind_Some in H as (? & _ & H)
  | H : match ?x with Some _ => _ | None => _ end = Some _ |- _ => destruct x eqn:?
  | H : Some _ = Some _ |- _ => injection H as <-
  | H : None = Some _ |- _ => discriminate H
  end.

Lemma chain_rules_insert R t c o ch :
  chain_rules (set_chains (<[o := ch]>) R) t c = if bool_decide (o = (t, c)) then ch_rules ch else chain_rules R t c.
Proof.
  unfold chain_rules. simpl. case_bool_decide as Ho; [rewrite Ho; by rewrite lookup_insert_eq|by rewrite lookup_insert_ne].
Qed.

Lemma lookup_outside {A} (m : gmap object A) t' t o : t' ≠ t → filter (outside t') m !! (t, o) = m !! (t, o).
Proof.
  intros Ht. destruct (m !! (t, o)) as [x|] eqn:E.
  - apply map_lookup_filter_Some. split; [done|]. by intros ?.
  - apply map_lookup_filter_None. by left.
Qed.

Lemma apply_chain now s R R' t c :
  apply now s R = Some R' → keeps_chain t c s = true →
  chain_rules R' t c = chain_rules R t c ++ option_list (added_rule t c s).
Proof.
  intros Ha Hk. destruct s; simpl in Ha, Hk |- *; split_apply; rewrite ?app_nil_r; try done;
    rewrite ?chain_rules_insert; try (case_bool_decide as Ho; [|by rewrite ?app_nil_r]); simplify_eq/=; try done;
    unfold chain_rules; simpl.
  - by rewrite Heqo.
  - by rewrite Heqo.
  - by rewrite H.
  - apply negb_true_iff, bool_decide_eq_false in Hk. by rewrite lookup_delete_ne.
  - apply negb_true_iff, bool_decide_eq_false in Hk. by rewrite lookup_outside.
Qed.

Lemma applied_chain l R R' t c :
  applied l R R' → forallb (keeps_chain t c) l = true →
  chain_rules R' t c = chain_rules R t c ++ omap (added_rule t c) l.
Proof.
  induction 1 as [|now s l R R1 R2 H1 Ha IH]; simpl; intros Hk; [by rewrite app_nil_r|].
  apply andb_true_iff in Hk as [Hs Hk].
  rewrite (IH Hk), (apply_chain _ _ _ _ _ _ H1 Hs), <- app_assoc. f_equal. by destruct (added_rule t c s).
Qed.

(** ** Dispatch *)

Definition keeps_map (t : table) (m key : string) (s : stmt) : bool :=
  match s with
  | DeleteElement t' m' key' => negb (bool_decide ((t', m', key') = (t, m, key)))
  | DeleteTable t' => negb (bool_decide (t' = t))
  | _ => true
  end.

Definition added_jump (t : table) (m key : string) (s : stmt) : option string :=
  match s with
  | AddElement t' m' key' c => if bool_decide ((t', m', key') = (t, m, key)) then Some c else None
  | _ => None
  end.

Lemma apply_map now s R R' t m key :
  apply now s R = Some R' → keeps_map t m key s = true →
  jump_of R' t m key = match added_jump t m key s with Some c => Some c | None => jump_of R t m key end.
Proof.
  intros Ha Hk. unfold jump_of. destruct s; simpl in Ha, Hk |- *; split_apply; simpl; try done.
  - destruct (decide ((t0, m0) = (t, m))) as [[= -> ->]|Hne]; [|by rewrite lookup_insert_ne].
    by rewrite lookup_insert_eq, Heqo.
  - case_bool_decide; [|done]. simplify_eq. by rewrite H.
  - destruct (decide ((t0, m0) = (t, m))) as [[= -> ->]|Hne].
    + rewrite lookup_insert_eq, H. simpl. case_bool_decide; simplify_eq; [by rewrite lookup_insert_eq|].
      rewrite lookup_insert_ne; [done|]. congruence.
    + rewrite lookup_insert_ne by done. case_bool_decide; [|done]. simplify_eq.
  - apply negb_true_iff, bool_decide_eq_false in Hk. destruct (decide ((t0, m0) = (t, m))) as [[= -> ->]|Hne].
    + rewrite lookup_insert_eq, H. simpl. rewrite lookup_delete_ne; [done|]. congruence.
    + by rewrite lookup_insert_ne.
  - apply negb_true_iff, bool_decide_eq_false in Hk. by rewrite lookup_outside.
Qed.

(** The last element added for a key. *)
Lemma applied_map l R R' t m key :
  applied l R R' → forallb (keeps_map t m key) l = true →
  jump_of R' t m key = default (jump_of R t m key) (Some <$> last (omap (added_jump t m key) l)).
Proof.
  induction 1 as [|now s l R R1 R2 H1 Ha IH]; simpl; intros Hk; [done|].
  apply andb_true_iff in Hk as [Hs Hk].
  rewrite (IH Hk), (apply_map _ _ _ _ _ _ _ H1 Hs). destruct (added_jump t m key s) as [c|]; simpl; [|done].
  rewrite last_cons. by destruct (last _).
Qed.

(** ** Sets *)

Definition keeps_set (t : table) (n : string) (s : stmt) : bool :=
  match s with
  | AddSetElement t' n' _ _ _ | DeleteSet t' n' => negb (bool_decide ((t', n') = (t, n)))
  | DeleteTable t' => negb (bool_decide (t' = t))
  | _ => true
  end.

Lemma apply_set now s R R' t n :
  apply now s R = Some R' → keeps_set t n s = true → elems_of R' t n = elems_of R t n.
Proof.
  intros Ha Hk. unfold elems_of. destruct s; simpl in Ha, Hk |- *; split_apply; simpl; try done;
    try (apply negb_true_iff, bool_decide_eq_false in Hk).
  - destruct (decide ((t0, s) = (t, n))) as [[= -> ->]|Hne]; [by rewrite lookup_insert_eq, Heqo|by rewrite lookup_insert_ne].
  - by rewrite lookup_insert_ne.
  - by rewrite lookup_delete_ne.
  - by rewrite lookup_outside.
Qed.

Lemma applied_set l R R' t n :
  applied l R R' → forallb (keeps_set t n) l = true → elems_of R' t n = elems_of R t n.
Proof.
  induction 1 as [|now s l R R1 R2 H1 Ha IH]; simpl; intros Hk; [done|].
  apply andb_true_iff in Hk as [Hs Hk]. by rewrite (IH Hk), (apply_set _ _ _ _ _ _ H1 Hs).
Qed.

(** ** What a verdict reads *)

Definition sets_used (rs : list rule) : list string :=
  r ← rs; e ← r_match r;
  match e with IpDaddrDport s | Ip6DaddrDport s => [s] | _ => [] end.

Lemma forallb_ext {A} (f g : A → bool) l : (∀ x, x ∈ l → f x = g x) → forallb f l = forallb g l.
Proof.
  intros Hfg. induction l as [|x l IH]; [done|]. simpl. rewrite Hfg by apply list_elem_of_here. f_equal.
  apply IH. intros y Hy. apply Hfg. by apply list_elem_of_further.
Qed.

Lemma rules_verdict_ext now R1 R2 t p jump rs :
  (∀ s, s ∈ sets_used rs → elems_of R1 t s = elems_of R2 t s) →
  (∀ m, jump_of R1 t m (pk_iif p) = jump_of R2 t m (pk_iif p)) →
  rules_verdict now R1 t p jump rs = rules_verdict now R2 t p jump rs.
Proof.
  intros Hs Hm. induction rs as [|r rs IH]; simpl; [done|].
  rewrite IH by (intros s Hin; apply Hs; unfold sets_used; simpl; apply elem_of_app; by right). clear IH.
  assert (forallb (expr_matches now R1 t p) (r_match r) = forallb (expr_matches now R2 t p) (r_match r)) as ->.
  { apply forallb_ext. intros e Hin. destruct e; simpl; try done; f_equal; f_equal; apply Hs;
      unfold sets_used; simpl; apply elem_of_app; left; apply list_elem_of_bind; eexists; (split; [|exact Hin]);
      by apply list_elem_of_singleton. }
  destruct (forallb _ _); [|done]. destruct (r_action r); try done.
  assert (∀ R, (mp ← rs_maps R !! (t, map); c ← mp !! pk_iif p; jump c) = (c ← jump_of R t map (pk_iif p); jump c)) as Hj.
  { intros R. unfold jump_of. by destruct (rs_maps R !! (t, map)). }
  by rewrite !Hj, Hm.
Qed.

(** The verdict of a hook whose base chain only dispatches. *)
Lemma hook_dispatch now R t base m p :
  chain_rules R t base = [{| r_match := []; r_action := IifnameVmap m |}] →
  hook_verdict now R t base p =
  match jump_of R t m (pk_iif p) with
  | Some c => default true (rules_verdict now R t p (λ _, None) (chain_rules R t c))
  | None => true
  end.
Proof.
  intros Hb. unfold hook_verdict. rewrite Hb. simpl. unfold jump_of.
  destruct (rs_maps R !! (t, m)) as [mp|]; simpl; [|done]. destruct (mp !! pk_iif p) as [c|]; simpl; [|done].
  by destruct (rules_verdict _ _ _ _ _ _).
Qed.

End NftTheorems.
