(* ===== verification/Firewall.v ===== *)
(** * internal/netconf, internal/network and internal/husk: the sandbox firewall

    The nftables statements that netconf renders (nftables.go, netpolicy.go), the commands
    of commands.go, and the code that applies and removes them: network_apply.go on a node
    and netfilter.go in a husk pod.  A rendered text is the list of its statements, whose
    text [Nft.script] gives. *)

From Stdlib Require Import Ascii.
From S2P Require Import Prelude Json GoStrings GoNet Netconf Allowlist Nft.
Import Json GoStrings GoNet Netconf Allowlist Nft.

Module Firewall.

(** ** Names *)

Definition SharedTableName : string := "mitos_egress".
Definition BaseChainName : string := "forward".
Definition NatTableName : string := "mitos_nat".
Definition DispatchMapName : string := "tapdispatch".
Definition InputBaseChainName : string := "input".
Definition InputDispatchMapName : string := "tapdispatch_in".
Definition SandboxInputChainName (tap : string) : string := "sbin_" +:+ tap.
Definition SandboxChainName (tap : string) : string := "sb_" +:+ tap.
Definition proxyDNATBaseChainName : string := "prerouting".
Definition ProxyDNATDispatchMapName : string := "proxydnat".
Definition ProxyDNATChainName (tap : string) : string := "proxydnat_" +:+ tap.
Definition SandboxAllowSetName (tap : string) : string := "sb_" +:+ tap +:+ "_dyn".
Definition SandboxAllowSet6Name (tap : string) : string := "sb_" +:+ tap +:+ "_dyn6".
Definition SandboxEgressCounterName (tap : string) : string := "sb_" +:+ tap +:+ "_egress".

Definition filter_table : table := (Inet, SharedTableName).
Definition nat_table : table := (Ip, NatTableName).

(** ** Policies *)

Definition EgressDeny : string := "deny".
Definition EgressAllow : string := "allow".
Definition InboundDeny : string := "deny".
Definition InboundAllow : string := "allow".

Record SandboxPolicy := {
  sp_Egress : string;
  sp_Allow : list HostPort;
  sp_AllowCIDRs : list string;
  sp_BlockNetwork : bool;
  sp_Inbound : string;
  sp_InboundCIDRs : list string;
  sp_Counter : bool;
  sp_ProxySentinel : option IP;
  sp_ProxyPort : Z;
}.

Record ChainSpec := {
  cs_Tap : string;
  cs_GuestIP : IP;
  cs_Egress : string;
  cs_Allow : list HostPort;
  cs_AllowCIDRsV4 : list IPNet;
  cs_AllowCIDRsV6 : list IPNet;
  cs_ResolverIP : option IP;
  cs_BlockNetwork : bool;
  cs_Counter : bool;
  cs_ProxyGatewayIP : option IP;
  cs_ProxyPort : Z;
  cs_AllowCIDRs : list string;
}.

(** ** The shared tables *)

Definition RenderSharedTable : list stmt :=
  [AddTable filter_table;
   AddBaseChain filter_table BaseChainName "filter" "forward" 0;
   AddMap filter_table DispatchMapName;
   FlushChain filter_table BaseChainName;
   AddRule filter_table BaseChainName {| r_match := []; r_action := IifnameVmap DispatchMapName |}].

Definition RenderSharedInputTable : list stmt :=
  [AddTable filter_table;
   AddBaseChain filter_table InputBaseChainName "filter" "input" 0;
   AddMap filter_table InputDispatchMapName;
   FlushChain filter_table InputBaseChainName;
   AddRule filter_table InputBaseChainName {| r_match := []; r_action := IifnameVmap InputDispatchMapName |}].

Definition RenderMasquerade (guestIP : IP) : list stmt :=
  [AddTable nat_table;
   AddBaseChain nat_table "postrouting" "nat" "postrouting" 100;
   FlushChain nat_table "postrouting";
   AddRule nat_table "postrouting" {| r_match := [IpSaddr (One guestIP)]; r_action := Masquerade |}].

Definition RenderMasqueradeDelete : list stmt := [AddTable nat_table; DeleteTable nat_table].

Definition RenderProxyDNAT (tap : string) (sentinel : IP) (proxyPort : Z) (gatewayIP : IP) : list stmt :=
  let chain := ProxyDNATChainName tap in
  [AddTable nat_table;
   AddBaseChain nat_table proxyDNATBaseChainName "nat" "prerouting" (-100);
   AddMap nat_table ProxyDNATDispatchMapName;
   FlushChain nat_table proxyDNATBaseChainName;
   AddRule nat_table proxyDNATBaseChainName {| r_match := []; r_action := IifnameVmap ProxyDNATDispatchMapName |};
   AddChain nat_table chain;
   AddRule nat_table chain
     {| r_match := [IpDaddr (One sentinel); TcpDport proxyPort]; r_action := DnatTo gatewayIP proxyPort |};
   AddElement nat_table ProxyDNATDispatchMapName tap chain].

(** ** The chain of a sandbox *)

Definition metadataV4Addr : IP := [169; 254; 169; 254].
Definition metadataV4Net : IPNet := {| net_IP := [169; 254; 0; 0]; net_Mask := [255; 255; 0; 0] |}.
Definition metadataV6Addr : IP := [0xfd; 0; 0x0e; 0xc2; 0; 0; 0; 0; 0; 0; 0; 0; 0; 0; 0x02; 0x54].

Definition metadata_rules (guestIP : IP) : list rule :=
  [{| r_match := [IpSaddr (One guestIP); IpDaddr (One metadataV4Addr)]; r_action := Drop |};
   {| r_match := [IpSaddr (One guestIP); IpDaddr (Net metadataV4Net)]; r_action := Drop |};
   {| r_match := [Ip6Daddr (One metadataV6Addr)]; r_action := Drop |}].

Definition RenderMetadataBlock (t : table) (chain : string) (guestIP : IP) : list stmt :=
  AddRule t chain <$> metadata_rules guestIP.

Definition proxy_rule (guestIP gatewayIP : IP) (proxyPort : Z) : rule :=
  {| r_match := [IpSaddr (One guestIP); IpDaddr (One gatewayIP); TcpDport proxyPort]; r_action := Accept |}.

Definition RenderProxyAccept (t : table) (chain : string) (guestIP gatewayIP : IP) (proxyPort : Z) : list stmt :=
  [AddRule t chain (proxy_rule guestIP gatewayIP proxyPort)].

Section render.
Context {unicode : Unicode}.

(** The blocks of the allowlist: those that were parsed, or else the raw ones. *)
Definition spec_cidrs (spec : ChainSpec) : list IPNet * list IPNet :=
  if bool_decide (cs_AllowCIDRsV4 spec = []) && bool_decide (cs_AllowCIDRsV6 spec = []) &&
     negb (bool_decide (cs_AllowCIDRs spec = []))
  then cidrs_or_none (ParseCIDRList (cs_AllowCIDRs spec))
  else (cs_AllowCIDRsV4 spec, cs_AllowCIDRsV6 spec).

Definition RenderSandboxChainSpec (spec : ChainSpec) : list stmt :=
  let t := filter_table in
  let chain := SandboxChainName (cs_Tap spec) in
  let saddr := IpSaddr (One (cs_GuestIP spec)) in
  let add es a := AddRule t chain {| r_match := es; r_action := a |} in
  let dispatch := AddElement t DispatchMapName (cs_Tap spec) chain in
  let counter := SandboxEgressCounterName (cs_Tap spec) in
  [AddChain t chain] ++
  (if cs_Counter spec then [AddCounter t counter; add [saddr] (Count counter)] else []) ++
  RenderMetadataBlock t chain (cs_GuestIP spec) ++
  if cs_BlockNetwork spec then [add [saddr] Drop; add [NfprotoIpv6] Drop; dispatch]
  else
    match cs_ProxyGatewayIP spec with
    | Some gw => RenderProxyAccept t chain (cs_GuestIP spec) gw (cs_ProxyPort spec)
    | None => []
    end ++
    [add [saddr; CtEstablished] Accept] ++
    ((λ hp, add [saddr; IpDaddr (One (hp_IP hp)); TcpDport (hp_Port hp)] Accept) <$> cs_Allow spec) ++
    ((λ n, add [saddr; IpDaddr (Net n)] Accept) <$> (spec_cidrs spec).1) ++
    ((λ n, add [Ip6Daddr (Net n)] Accept) <$> (spec_cidrs spec).2) ++
    match cs_ResolverIP spec with
    | Some r => [add [saddr; IpDaddr (One r); UdpDport 53] Accept; add [saddr; IpDaddr (One r); TcpDport 53] Accept]
    | None => []
    end ++
    (let set := SandboxAllowSetName (cs_Tap spec) in
     let set6 := SandboxAllowSet6Name (cs_Tap spec) in
     let final := if bool_decide (cs_Egress spec = EgressAllow) then Accept else Drop in
     [AddSet t set false; add [saddr; IpDaddrDport set] Accept;
      AddSet t set6 true; add [Ip6DaddrDport set6] Accept;
      add [saddr] final; add [NfprotoIpv6] final; dispatch]).

Record InputChainSpec := {
  is_Tap : string;
  is_GuestIP : IP;
  is_ResolverIP : option IP;
  is_Inbound : string;
  is_InboundCIDRs : list string;
}.

Definition RenderSandboxInputChainSpec (spec : InputChainSpec) : list stmt :=
  let t := filter_table in
  let chain := SandboxInputChainName (is_Tap spec) in
  let saddr := IpSaddr (One (is_GuestIP spec)) in
  let daddr := IpDaddr (One (is_GuestIP spec)) in
  let add es a := AddRule t chain {| r_match := es; r_action := a |} in
  [AddChain t chain] ++
  match is_ResolverIP spec with
  | Some r => [add [saddr; IpDaddr (One r); UdpDport 53] Accept; add [saddr; IpDaddr (One r); TcpDport 53] Accept]
  | None => []
  end ++
  (if bool_decide (is_Inbound spec = InboundAllow) then
     if bool_decide (is_InboundCIDRs spec = []) then [add [daddr] Accept]
     else
       let '(v4, v6) := cidrs_or_none (ParseCIDRList (is_InboundCIDRs spec)) in
       ((λ n, add [daddr; IpSaddr (Net n)] Accept) <$> v4) ++
       ((λ n, add [Ip6Daddr (One (is_GuestIP spec)); Ip6Saddr (Net n)] Accept) <$> v6)
   else []) ++
  [add [saddr] Drop; AddElement t InputDispatchMapName (is_Tap spec) chain].

(** ** commands.go *)

Definition ip_prefix (ip : IP) (n : string) : string := IP_String ip +:+ "/" +:+ n.

Definition TapAddArgs (tap : string) : list string := ["ip"; "tuntap"; "add"; tap; "mode"; "tap"].
Definition AddrAddArgs (hostIP : IP) (tap : string) : list string := ["ip"; "addr"; "add"; ip_prefix hostIP "30"; "dev"; tap].
Definition LinkUpArgs (tap : string) : list string := ["ip"; "link"; "set"; tap; "up"].
Definition ResolverAddrAddArgs (resolverIP : IP) (tap : string) : list string :=
  ["ip"; "addr"; "add"; ip_prefix resolverIP "32"; "dev"; tap].
Definition LinkDelArgs (tap : string) : list string := ["ip"; "link"; "del"; tap].
Definition IPBatchArgs : list string := ["ip"; "-batch"; "-"].
Definition MasqueradeAddArgs (subnetCIDR uplink : string) : list string :=
  ["iptables"; "-t"; "nat"; "-A"; "POSTROUTING"; "-s"; subnetCIDR; "-o"; uplink; "-j"; "MASQUERADE"].
Definition MasqueradeDelArgs (subnetCIDR uplink : string) : list string :=
  ["iptables"; "-t"; "nat"; "-D"; "POSTROUTING"; "-s"; subnetCIDR; "-o"; uplink; "-j"; "MASQUERADE"].

Definition RenderIPBatch (tap : string) (hostIP : IP) (resolverIP : option IP) : string :=
  let cmds := [TapAddArgs tap; AddrAddArgs hostIP tap; LinkUpArgs tap] ++
              match resolverIP with Some r => [ResolverAddrAddArgs r tap] | None => [] end in
  str_concat ((λ c, String.concat " " (drop 1 c) +:+ newline) <$> cmds).

(** The deletions, one statement each. *)
Definition NftDeleteDispatchElement (tap : string) : stmt := DeleteElement filter_table DispatchMapName tap.
Definition NftDeleteSandboxChain (tap : string) : stmt := DeleteChain filter_table (SandboxChainName tap).
Definition NftDeleteInputDispatchElement (tap : string) : stmt := DeleteElement filter_table InputDispatchMapName tap.
Definition NftDeleteSandboxInputChain (tap : string) : stmt := DeleteChain filter_table (SandboxInputChainName tap).
Definition NftDeleteSandboxAllowSet (tap : string) : stmt := DeleteSet filter_table (SandboxAllowSetName tap).
Definition NftDeleteSandboxEgressCounter (tap : string) : stmt := DeleteCounter filter_table (SandboxEgressCounterName tap).
Definition NftDeleteProxyDNATDispatchElement (tap : string) : stmt := DeleteElement nat_table ProxyDNATDispatchMapName tap.
Definition NftDeleteProxyDNATChain (tap : string) : stmt := DeleteChain nat_table (ProxyDNATChainName tap).

(** ** Running commands *)

Context {K : Type} {host : Host K}.

Definition step (A : Type) : Type := K → result string A * K.

Definition run (c : command) : step unit := host_run c.

Definition ip_cmd (argv : list string) : command := Other argv "".

(** [if err := p; err != nil { return err }; k]. *)
Definition andThen {A} (p : step unit) (k : step A) : step A :=
  λ h, match p h with (Ok _, h') => k h' | (Err e, h') => (Err e, h') end.

(** [_ = p; k]. *)
Definition ignoring {A} (p : step unit) (k : step A) : step A := λ h, k (p h).2.

(** Every command is tried, the first error is returned. *)
Fixpoint attempt_all (cs : list command) : step unit :=
  match cs with
  | [] => λ h, (Ok tt, h)
  | c :: cs' => λ h,
      let '(r, h1) := run c h in
      let '(r', h2) := attempt_all cs' h1 in
      (match r with Ok _ => r' | Err e => Err e end, h2)
  end.

Definition ret {A} (r : result string A) : step A := λ h, (r, h).

(** ** network_apply.go *)

Record applyOptions := {
  ao_subnetCIDR : string;
  ao_uplink : string;
  ao_enableForwarding : bool;
  ao_proxyEnabled : bool;
}.

Definition spec_of (id : Identity) (policy : SandboxPolicy) (resolverIP : option IP) (v4 v6 : list IPNet) : ChainSpec := {|
  cs_Tap := id_TapName id;
  cs_GuestIP := id_GuestIP id;
  cs_Egress := sp_Egress policy;
  cs_Allow := sp_Allow policy;
  cs_AllowCIDRsV4 := v4;
  cs_AllowCIDRsV6 := v6;
  cs_ResolverIP := resolverIP;
  cs_BlockNetwork := sp_BlockNetwork policy;
  cs_Counter := sp_Counter policy;
  cs_ProxyGatewayIP := match sp_ProxySentinel policy with Some _ => Some (id_HostIP id) | None => None end;
  cs_ProxyPort := match sp_ProxySentinel policy with Some _ => sp_ProxyPort policy | None => 0 end;
  cs_AllowCIDRs := [];
|}.

Definition setup (enableForward : step unit) (id : Identity) (policy : SandboxPolicy) (resolverIP : option IP)
    (opts : applyOptions) : step unit :=
  let tap := id_TapName id in
  andThen (if ao_enableForwarding opts then enableForward else ret (Ok tt)) $
  ignoring (run (ip_cmd (LinkDelArgs tap))) $
  andThen (run (ip_cmd (TapAddArgs tap))) $
  andThen (run (ip_cmd (AddrAddArgs (id_HostIP id) tap))) $
  andThen (run (ip_cmd (LinkUpArgs tap))) $
  andThen (run (NftFile RenderSharedTable)) $
  match ParseCIDRList (sp_AllowCIDRs policy) with
  | Err _ => ret (Err "parse CIDR allowlist")
  | Ok (v4, v6) =>
      andThen (run (NftFile (RenderSandboxChainSpec (spec_of id policy resolverIP v4 v6)))) $
      andThen (match sp_ProxySentinel policy with
               | Some sentinel => run (NftFile (RenderProxyDNAT tap sentinel (sp_ProxyPort policy) (id_HostIP id)))
               | None => ret (Ok tt)
               end) $
      if bool_decide (ao_uplink opts = "") then ret (Ok tt)
      else run (ip_cmd (MasqueradeAddArgs (ao_subnetCIDR opts) (ao_uplink opts)))
  end.

Definition teardown (id : Identity) (opts : applyOptions) : step unit :=
  let tap := id_TapName id in
  attempt_all (
    (if bool_decide (ao_uplink opts = "") then []
     else [ip_cmd (MasqueradeDelArgs (ao_subnetCIDR opts) (ao_uplink opts))]) ++
    [ip_cmd (LinkDelArgs tap);
     NftStmt (NftDeleteDispatchElement tap);
     NftStmt (NftDeleteSandboxChain tap);
     NftStmt (NftDeleteSandboxAllowSet tap);
     NftStmt (NftDeleteSandboxEgressCounter tap)] ++
    (if ao_proxyEnabled opts then
       [NftStmt (NftDeleteProxyDNATDispatchElement tap); NftStmt (NftDeleteProxyDNATChain tap)]
     else [])).

(** ** husk/netfilter.go *)

Record NetfilterConfig := {
  nc_Tap : string;
  nc_GuestIP : IP;
  nc_HostIP : IP;
  nc_Egress : string;
  nc_Allow : list string;
  nc_BlockNetwork : bool;
  nc_AllowCIDRs : list string;
  nc_Inbound : string;
  nc_InboundCIDRs : list string;
  nc_ResolverIP : option IP;
}.

Definition teardownEgressFilter (tap : string) : step unit :=
  attempt_all
    [ip_cmd (LinkDelArgs tap);
     NftStmt (NftDeleteDispatchElement tap);
     NftStmt (NftDeleteSandboxChain tap);
     NftStmt (NftDeleteSandboxAllowSet tap);
     NftStmt (NftDeleteSandboxEgressCounter tap);
     NftStmt (NftDeleteInputDispatchElement tap);
     NftStmt (NftDeleteSandboxInputChain tap);
     NftFile RenderMasqueradeDelete].

(** The deferred teardown of an error path. *)
Definition or_teardown (tap : string) (p : step unit) : step unit := λ h,
  match p h with
  | (Ok _, h') => (Ok tt, h')
  | (Err e, h') => (Err e, (teardownEgressFilter tap h').2)
  end.

Definition ensureEgressLink (enableForwarding : option (step unit)) (cfg : NetfilterConfig) : step unit :=
  andThen (default (ret (Ok tt)) enableForwarding) $
  ignoring (run (ip_cmd (LinkDelArgs (nc_Tap cfg)))) $
  or_teardown (nc_Tap cfg)
    (run (Other IPBatchArgs (RenderIPBatch (nc_Tap cfg) (nc_HostIP cfg) (nc_ResolverIP cfg)))).

Definition husk_spec (cfg : NetfilterConfig) (allow : list HostPort) (v4 v6 : list IPNet) : ChainSpec := {|
  cs_Tap := nc_Tap cfg;
  cs_GuestIP := nc_GuestIP cfg;
  cs_Egress := nc_Egress cfg;
  cs_Allow := allow;
  cs_AllowCIDRsV4 := v4;
  cs_AllowCIDRsV6 := v6;
  cs_ResolverIP := nc_ResolverIP cfg;
  cs_BlockNetwork := nc_BlockNetwork cfg;
  cs_Counter := true;
  cs_ProxyGatewayIP := None;
  cs_ProxyPort := 0;
  cs_AllowCIDRs := [];
|}.

Definition husk_input_spec (cfg : NetfilterConfig) : InputChainSpec := {|
  is_Tap := nc_Tap cfg;
  is_GuestIP := nc_GuestIP cfg;
  is_ResolverIP := nc_ResolverIP cfg;
  is_Inbound := nc_Inbound cfg;
  is_InboundCIDRs := nc_InboundCIDRs cfg;
|}.

(** The file that [applyEgressPolicy] applies. *)
Definition nftDoc (cfg : NetfilterConfig) (allow : list HostPort) (v4 v6 : list IPNet) : list stmt :=
  RenderSharedTable ++ RenderSandboxChainSpec (husk_spec cfg allow v4 v6) ++ RenderMasquerade (nc_GuestIP cfg) ++
  RenderSharedInputTable ++ RenderSandboxInputChainSpec (husk_input_spec cfg).

Definition applyEgressPolicy (cfg : NetfilterConfig) : step unit :=
  match SplitAllowList (nc_Allow cfg), ParseCIDRList (nc_AllowCIDRs cfg) with
  | Ok (enforceable, _), Ok (v4, v6) =>
      or_teardown (nc_Tap cfg) (run (NftFile (nftDoc cfg enforceable v4 v6)))
  | Err _, _ => ret (Err "parse allowlist")
  | _, Err _ => ret (Err "parse CIDR allowlist")
  end.

Definition applyEgressFilter (enableForwarding : option (step unit)) (cfg : NetfilterConfig) : step unit :=
  match SplitAllowList (nc_Allow cfg), ParseCIDRList (nc_AllowCIDRs cfg) with
  | Err _, _ => ret (Err "parse allowlist")
  | _, Err _ => ret (Err "parse CIDR allowlist")
  | Ok _, Ok _ => andThen (ensureEgressLink enableForwarding cfg) (applyEgressPolicy cfg)
  end.

End render.

End Firewall.
