(* ===== verification/FirewallTheorems.v ===== *)
(** * The sandbox firewall: theorems

    What the rendered chain of a sandbox decides, that setting up or tearing down one
    sandbox leaves the others alone, and where the rules that are applied fall short of
    what the comments on them promise. *)

From Stdlib Require Import Ascii.
From S2P Require Import Prelude Json GoStrings GoNet Netconf Allowlist Nft Firewall NftTheorems.
Import Json GoStrings GoNet Netconf Allowlist Nft Firewall NftTheorems.

Module FirewallTheorems.

Section firewall.
Context {unicode : Unicode}.

(** ** The specification of a chain *)

Definition is_metadata (ip : IP) : bool := IP_Equal metadataV4Addr ip || Contains metadataV4Net ip.

Definition tcp_to (p : packet) (port : Z) : bool := bool_decide (pk_proto p = Tcp) && (pk_dport p =? port).
Definition udp_to (p : packet) (port : Z) : bool := bool_decide (pk_proto p = Udp) && (pk_dport p =? port).

(** The destinations that a policy opens, with the pinned addresses [pins]. *)
Definition allowed4 (now : Z) (pins : list (IP * Z * Z)) (spec : ChainSpec) (p : packet) : bool :=
  match cs_ProxyGatewayIP spec with
  | Some gw => IP_Equal gw (pk_dst p) && tcp_to p (cs_ProxyPort spec)
  | None => false
  end ||
  pk_established p ||
  existsb (λ hp, IP_Equal (hp_IP hp) (pk_dst p) && tcp_to p (hp_Port hp)) (cs_Allow spec) ||
  existsb (λ n, Contains n (pk_dst p)) (spec_cidrs spec).1 ||
  match cs_ResolverIP spec with
  | Some r => IP_Equal r (pk_dst p) && (udp_to p 53 || tcp_to p 53)
  | None => false
  end ||
  (bool_decide (pk_proto p = Tcp) && in_set now pins (pk_dst p) (pk_dport p)) ||
  bool_decide (cs_Egress spec = EgressAllow).

Definition allowed6 (now : Z) (pins6 : list (IP * Z * Z)) (spec : ChainSpec) (p : packet) : bool :=
  existsb (λ n, Contains n (pk_dst p)) (spec_cidrs spec).2 ||
  (bool_decide (pk_proto p = Tcp) && in_set now pins6 (pk_dst p) (pk_dport p)) ||
  bool_decide (cs_Egress spec = EgressAllow).

(** The decision on a packet from the tap: none for an IPv4 packet whose source is not the
    guest's address. *)
Definition decision (now : Z) (pins pins6 : list (IP * Z * Z)) (spec : ChainSpec) (p : packet) : option bool :=
  if pk_v6 p then
    Some (negb (IP_Equal metadataV6Addr (pk_dst p)) && negb (cs_BlockNetwork spec) && allowed6 now pins6 spec p)
  else if IP_Equal (cs_GuestIP spec) (pk_src p) then
    Some (negb (is_metadata (pk_dst p)) && negb (cs_BlockNetwork spec) && allowed4 now pins spec p)
  else None.

(** ** The rules of a chain *)

Definition counter_rules (spec : ChainSpec) : list rule :=
  if cs_Counter spec then
    [{| r_match := [IpSaddr (One (cs_GuestIP spec))]; r_action := Count (SandboxEgressCounterName (cs_Tap spec)) |}]
  else [].

Definition accepts (es : list expr) : rule := {| r_match := es; r_action := Accept |}.

Definition allow_match (guest : IP) (hp : HostPort) : list expr :=
  [IpSaddr (One guest); IpDaddr (One (hp_IP hp)); TcpDport (hp_Port hp)].
Definition cidr_match (guest : IP) (n : IPNet) : list expr := [IpSaddr (One guest); IpDaddr (Net n)].
Definition cidr6_match (n : IPNet) : list expr := [Ip6Daddr (Net n)].
Definition proxy_match (guest : IP) (spec : ChainSpec) (gw : IP) : list expr :=
  [IpSaddr (One guest); IpDaddr (One gw); TcpDport (cs_ProxyPort spec)].
Definition resolver_matches (guest r : IP) : list (list expr) :=
  [[IpSaddr (One guest); IpDaddr (One r); UdpDport 53]; [IpSaddr (One guest); IpDaddr (One r); TcpDport 53]].

(** What a chain accepts before its final verdict. *)
Definition accept_matches (spec : ChainSpec) : list (list expr) :=
  let g := cs_GuestIP spec in
  match cs_ProxyGatewayIP spec with Some gw => [proxy_match g spec gw] | None => [] end ++
  [[IpSaddr (One g); CtEstablished]] ++
  (allow_match g <$> cs_Allow spec) ++ (cidr_match g <$> (spec_cidrs spec).1) ++ (cidr6_match <$> (spec_cidrs spec).2) ++
  match cs_ResolverIP spec with Some r => resolver_matches g r | None => [] end ++
  [[IpSaddr (One g); IpDaddrDport (SandboxAllowSetName (cs_Tap spec))];
   [Ip6DaddrDport (SandboxAllowSet6Name (cs_Tap spec))]].

Definition spec_rules (spec : ChainSpec) : list rule :=
  let saddr := IpSaddr (One (cs_GuestIP spec)) in
  counter_rules spec ++ metadata_rules (cs_GuestIP spec) ++
  if cs_BlockNetwork spec then
    [{| r_match := [saddr]; r_action := Drop |}; {| r_match := [NfprotoIpv6]; r_action := Drop |}]
  else
    (accepts <$> accept_matches spec) ++
    let final := if bool_decide (cs_Egress spec = EgressAllow) then Accept else Drop in
    [{| r_match := [saddr]; r_action := final |}; {| r_match := [NfprotoIpv6]; r_action := final |}].

Lemma omap_rules {A} t c (f : A → rule) (l : list A) : omap (added_rule t c) ((λ x, AddRule t c (f x)) <$> l) = f <$> l.
Proof. induction l as [|x l IH]; [done|]. cbn [fmap list_fmap omap list_omap added_rule]. rewrite bool_decide_eq_true_2 by done. by f_equal. Qed.

Lemma added_spec_rules spec :
  omap (added_rule filter_table (SandboxChainName (cs_Tap spec))) (RenderSandboxChainSpec spec) = spec_rules spec.
Proof.
  assert (∀ r, added_rule filter_table (SandboxChainName (cs_Tap spec))
    (AddRule filter_table (SandboxChainName (cs_Tap spec)) r) = Some r) as Ha.
  { intros r. simpl. by rewrite bool_decide_eq_true_2. }
  unfold RenderSandboxChainSpec, spec_rules, RenderMetadataBlock, RenderProxyAccept.
  rewrite omap_app. cbn [omap list_omap added_rule app]. rewrite omap_app. f_equal.
  { unfold counter_rules. destruct (cs_Counter spec); [|done]. cbn [omap list_omap]. by rewrite Ha. }
  rewrite omap_app. f_equal. { apply (omap_rules _ _ id). }
  destruct (cs_BlockNetwork spec). { cbn [omap list_omap]. by rewrite !Ha. }
  unfold accept_matches. rewrite !fmap_app, <- !app_assoc, omap_app. f_equal.
  { destruct (cs_ProxyGatewayIP spec); [|done]. cbn [omap list_omap]. by rewrite Ha. }
  cbn [omap list_omap app fmap list_fmap]. rewrite Ha. f_equal. fold (@omap list _ stmt rule).
  rewrite !omap_app, !omap_rules, <- !list_fmap_compose. do 3 f_equal. f_equal.
  { destruct (cs_ResolverIP spec); [|done]. cbn [omap list_omap]. by rewrite !Ha. }
  cbn [omap list_omap]. by rewrite !Ha.
Qed.

(** ** The verdict of a chain *)

Section verdict.
Context (now : Z) (R : ruleset) (t : table) (p : packet).

Abbreviation verdict := (rules_verdict now R t p (λ _, None)).

Lemma verdict_app rs1 rs2 : verdict (rs1 ++ rs2) = match verdict rs1 with Some v => Some v | None => verdict rs2 end.
Proof.
  induction rs1 as [|r rs1 IH]; simpl; [done|]. rewrite IH. destruct (forallb _ _); [|done]. destruct (r_action r); try done.
  by destruct (mp ← _; _).
Qed.

Lemma verdict_accepts ms :
  verdict (accepts <$> ms) = if existsb (forallb (expr_matches now R t p)) ms then Some true else None.
Proof. induction ms as [|m ms IH]; simpl; [done|]. destruct (forallb _ _); [done|]. apply IH. Qed.

End verdict.

Lemma existsb_ext' {A} (f g : A → bool) l : (∀ x, f x = g x) → existsb f l = existsb g l.
Proof. intros H. induction l as [|x l IH]; simpl; [done|]. by rewrite H, IH. Qed.

Lemma existsb_fmap {A B} (h : A → B) (f : B → bool) l : existsb f (h <$> l) = existsb (λ x, f (h x)) l.
Proof. induction l as [|x l IH]; simpl; [done|]. by rewrite <- IH. Qed.

Lemma existsb_none {A} (f : A → bool) l : (∀ x, f x = false) → existsb f l = false.
Proof. intros H. induction l as [|x l IH]; simpl; [done|]. by rewrite H, IH. Qed.

(** The packets of a sandbox that its chain accepts before the final verdict. *)
Lemma accepted6 now R spec p :
  pk_v6 p = true →
  existsb (forallb (expr_matches now R filter_table p)) (accept_matches spec) || bool_decide (cs_Egress spec = EgressAllow) =
  allowed6 now (elems_of R filter_table (SandboxAllowSet6Name (cs_Tap spec))) spec p.
Proof.
  intros E6. unfold accept_matches, allowed6. rewrite !existsb_app, !existsb_fmap.
  rewrite (existsb_none _ (cs_Allow spec)) by (intros; simpl; by rewrite E6).
  rewrite (existsb_none _ (spec_cidrs spec).1) by (intros; simpl; by rewrite E6).
  rewrite (existsb_ext' _ (λ n, Contains n (pk_dst p)) (spec_cidrs spec).2)
    by (intros; simpl; by rewrite E6, andb_true_r).
  assert (∀ o : option IP, existsb (forallb (expr_matches now R filter_table p))
    match o with Some gw => [proxy_match (cs_GuestIP spec) spec gw] | None => [] end = false) as ->.
  { intros [gw|]; simpl; by rewrite ?E6. }
  assert (∀ o : option IP, existsb (forallb (expr_matches now R filter_table p))
    match o with Some r => resolver_matches (cs_GuestIP spec) r | None => [] end = false) as ->.
  { intros [r|]; simpl; by rewrite ?E6. }
  simpl. rewrite E6. simpl. by rewrite orb_false_r, andb_true_r, ?orb_assoc.
Qed.

Lemma accepted4 now R spec p :
  pk_v6 p = false → IP_Equal (cs_GuestIP spec) (pk_src p) = true →
  existsb (forallb (expr_matches now R filter_table p)) (accept_matches spec) || bool_decide (cs_Egress spec = EgressAllow) =
  allowed4 now (elems_of R filter_table (SandboxAllowSetName (cs_Tap spec))) spec p.
Proof.
  intros E6 Es. unfold accept_matches, allowed4, tcp_to, udp_to. rewrite !existsb_app, !existsb_fmap.
  rewrite (existsb_ext' _ (λ hp, IP_Equal (hp_IP hp) (pk_dst p) && (bool_decide (pk_proto p = Tcp) && (pk_dport p =? hp_Port hp)))
    (cs_Allow spec)) by (intros; simpl; rewrite E6, Es; simpl; by rewrite !andb_true_r).
  rewrite (existsb_ext' _ (λ n, Contains n (pk_dst p)) (spec_cidrs spec).1)
    by (intros; simpl; rewrite E6, Es; simpl; by rewrite !andb_true_r).
  rewrite (existsb_none _ (spec_cidrs spec).2) by (intros; simpl; by rewrite E6).
  assert (∀ o : option IP, existsb (forallb (expr_matches now R filter_table p))
    match o with Some gw => [proxy_match (cs_GuestIP spec) spec gw] | None => [] end =
    match o with
    | Some gw => IP_Equal gw (pk_dst p) && (bool_decide (pk_proto p = Tcp) && (pk_dport p =? cs_ProxyPort spec))
    | None => false
    end) as ->.
  { intros [gw|]; simpl; [|done]. rewrite E6, Es. simpl. by rewrite andb_true_r, orb_false_r. }
  assert (∀ o : option IP, existsb (forallb (expr_matches now R filter_table p))
    match o with Some r => resolver_matches (cs_GuestIP spec) r | None => [] end =
    match o with
    | Some r => IP_Equal r (pk_dst p) &&
        (bool_decide (pk_proto p = Udp) && (pk_dport p =? 53) || bool_decide (pk_proto p = Tcp) && (pk_dport p =? 53))
    | None => false
    end) as ->.
  { intros [r|]; simpl; [|done]. rewrite E6, Es, !andb_true_r, orb_false_r. simpl. by rewrite <- andb_orb_distrib_r. }
  simpl. rewrite E6, Es. simpl. unfold elems_of. rewrite !andb_true_r, !orb_false_r. by rewrite <- !orb_assoc.
Qed.

(** None of the rules of a chain is about an IPv4 packet with another source. *)
Lemma verdict_spoofed now R t p g rs :
  pk_v6 p = false → IP_Equal g (pk_src p) = false →
  Forall (λ r, match r_match r with IpSaddr (One g') :: _ => g' = g
                                  | (Ip6Daddr _ | Ip6DaddrDport _ | NfprotoIpv6) :: _ => True | _ => False end) rs →
  rules_verdict now R t p (λ _, None) rs = None.
Proof.
  intros E6 Es Hrs. induction Hrs as [|r rs Hr _ IH]; simpl; [done|]. rewrite IH.
  destruct (r_match r) as [|[[g'|]|[]|[]|[]| | | | | |] es]; try done; simpl; rewrite ?E6; try done.
  rewrite Hr, Es. done.
Qed.

Lemma spec_rules_of_guest spec :
  Forall (λ r, match r_match r with IpSaddr (One g') :: _ => g' = cs_GuestIP spec
                                  | (Ip6Daddr _ | Ip6DaddrDport _ | NfprotoIpv6) :: _ => True | _ => False end) (spec_rules spec).
Proof.
  unfold spec_rules, counter_rules, metadata_rules. rewrite !Forall_app. split_and!.
  - destruct (cs_Counter spec); repeat constructor.
  - repeat constructor.
  - destruct (cs_BlockNetwork spec); [repeat constructor|]. apply Forall_app. split; [|repeat constructor].
    apply Forall_fmap. unfold accept_matches. rewrite !Forall_app. split_and!.
    + destruct (cs_ProxyGatewayIP spec); repeat constructor.
    + repeat constructor.
    + by apply Forall_fmap, Forall_true.
    + by apply Forall_fmap, Forall_true.
    + by apply Forall_fmap, Forall_true.
    + destruct (cs_ResolverIP spec); repeat constructor.
    + repeat constructor.
Qed.

(** The rules of a chain decide as specified. *)
Lemma chain_decides now R spec p :
  let pins := elems_of R filter_table (SandboxAllowSetName (cs_Tap spec)) in
  let pins6 := elems_of R filter_table (SandboxAllowSet6Name (cs_Tap spec)) in
  rules_verdict now R filter_table p (λ _, None) (spec_rules spec) = decision now pins pins6 spec p.
Proof.
  intros pins pins6. subst pins pins6. destruct (pk_v6 p || IP_Equal (cs_GuestIP spec) (pk_src p)) eqn:Eown.
  2:{ apply orb_false_iff in Eown as [E6 Es]. unfold decision. rewrite E6, Es.
      eapply verdict_spoofed; [done|exact Es|apply spec_rules_of_guest]. }
  unfold spec_rules, decision, metadata_rules, is_metadata.
  rewrite verdict_app. assert (rules_verdict now R filter_table p (λ _, None) (counter_rules spec) = None) as ->.
  { unfold counter_rules. destruct (cs_Counter spec); [|done]. simpl. by destruct (_ && _). }
  destruct (pk_v6 p) eqn:E6; cbn [app rules_verdict r_match forallb expr_matches r_action]; rewrite !E6; cbn [negb andb addr_matches].
  - destruct (IP_Equal metadataV6Addr (pk_dst p)); [done|]. cbn [negb andb].
    destruct (cs_BlockNetwork spec); cbn [rules_verdict r_match forallb expr_matches r_action]; rewrite ?E6; [done|].
    cbn [negb andb]. rewrite verdict_app, verdict_accepts.
    rewrite <- (accepted6 now R spec p E6). destruct (existsb _ (accept_matches spec)); [done|].
    simpl. rewrite E6. simpl. by destruct (bool_decide (cs_Egress spec = EgressAllow)).
  - simpl in Eown. rewrite Eown. cbn [andb]. rewrite !andb_true_r.
    destruct (IP_Equal metadataV4Addr (pk_dst p)); [done|]. destruct (Contains metadataV4Net (pk_dst p)); [done|]. cbn [negb andb orb].
    destruct (cs_BlockNetwork spec); cbn [rules_verdict r_match forallb expr_matches r_action]; rewrite ?E6.
    { cbn [negb andb addr_matches]. by rewrite Eown. }
    cbn [negb andb]. rewrite verdict_app, verdict_accepts.
    rewrite <- (accepted4 now R spec p E6 Eown). destruct (existsb _ (accept_matches spec)); [done|].
    simpl. rewrite E6, Eown. simpl. by destruct (bool_decide (cs_Egress spec = EgressAllow)).
Qed.

End firewall.

End FirewallTheorems.
