(* ===== verification/DnsProxy.v ===== *)
(** * internal/dnsproxy: the controlled resolver

    The handler of proxy.go, the filter of resolved addresses and the pinner of pinner.go.
    The DNS library is an argument of the handler: [set_rcode] builds the message that
    [SetRcode] gives and [exchange] is one query to an upstream, which may take time and may
    fail.  Every path of the handler writes one message, which is its result; the log is
    left out. *)

From Stdlib Require Import Ascii.
From S2P Require Import Prelude Json GoStrings GoNet Allowlist Nft Firewall.
Import Json GoStrings GoNet Allowlist Nft Firewall.

Module DnsProxy.

(** ** Messages *)

Definition TypeA : Z := 1.
Definition TypeAAAA : Z := 28.
Definition RcodeServerFailure : Z := 2.
Definition RcodeRefused : Z := 5.

Record Question := { q_Name : string; q_Qtype : Z }.

(** A record with its name and its time to live, a uint32. *)
Inductive RR :=
| A (name : string) (ttl : Z) (ip : IP)
| AAAA (name : string) (ttl : Z) (ip : IP)
| OtherRR (name : string) (ttl : Z) (data : string).

Definition Header_Ttl (rr : RR) : Z := match rr with A _ ttl _ | AAAA _ ttl _ | OtherRR _ ttl _ => ttl end.

Record Msg := {
  msg_Rcode : Z;
  msg_Question : list Question;
  msg_Answer : list RR;
  msg_Ns : list RR;
  msg_Extra : list RR;
}.

Definition set_answer (rrs : list RR) (m : Msg) : Msg :=
  {| msg_Rcode := msg_Rcode m; msg_Question := msg_Question m; msg_Answer := rrs; msg_Ns := msg_Ns m; msg_Extra := msg_Extra m |}.

(** ** Addresses that are not pinned *)

Definition cgnatNet : IPNet := {| net_IP := IPv4 100 64 0 0; net_Mask := CIDRMask 10 32 |}.
Definition nat64WellKnown : IPNet :=
  {| net_IP := [0; 0x64; 0xff; 0x9b] ++ replicate 12 0; net_Mask := CIDRMask 96 128 |}.
Definition sixToFourNet : IPNet := {| net_IP := [0x20; 0x02] ++ replicate 14 0; net_Mask := CIDRMask 16 128 |}.
Definition siteLocalNet : IPNet := {| net_IP := [0xfe; 0xc0] ++ replicate 14 0; net_Mask := CIDRMask 10 128 |}.

Definition embeddedIPv4 (ip : IP) : option IP :=
  let ip16 := To16 ip in
  if bool_decide (ip16 = []) then None
  else if Contains nat64WellKnown ip then
    Some (IPv4 (byte_at ip16 12) (byte_at ip16 13) (byte_at ip16 14) (byte_at ip16 15))
  else if Contains sixToFourNet ip then
    Some (IPv4 (byte_at ip16 2) (byte_at ip16 3) (byte_at ip16 4) (byte_at ip16 5))
  else None.

(** An embedded address is an IPv4 one, on which there is no further call: the fuel of two
    is enough. *)
Fixpoint blocked_loop (fuel : nat) (ip : IP) : bool :=
  match fuel with
  | O => true
  | S fuel' =>
      if bool_decide (ip = []) || IsUnspecified ip || IsLoopback ip || IsLinkLocalUnicast ip ||
         IsLinkLocalMulticast ip || IsMulticast ip || IsPrivate ip
      then true
      else if is4 ip then Contains cgnatNet (To4 ip)
      else if Contains siteLocalNet ip then true
      else match embeddedIPv4 ip with
           | Some embedded => blocked_loop fuel' embedded
           | None => false
           end
  end.

Definition isBlockedPinAddr (ip : IP) : bool := blocked_loop 2 ip.

(** ** The server *)

Definition ParseUpstreams `{!Unicode} (csv : string) : list string :=
  filter (λ p, p ≠ "") (TrimSpace <$> Split csv ",").

Inductive Addr :=
| UDPAddr (ip : IP)
| TCPAddr (ip : IP)
| OtherAddr (text : string).

(** The empty address is Go's nil. *)
Definition clientIPOf (addr : Addr) : IP :=
  match addr with
  | UDPAddr ip | TCPAddr ip => ip
  | OtherAddr text =>
      match SplitHostPort text with
      | None => []
      | Some (host, _) => default [] (ParseIP host)
      end
  end.

Section server.
Context {unicode : Unicode} {mapRange : MapRange} {K : Type} {host : Host K}.

(** Whole seconds, rounded up, and at least one. *)
Definition pin_seconds (ttl : Z) : Z :=
  let secs := Z.quot ttl second + (if Z.rem ttl second =? 0 then 0 else 1) in
  if secs <? 1 then 1 else secs.

Definition Pin (tap : string) (ip : IP) (port ttl : Z) : step unit :=
  let set := if is4 ip then SandboxAllowSetName tap else SandboxAllowSet6Name tap in
  run (NftStmt (AddSetElement filter_table set ip port (pin_seconds ttl))).

Record Server := {
  s_registry : Registry;
  s_upstreams : list string;
  s_ttlFloor : Z;
  s_tapFor : IP → string;
}.

Variable set_rcode : Msg → Z → Msg.
Variable exchange : Msg → string → K → option Msg * K.

(** The first upstream that answers. *)
Fixpoint forward (ups : list string) (r : Msg) (h : K) : option Msg * K :=
  match ups with
  | [] => (None, h)
  | up :: ups' =>
      match exchange r up h with
      | (Some resp, h') => (Some resp, h')
      | (None, h') => forward ups' r h'
      end
  end.

(** A pin that fails is only logged. *)
Fixpoint pin_ports (tap : string) (addr : IP) (ttl : Z) (ports : list Z) (h : K) : K :=
  match ports with
  | [] => h
  | port :: ports' => pin_ports tap addr ttl ports' (Pin tap addr port ttl h).2
  end.

(** The records that are kept, with their addresses pinned. *)
Fixpoint pin_answers (s : Server) (tap : string) (ports : list Z) (rrs : list RR) (h : K) : list RR * K :=
  match rrs with
  | [] => ([], h)
  | ans :: rrs' =>
      let pin addr :=
        if isBlockedPinAddr addr then pin_answers s tap ports rrs' h
        else
          let ttl := Z.max (Header_Ttl ans * second) (s_ttlFloor s) in
          let '(kept, h') := pin_answers s tap ports rrs' (pin_ports tap addr ttl ports h) in
          (ans :: kept, h') in
      match ans with
      | A _ _ addr | AAAA _ _ addr => pin addr
      | OtherRR _ _ _ => let '(kept, h') := pin_answers s tap ports rrs' h in (ans :: kept, h')
      end
  end.

Definition ServeDNS (s : Server) (remote : Addr) (r : Msg) (h : K) : Msg * K :=
  let refuse := (set_rcode r RcodeRefused, h) in
  match msg_Question r with
  | [] => refuse
  | q :: _ =>
      let clientIP := clientIPOf remote in
      if bool_decide (clientIP = []) then refuse
      else if negb (q_Qtype q =? TypeA) && negb (q_Qtype q =? TypeAAAA) then refuse
      else match Lookup clientIP (q_Name q) (s_registry s) with
           | None => refuse
           | Some ports =>
               let tap := s_tapFor s clientIP in
               if bool_decide (tap = "") then refuse
               else match forward (s_upstreams s) r h with
                    | (None, h') => (set_rcode r RcodeServerFailure, h')
                    | (Some resp, h') =>
                        let '(kept, h'') := pin_answers s tap ports (msg_Answer resp) h' in
                        (set_answer kept resp, h'')
                    end
           end
  end.

End server.

End DnsProxy.
