(* ===== verification/NetworkTheorems.v ===== *)
(** * The sandbox network: theorems

    What a sandbox may reach over any history of the operations on a host's network: the
    set-up and the tear-down of sandboxes on a node and in a husk pod, which may fail at
    any command, and the answers of the DNS proxy. *)

From Stdlib Require Import Ascii.
From S2P Require Import Prelude Json GoStrings GoNet Netconf Allowlist Nft Firewall DnsProxy NftTheorems FirewallTheorems.
Import Json GoStrings GoNet Netconf Allowlist Nft Firewall DnsProxy NftTheorems FirewallTheorems.

Module NetworkTheorems.

(** ** Names of objects *)

Lemma str_app_inj_r x y s : x +:+ s = y +:+ s → x = y.
Proof.
  revert y. induction x as [|c x IH]; intros [|d y] H; [done| | |].
  - exfalso. apply (f_equal String.length) in H. rewrite !str_length_app in H. simpl in H. lia.
  - exfalso. apply (f_equal String.length) in H. rewrite !str_length_app in H. simpl in H. lia.
  - injection H as -> H. f_equal. by apply IH.
Qed.

Lemma set_names_differ x y : x +:+ "_dyn" ≠ y +:+ "_dyn6".
Proof.
  revert y. induction x as [|c x IH]; intros y H.
  - do 4 (destruct y as [|? y]; [discriminate|]; injection H as _ H). by destruct y.
  - destruct y as [|d y]; [|injection H as _ H; by apply (IH y)].
    injection H as _ H. do 4 (destruct x as [|? x]; [discriminate|]; injection H as _ H). by destruct x.
Qed.

Lemma SandboxChainName_inj x y : SandboxChainName x = SandboxChainName y → x = y.
Proof. apply str_app_inj_l. Qed.

Lemma SandboxAllowSetName_inj x y : SandboxAllowSetName x = SandboxAllowSetName y → x = y.
Proof. intros H%str_app_inj_l. by apply str_app_inj_r in H. Qed.

Lemma SandboxAllowSet6Name_inj x y : SandboxAllowSet6Name x = SandboxAllowSet6Name y → x = y.
Proof. intros H%str_app_inj_l. by apply str_app_inj_r in H. Qed.

Lemma allow_sets_differ x y : SandboxAllowSetName x ≠ SandboxAllowSet6Name y.
Proof. intros H%str_app_inj_l. by apply set_names_differ in H. Qed.

(** ** What statements leave alone *)

(** A statement that changes neither the chain, the dispatch nor the sets of [tap]. *)
Definition foreign (tap : string) (s : stmt) : Prop :=
  match s with
  | AddRule t c _ | FlushChain t c | DeleteChain t c => (t, c) ≠ (filter_table, SandboxChainName tap)
  | AddElement t m key _ | DeleteElement t m key => (t, m, key) ≠ (filter_table, DispatchMapName, tap)
  | AddSetElement t n _ _ _ | DeleteSet t n =>
      (t, n) ≠ (filter_table, SandboxAllowSetName tap) ∧ (t, n) ≠ (filter_table, SandboxAllowSet6Name tap)
  | DeleteTable t => t ≠ filter_table
  | _ => True
  end.

(** A statement that does not change the base chain. *)
Definition off_base (s : stmt) : Prop :=
  match s with
  | AddRule t c _ | FlushChain t c | DeleteChain t c => (t, c) ≠ (filter_table, BaseChainName)
  | DeleteTable t => t ≠ filter_table
  | _ => True
  end.

Lemma forallb_Forall {A} (f : A → bool) (P : A → Prop) l : (∀ x, P x → f x = true) → Forall P l → forallb f l = true.
Proof. intros Hf. induction 1; simpl; [done|]. by rewrite Hf. Qed.

Lemma omap_nothing {A B} (f : A → option B) (P : A → Prop) l : (∀ x, P x → f x = None) → Forall P l → omap f l = [].
Proof. intros Hf. induction 1; simpl; [done|]. by rewrite Hf. Qed.

Ltac by_name := intros [] ?; simpl in *; rewrite ?negb_true_iff, ?bool_decide_eq_false; naive_solver.

Lemma foreign_chain tap l R R' :
  applied l R R' → Forall (foreign tap) l →
  chain_rules R' filter_table (SandboxChainName tap) = chain_rules R filter_table (SandboxChainName tap).
Proof.
  intros Ha Hl. rewrite (applied_chain _ _ _ _ _ Ha), (omap_nothing _ (foreign tap)); [apply app_nil_r| |done|].
  - intros [] ?; simpl in *; try done. by rewrite bool_decide_eq_false_2.
  - eapply forallb_Forall; [|done]. by_name.
Qed.

Lemma off_base_chain l R R' :
  applied l R R' → Forall off_base l → chain_rules R' filter_table BaseChainName = chain_rules R filter_table BaseChainName.
Proof.
  intros Ha Hl. rewrite (applied_chain _ _ _ _ _ Ha), (omap_nothing _ off_base); [apply app_nil_r| |done|].
  - intros [] ?; simpl in *; try done. by rewrite bool_decide_eq_false_2.
  - eapply forallb_Forall; [|done]. by_name.
Qed.

Lemma foreign_map tap l R R' :
  applied l R R' → Forall (foreign tap) l →
  jump_of R' filter_table DispatchMapName tap = jump_of R filter_table DispatchMapName tap.
Proof.
  intros Ha Hl. rewrite (applied_map _ _ _ _ _ _ Ha), (omap_nothing _ (foreign tap)); [done| |done|].
  - intros [] ?; simpl in *; try done. by rewrite bool_decide_eq_false_2.
  - eapply forallb_Forall; [|done]. by_name.
Qed.

Lemma foreign_set tap l R R' n :
  n = SandboxAllowSetName tap ∨ n = SandboxAllowSet6Name tap →
  applied l R R' → Forall (foreign tap) l → elems_of R' filter_table n = elems_of R filter_table n.
Proof.
  intros Hn Ha Hl. eapply applied_set; [done|]. eapply forallb_Forall; [|done].
  intros [] ?; simpl in *; rewrite ?negb_true_iff, ?bool_decide_eq_false; naive_solver.
Qed.

(** ** The commands of a sandbox *)

Section commands.
Context {unicode : Unicode}.

Definition deletions (tap : string) : list stmt :=
  [NftDeleteDispatchElement tap; NftDeleteSandboxChain tap; NftDeleteSandboxAllowSet tap;
   NftDeleteSandboxEgressCounter tap; NftDeleteInputDispatchElement tap; NftDeleteSandboxInputChain tap;
   NftDeleteProxyDNATDispatchElement tap; NftDeleteProxyDNATChain tap].

Definition pin_set (tap : string) (ip : IP) : string :=
  if is4 ip then SandboxAllowSetName tap else SandboxAllowSet6Name tap.

(** The statements that one command on behalf of [tap] runs; its pins satisfy [J]. *)
Inductive cmd_of (J : IP → Z → Prop) (tap : string) : list stmt → Prop :=
| cmd_none : cmd_of J tap []
| cmd_shared : cmd_of J tap RenderSharedTable
| cmd_chain spec : cs_Tap spec = tap → cmd_of J tap (RenderSandboxChainSpec spec)
| cmd_dnat sentinel port gw : cmd_of J tap (RenderProxyDNAT tap sentinel port gw)
| cmd_doc cfg allow v4 v6 : nc_Tap cfg = tap → cmd_of J tap (nftDoc cfg allow v4 v6)
| cmd_delete s : s ∈ deletions tap → cmd_of J tap [s]
| cmd_nat : cmd_of J tap RenderMasqueradeDelete
| cmd_pin ip port secs : J ip port → cmd_of J tap [AddSetElement filter_table (pin_set tap ip) ip port secs].

Hint Constructors cmd_of : core.

(** The statements of a rendered chain. *)
Definition in_chain (tap : string) (s : stmt) : Prop :=
  match s with
  | AddChain t c => t = filter_table ∧ c = SandboxChainName tap
  | AddRule t c r => t = filter_table ∧ c = SandboxChainName tap
  | AddSet _ _ _ | AddCounter _ _ => True
  | AddElement t m key c => t = filter_table ∧ m = DispatchMapName ∧ key = tap ∧ c = SandboxChainName tap
  | _ => False
  end.

Lemma rendered_chain spec : Forall (in_chain (cs_Tap spec)) (RenderSandboxChainSpec spec).
Proof.
  unfold RenderSandboxChainSpec, RenderMetadataBlock, RenderProxyAccept.
  repeat (apply Forall_app; split); try by repeat constructor.
  - destruct (cs_Counter spec); by repeat constructor.
  - destruct (cs_BlockNetwork spec); [by repeat constructor|].
    repeat (apply Forall_app; split); try by repeat constructor.
    + destruct (cs_ProxyGatewayIP spec); by repeat constructor.
    + apply Forall_fmap, Forall_true. done.
    + apply Forall_fmap, Forall_true. done.
    + apply Forall_fmap, Forall_true. done.
    + destruct (cs_ResolverIP spec); by repeat constructor.
Qed.

(** The statements of an input chain. *)
Definition in_input_chain (tap : string) (s : stmt) : Prop :=
  match s with
  | AddChain t c => t = filter_table ∧ c = SandboxInputChainName tap
  | AddRule t c r => t = filter_table ∧ c = SandboxInputChainName tap
  | AddElement t m key c => t = filter_table ∧ m = InputDispatchMapName ∧ key = tap ∧ c = SandboxInputChainName tap
  | _ => False
  end.

Lemma rendered_input_chain spec : Forall (in_input_chain (is_Tap spec)) (RenderSandboxInputChainSpec spec).
Proof.
  unfold RenderSandboxInputChainSpec. repeat (apply Forall_app; split); try by repeat constructor.
  - destruct (is_ResolverIP spec); by repeat constructor.
  - destruct (bool_decide (_ = InboundAllow)); [|constructor]. destruct (bool_decide _); [by repeat constructor|].
    destruct (cidrs_or_none _) as [v4 v6]. apply Forall_app. split; apply Forall_fmap, Forall_true; done.
Qed.

Lemma in_chain_foreign tap tap' s : tap ≠ tap' → in_chain tap s → foreign tap' s.
Proof.
  intros Hne. destruct s; simpl; try done.
  - intros [-> ->] [= H]. by apply Hne, SandboxChainName_inj.
  - intros (-> & -> & -> & ->). congruence.
Qed.

Lemma in_input_chain_foreign tap tap' s : in_input_chain tap s → foreign tap' s.
Proof. destruct s; simpl; try done; [intros [-> ->] [= H]; discriminate H|by intros (-> & -> & -> & ->)]. Qed.

Lemma in_chain_off_base tap s : in_chain tap s → off_base s.
Proof. destruct s; simpl; try done. by intros [-> ->]. Qed.

Lemma in_input_chain_off_base tap s : in_input_chain tap s → off_base s.
Proof. destruct s; simpl; try done. by intros [-> ->]. Qed.

Lemma pin_set_ne tap tap' ip :
  tap ≠ tap' → pin_set tap ip ≠ SandboxAllowSetName tap' ∧ pin_set tap ip ≠ SandboxAllowSet6Name tap'.
Proof.
  intros Hne. unfold pin_set. destruct (is4 ip); split; intros H.
  - by apply Hne, SandboxAllowSetName_inj.
  - by apply allow_sets_differ in H.
  - symmetry in H. by apply allow_sets_differ in H.
  - by apply Hne, SandboxAllowSet6Name_inj.
Qed.

Lemma deletion_foreign tap tap' s : tap ≠ tap' → s ∈ deletions tap → foreign tap' s.
Proof.
  intros Hne Hs. unfold deletions in Hs. repeat (apply elem_of_cons in Hs as [->|Hs]); simpl; try done.
  - congruence.
  - intros [= H]. by apply Hne, SandboxChainName_inj.
  - destruct (pin_set_ne tap tap' [0; 0; 0; 0] Hne) as [H4 H6]. split; intros H%(f_equal snd); [by apply H4|by apply H6].
  - by apply elem_of_nil in Hs.
Qed.

Lemma doc_split cfg allow v4 v6 : ∃ rest,
  nftDoc cfg allow v4 v6 = RenderSharedTable ++ RenderSandboxChainSpec (husk_spec cfg allow v4 v6) ++ rest ∧
  Forall off_base rest ∧ ∀ tap, Forall (foreign tap) rest.
Proof.
  exists (RenderMasquerade (nc_GuestIP cfg) ++ RenderSharedInputTable ++ RenderSandboxInputChainSpec (husk_input_spec cfg)).
  split; [done|]. pose proof (rendered_input_chain (husk_input_spec cfg)) as Hin. split.
  - rewrite !Forall_app. split_and!; try by repeat constructor.
    eapply Forall_impl; [exact Hin|]. apply in_input_chain_off_base.
  - intros tap. rewrite !Forall_app. split_and!; try by repeat constructor.
    eapply Forall_impl; [exact Hin|]. apply in_input_chain_foreign.
Qed.

Lemma shared_foreign tap : Forall (foreign tap) RenderSharedTable.
Proof. by repeat constructor. Qed.

Lemma cmd_foreign J tap tap' l : tap ≠ tap' → cmd_of J tap l → Forall (foreign tap') l.
Proof.
  intros Hne [|  |spec Hs|  |cfg allow v4 v6 Hs|s Hs| |ip port secs _]; try by repeat constructor.
  - subst. eapply Forall_impl; [apply rendered_chain|]. intros s. by apply in_chain_foreign.
  - destruct (doc_split cfg allow v4 v6) as (rest & -> & _ & Hf). rewrite !Forall_app; split_and!;
      [apply shared_foreign| |apply Hf]. subst. eapply Forall_impl; [apply rendered_chain|]. intros s. by apply in_chain_foreign.
  - constructor; [|constructor]. by eapply deletion_foreign.
  - constructor; [|constructor]. destruct (pin_set_ne tap tap' ip Hne). simpl. split; congruence.
Qed.

(** ** The base chain *)

Definition dispatching (R : ruleset) : Prop :=
  chain_rules R filter_table BaseChainName = [{| r_match := []; r_action := IifnameVmap DispatchMapName |}].

Lemma shared_dispatching R R' : applied RenderSharedTable R R' → dispatching R'.
Proof.
  unfold RenderSharedTable. intros Ha.
  apply (applied_app_inv [_; _; _; FlushChain filter_table BaseChainName] [_]) in Ha as (R1 & H1 & H2).
  unfold dispatching. rewrite (applied_chain _ _ _ _ _ H2) by done. simpl.
  apply (applied_app_inv [_; _; _] [_]) in H1 as (R0 & _ & H1). inversion H1 as [|? ? ? ? R1' ? Hf Hn]; subst.
  inversion Hn; subst. simpl in Hf. split_apply. rewrite chain_rules_insert. done.
Qed.

Lemma cmd_dispatching J tap l R R' : cmd_of J tap l → applied l R R' → dispatching R → dispatching R'.
Proof.
  intros Hc Ha Hd. destruct Hc as [|  |spec Hs|  |cfg allow v4 v6 Hs|s Hs| |ip port secs _].
  2: by eapply shared_dispatching.
  4:{ destruct (doc_split cfg allow v4 v6) as (rest & Heq & Hb & _). rewrite Heq in Ha.
      apply applied_app_inv in Ha as (R1 & H1 & Ha). apply shared_dispatching in H1.
      unfold dispatching. rewrite (off_base_chain _ _ _ Ha); [done|]. apply Forall_app. split; [|done].
      eapply Forall_impl; [apply rendered_chain|]. apply in_chain_off_base. }
  all: unfold dispatching; rewrite (off_base_chain _ _ _ Ha); [done|]; try by repeat constructor.
  - eapply Forall_impl; [apply rendered_chain|]. apply in_chain_off_base.
  - constructor; [|constructor]. unfold deletions in Hs. repeat (apply elem_of_cons in Hs as [->|Hs]); simpl; try done.
    by apply elem_of_nil in Hs.
Qed.

(** ** What a component does to the rules *)

(** Commands that satisfy [P], one after the other. *)
Inductive did (P : list stmt → Prop) : ruleset → ruleset → Prop :=
| did_nothing R : did P R R
| did_one l R R1 R2 : P l → applied l R R1 → did P R1 R2 → did P R R2.

Lemma did_trans P R R1 R2 : did P R R1 → did P R1 R2 → did P R R2.
Proof. induction 1; [done|]. intros. econstructor; eauto. Qed.

Lemma did_mono (P Q : list stmt → Prop) R R' : (∀ l, P l → Q l) → did P R R' → did Q R R'.
Proof. intros HPQ. induction 1; econstructor; eauto. Qed.

(** [tap] is filtered by the chain of [spec]. *)
Definition live (tap : string) (spec : ChainSpec) (R : ruleset) : Prop :=
  dispatching R ∧ jump_of R filter_table DispatchMapName tap = Some (SandboxChainName tap) ∧
  chain_rules R filter_table (SandboxChainName tap) = spec_rules spec.

Lemma live_foreign J tap tap' spec R R' : tap ≠ tap' → did (cmd_of J tap) R R' → live tap' spec R → live tap' spec R'.
Proof.
  intros Hne. induction 1 as [|l R R1 R2 Hc Ha Hd IH]; [done|]. intros (Hb & Hj & Hr). apply IH.
  assert (Forall (foreign tap') l) as Hf by by eapply cmd_foreign.
  split_and!; [by eapply cmd_dispatching|by rewrite (foreign_map _ _ _ _ Ha Hf)|by rewrite (foreign_chain _ _ _ _ Ha Hf)].
Qed.

Lemma sets_foreign J tap tap' n R R' :
  tap ≠ tap' → n = SandboxAllowSetName tap' ∨ n = SandboxAllowSet6Name tap' →
  did (cmd_of J tap) R R' → elems_of R' filter_table n = elems_of R filter_table n.
Proof.
  intros Hne Hn. induction 1 as [|l R R1 R2 Hc Ha Hd IH]; [done|]. rewrite IH.
  eapply foreign_set; [exact Hn|exact Ha|by eapply cmd_foreign].
Qed.

(** Pins alone change neither the chain nor the dispatch, and the elements they add
    satisfy [J]. *)
Inductive pin_of (J : IP → Z → Prop) (tap : string) : list stmt → Prop :=
| pin_one ip port secs : J ip port → pin_of J tap [AddSetElement filter_table (pin_set tap ip) ip port secs].

Lemma pin_cmd J tap l : pin_of J tap l → cmd_of J tap l.
Proof. intros []. by constructor. Qed.

Lemma live_pins J tap spec R R' : did (pin_of J tap) R R' → live tap spec R → live tap spec R'.
Proof.
  induction 1 as [|l R R1 R2 Hc Ha Hd IH]; [done|]. intros (Hb & Hj & Hr). apply IH.
  pose proof (cmd_dispatching _ _ _ _ _ (pin_cmd _ _ _ Hc) Ha Hb). destruct Hc as [ip port secs HJ].
  split_and!; [done| |].
  - by rewrite (applied_map _ _ _ _ _ _ Ha).
  - rewrite (applied_chain _ _ _ _ _ Ha) by done. by rewrite app_nil_r.
Qed.

Definition pins_satisfy (J : IP → Z → Prop) (tap : string) (R : ruleset) : Prop :=
  ∀ n ip port e, n = SandboxAllowSetName tap ∨ n = SandboxAllowSet6Name tap →
  (ip, port, e) ∈ elems_of R filter_table n → J ip port.

Lemma pins_satisfied J tap R R' : did (pin_of J tap) R R' → pins_satisfy J tap R → pins_satisfy J tap R'.
Proof.
  induction 1 as [|l R R1 R2 Hc Ha Hd IH]; [done|]. intros Hp. apply IH. destruct Hc as [ip port secs HJ].
  inversion Ha as [|now ? ? ? R1' ? H1 Hn]; subst. inversion Hn; subst. intros n ip' port' e Hn' Hin.
  simpl in H1. split_apply. unfold elems_of in Hin. simpl in Hin.
  destruct (decide (pin_set tap ip = n)) as [<-|Hne].
  - rewrite lookup_insert_eq in Hin. simpl in Hin. apply elem_of_cons in Hin as [[= -> -> ->]|Hin]; [done|].
    eapply (Hp (pin_set tap ip)); [done|]. unfold elems_of. by rewrite H.
  - rewrite lookup_insert_ne in Hin by congruence. by eapply (Hp n).
Qed.

End commands.

(** ** Operations *)

Section operations.
Context {unicode : Unicode} {mapRange : MapRange} {K : Type} {host : Host K} {lawful : LawfulHost K}.

Definition does {A} (P : list stmt → Prop) (m : step A) : Prop := ∀ h, did P (host_rules h) (host_rules (m h).2).

Section combinators.
Context (P : list stmt → Prop).

Lemma run_does c : P (stmts_of c) → does P (run c).
Proof.
  intros HP h. pose proof (host_run_law c h) as Hl. unfold run. destruct (host_run c h) as [[] h']; simpl.
  - eapply did_one; [exact HP|by eapply apply_all_applied|constructor].
  - rewrite Hl. constructor.
Qed.

Lemma ret_does {A} (r : result string A) : does P (ret r).
Proof. intros h. constructor. Qed.

Lemma andThen_does {A} (m : step unit) (k : step A) : does P m → does P k → does P (andThen m k).
Proof.
  intros Hm Hk h. unfold andThen. specialize (Hm h). destruct (m h) as [[] h']; simpl in *; [|done].
  eapply did_trans; [exact Hm|apply Hk].
Qed.

Lemma ignoring_does {A} (m : step unit) (k : step A) : does P m → does P k → does P (ignoring m k).
Proof. intros Hm Hk h. unfold ignoring. eapply did_trans; [apply Hm|apply Hk]. Qed.

Lemma attempt_all_does cs : Forall (λ c, P (stmts_of c)) cs → does P (attempt_all cs).
Proof.
  induction 1 as [|c cs Hc Hcs IH]; intros h; simpl; [constructor|].
  pose proof (run_does c Hc h) as H1. destruct (run c h) as [r h1]. specialize (IH h1).
  destruct (attempt_all cs h1) as [r' h2]. simpl in *. by eapply did_trans.
Qed.

End combinators.

Context (enableForward : K → result string unit * K) (set_rcode : Msg → Z → Msg) (exchange : Msg → string → K → option Msg * K).
(** Neither the forwarding switch nor a query to an upstream changes the rules. *)
Hypothesis forward_rules : ∀ h, host_rules (enableForward h).2 = host_rules h.
Hypothesis exchange_rules : ∀ m up h, host_rules (exchange m up h).2 = host_rules h.

Lemma forward_does P : does P enableForward.
Proof. intros h. rewrite forward_rules. constructor. Qed.

Create HintDb does.
Hint Resolve ret_does andThen_does ignoring_does forward_does : does.
Hint Extern 1 (does _ (run _)) => apply run_does; simpl; constructor : does.

Lemma setup_does J id policy resolverIP opts :
  does (cmd_of J (id_TapName id)) (setup enableForward id policy resolverIP opts).
Proof.
  unfold setup. apply andThen_does; [destruct (ao_enableForwarding opts); auto with does|].
  apply ignoring_does; [auto with does|]. do 4 (apply andThen_does; [auto with does|]).
  destruct (ParseCIDRList _) as [[v4 v6]|]; [|auto with does].
  apply andThen_does; [apply run_does; by constructor|].
  apply andThen_does; [destruct (sp_ProxySentinel policy); auto with does|]. destruct (bool_decide _); auto with does.
Qed.

Lemma deletion_cmd J tap s : s ∈ deletions tap → cmd_of J tap (stmts_of (NftStmt s)).
Proof. intros. by constructor. Qed.

Lemma teardown_does J id opts : does (cmd_of J (id_TapName id)) (teardown id opts).
Proof.
  unfold teardown. apply attempt_all_does. rewrite !Forall_app. split_and!.
  - destruct (bool_decide _); repeat constructor.
  - constructor; [constructor|]. repeat (constructor; [apply deletion_cmd; unfold deletions; set_solver|]). constructor.
  - destruct (ao_proxyEnabled opts); repeat (constructor; [apply deletion_cmd; unfold deletions; set_solver|]); constructor.
Qed.

Lemma teardownEgressFilter_does J tap : does (cmd_of J tap) (teardownEgressFilter tap).
Proof.
  unfold teardownEgressFilter. apply attempt_all_does. constructor; [constructor|].
  do 6 (constructor; [apply deletion_cmd; unfold deletions; set_solver|]). repeat constructor.
Qed.

Lemma or_teardown_does J tap m : does (cmd_of J tap) m → does (cmd_of J tap) (or_teardown tap m).
Proof.
  intros Hm h. unfold or_teardown. specialize (Hm h). destruct (m h) as [[] h']; simpl in *; [done|].
  eapply did_trans; [exact Hm|apply teardownEgressFilter_does].
Qed.

Lemma applyEgressPolicy_does J cfg : does (cmd_of J (nc_Tap cfg)) (applyEgressPolicy cfg).
Proof.
  unfold applyEgressPolicy. destruct (SplitAllowList _) as [[allow ?]|]; [|auto with does].
  destruct (ParseCIDRList _) as [[v4 v6]|]; [|auto with does]. apply or_teardown_does, run_does. by constructor.
Qed.

Lemma applyEgressFilter_does J cfg : does (cmd_of J (nc_Tap cfg)) (applyEgressFilter (Some enableForward) cfg).
Proof.
  unfold applyEgressFilter. destruct (SplitAllowList _) as [[allow ?]|]; [|auto with does].
  destruct (ParseCIDRList _) as [[v4 v6]|]; [|auto with does].
  apply andThen_does; [|apply applyEgressPolicy_does]. unfold ensureEgressLink.
  apply andThen_does; [simpl; auto with does|]. apply ignoring_does; [auto with does|]. apply or_teardown_does. auto with does.
Qed.

(** A pin is for an address outside the refused ranges and a port that the allowlist of the guest opens for the
    name that it asked for. *)
Definition resolved (s : Server) (tap : string) (ip : IP) (port : Z) : Prop :=
  isBlockedPinAddr ip = false ∧
  ∃ guest name ports, s_tapFor s guest = tap ∧ Lookup guest name (s_registry s) = Some ports ∧ port ∈ ports.

Lemma pin_ports_did J tap addr ttl ports h :
  (∀ port, port ∈ ports → J addr port) → did (pin_of J tap) (host_rules h) (host_rules (pin_ports tap addr ttl ports h)).
Proof.
  revert h. induction ports as [|port ports IH]; simpl; intros h HJ; [constructor|].
  eapply did_trans; [|apply IH; intros; apply HJ; by apply list_elem_of_further].
  unfold Pin. apply (run_does _ (NftStmt _)). apply pin_one. apply HJ, list_elem_of_here.
Qed.

Lemma pin_answers_did J s tap ports rrs h :
  (∀ addr port, isBlockedPinAddr addr = false → port ∈ ports → J addr port) →
  did (pin_of J tap) (host_rules h) (host_rules (pin_answers s tap ports rrs h).2).
Proof.
  intros HJ. revert h. induction rrs as [|ans rrs IH]; simpl; intros h; [constructor|].
  assert (∀ addr, did (pin_of J tap) (host_rules h) (host_rules (
    if isBlockedPinAddr addr then pin_answers s tap ports rrs h
    else let ttl := Z.max (Header_Ttl ans * second) (s_ttlFloor s) in
         let '(kept, h') := pin_answers s tap ports rrs (pin_ports tap addr ttl ports h) in (ans :: kept, h')).2)) as Hp.
  { intros addr. destruct (isBlockedPinAddr addr) eqn:Eb; [apply IH|]. cbv zeta.
    pose proof (pin_ports_did J tap addr (Z.max (Header_Ttl ans * second) (s_ttlFloor s)) ports h) as H1.
    specialize (IH (pin_ports tap addr (Z.max (Header_Ttl ans * second) (s_ttlFloor s)) ports h)).
    destruct (pin_answers _ _ _ _ _) as [kept h']. simpl in *. eapply did_trans; [apply H1|exact IH]. eauto. }
  destruct ans as [? ? ip|? ? ip|]; [apply (Hp ip)|apply (Hp ip)|].
  specialize (IH h). by destruct (pin_answers _ _ _ _ _).
Qed.

Lemma forward_rules_kept ups r h : host_rules (forward exchange ups r h).2 = host_rules h.
Proof.
  revert h. induction ups as [|up ups IH]; simpl; intros h; [done|].
  pose proof (exchange_rules r up h) as He. destruct (exchange r up h) as [[resp|] h']; simpl in *; [done|].
  by rewrite IH.
Qed.

Lemma ServeDNS_did s remote r h :
  let tap := s_tapFor s (clientIPOf remote) in
  did (pin_of (resolved s tap) tap) (host_rules h) (host_rules (ServeDNS set_rcode exchange s remote r h).2).
Proof.
  intros tap. unfold ServeDNS. destruct (msg_Question r) as [|q ?]; [constructor|].
  destruct (bool_decide _); [constructor|]. destruct (_ && _); [constructor|].
  destruct (Lookup _ _ _) as [ports|] eqn:El; [|constructor]. destruct (bool_decide _); [constructor|].
  pose proof (forward_rules_kept (s_upstreams s) r h) as Hf. destruct (forward _ _ _ _) as [[resp|] h'] eqn:Ef; simpl in *.
  - pose proof (pin_answers_did (resolved s tap) s tap ports (msg_Answer resp) h') as Hp.
    fold tap. destruct (pin_answers _ _ _ _ _) as [kept h'']. simpl in *. rewrite Hf in Hp. apply Hp.
    intros addr port Hb Hin. split; [done|]. eauto 10.
  - rewrite Hf. constructor.
Qed.

(** ** Histories *)

Inductive op :=
| OpSetup (id : Identity) (policy : SandboxPolicy) (resolverIP : option IP) (opts : applyOptions)
| OpTeardown (id : Identity) (opts : applyOptions)
| OpHuskApply (cfg : NetfilterConfig)
| OpHuskPolicy (cfg : NetfilterConfig)
| OpHuskTeardown (tap : string)
| OpServe (s : Server) (remote : Addr) (r : Msg).

Definition op_tap (o : op) : string :=
  match o with
  | OpSetup id _ _ _ | OpTeardown id _ => id_TapName id
  | OpHuskApply cfg | OpHuskPolicy cfg => nc_Tap cfg
  | OpHuskTeardown tap => tap
  | OpServe s remote _ => s_tapFor s (clientIPOf remote)
  end.

Definition is_serve (o : op) : bool := match o with OpServe _ _ _ => true | _ => false end.

Definition exec (h : K) (o : op) : K :=
  match o with
  | OpSetup id policy resolverIP opts => (setup enableForward id policy resolverIP opts h).2
  | OpTeardown id opts => (teardown id opts h).2
  | OpHuskApply cfg => (applyEgressFilter (Some enableForward) cfg h).2
  | OpHuskPolicy cfg => (applyEgressPolicy cfg h).2
  | OpHuskTeardown tap => (teardownEgressFilter tap h).2
  | OpServe s remote r => (ServeDNS set_rcode exchange s remote r h).2
  end.

Lemma exec_did J h o : is_serve o = false → did (cmd_of J (op_tap o)) (host_rules h) (host_rules (exec h o)).
Proof.
  destruct o; simpl; intros Hs; [apply setup_does|apply teardown_does|apply applyEgressFilter_does|
    apply applyEgressPolicy_does|apply teardownEgressFilter_does|done].
Qed.

(** Some answer of the history opened the port. *)
Definition opened_by (ops : list op) (tap : string) (ip : IP) (port : Z) : Prop :=
  ∃ s remote r, OpServe s remote r ∈ ops ∧ resolved s tap ip port.

(** The port is still open for an earlier sandbox on the tap. *)
Definition left_open (R : ruleset) (tap : string) (ip : IP) (port : Z) : Prop :=
  ∃ e, (ip, port, e) ∈ elems_of R filter_table (SandboxAllowSetName tap) ++ elems_of R filter_table (SandboxAllowSet6Name tap).

Section history.
Context (R0 : ruleset) (tap : string) (spec : ChainSpec) (ops0 : list op).
Let opened (ip : IP) (port : Z) : Prop := opened_by ops0 tap ip port ∨ left_open R0 tap ip port.

Lemma exec_live h o :
  (op_tap o = tap → is_serve o = true) → o ∈ ops0 →
  live tap spec (host_rules h) ∧ pins_satisfy opened tap (host_rules h) →
  live tap spec (host_rules (exec h o)) ∧ pins_satisfy opened tap (host_rules (exec h o)).
Proof.
  intros Ho Hin [Hl Hp]. destruct (is_serve o) eqn:Es.
  - destruct o as [| | | | |s remote r]; try done. simpl in Ho |- *.
    pose proof (ServeDNS_did s remote r h) as Hd. simpl in Hd.
    destruct (decide (s_tapFor s (clientIPOf remote) = tap)) as [Ht|Ht].
    + rewrite Ht in Hd. split; [by eapply live_pins|]. eapply pins_satisfied; [|done].
      eapply did_mono; [|exact Hd]. intros l [ip port secs HJ]. constructor. left. exists s, remote, r. done.
    + apply (did_mono _ _ _ _ (pin_cmd _ _)) in Hd. split; [by eapply live_foreign|].
      intros n ip port e Hn. rewrite (sets_foreign _ _ _ _ _ _ Ht Hn Hd). by apply Hp.
  - assert (op_tap o ≠ tap) as Ht by (intros Ht; by specialize (Ho Ht)).
    pose proof (exec_did (λ _ _, True) h o Es) as Hd. split; [by eapply live_foreign|].
    intros n ip port e Hn. rewrite (sets_foreign _ _ _ _ _ _ Ht Hn Hd). by apply Hp.
Qed.

Lemma execs_live ops h :
  Forall (λ o, (op_tap o = tap → is_serve o = true) ∧ o ∈ ops0) ops →
  live tap spec (host_rules h) ∧ pins_satisfy opened tap (host_rules h) →
  live tap spec (host_rules (foldl exec h ops)) ∧ pins_satisfy opened tap (host_rules (foldl exec h ops)).
Proof.
  intros Ho. revert h. induction Ho as [|o ops [H1 H2] Hops IH]; [done|]. intros h Hl. simpl. by apply IH, exec_live.
Qed.

End history.

(** ** A set-up that succeeds *)

Lemma andThen_ok {A} (m : K → result string unit * K) (k : K → result string A * K) h a h' :
  andThen m k h = (Ok a, h') → ∃ h1, m h = (Ok tt, h1) ∧ k h1 = (Ok a, h').
Proof. unfold andThen. destruct (m h) as [[[]|] h1]; [by exists h1|done]. Qed.

Lemma run_ok c h u h' : run c h = (Ok u, h') → applied (stmts_of c) (host_rules h) (host_rules h').
Proof. intros Hr. pose proof (host_run_law c h) as Hl. unfold run in Hr. rewrite Hr in Hl. by eapply apply_all_applied. Qed.

Lemma other_rules argv stdin h : host_rules (run (Other argv stdin) h).2 = host_rules h.
Proof.
  pose proof (host_run_law (Other argv stdin) h) as Hl. unfold run.
  destruct (host_run _ h) as [[] h']; simpl in *; congruence.
Qed.

Lemma other_ok argv stdin h u h' : run (Other argv stdin) h = (Ok u, h') → host_rules h' = host_rules h.
Proof. intros Hr. pose proof (other_rules argv stdin h) as Ho. by rewrite Hr in Ho. Qed.

Lemma dnat_foreign tap tap' sentinel port gw : Forall (foreign tap) (RenderProxyDNAT tap' sentinel port gw).
Proof. by repeat constructor. Qed.

Lemma dnat_off_base tap' sentinel port gw : Forall off_base (RenderProxyDNAT tap' sentinel port gw).
Proof. by repeat constructor. Qed.

Lemma setup_ok id policy resolverIP opts h h' :
  setup enableForward id policy resolverIP opts h = (Ok tt, h') →
  ∃ v4 v6 rest, ParseCIDRList (sp_AllowCIDRs policy) = Ok (v4, v6) ∧
    applied (RenderSharedTable ++ RenderSandboxChainSpec (spec_of id policy resolverIP v4 v6) ++ rest) (host_rules h) (host_rules h') ∧
    Forall off_base rest ∧ ∀ tap, Forall (foreign tap) rest.
Proof.
  unfold setup. intros Hs. apply andThen_ok in Hs as (h1 & Hf & Hs). unfold ignoring in Hs.
  assert (host_rules h1 = host_rules h) as H1.
  { destruct (ao_enableForwarding opts); [|by injection Hf as <-]. pose proof (forward_rules h) as Hr. by rewrite Hf in Hr. }
  pose proof (other_rules (LinkDelArgs (id_TapName id)) "" h1) as H2. fold (ip_cmd (LinkDelArgs (id_TapName id))) in H2.
  set (h2 := (run (ip_cmd (LinkDelArgs (id_TapName id))) h1).2) in *. clearbody h2.
  do 3 (apply andThen_ok in Hs as (? & ?%other_ok & Hs)). apply andThen_ok in Hs as (h6 & Hsh%run_ok & Hs). simpl in Hsh.
  destruct (ParseCIDRList _) as [[v4 v6]|]; [|done]. apply andThen_ok in Hs as (h7 & Hch%run_ok & Hs). simpl in Hch.
  apply andThen_ok in Hs as (h8 & Hd & Hs).
  assert (host_rules h' = host_rules h8) as H8.
  { destruct (bool_decide _) in Hs; [by injection Hs as <-|by eapply other_ok]. }
  exists v4, v6, (match sp_ProxySentinel policy with
    Some sentinel => RenderProxyDNAT (id_TapName id) sentinel (sp_ProxyPort policy) (id_HostIP id) | None => [] end).
  split; [done|]. split.
  - eapply applied_app; [by replace (host_rules h) with (host_rules x1) by congruence|].
    eapply applied_app; [done|]. rewrite H8. destruct (sp_ProxySentinel policy); [by apply run_ok in Hd|].
    injection Hd as <-. constructor.
  - destruct (sp_ProxySentinel policy); split; intros; auto using dnat_off_base, dnat_foreign.
Qed.

(** Nothing is left of a former sandbox on [tap]. *)
Definition fresh (tap : string) (R : ruleset) : Prop :=
  jump_of R filter_table DispatchMapName tap = None ∧ chain_rules R filter_table (SandboxChainName tap) = [] ∧
  elems_of R filter_table (SandboxAllowSetName tap) = [] ∧ elems_of R filter_table (SandboxAllowSet6Name tap) = [].

Lemma chain_keeps tap n s : in_chain tap s → keeps_chain filter_table (SandboxChainName tap) s = true ∧
  keeps_map filter_table DispatchMapName tap s = true ∧ keeps_set filter_table n s = true.
Proof. by destruct s. Qed.

Lemma last_jump t m key c l : last (omap (added_jump t m key) (l ++ [AddElement t m key c])) = Some c.
Proof. rewrite omap_app, last_app. simpl. by rewrite bool_decide_eq_true_2. Qed.

Lemma ends_app {A} (a b : list A) e : (∃ l, b = l ++ [e]) → ∃ l, a ++ b = l ++ [e].
Proof. intros [l ->]. exists (a ++ l). by rewrite app_assoc. Qed.

Lemma chain_jump spec :
  last (omap (added_jump filter_table DispatchMapName (cs_Tap spec)) (RenderSandboxChainSpec spec)) =
  Some (SandboxChainName (cs_Tap spec)).
Proof.
  assert (∃ l, RenderSandboxChainSpec spec =
    l ++ [AddElement filter_table DispatchMapName (cs_Tap spec) (SandboxChainName (cs_Tap spec))]) as [l ->].
  { unfold RenderSandboxChainSpec. do 3 apply ends_app. destruct (cs_BlockNetwork spec); [by eexists [_; _]|].
    do 6 apply ends_app. by eexists [_; _; _; _; _; _]. }
  apply last_jump.
Qed.

Lemma chain_applied spec rest R R' :
  applied (RenderSharedTable ++ RenderSandboxChainSpec spec ++ rest) R R' → Forall off_base rest →
  (∀ tap, Forall (foreign tap) rest) →
  dispatching R' ∧ jump_of R' filter_table DispatchMapName (cs_Tap spec) = Some (SandboxChainName (cs_Tap spec)) ∧
  chain_rules R' filter_table (SandboxChainName (cs_Tap spec)) =
    chain_rules R filter_table (SandboxChainName (cs_Tap spec)) ++ spec_rules spec ∧
  ∀ n, n = SandboxAllowSetName (cs_Tap spec) ∨ n = SandboxAllowSet6Name (cs_Tap spec) →
    elems_of R' filter_table n = elems_of R filter_table n.
Proof.
  intros (R1 & Hs & (R2 & Hc & Hr)%applied_app_inv)%applied_app_inv Hb Hf.
  pose proof (rendered_chain spec) as Hin. pose proof (shared_foreign (cs_Tap spec)) as Hsf.
  assert (∀ n, forallb (keeps_chain filter_table (SandboxChainName (cs_Tap spec))) (RenderSandboxChainSpec spec) = true ∧
    forallb (keeps_map filter_table DispatchMapName (cs_Tap spec)) (RenderSandboxChainSpec spec) = true ∧
    forallb (keeps_set filter_table n) (RenderSandboxChainSpec spec) = true) as Hk.
  { intros n. split_and!; (eapply forallb_Forall; [|exact Hin]); intros s Hs'; by apply (chain_keeps _ n) in Hs' as (? & ? & ?). }
  destruct (Hk "") as (Hkc & Hkm & _). split_and!.
  - unfold dispatching. rewrite (off_base_chain _ _ _ Hr Hb), (off_base_chain _ _ _ Hc).
    { by eapply shared_dispatching. } eapply Forall_impl; [exact Hin|]. apply in_chain_off_base.
  - by rewrite (foreign_map _ _ _ _ Hr (Hf _)), (applied_map _ _ _ _ _ _ Hc Hkm), chain_jump.
  - by rewrite (foreign_chain _ _ _ _ Hr (Hf _)), (applied_chain _ _ _ _ _ Hc Hkc), (foreign_chain _ _ _ _ Hs Hsf), added_spec_rules.
  - intros n Hn. destruct (Hk n) as (_ & _ & Hks).
    by rewrite (foreign_set _ _ _ _ _ Hn Hr (Hf _)), (applied_set _ _ _ _ _ Hc Hks), (foreign_set _ _ _ _ _ Hn Hs Hsf).
Qed.

Lemma live_verdict now tap spec R p :
  live tap spec R → cs_Tap spec = tap → pk_iif p = tap →
  hook_verdict now R filter_table BaseChainName p =
  default true (decision now (elems_of R filter_table (SandboxAllowSetName tap))
                             (elems_of R filter_table (SandboxAllowSet6Name tap)) spec p).
Proof.
  intros (Hd & Hj & Hr) <- Hp. rewrite (hook_dispatch _ _ _ _ _ _ Hd), Hp, Hj, Hr. f_equal. apply chain_decides.
Qed.

Lemma setup_then id policy resolverIP opts ops h0 h1 :
  chain_rules (host_rules h0) filter_table (SandboxChainName (id_TapName id)) = [] →
  setup enableForward id policy resolverIP opts h0 = (Ok tt, h1) →
  Forall (λ o, op_tap o = id_TapName id → is_serve o = true) ops →
  ∃ v4 v6, ParseCIDRList (sp_AllowCIDRs policy) = Ok (v4, v6) ∧
    live (id_TapName id) (spec_of id policy resolverIP v4 v6) (host_rules (foldl exec h1 ops)) ∧
    pins_satisfy (λ ip port, opened_by ops (id_TapName id) ip port ∨ left_open (host_rules h0) (id_TapName id) ip port)
      (id_TapName id) (host_rules (foldl exec h1 ops)).
Proof.
  intros Hc (v4 & v6 & rest & Hcidr & Ha & Hb & Hf)%setup_ok Hops.
  apply chain_applied in Ha as (Hd & Hj & Hr & Hsets); [|done..]. simpl in Hj, Hr, Hsets. rewrite Hc in Hr.
  exists v4, v6. split; [done|].
  apply execs_live.
  - apply Forall_forall. intros o Ho. rewrite Forall_forall in Hops. eauto.
  - split; [done|]. intros n ip port e Hn. rewrite (Hsets n Hn). intros Hin. right. exists e.
    apply elem_of_app. destruct Hn as [-> | ->]; [by left|by right].
Qed.


(** C28: the filter does not stop a sandbox that forges its source address: every IPv4 rule
    of its chain, down to the final drop and the metadata block, is for its own address and
    the base chain accepts by default, so an IPv4 packet from its tap with another source is
    accepted to any destination, also under [block_network]. *)
Theorem spoofed_source_escapes id policy resolverIP opts ops h0 h1 now p :
  fresh (id_TapName id) (host_rules h0) →
  setup enableForward id policy resolverIP opts h0 = (Ok tt, h1) →
  Forall (λ o, op_tap o = id_TapName id → is_serve o = true) ops →
  pk_iif p = id_TapName id → pk_v6 p = false → IP_Equal (id_GuestIP id) (pk_src p) = false →
  hook_verdict now (host_rules (foldl exec h1 ops)) filter_table BaseChainName p = true.
Proof.
  intros (_ & Hfr & _) Hs Hops Hp E6 Es. destruct (setup_then _ _ _ _ _ _ _ Hfr Hs Hops) as (v4 & v6 & _ & Hl & _).
  rewrite (live_verdict _ _ _ _ _ Hl eq_refl Hp). unfold decision. simpl. by rewrite E6, Es.
Qed.

(** ** Changing the policy of a sandbox *)

Lemma or_teardown_ok tap (m : K → result string unit * K) h u h' : or_teardown tap m h = (Ok u, h') → m h = (Ok tt, h').
Proof. unfold or_teardown. destruct (m h) as [[[]|] h1]; [|done]. by intros [= _ <-]. Qed.

Lemma applyEgressPolicy_ok cfg h u h' :
  applyEgressPolicy cfg h = (Ok u, h') →
  ∃ allow skipped v4 v6, SplitAllowList (nc_Allow cfg) = Ok (allow, skipped) ∧
    ParseCIDRList (nc_AllowCIDRs cfg) = Ok (v4, v6) ∧ applied (nftDoc cfg allow v4 v6) (host_rules h) (host_rules h').
Proof.
  unfold applyEgressPolicy. destruct (SplitAllowList _) as [[allow skipped]|]; [|done].
  destruct (ParseCIDRList _) as [[v4 v6]|]; [|done]. intros Hr%or_teardown_ok%run_ok. by exists allow, skipped, v4, v6.
Qed.

(** Applying a policy to a sandbox that is already filtered does not replace the old
    policy: the new rules go after the old ones, whose last two decide on every packet that
    the sandbox sends from its own address or over IPv6, so the new ones are never
    reached. *)
Theorem repolicy_inert cfg spec h h' now p :
  live (nc_Tap cfg) spec (host_rules h) → cs_Tap spec = nc_Tap cfg →
  applyEgressPolicy cfg h = (Ok tt, h') →
  pk_iif p = nc_Tap cfg → pk_v6 p = true ∨ IP_Equal (cs_GuestIP spec) (pk_src p) = true →
  hook_verdict now (host_rules h') filter_table BaseChainName p = hook_verdict now (host_rules h) filter_table BaseChainName p.
Proof.
  intros Hl Ht (allow & skipped & v4 & v6 & _ & _ & Ha)%applyEgressPolicy_ok Hp Hown.
  rewrite (live_verdict _ _ _ _ _ Hl Ht Hp). destruct Hl as (Hd & Hj & Hr).
  destruct (doc_split cfg allow v4 v6) as (rest & Heq & Hb & Hf). rewrite Heq in Ha.
  apply chain_applied in Ha as (Hd' & Hj' & Hr' & Hsets); [|done..]. simpl in Hj', Hr', Hsets.
  rewrite (hook_dispatch _ _ _ _ _ _ Hd'), Hp, Hj', Hr', Hr. rewrite verdict_app, chain_decides, Ht.
  rewrite !Hsets by auto. unfold decision. destruct (pk_v6 p); [done|]. destruct Hown as [|Hs]; [done|]. by rewrite Hs.
Qed.

(** ** What a tear-down leaves *)

Lemma did_keeps_set n R R' :
  did (λ l, forallb (keeps_set filter_table n) l = true) R R' → elems_of R' filter_table n = elems_of R filter_table n.
Proof. induction 1 as [|l R R1 R2 Hc Ha Hd IH]; [done|]. by rewrite IH, (applied_set _ _ _ _ _ Ha Hc). Qed.

Lemma teardown_keeps_pins6 id opts h :
  let n := SandboxAllowSet6Name (id_TapName id) in
  elems_of (host_rules (teardown id opts h).2) filter_table n = elems_of (host_rules h) filter_table n.
Proof.
  intros n. apply did_keeps_set. apply attempt_all_does. rewrite !Forall_app. split_and!.
  - destruct (bool_decide _); repeat constructor.
  - repeat (constructor; [simpl; try done|]); [|constructor].
    rewrite bool_decide_eq_false_2; [done|]. intros H%(f_equal snd). by apply allow_sets_differ in H.
  - destruct (ao_proxyEnabled opts); repeat constructor.
Qed.

(** Tearing a sandbox down leaves the IPv6 addresses that were pinned for it: only the
    IPv4 set is deleted.  A later sandbox on the same tap, whatever its allowlist, may reach
    them until they expire. *)
Theorem stale_ipv6_pins id opts id' policy resolverIP opts' h h1 now p ip port e :
  id_TapName id' = id_TapName id →
  (ip, port, e) ∈ elems_of (host_rules h) filter_table (SandboxAllowSet6Name (id_TapName id)) →
  chain_rules (host_rules (teardown id opts h).2) filter_table (SandboxChainName (id_TapName id)) = [] →
  setup enableForward id' policy resolverIP opts' (teardown id opts h).2 = (Ok tt, h1) →
  sp_BlockNetwork policy = false →
  pk_iif p = id_TapName id → pk_v6 p = true → pk_proto p = Tcp → pk_dport p = port →
  IP_Equal ip (pk_dst p) = true → IP_Equal metadataV6Addr (pk_dst p) = false → now < e →
  hook_verdict now (host_rules h1) filter_table BaseChainName p = true.
Proof.
  intros Ht Hin Hc (v4 & v6 & rest & _ & Ha & Hb & Hf)%setup_ok Hblock Hp E6 Etcp Eport Eip Emeta Hnow.
  apply chain_applied in Ha as (Hd & Hj & Hr & Hsets); [|done..]. simpl in Hj, Hr, Hsets. rewrite Ht in *. rewrite Hc in Hr.
  rewrite (live_verdict now (id_TapName id) (spec_of id' policy resolverIP v4 v6)) by done.
  rewrite (Hsets (SandboxAllowSet6Name (id_TapName id))) by auto. rewrite teardown_keeps_pins6.
  unfold decision. simpl. rewrite E6, Emeta, Hblock. simpl. unfold allowed6.
  rewrite (bool_decide_eq_true_2 (pk_proto p = Tcp)) by done.
  replace (in_set now _ (pk_dst p) (pk_dport p)) with true; [by rewrite orb_true_r|].
  symmetry. apply existsb_exists. exists (ip, port, e). split; [by apply list_elem_of_In|].
  rewrite Eip, Eport, Z.eqb_refl. simpl. by apply Z.ltb_lt.
Qed.

(** ** Address translation in a husk pod *)

(** The packets whose source is translated. *)
Definition masqueraded (now : Z) (R : ruleset) (p : packet) : bool :=
  existsb (λ r, match r_action r with Masquerade => forallb (expr_matches now R nat_table p) (r_match r) | _ => false end)
    (chain_rules R nat_table "postrouting").

Lemma doc_nat cfg allow v4 v6 R R' :
  applied (nftDoc cfg allow v4 v6) R R' →
  chain_rules R' nat_table "postrouting" = [{| r_match := [IpSaddr (One (nc_GuestIP cfg))]; r_action := Masquerade |}].
Proof.
  unfold nftDoc, RenderMasquerade. intros (R1 & _ & (R2 & _ & (R3 & Hm & Hrest)%applied_app_inv)%applied_app_inv)%applied_app_inv.
  set (off := λ s, match s with AddRule t _ _ | FlushChain t _ | DeleteChain t _ | DeleteTable t => t ≠ nat_table | _ => True end).
  assert (chain_rules R' nat_table "postrouting" = chain_rules R3 nat_table "postrouting") as ->.
  { assert (Forall off (RenderSharedInputTable ++ RenderSandboxInputChainSpec (husk_input_spec cfg))) as Hoff.
    { rewrite Forall_app. split; [by repeat constructor|]. eapply Forall_impl; [apply rendered_input_chain|].
      intros []; simpl; try done. by intros [-> ->]. }
    rewrite (applied_chain _ _ _ _ _ Hrest), (omap_nothing _ off); [apply app_nil_r| |done|].
    - intros [] ?; simpl in *; try done. rewrite bool_decide_eq_false_2; [done|congruence].
    - eapply forallb_Forall; [|exact Hoff]. intros [] ?; simpl in *; rewrite ?negb_true_iff, ?bool_decide_eq_false; congruence. }
  apply (applied_app_inv [_; _; FlushChain nat_table "postrouting"] [_]) in Hm as (R4 & Hm & H4).
  rewrite (applied_chain _ _ _ _ _ H4) by done. simpl.
  apply (applied_app_inv [_; _] [_]) in Hm as (R5 & _ & H5). inversion H5 as [|? ? ? ? R6 ? Hfl Hn]; subst.
  inversion Hn; subst. simpl in Hfl. split_apply. by rewrite chain_rules_insert.
Qed.

(** A husk pod translates the addresses of one sandbox only: bringing up a second one
    flushes the rule of the first, whose packets then leave the pod with their private
    source address. *)
Theorem second_sandbox_takes_nat cfg h h' now p :
  applyEgressFilter (Some enableForward) cfg h = (Ok tt, h') →
  IP_Equal (nc_GuestIP cfg) (pk_src p) = false → masqueraded now (host_rules h') p = false.
Proof.
  unfold applyEgressFilter. destruct (SplitAllowList _) as [[]|]; [|done]. destruct (ParseCIDRList _) as [[]|]; [|done].
  intros (h1 & _ & (allow & skipped & v4 & v6 & _ & _ & Ha)%applyEgressPolicy_ok)%andThen_ok Es.
  unfold masqueraded. rewrite (doc_nat _ _ _ _ _ _ Ha). simpl. rewrite Es. by destruct (pk_v6 p).
Qed.

(** ** The input hook of a husk pod *)

Lemma applied_each l R R' s : applied l R R' → s ∈ l → ∃ now R1 R2, apply now s R1 = Some R2.
Proof.
  induction 1 as [|now s' l R R1 R2 H1 Ha IH]; [by intros ?%elem_of_nil|]. intros [->|Hin]%elem_of_cons; eauto.
Qed.

(** A sandbox in a husk pod whose inbound policy names an IPv6 block cannot be filtered:
    the rule that the block renders to compares the sandbox's IPv4 address with an IPv6
    destination, nft refuses the whole file, and the set-up fails. *)
Theorem inbound_ipv6_block_fails cfg v4 n v6 h :
  is4 (nc_GuestIP cfg) = true → nc_Inbound cfg = InboundAllow →
  ParseCIDRList (nc_InboundCIDRs cfg) = Ok (v4, n :: v6) →
  ∀ h', applyEgressPolicy cfg h ≠ (Ok tt, h').
Proof.
  intros E4 Ein Hcidr h' (allow & skipped & w4 & w6 & _ & _ & Ha)%applyEgressPolicy_ok.
  eapply (applied_each _ _ _ (AddRule filter_table (SandboxInputChainName (nc_Tap cfg))
    {| r_match := [Ip6Daddr (One (nc_GuestIP cfg)); Ip6Saddr (Net n)]; r_action := Accept |})) in Ha as (now & R1 & R2 & Hr).
  - simpl in Hr. apply bind_Some in Hr as (ch & _ & Hr). apply bind_Some in Hr as (Hok & _ & _).
    unfold rule_ok in Hok. simpl in Hok. rewrite E4 in Hok. simpl in Hok. by destruct Hok.
  - unfold nftDoc. do 4 (apply elem_of_app; right). unfold RenderSandboxInputChainSpec. simpl.
    rewrite (bool_decide_eq_true_2 _ Ein), Hcidr. simpl.
    assert (bool_decide (nc_InboundCIDRs cfg = []) = false) as ->.
    { apply bool_decide_eq_false_2. intros Hn. rewrite Hn in Hcidr. done. }
    apply elem_of_cons. right. apply elem_of_app. right. apply elem_of_app. left. apply elem_of_app. right.
    apply list_elem_of_here.
Qed.

(** A rule that drops nothing but IPv4 packets. *)
Definition spares_ipv6 (r : rule) : Prop :=
  r_action r = Accept ∨ (r_action r = Drop ∧ ∃ a es, r_match r = IpSaddr a :: es).

Lemma spared_ipv6 now R t p rs :
  pk_v6 p = true → Forall spares_ipv6 rs → default true (rules_verdict now R t p (λ _, None) rs) = true.
Proof.
  intros E6. induction 1 as [|r rs Hr _ IH]; simpl; [done|]. destruct Hr as [->|(-> & a & es & ->)].
  - by destruct (forallb _ _).
  - simpl. by rewrite E6.
Qed.

Lemma input_rules_spare spec r :
  AddRule filter_table (SandboxInputChainName (is_Tap spec)) r ∈ RenderSandboxInputChainSpec spec → spares_ipv6 r.
Proof.
  assert (Forall (λ s, match s with AddRule _ _ r => spares_ipv6 r | _ => True end) (RenderSandboxInputChainSpec spec)) as Hall.
  { assert (∀ es, spares_ipv6 {| r_match := es; r_action := Accept |}) as Hacc by (intros; by left).
    unfold RenderSandboxInputChainSpec. simpl. constructor; [done|]. rewrite !Forall_app. split_and!.
    - destruct (is_ResolverIP spec); repeat constructor.
    - destruct (bool_decide (_ = InboundAllow)); [|constructor]. destruct (bool_decide _); [by repeat constructor|].
      destruct (cidrs_or_none _) as [v4 v6]. apply Forall_app. split; apply Forall_fmap, Forall_true; intros n; apply Hacc.
    - constructor; [right; split; [done|]; by eexists _, _|by repeat constructor]. }
  rewrite Forall_forall in Hall. intros Hin. apply (Hall _ Hin).
Qed.

Lemma omap_Forall {A B} (f : A → option B) (Q : B → Prop) l : (∀ x y, x ∈ l → f x = Some y → Q y) → Forall Q (omap f l).
Proof.
  induction l as [|x l IH]; simpl; intros HQ; [constructor|]. destruct (f x) eqn:E.
  - constructor; [by eapply HQ; [apply list_elem_of_here|]|]. apply IH. intros. eapply HQ; [by apply list_elem_of_further|done].
  - apply IH. intros. eapply HQ; [by apply list_elem_of_further|done].
Qed.

(** A statement that leaves the input side alone. *)
Definition off_input (tap : string) (s : stmt) : Prop :=
  match s with
  | AddRule t c _ | FlushChain t c | DeleteChain t c =>
      (t, c) ≠ (filter_table, SandboxInputChainName tap) ∧ (t, c) ≠ (filter_table, InputBaseChainName)
  | AddElement t m key _ | DeleteElement t m key => (t, m, key) ≠ (filter_table, InputDispatchMapName, tap)
  | DeleteTable t => t ≠ filter_table
  | _ => True
  end.

Lemma off_input_chain tap c l R R' :
  c = SandboxInputChainName tap ∨ c = InputBaseChainName → applied l R R' → Forall (off_input tap) l →
  chain_rules R' filter_table c = chain_rules R filter_table c.
Proof.
  intros Hc Ha Hl. rewrite (applied_chain _ _ _ _ _ Ha), (omap_nothing _ (off_input tap)); [apply app_nil_r| |done|].
  - intros [] ?; simpl in *; try done. rewrite bool_decide_eq_false_2; naive_solver.
  - eapply forallb_Forall; [|done]. intros [] ?; simpl in *; rewrite ?negb_true_iff, ?bool_decide_eq_false; naive_solver.
Qed.

Lemma doc_before_input cfg allow v4 v6 tap :
  Forall (off_input tap) (RenderSharedTable ++ RenderSandboxChainSpec (husk_spec cfg allow v4 v6) ++ RenderMasquerade (nc_GuestIP cfg)).
Proof.
  rewrite !Forall_app. split_and!; [by repeat constructor| |by repeat constructor].
  eapply Forall_impl; [apply rendered_chain|]. intros []; simpl; try done; [|by intros (-> & -> & -> & ->)].
  intros [-> ->]. split; intros H%(f_equal snd); discriminate H.
Qed.

Lemma input_table_applied tap R R' :
  applied RenderSharedInputTable R R' →
  chain_rules R' filter_table InputBaseChainName = [{| r_match := []; r_action := IifnameVmap InputDispatchMapName |}] ∧
  chain_rules R' filter_table (SandboxInputChainName tap) = chain_rules R filter_table (SandboxInputChainName tap).
Proof.
  unfold RenderSharedInputTable. intros Ha. split; [|by rewrite (applied_chain _ _ _ _ _ Ha), app_nil_r].
  apply (applied_app_inv [_; _; _; FlushChain filter_table InputBaseChainName] [_]) in Ha as (R1 & H1 & H2).
  rewrite (applied_chain _ _ _ _ _ H2) by done. simpl.
  apply (applied_app_inv [_; _; _] [_]) in H1 as (R0 & _ & H1). inversion H1 as [|? ? ? ? R1' ? Hf Hn]; subst.
  inversion Hn; subst. simpl in Hf. split_apply. by rewrite chain_rules_insert.
Qed.

(** The input chain of a sandbox in a husk pod drops IPv4 packets only: an IPv6 packet
    from its tap to an address of the pod is always accepted, whatever the policy. *)
Theorem input_ipv6_open cfg h h' now p :
  Forall spares_ipv6 (chain_rules (host_rules h) filter_table (SandboxInputChainName (nc_Tap cfg))) →
  applyEgressPolicy cfg h = (Ok tt, h') →
  pk_iif p = nc_Tap cfg → pk_v6 p = true →
  hook_verdict now (host_rules h') filter_table InputBaseChainName p = true.
Proof.
  intros Hold (allow & skipped & v4 & v6 & _ & _ & Ha)%applyEgressPolicy_ok Hp E6. unfold nftDoc in Ha.
  rewrite !app_assoc in Ha. apply applied_app_inv in Ha as (R2 & (R1 & H1 & H2)%applied_app_inv & H3).
  rewrite <- app_assoc in H1. pose proof (doc_before_input cfg allow v4 v6 (nc_Tap cfg)) as Hoff.
  pose proof (off_input_chain _ _ _ _ _ (or_introl eq_refl) H1 Hoff) as E1.
  destruct (input_table_applied (nc_Tap cfg) _ _ H2) as [Eb E2]. pose proof (rendered_input_chain (husk_input_spec cfg)) as Hin.
  assert (chain_rules (host_rules h') filter_table InputBaseChainName = chain_rules R2 filter_table InputBaseChainName) as Eb'.
  { rewrite (applied_chain _ _ _ _ _ H3), (omap_nothing _ (in_input_chain (nc_Tap cfg))); [apply app_nil_r| |done|].
    - intros [] Hs; simpl in *; try done. destruct Hs as [-> ->]. rewrite bool_decide_eq_false_2; [done|].
      intros H%(f_equal snd); discriminate H.
    - eapply forallb_Forall; [|exact Hin]. by intros []. }
  rewrite (hook_dispatch _ _ _ _ InputDispatchMapName) by by rewrite Eb'.
  rewrite Hp, (applied_map _ _ _ _ _ _ H3) by (eapply forallb_Forall; [|exact Hin]; by intros []).
  assert (∃ l, RenderSandboxInputChainSpec (husk_input_spec cfg) =
    l ++ [AddElement filter_table InputDispatchMapName (nc_Tap cfg) (SandboxInputChainName (nc_Tap cfg))]) as [l Hl].
  { unfold RenderSandboxInputChainSpec. do 3 apply ends_app. by eexists [_]. }
  rewrite Hl at 1. rewrite last_jump. apply spared_ipv6; [done|].
  rewrite (applied_chain _ _ _ _ _ H3) by (eapply forallb_Forall; [|exact Hin]; by intros []).
  rewrite E2, E1. apply Forall_app. split; [done|]. apply omap_Forall.
  intros [] rl Hin' Hr; simpl in Hr; try done. case_bool_decide as Ho; [|done]. injection Hr as <-. injection Ho as -> ->.
  by apply (input_rules_spare (husk_input_spec cfg)).
Qed.

(** The inbound policy of a sandbox in a husk pod is not enforced on what reaches it from
    outside: the forward hook dispatches on the interface that a packet came in on, so one
    that comes in on another interface than a tap is accepted, whatever its destination and
    whatever the policy. *)
Theorem inbound_not_filtered cfg h h' now p :
  jump_of (host_rules h) filter_table DispatchMapName (pk_iif p) = None → pk_iif p ≠ nc_Tap cfg →
  applyEgressPolicy cfg h = (Ok tt, h') →
  hook_verdict now (host_rules h') filter_table BaseChainName p = true.
Proof.
  intros Hj Hne (allow & skipped & v4 & v6 & _ & _ & Ha)%applyEgressPolicy_ok.
  destruct (doc_split cfg allow v4 v6) as (rest & Heq & Hb & Hf).
  assert (Forall (foreign (pk_iif p)) (nftDoc cfg allow v4 v6)) as Hfor by by eapply (cmd_foreign (λ _ _, True) (nc_Tap cfg)), cmd_doc.
  pose proof (foreign_map _ _ _ _ Ha Hfor) as Hj'. rewrite Heq in Ha.
  apply chain_applied in Ha as (Hd & _); [|done..]. by rewrite (hook_dispatch _ _ _ _ _ _ Hd), Hj', Hj.
Qed.

End operations.

(** ** Examples *)

Definition ex_host : rules_host := {| rh_now := 0; rh_rules := no_rules |}.
Definition ex_forward (h : rules_host) : result string unit * rules_host := (Ok tt, h).
Definition ex_set_rcode (m : Msg) (rcode : Z) : Msg := set_answer [] m.
Definition ex_exchange (m : Msg) (up : string) (h : rules_host) : option Msg * rules_host :=
  (Some (set_answer [A "example.com." 300 [93; 184; 216; 34]; A "example.com." 300 [10; 0; 0; 1]] m), h).

Lemma ex_forward_rules h : host_rules (ex_forward h).2 = host_rules h.
Proof. done. Qed.

Lemma ex_exchange_rules m up h : host_rules (ex_exchange m up h).2 = host_rules h.
Proof. done. Qed.

Definition ex_id : Identity :=
  {| id_TapName := "t1"; id_GuestMAC := ""; id_HostIP := [10; 200; 0; 1]; id_GuestIP := [10; 200; 0; 2] |}.

Definition ex_policy (block : bool) : SandboxPolicy := {|
  sp_Egress := EgressDeny; sp_Allow := []; sp_AllowCIDRs := []; sp_BlockNetwork := block; sp_Inbound := InboundDeny;
  sp_InboundCIDRs := []; sp_Counter := false; sp_ProxySentinel := None; sp_ProxyPort := 0 |}.

Definition ex_opts : applyOptions :=
  {| ao_subnetCIDR := ""; ao_uplink := ""; ao_enableForwarding := false; ao_proxyEnabled := false |}.

Definition ex_server : Server := {|
  s_registry := {[ "10.200.0.2" := {[ "example.com" := {[443]} ]} ]}; s_upstreams := ["1.1.1.1:53"];
  s_ttlFloor := 0; s_tapFor := λ _, "t1" |}.

Definition ex_query : Msg := {|
  msg_Rcode := 0; msg_Question := [{| q_Name := "example.com."; q_Qtype := TypeA |}]; msg_Answer := []; msg_Ns := [];
  msg_Extra := [] |}.

Definition ex_packet (src dst : IP) : packet :=
  {| pk_iif := "t1"; pk_v6 := false; pk_src := src; pk_dst := dst; pk_proto := Tcp; pk_dport := 443; pk_established := false |}.

Abbreviation ex_set_up block := (setup ex_forward ex_id (ex_policy block) None ex_opts ex_host).
Abbreviation ex_ops := [OpServe ex_server (UDPAddr [10; 200; 0; 2]) ex_query].
Abbreviation ex_exec := (exec ex_forward ex_set_rcode ex_exchange).

Lemma pair_fst {A B} (x : A * B) a : x.1 = a → x = (a, x.2).
Proof. intros <-. by destruct x. Qed.

Lemma ex_set_up_ok : ex_set_up false = (Ok tt, (ex_set_up false).2).
Proof. apply pair_fst. vm_compute. reflexivity. Qed.

Lemma ex_block_ok : ex_set_up true = (Ok tt, (ex_set_up true).2).
Proof. apply pair_fst. vm_compute. reflexivity. Qed.

(** The public address of the answer is pinned and reachable, the private one is neither. *)
Example resolved_then_reached :
  let verdict dst := hook_verdict 0 (host_rules (foldl ex_exec (ex_set_up false).2 ex_ops)) filter_table BaseChainName
    (ex_packet [10; 200; 0; 2] dst) in
  verdict [93; 184; 216; 34] = true ∧ verdict [10; 0; 0; 1] = false.
Proof. vm_compute. done. Qed.


Lemma spoofed_source_escapes_witness :
  hook_verdict 0 (host_rules (foldl ex_exec (ex_set_up true).2 ex_ops)) filter_table BaseChainName
    (ex_packet [10; 200; 0; 9] [169; 254; 169; 254]) = true.
Proof.
  refine (spoofed_source_escapes ex_forward ex_set_rcode ex_exchange ex_forward_rules ex_exchange_rules ex_id (ex_policy true)
    None ex_opts ex_ops ex_host (ex_set_up true).2 0 (ex_packet [10; 200; 0; 9] [169; 254; 169; 254])
    _ ex_block_ok _ eq_refl eq_refl eq_refl).
  - by split_and!.
  - repeat constructor.
Defined.

(** *** A husk pod *)

Definition ex_config (egress : string) : NetfilterConfig := {|
  nc_Tap := "t1"; nc_GuestIP := [10; 200; 0; 2]; nc_HostIP := [10; 200; 0; 1]; nc_Egress := egress; nc_Allow := [];
  nc_BlockNetwork := false; nc_AllowCIDRs := []; nc_Inbound := InboundDeny; nc_InboundCIDRs := []; nc_ResolverIP := None |}.

Abbreviation ex_husk := (applyEgressFilter (Some ex_forward) (ex_config EgressAllow) ex_host).
Abbreviation ex_again := (applyEgressPolicy (ex_config EgressDeny) ex_husk.2).

Lemma ex_husk_ok : ex_husk = (Ok tt, ex_husk.2).
Proof. apply pair_fst. vm_compute. reflexivity. Qed.

Lemma ex_again_ok : ex_again = (Ok tt, ex_again.2).
Proof. apply pair_fst. vm_compute. reflexivity. Qed.

(** Denying egress to a sandbox that was allowed it changes nothing. *)
Lemma repolicy_inert_witness :
  hook_verdict 0 (host_rules ex_again.2) filter_table BaseChainName (ex_packet [10; 200; 0; 2] [93; 184; 216; 34]) =
  hook_verdict 0 (host_rules ex_husk.2) filter_table BaseChainName (ex_packet [10; 200; 0; 2] [93; 184; 216; 34]).
Proof.
  refine (repolicy_inert (ex_config EgressDeny) (husk_spec (ex_config EgressAllow) [] [] []) ex_husk.2 ex_again.2 0
    (ex_packet [10; 200; 0; 2] [93; 184; 216; 34]) _ eq_refl ex_again_ok eq_refl (or_intror eq_refl)).
  split_and!; vm_compute; reflexivity.
Defined.

Definition ex_packet6 (dst : IP) : packet :=
  {| pk_iif := "t1"; pk_v6 := true; pk_src := [0xfe; 0x80] ++ replicate 14 1; pk_dst := dst; pk_proto := Tcp; pk_dport := 443;
     pk_established := false |}.

Lemma input_ipv6_open_witness :
  hook_verdict 0 (host_rules ex_again.2) filter_table InputBaseChainName (ex_packet6 ([0xfe; 0x80] ++ replicate 14 2)) = true.
Proof.
  refine (input_ipv6_open (ex_config EgressDeny) ex_husk.2 ex_again.2 0 (ex_packet6 ([0xfe; 0x80] ++ replicate 14 2))
    _ ex_again_ok eq_refl eq_refl).
  assert (∀ l, l = [{| r_match := [IpSaddr (One [10; 200; 0; 2])]; r_action := Drop |}] → Forall spares_ipv6 l) as Hl.
  { intros l ->. constructor; [|constructor]. right. split; [done|]. by eexists _, _. }
  apply Hl. vm_compute. reflexivity.
Defined.

Lemma second_sandbox_takes_nat_witness :
  masqueraded 0 (host_rules ex_husk.2) (ex_packet [10; 200; 0; 6] [93; 184; 216; 34]) = false.
Proof.
  exact (second_sandbox_takes_nat ex_forward (ex_config EgressAllow) ex_host ex_husk.2 0
    (ex_packet [10; 200; 0; 6] [93; 184; 216; 34]) ex_husk_ok eq_refl).
Defined.

(** *** A tap that is used again *)

Definition ex_addr6 : IP := [0x26; 0x06] ++ replicate 14 1.

Abbreviation ex_pinned := (Pin "t1" ex_addr6 443 (300 * second) (ex_set_up false).2).2.
Abbreviation ex_reused := (setup ex_forward ex_id (ex_policy false) None ex_opts (teardown ex_id ex_opts ex_pinned).2).

Lemma ex_reused_ok : ex_reused = (Ok tt, ex_reused.2).
Proof. apply pair_fst. vm_compute. reflexivity. Qed.

Lemma stale_ipv6_pins_witness : hook_verdict 0 (host_rules ex_reused.2) filter_table BaseChainName (ex_packet6 ex_addr6) = true.
Proof.
  refine (stale_ipv6_pins ex_forward ex_forward_rules ex_id ex_opts ex_id (ex_policy false) None ex_opts ex_pinned ex_reused.2 0
    (ex_packet6 ex_addr6) ex_addr6 443 (300 * second) eq_refl _ _ ex_reused_ok eq_refl eq_refl eq_refl eq_refl eq_refl
    eq_refl eq_refl _); [|vm_compute; reflexivity|vm_compute; reflexivity].
  assert (∀ (l : list (IP * Z * Z)) x, l = [x] → x ∈ l) as Hl by (intros l x ->; apply list_elem_of_here).
  apply (Hl _ (ex_addr6, 443, 300 * second)). vm_compute. reflexivity.
Defined.

End NetworkTheorems.
