(* ===== verification/EgressProxy.v ===== *)
(** * internal/egressproxy and internal/sniproxy

    The two proxies that dial on behalf of a sandbox from the host: the HTTP forward proxy
    and the TLS proxy that reads the server name.  A connection from a sandbox is the
    chunks that reading it gives; serving it is the sequence of what the proxy does with
    the two sides.  What the proxies are built from is an argument: [net/url] and the
    handshake parser of [crypto/tls] through what they return, the system's resolver, and
    whether a dial succeeds.  Deadlines end the chunks; the bytes from the upstream are
    left out. *)

From Stdlib Require Import Ascii.
From S2P Require Import Prelude Sha256 Json GoStrings GoNet Allowlist.
Import Sha256 Json GoStrings GoNet Allowlist.

Module EgressProxy.

(** ** denylist.go *)

Definition cidr (ip : IP) (ones : Z) : IPNet :=
  {| net_IP := ip; net_Mask := CIDRMask ones (8 * Z.of_nat (length ip)) |}.

Definition deniedNets : list IPNet :=
  [cidr [169; 254; 0; 0] 16;
   cidr [127; 0; 0; 0] 8;
   cidr (replicate 15 0 ++ [1]) 128;
   cidr ([0xfe; 0x80] ++ replicate 14 0) 10;
   cidr ([0xfd; 0; 0x0e; 0xc2] ++ replicate 10 0 ++ [0x02; 0x54]) 128;
   cidr ([0; 0x64; 0xff; 0x9b] ++ replicate 12 0) 96;
   cidr (replicate 16 0) 96].

Definition deniedIP (ip : IP) : bool :=
  if bool_decide (ip = []) then true
  else
    let ip := if is4 ip then To4 ip else ip in
    if IsUnspecified ip || IsLoopback ip || IsLinkLocalUnicast ip || IsLinkLocalMulticast ip then true
    else existsb (λ n, Contains n ip) deniedNets.

Definition IsDeniedIP (ip : IP) : bool := deniedIP ip.

Inductive dial_error := ErrDestinationDenied | ErrDial.

(** [lookupIP host] are the addresses of a name, if it resolves. *)
Definition screenDestination (lookupIP : string → option (list IP)) (hostport : string) : result dial_error string :=
  match SplitHostPort hostport with
  | None => Err ErrDial
  | Some (host, port) =>
      match ParseIP host with
      | Some ip => if deniedIP ip then Err ErrDestinationDenied else Ok hostport
      | None =>
          match lookupIP host with
          | None => Err ErrDial
          | Some [] => Err ErrDial
          | Some ((ip :: _) as ips) =>
              if existsb deniedIP ips then Err ErrDestinationDenied else Ok (JoinHostPort (IP_String ip) port)
          end
      end
  end.

(** ** registry.go *)

Definition Registry : Type := gmap string string.

Definition NewRegistry : Registry := ∅.
Definition Register (guestIP : IP) (sandboxID : string) (r : Registry) : Registry := <[IP_String guestIP := sandboxID]> r.
Definition Deregister (guestIP : IP) (r : Registry) : Registry := delete (IP_String guestIP) r.
Definition Lookup (srcIP : IP) (r : Registry) : option string := r !! IP_String srcIP.

(** ** Reading a connection *)

Definition maxPreambleBytes : nat := 64 * 1024.

(** A buffered reader: what it has buffered, how much it may still read, and the chunks
    that are to come. *)
Record reader := { rd_buf : string; rd_limit : nat; rd_in : list string }.

Definition lf : ascii := "010".
Definition crlf : string := String "013" (String "010" "").

Definition str_take (n : nat) (s : string) : string := String.substring 0 n s.
Definition str_drop (n : nat) (s : string) : string := String.substring n (String.length s - n) s.

(** [ReadString] of a line: the line with its end, or else an error, with what was read
    taken from the buffer. *)
Fixpoint read_chunks (buf : string) (limit : nat) (ins : list string) : option string * reader :=
  match Cut buf lf with
  | Some (line, rest) => (Some (line +:+ String lf ""), {| rd_buf := rest; rd_limit := limit; rd_in := ins |})
  | None =>
      match ins with
      | [] => (None, {| rd_buf := ""; rd_limit := limit; rd_in := [] |})
      | c :: ins' =>
          if (String.length c <=? limit)%nat then read_chunks (buf +:+ c) (limit - String.length c) ins'
          else
            match Cut (buf +:+ str_take limit c) lf with
            | Some (line, rest) =>
                (Some (line +:+ String lf ""), {| rd_buf := rest; rd_limit := 0; rd_in := str_drop limit c :: ins' |})
            | None => (None, {| rd_buf := ""; rd_limit := 0; rd_in := str_drop limit c :: ins' |})
            end
      end
  end.

Definition ReadString (br : reader) : option string * reader := read_chunks (rd_buf br) (rd_limit br) (rd_in br).

Definition trim_eol (line : string) : string := TrimRight line crlf.

(** The bytes that reading could still give: each line takes at least one of them. *)
Definition available (br : reader) : nat := String.length (rd_buf br) + String.length (str_concat (rd_in br)).

Fixpoint drain_loop (fuel : nat) (br : reader) : reader :=
  match fuel with
  | O => br
  | S fuel' =>
      match ReadString br with
      | (None, br') => br'
      | (Some h, br') => if bool_decide (trim_eol h = "") then br' else drain_loop fuel' br'
      end
  end.

Definition drainHeaders (br : reader) : reader := drain_loop (S (available br)) br.

Fixpoint collect_loop (fuel : nat) (br : reader) : list string * reader :=
  match fuel with
  | O => ([], br)
  | S fuel' =>
      match ReadString br with
      | (None, br') => ([], br')
      | (Some h, br') =>
          if bool_decide (trim_eol h = "") then ([h], br')
          else let '(hs, br'') := collect_loop fuel' br' in (h :: hs, br'')
      end
  end.

Definition collectHeaders (br : reader) : list string * reader := collect_loop (S (available br)) br.

(** ** proxy.go *)

Definition ascii_upper (s : string) : string :=
  String.string_of_list_ascii
    ((λ c, let n := byte_of c in if (97 <=? n) && (n <=? 122) then of_byte (n - 32) else c) <$> String.list_ascii_of_string s).

(** What is read of a parsed URL. *)
Record URL := { u_Scheme : string; u_Hostname : string; u_Port : string }.

(** What a proxy does, in order.  [Splice rest] copies what follows from the sandbox to the
    upstream, in both directions. *)
Inductive event :=
| Reply (status : string)
| Dial (target : string)
| Upstream (bytes : string)
| Splice (rest : list string)
| LogDeny (sandboxID hostport : string).

Definition BadRequest : string := "HTTP/1.1 400 Bad Request".
Definition Forbidden : string := "HTTP/1.1 403 Forbidden".
Definition BadGateway : string := "HTTP/1.1 502 Bad Gateway".
Definition Established : string := "HTTP/1.1 200 Connection Established".

Section proxy.
Context {unicode : Unicode}.
Variable url_Parse : string → option URL.
Variable lookupIP : string → option (list IP).
Variable dials : string → bool.

(** The authority that a request line is for, and whether it asks for a tunnel.  No letter
    outside ASCII has an upper case in [CONNECT]. *)
Definition parseRequestTarget (line : string) : option (string * bool) :=
  match Fields line with
  | method :: target :: _ =>
      if bool_decide (ascii_upper method = "CONNECT") then Some (target, true)
      else
        u ← url_Parse target;
        let port :=
          if bool_decide (u_Port u = "") then if bool_decide (ToLower (u_Scheme u) = "https") then "443" else "80"
          else u_Port u in
        Some (JoinHostPort (u_Hostname u) port, false)
  | _ => None
  end.

(** [dialUpstream] and the error paths of its two callers. *)
Definition with_upstream (sandboxID hostport : string) (k : list event) : list event :=
  match screenDestination lookupIP hostport with
  | Err ErrDestinationDenied => [LogDeny sandboxID hostport; Reply Forbidden]
  | Err ErrDial => [Reply BadGateway]
  | Ok target => Dial target :: if dials target then k else [Reply BadGateway]
  end.

Definition serveConnect (br : reader) (sandboxID hostport : string) : list event :=
  with_upstream sandboxID hostport [Reply Established; Splice (rd_in br)].

Definition replayed (h : string) : bool :=
  let t := TrimRight h crlf in
  let lt := ToLower t in
  negb (bool_decide (t = "")) && negb (HasPrefix lt "connection:" || HasPrefix lt "proxy-connection:").

Definition servePlain (br : reader) (sandboxID hostport firstLine : string) (headers : list string) : list event :=
  with_upstream sandboxID hostport
    [Upstream (firstLine +:+ crlf); Upstream (str_concat (filter (λ h, replayed h = true) headers));
     Upstream ("Connection: close" +:+ crlf +:+ crlf); Splice (rd_buf br :: rd_in br)].

Definition Serve (resolver : Registry) (client : list string) (srcIP : IP) : list event :=
  match ReadString {| rd_buf := ""; rd_limit := maxPreambleBytes; rd_in := client |} with
  | (None, _) => []
  | (Some line, br) =>
      let line := trim_eol line in
      match parseRequestTarget line with
      | None => [Reply BadRequest]
      | Some (hostport, isConnect) =>
          match Lookup srcIP resolver with
          | None => [Reply Forbidden]
          | Some sandboxID =>
              if (isConnect : bool) then serveConnect (drainHeaders br) sandboxID hostport
              else let '(headers, br') := collectHeaders br in servePlain br' sandboxID hostport line headers
          end
      end
  end.

End proxy.

End EgressProxy.

Module SniProxy.

Import EgressProxy.

Section sni.
Context {unicode : Unicode} {mapRange : MapRange}.

Definition RegistryAllowlist : Type := option Allowlist.Registry.

Definition Allowed (a : RegistryAllowlist) (srcIP : IP) (serverName : string) (port : Z) : bool :=
  match a with
  | None => false
  | Some r =>
      if bool_decide (serverName = "") then false
      else match Allowlist.Lookup srcIP serverName r with
           | None => false
           | Some ports => existsb (Z.eqb port) ports
           end
  end.

Inductive sni_event :=
| Deny (sandboxID serverName : string) (port : Z) (reason : string)
| SniDial (target : string)
| Replay (bytes : string).

(** [peek] is the server name and the bytes of the handshake's first message, unless they
    cannot be parsed. *)
Definition SniServe (resolver : Registry) (allowlist : RegistryAllowlist) (dials : string → bool)
    (peek : option (string * string)) (srcIP dstIP : IP) (dstPort : Z) : list sni_event :=
  match Lookup srcIP resolver with
  | None => [Deny "" "" dstPort "unknown_sandbox"]
  | Some sandboxID =>
      match peek with
      | None => [Deny sandboxID "" dstPort "malformed_clienthello"]
      | Some (serverName, peeked) =>
          if bool_decide (serverName = "") then [Deny sandboxID "" dstPort "missing_sni"]
          else if negb (Allowed allowlist srcIP serverName dstPort) then
            [Deny sandboxID serverName dstPort "not_allowlisted"]
          else if IsDeniedIP dstIP then [Deny sandboxID serverName dstPort "destination_denied"]
          else
            let hostport := JoinHostPort (IP_String dstIP) (fmt_int dstPort) in
            SniDial hostport :: if dials hostport then [Replay peeked] else []
      end
  end.

End sni.

End SniProxy.
