(* ===== verification/AddressTheorems.v ===== *)
(** * Addresses that a sandbox must not reach: theorems

    The filters of the DNS proxy and of the egress proxies test bytes and masks; here they
    are shown to be ranges of numbers. *)

From Stdlib Require Import Ascii.
From S2P Require Import Prelude Json GoStrings GoNet DnsProxy EgressProxy.
Import Json GoStrings GoNet DnsProxy EgressProxy.

Module AddressTheorems.

(** ** Numbers of bytes *)

Definition is_byte (b : Z) : Prop := 0 ≤ b < 256.

(** The number of an address, the first byte being the highest. *)
Fixpoint be (l : list Z) : Z := match l with [] => 0 | b :: l' => b * 256 ^ Z.of_nat (length l') + be l' end.

Lemma be_app l1 l2 : be (l1 ++ l2) = be l1 * 256 ^ Z.of_nat (length l2) + be l2.
Proof.
  induction l1 as [|b l1 IH]; cbn [be app]; [lia|]. rewrite IH, length_app, Nat2Z.inj_add, Z.pow_add_r by lia. lia.
Qed.

Lemma be_range l : Forall is_byte l → 0 ≤ be l < 256 ^ Z.of_nat (length l).
Proof.
  induction 1 as [|b l Hb _ IH]; cbn [be length]; [lia|]. rewrite Nat2Z.inj_succ, Z.pow_succ_r by lia. unfold is_byte in Hb. nia.
Qed.

Lemma be_div l1 l2 : Forall is_byte l2 → be (l1 ++ l2) / 256 ^ Z.of_nat (length l2) = be l1.
Proof.
  intros H%be_range. rewrite be_app, Z.div_add_l by lia. rewrite Z.div_small by lia. lia.
Qed.

Lemma be_mod l1 l2 : Forall is_byte l2 → be (l1 ++ l2) mod 256 ^ Z.of_nat (length l2) = be l2.
Proof. intros H%be_range. rewrite be_app, Z.add_comm, Z.mod_add by lia. apply Z.mod_small. lia. Qed.

Lemma be_inj l1 l2 : Forall is_byte l1 → Forall is_byte l2 → length l1 = length l2 → be l1 = be l2 → l1 = l2.
Proof.
  intros H1. revert l2. induction H1 as [|b l1 Hb H1 IH]; intros [|c l2] H2 Hlen Heq; try done. cbn [be length] in *.
  injection Hlen as Hlen. inversion H2 as [|? ? Hc H2']; subst. pose proof (be_range _ H1). pose proof (be_range _ H2').
  rewrite Hlen in *. set (k := 256 ^ Z.of_nat (length l2)) in *. unfold is_byte in Hb, Hc.
  assert (b = c) as -> by nia. f_equal. apply IH; [done|done|]. lia.
Qed.

(** ** Masks of a byte *)

(** Two tests of a byte agree when they agree on every one. *)
Lemma every_byte (f g : Z → bool) b :
  forallb (λ b, eqb (f b) (g b)) (seqZ 0 256) = true → is_byte b → f b = g b.
Proof.
  rewrite forallb_forall. intros H Hb. apply eqb_prop, H, list_elem_of_In, elem_of_seqZ. unfold is_byte in Hb. lia.
Qed.

Lemma land_255 b : is_byte b → Z.land b 255 = b.
Proof. intros Hb. change 255 with (Z.ones 8). rewrite Z.land_ones by lia. apply Z.mod_small. unfold is_byte in Hb. lia. Qed.

Lemma mask_f0_10 b : is_byte b → (Z.land b 0xf0 =? 16) = (16 <=? b) && (b <? 32).
Proof. by apply (every_byte (λ b, Z.land b 0xf0 =? 16) (λ b, (16 <=? b) && (b <? 32))). Qed.
Lemma mask_f0_e0 b : is_byte b → (Z.land b 0xf0 =? 0xe0) = (224 <=? b) && (b <? 240).
Proof. by apply (every_byte (λ b, Z.land b 0xf0 =? 0xe0) (λ b, (224 <=? b) && (b <? 240))). Qed.
Lemma mask_c0_40 b : is_byte b → (Z.land b 192 =? 64) = (64 <=? b) && (b <? 128).
Proof. by apply (every_byte (λ b, Z.land b 192 =? 64) (λ b, (64 <=? b) && (b <? 128))). Qed.
Lemma mask_c0_80 b : is_byte b → (Z.land b 0xc0 =? 0x80) = (128 <=? b) && (b <? 192).
Proof. by apply (every_byte (λ b, Z.land b 0xc0 =? 0x80) (λ b, (128 <=? b) && (b <? 192))). Qed.
Lemma mask_c0_c0 b : is_byte b → (Z.land b 192 =? 192) = (192 <=? b).
Proof. by apply (every_byte (λ b, Z.land b 192 =? 192) (λ b, (192 <=? b))). Qed.
Lemma mask_fe_fc b : is_byte b → (Z.land b 0xfe =? 0xfc) = (252 <=? b) && (b <? 254).
Proof. by apply (every_byte (λ b, Z.land b 0xfe =? 0xfc) (λ b, (252 <=? b) && (b <? 254))). Qed.

(** ** IPv4 *)

Definition in_block (lo hi n : Z) : bool := (lo <=? n) && (n <? hi).

(** 0.0.0.0, 10/8, 100.64/10, 127/8, 169.254/16, 172.16/12, 192.168/16 and 224/4. *)
Definition special4 (n : Z) : bool :=
  (n =? 0) || in_block (10 * 2 ^ 24) (11 * 2 ^ 24) n || in_block (100 * 2 ^ 24 + 64 * 2 ^ 16) (100 * 2 ^ 24 + 128 * 2 ^ 16) n ||
  in_block (127 * 2 ^ 24) (128 * 2 ^ 24) n || in_block (169 * 2 ^ 24 + 254 * 2 ^ 16) (169 * 2 ^ 24 + 255 * 2 ^ 16) n ||
  in_block (172 * 2 ^ 24 + 16 * 2 ^ 16) (172 * 2 ^ 24 + 32 * 2 ^ 16) n ||
  in_block (192 * 2 ^ 24 + 168 * 2 ^ 16) (192 * 2 ^ 24 + 169 * 2 ^ 16) n || in_block (224 * 2 ^ 24) (240 * 2 ^ 24) n.

Lemma bool_decide_cons (x y : Z) l k : bool_decide (x :: l = y :: k) = (x =? y) && bool_decide (l = k).
Proof.
  apply eq_true_iff_eq. rewrite andb_true_iff, !bool_decide_eq_true, Z.eqb_eq. split; [by intros [= -> ->]|by intros [-> ->]].
Qed.

Lemma unspecified4 a b c d :
  IsUnspecified [a; b; c; d] = (a =? 0) && (b =? 0) && (c =? 0) && (d =? 0).
Proof.
  unfold IsUnspecified, IP_Equal, IPv4zero, IPv6unspecified, IPv4. cbn [length Nat.eqb app v4InV6Prefix replicate andb].
  apply eq_true_iff_eq. rewrite orb_true_iff, !andb_true_iff, !bool_decide_eq_true, !Z.eqb_eq.
  split; [intros [[= <- <- <- <-]|[=]]; done|intros [[[-> ->] ->] ->]; by left].
Qed.

Lemma cgnat4 a b c d :
  is_byte a → is_byte b → Contains cgnatNet [a; b; c; d] = (a =? 100) && (64 <=? b) && (b <? 128).
Proof.
  intros Ha Hb. assert (Contains cgnatNet [a; b; c; d] = (100 =? Z.land a 255) && ((64 =? Z.land b 192) && true)) as ->.
  { unfold Contains. change (networkNumberAndMask cgnatNet) with (Some ([100; 64; 0; 0], [255; 192; 0; 0])).
    cbn [is4 To4 length Nat.eqb]. change (is4 [a; b; c; d]) with true. cbn [To4 length Nat.eqb andb zip_with].
    rewrite !bool_decide_cons, !Z.land_0_r. done. }
  rewrite land_255, (Z.eqb_sym 64), mask_c0_40, andb_true_r, (Z.eqb_sym 100), andb_assoc by done. done.
Qed.

Section four.
Context (a b c d : Z) (Ha : is_byte a) (Hb : is_byte b) (Hc : is_byte c) (Hd : is_byte d).

Lemma be4 : be [a; b; c; d] = a * 2 ^ 24 + b * 2 ^ 16 + c * 2 ^ 8 + d.
Proof. cbn [be length]. lia. Qed.

Lemma be4_zero : (be [a; b; c; d] =? 0) = (a =? 0) && (b =? 0) && (c =? 0) && (d =? 0).
Proof. rewrite be4. unfold is_byte in *. apply eq_true_iff_eq. rewrite !andb_true_iff, !Z.eqb_eq. lia. Qed.

Lemma be4_block8 lo hi : in_block (lo * 2 ^ 24) (hi * 2 ^ 24) (be [a; b; c; d]) = (lo <=? a) && (a <? hi).
Proof.
  rewrite be4. unfold in_block, is_byte in *. apply eq_true_iff_eq. rewrite !andb_true_iff, !Z.leb_le, !Z.ltb_lt. lia.
Qed.

Lemma be4_block16 x lo hi :
  0 ≤ lo → hi ≤ 256 →
  in_block (x * 2 ^ 24 + lo * 2 ^ 16) (x * 2 ^ 24 + hi * 2 ^ 16) (be [a; b; c; d]) = (a =? x) && (lo <=? b) && (b <? hi).
Proof.
  intros Hlo Hhi. rewrite be4. unfold in_block, is_byte in *. apply eq_true_iff_eq.
  rewrite !andb_true_iff, !Z.eqb_eq, !Z.leb_le, !Z.ltb_lt. lia.
Qed.

End four.

Lemma one_value x y b : y = x + 1 → (x <=? b) && (b <? y) = (b =? x).
Proof. intros ->. apply eq_true_iff_eq. rewrite andb_true_iff, Z.leb_le, Z.ltb_lt, Z.eqb_eq. lia. Qed.

Lemma special4_bytes a b c d :
  is_byte a → is_byte b → is_byte c → is_byte d →
  special4 (be [a; b; c; d]) =
  ((a =? 0) && (b =? 0) && (c =? 0) && (d =? 0)) || (a =? 10) || ((a =? 100) && (64 <=? b) && (b <? 128)) || (a =? 127) ||
  ((a =? 169) && (b =? 254)) || ((a =? 172) && (16 <=? b) && (b <? 32)) || ((a =? 192) && (b =? 168)) ||
  ((224 <=? a) && (a <? 240)).
Proof.
  intros. unfold special4. rewrite be4_zero, !be4_block8, !be4_block16 by done. rewrite <- !andb_assoc.
  by rewrite !(one_value 10 11), !(one_value 127 128), !(one_value 254 255), !(one_value 168 169).
Qed.

Lemma blocked4 a b c d :
  is_byte a → is_byte b → is_byte c → is_byte d → isBlockedPinAddr [a; b; c; d] = special4 (be [a; b; c; d]).
Proof.
  intros Ha Hb Hc Hd. rewrite special4_bytes by done. unfold isBlockedPinAddr. cbn [blocked_loop]. rewrite unspecified4.
  unfold IsLoopback, IsLinkLocalUnicast, IsLinkLocalMulticast, IsMulticast, IsPrivate.
  change (is4 [a; b; c; d]) with true. change (To4 [a; b; c; d]) with [a; b; c; d]. cbn iota. cbv zeta.
  change (byte_at [a; b; c; d] 0) with a. change (byte_at [a; b; c; d] 1) with b. change (byte_at [a; b; c; d] 2) with c.
  rewrite mask_f0_e0, mask_f0_10, cgnat4 by done. rewrite bool_decide_eq_false_2 by done.
  assert ((a =? 224) && (b =? 0) && (c =? 0) = true → (224 <=? a) && (a <? 240) = true) as Hmul.
  { rewrite !andb_true_iff, Z.eqb_eq, Z.leb_le, Z.ltb_lt. lia. }
  apply eq_true_iff_eq.
  match goal with |- (if ?x then true else ?y) = true ↔ _ => assert ((if x then true else y) = x || y) as -> by by destruct x end.
  rewrite !orb_true_iff. rewrite !andb_assoc. intuition congruence.
Qed.

(** ** IPv6 *)

Lemma blocked_mapped a b c d : isBlockedPinAddr (v4InV6Prefix ++ [a; b; c; d]) = isBlockedPinAddr [a; b; c; d].
Proof.
  unfold isBlockedPinAddr. cbn [blocked_loop].
  assert (IsUnspecified (v4InV6Prefix ++ [a; b; c; d]) = IsUnspecified [a; b; c; d]) as ->.
  { rewrite unspecified4. unfold IsUnspecified, IP_Equal, IPv4zero, IPv6unspecified, IPv4.
    cbn [length Nat.eqb app v4InV6Prefix replicate andb].
    apply eq_true_iff_eq. rewrite orb_true_iff, !andb_true_iff, !bool_decide_eq_true, !Z.eqb_eq.
    split; [intros [[= -> -> -> ->]|[=]]; done|intros [[[-> ->] ->] ->]; by left]. }
  reflexivity.
Qed.

(** There is no further call on an IPv4 address. *)
Lemma blocked_once a b c d :
  is_byte a → is_byte b → is_byte c → is_byte d → blocked_loop 1 (IPv4 a b c d) = special4 (be [a; b; c; d]).
Proof. intros. rewrite <- blocked4, <- blocked_mapped by done. reflexivity. Qed.

(** ::, ::1, fe80::/10, fec0::/10, ff00::/8 and fc00::/7. *)
Definition special6 (n : Z) : bool :=
  (n =? 0) || (n =? 1) || (n / 2 ^ 118 =? 0x3fa) || (n / 2 ^ 118 =? 0x3fb) || (n / 2 ^ 120 =? 0xff) || (n / 2 ^ 121 =? 0x7e).

(** An address in ::ffff:0:0/96, 64:ff9b::/96 or 2002::/16 is as special as the IPv4 address
    that it carries. *)
Definition blocked_number (v6 : bool) (n : Z) : bool :=
  if v6 then
    if n / 2 ^ 32 =? 0xffff then special4 (n mod 2 ^ 32)
    else special6 n ||
         if n / 2 ^ 32 =? 0x64ff9b * 2 ^ 64 then special4 (n mod 2 ^ 32)
         else (n / 2 ^ 112 =? 0x2002) && special4 (n / 2 ^ 80 mod 2 ^ 32)
  else special4 n.

Lemma bytes_eq l k : Forall is_byte l → Forall is_byte k → length l = length k → bool_decide (l = k) = (be l =? be k).
Proof.
  intros Hl Hk Hlen. apply eq_true_iff_eq. rewrite bool_decide_eq_true, Z.eqb_eq. split; [by intros ->|by apply be_inj].
Qed.

Section sixteen.
Context (b0 b1 : Z) (m : list Z) (a b c d : Z).
Context (H0 : is_byte b0) (H1 : is_byte b1) (Hm : Forall is_byte m) (Hlen : length m = 10%nat).
Context (Ha : is_byte a) (Hb : is_byte b) (Hc : is_byte c) (Hd : is_byte d).

Abbreviation ip := (b0 :: b1 :: m ++ [a; b; c; d]).

Lemma ip_bytes : Forall is_byte ip.
Proof. rewrite !Forall_cons, Forall_app, !Forall_cons. done. Qed.

Lemma ip_length : length ip = 16%nat.
Proof. simpl. rewrite length_app, Hlen. done. Qed.

Lemma ip_high32 : be ip / 2 ^ 32 = be (b0 :: b1 :: m).
Proof. apply (be_div (b0 :: b1 :: m) [a; b; c; d]). by rewrite !Forall_cons. Qed.

Lemma ip_low32 : be ip mod 2 ^ 32 = be [a; b; c; d].
Proof. apply (be_mod (b0 :: b1 :: m) [a; b; c; d]). by rewrite !Forall_cons. Qed.

Lemma ip_high112 : be ip / 2 ^ 112 = b0 * 256 + b1.
Proof.
  pose proof (be_div [b0; b1] (m ++ [a; b; c; d])) as H. rewrite length_app, Hlen in H. cbn [be length] in H.
  etransitivity; [apply H|lia]. apply Forall_app. split; [done|]. by rewrite !Forall_cons.
Qed.

Lemma ip_high118 : be ip / 2 ^ 118 = (b0 * 256 + b1) / 64.
Proof. rewrite <- ip_high112, Z.div_div by lia. done. Qed.

Lemma ip_high120 : be ip / 2 ^ 120 = b0.
Proof. change (2 ^ 120) with (2 ^ 112 * 256). rewrite <- Z.div_div, ip_high112, Z.div_add_l, Z.div_small by (done || lia). lia. Qed.

Lemma ip_high121 : be ip / 2 ^ 121 = b0 / 2.
Proof. change (2 ^ 121) with (2 ^ 120 * 2). by rewrite <- Z.div_div, ip_high120 by lia. Qed.

Lemma special6_bytes : special6 (be ip) =
  (be ip =? 0) || (be ip =? 1) || ((b0 =? 0xfe) && (128 <=? b1)) || (b0 =? 0xff) || ((252 <=? b0) && (b0 <? 254)).
Proof.
  unfold special6. rewrite ip_high118, ip_high120, ip_high121.
  assert (((b0 * 256 + b1) / 64 =? 0x3fa) = (b0 =? 0xfe) && (128 <=? b1) && (b1 <? 192)) as ->.
  { apply eq_true_iff_eq. rewrite !andb_true_iff, !Z.eqb_eq, Z.leb_le, Z.ltb_lt. unfold is_byte in H0, H1.
    clear -H0 H1. Z.to_euclidean_division_equations. lia. }
  assert (((b0 * 256 + b1) / 64 =? 0x3fb) = (b0 =? 0xfe) && (192 <=? b1)) as ->.
  { apply eq_true_iff_eq. rewrite !andb_true_iff, !Z.eqb_eq, Z.leb_le. unfold is_byte in H0, H1.
    clear -H0 H1. Z.to_euclidean_division_equations. lia. }
  assert ((b0 / 2 =? 0x7e) = (252 <=? b0) && (b0 <? 254)) as ->.
  { apply eq_true_iff_eq. rewrite !andb_true_iff, !Z.eqb_eq, Z.leb_le, Z.ltb_lt. unfold is_byte in H0.
    clear -H0. Z.to_euclidean_division_equations. lia. }
  assert (((b0 =? 0xfe) && (128 <=? b1) && (b1 <? 192)) || ((b0 =? 0xfe) && (192 <=? b1)) = (b0 =? 0xfe) && (128 <=? b1)) as Hll.
  { destruct (b0 =? 0xfe); [|done]. simpl. apply eq_true_iff_eq. rewrite orb_true_iff, andb_true_iff, !Z.leb_le, Z.ltb_lt. lia. }
  rewrite <- (orb_assoc ((be ip =? 0) || (be ip =? 1))), Hll. done.
Qed.

Lemma mapped_number : bool_decide (take 12 ip = v4InV6Prefix) = (be ip / 2 ^ 32 =? 0xffff).
Proof.
  rewrite ip_high32. assert (take 12 ip = b0 :: b1 :: m) as ->.
  { simpl. do 2 f_equal. rewrite take_app_le by lia. apply take_ge. lia. }
  rewrite bytes_eq; [done| |by repeat constructor|simpl; by rewrite Hlen]. by rewrite !Forall_cons.
Qed.

Lemma zip_land_255 l k : Forall is_byte l → length k = length l → (∀ x, x ∈ k → x = 255) → zip_with Z.land l k = l.
Proof.
  intros Hl. revert k. induction Hl as [|x l Hx Hl IH]; intros [|y k] Hlen' Hk; try done. simpl.
  rewrite (Hk y) by apply list_elem_of_here. rewrite land_255 by done. f_equal. apply IH; [by injection Hlen'|].
  intros z Hz. apply Hk. by apply list_elem_of_further.
Qed.

Section unmapped.
Context (Hun : is4 ip = false).

Lemma site_local_number : Contains siteLocalNet ip = (b0 =? 0xfe) && (192 <=? b1).
Proof.
  unfold Contains. rewrite Hun, ip_length.
  change (networkNumberAndMask siteLocalNet) with (Some ([254; 192] ++ replicate 14 0, [255; 192] ++ replicate 14 0)).
  cbn [length app replicate Nat.eqb andb zip_with].
  assert (zip_with Z.land (m ++ [a; b; c; d]) [0; 0; 0; 0; 0; 0; 0; 0; 0; 0; 0; 0; 0; 0] = replicate 14 0) as ->.
  { destruct m as [|x0 [|x1 [|x2 [|x3 [|x4 [|x5 [|x6 [|x7 [|x8 [|x9 []]]]]]]]]]]; try done. cbn. by rewrite !Z.land_0_r. }
  rewrite !bool_decide_cons, bool_decide_eq_true_2, (land_255 b0), (land_255 254) by done.
  change (Z.land 192 192) with 192. by rewrite (Z.eqb_sym 192), mask_c0_c0, (Z.eqb_sym 254), andb_true_r.
Qed.

Lemma nat64_number : Contains nat64WellKnown ip = (be ip / 2 ^ 32 =? 0x64ff9b * 2 ^ 64).
Proof.
  unfold Contains. rewrite Hun, ip_length, ip_high32.
  change (networkNumberAndMask nat64WellKnown) with (Some ([0; 0x64; 0xff; 0x9b] ++ replicate 12 0, replicate 12 255 ++ replicate 4 0)).
  cbv beta iota zeta.
  assert (zip_with Z.land ip (replicate 12 255 ++ replicate 4 0) = (b0 :: b1 :: m) ++ replicate 4 0) as ->.
  { change ip with ((b0 :: b1 :: m) ++ [a; b; c; d]). rewrite zip_with_app by (simpl; by rewrite Hlen). f_equal.
    - apply zip_land_255; [by rewrite !Forall_cons|simpl; by rewrite Hlen|]. intros x Hx. by apply elem_of_replicate in Hx as [-> _].
    - cbn. by rewrite !Z.land_0_r. }
  change (16 =? length ([0; 0x64; 0xff; 0x9b] ++ replicate 12 0))%nat with true. cbn [andb].
  change (zip_with Z.land ([0; 0x64; 0xff; 0x9b] ++ replicate 12 0) (replicate 12 255 ++ replicate 4 0))
    with (([0; 0x64; 0xff; 0x9b] ++ replicate 8 0) ++ replicate 4 0).
  transitivity (bool_decide ([0; 0x64; 0xff; 0x9b] ++ replicate 8 0 = b0 :: b1 :: m)).
  { apply bool_decide_ext. split; [by intros ?%app_inv_tail|by intros ->]. }
  rewrite bytes_eq; [apply Z.eqb_sym|by repeat constructor|by rewrite !Forall_cons|simpl; by rewrite Hlen].
Qed.

Lemma six_to_four_number : Contains sixToFourNet ip = (be ip / 2 ^ 112 =? 0x2002).
Proof.
  unfold Contains. rewrite Hun, ip_length, ip_high112.
  change (networkNumberAndMask sixToFourNet) with (Some ([32; 2] ++ replicate 14 0, [255; 255] ++ replicate 14 0)).
  cbn [length app replicate Nat.eqb andb zip_with].
  assert (zip_with Z.land (m ++ [a; b; c; d]) [0; 0; 0; 0; 0; 0; 0; 0; 0; 0; 0; 0; 0; 0] = replicate 14 0) as ->.
  { destruct m as [|x0 [|x1 [|x2 [|x3 [|x4 [|x5 [|x6 [|x7 [|x8 [|x9 []]]]]]]]]]]; try done. cbn. by rewrite !Z.land_0_r. }
  rewrite !bool_decide_cons, bool_decide_eq_true_2, !land_255 by done.
  rewrite andb_true_r. apply eq_true_iff_eq. rewrite andb_true_iff, !Z.eqb_eq. unfold is_byte in H0, H1. lia.
Qed.

Lemma unmapped_number : (be ip / 2 ^ 32 =? 0xffff) = false.
Proof.
  rewrite <- mapped_number. revert Hun. unfold is4, To4. rewrite ip_length. cbn [Nat.eqb andb].
  destruct (bool_decide (take 12 ip = v4InV6Prefix)); [|done]. intros Hd'. exfalso.
  apply bool_decide_eq_false in Hd'. apply Hd'. intros Hn. apply (f_equal length) in Hn.
  rewrite length_drop, ip_length in Hn. done.
Qed.

Lemma unspecified_number : IsUnspecified ip = (be ip =? 0).
Proof.
  unfold IsUnspecified, IP_Equal. rewrite ip_length. cbn [IPv4zero IPv4 IPv6unspecified length app v4InV6Prefix replicate Nat.eqb].
  rewrite (bool_decide_eq_false_2 (ip = _)).
  - rewrite bytes_eq; [done|apply ip_bytes|by repeat constructor|apply ip_length].
  - intros Heq. pose proof unmapped_number as Hn. rewrite Heq in Hn. done.
Qed.

Lemma loopback_number : IsLoopback ip = (be ip =? 1).
Proof.
  unfold IsLoopback, IP_Equal. rewrite Hun, ip_length. cbn [IPv6loopback length app replicate Nat.eqb].
  rewrite bytes_eq; [done|apply ip_bytes|by repeat constructor|apply ip_length].
Qed.

Lemma embedded_number :
  match embeddedIPv4 ip with Some e => blocked_loop 1 e | None => false end =
  if be ip / 2 ^ 32 =? 0x64ff9b * 2 ^ 64 then special4 (be ip mod 2 ^ 32)
  else (be ip / 2 ^ 112 =? 0x2002) && special4 (be ip / 2 ^ 80 mod 2 ^ 32).
Proof.
  unfold embeddedIPv4. assert (To16 ip = ip) as -> by (unfold To16; by rewrite ip_length).
  rewrite bool_decide_eq_false_2 by done. rewrite nat64_number. destruct (_ =? 0x64ff9b * 2 ^ 64).
  - rewrite ip_low32. destruct m as [|x0 [|x1 [|x2 [|x3 [|x4 [|x5 [|x6 [|x7 [|x8 [|x9 []]]]]]]]]]]; try done.
    cbn. by apply blocked_once.
  - rewrite six_to_four_number. destruct (_ =? 0x2002); [|done]. cbn [andb].
    destruct m as [|x0 [|x1 [|x2 [|x3 l]]]] eqn:Em; try done. rewrite !Forall_cons in Hm. destruct Hm as (? & ? & ? & ? & Hl).
    assert (be (b0 :: b1 :: (x0 :: x1 :: x2 :: x3 :: l) ++ [a; b; c; d]) / 2 ^ 80 = be [b0; b1; x0; x1; x2; x3]) as ->.
    { pose proof (be_div [b0; b1; x0; x1; x2; x3] (l ++ [a; b; c; d])) as Hdiv. rewrite length_app in Hdiv.
      simpl in Hlen. replace (length l) with 6%nat in Hdiv by lia. apply Hdiv. apply Forall_app. split; [done|]. by rewrite !Forall_cons. }
    pose proof (be_mod [b0; b1] [x0; x1; x2; x3]) as Hmod. cbn [length app] in Hmod.
    transitivity (special4 (be [x0; x1; x2; x3])); [by apply (blocked_once x0 x1 x2 x3)|].
    f_equal. symmetry. apply Hmod. by rewrite !Forall_cons.
Qed.

Lemma blocked_unmapped : isBlockedPinAddr ip = blocked_number true (be ip).
Proof.
  unfold blocked_number. rewrite unmapped_number, special6_bytes. unfold isBlockedPinAddr.
  change (blocked_loop 2 ip) with
    (if bool_decide (ip = []) || IsUnspecified ip || IsLoopback ip || IsLinkLocalUnicast ip || IsLinkLocalMulticast ip ||
        IsMulticast ip || IsPrivate ip then true
     else if is4 ip then Contains cgnatNet (To4 ip) else if Contains siteLocalNet ip then true
     else match embeddedIPv4 ip with Some e => blocked_loop 1 e | None => false end).
  rewrite embedded_number, site_local_number, unspecified_number, loopback_number.
  set (rest := if _ =? 0x64ff9b * 2 ^ 64 then _ else _). clearbody rest.
  unfold IsLinkLocalUnicast, IsLinkLocalMulticast, IsMulticast, IsPrivate. rewrite Hun, ip_length.
  change (byte_at ip 0) with b0. change (byte_at ip 1) with b1. rewrite mask_c0_80, mask_fe_fc, bool_decide_eq_false_2 by done.
  set (u := be ip =? 0). set (l := be ip =? 1). clearbody u l. cbn [Nat.eqb andb orb].
  assert ((192 <=? b1) = (128 <=? b1) && negb (b1 <? 192)) as ->.
  { apply eq_true_iff_eq. rewrite andb_true_iff, negb_true_iff, !Z.leb_le, Z.ltb_ge. lia. }
  destruct u, l, (b0 =? 0xfe), (128 <=? b1), (b1 <? 192), (b0 =? 0xff), ((252 <=? b0) && (b0 <? 254)), (Z.land b1 0x0f =? 2); done.
Qed.

End unmapped.

End sixteen.

(** An address: four or sixteen bytes. *)
Definition is_ip (ip : IP) : Prop := Forall is_byte ip ∧ (length ip = 4%nat ∨ length ip = 16%nat).

Lemma ip16_split (ip : IP) : Forall is_byte ip → length ip = 16%nat →
  ∃ b0 b1 m a b c d, ip = b0 :: b1 :: m ++ [a; b; c; d] ∧ is_byte b0 ∧ is_byte b1 ∧ Forall is_byte m ∧ length m = 10%nat ∧
    is_byte a ∧ is_byte b ∧ is_byte c ∧ is_byte d.
Proof.
  intros Hf Hl. do 16 (destruct ip as [|? ip]; [done|]). destruct ip; [|done]. rewrite !Forall_cons in Hf.
  eexists _, _, [_; _; _; _; _; _; _; _; _; _], _, _, _, _. split; [done|]. rewrite !Forall_cons. naive_solver.
Qed.

Lemma is4_16 (ip : IP) : length ip = 16%nat → is4 ip = true → ip = v4InV6Prefix ++ drop 12 ip.
Proof.
  intros Hl. unfold is4, To4. rewrite Hl. cbn [Nat.eqb andb]. destruct (bool_decide (take 12 ip = v4InV6Prefix)) eqn:E; [|done].
  apply bool_decide_eq_true in E. intros _. rewrite <- E. symmetry. apply take_drop.
Qed.

(** The DNS proxy refuses to pin exactly the addresses of a fixed list of ranges: for
    IPv4 0.0.0.0, 10/8, 100.64/10, 127/8, 169.254/16, 172.16/12, 192.168/16 and 224/4, and
    for IPv6 ::, ::1, fc00::/7, fe80::/10, fec0::/10 and ff00::/8, and an address that
    carries an IPv4 address (mapped, NAT64 or 6to4) when it refuses that one.  So the tests
    of bytes and masks are tests of ranges, and the recursion ends. *)
Theorem blocked_exact ip : is_ip ip → isBlockedPinAddr ip = blocked_number (length ip =? 16)%nat (be ip).
Proof.
  intros [Hf [Hl|Hl]]; rewrite Hl; cbn [Nat.eqb].
  - destruct ip as [|a [|b [|c [|d []]]]]; try done. rewrite !Forall_cons in Hf. apply blocked4; naive_solver.
  - destruct (is4 ip) eqn:E4.
    + pose proof (is4_16 ip Hl E4) as Hip. assert (length (drop 12 ip) = 4%nat) as Hl4 by (rewrite length_drop; lia).
      rewrite Hip in Hf. apply Forall_app in Hf as [_ Hf]. rewrite Hip.
      destruct (drop 12 ip) as [|a [|b [|c [|d []]]]]; try done. rewrite !Forall_cons in Hf.
      rewrite blocked_mapped, blocked4 by naive_solver. unfold blocked_number.
      pose proof (be_div v4InV6Prefix [a; b; c; d]) as Hdiv. pose proof (be_mod v4InV6Prefix [a; b; c; d]) as Hmod.
      cbn [length] in Hdiv, Hmod. change (256 ^ Z.of_nat 4) with (2 ^ 32) in *. rewrite Hdiv, Hmod by (rewrite !Forall_cons; naive_solver).
      done.
    + destruct (ip16_split ip Hf Hl) as (b0 & b1 & m & a & b & c & d & -> & ? & ? & ? & ? & ? & ? & ? & ?).
      by apply blocked_unmapped.
Qed.

Lemma blocked_exact_witness : isBlockedPinAddr ([0x20; 0x02; 10; 0; 0; 1] ++ replicate 10 0) = true.
Proof.
  rewrite blocked_exact; [reflexivity|]. split; [|by right]. repeat (apply Forall_cons; split; [done|]). constructor.
Defined.

End AddressTheorems.
