(* ===== verification/ProxyTheorems.v ===== *)
(** * The egress proxies: theorems

    What the HTTP proxy and the TLS proxy dial: only destinations that pass the deny list,
    by the address that was checked, and for the TLS proxy only those that the sandbox's
    allowlist opens. *)

From Stdlib Require Import Ascii.
From S2P Require Import Prelude Json GoStrings GoNet Allowlist DnsProxy EgressProxy AddressTheorems.
Import Json GoStrings GoNet DnsProxy EgressProxy SniProxy AddressTheorems.

Module ProxyTheorems.

(** ** The deny list *)

Definition mapped (ip4 : IP) : IP := v4InV6Prefix ++ ip4.
Definition nat64 (ip4 : IP) : IP := [0; 0x64; 0xff; 0x9b] ++ replicate 8 0 ++ ip4.
Definition compatible (ip4 : IP) : IP := replicate 12 0 ++ ip4.
Definition sixToFour (ip4 : IP) : IP := [0x20; 0x02] ++ ip4 ++ replicate 10 0.

(** The loopback and link-local blocks and the unspecified address. *)
Definition host_local (a b c d : Z) : Prop :=
  a = 127 ∨ (a = 169 ∧ b = 254) ∨ (a = 0 ∧ b = 0 ∧ c = 0 ∧ d = 0).

Lemma denied4 a b c d : host_local a b c d → deniedIP [a; b; c; d] = true.
Proof.
  unfold deniedIP. rewrite bool_decide_eq_false_2 by done. change (is4 [a; b; c; d]) with true.
  change (To4 [a; b; c; d]) with [a; b; c; d]. cbv zeta. cbn iota. rewrite unspecified4. intros [->|[[-> ->]|(-> & -> & -> & ->)]].
  - by destruct (_ && _).
  - reflexivity.
  - reflexivity.
Qed.

Lemma denied_mapped a b c d : deniedIP (mapped [a; b; c; d]) = deniedIP [a; b; c; d].
Proof. reflexivity. Qed.

(** A block of 96 bits holds every address with its prefix. *)
Lemma contains96 p a b c d :
  length p = 12%nat → is4 (p ++ replicate 4 0) = false → is4 (p ++ [a; b; c; d]) = false →
  Contains (cidr (p ++ replicate 4 0) 96) (p ++ [a; b; c; d]) = true.
Proof.
  intros Hp H0 H4. do 12 (destruct p as [|? p]; [done|]). destruct p; [|done]. cbn [app replicate] in *.
  unfold Contains, networkNumberAndMask. cbn [cidr net_IP net_Mask]. rewrite H0, H4.
  change (CIDRMask 96 _) with (replicate 12 255 ++ replicate 4 0). cbn [length replicate Nat.eqb orb negb app andb zip_with].
  rewrite !Z.land_0_r. by apply bool_decide_eq_true_2.
Qed.

Lemma denied_nat64 a b c d : deniedIP (nat64 [a; b; c; d]) = true.
Proof.
  unfold deniedIP, deniedNets. cbn [existsb]. cbv zeta. change (is4 (nat64 [a; b; c; d])) with false. cbn iota.
  destruct (_ || _ || _ || _); [by destruct (bool_decide _)|].
  assert (Contains (cidr ([0; 0x64; 0xff; 0x9b] ++ replicate 12 0) 96) (nat64 [a; b; c; d]) = true) as ->.
  { apply (contains96 ([0; 0x64; 0xff; 0x9b] ++ replicate 8 0)); reflexivity. }
  rewrite orb_true_l, !orb_true_r. by destruct (bool_decide _).
Qed.

Lemma denied_compatible a b c d : deniedIP (compatible [a; b; c; d]) = true.
Proof.
  unfold deniedIP, deniedNets. cbn [existsb]. cbv zeta. change (is4 (compatible [a; b; c; d])) with false. cbn iota.
  destruct (_ || _ || _ || _); [by destruct (bool_decide _)|].
  assert (Contains (cidr (replicate 16 0) 96) (compatible [a; b; c; d]) = true) as ->.
  { apply (contains96 (replicate 12 0)); reflexivity. }
  rewrite orb_true_l, !orb_true_r. by destruct (bool_decide _).
Qed.

(** A guest cannot name a loopback or link-local IPv4 address of the host, or the
    unspecified address, in a form that the deny list of the egress proxies misses: plain,
    IPv4-mapped, IPv4-compatible and NAT64 forms are all refused.  The 6to4 form is not,
    which the DNS proxy does refuse. *)
Theorem denied_forms a b c d :
  host_local a b c d →
  (deniedIP [a; b; c; d] = true ∧ deniedIP (mapped [a; b; c; d]) = true ∧ deniedIP (compatible [a; b; c; d]) = true ∧
   deniedIP (nat64 [a; b; c; d]) = true) ∧
  deniedIP (sixToFour [169; 254; 169; 254]) = false ∧ isBlockedPinAddr (sixToFour [169; 254; 169; 254]) = true.
Proof.
  intros H. rewrite denied_mapped, denied_compatible, denied_nat64. apply denied4 in H. rewrite H.
  split; [done|]. split; reflexivity.
Qed.

Lemma denied_forms_witness :
  (deniedIP [169; 254; 169; 254] = true ∧ deniedIP (mapped [169; 254; 169; 254]) = true ∧
   deniedIP (compatible [169; 254; 169; 254]) = true ∧ deniedIP (nat64 [169; 254; 169; 254]) = true) ∧
  deniedIP (sixToFour [169; 254; 169; 254]) = false ∧ isBlockedPinAddr (sixToFour [169; 254; 169; 254]) = true.
Proof. apply (denied_forms 169 254 169 254). right. left. done. Defined.

(** ** The HTTP proxy *)

Section http.
Context {unicode : Unicode} (url_Parse : string → option URL) (lookupIP : string → option (list IP)) (dials : string → bool).

(** A target that may be dialled for [hostport]: the address itself, or the first of the
    addresses of a name that are all permitted. *)
Definition screened (hostport target : string) : Prop :=
  ∃ host port, SplitHostPort hostport = Some (host, port) ∧
    ((∃ ip, ParseIP host = Some ip ∧ deniedIP ip = false ∧ target = hostport) ∨
     (ParseIP host = None ∧ ∃ ip ips, lookupIP host = Some (ip :: ips) ∧
        Forall (λ ip, deniedIP ip = false) (ip :: ips) ∧ target = JoinHostPort (IP_String ip) port)).

Lemma screen_ok hostport target : screenDestination lookupIP hostport = Ok target → screened hostport target.
Proof.
  unfold screenDestination, screened. destruct (SplitHostPort hostport) as [[host port]|]; [|done].
  intros H. exists host, port. split; [done|]. destruct (ParseIP host) as [ip|] eqn:Eip.
  - left. destruct (deniedIP ip) eqn:Ed; [done|]. injection H as <-. by exists ip.
  - right. split; [done|]. destruct (lookupIP host) as [[|ip ips]|] eqn:El; try done.
    destruct (existsb deniedIP (ip :: ips)) eqn:Ed; [done|]. injection H as <-. exists ip, ips. split_and!; [done| |done].
    apply Forall_forall. intros x Hx. destruct (deniedIP x) eqn:Edx; [|done].
    assert (existsb deniedIP (ip :: ips) = true) by (apply existsb_exists; exists x; split; [by apply list_elem_of_In|done]). congruence.
Qed.

(** Bytes go to an upstream only after its dial. *)
Fixpoint dialled_first (es : list event) : bool :=
  match es with
  | [] => true
  | Dial _ :: _ => true
  | (Upstream _ | Splice _) :: _ => false
  | _ :: es' => dialled_first es'
  end.

Lemma with_upstream_dials id hostport k target :
  Dial target ∈ with_upstream lookupIP dials id hostport k → (∀ t, Dial t ∉ k) → screened hostport target.
Proof.
  unfold with_upstream. intros Hin Hk. destruct (screenDestination lookupIP hostport) as [t|[]] eqn:Es.
  - apply elem_of_cons in Hin as [[= ->]|Hin]; [by apply screen_ok|]. destruct (dials t); [by apply Hk in Hin|].
    by apply list_elem_of_singleton in Hin.
  - rewrite !elem_of_cons in Hin. destruct Hin as [|[|?%elem_of_nil]]; done.
  - by apply list_elem_of_singleton in Hin.
Qed.

Lemma with_upstream_first id hostport k : dialled_first (with_upstream lookupIP dials id hostport k) = true.
Proof. unfold with_upstream. by destruct (screenDestination lookupIP hostport) as [t|[]]. Qed.

(** C21: whatever a sandbox sends to the egress proxy, and whatever its names resolve to, the
    proxy dials only for a registered guest, only an address that is not on the deny list,
    and exactly the address that it checked, so that a name cannot be resolved to another
    one in between; nothing is sent to an upstream before. *)
Theorem egress_proxy_floor resolver client srcIP :
  dialled_first (Serve url_Parse lookupIP dials resolver client srcIP) = true ∧
  ∀ target, Dial target ∈ Serve url_Parse lookupIP dials resolver client srcIP →
    is_Some (Lookup srcIP resolver) ∧
    ∃ line hostport isConnect, parseRequestTarget url_Parse line = Some (hostport, isConnect) ∧ screened hostport target.
Proof.
  unfold Serve. destruct (ReadString _) as [[line|] br]; [|split; [done|]; by intros ? ?%elem_of_nil].
  destruct (parseRequestTarget url_Parse (trim_eol line)) as [[hostport isConnect]|] eqn:Ep;
    [|split; [done|]; by intros ? ?%list_elem_of_singleton].
  destruct (Lookup srcIP resolver) as [id|]; [|split; [done|]; by intros ? ?%list_elem_of_singleton].
  destruct isConnect.
  - split; [apply with_upstream_first|]. intros target Hin. split; [done|].
    exists (trim_eol line), hostport, true. split; [done|]. eapply with_upstream_dials; [exact Hin|].
    intros t. rewrite !elem_of_cons, elem_of_nil. naive_solver.
  - destruct (collectHeaders br) as [headers br']. split; [apply with_upstream_first|]. intros target Hin. split; [done|].
    exists (trim_eol line), hostport, false. split; [done|]. eapply with_upstream_dials; [exact Hin|].
    intros t. rewrite !elem_of_cons, elem_of_nil. naive_solver.
Qed.

End http.

(** What a client sends right after the headers of a CONNECT request, in the same packet,
    does not reach the upstream: the tunnel copies the connection and not the buffer. *)
Example connect_drops_early_data :
  Serve (λ _, None) (λ _, None) (λ _, true) (Register [10; 200; 0; 2] "s1" NewRegistry)
    ["CONNECT 93.184.216.34:443 HTTP/1.1" +:+ crlf +:+ crlf +:+ "early"; "late"] [10; 200; 0; 2] =
  [Dial "93.184.216.34:443"; Reply Established; Splice ["late"]].
Proof. vm_compute. reflexivity. Qed.

(** ** The TLS proxy *)

Section tls.
Context {unicode : Unicode} {mapRange : MapRange}.

(** The TLS proxy dials exactly when the guest is registered, its handshake names a
    server, the guest's allowlist opens that name for the port and the original destination
    is not on the deny list, and then it dials that destination; and it sends on the bytes
    that it read only after the dial. *)
Theorem sni_dials_iff resolver allowlist dials peek srcIP dstIP dstPort target :
  SniDial target ∈ SniServe resolver allowlist dials peek srcIP dstIP dstPort ↔
  is_Some (Lookup srcIP resolver) ∧ IsDeniedIP dstIP = false ∧
  target = JoinHostPort (IP_String dstIP) (fmt_int dstPort) ∧
  ∃ serverName peeked reg ports, peek = Some (serverName, peeked) ∧ serverName ≠ "" ∧ allowlist = Some reg ∧
    Allowlist.Lookup srcIP serverName reg = Some ports ∧ dstPort ∈ ports.
Proof.
  unfold SniServe. split.
  - destruct (Lookup srcIP resolver) as [id|]; [|by intros ?%list_elem_of_singleton].
    destruct peek as [[name peeked]|]; [|by intros ?%list_elem_of_singleton].
    case_bool_decide as En; [by intros ?%list_elem_of_singleton|].
    destruct (Allowed allowlist srcIP name dstPort) eqn:Ea; simpl; [|by intros ?%list_elem_of_singleton].
    destruct (IsDeniedIP dstIP); [by intros ?%list_elem_of_singleton|].
    intros [[= ->]|Hin]%elem_of_cons; [|destruct (dials _); [by apply list_elem_of_singleton in Hin|by apply elem_of_nil in Hin]].
    split_and!; [done|done|done|]. unfold Allowed in Ea. destruct allowlist as [reg|]; [|done].
    rewrite bool_decide_eq_false_2 in Ea by done. destruct (Allowlist.Lookup srcIP name reg) as [ports|] eqn:El; [|done].
    apply existsb_exists in Ea as (p & Hp%list_elem_of_In & ->%Z.eqb_eq). by exists name, peeked, reg, ports.
  - intros ([id ->] & -> & -> & name & peeked & reg & ports & -> & Hn & -> & Hl & Hp).
    rewrite bool_decide_eq_false_2 by done. unfold Allowed. rewrite bool_decide_eq_false_2, Hl by done.
    assert (existsb (Z.eqb dstPort) ports = true) as ->.
    { apply existsb_exists. exists dstPort. split; [by apply list_elem_of_In|by apply Z.eqb_refl]. }
    apply list_elem_of_here.
Qed.

End tls.

End ProxyTheorems.
