(* ===== verification/Engine.v ===== *)
(** * internal/fork: the engine of a node

    The bookkeeping of engine.go, journal.go and reconcile.go, and the uid allocator of
    internal/firecracker: admission under the ceiling, the sandboxes of the node with the
    network identity, the uid and the journal record of each, fork, live fork and terminate
    with all their error paths, and the recovery at start-up.  Each method is a program
    over the engine's state whose steps are the parts that hold a lock or call outside.

    What the machine answers is an argument of the methods: [boot] says which of the
    outside calls of a fork succeed and which process it starts, [sys] which processes
    are the engine's and which records of the journal can be read and removed.  The host's network is behind the interface [Manager].  File system
    paths, times, memory figures, volumes beyond whether there are any, and the
    snapshot's memory are left out; a journal record is kept as its fields. *)

From Stdlib Require Import Ascii.
From S2P Require Import Prelude Sha256 Json GoStrings GoNet Atomic Netconf Allowlist Nft Firewall EgressProxy.
Import Sha256 Json GoStrings GoNet Netconf Allowlist Nft Firewall.

(** ** firecracker/jailer.go: uids *)

Module Uids.

Record UIDAllocator := { ua_low : Z; ua_high : Z; ua_next : Z; ua_inUse : gset Z }.

Definition NewUIDAllocator (low high : Z) : UIDAllocator :=
  {| ua_low := low; ua_high := high; ua_next := 0; ua_inUse := ∅ |}.

(** The size of the range, a uint32. *)
Definition range_size (a : UIDAllocator) : Z := uint32 (ua_high a - ua_low a + 1).

Fixpoint acquire_loop (fuel : nat) (a : UIDAllocator) (i : Z) : option (Z * UIDAllocator) :=
  match fuel with
  | O => None
  | S fuel' =>
      let n := range_size a in
      let candidate := uint32 (ua_low a + uint32 (ua_next a + i) mod n) in
      if bool_decide (candidate ∈ ua_inUse a) then acquire_loop fuel' a (i + 1)
      else Some (candidate, {| ua_low := ua_low a; ua_high := ua_high a; ua_next := uint32 (ua_next a + i + 1) mod n;
                               ua_inUse := {[candidate]} ∪ ua_inUse a |})
  end.

(** The loop is over [i < n]. *)
Definition Acquire (a : UIDAllocator) : option Z * UIDAllocator :=
  match acquire_loop (Z.to_nat (range_size a)) a 0 with
  | Some (uid, a') => (Some uid, a')
  | None => (None, a)
  end.

Definition with_inUse (f : gset Z → gset Z) (a : UIDAllocator) : UIDAllocator :=
  {| ua_low := ua_low a; ua_high := ua_high a; ua_next := ua_next a; ua_inUse := f (ua_inUse a) |}.

Definition MarkInUse (uid : Z) (a : UIDAllocator) : UIDAllocator :=
  if (uid <? ua_low a) || (ua_high a <? uid) then a else with_inUse (union {[uid]}) a.

Definition Release (uid : Z) (a : UIDAllocator) : UIDAllocator := with_inUse (λ s, s ∖ {[uid]}) a.

End Uids.

Module Engine.

(** ** The network manager *)

Class Manager (K : Type) := {
  mgr_Setup : Identity → SandboxPolicy → option IP → K → result string unit * K;
  mgr_Teardown : Identity → K → result string unit * K;
}.

(** The manager of network_linux.go. *)
#[global] Instance linuxManager `{!Unicode} {K} `{!Host K} (enableF : K → result string unit * K) (opts : applyOptions) : Manager K := {|
  mgr_Setup id policy resolverIP := setup enableF id policy resolverIP opts;
  mgr_Teardown id := teardown id opts;
|}.

(** ** journal.go: records *)

Record networkIdentity := { ni_TapName : string; ni_GuestMAC : string; ni_HostIP : string; ni_GuestIP : string }.

Definition networkIdentityFrom (id : Identity) : networkIdentity := {|
  ni_TapName := id_TapName id;
  ni_GuestMAC := id_GuestMAC id;
  ni_HostIP := if bool_decide (id_HostIP id = []) then "" else IP_String (id_HostIP id);
  ni_GuestIP := if bool_decide (id_GuestIP id = []) then "" else IP_String (id_GuestIP id);
|}.

Definition parse_to4 (s : string) : IP := if bool_decide (s = "") then [] else To4 (default [] (ParseIP s)).

Definition toIdentity (n : networkIdentity) : Identity := {|
  id_TapName := ni_TapName n;
  id_GuestMAC := ni_GuestMAC n;
  id_HostIP := parse_to4 (ni_HostIP n);
  id_GuestIP := parse_to4 (ni_GuestIP n);
|}.

Definition no_identity : Identity := {| id_TapName := ""; id_GuestMAC := ""; id_HostIP := []; id_GuestIP := [] |}.

Record sandboxRecord := {
  jr_ID : string;
  jr_SnapshotID : string;
  jr_Port : Z;
  jr_Pid : Z;
  jr_JailedUID : Z;
  jr_Network : networkIdentity;
  jr_HasVolumes : bool;
  jr_FirecrackerBin : string;
}.

(** ** The engine *)

Record NetworkOpts := {
  no_EgressPolicy : string;
  no_AllowList : list string;
  no_AllowCIDRs : list string;
  no_BlockNetwork : bool;
  no_Inbound : string;
  no_InboundCIDRs : list string;
}.

(** [sb_client] is the uid that the client's allocator holds, none without a client;
    a client without the jailer holds uid zero. *)
Record Sandbox := {
  sb_ID : string;
  sb_SnapshotID : string;
  sb_Port : Z;
  sb_Pid : Z;
  sb_client : option Z;
  sb_netID : Identity;
  sb_netOpts : option NetworkOpts;
  sb_jailedUID : Z;
  sb_hasVolumes : bool;
  sb_adopted : bool;
  sb_firecrackerBin : string;
}.

(** What a process of forkd is started with. *)
Record config := {
  c_maxSandboxes : Z;
  c_firecrackerBin : string;
  c_network : bool;
  c_enableDNSEgress : bool;
  c_resolverIP : option IP;
  c_egressProxy : bool;
  c_proxySentinel : IP;
  c_proxyPort : Z;
  c_jailer : bool;
}.

(** [e_signals] are the processes that were killed, the last one first. *)
Record Engine (K : Type) := {
  e_sandboxes : gmap string Sandbox;
  e_reserved : Z;
  e_nextPort : Z;
  e_netAlloc : Allocator;
  e_uids : Uids.UIDAllocator;
  e_dns : Allowlist.Registry;
  e_proxy : EgressProxy.Registry;
  e_journal : gmap string sandboxRecord;
  e_host : K;
  e_signals : list Z;
}.
Arguments e_sandboxes {K}.
Arguments e_reserved {K}.
Arguments e_nextPort {K}.
Arguments e_netAlloc {K}.
Arguments e_uids {K}.
Arguments e_dns {K}.
Arguments e_proxy {K}.
Arguments e_journal {K}.
Arguments e_host {K}.
Arguments e_signals {K}.

Section setters.
Context {K : Type}.

Definition with_sandboxes (m : gmap string Sandbox) (reserved : Z) (e : Engine K) : Engine K :=
  {| e_sandboxes := m; e_reserved := reserved; e_nextPort := e_nextPort e; e_netAlloc := e_netAlloc e;
     e_uids := e_uids e; e_dns := e_dns e; e_proxy := e_proxy e; e_journal := e_journal e; e_host := e_host e;
     e_signals := e_signals e |}.
Definition with_port (p : Z) (e : Engine K) : Engine K :=
  {| e_sandboxes := e_sandboxes e; e_reserved := e_reserved e; e_nextPort := p; e_netAlloc := e_netAlloc e;
     e_uids := e_uids e; e_dns := e_dns e; e_proxy := e_proxy e; e_journal := e_journal e; e_host := e_host e;
     e_signals := e_signals e |}.
Definition with_alloc (a : Allocator) (e : Engine K) : Engine K :=
  {| e_sandboxes := e_sandboxes e; e_reserved := e_reserved e; e_nextPort := e_nextPort e; e_netAlloc := a;
     e_uids := e_uids e; e_dns := e_dns e; e_proxy := e_proxy e; e_journal := e_journal e; e_host := e_host e;
     e_signals := e_signals e |}.
Definition with_uids (u : Uids.UIDAllocator) (e : Engine K) : Engine K :=
  {| e_sandboxes := e_sandboxes e; e_reserved := e_reserved e; e_nextPort := e_nextPort e; e_netAlloc := e_netAlloc e;
     e_uids := u; e_dns := e_dns e; e_proxy := e_proxy e; e_journal := e_journal e; e_host := e_host e;
     e_signals := e_signals e |}.
Definition with_registries (d : Allowlist.Registry) (p : EgressProxy.Registry) (e : Engine K) : Engine K :=
  {| e_sandboxes := e_sandboxes e; e_reserved := e_reserved e; e_nextPort := e_nextPort e; e_netAlloc := e_netAlloc e;
     e_uids := e_uids e; e_dns := d; e_proxy := p; e_journal := e_journal e; e_host := e_host e;
     e_signals := e_signals e |}.
Definition with_journal (j : gmap string sandboxRecord) (e : Engine K) : Engine K :=
  {| e_sandboxes := e_sandboxes e; e_reserved := e_reserved e; e_nextPort := e_nextPort e; e_netAlloc := e_netAlloc e;
     e_uids := e_uids e; e_dns := e_dns e; e_proxy := e_proxy e; e_journal := j; e_host := e_host e;
     e_signals := e_signals e |}.
Definition with_host (h : K) (e : Engine K) : Engine K :=
  {| e_sandboxes := e_sandboxes e; e_reserved := e_reserved e; e_nextPort := e_nextPort e; e_netAlloc := e_netAlloc e;
     e_uids := e_uids e; e_dns := e_dns e; e_proxy := e_proxy e; e_journal := e_journal e; e_host := h;
     e_signals := e_signals e |}.
Definition with_signal (pid : Z) (e : Engine K) : Engine K :=
  {| e_sandboxes := e_sandboxes e; e_reserved := e_reserved e; e_nextPort := e_nextPort e; e_netAlloc := e_netAlloc e;
     e_uids := e_uids e; e_dns := e_dns e; e_proxy := e_proxy e; e_journal := e_journal e; e_host := e_host e;
     e_signals := pid :: e_signals e |}.

End setters.

Inductive fork_error :=
| ErrInvalidID | ErrAtCapacity | ErrUnverified | ErrIncompatible | ErrEncrypted | ErrSnapshot | ErrStart | ErrUIDs
| ErrAllowList | ErrIdentity | ErrNetwork | ErrVolumes | ErrLoad | ErrRebind | ErrResume | ErrNotFound | ErrNeedsProxy
| ErrCheckpoint.

(** [^[a-zA-Z0-9][a-zA-Z0-9_-]{0,63}$] *)
Definition safeSandboxIDComponent (id : string) : bool :=
  let alnum c := let n := byte_of c in
    ((48 <=? n) && (n <=? 57)) || ((65 <=? n) && (n <=? 90)) || ((97 <=? n) && (n <=? 122)) in
  match String.list_ascii_of_string id with
  | [] => false
  | c :: cs => alnum c && forallb (λ c, alnum c || bool_decide (c = "_"%char) || bool_decide (c = "-"%char)) cs &&
               (length cs <=? 63)%nat
  end.

(** The outcomes of the outside calls of a fork: the three gates of [Fork], whether the
    snapshot is there and the fork's directory and disk can be made, whether the launch
    passes its checks, the process that it starts, and the steps after it. *)
Record boot := {
  bt_verified : bool;
  bt_compatible : bool;
  bt_opened : bool;
  bt_snapshot : bool;
  bt_checked : bool;
  bt_launch : option Z;
  bt_volumes : bool;
  bt_load : bool;
  bt_rebind : bool;
  bt_resume : bool;
  bt_journal : bool;
}.

Record ForkOpts := { fo_Network : option NetworkOpts; fo_Volumes : bool; fo_LiveFork : bool }.

Section engine.
Context {unicode : Unicode} {sliceSort : SliceSort} {mapRange : MapRange} {K : Type} {manager : Manager K}.
Variable cfg : config.

Abbreviation state := (Engine K).

Definition networkEnabled : bool := c_network cfg.
Definition dnsEgressEnabled : bool := c_enableDNSEgress cfg && negb (bool_decide (c_resolverIP cfg = None)) && networkEnabled.
Definition egressProxyEnabled : bool := c_egressProxy cfg && networkEnabled.

(** ** Admission *)

Definition inFlight (e : state) : Z := Z.of_nat (base.size (e_sandboxes e)) + e_reserved e.

Definition admitFork (e : state) : result fork_error unit * state :=
  if c_maxSandboxes cfg <=? 0 then (Ok tt, e)
  else if c_maxSandboxes cfg <=? inFlight e then (Err ErrAtCapacity, e)
  else (Ok tt, with_sandboxes (e_sandboxes e) (e_reserved e + 1) e).

Definition commitReservation (sandboxID : string) (sb : Sandbox) (e : state) : unit * state :=
  let reserved := if (0 <? c_maxSandboxes cfg) && (0 <? e_reserved e) then e_reserved e - 1 else e_reserved e in
  (tt, with_sandboxes (<[sandboxID := sb]> (e_sandboxes e)) reserved e).

Definition releaseReservation (e : state) : unit * state :=
  if c_maxSandboxes cfg <=? 0 then (tt, e)
  else (tt, if 0 <? e_reserved e then with_sandboxes (e_sandboxes e) (e_reserved e - 1) e else e).

(** ** The network of a fork *)

Definition on_alloc {A} (f : Allocator → A * Allocator) (e : state) : A * state :=
  let '(a, al) := f (e_netAlloc e) in (a, with_alloc al e).
Definition on_uids {A} (f : Uids.UIDAllocator → A * Uids.UIDAllocator) (e : state) : A * state :=
  let '(a, u) := f (e_uids e) in (a, with_uids u e).
Definition on_host {A} (f : K → A * K) (e : state) : A * state :=
  let '(a, h) := f (e_host e) in (a, with_host h e).

Definition teardownForkNetwork (sandboxID : string) (id : Identity) : prog state unit :=
  if negb networkEnabled then Ret tt
  else
    do _ := op (λ e, (tt, with_registries
                   (if c_enableDNSEgress cfg then Allowlist.Deregister (id_GuestIP id) (e_dns e) else e_dns e)
                   (if c_egressProxy cfg then EgressProxy.Deregister (id_GuestIP id) (e_proxy e) else e_proxy e) e));
    do _ := op (on_host (mgr_Teardown id));
    op (on_alloc (λ a, (tt, Release sandboxID a))).

Definition policy_of (allow : list HostPort) (n : NetworkOpts) : SandboxPolicy := {|
  sp_Egress := no_EgressPolicy n;
  sp_Allow := allow;
  sp_AllowCIDRs := no_AllowCIDRs n;
  sp_BlockNetwork := no_BlockNetwork n;
  sp_Inbound := no_Inbound n;
  sp_InboundCIDRs := no_InboundCIDRs n;
  sp_Counter := true;
  sp_ProxySentinel := if egressProxyEnabled then Some (c_proxySentinel cfg) else None;
  sp_ProxyPort := if egressProxyEnabled then c_proxyPort cfg else 0;
|}.

(** No identity when networking is off or was not asked for. *)
Definition prepareForkNetwork (sandboxID : string) (opts : ForkOpts) : prog state (result fork_error (option Identity)) :=
  match fo_Network opts with
  | None => Ret (Ok None)
  | Some n =>
      if negb networkEnabled then Ret (Ok None)
      else
        match SplitAllowList (no_AllowList n) with
        | Err _ => Ret (Err ErrAllowList)
        | Ok (allow, skipped) =>
            do r := op (on_alloc (Netconf.Acquire sandboxID));
            match r with
            | Err _ => Ret (Err ErrIdentity)
            | Ok id =>
                do s := op (on_host (mgr_Setup id (policy_of allow n) (c_resolverIP cfg)));
                match s with
                | Err _ =>
                    do _ := op (on_alloc (λ a, (tt, Release sandboxID a)));
                    Ret (Err ErrNetwork)
                | Ok _ =>
                    do? _ :=
                      (if dnsEgressEnabled && negb (bool_decide (skipped = [])) then
                         match ParseNameAllowList (no_AllowList n) with
                         | Err _ =>
                             do _ := op (on_alloc (λ a, (tt, Release sandboxID a)));
                             Ret (Err ErrAllowList)
                         | Ok names =>
                             if bool_decide (names = ∅) then Ret (Ok tt)
                             else op (λ e, (Ok tt, with_registries (Allowlist.Register (id_GuestIP id) names (e_dns e)) (e_proxy e) e))
                         end
                       else Ret (Ok tt));
                    do _ := (if egressProxyEnabled then
                               op (λ e, (tt, with_registries (e_dns e) (EgressProxy.Register (id_GuestIP id) sandboxID (e_proxy e)) e))
                             else Ret tt);
                    Ret (Ok (Some id))
                end
            end
        end
  end.

(** ** Virtual machines *)

(** [StartVM]: the uid of the new machine, zero without the jailer. *)
Definition StartVM (bt : boot) : prog state (result fork_error (Z * Z)) :=
  if negb (bt_checked bt) then Ret (Err ErrStart)
  else if c_jailer cfg then
    do r := op (on_uids Uids.Acquire);
    match r with
    | None => Ret (Err ErrUIDs)
    | Some uid =>
        match bt_launch bt with
        | Some pid => Ret (Ok (pid, uid))
        | None =>
            do _ := op (on_uids (λ u, (tt, Uids.Release uid u)));
            Ret (Err ErrStart)
        end
    end
  else match bt_launch bt with Some pid => Ret (Ok (pid, 0)) | None => Ret (Err ErrStart) end.

(** [Client.Kill]: the process is reaped before its uid is released. *)
Definition Kill (pid uid : Z) : prog state unit :=
  do _ := op (λ e, (tt, with_signal pid e));
  if c_jailer cfg then op (on_uids (λ u, (tt, Uids.Release uid u))) else Ret tt.

(** ** Forks *)

Definition record_of (sb : Sandbox) : sandboxRecord := {|
  jr_ID := sb_ID sb;
  jr_SnapshotID := sb_SnapshotID sb;
  jr_Port := sb_Port sb;
  jr_Pid := sb_Pid sb;
  jr_JailedUID := sb_jailedUID sb;
  jr_Network := networkIdentityFrom (sb_netID sb);
  jr_HasVolumes := sb_hasVolumes sb;
  jr_FirecrackerBin := c_firecrackerBin cfg;
|}.

(** [cleanupFork] without the files. *)
Definition cleanupFork (sandboxID : string) (pid uid : Z) (fnet : option Identity) : prog state unit :=
  do _ := Kill pid uid;
  match fnet with Some id => teardownForkNetwork sandboxID id | None => Ret tt end.

(** From the launch to the commit. *)
Definition fork_body (snapshotID sandboxID : string) (opts : ForkOpts) (bt : boot) : prog state (result fork_error Sandbox) :=
  if negb (bt_snapshot bt) then Ret (Err ErrSnapshot)
  else
    do? (pid, uid) := StartVM bt;
    do r := prepareForkNetwork sandboxID opts;
    match r with
    | Err err => do _ := Kill pid uid; Ret (Err err)
    | Ok fnet =>
        let fail err := do _ := cleanupFork sandboxID pid uid fnet; Ret (Err err) in
        if negb (bt_volumes bt) then fail ErrVolumes
        else if negb (bt_load bt) then fail ErrLoad
        else if negb (bt_rebind bt) then fail ErrRebind
        else if negb (bt_resume bt) then fail ErrResume
        else
          do port := op (λ e, (e_nextPort e, with_port (e_nextPort e + 1) e));
          let sb := {|
            sb_ID := sandboxID; sb_SnapshotID := snapshotID; sb_Port := port; sb_Pid := pid;
            sb_client := Some uid;
            sb_netID := default no_identity fnet;
            sb_netOpts := match fnet with Some _ => fo_Network opts | None => None end;
            sb_jailedUID := uid;
            sb_hasVolumes := fo_Volumes opts;
            sb_adopted := false;
            sb_firecrackerBin := "" |} in
          do _ := op (commitReservation sandboxID sb);
          do _ := (if bt_journal bt then op (λ e, (tt, with_journal (<[sandboxID := record_of sb]> (e_journal e)) e)) else Ret tt);
          Ret (Ok sb)
    end.

Definition fork (snapshotID sandboxID : string) (opts : ForkOpts) (bt : boot) (reserved : bool) : prog state (result fork_error Sandbox) :=
  if negb (safeSandboxIDComponent sandboxID) then Ret (Err ErrInvalidID)
  else
    do? _ := (if reserved then Ret (Ok tt) else op admitFork);
    do r := fork_body snapshotID sandboxID opts bt;
    match r with
    | Ok sb => Ret (Ok sb)
    | Err err => do _ := op releaseReservation; Ret (Err err)
    end.

Definition Fork (snapshotID sandboxID : string) (opts : ForkOpts) (bt : boot) : prog state (result fork_error Sandbox) :=
  if negb (safeSandboxIDComponent snapshotID) then Ret (Err ErrInvalidID)
  else if negb (safeSandboxIDComponent sandboxID) then Ret (Err ErrInvalidID)
  else
    do? _ := op admitFork;
    let refuse err := do _ := op releaseReservation; Ret (Err err) in
    if negb (bt_verified bt) then refuse ErrUnverified
    else if negb (bt_compatible bt) then refuse ErrIncompatible
    else if negb (bt_opened bt) then refuse ErrEncrypted
    else fork snapshotID sandboxID opts bt true.

Definition liveForkOpts (source : Sandbox) : ForkOpts := {| fo_Network := sb_netOpts source; fo_Volumes := false; fo_LiveFork := true |}.

(** [checkpointed]: whether the checkpoint of the source could be taken. *)
Definition ForkRunning (sourceID newID : string) (checkpointed : bool) (bt : boot) : prog state (result fork_error Sandbox) :=
  do source := rd (λ e, e_sandboxes e !! sourceID);
  match source with
  | None => Ret (Err ErrNotFound)
  | Some source =>
      if networkEnabled && negb egressProxyEnabled then Ret (Err ErrNeedsProxy)
      else if negb checkpointed then Ret (Err ErrCheckpoint)
      else fork (sourceID +:+ "-live") newID (liveForkOpts source) bt false
  end.

(** ** Termination *)

(** What the operating system answers while a call runs: which process is a firecracker of
    a binary, which records can be removed, whether the directory of the journal can be
    read, and which of its records can be read and parsed. *)
Record system := {
  sy_verify : Z → string → bool;
  sy_unlink : string → bool;
  sy_readdir : bool;
  sy_read : string → bool;
}.

(** A record that cannot be removed stays. *)
Definition unjournalSandbox (sys : system) (id : string) (e : state) : state :=
  if sy_unlink sys id then with_journal (delete id (e_journal e)) e else e.

Definition reapAdopted (sys : system) (sb : Sandbox) : prog state unit :=
  do _ := (if (0 <? sb_Pid sb) && sy_verify sys (sb_Pid sb) (sb_firecrackerBin sb)
           then op (λ e, (tt, with_signal (sb_Pid sb) e)) else Ret tt);
  if negb (sb_jailedUID sb =? 0) && c_jailer cfg then op (on_uids (λ u, (tt, Uids.Release (sb_jailedUID sb) u))) else Ret tt.

Definition Terminate (sys : system) (sandboxID : string) : prog state (result fork_error unit) :=
  if negb (safeSandboxIDComponent sandboxID) then Ret (Err ErrInvalidID)
  else
    do found := op (λ e, (e_sandboxes e !! sandboxID, with_sandboxes (delete sandboxID (e_sandboxes e)) (e_reserved e) e));
    match found with
    | None => Ret (Err ErrNotFound)
    | Some sb =>
        do _ := match sb_client sb with
                | Some uid => Kill (sb_Pid sb) uid
                | None => if sb_adopted sb then reapAdopted sys sb else Ret tt
                end;
        do _ := (if bool_decide (id_TapName (sb_netID sb) = "") then Ret tt else teardownForkNetwork sandboxID (sb_netID sb));
        do _ := op (λ e, (tt, unjournalSandbox sys sandboxID e));
        Ret (Ok tt)
    end.

(** ** Recovery *)

Definition adopted (rec : sandboxRecord) : Sandbox := {|
  sb_ID := jr_ID rec; sb_SnapshotID := jr_SnapshotID rec; sb_Port := jr_Port rec; sb_Pid := jr_Pid rec;
  sb_client := None; sb_netID := toIdentity (jr_Network rec); sb_netOpts := None; sb_jailedUID := jr_JailedUID rec;
  sb_hasVolumes := jr_HasVolumes rec; sb_adopted := true; sb_firecrackerBin := jr_FirecrackerBin rec |}.

Definition adoptSandbox (rec : sandboxRecord) (e : state) : state :=
  let sb := adopted rec in
  let e1 := if negb (jr_JailedUID rec =? 0) && c_jailer cfg then with_uids (Uids.MarkInUse (jr_JailedUID rec) (e_uids e)) e else e in
  let e2 := if negb (bool_decide (id_TapName (sb_netID sb) = "")) && c_network cfg
            then with_alloc (MarkInUse (jr_ID rec) (sb_netID sb) (e_netAlloc e1)).2 e1 else e1 in
  with_sandboxes (<[jr_ID rec := sb]> (e_sandboxes e2)) (e_reserved e2) e2.

Definition reapArtifacts (rec : sandboxRecord) (e : state) : state :=
  let e1 := if negb (bool_decide (ni_TapName (jr_Network rec) = "")) && networkEnabled
            then (Atomic.run (teardownForkNetwork (jr_ID rec) (toIdentity (jr_Network rec))) e).2 else e in
  if negb (jr_JailedUID rec =? 0) && c_jailer cfg then with_uids (Uids.Release (jr_JailedUID rec) (e_uids e1)) e1 else e1.

Definition reconcile_record (sys : system) (e : state) (rec : sandboxRecord) : state :=
  if sy_verify sys (jr_Pid rec) (jr_FirecrackerBin rec) then adoptSandbox rec e
  else unjournalSandbox sys (jr_ID rec) (reapArtifacts rec e).

(** The records that can be read, in the order of the directory; none without it. *)
Definition load (sys : system) (e : state) : list sandboxRecord :=
  if sy_readdir sys then
    (filter (λ p, sy_read sys p.1 = true) (map_range "journal.load" (e_journal e))).*2
  else [].

Definition reconcile (sys : system) (e : state) : state := foldl (reconcile_record sys) e (load sys e).

(** A new process of forkd on the host of a former one: only the journal is left. *)
Definition NewEngine (alloc : Allocator) (uids : Uids.UIDAllocator) (sys : system) (e : state) : state :=
  reconcile sys {|
    e_sandboxes := ∅; e_reserved := 0; e_nextPort := 10000; e_netAlloc := alloc; e_uids := uids;
    e_dns := Allowlist.NewRegistry; e_proxy := EgressProxy.NewRegistry; e_journal := e_journal e; e_host := e_host e;
    e_signals := e_signals e |}.

End engine.

(** ** The process check *)

(** What [/proc/<pid>] shows: whether it is there, the target of [exe] and [comm]. *)
Record proc_entry := { pe_exe : option string; pe_comm : option string }.

(** [filepath.Base] of an absolute path without a final slash. *)
Definition Base (path : string) : string := match CutLast path "/" with Some (_, b) => b | None => path end.

Definition procfsVerifier `{!Unicode} (proc : Z → option proc_entry) (EvalSymlinks : string → option string)
    (pid : Z) (firecrackerBin : string) : bool :=
  if pid <=? 0 then false
  else match proc pid with
       | None => false
       | Some pe =>
           match pe_exe pe with
           | Some exe =>
               if bool_decide (exe = "") then
                 match pe_comm pe with Some comm => bool_decide (TrimSpace comm = "firecracker") | None => false end
               else
                 match EvalSymlinks firecrackerBin with
                 | Some resolved =>
                     negb (bool_decide (resolved = "")) && (bool_decide (exe = resolved) || bool_decide (exe = firecrackerBin))
                 | None => false
                 end || bool_decide (Base (TrimSuffix exe " (deleted)") = "firecracker")
           | None => match pe_comm pe with Some comm => bool_decide (TrimSpace comm = "firecracker") | None => false end
           end
       end.

End Engine.
