(* ===== verification/EngineTheorems.v ===== *)
(** * The engine of a node: theorems

    The ceiling on sandboxes holds under every interleaving of forks, live forks and
    terminations. *)

From Stdlib Require Import Ascii.
From S2P Require Import Prelude Json GoStrings GoNet Atomic Netconf Allowlist Nft Firewall EgressProxy Engine.
Import Json GoStrings GoNet Netconf Engine.

Module EngineTheorems.

#[local] Arguments honest : simpl never.
#[local] Arguments pbind : simpl never.
#[local] Arguments op : simpl never.

Section ceiling.
Context {unicode : Unicode} {sliceSort : SliceSort} {mapRange : MapRange} {K : Type} {manager : Manager K}.
Context (cfg : config).

(** ** The calls on an engine *)

Inductive call :=
| CFork (snapshotID sandboxID : string) (opts : ForkOpts) (bt : boot)
| CForkRunning (sourceID newID : string) (checkpointed : bool) (bt : boot)
| CTerminate (sys : system) (sandboxID : string).

Definition prog_of (c : call) : prog (Engine K) unit :=
  match c with
  | CFork snapshotID sandboxID opts bt => do _ := Fork cfg snapshotID sandboxID opts bt; Ret tt
  | CForkRunning sourceID newID checkpointed bt => do _ := ForkRunning cfg sourceID newID checkpointed bt; Ret tt
  | CTerminate sys sandboxID => do _ := Terminate cfg sys sandboxID; Ret tt
  end.

(** ** Reservations *)

Definition under_ceiling (e : Engine K) : Prop := 0 ≤ e_reserved e ∧ inFlight e ≤ c_maxSandboxes cfg.

Context (Hmax : 0 < c_maxSandboxes cfg).

Abbreviation honest' := (honest e_reserved under_ceiling).

(** A step that changes neither the sandboxes nor the reservations. *)
Lemma honest_quiet {A} t (f : Engine K → A * Engine K) Q :
  (∀ e, e_sandboxes (f e).2 = e_sandboxes e ∧ e_reserved (f e).2 = e_reserved e) → 0 ≤ t → (∀ a, Q a t) →
  honest' t (op f) Q.
Proof.
  intros Hf Ht HQ. apply honest_op; [|done|done]. intros e [H1 H2]. destruct (Hf e) as [Es Er].
  unfold under_ceiling, inFlight. by rewrite Es, Er.
Qed.

Lemma on_alloc_quiet {A} (f : Allocator → A * Allocator) (e : Engine K) :
  e_sandboxes (on_alloc f e).2 = e_sandboxes e ∧ e_reserved (on_alloc f e).2 = e_reserved e.
Proof. unfold on_alloc. by destruct (f _). Qed.

Lemma on_uids_quiet {A} (f : Uids.UIDAllocator → A * Uids.UIDAllocator) (e : Engine K) :
  e_sandboxes (on_uids f e).2 = e_sandboxes e ∧ e_reserved (on_uids f e).2 = e_reserved e.
Proof. unfold on_uids. by destruct (f _). Qed.

Lemma on_host_quiet {A} (f : K → A * K) (e : Engine K) :
  e_sandboxes (on_host f e).2 = e_sandboxes e ∧ e_reserved (on_host f e).2 = e_reserved e.
Proof. unfold on_host. by destruct (f _). Qed.

Lemma honest_ret {A} t (a : A) Q : Q a t → honest' t (Ret a) Q.
Proof. done. Qed.

Ltac quiet :=
  repeat first
    [ apply honest_bind
    | apply honest_quiet; [intros; first [done | apply on_alloc_quiet | apply on_uids_quiet | apply on_host_quiet]|lia|intros]
    | apply honest_ret ].

Lemma teardown_honest t id i Q : 0 ≤ t → (∀ u, Q u t) → honest' t (teardownForkNetwork cfg id i) Q.
Proof. intros Ht HQ. unfold teardownForkNetwork. destruct (networkEnabled cfg); simpl; [|apply HQ]. quiet. apply HQ. Qed.

Lemma Kill_honest t pid uid Q : 0 ≤ t → (∀ u, Q u t) → honest' t (Kill cfg pid uid) Q.
Proof. intros Ht HQ. unfold Kill. quiet. destruct (c_jailer cfg); [|apply HQ]. quiet. apply HQ. Qed.

Lemma StartVM_honest t bt Q : 0 ≤ t → (∀ r, Q r t) → honest' t (StartVM cfg bt) Q.
Proof.
  intros Ht HQ. unfold StartVM. destruct (bt_checked bt); simpl; [|apply HQ]. destruct (c_jailer cfg).
  - quiet. destruct a as [uid|]; [|apply HQ]. destruct (bt_launch bt); [apply HQ|]. quiet. apply HQ.
  - destruct (bt_launch bt); apply HQ.
Qed.

Lemma prepare_honest t id opts Q : 0 ≤ t → (∀ r, Q r t) → honest' t (prepareForkNetwork cfg id opts) Q.
Proof.
  intros Ht HQ. unfold prepareForkNetwork. destruct (fo_Network opts) as [n|]; [|apply HQ].
  destruct (networkEnabled cfg); simpl; [|apply HQ]. destruct (Allowlist.SplitAllowList _) as [[allow skipped]|]; [|apply HQ].
  quiet. destruct a as [i|]; [|apply HQ]. quiet. destruct a as [u|]; [|quiet; apply HQ].
  unfold pbind_ok. apply honest_bind.
  match goal with |- honest _ _ _ _ ?Q0 => assert (∀ r, Q0 r t) as Hk end.
  { intros [u'|e]; [|apply HQ]. apply honest_bind. destruct (egressProxyEnabled cfg); quiet; apply HQ. }
  destruct (_ && _); [|apply Hk]. destruct (Allowlist.ParseNameAllowList _) as [names|]; [|quiet; apply HQ].
  destruct (bool_decide _); [apply Hk|]. quiet. apply Hk.
Qed.

Lemma admit_honest Q : (∀ r, Q r (match r with Ok _ => 1 | Err _ => 0 end)) → honest' 0 (op (admitFork cfg)) Q.
Proof.
  intros HQ e [H1 H2] Ht. unfold admitFork. destruct (Z.leb_spec (c_maxSandboxes cfg) 0); [lia|].
  destruct (Z.leb_spec (c_maxSandboxes cfg) (inFlight e)); simpl.
  - split; [done|]. exists 0. split_and!; [lia|lia|apply HQ].
  - split; [unfold under_ceiling, inFlight in *; simpl; lia|]. exists 1. split_and!; [lia|lia|apply HQ].
Qed.

Lemma release_honest Q : Q tt 0 → honest' 1 (op (releaseReservation cfg)) Q.
Proof.
  intros HQ e [H1 H2] Ht. unfold releaseReservation. destruct (Z.leb_spec (c_maxSandboxes cfg) 0); [lia|].
  destruct (Z.ltb_spec 0 (e_reserved e)); [|lia]. simpl. split; [unfold under_ceiling, inFlight in *; simpl; lia|].
  exists 0. split_and!; [lia|lia|done].
Qed.

Lemma commit_honest id sb Q : Q tt 0 → honest' 1 (op (commitReservation cfg id sb)) Q.
Proof.
  intros HQ e [H1 H2] Ht. unfold commitReservation. rewrite (proj2 (Z.ltb_lt 0 (c_maxSandboxes cfg)) Hmax).
  destruct (Z.ltb_spec 0 (e_reserved e)); [|lia]. simpl. split; [|exists 0; split_and!; [lia|lia|done]].
  unfold under_ceiling, inFlight in *. simpl. split; [lia|].
  assert (base.size (<[id:=sb]> (e_sandboxes e)) ≤ S (base.size (e_sandboxes e)))%nat; [|lia].
  rewrite map_size_insert. case_match; simpl; lia.
Qed.

(** A body that fails still holds its reservation, and one that succeeds has spent it. *)
Lemma body_honest snap id opts bt :
  honest' 1 (fork_body cfg snap id opts bt) (λ r t, t = match r with Ok _ => 0 | Err _ => 1 end).
Proof.
  unfold fork_body. destruct (bt_snapshot bt); simpl; [|done]. unfold pbind_ok. apply honest_bind, StartVM_honest; [lia|].
  intros [[pid uid]|]; [|done]. apply honest_bind, prepare_honest; [lia|]. intros [fnet|err].
  2: { apply honest_bind, Kill_honest; [lia|done]. }
  assert (∀ err, honest' 1 (do _ := cleanupFork cfg id pid uid fnet; Ret (Err err))
    (λ (r : result fork_error Sandbox) t, t = match r with Ok _ => 0 | Err _ => 1 end)) as Hfail.
  { intros err. apply honest_bind. unfold cleanupFork. apply honest_bind, Kill_honest; [lia|intros _].
    destruct fnet; [|done]. apply teardown_honest; [lia|done]. }
  destruct (bt_volumes bt); simpl; [|apply Hfail]. destruct (bt_load bt); simpl; [|apply Hfail].
  destruct (bt_rebind bt); simpl; [|apply Hfail]. destruct (bt_resume bt); simpl; [|apply Hfail].
  apply (honest_bind _ _ _ (op _)), honest_quiet; [done|lia|]. intros port. apply (honest_bind _ _ _ (op _)), commit_honest.
  destruct (bt_journal bt); [|done]. apply (honest_bind _ _ _ (op _)), honest_quiet; [done|lia|done].
Qed.

Lemma fork_honest snap id opts bt (reserved : bool) :
  safeSandboxIDComponent id = true →
  honest' (if reserved then 1 else 0) (fork cfg snap id opts bt reserved) (λ _ t, t = 0).
Proof.
  intros Hid. unfold fork. rewrite Hid. simpl. unfold pbind_ok. apply honest_bind.
  assert (honest' 1 (do r := fork_body cfg snap id opts bt;
    match r with Ok sb => Ret (Ok sb) | Err err => do _ := op (releaseReservation cfg); Ret (Err err) end) (λ _ t, t = 0)) as Hb.
  { apply honest_bind. eapply honest_mono; [|apply body_honest]. intros [sb|err] t ->; [done|].
    apply honest_bind, release_honest. done. }
  destruct reserved; [done|]. apply admit_honest. intros [u|err]; [done|done].
Qed.

Lemma reap_honest t sys sb Q :
  0 ≤ t → (∀ u, Q u t) →
  honest' t (match sb_client sb with
             | Some uid => Kill cfg (sb_Pid sb) uid
             | None => if sb_adopted sb then reapAdopted cfg sys sb else Ret tt
             end) Q.
Proof.
  intros Ht HQ. destruct (sb_client sb); [by apply Kill_honest|]. destruct (sb_adopted sb); [|apply HQ].
  unfold reapAdopted. apply honest_bind.
  match goal with |- honest _ _ t _ ?Q0 => assert (∀ u, Q0 u t) as Hu end.
  { intros _. destruct (_ && _); [|apply HQ]. apply honest_quiet; [apply on_uids_quiet|lia|done]. }
  destruct ((0 <? sb_Pid sb) && _); [|exact (Hu tt)]. apply honest_quiet; [done|lia|done].
Qed.

Lemma call_honest c : honest' 0 (prog_of c) (λ _ t, t = 0).
Proof.
  destruct c as [snap id opts bt|src new cp bt|sys id]; simpl; apply honest_bind.
  - unfold Fork. destruct (safeSandboxIDComponent snap); [|done]. destruct (safeSandboxIDComponent id) eqn:Hid; [|done]. simpl.
    unfold pbind_ok. apply (honest_bind _ _ _ (op _)), admit_honest. intros [u|err]; [|done].
    assert (∀ err, honest' 1 (do _ := op (releaseReservation cfg); Ret (Err err))
      (λ (_ : result fork_error Sandbox) t, honest' t (Ret ()) (λ _ t, t = 0))) as Hr.
    { intros err. apply honest_bind, release_honest. done. }
    destruct (bt_verified bt); simpl; [|apply Hr]. destruct (bt_compatible bt); simpl; [|apply Hr].
    destruct (bt_opened bt); simpl; [|apply Hr]. apply (fork_honest snap id opts bt true Hid).
  - unfold ForkRunning, rd. apply (honest_bind _ _ _ (op _)), honest_quiet; [done|lia|]. intros [source|]; [|done].
    destruct (_ && _); [done|]. destruct cp; simpl; [|done].
    destruct (safeSandboxIDComponent new) eqn:Hid; [by apply (fork_honest _ _ _ _ false)|].
    unfold fork. by rewrite Hid.
  - unfold Terminate. destruct (safeSandboxIDComponent id); [|done]. simpl. apply (honest_bind _ _ _ (op _)).
    intros e [H1 H2] Ht. split.
    { unfold under_ceiling, inFlight in *. simpl. split; [done|].
      assert (base.size (delete id (e_sandboxes e)) ≤ base.size (e_sandboxes e))%nat; [|lia].
      rewrite map_size_delete. case_match; simpl; lia. }
    exists 0. split_and!; [lia|done|]. simpl. destruct (e_sandboxes e !! id) as [sb|]; [|done].
    apply honest_bind. apply reap_honest; [lia|]. intros _. apply honest_bind.
    match goal with |- honest _ _ 0 _ ?Q0 => assert (∀ u, Q0 u 0) as Hj end.
    { intros _. apply (honest_bind _ _ _ (op _)), honest_quiet; [|lia|done].
      unfold unjournalSandbox. by destruct (sy_unlink sys id). }
    destruct (bool_decide _); [exact (Hj tt)|]. apply teardown_honest; [lia|done].
Qed.

(** C15: The ceiling on sandboxes is never passed, in any interleaving of forks, live forks
    and terminations whatever fails in them: the live sandboxes and the admitted forks
    under way are never more than it allows.  When all calls have returned no reservation
    is left, so that a failed fork never uses up capacity. *)
Theorem capacity_ceiling e e' ps :
  e_reserved e = 0 → Z.of_nat (base.size (e_sandboxes e)) ≤ c_maxSandboxes cfg →
  reaches (λ p, ∃ c, p = prog_of c) (e, []) (e', ps) →
  Z.of_nat (base.size (e_sandboxes e')) ≤ inFlight e' ≤ c_maxSandboxes cfg ∧
  (Forall (λ p, ∃ a, p = Ret a) ps → e_reserved e' = 0).
Proof.
  intros Hr Hs Hreach.
  assert (accounted e_reserved under_ceiling (e', ps)) as Hacc.
  { eapply reaches_accounted; [|exact Hreach|]; [intros p [c ->]; apply call_honest|].
    split; [unfold under_ceiling, inFlight; simpl; lia|]. by exists []. }
  split; [|intros Hf; by apply (accounted_finished e_reserved under_ceiling (e', ps))].
  destruct Hacc as [[H0 H1] _]. unfold inFlight in *. simpl in *. lia.
Qed.

End ceiling.

(** ** An example *)

(** A host that grants everything. *)
#[global] Instance granting : Manager unit := {| mgr_Setup _ _ _ k := (Ok tt, k); mgr_Teardown _ k := (Ok tt, k) |}.

Definition ex_config : config := {|
  c_maxSandboxes := 2; c_firecrackerBin := "/usr/bin/firecracker"; c_network := true; c_enableDNSEgress := false;
  c_resolverIP := None; c_egressProxy := false; c_proxySentinel := []; c_proxyPort := 0; c_jailer := true |}.

Definition ex_alloc : Allocator := {|
  al_cidr := "10.200.0.0/16"; al_base := 180879360; al_count := 16384; al_prefix := "sbtap"; al_next := 0;
  al_byID := ∅; al_inUse := ∅; al_idIndex := ∅ |}.

Example ex_alloc_new : NewAllocator "10.200.0.0/16" "sbtap" = Ok ex_alloc.
Proof. vm_compute. reflexivity. Qed.

Definition ex_node : Engine unit := {|
  e_sandboxes := ∅; e_reserved := 0; e_nextPort := 10000; e_netAlloc := ex_alloc; e_uids := Uids.NewUIDAllocator 30000 30003;
  e_dns := Allowlist.NewRegistry; e_proxy := EgressProxy.NewRegistry; e_journal := ∅; e_host := tt; e_signals := [] |}.

(** A start of a machine in which everything succeeds. *)
Definition boots (pid : Z) : boot := {|
  bt_verified := true; bt_compatible := true; bt_opened := true; bt_snapshot := true; bt_checked := true;
  bt_launch := Some pid; bt_volumes := true; bt_load := true; bt_rebind := true; bt_resume := true; bt_journal := true |}.

Definition no_network : ForkOpts := {| fo_Network := None; fo_Volumes := false; fo_LiveFork := false |}.

(** Three forks start together on a node that takes two sandboxes. *)
Definition ex_rush : list (prog (Engine unit) unit + nat) :=
  let fork id pid := inl (prog_of ex_config (CFork "snap" id no_network (boots pid))) in
  [fork "a" 11; fork "b" 12; fork "c" 13; inr 2%nat; inr 1%nat; inr 0%nat] ++ replicate 6 (inr 2%nat) ++ replicate 6 (inr 1%nat).

Lemma capacity_ceiling_witness :
  base.size (e_sandboxes (schedule ex_rush (ex_node, [])).1) = 2%nat ∧
  inFlight (schedule ex_rush (ex_node, [])).1 ≤ 2 ∧ e_reserved (schedule ex_rush (ex_node, [])).1 = 0.
Proof.
  split; [vm_compute; reflexivity|].
  destruct (capacity_ceiling ex_config eq_refl ex_node (schedule ex_rush (ex_node, [])).1 (schedule ex_rush (ex_node, [])).2)
    as [[_ H1] H2]; [reflexivity|vm_compute; discriminate| |].
  { rewrite <- surjective_pairing. apply schedule_reaches. unfold ex_rush. repeat constructor; eexists; reflexivity. }
  split; [exact H1|]. apply H2. vm_compute. repeat constructor; eexists; reflexivity.
Defined.

End EngineTheorems.
