(* ===== verification/Ownership.v ===== *)
(** * Ownership of what a store holds

    A concurrent argument for resources that are taken from a store and given back.  [out]
    says which resources of a state belong to nobody in the store itself; each program
    under way owns some of them, no two programs the same, and together they own all.  A
    program that only takes what is free and only gives back or puts to use what it owns,
    keeps this division, whatever the other programs do.

    Two further rules for programs among others follow: answering for what is left behind,
    and assuring what a result means. *)

From S2P Require Import Prelude Atomic.

(** [X] is the disjoint union of [ts]. *)
Fixpoint divides {T} `{Countable T} (ts : list (gset T)) (X : gset T) : Prop :=
  match ts with
  | [] => X = ∅
  | t :: ts => t ⊆ X ∧ divides ts (X ∖ t)
  end.

Section divides.
Context {T} `{Countable T}.
Implicit Types (t X : gset T) (ts : list (gset T)).

Lemma divides_middle ts1 t ts2 X : divides (ts1 ++ t :: ts2) X ↔ t ⊆ X ∧ divides (ts1 ++ ts2) (X ∖ t).
Proof.
  revert X. induction ts1 as [|t1 ts1 IH]; intros X; [done|]. simpl. rewrite IH.
  replace (X ∖ t1 ∖ t) with (X ∖ t ∖ t1) by set_solver. set_solver.
Qed.

Lemma divides_elem ts X x : divides ts X → x ∈ X → ∃ t, t ∈ ts ∧ x ∈ t.
Proof.
  revert X. induction ts as [|t ts IH]; intros X; simpl; [set_solver|]. intros [Ht Hd] Hx.
  destruct (decide (x ∈ t)) as [|Hn]; [exists t; split; [constructor|done]|].
  destruct (IH (X ∖ t) Hd) as (t' & ? & ?); [set_solver|]. exists t'. split; [by constructor|done].
Qed.

Lemma divides_singletons {B} (f : B → T) `{!Inj (=) (=) f} (l : list B) :
  NoDup l → divides ((λ b, {[f b]}) <$> l) (list_to_set (f <$> l)).
Proof.
  induction 1 as [|b l Hb _ IH]; [done|]. rewrite !fmap_cons. split; [set_solver|].
  match goal with |- _ _ ?X => replace X with (list_to_set (f <$> l) : gset T); [done|] end.
  apply set_eq. intros x. rewrite elem_of_difference, elem_of_singleton, !elem_of_list_to_set, elem_of_cons, list_elem_of_fmap.
  split; [|naive_solver]. intros (b' & -> & Hb'). split; [naive_solver|]. intros ->%(inj f). done.
Qed.

End divides.

Section owned.
Context {S T : Type} `{Countable T} (out : S → gset T) (I : S → Prop).

(** [p] starts as the owner of [t], and ends with a result and resources in [Q]. *)
Fixpoint owns {A} (t : gset T) (p : prog S A) (Q : A → gset T → Prop) : Prop :=
  match p with
  | Ret a => Q a t
  | Atomic f k => ∀ s, I s → t ⊆ out s →
      I (f s).2 ∧ ∃ t', t' ⊆ out (f s).2 ∧ out (f s).2 ∖ t' = out s ∖ t ∧ owns t' (k (f s).1) Q
  end.

Lemma owns_mono {A} t (p : prog S A) (Q Q' : A → gset T → Prop) : (∀ a t, Q a t → Q' a t) → owns t p Q → owns t p Q'.
Proof.
  intros HQ. revert t. induction p as [a|B f k IH]; intros t; simpl; [apply HQ|]. intros Hp s HI Ht.
  destruct (Hp s HI Ht) as (HI' & t' & ? & ? & ?). split; [done|]. exists t'. eauto.
Qed.

Lemma owns_ret {A} t (a : A) (Q : A → gset T → Prop) : Q a t → owns t (Ret a) Q.
Proof. done. Qed.

Lemma owns_bind {A B} t (p : prog S A) (k : A → prog S B) Q :
  owns t p (λ a t', owns t' (k a) Q) → owns t (pbind p k) Q.
Proof.
  revert t. induction p as [a|B' f k' IH]; intros t; simpl; [done|]. intros Hp s HI Ht.
  destruct (Hp s HI Ht) as (HI' & t' & ? & ? & ?). split; [done|]. exists t'. eauto.
Qed.

Lemma owns_bind_ok {E A B} t (p : prog S (result E A)) (k : A → prog S (result E B)) Q :
  owns t p (λ r t', match r with Ok a => owns t' (k a) Q | Err e => Q (Err e) t' end) → owns t (pbind_ok p k) Q.
Proof. intros Hp. apply owns_bind. eapply owns_mono; [|exact Hp]. by intros [a|e]. Qed.

(** One operation: what it changes in [out] is what changes in the hands of the owner. *)
Lemma owns_op {A} t (f : S → A * S) (Q : A → gset T → Prop) :
  (∀ s, I s → t ⊆ out s → I (f s).2 ∧ ∃ t', t' ⊆ out (f s).2 ∧ out (f s).2 ∖ t' = out s ∖ t ∧ Q (f s).1 t') →
  owns t (op f) Q.
Proof. intros Hf. exact Hf. Qed.

Definition shared {A} (Q : gset T → Prop) (c : config (A := A)) : Prop :=
  I c.1 ∧ ∃ ts, Forall2 (λ t p, owns t p (λ _, Q)) ts c.2 ∧ divides ts (out c.1).

Lemma step_shared {A} Q (new : prog S A → Prop) c c' :
  (∀ p, new p → owns ∅ p (λ _, Q)) → step new c c' → shared Q c → shared Q c'.
Proof.
  intros Hnew [B s ps1 f k ps2 b s' Hf|s ps p Hp] (HI & ts & Hts & Hd); simpl in *.
  - apply Forall2_app_inv_r in Hts as (ts1 & ts' & H1 & H2 & ->).
    apply Forall2_cons_inv_r in H2 as (t & ts2 & Ht & H2 & ->). apply divides_middle in Hd as [Hsub Hd].
    destruct (Ht s HI Hsub) as (HI' & t' & Hsub' & Hout & Hk). rewrite Hf in HI', Hsub', Hout, Hk. simpl in *.
    split; [done|]. exists (ts1 ++ t' :: ts2). split; [apply Forall2_app; [done|]; by constructor|].
    apply divides_middle. split; [done|]. simpl. by rewrite Hout.
  - split; [done|]. exists (∅ :: ts). split; [constructor; auto|]. split; [set_solver|]. by rewrite difference_empty_L.
Qed.

Lemma reaches_shared {A} Q (new : prog S A → Prop) c c' :
  (∀ p, new p → owns ∅ p (λ _, Q)) → reaches new c c' → shared Q c → shared Q c'.
Proof. intros Hnew. induction 1 as [c|c1 c2 c3 Hs _ IH]; [done|]. intros Hc. by apply IH, (step_shared Q new c1). Qed.

(** When every program has finished, what is out is what the programs may end with. *)
Lemma shared_finished {A} (P : T → Prop) (c : config (A := A)) :
  shared (λ t, ∀ x, x ∈ t → P x) c → Forall (λ p, ∃ a, p = Ret a) c.2 → ∀ x, x ∈ out c.1 → P x.
Proof.
  intros (_ & ts & Hts & Hd) Hf x Hx. destruct (divides_elem _ _ _ Hd Hx) as (t & Ht & Hxt).
  apply list_elem_of_lookup in Ht as [i Ht]. destruct (Forall2_lookup_l _ _ _ _ _ Hts Ht) as (p & Hp & Hown).
  rewrite Forall_lookup in Hf. destruct (Hf i p Hp) as [a ->]. by apply Hown.
Qed.

(** A program that runs alone. *)
Lemma owns_run {A} t (p : prog S A) Q s :
  I s → t ⊆ out s → owns t p Q →
  I (run p s).2 ∧ ∃ t', t' ⊆ out (run p s).2 ∧ out (run p s).2 ∖ t' = out s ∖ t ∧ Q (run p s).1 t'.
Proof.
  revert t s. induction p as [a|B f k IH]; intros t s HI Ht Hp; simpl in *; [split; [done|]; by exists t|].
  destruct (Hp s HI Ht) as (HI' & t' & Ht' & Hout & Hk). destruct (f s) as [b s']. simpl in *.
  destruct (IH b t' s' HI' Ht' Hk) as (HI'' & t'' & ? & ? & ?). split; [done|]. exists t''. split_and!; [done|congruence|done].
Qed.

End owned.

(** ** Answering for what is left behind

    A weaker discipline, for things that another program may take away at any time: a
    connection that a shutdown closes under its user.  [out] says what a state holds that
    somebody has to clean up; a program answers for what it adds until it is gone. *)

Section answering.
Context {S T : Type} (out : S → T → Prop) (I : S → Prop).

(** [p] starts answering for [t], and ends with a result and what it still answers for in
    [Q]: what a step leaves behind was there before or is answered for, and what it stops
    answering for is gone. *)
Fixpoint answers {A} (t : list T) (p : prog S A) (Q : A → list T → Prop) : Prop :=
  match p with
  | Ret a => Q a t
  | Atomic f k => ∀ s, I s →
      I (f s).2 ∧ ∃ t', (∀ x, out (f s).2 x → (x ∈ t' ∨ out s x) ∧ (x ∈ t → x ∈ t')) ∧ answers t' (k (f s).1) Q
  end.

Lemma answers_mono {A} t (p : prog S A) (Q Q' : A → list T → Prop) : (∀ a t, Q a t → Q' a t) → answers t p Q → answers t p Q'.
Proof.
  intros HQ. revert t. induction p as [a|B f k IH]; intros t; simpl; [apply HQ|]. intros Hp s HI.
  destruct (Hp s HI) as (HI' & t' & ? & ?). split; [done|]. exists t'. eauto.
Qed.

Lemma answers_bind {A B} t (p : prog S A) (k : A → prog S B) Q :
  answers t p (λ a t', answers t' (k a) Q) → answers t (pbind p k) Q.
Proof.
  revert t. induction p as [a|B' f k' IH]; intros t; simpl; [done|]. intros Hp s HI.
  destruct (Hp s HI) as (HI' & t' & ? & ?). split; [done|]. exists t'. eauto.
Qed.

(** One operation, after which the program answers for [t']. *)
Lemma answers_op {A} t t' (f : S → A * S) (Q : A → list T → Prop) :
  (∀ s, I s → I (f s).2 ∧ (∀ x, out (f s).2 x → (x ∈ t' (f s).1 ∨ out s x) ∧ (x ∈ t → x ∈ t' (f s).1)) ∧ Q (f s).1 (t' (f s).1)) →
  answers t (op f) Q.
Proof. intros Hf s HI. destruct (Hf s HI) as (HI' & Hout & HQ). split; [done|]. by exists (t' (f s).1). Qed.

Lemma answers_rd {A} t (f : S → A) (Q : A → list T → Prop) : (∀ a, Q a t) → answers t (rd f) Q.
Proof. intros HQ s HI. split; [done|]. exists t. split; [auto|apply HQ]. Qed.

Definition covered {A} (c : config (A := A)) : Prop :=
  I c.1 ∧ ∃ ts, Forall2 (λ t p, answers t p (λ _ t, t = [])) ts c.2 ∧ ∀ x, out c.1 x → ∃ t, t ∈ ts ∧ x ∈ t.

Lemma step_covered {A} (new : prog S A → Prop) c c' :
  (∀ p, new p → answers [] p (λ _ t, t = [])) → step new c c' → covered c → covered c'.
Proof.
  intros Hnew [B s ps1 f k ps2 b s' Hf|s ps p Hp] (HI & ts & Hts & Hc); simpl in *.
  - apply Forall2_app_inv_r in Hts as (ts1 & ts' & H1 & H2 & ->).
    apply Forall2_cons_inv_r in H2 as (t & ts2 & Ht & H2 & ->). destruct (Ht s HI) as (HI' & t' & Hout & Hk).
    rewrite Hf in HI', Hout, Hk. simpl in *. split; [done|]. exists (ts1 ++ t' :: ts2).
    split; [apply Forall2_app; [done|]; by constructor|]. intros x Hx. setoid_rewrite elem_of_app. setoid_rewrite elem_of_cons.
    destruct (Hout x Hx) as [[Hx'|Hx'] Ht']; [by eauto|]. destruct (Hc x Hx') as (t'' & Hin & Hxt).
    apply elem_of_app in Hin as [|[->|]%elem_of_cons]; naive_solver.
  - split; [done|]. exists ([] :: ts). split; [constructor; auto|]. intros x Hx. destruct (Hc x Hx) as (t & ? & ?).
    exists t. split; [by constructor|done].
Qed.

Lemma reaches_covered {A} (new : prog S A → Prop) c c' :
  (∀ p, new p → answers [] p (λ _ t, t = [])) → reaches new c c' → covered c → covered c'.
Proof. intros Hnew. induction 1 as [c|c1 c2 c3 Hs _ IH]; [done|]. intros Hc. by apply IH, (step_covered new c1). Qed.

(** When every program has finished, nothing is left behind. *)
Lemma covered_finished {A} (c : config (A := A)) x :
  covered c → Forall (λ p, ∃ a, p = Ret a) c.2 → ¬ out c.1 x.
Proof.
  intros (_ & ts & Hts & Hc) Hf Hx. destruct (Hc x Hx) as (t & Ht & Hxt). apply list_elem_of_lookup in Ht as [i Ht].
  destruct (Forall2_lookup_l _ _ _ _ _ Hts Ht) as (p & Hp & Hown). rewrite Forall_lookup in Hf.
  destruct (Hf i p Hp) as [a ->]. simpl in Hown. subst t. by apply not_elem_of_nil in Hxt.
Qed.

End answering.

(** ** What a program finds when it returns

    A program that runs among others relies on what they leave alone: [R] relates the store
    before and after any operation of any program, and a fact that [R] preserves may be kept
    from one operation to the next.  When every program assures its result under this rule,
    every result that an interleaving has produced is as assured, then and ever after. *)

(** The results a program can return, whatever the answers of its operations. *)
Fixpoint yields {S A} (p : prog S A) (φ : A → Prop) : Prop :=
  match p with
  | Ret a => φ a
  | Atomic f k => ∀ b, yields (k b) φ
  end.

(** Every operation of the program moves the store along [R]. *)
Fixpoint moves {S A} (R : S → S → Prop) (p : prog S A) : Prop :=
  match p with
  | Ret _ => True
  | Atomic f k => (∀ s, R s (f s).2) ∧ ∀ b, moves R (k b)
  end.

Section programs.
Context {S : Type}.

Lemma yields_mono {A} (p : prog S A) (φ ψ : A → Prop) : (∀ a, φ a → ψ a) → yields p φ → yields p ψ.
Proof. intros H. induction p as [a|B f k IH]; simpl; auto. Qed.

Lemma yields_true {A} (p : prog S A) (φ : A → Prop) : (∀ a, φ a) → yields p φ.
Proof. intros H. induction p as [a|B f k IH]; simpl; auto. Qed.

Lemma yields_bind {A B} (p : prog S A) (k : A → prog S B) φ : yields p (λ a, yields (k a) φ) → yields (pbind p k) φ.
Proof. induction p as [a|B' f k' IH]; simpl; auto. Qed.

Lemma yields_bind_ok {E A B} (p : prog S (result E A)) (k : A → prog S (result E B)) φ :
  yields p (λ r, match r with Ok a => yields (k a) φ | Err e => φ (Err e) end) → yields (pbind_ok p k) φ.
Proof. intros H. apply yields_bind. eapply yields_mono; [|exact H]. by intros [a|e]. Qed.

Lemma yields_run {A} (p : prog S A) φ s : yields p φ → φ (run p s).1.
Proof. revert s. induction p as [a|B f k IH]; intros s; simpl; [done|]. intros H. destruct (f s). by apply IH. Qed.

Lemma yields_fst {T A} (p : prog S A) φ : yields p φ → yields (on_fst (T := T) p) φ.
Proof. induction p as [a|B f k IH]; simpl; auto. Qed.

Lemma moves_bind {A B} R (p : prog S A) (k : A → prog S B) : moves R p → (∀ a, moves R (k a)) → moves R (pbind p k).
Proof. intros Hp Hk. induction p as [a|B' f k' IH]; simpl in *; [done|]. destruct Hp. auto. Qed.

Lemma on_fst_moves {T A} (p : prog S A) : moves (λ s s' : S * T, s'.2 = s.2) (on_fst p).
Proof. induction p as [a|B f k IH]; simpl; [done|]. split; [|done]. intros [s t]. by destruct (f s). Qed.

End programs.

Section rely.
Context {S : Type} (R : S → S → Prop).

Definition stable (P : S → Prop) : Prop := ∀ s s', R s s' → P s → P s'.

(** Started when [P] holds, [p] returns with [Q]. *)
Fixpoint assures {A} (P : S → Prop) (p : prog S A) (Q : A → S → Prop) : Prop :=
  match p with
  | Ret a => ∀ s, P s → Q a s
  | @Atomic _ _ B f k =>
      (∀ s, P s → R s (f s).2) ∧
      ∃ P' : B → S → Prop, (∀ b, stable (P' b)) ∧ (∀ s, P s → P' (f s).1 (f s).2) ∧ ∀ b, assures (P' b) (k b) Q
  end.

Lemma assures_pre {A} (P P' : S → Prop) (p : prog S A) Q : (∀ s, P s → P' s) → assures P' p Q → assures P p Q.
Proof.
  intros H. destruct p as [a|B f k]; simpl; [auto|]. intros (HR & P1 & Hst & Hf & Hk). split; [auto|]. exists P1. auto.
Qed.

Lemma assures_pure {A} (φ : Prop) `{!Decision φ} (P : S → Prop) (p : prog S A) Q :
  (φ → assures P p Q) → assures (λ s, φ ∧ P s) p Q.
Proof.
  intros Hp. destruct (decide φ) as [Hφ|Hn]; [by apply (assures_pre _ P); [intros s []|apply Hp]|].
  apply (assures_pre _ (λ _, False)); [naive_solver|]. clear Hp. induction p as [a|B f k IH]; simpl; [done|]. split; [done|].
  exists (λ _ _, False). split_and!; [intros b s s' _ []|done|done].
Qed.

Lemma assures_mono {A} (P : S → Prop) (p : prog S A) (Q Q' : A → S → Prop) : (∀ a s, Q a s → Q' a s) → assures P p Q → assures P p Q'.
Proof.
  intros H. revert P. induction p as [a|B f k IH]; intros P; simpl; [auto|]. intros (HR & P1 & Hst & Hf & Hk). split; [auto|].
  exists P1. auto.
Qed.

Lemma assures_bind {A B} (P : S → Prop) (p : prog S A) (M : A → S → Prop) (k : A → prog S B) Q :
  assures P p M → (∀ a, assures (M a) (k a) Q) → assures P (pbind p k) Q.
Proof.
  intros Hp Hk. revert P Hp. induction p as [a|B' f k' IH]; intros P Hp; simpl in *; [by eapply assures_pre|].
  destruct Hp as (HR & P1 & Hst & Hf & Hk'). split; [done|]. exists P1. auto.
Qed.

(** A program whose operations only do what the others rely on. *)
Lemma assures_moves {A} (P : S → Prop) (p : prog S A) φ : stable P → moves R p → yields p φ → assures P p (λ a s, φ a ∧ P s).
Proof.
  intros HP. induction p as [a|B f k IH]; simpl; [auto|]. intros [HR Hk] Hφ. split; [auto|]. exists (λ _, P).
  split_and!; [done| |auto]. intros s Hs. by eapply HP.
Qed.

Lemma assures_op {A} (P : S → Prop) (f : S → A * S) (Q : A → S → Prop) :
  (∀ a, stable (Q a)) → (∀ s, P s → R s (f s).2 ∧ Q (f s).1 (f s).2) → assures P (op f) Q.
Proof. intros HQ Hf. split; [by apply Hf|]. exists Q. split_and!; [done|by apply Hf|by intros b s]. Qed.

(** Every program under way assures its result from here on. *)
Definition assured {A} (Q : A → S → Prop) (c : config (A := A)) : Prop :=
  Forall (λ p, ∃ P, stable P ∧ P c.1 ∧ assures P p Q) c.2.

(** Programs may start from what [R] never loses, when it holds at first. *)
Lemma step_assured {A} (J : S → Prop) (Q : A → S → Prop) (new : prog S A → Prop) c c' :
  stable J → (∀ p, new p → assures J p Q) → step new c c' → J c.1 → assured Q c → J c'.1 ∧ assured Q c'.
Proof.
  intros HJ Hnew [B s ps1 f k ps2 b s' Hf|s ps p Hp] Hc; unfold assured; simpl in *.
  - rewrite !Forall_app, !Forall_cons. intros (H1 & (P & Hst & HP & HR & P' & Hst' & Hf' & Hk) & H2).
    specialize (HR s HP). specialize (Hf' s HP). rewrite Hf in HR, Hf'. simpl in *. split; [by eapply HJ|].
    assert (∀ p, (∃ P, stable P ∧ P s ∧ assures P p Q) → ∃ P, stable P ∧ P s' ∧ assures P p Q) as Hother.
    { intros p (P0 & Hst0 & H0 & Hp). exists P0. split_and!; [done|by eapply Hst0|done]. }
    split_and!; [eapply Forall_impl; eauto| |eapply Forall_impl; eauto]. exists (P' b). auto.
  - intros Hps. split; [done|]. constructor; [|done]. exists J. split_and!; [done|done|by apply Hnew].
Qed.

Lemma reaches_assured {A} (J : S → Prop) (Q : A → S → Prop) (new : prog S A → Prop) c c' :
  stable J → (∀ p, new p → assures J p Q) → reaches new c c' → J c.1 → assured Q c → assured Q c'.
Proof.
  intros HJ Hnew. induction 1 as [c|c1 c2 c3 Hs _ IH]; [done|]. intros Hj Hc.
  destruct (step_assured J Q new c1 c2 HJ Hnew Hs Hj Hc) as [? ?]. by apply IH.
Qed.

(** A result that is out, is as assured. *)
Lemma assured_result {A} (Q : A → S → Prop) s ps a : assured Q (s, ps) → Ret a ∈ ps → Q a s.
Proof. intros Hps Ha. unfold assured in Hps. rewrite Forall_forall in Hps. destruct (Hps _ Ha) as (P & _ & HP & H). by apply H. Qed.

End rely.

(** Programs that take nothing and give nothing back. *)
Lemma owns_moves {S T A} `{Countable T} (out : S → gset T) (I : S → Prop) (R : S → S → Prop) t (p : prog S A) (Q : A → gset T → Prop) :
  (∀ s s', R s s' → I s → I s' ∧ out s' = out s) → moves R p → (∀ a, Q a t) → owns out I t p Q.
Proof.
  intros HR. induction p as [a|B f k IH]; simpl; [auto|]. intros [Hf Hk] HQ s HI Ht. destruct (HR s (f s).2 (Hf s) HI) as [HI' Ho].
  split; [done|]. exists t. rewrite Ho. auto.
Qed.
