(* ===== verification/ForkTheorems.v ===== *)
(** * The engine of a node: who holds what

    Each address block and each uid that the allocators of a node give out is in the hands
    of one live sandbox or of one call that is under way, in every interleaving of forks,
    live forks and terminations. *)

From Stdlib Require Import Ascii.
From S2P Require Import Prelude Sha256 Json GoStrings GoNet Atomic Ownership Netconf NetconfTheorems Allowlist Nft Firewall EgressProxy.
From S2P Require Import Engine EngineTheorems.
Import Sha256 Json GoStrings GoNet Netconf NetconfTheorems Engine EngineTheorems.

Module ForkTheorems.

#[local] Arguments owns : simpl never.
#[local] Arguments pbind : simpl never.
#[local] Arguments op : simpl never.

(** ** Uids *)

Record uids_ok (low high : Z) (u : Uids.UIDAllocator) : Prop := {
  uo_low : Uids.ua_low u = low;
  uo_high : Uids.ua_high u = high;
  uo_next : 0 ≤ Uids.ua_next u ≤ high - low;
  uo_inUse : ∀ uid, uid ∈ Uids.ua_inUse u → low ≤ uid ≤ high;
}.

Definition uid_range (low high : Z) : Prop := 0 < low ≤ high ∧ high < 2 ^ 32.

Lemma acquire_loop_uid low high u fuel i :
  uid_range low high → uids_ok low high u →
  match Uids.acquire_loop fuel u i with
  | Some (uid, u') => (low ≤ uid ≤ high) ∧ (uid ∉ Uids.ua_inUse u) ∧ (Uids.ua_inUse u' = {[uid]} ∪ Uids.ua_inUse u) ∧
      Uids.ua_low u' = low ∧ Uids.ua_high u' = high ∧ 0 ≤ Uids.ua_next u' ≤ high - low
  | None => True
  end.
Proof.
  intros Hr [Hl Hh Hnx Hu]. revert i. induction fuel as [|fuel IH]; intros i; [done|]. cbn [Uids.acquire_loop].
  case_bool_decide as Hin; [apply IH|]. simpl. unfold Uids.range_size, uint32, uid_range in *. rewrite Hl, Hh in *.
  set (j := (Uids.ua_next u + i) `mod` 2 ^ 32) in *.
  rewrite (Z.mod_small (high - low + 1) (2 ^ 32)) in * by lia.
  pose proof (Z.mod_pos_bound j (high - low + 1)).
  pose proof (Z.mod_pos_bound ((Uids.ua_next u + i + 1) `mod` 2 ^ 32) (high - low + 1)).
  rewrite (Z.mod_small (low + _)) in * by lia. split_and!; [lia|lia|done|done|done|done|lia|lia].
Qed.

Lemma Acquire_uid low high u :
  uid_range low high → uids_ok low high u →
  match Uids.Acquire u with
  | (Some uid, u') => (low ≤ uid ≤ high) ∧ (uid ∉ Uids.ua_inUse u) ∧ (Uids.ua_inUse u' = {[uid]} ∪ Uids.ua_inUse u) ∧ uids_ok low high u'
  | (None, u') => u' = u
  end.
Proof.
  intros Hr Hu. unfold Uids.Acquire. pose proof (acquire_loop_uid low high u (Z.to_nat (Uids.range_size u)) 0 Hr Hu) as Hl.
  destruct (Uids.acquire_loop _ u 0) as [[uid u']|]; [|done]. destruct Hl as (Hb & Hn & Hi & ? & ? & ?).
  split_and!; [lia|lia|done|done|]. split; [done|done|done|]. rewrite Hi. intros x [->%elem_of_singleton|Hx]%elem_of_union; [lia|].
  by apply (uo_inUse _ _ _ Hu).
Qed.

Lemma Release_uid low high uid u : uids_ok low high u → uids_ok low high (Uids.Release uid u).
Proof. intros [Hl Hh Hnx Hu]. split; [done|done|done|]. simpl. intros x [Hx _]%elem_of_difference. by apply Hu. Qed.

Lemma MarkInUse_uid low high uid u :
  uids_ok low high u → low ≤ uid ≤ high →
  Uids.ua_inUse (Uids.MarkInUse uid u) = {[uid]} ∪ Uids.ua_inUse u ∧ uids_ok low high (Uids.MarkInUse uid u).
Proof.
  intros [Hl Hh Hnx Hu] Hr. unfold Uids.MarkInUse. rewrite Hl, Hh, (proj2 (Z.ltb_ge _ _)), (proj2 (Z.ltb_ge _ _)) by lia. simpl.
  split; [done|]. split; [done|done|done|]. simpl. intros x [->%elem_of_singleton|Hx]%elem_of_union; [done|]. by apply Hu.
Qed.

(** The search meets every uid of the range. *)
Lemma acquire_loop_none low high u fuel i :
  uid_range low high → high - low < 2 ^ 31 → uids_ok low high u → 0 ≤ i → i + Z.of_nat fuel ≤ high - low + 1 →
  Uids.acquire_loop fuel u i = None →
  ∀ j, i ≤ j < i + Z.of_nat fuel → low + (Uids.ua_next u + j) mod (high - low + 1) ∈ Uids.ua_inUse u.
Proof.
  intros Hr Hs [Hl Hh Hnx Hu]. revert i. induction fuel as [|fuel IH]; intros i Hi Hf; [lia|]. cbn [Uids.acquire_loop].
  unfold Uids.range_size, uint32, uid_range in *. rewrite Hl, Hh in *.
  rewrite (Z.mod_small (high - low + 1) (2 ^ 32)), (Z.mod_small (Uids.ua_next u + i) (2 ^ 32)) by lia.
  pose proof (Z.mod_pos_bound (Uids.ua_next u + i) (high - low + 1)). rewrite (Z.mod_small (low + _)) by lia.
  case_bool_decide as Hin; [|done]. intros Hnone j Hj. destruct (decide (j = i)) as [->|]; [done|]. apply (IH (i + 1)); [lia|lia|done|lia].
Qed.

Lemma Acquire_uid_some low high u uid :
  uid_range low high → high - low < 2 ^ 31 → uids_ok low high u → low ≤ uid ≤ high → uid ∉ Uids.ua_inUse u →
  is_Some (Uids.Acquire u).1.
Proof.
  intros Hr Hs Hu Hid Hn. unfold Uids.Acquire. destruct (Uids.acquire_loop _ u 0) as [[]|] eqn:E; [done|]. destruct Hn.
  assert (Uids.range_size u = high - low + 1) as Hz.
  { unfold Uids.range_size, uint32, uid_range in *. rewrite (uo_low _ _ _ Hu), (uo_high _ _ _ Hu). apply Z.mod_small. lia. }
  pose proof (acquire_loop_none low high u (Z.to_nat (Uids.range_size u)) 0 Hr Hs Hu ltac:(lia) ltac:(lia) E ((uid - low - Uids.ua_next u) mod (high - low + 1))) as Hin.
  pose proof (Z.mod_pos_bound (uid - low - Uids.ua_next u) (high - low + 1)). rewrite Hz in Hin.
  rewrite Zplus_mod_idemp_r in Hin. replace (Uids.ua_next u + (uid - low - Uids.ua_next u)) with (uid - low) in Hin by lia.
  rewrite (Z.mod_small (uid - low)) in Hin by lia. replace (low + (uid - low)) with uid in Hin by lia. apply Hin. lia.
Qed.

(** ** Identities *)

#[global] Instance Identity_eq_dec : EqDecision Identity.
Proof. solve_decision. Defined.
#[global] Instance Identity_countable : Countable Identity.
Proof.
  refine (inj_countable' (λ i, (id_TapName i, id_GuestMAC i, id_HostIP i, id_GuestIP i))
    (λ '(t, m, h, g), {| id_TapName := t; id_GuestMAC := m; id_HostIP := h; id_GuestIP := g |}) _). by intros [].
Defined.

(** The allocators with the subnet and the prefix of [a0]. *)
Definition alike (a0 a : Allocator) : Prop := al_base a = al_base a0 ∧ al_count a = al_count a0 ∧ al_prefix a = al_prefix a0.

Lemma alike_block a0 a id b : alike a0 a → identityForBlock a id b = identityForBlock a0 id b.
Proof. intros (Hb & Hc & Hp). unfold identityForBlock. by rewrite Hb, Hp. Qed.

Lemma Acquire_alike a0 id a : alike a0 a → alike a0 (Acquire id a).2.
Proof. intros Ha. unfold Acquire. destruct (al_byID a !! id); [done|]. by destruct (acquire_loop _ a 0). Qed.

Lemma Release_alike a0 id a : alike a0 a → alike a0 (Release id a).
Proof. intros Ha. unfold Release. by destruct (al_idIndex a !! id). Qed.

Lemma Release_byID id a : alloc_ok a → al_byID (Release id a) = delete id (al_byID a).
Proof.
  intros Ha. unfold Release. destruct (al_idIndex a !! id) as [b|] eqn:E; [done|]. rewrite delete_id; [done|].
  destruct (al_byID a !! id) eqn:E'; [|done]. destruct (ok_byID a Ha id) as [b Hb]; [by eexists|congruence].
Qed.

Lemma block_tap a id b : id_TapName (identityForBlock a id b) ≠ "".
Proof.
  simpl. unfold tapName. intros Heq%(f_equal String.length). rewrite str_length_app, length_hex_of_bytes, length_take, length_bytes_of, length_Sum256 in Heq.
  simpl in Heq. lia.
Qed.

(** ** The books of a node *)

(** What a call holds: the identity of a sandbox that is not live, a uid of no live
    sandbox, or the right to use an identifier that nobody uses. *)
Inductive token := TNet (id : string) (i : Identity) | TUid (uid : Z) | TId (id : string).

#[global] Instance token_eq_dec : EqDecision token.
Proof. solve_decision. Defined.
#[global] Instance token_countable : Countable token.
Proof.
  refine (inj_countable' (λ t, match t with TNet id i => inl (id, i) | TUid u => inr (inl u) | TId id => inr (inr id) end)
    (λ x, match x with inl (id, i) => TNet id i | inr (inl u) => TUid u | inr (inr id) => TId id end) _). by intros [].
Defined.

Section books.
Context {unicode : Unicode} {sliceSort : SliceSort} {mapRange : MapRange} {K : Type} {manager : Manager K}.
Context (cfg : config) (a0 : Allocator) (low high : Z).

Definition networked (sb : Sandbox) : bool := negb (bool_decide (id_TapName (sb_netID sb) = "")).

(** What is kept at all times. *)
Record books (e : Engine K) : Prop := {
  bk_alloc : alloc_ok (e_netAlloc e);
  bk_alike : alike a0 (e_netAlloc e);
  bk_uids : uids_ok low high (e_uids e);
  bk_net : ∀ id sb, e_sandboxes e !! id = Some sb →
    al_byID (e_netAlloc e) !! id = if networked sb then Some (sb_netID sb) else None;
  bk_enabled : ∀ id sb, e_sandboxes e !! id = Some sb → networked sb = true → c_network cfg = true;
  bk_uid : ∀ id sb, e_sandboxes e !! id = Some sb →
    if c_jailer cfg then sb_jailedUID sb ∈ Uids.ua_inUse (e_uids e) else sb_jailedUID sb = 0;
  bk_apart : ∀ id1 id2 sb1 sb2, e_sandboxes e !! id1 = Some sb1 → e_sandboxes e !! id2 = Some sb2 →
    c_jailer cfg = true → sb_jailedUID sb1 = sb_jailedUID sb2 → id1 = id2;
  bk_client : ∀ id sb, e_sandboxes e !! id = Some sb →
    sb_client sb = Some (sb_jailedUID sb) ∨ sb_client sb = None ∧ sb_adopted sb = true;
}.

Definition uids_of (m : gmap string Sandbox) : gset Z := map_to_set (λ _ sb, sb_jailedUID sb) m.

(** What no live sandbox holds; [F] are the identifiers that calls may fork under. *)
Definition out (F : gset string) (e : Engine K) : gset token :=
  map_to_set (λ id i, TNet id i) (al_byID (e_netAlloc e) ∖ ((λ _, no_identity) <$> e_sandboxes e)) ∪
  set_map TUid (if c_jailer cfg then Uids.ua_inUse (e_uids e) ∖ uids_of (e_sandboxes e) else ∅) ∪
  set_map TId (F ∖ (dom (al_byID (e_netAlloc e)) ∪ dom (e_sandboxes e))).

Lemma elem_of_out F e x :
  x ∈ out F e ↔
  match x with
  | TNet id i => al_byID (e_netAlloc e) !! id = Some i ∧ e_sandboxes e !! id = None
  | TUid uid => c_jailer cfg = true ∧ uid ∈ Uids.ua_inUse (e_uids e) ∧ ∀ id sb, e_sandboxes e !! id = Some sb → sb_jailedUID sb ≠ uid
  | TId id => id ∈ F ∧ al_byID (e_netAlloc e) !! id = None ∧ e_sandboxes e !! id = None
  end.
Proof.
  unfold out, uids_of. rewrite !elem_of_union, elem_of_map_to_set, !elem_of_map. destruct x as [id i|uid|id].
  - split; [|intros [H1 H2]; left; left; exists id, i; split; [|done]; apply lookup_difference_Some; by rewrite lookup_fmap, H2].
    intros [[(id' & i' & [H1 H2]%lookup_difference_Some & [= -> ->])|(? & ? & _)]|(? & ? & _)]; [|done|done]. split; [done|].
    rewrite lookup_fmap in H2. by destruct (e_sandboxes e !! id).
  - split.
    + intros [[(? & ? & _ & ?)|(u & [= <-] & Hu)]|(? & ? & _)]; [done| |done]. destruct (c_jailer cfg); [|set_solver].
      apply elem_of_difference in Hu as [Hu Hn]. split_and!; [done|done|]. intros id sb Hsb <-. apply Hn.
      apply elem_of_map_to_set. eauto.
    + intros (-> & Hu & Hn). left. right. exists uid. split; [done|]. apply elem_of_difference. split; [done|].
      intros (id & sb & Hsb & Heq)%elem_of_map_to_set. by eapply Hn.
  - split.
    + intros [[(? & ? & _ & ?)|(? & ? & _)]|(id' & [= <-] & Hid)]; [done|done|].
      apply elem_of_difference in Hid as [HF Hn]. rewrite elem_of_union, !elem_of_dom in Hn.
      split_and!; [done|apply eq_None_not_Some; tauto..].
    + intros (HF & H1 & H2). right. exists id. split; [done|]. apply elem_of_difference. split; [done|].
      rewrite elem_of_union, !elem_of_dom, H1, H2. by intros [[? ?]|[? ?]].
Qed.

(** A node at rest: the allocators hold what the live sandboxes have, and nothing else. *)
Record exact (e : Engine K) : Prop := {
  ex_books : books e;
  ex_net : ∀ id i, al_byID (e_netAlloc e) !! id = Some i → is_Some (e_sandboxes e !! id);
  ex_uid : ∀ uid, c_jailer cfg = true → uid ∈ Uids.ua_inUse (e_uids e) →
    ∃ id sb, e_sandboxes e !! id = Some sb ∧ sb_jailedUID sb = uid;
}.

Lemma exact_out F e : books e → (∀ x, x ∈ out F e → ∃ id, x = TId id) → exact e.
Proof.
  intros He Hout. split; [done|..].
  - intros id i Hi. destruct (e_sandboxes e !! id) eqn:Hsb; [done|].
    destruct (Hout (TNet id i)) as [? [=]]. by apply elem_of_out.
  - intros uid Hj Hu. destruct (decide (uid ∈ uids_of (e_sandboxes e))) as [(id & sb & ? & ?)%elem_of_map_to_set|Hn]; [by exists id, sb|].
    destruct (Hout (TUid uid)) as [? [=]]. apply elem_of_out. split_and!; [done|done|]. intros id sb Hsb <-.
    apply Hn, elem_of_map_to_set. eauto.
Qed.

(** ** One operation *)

Context (F : gset string) (Hrange : uid_range low high).

Abbreviation owns' := (owns (out F) books).

Definition same_books (e e' : Engine K) : Prop :=
  e_sandboxes e' = e_sandboxes e ∧ e_netAlloc e' = e_netAlloc e ∧ e_uids e' = e_uids e.

Lemma owns_quiet {A} t (f : Engine K → A * Engine K) Q :
  (∀ e, same_books e (f e).2) → (∀ a, Q a t) → owns' t (op f) Q.
Proof.
  intros Hf HQ. apply owns_op. intros e He Ht. destruct (Hf e) as (Es & Ea & Eu).
  assert (out F (f e).2 = out F e) as -> by (unfold out; by rewrite Es, Ea, Eu). split; [|by exists t].
  destruct He. split; rewrite ?Es, ?Ea, ?Eu; done.
Qed.

Lemma on_host_same {A} (f : K → A * K) (e : Engine K) : same_books e (on_host f e).2.
Proof. unfold on_host. by destruct (f _). Qed.

(** The equation between what is out before and after. *)
Lemma out_change e e' t t' (P : Prop) :
  P → (∀ x, x ∈ t' → x ∈ out F e') → (∀ x, x ∈ out F e' ∧ x ∉ t' ↔ x ∈ out F e ∧ x ∉ t) →
  t' ⊆ out F e' ∧ out F e' ∖ t' = out F e ∖ t ∧ P.
Proof. intros HP H1 H2. split_and!; [done| |done]. apply set_eq. intros x. rewrite !elem_of_difference. apply H2. Qed.

Lemma owns_uid_acquire t Q :
  c_jailer cfg = true → Q None t → (∀ uid, low ≤ uid ≤ high → Q (Some uid) (t ∪ {[TUid uid]})) →
  owns' t (op (on_uids Uids.Acquire)) Q.
Proof.
  intros Hj H0 H1. apply owns_op. intros e He Ht. unfold on_uids.
  pose proof (Acquire_uid low high (e_uids e) Hrange (bk_uids _ He)) as Hacq.
  destruct (Uids.Acquire (e_uids e)) as [[uid|] u'] eqn:E; simpl.
  2: { subst u'. assert (with_uids (e_uids e) e = e) as -> by by destruct e. split; [done|]. by exists t. }
  destruct Hacq as (Hr & Hn & Hin & Hok). split.
  { destruct He. split; simpl; try done. intros id sb Hsb. specialize (bk_uid0 id sb Hsb). rewrite Hj in *. set_solver. }
  exists (t ∪ {[TUid uid]}). apply out_change; [by apply H1|..].
  - intros x [Hx|Hx%elem_of_singleton]%elem_of_union; [|subst x].
    + apply Ht in Hx. rewrite elem_of_out in *. destruct x; simpl; [done| |done]. rewrite Hin. set_solver.
    + rewrite elem_of_out. simpl. split_and!; [done|set_solver|]. intros id sb Hsb Heq.
      pose proof (bk_uid _ He id sb Hsb) as Hu. by rewrite Hj, Heq in Hu.
  - intros x. rewrite not_elem_of_union, not_elem_of_singleton, !elem_of_out. destruct x as [| uid'|]; simpl; [naive_solver| |naive_solver].
    rewrite Hin. split; [|set_solver]. intros [(_ & Hx & Hs) [Hnt Hne]]. set_solver.
Qed.

Lemma owns_uid_release t uid Q :
  TUid uid ∈ t → (∀ u, Q u (t ∖ {[TUid uid]})) → owns' t (op (on_uids (λ u, (tt, Uids.Release uid u)))) Q.
Proof.
  intros Huid HQ. apply owns_op. intros e He Ht. simpl. pose proof (Ht _ Huid) as Hu. rewrite elem_of_out in Hu.
  destruct Hu as (Hj & Hu & Hnone). split.
  { destruct He. split; simpl; try done; [by apply Release_uid|]. intros id sb Hsb. specialize (bk_uid0 id sb Hsb). rewrite Hj in *.
    specialize (Hnone id sb Hsb). set_solver. }
  exists (t ∖ {[TUid uid]}). apply out_change; [apply HQ|..].
  - intros x [Hx Hne]%elem_of_difference. apply Ht in Hx. rewrite elem_of_out in *. destruct x; simpl; set_solver.
  - intros x. rewrite not_elem_of_difference, elem_of_singleton, !elem_of_out.
    destruct (decide (x = TUid uid)) as [->|Hne]; [simpl; set_solver|]. destruct x; simpl; set_solver.
Qed.

(** An identity is taken under an identifier that the call may use. *)
Lemma owns_net_acquire id Q t :
  TId id ∈ t → id ∈ F →
  (∀ err, Q (Err err) t) → (∀ i, id_TapName i ≠ "" → Q (Ok i) (t ∖ {[TId id]} ∪ {[TNet id i]})) →
  owns' t (op (on_alloc (Netconf.Acquire id))) Q.
Proof.
  intros Hid HF H0 H1. apply owns_op. intros e He Ht. pose proof (Ht _ Hid) as Hfree. rewrite elem_of_out in Hfree.
  destruct Hfree as (_ & Hnone & Hsb). unfold on_alloc.
  pose proof (Acquire_spec (e_netAlloc e) id (bk_alloc _ He)) as Hspec.
  pose proof (Acquire_ok id (e_netAlloc e) (bk_alloc _ He)) as Hok.
  pose proof (Acquire_alike a0 id (e_netAlloc e) (bk_alike _ He)) as Hal.
  destruct (Netconf.Acquire id (e_netAlloc e)) as [[i|err] a'] eqn:E; simpl in *.
  2: { destruct Hspec as (_ & -> & _). assert (with_alloc (e_netAlloc e) e = e) as -> by by destruct e.
       split; [done|]. exists t. split_and!; [done|done|apply H0]. }
  destruct Hspec as [Hby _]. split.
  { destruct He. split; simpl; try done. intros id' sb Hsb'. rewrite Hby, lookup_insert_ne by congruence. by apply bk_net0. }
  exists (t ∖ {[TId id]} ∪ {[TNet id i]}). apply out_change.
  - apply H1. assert (al_byID a' !! id = Some i) as Hi by (rewrite Hby; apply lookup_insert_eq).
    destruct (held_blocks a' id i Hok Hi) as (b & _ & _ & ->). apply block_tap.
  - intros x [[Hx Hne]%elem_of_difference|Hx%elem_of_singleton]%elem_of_union; [|subst x].
    + apply Ht in Hx. rewrite elem_of_out in *. destruct x as [id' i'|uid|id']; simpl; [|done|]; rewrite Hby, lookup_insert_ne;
        [done|naive_solver|done|set_solver].
    + rewrite elem_of_out. simpl. by rewrite Hby, lookup_insert_eq.
  - intros x. rewrite not_elem_of_union, not_elem_of_difference, !elem_of_singleton, !elem_of_out.
    destruct x as [id' i'|uid|id']; simpl; rewrite ?Hby; [|set_solver|];
      (destruct (decide (id' = id)) as [->|]; [rewrite lookup_insert_eq|rewrite lookup_insert_ne by done]); naive_solver.
Qed.

(** A release gives the identifier back, if it is one that calls may use. *)
Definition freed (id : string) : gset token := if bool_decide (id ∈ F) then {[TId id]} else ∅.

Lemma elem_of_freed id x : x ∈ freed id ↔ x = TId id ∧ id ∈ F.
Proof. unfold freed. case_bool_decide; set_solver. Qed.

Lemma owns_net_release id i Q t :
  TNet id i ∈ t → (∀ u, Q u (t ∖ {[TNet id i]} ∪ freed id)) →
  owns' t (op (on_alloc (λ a, (tt, Release id a)))) Q.
Proof.
  intros Hid HQ. apply owns_op. intros e He Ht. pose proof (Ht _ Hid) as Hheld. rewrite elem_of_out in Hheld.
  destruct Hheld as [Hi Hsb]. simpl. pose proof (Release_byID id _ (bk_alloc _ He)) as Hby. split.
  { destruct He. split; simpl; try done; [by apply Release_ok|by apply Release_alike|].
    intros id' sb Hsb'. rewrite Hby, lookup_delete_ne by congruence. by apply bk_net0. }
  exists (t ∖ {[TNet id i]} ∪ freed id). apply out_change; [apply HQ|..].
  - intros x [[Hx Hne]%elem_of_difference|Hx%elem_of_freed]%elem_of_union.
    + apply Ht in Hx. rewrite elem_of_out in *. destruct x as [id' i'|uid|id']; simpl; [|done|]; rewrite Hby, lookup_delete_ne;
        [done| |done|]; intros ->; set_solver.
    + destruct Hx as [-> HF]. rewrite elem_of_out. simpl. by rewrite Hby, lookup_delete_eq.
  - intros x. rewrite not_elem_of_union, not_elem_of_difference, elem_of_singleton, elem_of_freed, !elem_of_out.
    destruct x as [id' i'|uid|id']; simpl; rewrite ?Hby; [|set_solver|];
      (destruct (decide (id' = id)) as [->|]; [rewrite lookup_delete_eq|rewrite lookup_delete_ne by done]); naive_solver.
Qed.

(** What a virtual machine with its network holds on its own. *)
Definition held_uid (uid : Z) : gset token := if c_jailer cfg then {[TUid uid]} else ∅.
Definition held_net (id : string) (fnet : option Identity) : gset token :=
  match fnet with Some i => {[TNet id i]} | None => freed id end.

Lemma elem_of_held_uid uid x : x ∈ held_uid uid ↔ x = TUid uid ∧ c_jailer cfg = true.
Proof. unfold held_uid. destruct (c_jailer cfg); set_solver. Qed.

Lemma elem_of_held_net id fnet x :
  x ∈ held_net id fnet ↔ match fnet with Some i => x = TNet id i | None => x = TId id ∧ id ∈ F end.
Proof. destruct fnet; simpl; [set_solver|apply elem_of_freed]. Qed.

Definition net_of (sb : Sandbox) : option Identity := if networked sb then Some (sb_netID sb) else None.

(** What is known of a sandbox that is about to go live or no longer is. *)
Definition uid_ok (uid : Z) : Prop := if c_jailer cfg then low ≤ uid ≤ high else uid = 0.

Definition sound (sb : Sandbox) : Prop :=
  (networked sb = true → c_network cfg = true) ∧ uid_ok (sb_jailedUID sb) ∧
  (sb_client sb = Some (sb_jailedUID sb) ∨ sb_client sb = None ∧ sb_adopted sb = true).

Lemma owns_commit id sb Q :
  id ∈ F → sound sb → (∀ u, Q u ∅) →
  owns' (held_net id (net_of sb) ∪ held_uid (sb_jailedUID sb)) (op (commitReservation cfg id sb)) Q.
Proof.
  intros HF (Hnet & Huid & Hcl) HQ. apply owns_op. intros e He Ht. unfold commitReservation. simpl.
  assert (al_byID (e_netAlloc e) !! id = net_of sb ∧ e_sandboxes e !! id = None) as [Hby Hsb].
  { unfold net_of in *. destruct (networked sb); simpl in Ht.
    - pose proof (Ht (TNet id (sb_netID sb))) as Hx. rewrite elem_of_out in Hx. apply Hx. set_solver.
    - pose proof (Ht (TId id)) as Hx. rewrite elem_of_out in Hx. apply Hx. apply elem_of_union_l, elem_of_freed. done. }
  assert (c_jailer cfg = true → sb_jailedUID sb ∈ Uids.ua_inUse (e_uids e) ∧
    ∀ id sb', e_sandboxes e !! id = Some sb' → sb_jailedUID sb' ≠ sb_jailedUID sb) as Hown.
  { intros Hj. pose proof (Ht (TUid (sb_jailedUID sb))) as Hx. rewrite elem_of_out in Hx. apply Hx.
    apply elem_of_union_r, elem_of_held_uid. done. }
  split.
  { destruct He. split; simpl; try done.
    - intros id' sb' [[<- <-]|[_ Hsb']]%lookup_insert_Some; [done|by apply bk_net0].
    - intros id' sb' [[<- <-]|[_ Hsb']]%lookup_insert_Some; [done|by eapply bk_enabled0].
    - intros id' sb' [[<- <-]|[_ Hsb']]%lookup_insert_Some; [|by eapply bk_uid0]. unfold uid_ok in Huid. destruct (c_jailer cfg); naive_solver.
    - intros id1 id2 sb1 sb2 [[<- <-]|[_ E1]]%lookup_insert_Some [[<- <-]|[_ E2]]%lookup_insert_Some Hj; [done|naive_solver..].
    - intros id' sb' [[<- <-]|[_ Hsb']]%lookup_insert_Some; [done|by eapply bk_client0]. }
  exists ∅. apply out_change; [apply HQ|set_solver|]. intros x.
  rewrite not_elem_of_union, elem_of_held_net, elem_of_held_uid, !elem_of_out. unfold net_of in *.
  destruct x as [id' i'|uid|id']; simpl.
  - destruct (decide (id' = id)) as [->|]; [rewrite lookup_insert_eq|rewrite lookup_insert_ne by done]; destruct (networked sb); naive_solver.
  - split.
    + intros [(Hj & Hu & Hn) _]. split; [split_and!; [done..|]|].
      * intros id' sb' Hsb'. apply (Hn id'). rewrite lookup_insert_ne by congruence. done.
      * split; [destruct (networked sb); naive_solver|]. intros [[= ->] _]. by apply (Hn id sb); [apply lookup_insert_eq|].
    + intros [(Hj & Hu & Hn) [_ Hne]]. split; [|set_solver]. split_and!; [done..|].
      intros id' sb' [[<- <-]|[_ Hsb']]%lookup_insert_Some; naive_solver.
  - destruct (decide (id' = id)) as [->|]; [rewrite lookup_insert_eq|rewrite lookup_insert_ne by done]; destruct (networked sb); naive_solver.
Qed.

(** Taking a sandbox off the map. *)
Definition remove (id : string) (e : Engine K) : option Sandbox * Engine K :=
  (e_sandboxes e !! id, with_sandboxes (delete id (e_sandboxes e)) (e_reserved e) e).

Lemma owns_remove id Q :
  Q None ∅ → (∀ sb, sound sb → Q (Some sb) (held_net id (net_of sb) ∪ held_uid (sb_jailedUID sb))) →
  owns' ∅ (op (remove id)) Q.
Proof.
  intros H0 H1. apply owns_op. intros e He Ht. unfold remove. simpl. split.
  { destruct He. split; simpl; try done;
      [intros id' sb' [_ ?]%lookup_delete_Some; first [by apply bk_net0|by eapply bk_enabled0|by eapply bk_uid0|by eapply bk_client0]..|
      |intros id' sb' [_ ?]%lookup_delete_Some; by eapply bk_client0].
    intros id1 id2 sb1 sb2 [_ ?]%lookup_delete_Some [_ ?]%lookup_delete_Some. eauto. }
  destruct (e_sandboxes e !! id) as [sb|] eqn:Hsb.
  2: { exists ∅. rewrite delete_id by done. by assert (with_sandboxes (e_sandboxes e) (e_reserved e) e = e) as -> by by destruct e. }
  pose proof (bk_net _ He id sb Hsb) as Hby. change (if networked sb then _ else _) with (net_of sb) in Hby.
  pose proof (bk_uid _ He id sb Hsb) as Huid.
  exists (held_net id (net_of sb) ∪ held_uid (sb_jailedUID sb)). apply out_change.
  - apply H1. split_and!; [by apply (bk_enabled _ He id)| |by apply (bk_client _ He id)]. unfold uid_ok.
    destruct (c_jailer cfg); [|done]. by apply (uo_inUse _ _ _ (bk_uids _ He)).
  - intros x. rewrite elem_of_union, elem_of_held_net, elem_of_held_uid, elem_of_out. intros [Hx|[-> Hj]]; simpl.
    + destruct (net_of sb); [subst x|destruct Hx as [-> HF]]; by rewrite lookup_delete_eq.
    + rewrite Hj in Huid. split_and!; [done|done|]. intros id' sb' [Hne Hsb']%lookup_delete_Some Heq.
      apply Hne. symmetry. by eapply (bk_apart _ He).
  - intros x. rewrite not_elem_of_union, elem_of_held_net, elem_of_held_uid, !elem_of_out. destruct x as [id' i'|uid|id']; simpl.
    + destruct (decide (id' = id)) as [->|]; [rewrite lookup_delete_eq|rewrite lookup_delete_ne by done]; destruct (net_of sb); naive_solver.
    + split.
      * intros [(Hj & Hu & Hn) [_ Hne]]. split; [|set_solver]. split_and!; [done..|]. intros id' sb' Hsb' <-.
        destruct (decide (id' = id)) as [->|Hneq]; [naive_solver|]. apply (Hn id' sb'); [|done]. by rewrite lookup_delete_ne.
      * intros [(Hj & Hu & Hn) _]. split; [|split; [destruct (net_of sb); naive_solver|naive_solver]].
        split_and!; [done..|]. intros id' sb' [_ Hsb']%lookup_delete_Some. by eapply Hn.
    + destruct (decide (id' = id)) as [->|]; [rewrite lookup_delete_eq|rewrite lookup_delete_ne by done]; destruct (net_of sb); naive_solver.
Qed.

(** ** The calls *)

Lemma give_uid_owns id n uid Q :
  (∀ u, Q u (held_net id n)) →
  owns' (held_net id n ∪ held_uid uid) (if c_jailer cfg then op (on_uids (λ u, (tt, Uids.Release uid u))) else Ret tt) Q.
Proof.
  intros HQ. destruct (c_jailer cfg) eqn:Hj.
  - apply owns_uid_release; [apply elem_of_union_r, elem_of_held_uid; done|]. intros u.
    replace ((held_net id n ∪ held_uid uid) ∖ {[TUid uid]}) with (held_net id n); [done|]. apply set_eq. intros x.
    rewrite elem_of_difference, elem_of_union, elem_of_singleton, elem_of_held_uid, elem_of_held_net. destruct n; naive_solver.
  - apply owns_ret. unfold held_uid. rewrite Hj, union_empty_r_L. done.
Qed.

Lemma Kill_owns id n pid uid Q :
  (∀ u, Q u (held_net id n)) → owns' (held_net id n ∪ held_uid uid) (Kill cfg pid uid) Q.
Proof. intros HQ. unfold Kill. apply owns_bind, owns_quiet; [done|]. intros _. by apply give_uid_owns. Qed.

Lemma teardown_owns id i Q :
  c_network cfg = true → (∀ u, Q u (held_net id None)) → owns' (held_net id (Some i)) (teardownForkNetwork cfg id i) Q.
Proof.
  intros Hn HQ. unfold teardownForkNetwork, networkEnabled. rewrite Hn. simpl.
  apply owns_bind, owns_quiet; [done|]. intros _. apply owns_bind, owns_quiet; [intros; apply on_host_same|]. intros _.
  apply (owns_net_release _ i); [set_solver|]. intros u. rewrite difference_diag_L, union_empty_l_L. apply HQ.
Qed.

Lemma StartVM_owns id bt Q :
  (∀ err, Q (Err err) (held_net id None)) →
  (∀ pid uid, uid_ok uid → Q (Ok (pid, uid)) (held_net id None ∪ held_uid uid)) →
  owns' (held_net id None) (StartVM cfg bt) Q.
Proof.
  intros H0 H1. unfold StartVM. destruct (bt_checked bt); simpl; [|apply H0]. unfold held_uid, uid_ok in H1.
  destruct (c_jailer cfg) eqn:Hj.
  - apply owns_bind, owns_uid_acquire; [done|apply H0|]. intros uid Hr. destruct (bt_launch bt) as [pid|]; [by apply H1|].
    apply owns_bind, owns_uid_release; [set_solver|]. intros _.
    replace ((freed id ∪ {[TUid uid]}) ∖ {[TUid uid]}) with (held_net id None); [apply H0|]. simpl. apply set_eq. intros x.
    rewrite elem_of_difference, elem_of_union, elem_of_singleton, elem_of_freed. naive_solver.
  - destruct (bt_launch bt) as [pid|]; [|apply H0]. specialize (H1 pid 0). rewrite union_empty_r_L in H1. by apply H1.
Qed.

Lemma prepare_owns id opts uid Q :
  id ∈ F → (∀ err, Q (Err err) (held_net id None ∪ held_uid uid)) →
  (∀ fnet, (∀ i, fnet = Some i → id_TapName i ≠ "" ∧ c_network cfg = true) → Q (Ok fnet) (held_net id fnet ∪ held_uid uid)) →
  owns' (held_net id None ∪ held_uid uid) (prepareForkNetwork cfg id opts) Q.
Proof.
  intros HF H0 H1. unfold prepareForkNetwork. destruct (fo_Network opts) as [n|]; [|by apply H1].
  unfold networkEnabled. destruct (c_network cfg) eqn:Hn; simpl; [|by apply H1].
  destruct (Allowlist.SplitAllowList _) as [[allow skipped]|]; [|apply H0].
  apply owns_bind, owns_net_acquire; [apply elem_of_union_l, elem_of_freed; done|done|intros; apply H0|]. intros i Htap.
  replace ((freed id ∪ held_uid uid) ∖ {[TId id]} ∪ {[TNet id i]}) with (held_net id (Some i) ∪ held_uid uid).
  2: { apply set_eq. intros x. rewrite !elem_of_union, elem_of_difference, elem_of_union, !elem_of_singleton, elem_of_freed,
         elem_of_held_uid, elem_of_held_net. naive_solver. }
  assert (∀ Q', (∀ u, Q' u (held_net id None ∪ held_uid uid)) →
    owns' (held_net id (Some i) ∪ held_uid uid) (op (on_alloc (λ a, (tt, Release id a)))) Q') as Hrel.
  { intros Q' HQ'. apply (owns_net_release _ i); [set_solver|]. intros u.
    replace ((held_net id (Some i) ∪ held_uid uid) ∖ {[TNet id i]} ∪ freed id) with (held_net id None ∪ held_uid uid); [apply HQ'|].
    apply set_eq. intros x. rewrite !elem_of_union, elem_of_difference, elem_of_union, !elem_of_singleton, elem_of_freed,
      elem_of_held_uid, !elem_of_held_net. naive_solver. }
  apply owns_bind, owns_quiet; [intros; apply on_host_same|]. intros [u|e]; [|apply owns_bind, Hrel; intros; apply H0].
  apply owns_bind_ok.
  match goal with |- owns _ _ _ _ ?Q0 => assert (∀ u, Q0 (Ok u) (held_net id (Some i) ∪ held_uid uid)) as Hk end.
  { intros _. assert (Q (Ok (Some i)) (held_net id (Some i) ∪ held_uid uid)) by (apply H1; intros ? [= ->]; done).
    apply owns_bind. destruct (egressProxyEnabled cfg); [by apply owns_quiet|done]. }
  destruct (_ && _); [|apply (Hk tt)].
  destruct (Allowlist.ParseNameAllowList _) as [names|]; [|apply owns_bind, Hrel; intros; apply H0].
  destruct (bool_decide _); [apply (Hk tt)|]. apply owns_op. intros e He Ht. split; [by destruct He|].
  eexists. split_and!; [exact Ht|done|apply (Hk tt)].
Qed.

Lemma body_owns snap id opts bt :
  id ∈ F →
  owns' (held_net id None) (fork_body cfg snap id opts bt)
    (λ r t, t = match r with Ok _ => ∅ | Err _ => held_net id None end).
Proof.
  intros HF. unfold fork_body. destruct (bt_snapshot bt); simpl; [|done]. apply owns_bind_ok, StartVM_owns; [done|].
  intros pid uid Hu. apply owns_bind, prepare_owns; [done|intros err; by apply owns_bind, Kill_owns|]. intros fnet Hf.
  assert (∀ err, owns' (held_net id fnet ∪ held_uid uid) (do _ := cleanupFork cfg id pid uid fnet; Ret (Err err))
    (λ (r : result fork_error Sandbox) t, t = match r with Ok _ => ∅ | Err _ => held_net id None end)) as Hfail.
  { intros err. apply owns_bind. unfold cleanupFork. apply owns_bind, Kill_owns. intros _.
    destruct fnet as [i|]; [|done]. apply teardown_owns; [by apply (Hf i)|done]. }
  destruct (bt_volumes bt); simpl; [|apply Hfail]. destruct (bt_load bt); simpl; [|apply Hfail].
  destruct (bt_rebind bt); simpl; [|apply Hfail]. destruct (bt_resume bt); simpl; [|apply Hfail].
  apply owns_bind, owns_quiet; [done|]. intros port.
  match goal with |- context [commitReservation cfg id ?sb0] => set (sb := sb0) end.
  assert (net_of sb = fnet) as Hnet.
  { unfold net_of, networked. simpl. destruct fnet as [i|]; simpl; [|done]. by rewrite bool_decide_eq_false_2 by apply (Hf i eq_refl). }
  assert (sound sb) as Hs.
  { split_and!; [|done|by left]. intros Hnw. unfold net_of in Hnet. rewrite Hnw in Hnet. by apply (Hf (sb_netID sb)). }
  rewrite <- Hnet. apply owns_bind. apply (owns_commit id sb); [done|done|]. intros _. apply owns_bind.
  destruct (bt_journal bt); [by apply owns_quiet|done].
Qed.

(** A call may end as the owner of identifiers only. *)
Definition settled (t : gset token) : Prop := ∀ x, x ∈ t → ∃ id, x = TId id.

Lemma settled_empty : settled ∅.
Proof. set_solver. Qed.

Lemma settled_free id : settled (held_net id None).
Proof. intros x Hx%elem_of_held_net. naive_solver. Qed.

Lemma owns_admit t Q : (∀ r, Q r t) → owns' t (op (admitFork cfg)) Q.
Proof. apply owns_quiet. intros e. unfold admitFork. by repeat case_match. Qed.

Lemma owns_refuse {A} t err (Q : result fork_error A → gset token → Prop) :
  Q (Err err) t → owns' t (do _ := op (releaseReservation cfg); Ret (Err err)) Q.
Proof.
  intros HQ. apply owns_bind, owns_quiet; [|done]. intros e. unfold releaseReservation. by repeat (case_match; simpl).
Qed.

Lemma fork_owns snap id opts bt reserved :
  id ∈ F → owns' (held_net id None) (fork cfg snap id opts bt reserved) (λ _, settled).
Proof.
  intros HF. unfold fork. destruct (safeSandboxIDComponent id); simpl; [|apply settled_free].
  apply owns_bind_ok.
  match goal with |- owns _ _ _ _ ?Q0 => assert (∀ r, Q0 r (held_net id None)) as Hk end.
  { intros [u|err]; [|apply settled_free]. apply owns_bind. eapply owns_mono; [|by apply body_owns].
    intros [sb|err] t ->; [apply settled_empty|apply owns_refuse, settled_free]. }
  destruct reserved; [apply (Hk (Ok tt))|]. by apply owns_admit.
Qed.

Lemma fork_call_owns snap id opts bt :
  id ∈ F → owns' (held_net id None) (Fork cfg snap id opts bt) (λ _, settled).
Proof.
  intros HF. unfold Fork. destruct (safeSandboxIDComponent snap); simpl; [|apply settled_free].
  destruct (safeSandboxIDComponent id); simpl; [|apply settled_free]. apply owns_bind_ok, owns_admit.
  intros [u|err]; [|apply settled_free]. destruct (bt_verified bt); simpl; [|apply owns_refuse, settled_free].
  destruct (bt_compatible bt); simpl; [|apply owns_refuse, settled_free].
  destruct (bt_opened bt); simpl; [|apply owns_refuse, settled_free]. by apply fork_owns.
Qed.

Lemma live_fork_owns src id cp bt :
  id ∈ F → owns' (held_net id None) (ForkRunning cfg src id cp bt) (λ _, settled).
Proof.
  intros HF. unfold ForkRunning, rd. apply owns_bind, owns_quiet; [done|]. intros [source|]; [|apply settled_free].
  destruct (_ && _); [apply settled_free|]. destruct cp; simpl; [|apply settled_free]. by apply fork_owns.
Qed.

Lemma reap_owns sys id n sb Q :
  sound sb → (∀ u, Q u (held_net id n)) →
  owns' (held_net id n ∪ held_uid (sb_jailedUID sb))
    (match sb_client sb with
     | Some uid => Kill cfg (sb_Pid sb) uid
     | None => if sb_adopted sb then reapAdopted cfg sys sb else Ret tt
     end) Q.
Proof.
  intros (_ & Hu & [->|[-> ->]]) HQ; [by apply Kill_owns|]. unfold reapAdopted.
  assert (negb (sb_jailedUID sb =? 0) && c_jailer cfg = c_jailer cfg) as ->.
  { unfold uid_ok, uid_range in *. destruct (c_jailer cfg); [|by rewrite andb_false_r]. by rewrite (proj2 (Z.eqb_neq _ 0)) by lia. }
  pose proof (give_uid_owns id n (sb_jailedUID sb) Q HQ) as Hgive. apply owns_bind.
  destruct ((0 <? sb_Pid sb) && _); [by apply owns_quiet|done].
Qed.

Lemma terminate_owns sys id : owns' ∅ (Terminate cfg sys id) (λ _, settled).
Proof.
  unfold Terminate. destruct (safeSandboxIDComponent id); simpl; [|apply settled_empty].
  apply owns_bind, owns_remove; [apply settled_empty|]. intros sb Hs. apply owns_bind, reap_owns; [done|]. intros _.
  apply owns_bind.
  match goal with |- owns _ _ _ _ ?Q0 => assert (∀ u, Q0 u (held_net id None)) as Hk end.
  { intros _. apply owns_bind, owns_quiet; [|intros _; apply settled_free].
    unfold unjournalSandbox. by destruct (sy_unlink sys id). }
  unfold net_of, networked. destruct (bool_decide (id_TapName _ = _)) eqn:Et; simpl; [apply (Hk tt)|].
  apply teardown_owns; [|done]. apply Hs. unfold networked. by rewrite Et.
Qed.

(** The call of each of some programs with its identifier, when it forks. *)
Definition forked (c : call) : option string :=
  match c with CFork _ id _ _ => Some id | CForkRunning _ id _ _ => Some id | CTerminate _ _ => None end.

Definition start_token (c : call) : gset token := match forked c with Some id => {[TId id]} | None => ∅ end.

Lemma call_owns c : (∀ id, forked c = Some id → id ∈ F) → owns' (start_token c) (prog_of cfg c) (λ _, settled).
Proof.
  intros HF. assert (∀ id, id ∈ F → {[TId id]} = held_net id None) as Hh.
  { intros id Hid. simpl. unfold freed. by rewrite bool_decide_eq_true_2. }
  destruct c as [snap id opts bt|src id cp bt|sys id]; unfold start_token; simpl; apply owns_bind.
  - rewrite Hh by naive_solver. eapply owns_mono; [|apply fork_call_owns; naive_solver]. done.
  - rewrite Hh by naive_solver. eapply owns_mono; [|apply live_fork_owns; naive_solver]. done.
  - eapply owns_mono; [|apply terminate_owns]. done.
Qed.

End books.

Lemma start_divides calls :
  NoDup (omap forked calls) → divides (start_token <$> calls) (list_to_set (TId <$> omap forked calls)).
Proof.
  induction calls as [|c calls IH]; [done|]. rewrite fmap_cons. simpl.
  replace (start_token c) with (match forked c with Some id => {[TId id]} | None => ∅ end : gset token) by done.
  destruct (forked c) as [id|]; simpl.
  - intros [Hid Hnd]%NoDup_cons. split; [set_solver|].
    match goal with |- _ _ ?X => replace X with (list_to_set (TId <$> omap forked calls) : gset token); [by apply IH|] end.
    apply set_eq. intros x. rewrite elem_of_difference, elem_of_union, elem_of_singleton, !elem_of_list_to_set.
    split; [|by intros [[?|?] ?]]. intros Hx. split; [by right|]. intros ->. by apply list_elem_of_fmap in Hx as (? & [= <-] & ?).
  - intros Hnd. split; [set_solver|]. rewrite difference_empty_L. by apply IH.
Qed.

Section shared.
Context {unicode : Unicode} {sliceSort : SliceSort} {mapRange : MapRange} {K : Type} {manager : Manager K}.
Context (cfg : config) (a0 : Allocator) (low high : Z).

(** No two live sandboxes have addresses or a uid in common. *)
Definition separate (e : Engine K) : Prop :=
  ∀ id1 id2 sb1 sb2, e_sandboxes e !! id1 = Some sb1 → e_sandboxes e !! id2 = Some sb2 → id1 ≠ id2 →
    (networked sb1 = true → networked sb2 = true → apart (sb_netID sb1) (sb_netID sb2)) ∧
    (c_jailer cfg = true → sb_jailedUID sb1 ≠ sb_jailedUID sb2).

Lemma books_separate e : books cfg a0 low high e → separate e.
Proof.
  intros He id1 id2 sb1 sb2 H1 H2 Hne. split.
  - intros N1 N2. pose proof (bk_net _ _ _ _ _ He id1 sb1 H1) as A1. pose proof (bk_net _ _ _ _ _ He id2 sb2 H2) as A2.
    rewrite N1 in A1. rewrite N2 in A2. by apply (alloc_apart (e_netAlloc e) id1 id2); [apply He|..].
  - intros Hj Heq. apply Hne. by eapply (bk_apart _ _ _ _ _ He).
Qed.

(** C3: In every interleaving of forks and live forks, under identifiers that are pairwise
    different and that no live sandbox has, with terminations of any sandboxes, whatever fails on the way, no two live sandboxes ever
    share an address block or a uid; and once all calls have returned, the allocators hold
    exactly the identities and the uids of the live sandboxes, so that nothing is leaked. *)
Theorem forks_share_nothing calls e e' ps :
  uid_range low high → exact cfg a0 low high e →
  NoDup (omap forked calls) → (∀ id, id ∈ omap forked calls → e_sandboxes e !! id = None) →
  reaches (λ p, ∃ sys id, p = prog_of cfg (CTerminate sys id)) (e, prog_of cfg <$> calls) (e', ps) →
  separate e' ∧ (Forall (λ p, ∃ a, p = Ret a) ps → exact cfg a0 low high e').
Proof.
  intros Hr [He Hnet Huid] Hnd Hfresh Hreach. set (F := list_to_set (omap forked calls) : gset string).
  assert (shared (out cfg F) (books cfg a0 low high) settled (e', ps)) as Hs.
  { eapply reaches_shared; [|exact Hreach|].
    - intros p (sys & id & ->). by apply (call_owns cfg a0 low high F Hr (CTerminate sys id)).
    - split; [done|]. exists (start_token <$> calls). split.
      + simpl. apply Forall2_fmap_2, Forall_Forall2_diag, Forall_forall. intros c Hc.
        apply call_owns; [done|]. intros id Hid. apply elem_of_list_to_set, list_elem_of_omap. eauto.
      + simpl. replace (out cfg F e) with (list_to_set (TId <$> omap forked calls) : gset token); [by apply start_divides|].
        apply set_eq. intros x. rewrite elem_of_out, elem_of_list_to_set, list_elem_of_fmap. subst F. split.
        * intros (id & -> & Hid). split_and!; [by apply elem_of_list_to_set| |by apply Hfresh].
          destruct (al_byID (e_netAlloc e) !! id) eqn:Hi; [|done]. destruct (Hnet _ _ Hi) as [sb Hsb]. by rewrite Hfresh in Hsb.
        * destruct x as [id i|uid|id].
          -- intros [Hi Hsb]. destruct (Hnet _ _ Hi). congruence.
          -- intros (Hj & Hu & Hn). destruct (Huid uid Hj Hu) as (id & sb & Hsb & Heq). by destruct (Hn id sb).
          -- intros (Hid & _). exists id. split; [done|]. by apply elem_of_list_to_set in Hid. }
  split; [apply books_separate, Hs|]. intros Hfin. apply (exact_out cfg a0 low high F); [apply Hs|].
  by apply (shared_finished (out cfg F) (books cfg a0 low high) (λ x, ∃ id, x = TId id) (e', ps)).
Qed.

(** A node without sandboxes. *)
Lemma exact_new (e : Engine K) :
  alloc_ok a0 → al_byID a0 = ∅ → uid_range low high →
  e_sandboxes e = ∅ → e_netAlloc e = a0 → e_uids e = Uids.NewUIDAllocator low high → exact cfg a0 low high e.
Proof.
  intros Ha Hby Hr Es Ea Eu. split; [split|..]; rewrite ?Es, ?Ea, ?Eu, ?Hby; try done; try by intros ? ? ?%lookup_empty_Some.
  unfold uid_range in Hr. split; simpl; [done|done|lia|set_solver].
Qed.

(** A block that no live sandbox has can be acquired. *)
Lemma Acquire_free (e : Engine K) id b :
  exact cfg a0 low high e → e_sandboxes e !! id = None → 0 ≤ b < al_count a0 →
  (∀ id' sb, e_sandboxes e !! id' = Some sb → sb_netID sb ≠ identityForBlock a0 id' b) →
  ∃ i, (Netconf.Acquire id (e_netAlloc e)).1 = Ok i ∧ id_TapName i ≠ "".
Proof.
  intros [Hb Hn _] Hsb Hr Hfree. pose proof (bk_alloc _ _ _ _ _ Hb) as Ha. pose proof (bk_alike _ _ _ _ _ Hb) as Hal.
  pose proof (Acquire_spec _ id Ha) as Hsp. pose proof (Acquire_ok id _ Ha) as Hok.
  destruct (Netconf.Acquire id (e_netAlloc e)) as [[i|err] a]; simpl in *.
  { exists i. split; [done|]. destruct Hsp as [Hby _]. assert (al_byID a !! id = Some i) as Hi by (rewrite Hby; apply lookup_insert_eq).
    destruct (held_blocks a id i Hok Hi) as (b' & _ & _ & ->). apply block_tap. }
  destruct Hsp as (_ & _ & _ & Hall). destruct (Hall b) as (id' & [i Hi] & Hidx); [destruct Hal as (_ & -> & _); done|].
  destruct (ok_index _ Ha _ _ Hidx) as [_ Hi']. destruct (Hn _ _ Hi) as [sb Hsb'].
  pose proof (bk_net _ _ _ _ _ Hb _ _ Hsb') as Hnet. rewrite Hi' in Hnet. destruct (networked sb); [|done]. injection Hnet as Hnet.
  destruct (Hfree _ _ Hsb'). rewrite <- Hnet. by apply alike_block.
Qed.

(** A machine is started when there is a uid for it. *)
Lemma StartVM_boots pid (e : Engine K) :
  (c_jailer cfg = true → is_Some (Uids.Acquire (e_uids e)).1) →
  ∃ uid u, Atomic.run (StartVM cfg (boots pid)) e = (Ok (pid, uid), with_uids u e).
Proof.
  intros Hu. unfold StartVM. simpl. destruct (c_jailer cfg); [|exists 0, (e_uids e); by destruct e].
  destruct (Hu eq_refl) as [uid Huid]. simpl. unfold on_uids.
  destruct (Uids.Acquire (e_uids e)) as [r u]. simpl in *. subst r. by exists uid, u.
Qed.

(** A network is set up when there is a block for it. *)
Lemma prepare_granted id n allow i vols live (e : Engine K) :
  (Netconf.Acquire id (e_netAlloc e)).1 = Ok i → id_TapName i ≠ "" →
  Allowlist.SplitAllowList (no_AllowList n) = Ok (allow, []) →
  (∀ i policy resolver h, (mgr_Setup i policy resolver h).1 = Ok tt) →
  ∃ fnet e', Atomic.run (prepareForkNetwork cfg id {| fo_Network := Some n; fo_Volumes := vols; fo_LiveFork := live |}) e = (Ok fnet, e') ∧
    e_sandboxes e' = e_sandboxes e ∧ negb (bool_decide (id_TapName (default no_identity fnet) = "")) = c_network cfg.
Proof.
  intros Hi Htap Hallow Hset. unfold prepareForkNetwork, networkEnabled. simpl. destruct (c_network cfg); [|by exists None, e]. simpl.
  rewrite Hallow. simpl. unfold on_alloc. destruct (Netconf.Acquire id (e_netAlloc e)) as [r a]. simpl in *. subst r. simpl.
  unfold on_host. simpl. specialize (Hset i (policy_of cfg allow n) (c_resolverIP cfg) (e_host e)).
  destruct (mgr_Setup _ _ _ _) as [r h]. simpl in *. subst r. simpl.
  rewrite andb_false_r, run_bind. cbn [Atomic.run]. rewrite run_bind_ok. cbn [Atomic.run]. rewrite run_bind.
  exists (Some i). destruct (egressProxyEnabled cfg); eexists; (split; [reflexivity|]; split; [done|]); by rewrite bool_decide_eq_false_2.
Qed.

Lemma body_boots snap id pid n allow i (e : Engine K) :
  (c_jailer cfg = true → is_Some (Uids.Acquire (e_uids e)).1) →
  (Netconf.Acquire id (e_netAlloc e)).1 = Ok i → id_TapName i ≠ "" →
  Allowlist.SplitAllowList (no_AllowList n) = Ok (allow, []) →
  (∀ i policy resolver h, (mgr_Setup i policy resolver h).1 = Ok tt) →
  ∃ sb e', Atomic.run (fork_body cfg snap id {| fo_Network := Some n; fo_Volumes := false; fo_LiveFork := false |} (boots pid)) e = (Ok sb, e') ∧
    e_sandboxes e' = <[id := sb]> (e_sandboxes e) ∧ sb_Pid sb = pid ∧ networked sb = c_network cfg.
Proof.
  intros Hu Hi Htap Hallow Hset. unfold fork_body. cbn [boots bt_snapshot negb]. rewrite run_bind_ok.
  destruct (StartVM_boots pid e Hu) as (uid & u & ->). rewrite run_bind.
  destruct (prepare_granted id n allow i false false (with_uids u e) Hi Htap Hallow Hset) as (fnet & e2 & -> & Es & Hnet).
  cbv zeta. cbn [boots bt_volumes bt_load bt_rebind bt_resume bt_journal negb]. rewrite run_bind, run_op.
  rewrite run_bind, run_op. unfold commitReservation. cbv zeta beta iota. rewrite run_bind, run_op. cbv beta iota.
  eexists _, _. split; [reflexivity|]. simpl. by rewrite Es.
Qed.

(** C26: Nothing but the lack of a resource or a failure of the machine stops a fork: on a
    node at rest, below the ceiling, with an address block and a uid that no live sandbox
    has, a fork whose outside calls succeed returns a live sandbox.  Capacity that was
    given back is never lost. *)
Theorem fork_succeeds e snap id pid n allow b uid :
  uid_range low high → high - low < 2 ^ 31 → exact cfg a0 low high e →
  safeSandboxIDComponent snap = true → safeSandboxIDComponent id = true → e_sandboxes e !! id = None →
  (c_maxSandboxes cfg ≤ 0 ∨ inFlight e < c_maxSandboxes cfg) →
  Allowlist.SplitAllowList (no_AllowList n) = Ok (allow, []) →
  (∀ i policy resolver h, (mgr_Setup i policy resolver h).1 = Ok tt) →
  0 ≤ b < al_count a0 → (∀ id' sb, e_sandboxes e !! id' = Some sb → sb_netID sb ≠ identityForBlock a0 id' b) →
  low ≤ uid ≤ high → (∀ id' sb, e_sandboxes e !! id' = Some sb → sb_jailedUID sb ≠ uid) →
  let r := Atomic.run (Fork cfg snap id {| fo_Network := Some n; fo_Volumes := false; fo_LiveFork := false |} (boots pid)) e in
  ∃ sb, r.1 = Ok sb ∧ e_sandboxes r.2 = <[id := sb]> (e_sandboxes e) ∧ sb_Pid sb = pid ∧ networked sb = c_network cfg.
Proof.
  intros Hr Hsz He Hsnap Hid Hsb Hcap Hallow Hset Hb Hbfree Huid Hufree.
  destruct (Acquire_free e id b He Hsb Hb Hbfree) as (i & Hi & Htap).
  assert (c_jailer cfg = true → is_Some (Uids.Acquire (e_uids e)).1) as Hu.
  { intros Hj. apply (Acquire_uid_some low high _ uid); [done|done|apply He|done|]. intros Hin.
    destruct (ex_uid _ _ _ _ _ He uid Hj Hin) as (id' & sb & Hsb' & Heq). by eapply Hufree. }
  assert (∃ reserved, admitFork cfg e = (Ok tt, with_sandboxes (e_sandboxes e) reserved e)) as [reserved Hadm].
  { unfold admitFork. destruct (Z.leb_spec (c_maxSandboxes cfg) 0); [exists (e_reserved e); by destruct e|].
    rewrite (proj2 (Z.leb_gt _ _)) by lia. eauto. }
  destruct (body_boots snap id pid n allow i (with_sandboxes (e_sandboxes e) reserved e) Hu Hi Htap Hallow Hset) as (sb & e' & Hrun & Hsbs & Hrest).
  exists sb. unfold Fork, fork. rewrite Hsnap, Hid. cbn [negb]. rewrite run_bind_ok, run_op, Hadm.
  cbn [boots bt_verified bt_compatible bt_opened negb]. rewrite run_bind_ok. cbn [Atomic.run]. rewrite run_bind, Hrun. done.
Qed.

End shared.

(** ** An example *)

(** A network with all defaults. *)
Definition with_network : ForkOpts := {|
  fo_Network := Some {| no_EgressPolicy := ""; no_AllowList := []; no_AllowCIDRs := []; no_BlockNetwork := false;
                        no_Inbound := ""; no_InboundCIDRs := [] |};
  fo_Volumes := false; fo_LiveFork := false |}.

(** A start that fails when the snapshot is loaded. *)
Definition fails_load (pid : Z) : boot := {|
  bt_verified := true; bt_compatible := true; bt_opened := true; bt_snapshot := true; bt_checked := true;
  bt_launch := Some pid; bt_volumes := true; bt_load := false; bt_rebind := true; bt_resume := true; bt_journal := true |}.

Lemma ex_node_exact : exact ex_config ex_alloc 30000 30003 ex_node.
Proof.
  apply exact_new; [|done|unfold uid_range; lia|done..]. by apply (NewAllocator_ok "10.200.0.0/16" "sbtap"), ex_alloc_new.
Qed.

Definition ex_calls : list call := [CFork "snap" "a" with_network (boots 11); CFork "snap" "b" with_network (fails_load 12)].

(** The two calls take turns. *)
Definition ex_turns : list (prog (Engine unit) unit + nat) :=
  concat (replicate 12 [inr 0%nat; inr 1%nat]).

Definition ex_end : Engine unit * list (prog (Engine unit) unit) :=
  Atomic.schedule ex_turns (ex_node, prog_of ex_config <$> ex_calls).

Lemma forks_share_nothing_witness :
  dom (e_sandboxes ex_end.1) = {["a"]} ∧ separate ex_config ex_end.1 ∧ exact ex_config ex_alloc 30000 30003 ex_end.1.
Proof.
  split; [vm_compute; reflexivity|].
  destruct (forks_share_nothing ex_config ex_alloc 30000 30003 ex_calls ex_node ex_end.1 ex_end.2) as [H1 H2].
  - unfold uid_range. lia.
  - apply ex_node_exact.
  - apply NoDup_cons. split; [set_solver|apply NoDup_singleton].
  - done.
  - rewrite <- surjective_pairing. apply schedule_reaches. unfold ex_turns. simpl. repeat constructor.
  - split; [exact H1|]. apply H2. vm_compute. repeat constructor; eexists; reflexivity.
Defined.

Lemma fork_succeeds_witness :
  ∃ sb, (Atomic.run (Fork ex_config "snap" "a" with_network (boots 11)) ex_node).1 = Ok sb ∧
    e_sandboxes (Atomic.run (Fork ex_config "snap" "a" with_network (boots 11)) ex_node).2 = {["a" := sb]} ∧
    sb_Pid sb = 11 ∧ networked sb = true.
Proof.
  destruct (fork_succeeds ex_config ex_alloc 30000 30003 ex_node "snap" "a" 11
    {| no_EgressPolicy := ""; no_AllowList := []; no_AllowCIDRs := []; no_BlockNetwork := false; no_Inbound := ""; no_InboundCIDRs := [] |}
    [] 5 30001) as (sb & H1 & H2 & H3 & H4);
    [unfold uid_range; lia|lia|apply ex_node_exact|reflexivity|reflexivity|reflexivity|right; reflexivity|reflexivity|done|simpl; lia|done|lia|done|].
  exists sb. split; [exact H1|]. split; [exact H2|]. split; [exact H3|exact H4].
Defined.

End ForkTheorems.
