(* ===== verification/RecoveryTheorems.v ===== *)
(** * The engine of a node: recovery

    A new process of forkd rebuilds from the journal the node that a former one left: the
    sandboxes whose process still runs come back with their addresses and uids, which no
    later fork is given, and what the others held is free again. *)

From Stdlib Require Import Ascii.
From S2P Require Import Prelude Sha256 Json GoStrings GoNet Atomic Ownership Netconf NetconfTheorems Allowlist AllowlistTheorems Nft Firewall EgressProxy.
From S2P Require Import Engine EngineTheorems ForkTheorems.
Import Sha256 Json GoStrings GoNet Netconf NetconfTheorems Engine EngineTheorems ForkTheorems.

Module RecoveryTheorems.

(** ** The text of an address *)

Definition plain (s : string) : bool :=
  forallb (λ c, negb (bool_decide (c ∈ ["."%char; ":"%char; "%"%char]))) (String.list_ascii_of_string s).

Lemma octets : Forall (λ v, parse_octet (fmt_int v) = Some v ∧ plain (fmt_int v) = true) (seqZ 0 256).
Proof. by repeat constructor. Qed.

Lemma octet v : 0 ≤ v < 256 → parse_octet (fmt_int v) = Some v ∧ plain (fmt_int v) = true.
Proof. intros Hv. pose proof octets as Ho. rewrite Forall_forall in Ho. apply Ho, elem_of_seqZ. lia. Qed.

Lemma plain_cons c s : plain (String c s) = true → (c ∉ ["."%char; ":"%char; "%"%char]) ∧ c ≠ "."%char ∧ plain s = true.
Proof.
  unfold plain. simpl. intros [Hc Hs]%andb_true_iff. rewrite negb_true_iff, bool_decide_eq_false in Hc.
  split_and!; [done| |done]. intros ->. apply Hc. constructor.
Qed.

Lemma Split_plain s t : plain s = true → Split (s +:+ String "." t) "." = s :: Split t ".".
Proof.
  induction s as [|c s IH]; intros H.
  - rewrite str_app_nil_l. simpl. pose proof (GoStringsTheorems.Split_ne t "."). by destruct (Split t ".").
  - apply plain_cons in H as (_ & Hc & H). rewrite str_app_cons. simpl. rewrite IH by done. by rewrite bool_decide_eq_false_2.
Qed.

Lemma Split_alone s : plain s = true → Split s "." = [s].
Proof.
  induction s as [|c s IH]; intros H; [done|]. apply plain_cons in H as (_ & Hc & H). simpl. rewrite IH by done.
  by rewrite bool_decide_eq_false_2.
Qed.

Lemma first_mark_plain s t : plain s = true → first_mark (s +:+ String "." t) = Some "."%char.
Proof.
  induction s as [|c s IH]; intros H; [done|]. apply plain_cons in H as (Hc & _ & H). rewrite str_app_cons. simpl.
  rewrite bool_decide_eq_false_2 by done. by apply IH.
Qed.

(** The journal keeps an IPv4 address. *)
Lemma parse_String ip : is_ip4 ip → parse_to4 (if bool_decide (ip = []) then "" else IP_String ip) = ip.
Proof.
  intros Hip. destruct (is_ip4_inv ip Hip) as (a & b & c & d & -> & Ha & Hb & Hc & Hd).
  destruct (octet a Ha) as [Pa Na], (octet b Hb) as [Pb Nb], (octet c Hc) as [Pc Nc], (octet d Hd) as [Pd Nd].
  unfold IP_String, dotted. simpl. unfold byte_at. simpl. str_simpl.
  unfold parse_to4. rewrite bool_decide_eq_false_2.
  2: { intros Heq%(f_equal String.length). rewrite str_length_app in Heq. simpl in Heq. lia. }
  unfold ParseIP, parse_addr. rewrite first_mark_plain by done. unfold parse4.
  rewrite !Split_plain, Split_alone by done. simpl. by rewrite Pa, Pb, Pc, Pd.
Qed.

Lemma identity_roundtrip a id b : toIdentity (networkIdentityFrom (identityForBlock a id b)) = identityForBlock a id b.
Proof.
  unfold toIdentity, networkIdentityFrom. cbn [ni_TapName ni_GuestMAC ni_HostIP ni_GuestIP].
  rewrite !parse_String by apply uint32ToIP_ip4. done.
Qed.

(** Blocks have different identities. *)
Lemma block_inj a id1 id2 b1 b2 :
  in_range a → 0 ≤ b1 < al_count a → 0 ≤ b2 < al_count a →
  id_GuestIP (identityForBlock a id1 b1) = id_GuestIP (identityForBlock a id2 b2) → b1 = b2.
Proof. intros Ha H1 H2 Heq%(f_equal num). rewrite !block_guest in Heq by done. lia. Qed.

Section recovery.
Context {unicode : Unicode} {sliceSort : SliceSort} {mapRange : MapRange} {K : Type} {manager : Manager K}.
Context (cfg : config) (a0 : Allocator) (low high : Z) (sys : system).
Hypothesis Hnew : alloc_ok a0 ∧ al_byID a0 = ∅ ∧ al_idIndex a0 = ∅.
Hypothesis Hrange : uid_range low high.

(** The journal can be read, and records can be removed. *)
Definition orderly : Prop :=
  sy_readdir sys = true ∧ (∀ id, sy_read sys id = true) ∧ ∀ id, sy_unlink sys id = true.
Hypothesis Hsys : orderly.

Abbreviation exact' := (exact (K := K) cfg a0 low high).

(** What a record says of a sandbox. *)
Definition describes (rec : sandboxRecord) (sb : Sandbox) : Prop :=
  jr_ID rec = sb_ID sb ∧ jr_SnapshotID rec = sb_SnapshotID sb ∧ jr_Port rec = sb_Port sb ∧ jr_Pid rec = sb_Pid sb ∧
  jr_JailedUID rec = sb_jailedUID sb ∧ jr_Network rec = networkIdentityFrom (sb_netID sb) ∧ jr_HasVolumes rec = sb_hasVolumes sb.

(** The journal has one record for each live sandbox. *)
Definition journaled (e : Engine K) : Prop :=
  ∀ id, match e_sandboxes e !! id, e_journal e !! id with
        | Some sb, Some rec => sb_ID sb = id ∧ (networked sb = false → sb_netID sb = no_identity) ∧ describes rec sb ∧
            jr_FirecrackerBin rec = c_firecrackerBin cfg
        | None, None => True
        | _, _ => False
        end.

Lemma exact_same e e' : same_books e e' → exact' e → exact' e'.
Proof.
  intros (Es & Ea & Eu) [[] Hn Hu]. split; [split|..]; rewrite ?Es, ?Ea, ?Eu; done.
Qed.

(** The former node. *)
Context (e : Engine K) (He : exact' e) (Hj : journaled e).

Lemma recorded id rec :
  e_journal e !! id = Some rec → jr_ID rec = id ∧ ∃ sb, e_sandboxes e !! id = Some sb ∧ describes rec sb.
Proof.
  intros Hrec. specialize (Hj id). rewrite Hrec in Hj. destruct (e_sandboxes e !! id) as [sb|]; [|done].
  destruct Hj as (Hid & _ & Hd & _). split; [destruct Hd; congruence|eauto].
Qed.

(** The node when the records in [l] are still to come. *)
Record partial (l : list sandboxRecord) (e1 : Engine K) : Prop := {
  pt_exact : exact' e1;
  pt_todo : ∀ rec, rec ∈ l → e_journal e !! jr_ID rec = Some rec ∧ e_sandboxes e1 !! jr_ID rec = None;
  pt_live : ∀ id sb, e_sandboxes e1 !! id = Some sb →
    ∃ rec, e_journal e !! id = Some rec ∧ sb = adopted rec ∧ sy_verify sys (jr_Pid rec) (jr_FirecrackerBin rec) = true;
  pt_journal : ∀ id rec, e_journal e1 !! id = Some rec ↔
    e_journal e !! id = Some rec ∧ (is_Some (e_sandboxes e1 !! id) ∨ rec ∈ l);
  pt_done : ∀ id rec, e_journal e !! id = Some rec → rec ∉ l → sy_verify sys (jr_Pid rec) (jr_FirecrackerBin rec) = true →
    is_Some (e_sandboxes e1 !! id);
}.

Lemma networked_adopted rec sb : describes rec sb → networked (adopted rec) = networked sb.
Proof. intros (_ & _ & _ & _ & _ & Hn & _). unfold networked. simpl. by rewrite Hn. Qed.

(** The identity in a record is the one of its sandbox. *)
Lemma netID_adopted id rec sb :
  e_sandboxes e !! id = Some sb → describes rec sb → networked sb = true →
  ∃ b, al_idIndex (e_netAlloc e) !! id = Some b ∧ 0 ≤ b < al_count a0 ∧
    sb_netID sb = identityForBlock a0 id b ∧ sb_netID (adopted rec) = identityForBlock a0 id b.
Proof.
  intros Hsb (_ & _ & _ & _ & _ & Hn & _) Hnw. destruct He as [Hb _ _]. pose proof (bk_net _ _ _ _ _ Hb id sb Hsb) as Hi.
  rewrite Hnw in Hi. destruct (held_blocks _ _ _ (bk_alloc _ _ _ _ _ Hb) Hi) as (b & Hidx & Hr & Hib).
  pose proof (bk_alike _ _ _ _ _ Hb) as Hal. rewrite (alike_block a0 _ _ _ Hal) in Hib. destruct Hal as (_ & Hc & _).
  exists b. split_and!; [done|lia|lia|done|]. simpl. rewrite Hn, Hib. apply identity_roundtrip.
Qed.

(** Neither the uid nor the block of a record that is to come is in use. *)
Lemma uid_free rec l e1 :
  partial (rec :: l) e1 → c_jailer cfg = true → jr_JailedUID rec ∉ Uids.ua_inUse (e_uids e1).
Proof.
  intros Hp Hjl Hin. destruct (pt_todo _ _ Hp rec) as [Hrec Hnone]; [constructor|].
  destruct (ex_uid _ _ _ _ _ (pt_exact _ _ Hp) _ Hjl Hin) as (id' & sb1 & Hsb1 & Heq).
  destruct (pt_live _ _ Hp _ _ Hsb1) as (rec' & Hrec' & -> & _). simpl in Heq.
  destruct (recorded _ _ Hrec) as (Hid & sb & Hsb & Hd). destruct (recorded _ _ Hrec') as (Hid' & sb' & Hsb' & Hd').
  assert (id' = jr_ID rec); [|congruence]. destruct He as [Hb _ _]. eapply (bk_apart _ _ _ _ _ Hb); [done..|].
  destruct Hd as (_ & _ & _ & _ & ? & _), Hd' as (_ & _ & _ & _ & ? & _). congruence.
Qed.

Lemma block_free rec l e1 sb b :
  partial (rec :: l) e1 → e_sandboxes e !! jr_ID rec = Some sb → networked sb = true →
  al_idIndex (e_netAlloc e) !! jr_ID rec = Some b → b ∉ al_inUse (e_netAlloc e1).
Proof.
  intros Hp Hsb Hnw Hidx Hin. destruct (pt_todo _ _ Hp rec) as [Hrec Hnone]; [constructor|].
  destruct (pt_exact _ _ Hp) as [Hb1 Hn1 _]. pose proof (bk_alloc _ _ _ _ _ Hb1) as Ha1.
  apply (ok_inUse _ Ha1) in Hin as [id' Hidx']. destruct (ok_index _ Ha1 _ _ Hidx') as [Hr Hi'].
  destruct (Hn1 _ _ Hi') as [sb1 Hsb1]. pose proof (bk_net _ _ _ _ _ Hb1 _ _ Hsb1) as Hnet. rewrite Hi' in Hnet.
  destruct (networked sb1) eqn:Hnw1; [|done]. injection Hnet as Hnet.
  destruct (pt_live _ _ Hp _ _ Hsb1) as (rec' & Hrec' & -> & _).
  destruct (recorded _ _ Hrec') as (Hid' & sb' & Hsb' & Hd'). rewrite (networked_adopted _ _ Hd') in Hnw1.
  destruct (netID_adopted _ _ _ Hsb' Hd' Hnw1) as (b' & Hb' & Hr' & _ & Heq). pose proof (bk_alike _ _ _ _ _ Hb1) as Hal.
  rewrite (alike_block a0 _ _ _ Hal), Heq in Hnet. destruct Hal as (_ & Hc & _). destruct Hnew as [Ha0 _].
  apply (f_equal id_GuestIP) in Hnet. apply block_inj in Hnet; [|apply Ha0|lia|lia]. subst b'.
  destruct He as [Hb _ _]. assert (id' = jr_ID rec); [|congruence]. by eapply (ok_inj _ (bk_alloc _ _ _ _ _ Hb)).
Qed.

(** A record without a process: its remains are taken away, and nothing in use with them. *)
Lemma reap_same rec l e1 : partial (rec :: l) e1 → same_books e1 (reapArtifacts cfg rec e1).
Proof.
  intros Hp. destruct (pt_todo _ _ Hp rec) as [Hrec Hnone]; [constructor|]. unfold reapArtifacts.
  match goal with |- context [Uids.Release _ (e_uids ?e2)] => set (e2' := e2) end.
  assert (same_books e1 e2') as (Es & Ea & Eu).
  { subst e2'. destruct (_ && _) eqn:Hc; [|done]. apply andb_true_iff in Hc as [_ Hc]. unfold teardownForkNetwork. rewrite Hc.
    simpl. unfold on_host. destruct (mgr_Teardown _ _) as [r h]. simpl. split_and!; [done| |done]. simpl. unfold Release.
    destruct (al_idIndex (e_netAlloc e1) !! jr_ID rec) as [b|] eqn:Hidx; [|done].
    destruct (pt_exact _ _ Hp) as [Hb Hn _]. destruct (ok_index _ (bk_alloc _ _ _ _ _ Hb) _ _ Hidx) as [_ Hi].
    destruct (Hn _ _ Hi). congruence. }
  destruct (_ && c_jailer cfg) eqn:Hc; [|done]. apply andb_true_iff in Hc as [_ Hc]. split_and!; [done|done|]. simpl. rewrite Eu.
  pose proof (uid_free _ _ _ Hp Hc) as Hfree. unfold Uids.Release, Uids.with_inUse. destruct (e_uids e1). simpl in *. f_equal. set_solver.
Qed.

Lemma adopt_parts rec (e1 : Engine K) :
  e_sandboxes (adoptSandbox cfg rec e1) = <[jr_ID rec := adopted rec]> (e_sandboxes e1) ∧
  e_netAlloc (adoptSandbox cfg rec e1) =
    (if networked (adopted rec) && c_network cfg then (MarkInUse (jr_ID rec) (sb_netID (adopted rec)) (e_netAlloc e1)).2 else e_netAlloc e1) ∧
  e_uids (adoptSandbox cfg rec e1) =
    (if negb (jr_JailedUID rec =? 0) && c_jailer cfg then Uids.MarkInUse (jr_JailedUID rec) (e_uids e1) else e_uids e1) ∧
  e_journal (adoptSandbox cfg rec e1) = e_journal e1.
Proof. unfold adoptSandbox, networked. by destruct (negb (bool_decide _) && _), (negb (_ =? _) && _). Qed.

(** An adopted sandbox has its identity and its uid again. *)
Lemma adopt_alloc rec l e1 :
  partial (rec :: l) e1 →
  let a := e_netAlloc (adoptSandbox cfg rec e1) in
  alloc_ok a ∧ alike a0 a ∧
  al_byID a = if networked (adopted rec) then <[jr_ID rec := sb_netID (adopted rec)]> (al_byID (e_netAlloc e1)) else al_byID (e_netAlloc e1).
Proof.
  intros Hp. pose proof Hp as [[Hb1 Hn1 _] Htodo _ _ _]. destruct (Htodo rec) as [Hrec Hnone]; [constructor|].
  destruct (recorded _ _ Hrec) as (_ & sb & Hsb & Hd). pose proof (bk_alike _ _ _ _ _ Hb1) as Hal1. pose proof Hal1 as (_ & Hc & _).
  pose proof (bk_alloc _ _ _ _ _ Hb1) as Ha1. destruct (adopt_parts rec e1) as (_ & Ea & _). cbv zeta. rewrite Ea. clear Ea.
  rewrite (networked_adopted _ _ Hd). destruct (networked sb) eqn:Hnw; simpl; [|done].
  rewrite (bk_enabled _ _ _ _ _ (ex_books _ _ _ _ _ He) _ _ Hsb Hnw).
  destruct (netID_adopted _ _ _ Hsb Hd Hnw) as (b & Hidx & Hr & _ & Heq). simpl in Heq. rewrite Heq, <- (alike_block a0 _ _ _ Hal1).
  assert (al_byID (e_netAlloc e1) !! jr_ID rec = None) as Hnone'.
  { destruct (al_byID (e_netAlloc e1) !! jr_ID rec) eqn:Hi; [destruct (Hn1 _ _ Hi); congruence|done]. }
  rewrite MarkInUse_block by (done || lia || apply Ha1). split_and!; [|done..].
  apply take_block_ok; [done|done|lia|by eapply block_free|apply (ok_range _ Ha1)].
Qed.

Lemma adopt_uids rec l e1 :
  partial (rec :: l) e1 →
  let u := e_uids (adoptSandbox cfg rec e1) in
  uids_ok low high u ∧
  if c_jailer cfg then (low ≤ jr_JailedUID rec ≤ high) ∧ Uids.ua_inUse u = {[jr_JailedUID rec]} ∪ Uids.ua_inUse (e_uids e1)
  else jr_JailedUID rec = 0 ∧ u = e_uids e1.
Proof.
  intros Hp. pose proof Hp as [[Hb1 _ _] Htodo _ _ _]. destruct (Htodo rec) as [Hrec _]; [constructor|].
  destruct (recorded _ _ Hrec) as (_ & sb & Hsb & Hd). pose proof (ex_books _ _ _ _ _ He) as Hb.
  pose proof (bk_uid _ _ _ _ _ Hb _ _ Hsb) as Huid. replace (sb_jailedUID sb) with (jr_JailedUID rec) in Huid by apply Hd.
  destruct (adopt_parts rec e1) as (_ & _ & Eu & _). cbv zeta. rewrite Eu. clear Eu.
  pose proof (bk_uids _ _ _ _ _ Hb1) as Hu1. destruct (c_jailer cfg); [|by rewrite andb_false_r].
  apply (uo_inUse _ _ _ (bk_uids _ _ _ _ _ Hb)) in Huid. unfold uid_range in Hrange.
  rewrite (proj2 (Z.eqb_neq _ 0)) by lia. simpl. destruct (MarkInUse_uid low high (jr_JailedUID rec) (e_uids e1) Hu1 Huid). done.
Qed.

Lemma adopt_exact rec l e1 : partial (rec :: l) e1 → exact' (adoptSandbox cfg rec e1).
Proof.
  intros Hp. destruct (adopt_alloc _ _ _ Hp) as (Hok & Hal & Hby), (adopt_uids _ _ _ Hp) as [Huok Huid].
  destruct (adopt_parts rec e1) as (Es & _ & _ & _). pose proof (uid_free _ _ _ Hp) as Hfree.
  pose proof Hp as [[Hb1 Hn1 Hu1] Htodo _ _ _]. destruct (Htodo rec) as [Hrec Hnone]; [constructor|].
  destruct (recorded _ _ Hrec) as (_ & sb & Hsb & Hd). pose proof (bk_enabled _ _ _ _ _ (ex_books _ _ _ _ _ He) _ _ Hsb) as Hen.
  rewrite <- (networked_adopted _ _ Hd) in Hen.
  assert (al_byID (e_netAlloc e1) !! jr_ID rec = None) as Hnone'.
  { destruct (al_byID (e_netAlloc e1) !! jr_ID rec) eqn:Hi; [destruct (Hn1 _ _ Hi); congruence|done]. }
  split; [split; try done|..]; rewrite ?Es.
  - intros id sb' [[<- <-]|[Hne Hsb']]%lookup_insert_Some; rewrite Hby.
    + destruct (networked _); [apply lookup_insert_eq|done].
    + rewrite <- (bk_net _ _ _ _ _ Hb1 _ _ Hsb'). destruct (networked _); [by rewrite lookup_insert_ne|done].
  - intros id sb' [[<- <-]|[_ Hsb']]%lookup_insert_Some; [done|by eapply (bk_enabled _ _ _ _ _ Hb1)].
  - intros id sb' [[<- <-]|[_ Hsb']]%lookup_insert_Some; [|pose proof (bk_uid _ _ _ _ _ Hb1 _ _ Hsb')];
      destruct (c_jailer cfg); [..|done]; destruct Huid as [? Hin]; [rewrite Hin; set_solver|done|rewrite Hin; set_solver].
  - intros id1 id2 sb1 sb2 [[<- <-]|[_ E1]]%lookup_insert_Some [[<- <-]|[_ E2]]%lookup_insert_Some Hjl; [done| | |by eapply (bk_apart _ _ _ _ _ Hb1)].
    + pose proof (bk_uid _ _ _ _ _ Hb1 _ _ E2) as Hu. rewrite Hjl in Hu. simpl. intros Heq. rewrite <- Heq in Hu. by destruct (Hfree Hjl).
    + pose proof (bk_uid _ _ _ _ _ Hb1 _ _ E1) as Hu. rewrite Hjl in Hu. simpl. intros Heq. rewrite Heq in Hu. by destruct (Hfree Hjl).
  - intros id sb' [[<- <-]|[_ Hsb']]%lookup_insert_Some; [by right|by eapply (bk_client _ _ _ _ _ Hb1)].
  - intros id i. rewrite Hby. destruct (decide (id = jr_ID rec)) as [->|Hne]; [rewrite lookup_insert_eq; eauto|].
    rewrite lookup_insert_ne by done. destruct (networked _); [rewrite lookup_insert_ne by done|]; apply Hn1.
  - intros uid Hjl Hin. rewrite Hjl in Huid. destruct Huid as [_ Hu]. rewrite Hu in Hin.
    apply elem_of_union in Hin as [->%elem_of_singleton|Hin]; [exists (jr_ID rec), (adopted rec); by rewrite lookup_insert_eq|].
    destruct (Hu1 uid Hjl Hin) as (id & sb' & Hsb' & Heq). exists id, sb'. split; [|done]. rewrite lookup_insert_ne; [done|congruence].
Qed.

Lemma partial_step rec l e1 :
  partial (rec :: l) e1 → jr_ID rec ∉ jr_ID <$> l → partial l (reconcile_record cfg sys e1 rec).
Proof.
  intros Hp Hnd. unfold reconcile_record. destruct (pt_todo _ _ Hp rec) as [Hrec Hnone]; [constructor|].
  assert (∀ rec', rec' ∈ l → jr_ID rec' ≠ jr_ID rec) as Hne.
  { intros rec' Hin Heq. apply Hnd, list_elem_of_fmap. eauto. }
  assert (∀ id rec', e_journal e !! id = Some rec' → id ≠ jr_ID rec → rec' ≠ rec) as Hother.
  { intros id rec' Hrec' Hid ->. by destruct (recorded _ _ Hrec') as [? _]. }
  destruct (sy_verify sys (jr_Pid rec) (jr_FirecrackerBin rec)) eqn:Hv.
  - pose proof (adopt_exact _ _ _ Hp) as Hex. destruct (adopt_parts rec e1) as (Es & _ & _ & Ej). destruct Hp as [_ Htodo Hlive Hjr Hdone].
    split; [done|..]; rewrite ?Es.
    + intros rec' Hin. destruct (Htodo rec') as [? ?]; [by constructor|]. split; [done|]. rewrite lookup_insert_ne; [done|]. by apply not_eq_sym, Hne.
    + intros id sb [[<- <-]|[_ Hsb]]%lookup_insert_Some; [by exists rec|by apply Hlive].
    + intros id rec'. rewrite Ej, Hjr, elem_of_cons. destruct (decide (id = jr_ID rec)) as [->|Hid].
      * rewrite lookup_insert_eq, Hnone. split; [naive_solver|]. intros [Hrec' _]. split; [done|]. right. left. congruence.
      * rewrite lookup_insert_ne by done. naive_solver.
    + intros id rec' Hrec' Hn Hv'. destruct (decide (id = jr_ID rec)) as [->|Hid]; [by rewrite lookup_insert_eq|].
      rewrite lookup_insert_ne by done. apply (Hdone id rec'); [done| |done]. rewrite elem_of_cons. intros [->|?]; [|done]. by eapply Hother.
  - pose proof (reap_same _ _ _ Hp) as Hs. pose proof Hp as [Hex Htodo Hlive Hjr Hdone]. pose proof Hs as (Es & _ & _).
    assert (e_journal (reapArtifacts cfg rec e1) = e_journal e1) as Ej.
    { unfold reapArtifacts. destruct (_ && networkEnabled cfg) eqn:Hc; [|by case_match]. apply andb_true_iff in Hc as [_ Hc].
      unfold teardownForkNetwork. rewrite Hc. simpl. unfold on_host. destruct (mgr_Teardown _ _) as [r h]. simpl. by case_match. }
    unfold unjournalSandbox. rewrite (proj2 (proj2 Hsys)). split; simpl; rewrite ?Es, ?Ej.
    + by eapply exact_same.
    + intros rec' Hin. apply Htodo. by constructor.
    + done.
    + intros id rec'. destruct (decide (id = jr_ID rec)) as [->|Hid].
      * rewrite lookup_delete_eq, Hnone. split; [done|]. intros [Hrec' [[? ?]|Hin]]; [done|]. assert (rec' = rec) as -> by congruence. by destruct (Hne rec Hin).
      * rewrite lookup_delete_ne, Hjr, elem_of_cons by done. naive_solver.
    + intros id rec' Hrec' Hn Hv'. apply (Hdone id rec'); [done| |done]. rewrite elem_of_cons. intros [->|?]; [|done]. congruence.
Qed.

Lemma partial_fold l e1 : NoDup (jr_ID <$> l) → partial l e1 → partial [] (foldl (reconcile_record cfg sys) e1 l).
Proof.
  revert e1. induction l as [|rec l IH]; intros e1; [done|]. intros [Hn Hnd]%NoDup_cons Hp. apply IH; [done|]. by apply partial_step.
Qed.

Lemma NewEngine_partial : partial [] (NewEngine cfg a0 (Uids.NewUIDAllocator low high) sys e).
Proof.
  unfold NewEngine, reconcile, load. rewrite (proj1 Hsys).
  set (e0 := Build_Engine _ _ _ _ _ _ _ _ _ _ _). change (e_journal e0) with (e_journal e).
  assert (∀ l : list (string * sandboxRecord), filter (λ p, sy_read sys p.1 = true) l = l) as ->.
  { intros l. induction l as [|p l IH]; [done|]. rewrite filter_cons_True by apply Hsys. by rewrite IH. }
  assert (∀ rec, rec ∈ (map_range "journal.load" (e_journal e)).*2 ↔ e_journal e !! jr_ID rec = Some rec) as Hl.
  { intros rec. rewrite list_elem_of_fmap. split.
    - intros ([id rec'] & -> & Hin%elem_of_map_range). simpl. by destruct (recorded _ _ Hin) as [-> _].
    - intros Hrec. exists (jr_ID rec, rec). split; [done|]. by apply elem_of_map_range. }
  apply partial_fold.
  - assert (jr_ID <$> (map_range "journal.load" (e_journal e)).*2 = (map_range "journal.load" (e_journal e)).*1) as ->.
    { rewrite <- list_fmap_compose. apply list_fmap_ext. intros i [id rec] Hin. simpl.
      apply list_elem_of_lookup_2, elem_of_map_range in Hin. by destruct (recorded _ _ Hin). }
    apply NoDup_map_range.
  - destruct Hnew as (Ha & Hby & _). split; [by apply exact_new|..].
    + intros rec Hrec%Hl. done.
    + by intros id sb [=].
    + intros id rec. simpl. rewrite lookup_empty. split; [|naive_solver]. intros Hrec. split; [done|]. right. apply Hl.
      by destruct (recorded _ _ Hrec) as [-> _].
    + intros id rec Hrec Hn. destruct Hn. apply Hl. by destruct (recorded _ _ Hrec) as [-> _].
Qed.

(** The sandboxes that a restart leaves, each as its record has it. *)
Lemma NewEngine_live id :
  e_sandboxes (NewEngine cfg a0 (Uids.NewUIDAllocator low high) sys e) !! id =
  (rec ← e_journal e !! id; if sy_verify sys (jr_Pid rec) (jr_FirecrackerBin rec) then Some (adopted rec) else None).
Proof.
  destruct NewEngine_partial as [_ _ Hlive _ Hdone]. destruct (_ !! id) as [sb|] eqn:Hsb at 1.
  - destruct (Hlive _ _ Hsb) as (rec & Hrec & -> & Hv). by rewrite Hrec; simpl; rewrite Hv.
  - destruct (e_journal e !! id) as [rec|] eqn:Hrec; simpl; [|done]. destruct (sy_verify sys _ _) eqn:Hv; [|done].
    destruct (Hdone id rec Hrec) as [sb Hsb']; [set_solver|done|congruence].
Qed.

End recovery.

(** ** One call after another *)

Section alone.
Context {S : Type}.

(** What holds when [p], alone, has returned. *)
Definition ends {A} (p : prog S A) (Q : A → S → Prop) (s : S) : Prop := Q (Atomic.run p s).1 (Atomic.run p s).2.

Lemma ends_bind {A B} (p : prog S A) (k : A → prog S B) Q s : ends p (λ a s', ends (k a) Q s') s → ends (pbind p k) Q s.
Proof. unfold ends. rewrite run_bind. by destruct (Atomic.run p s). Qed.

Lemma ends_keeps {A} (I : S → Prop) (p : prog S A) (Q : A → S → Prop) s :
  keeps I p → I s → (∀ a s', I s' → Q a s') → ends p Q s.
Proof. intros Hp Hs HQ. apply HQ. by apply run_keeps. Qed.

Lemma ends_mono {A} (p : prog S A) (Q Q' : A → S → Prop) s : (∀ a s', Q a s' → Q' a s') → ends p Q s → ends p Q' s.
Proof. unfold ends. auto. Qed.

End alone.

Section sequential.
Context {unicode : Unicode} {sliceSort : SliceSort} {mapRange : MapRange} {K : Type} {manager : Manager K}.
Context (cfg : config).

(** The map of sandboxes and the journal are these. *)
Definition at_rest (m : gmap string Sandbox) (j : gmap string sandboxRecord) (e : Engine K) : Prop :=
  e_sandboxes e = m ∧ e_journal e = j ∧ alloc_ok (e_netAlloc e).

Lemma rest_acquire m j id e : at_rest m j e → at_rest m j (on_alloc (Netconf.Acquire id) e).2.
Proof.
  intros (Es & Ej & Ha). apply (Acquire_ok id) in Ha. unfold on_alloc. by destruct (Netconf.Acquire _ _).
Qed.

Lemma rest_free m j id e : at_rest m j e → at_rest m j (on_alloc (λ a, (tt, Release id a)) e).2.
Proof. intros (Es & Ej & Ha). split_and!; [done|done|]. by apply Release_ok. Qed.

Lemma rest_uids {A} m j (f : Uids.UIDAllocator → A * Uids.UIDAllocator) e : at_rest m j e → at_rest m j (on_uids f e).2.
Proof. unfold on_uids. by destruct (f _). Qed.

Lemma rest_host {A} m j (f : K → A * K) e : at_rest m j e → at_rest m j (on_host f e).2.
Proof. unfold on_host. by destruct (f _). Qed.

Lemma rest_admit m j e : at_rest m j e → at_rest m j (admitFork cfg e).2.
Proof. unfold admitFork. by repeat case_match. Qed.

Lemma rest_release m j e : at_rest m j e → at_rest m j (releaseReservation cfg e).2.
Proof. unfold releaseReservation. by repeat (case_match; simpl). Qed.

Create HintDb rest.
#[local] Hint Resolve rest_acquire rest_free rest_uids rest_host rest_admit rest_release : rest.

(** Every operation leaves them alone. *)
Ltac resting :=
  repeat first
    [ apply keeps_bind; [|intros]
    | apply keeps_bind_ok; [|intros]
    | apply keeps_op; intros; solve [eauto with rest | done]
    | exact Logic.I
    | done
    | case_match ].

Lemma keeps_teardown m j id i : keeps (at_rest m j) (teardownForkNetwork cfg id i).
Proof. unfold teardownForkNetwork. resting. Qed.

Lemma keeps_kill m j pid uid : keeps (at_rest m j) (Kill cfg pid uid).
Proof. unfold Kill. resting. Qed.

Lemma keeps_start m j bt : keeps (at_rest m j) (StartVM cfg bt).
Proof. unfold StartVM. resting. Qed.

Lemma keeps_prepare m j id opts : keeps (at_rest m j) (prepareForkNetwork cfg id opts).
Proof. unfold prepareForkNetwork. resting. Qed.

Lemma keeps_cleanup m j id pid uid fnet : keeps (at_rest m j) (cleanupFork cfg id pid uid fnet).
Proof. unfold cleanupFork. apply keeps_bind; [apply keeps_kill|]. intros _. destruct fnet; [apply keeps_teardown|done]. Qed.

(** A fork that succeeds adds a sandbox and, when it can write it, its record; one that
    fails adds nothing. *)
Definition added (written : bool) (m : gmap string Sandbox) (j : gmap string sandboxRecord) (id : string) (r : result fork_error Sandbox) (e : Engine K) : Prop :=
  match r with
  | Err _ => at_rest m j e
  | Ok sb => at_rest (<[id := sb]> m) (if written then <[id := record_of cfg sb]> j else j) e ∧ sb_ID sb = id ∧
      (networked sb = false → sb_netID sb = no_identity)
  end.

(** The identity of a fork, if there is one, has a tap. *)
Lemma prepare_tap id opts e :
  alloc_ok (e_netAlloc e) →
  match (Atomic.run (prepareForkNetwork cfg id opts) e).1 with Ok (Some i) => id_TapName i ≠ "" | _ => True end.
Proof.
  intros Ha. unfold prepareForkNetwork. destruct (fo_Network opts) as [n|]; [|done]. destruct (networkEnabled cfg); simpl; [|done].
  destruct (Allowlist.SplitAllowList _) as [[allow skipped]|]; [|done]. simpl. unfold on_alloc.
  pose proof (Acquire_spec _ id Ha) as Hsp. pose proof (Acquire_ok id _ Ha) as Hok.
  destruct (Netconf.Acquire id (e_netAlloc e)) as [[i|err] a]; simpl in *; [|done].
  assert (id_TapName i ≠ "") as Htap.
  { destruct Hsp as [Hby _]. assert (al_byID a !! id = Some i) as Hi by (rewrite Hby; apply lookup_insert_eq).
    destruct (held_blocks a id i Hok Hi) as (b & _ & _ & ->). apply block_tap. }
  unfold on_host. simpl. destruct (mgr_Setup _ _ _ _) as [[u|err] h]; simpl; [|done].
  rewrite run_bind_ok. destruct (Atomic.run _ _) as [[u'|err] e2]; [|done]. rewrite run_bind. by destruct (Atomic.run _ e2).
Qed.

Lemma body_ends snap id opts bt m j e :
  at_rest m j e → ends (fork_body cfg snap id opts bt) (added (bt_journal bt) m j id) e.
Proof.
  intros He. unfold fork_body. destruct (bt_snapshot bt); cbn [negb]; [|done]. unfold pbind_ok. apply ends_bind.
  eapply ends_keeps; [apply keeps_start|exact He|]. intros [[pid uid]|err] e1 H1; [|done]. apply ends_bind.
  pose proof (prepare_tap id opts e1 (proj2 (proj2 H1))) as Htap. unfold ends at 1.
  pose proof (run_keeps _ _ e1 (keeps_prepare m j id opts) H1) as H2.
  destruct (Atomic.run (prepareForkNetwork cfg id opts) e1) as [[fnet|err] e2]; cbn [fst snd] in *.
  2: { apply ends_bind. eapply ends_keeps; [apply keeps_kill|exact H2|]. done. }
  assert (∀ err, ends (do _ := cleanupFork cfg id pid uid fnet; Ret (Err err)) (added (bt_journal bt) m j id) e2) as Hfail.
  { intros err. apply ends_bind. eapply ends_keeps; [apply keeps_cleanup|exact H2|]. done. }
  destruct (bt_volumes bt); cbn [negb]; [|apply Hfail]. destruct (bt_load bt); cbn [negb]; [|apply Hfail].
  destruct (bt_rebind bt); cbn [negb]; [|apply Hfail]. destruct (bt_resume bt); cbn [negb]; [|apply Hfail].
  destruct H2 as (<- & <- & Ha). unfold ends. destruct (bt_journal bt); simpl; (split; [done|]; split; [done|]);
    unfold networked; simpl; (destruct fnet as [i|]; simpl; [|done]); by rewrite bool_decide_eq_false_2.
Qed.

Lemma fork_ends snap id opts bt reserved m j e :
  at_rest m j e → ends (fork cfg snap id opts bt reserved) (added (bt_journal bt) m j id) e.
Proof.
  intros He. unfold fork. destruct (safeSandboxIDComponent id); cbn [negb]; [|done]. unfold pbind_ok. apply ends_bind.
  eapply (ends_keeps (at_rest m j)); [destruct reserved; resting|done|]. intros [u|err] e1 H1; [|done].
  apply ends_bind. eapply ends_mono; [|by apply body_ends]. intros [sb|err] e2 H2; [done|].
  apply ends_bind. apply (ends_keeps (at_rest m j)); [resting|exact H2|done].
Qed.

Lemma Fork_ends snap id opts bt m j e :
  at_rest m j e → ends (Fork cfg snap id opts bt) (added (bt_journal bt) m j id) e.
Proof.
  intros He. unfold Fork. destruct (safeSandboxIDComponent snap); cbn [negb]; [|done]. destruct (safeSandboxIDComponent id); cbn [negb]; [|done].
  unfold pbind_ok. apply ends_bind. eapply (ends_keeps (at_rest m j)); [resting|done|]. intros [u|err] e1 H1; [|done].
  assert (∀ err, ends (do _ := op (releaseReservation cfg); Ret (Err err)) (added (bt_journal bt) m j id) e1) as Hr.
  { intros err. apply ends_bind. apply (ends_keeps (at_rest m j)); [resting|exact H1|done]. }
  destruct (bt_verified bt); cbn [negb]; [|apply Hr]. destruct (bt_compatible bt); cbn [negb]; [|apply Hr].
  destruct (bt_opened bt); cbn [negb]; [|apply Hr]. by apply fork_ends.
Qed.

Lemma ForkRunning_ends src id cp bt m j e :
  at_rest m j e → ends (ForkRunning cfg src id cp bt) (added (bt_journal bt) m j id) e.
Proof.
  intros He. unfold ForkRunning. apply ends_bind. eapply (ends_keeps (at_rest m j)); [apply keeps_rd|done|].
  intros [sb|] e1 H1; [|done]. destruct (_ && _); [done|]. destruct cp; cbn [negb]; [|done]. by apply fork_ends.
Qed.

Lemma Terminate_ends sys id m j e :
  at_rest m j e →
  ends (Terminate cfg sys id)
    (λ r e', match r with
             | Ok _ => at_rest (delete id m) (if sy_unlink sys id then delete id j else j) e'
             | Err _ => at_rest m j e'
             end) e.
Proof.
  intros He. unfold Terminate. destruct (safeSandboxIDComponent id); cbn [negb]; [|done]. apply ends_bind. unfold ends at 1. simpl.
  destruct He as (<- & <- & Ha). destruct (e_sandboxes e !! id) as [sb|] eqn:Hsb.
  2: { unfold ends. simpl. by rewrite delete_id. }
  apply ends_bind. eapply (ends_keeps (at_rest (delete id (e_sandboxes e)) (e_journal e))); [|done|].
  { destruct (sb_client sb); [apply keeps_kill|]. destruct (sb_adopted sb); [|done]. unfold reapAdopted. resting. }
  intros _ e1 H1. apply ends_bind. eapply ends_keeps; [|exact H1|].
  { destruct (bool_decide _); [done|apply keeps_teardown]. }
  intros _ e2 (E1 & E2 & Ha2). unfold ends, unjournalSandbox. simpl.
  destruct (sy_unlink sys id); split_and!; simpl; [done|by rewrite E2|done..].
Qed.

End sequential.


Section histories.
Context {unicode : Unicode} {sliceSort : SliceSort} {mapRange : MapRange} {K : Type} {manager : Manager K}.
Context (cfg : config) (cidr prefix : string) (a0 : Allocator) (low high : Z).
Hypothesis Halloc : NewAllocator cidr prefix = Ok a0.
Hypothesis Hrange : uid_range low high.

(** What happens to a node: a call, or forkd stops and starts again. *)
Inductive event := EvCall (c : call) | EvRestart (sys : system).

(** Forks use identifiers that are not live, and records are written, read and removed. *)
Definition in_order (ev : event) (e : Engine K) : Prop :=
  match ev with
  | EvCall (CFork _ id _ bt) | EvCall (CForkRunning _ id _ bt) => e_sandboxes e !! id = None ∧ bt_journal bt = true
  | EvCall (CTerminate sys id) => sy_unlink sys id = true
  | EvRestart sys => orderly sys
  end.

Definition happen (ev : event) (e : Engine K) : Engine K :=
  match ev with
  | EvCall c => (Atomic.run (prog_of cfg c) e).2
  | EvRestart sys => NewEngine cfg a0 (Uids.NewUIDAllocator low high) sys e
  end.

Inductive history (e : Engine K) : Engine K → Prop :=
| history_start : history e e
| history_event e' ev : history e e' → in_order ev e' → history e (happen ev e').

Abbreviation exact' := (exact (K := K) cfg a0 low high).

Lemma new_alloc : alloc_ok a0 ∧ al_byID a0 = ∅ ∧ al_idIndex a0 = ∅.
Proof. destruct (NewAllocator_ok _ _ _ Halloc) as (? & _ & _ & ? & _ & ?). done. Qed.

Lemma run_exact c e :
  exact' e → (∀ id, forked c = Some id → e_sandboxes e !! id = None) → exact' (Atomic.run (prog_of cfg c) e).2.
Proof.
  intros He Hfresh. pose proof He as [Hb Hn Hu]. clear Halloc. set (F := match forked c with Some id => {[id]} | None => ∅ end : gset string).
  assert (out cfg F e = start_token c) as Hout.
  { apply set_eq. intros x. rewrite elem_of_out. unfold F, start_token. destruct x as [id i|uid|id].
    - split; [|by destruct (forked c); set_solver]. intros [Hi Hsb]. destruct (Hn _ _ Hi). congruence.
    - split; [|by destruct (forked c); set_solver]. intros (Hj & Hin & Hno). destruct (Hu uid Hj Hin) as (id & sb & Hsb & Heq). by destruct (Hno id sb).
    - destruct (forked c) as [id'|]; [|set_solver]. rewrite !elem_of_singleton. split; [by intros [-> _]|]. intros [= ->].
      split_and!; [done| |by apply Hfresh]. destruct (al_byID (e_netAlloc e) !! id') eqn:Hi; [|done].
      destruct (Hn _ _ Hi) as [sb Hsb]. by rewrite Hfresh in Hsb. }
  destruct (owns_run (out cfg F) (books cfg a0 low high) (start_token c) (prog_of cfg c) (λ _, settled) e Hb) as (Hb' & t' & Ht' & Hd & Hs).
  - by rewrite Hout.
  - apply call_owns; [done|]. unfold F. intros id ->. set_solver.
  - apply (exact_out cfg a0 low high F); [done|]. intros x Hx. apply Hs. rewrite Hout, difference_diag_L in Hd. set_solver.
Qed.

Lemma journaled_added id r (e e' : Engine K) :
  journaled cfg e → added cfg true (e_sandboxes e) (e_journal e) id r e' → journaled cfg e'.
Proof.
  intros Hj Hr id'. destruct r as [sb|err]; simpl in Hr.
  - destruct Hr as ((-> & -> & _) & Hid & Hnet). destruct (decide (id' = id)) as [->|Hne].
    + rewrite !lookup_insert_eq. repeat split; done.
    + rewrite !lookup_insert_ne by done. apply Hj.
  - destruct Hr as (-> & -> & _). apply Hj.
Qed.

Lemma run_discard {A B} (p : prog (Engine K) A) (b : B) (e : Engine K) : (Atomic.run (do _ := p; Ret b) e).2 = (Atomic.run p e).2.
Proof. rewrite run_bind. by destruct (Atomic.run p e). Qed.

Lemma run_journaled c e :
  exact' e → journaled cfg e → in_order (EvCall c) e → journaled cfg (Atomic.run (prog_of cfg c) e).2.
Proof.
  intros He Hj Ho. assert (at_rest (e_sandboxes e) (e_journal e) e) as Hr by (split_and!; [done..|apply He]).
  destruct c as [snap id opts bt|src id cp bt|sys id]; simpl in *; rewrite run_discard.
  - eapply journaled_added; [done|]. pose proof (Fork_ends cfg snap id opts bt _ _ e Hr) as Ha.
    unfold ends in Ha. rewrite (proj2 Ho) in Ha. exact Ha.
  - eapply journaled_added; [done|]. pose proof (ForkRunning_ends cfg src id cp bt _ _ e Hr) as Ha.
    unfold ends in Ha. rewrite (proj2 Ho) in Ha. exact Ha.
  - pose proof (Terminate_ends cfg sys id _ _ e Hr) as Ht. unfold ends in Ht. intros id'.
    rewrite Ho in Ht. destruct (Atomic.run _ e) as [[u|err] e']; simpl in *; destruct Ht as (-> & -> & _); [|apply Hj].
    destruct (decide (id' = id)) as [->|Hne]; [by rewrite !lookup_delete_eq|]. rewrite !lookup_delete_ne by done. apply Hj.
Qed.

Lemma restart_journaled sys e :
  orderly sys → exact' e → journaled cfg e → journaled cfg (NewEngine cfg a0 (Uids.NewUIDAllocator low high) sys e).
Proof.
  intros Hsys He Hj id. destruct (NewEngine_partial cfg a0 low high sys new_alloc Hrange Hsys e He Hj) as [_ _ Hlive Hjr _].
  destruct (e_sandboxes (NewEngine _ _ _ _ _) !! id) as [sb|] eqn:Hsb.
  - destruct (Hlive _ _ Hsb) as (rec & Hrec & -> & _). rewrite (proj2 (Hjr id rec)) by (rewrite Hsb; split; [done|left; eauto]).
    pose proof (Hj id) as Hid. rewrite Hrec in Hid. destruct (e_sandboxes e !! id) as [sb|] eqn:Hsb0; [|done].
    destruct Hid as (Hid & Hno & Hd & Hbin). pose proof Hd as (E1 & _ & _ & _ & _ & En & _).
    split; [simpl; congruence|]. rewrite (networked_adopted _ _ Hd). destruct (networked sb) eqn:Hnw.
    + split; [done|]. destruct (netID_adopted cfg a0 low high e He id rec sb Hsb0 Hd Hnw) as (b & _ & _ & Hb & Ha).
      repeat split; try done. by rewrite En, Hb, Ha.
    + specialize (Hno eq_refl). rewrite Hno in En. split; [intros _; simpl; by rewrite En|]. repeat split; try done. simpl. by rewrite En.
  - destruct (e_journal (NewEngine _ _ _ _ _) !! id) as [rec|] eqn:Hrec; [|done].
    apply Hjr in Hrec as [_ [[sb Hsb']|Hin]]; [congruence|by apply not_elem_of_nil in Hin].
Qed.

Lemma history_exact e e' : exact' e → journaled cfg e → history e e' → exact' e' ∧ journaled cfg e'.
Proof.
  intros He Hj. induction 1 as [|e' ev _ [IH1 IH2] Ho]; [done|]. destruct ev as [c|sys]; simpl.
  - split; [|by apply run_journaled]. apply run_exact; [done|]. intros id. destruct c; simpl in *; intros [= <-]; apply Ho.
  - split; [|by apply restart_journaled]. apply (NewEngine_partial cfg a0 low high sys new_alloc Hrange Ho e' IH1 IH2).
Qed.

(** C13: Over the life of a node, through any sequence of forks under identifiers that are
    not live (with any failures), live forks, terminations and restarts of forkd, one after
    the other, in which the journal can be read and written, the journal describes exactly
    the live sandboxes, the allocators hold exactly what these have, and no two of them
    share an address block or a uid.  A restart brings back exactly the sandboxes whose
    recorded process is verified, each with its process, port, uid and network identity,
    and frees what the others had. *)
Theorem node_recovers e e' sys :
  e_sandboxes e = ∅ → e_journal e = ∅ → e_netAlloc e = a0 → e_uids e = Uids.NewUIDAllocator low high →
  history e e' → orderly sys →
  let e'' := NewEngine cfg a0 (Uids.NewUIDAllocator low high) sys e' in
  (journaled cfg e' ∧ exact' e' ∧ separate cfg e') ∧ (journaled cfg e'' ∧ exact' e'' ∧ separate cfg e'') ∧
  ∀ id, match e_sandboxes e' !! id, e_sandboxes e'' !! id with
        | Some sb, Some sb' =>
            sy_verify sys (sb_Pid sb) (c_firecrackerBin cfg) = true ∧ sb_Pid sb' = sb_Pid sb ∧ sb_Port sb' = sb_Port sb ∧
            sb_jailedUID sb' = sb_jailedUID sb ∧ sb_netID sb' = sb_netID sb
        | Some sb, None => sy_verify sys (sb_Pid sb) (c_firecrackerBin cfg) = false
        | None, Some _ => False
        | None, None => True
        end.
Proof.
  intros Es Ej Ea Eu Hh Hsys. destruct new_alloc as (Ha & Hby & _).
  destruct (history_exact e e') as [He Hj]; [by apply exact_new|intros id; by rewrite Es, Ej, !lookup_empty|done|].
  pose proof (NewEngine_partial cfg a0 low high sys new_alloc Hrange Hsys e' He Hj) as Hp. cbv zeta.
  split; [split_and!; [done|done|apply (books_separate _ a0 low high), He]|].
  split; [split_and!; [by apply restart_journaled|apply Hp|apply (books_separate _ a0 low high), Hp]|]. intros id.
  rewrite (NewEngine_live cfg a0 low high sys new_alloc Hrange Hsys e' He Hj id). pose proof (Hj id) as Hid.
  destruct (e_sandboxes e' !! id) as [sb|] eqn:Hsb, (e_journal e' !! id) as [rec|] eqn:Hrec; simpl; [|done..].
  destruct Hid as (_ & Hno & Hd & Hbin). pose proof Hd as (_ & _ & Hport & Hpid & Huid & Hn & _). rewrite Hbin, Hpid.
  destruct (sy_verify sys _ _) eqn:Hv; [|done]. split_and!; [done..|].
  destruct (networked sb) eqn:Hnw; [|simpl; by rewrite Hn, Hno].
  by destruct (netID_adopted cfg a0 low high e' He id rec sb Hsb Hd Hnw) as (b & _ & _ & -> & Hb).
Qed.

End histories.

(** ** Examples *)

Definition ex_life : list event := [
  EvCall (CFork "snap" "a" with_network (boots 11));
  EvCall (CFork "snap" "b" with_network (fails_load 12));
  EvCall (CFork "snap" "c" with_network (boots 13)) ].

(** A system on which these processes run, and nothing fails. *)
Definition running (alive : Z → string → bool) : system :=
  {| sy_verify := alive; sy_unlink := λ _, true; sy_readdir := true; sy_read := λ _, true |}.

Definition lived {K} `{!Manager K} (a0 : Allocator) (evs : list event) (e : Engine K) : Engine K :=
  foldl (λ e ev, happen ex_config a0 30000 30003 ev e) e evs.

Lemma node_recovers_witness :
  let e' := lived ex_alloc ex_life ex_node in
  let e'' := NewEngine ex_config ex_alloc (Uids.NewUIDAllocator 30000 30003) (running (λ pid _, pid =? 13)) e' in
  (journaled ex_config e'' ∧ exact ex_config ex_alloc 30000 30003 e'' ∧ separate ex_config e'') ∧
  (λ sb, (sb_jailedUID sb, IP_String (id_GuestIP (sb_netID sb)))) <$> e_sandboxes e'' = {["c" := (30002, "10.200.0.10")]}.
Proof.
  intros e' e''. split.
  - assert (history ex_config ex_alloc 30000 30003 ex_node e') as Hh.
    { unfold e', lived, ex_life. cbn [foldl]. repeat (apply history_event; [|split; vm_compute; reflexivity]). apply history_start. }
    destruct (node_recovers ex_config "10.200.0.0/16" "sbtap" ex_alloc 30000 30003 ex_alloc_new ltac:(unfold uid_range; lia)
      ex_node e' (running (λ pid _, pid =? 13)) eq_refl eq_refl eq_refl eq_refl Hh) as (_ & H & _); [by split_and!|]. exact H.
  - vm_compute. reflexivity.
Defined.

(** *** What goes wrong outside these conditions *)

(** A subnet of two blocks. *)
Definition two_blocks : Allocator := {|
  al_cidr := "10.200.0.0/29"; al_base := 180879360; al_count := 2; al_prefix := "sbtap"; al_next := 0;
  al_byID := ∅; al_inUse := ∅; al_idIndex := ∅ |}.

Example two_blocks_new : NewAllocator "10.200.0.0/29" "sbtap" = Ok two_blocks.
Proof. vm_compute. reflexivity. Qed.

(** The live sandboxes with their addresses and uids. *)
Definition guests (e : Engine unit) : list (string * string * Z) :=
  (λ '(id, sb), (id, IP_String (id_GuestIP (sb_netID sb)), sb_jailedUID sb)) <$> map_to_list (e_sandboxes e).

(** No check refuses a fork under the identifier of a live sandbox.  When such a fork
    fails, its clean-up frees the identity of the live one, and a later sandbox is given
    the same address. *)
Example duplicate_fork_frees_identity :
  guests (lived two_blocks [
    EvCall (CFork "snap" "a" with_network (boots 11));
    EvCall (CFork "snap" "a" with_network (fails_load 12));
    EvCall (CFork "snap" "b" with_network (boots 13));
    EvCall (CTerminate (running (λ _ _, true)) "b");
    EvCall (CFork "snap" "c" with_network (boots 14))] (with_alloc two_blocks ex_node)) =
  [("c", "10.200.0.2", 30003); ("a", "10.200.0.2", 30000)].
Proof. vm_compute. reflexivity. Qed.

(** A start whose record cannot be written. *)
Definition unwritten (pid : Z) : boot := {|
  bt_verified := true; bt_compatible := true; bt_opened := true; bt_snapshot := true; bt_checked := true;
  bt_launch := Some pid; bt_volumes := true; bt_load := true; bt_rebind := true; bt_resume := true; bt_journal := false |}.

(** Without its record a machine is forgotten by a restart although it runs, and the next
    one is given its address and its uid. *)
Example unwritten_record_shares :
  guests (lived ex_alloc [EvCall (CFork "snap" "a" with_network (unwritten 11))] ex_node) = [("a", "10.200.0.2", 30000)] ∧
  guests (lived ex_alloc [EvCall (CFork "snap" "a" with_network (unwritten 11)); EvRestart (running (λ pid _, pid =? 11));
                          EvCall (CFork "snap" "b" with_network (boots 12))] ex_node) = [("b", "10.200.0.2", 30000)].
Proof. vm_compute. split; reflexivity. Qed.

(** The process table with one firecracker, and a binary that is installed elsewhere. *)
Definition ex_proc (pid : Z) : option proc_entry :=
  if pid =? 11 then Some {| pe_exe := Some "/srv/jail/b/root/firecracker"; pe_comm := Some "firecracker" |} else None.

(** An adopted machine has died and its pid is now the one of another machine: terminating
    the first kills the second, since the check of the process only looks at the name of
    its binary. *)
Example recycled_pid_kills_another :
  let sys := running (procfsVerifier ex_proc Some) in
  let e := lived ex_alloc [EvCall (CFork "snap" "a" with_network (boots 11)); EvRestart sys;
                           EvCall (CFork "snap" "b" with_network (boots 11));
                           EvCall (CTerminate sys "a")] ex_node in
  e_signals e = [11] ∧ sb_Pid <$> e_sandboxes e !! "b" = Some 11.
Proof. vm_compute. split; reflexivity. Qed.

(** A sandbox that is terminated before its record is written leaves the record behind.
    Its uid goes to another sandbox; after a restart the stale record is reaped after that
    one was adopted, and frees the uid a second time. *)
Definition stale_record : Engine unit :=
  let one_uid := with_uids (Uids.NewUIDAllocator 30000 30000) ex_node in
  let fork := prog_of ex_config (CFork "snap" "d" no_network (boots 11)) in
  let stop := prog_of ex_config (CTerminate (running (λ _ _, true)) "d") in
  let c := Atomic.schedule ([inl fork] ++ replicate 4 (inr 0%nat) ++ [inl stop] ++ replicate 6 (inr 0%nat) ++ replicate 4 (inr 1%nat))
             (one_uid, []) in
  let e1 := (Atomic.run (prog_of ex_config (CFork "snap" "b" no_network (boots 12))) c.1).2 in
  let e2 := NewEngine ex_config ex_alloc (Uids.NewUIDAllocator 30000 30000) (running (λ pid _, pid =? 12)) e1 in
  (Atomic.run (prog_of ex_config (CFork "snap" "c" no_network (boots 13))) e2).2.

Example stale_record_frees_uid :
  (λ sb, sb_jailedUID sb) <$> e_sandboxes stale_record = {["b" := 30000; "c" := 30000]}.
Proof. vm_compute. reflexivity. Qed.

(** The same comes of a record that could not be removed. *)
Definition immovable : system :=
  {| sy_verify := λ pid _, pid =? 12; sy_unlink := λ _, false; sy_readdir := true; sy_read := λ _, true |}.

Example unremoved_record_frees_uid :
  let one_uid := with_uids (Uids.NewUIDAllocator 30000 30000) ex_node in
  let call c e := (Atomic.run (prog_of ex_config c) e).2 in
  let e1 := call (CFork "snap" "b" no_network (boots 12)) (call (CTerminate immovable "d")
              (call (CFork "snap" "d" no_network (boots 11)) one_uid)) in
  let e2 := NewEngine ex_config ex_alloc (Uids.NewUIDAllocator 30000 30000) immovable e1 in
  (λ sb, sb_jailedUID sb) <$> e_sandboxes (call (CFork "snap" "c" no_network (boots 13)) e2) = {["b" := 30000; "c" := 30000]}.
Proof. vm_compute. reflexivity. Qed.

End RecoveryTheorems.
