(* ===== verification/Preview.v ===== *)
(** * internal/preview: links, sessions, grants, routes and who may pass

    sign.go, session.go, grant.go, route.go, authz.go and url.go.  Secrets are strings;
    the clock's readings and the bytes of [rand.Read] are arguments.  The nonces a grant
    signer has seen are explicit state. *)

From Stdlib Require Import Ascii.
From S2P Require Import Prelude Sha256 Json Base64 GoStrings GoNet GoUrl.
Import Sha256 Json GoStrings GoNet GoUrl.

Module Preview.

(** ** Times as Unix seconds *)

(** From the zero time to January 1, 1970. *)
Definition unix_epoch : Z := 62135596800.

Definition Unix (t : Z) : Z := int64 (t / second - unix_epoch).
Definition time_Unix (sec : Z) : Z := int64 (sec + unix_epoch) * second.

(** ** Signed values

    The three kinds of token share their wire form: the payload and the tag of the
    payload, each in base64, with a dot between them. *)

Inductive token_error :=
| ErrShortSecret | ErrEmptyID | ErrPort | ErrEmptyLabel | ErrRand
| ErrMalformed | ErrMalformedSignature | ErrSignature | ErrMalformedPayload | ErrExpired
| ErrLabel | ErrUsed.

Definition minSecretLen : Z := 16.

(** [NewSigner], [NewSessionCodec] and [NewGrantSigner] keep a copy of the secret. *)
Definition new_secret (secret : string) : result token_error string :=
  if Z.of_nat (String.length secret) <? minSecretLen then Err ErrShortSecret else Ok secret.

Definition nul : string := String "000" "".
Definition domainTag : string := "mitos-preview-v1" +:+ nul.
Definition sessionDomainTag : string := "mitos-expose-session-v1" +:+ nul.
Definition grantDomainTag : string := "mitos-expose-grant-v1" +:+ nul.

Definition tag (secret encPayload : string) : string := hmac_sha256 secret (domainTag +:+ encPayload).
Definition sessionTag (secret encPayload : string) : string := hmac_sha256 secret (sessionDomainTag +:+ encPayload).
Definition grantTag (secret encPayload : string) : string := hmac_sha256 secret (grantDomainTag +:+ encPayload).

Definition seal (mac : string → string) (raw : string) : string :=
  let encPayload := Base64.EncodeToString raw in
  encPayload +:+ "." +:+ Base64.EncodeToString (mac encPayload).

Definition splitToken (token : string) : option (string * string) :=
  '(payloadPart, sigPart) ← Cut token ".";
  if bool_decide (payloadPart = "") || bool_decide (sigPart = "") || contains_char sigPart "." then None
  else Some (payloadPart, sigPart).

Definition unseal (mac : string → string) (token : string) : result token_error string :=
  match splitToken token with
  | None => Err ErrMalformed
  | Some (encPayload, encTag) =>
      match Base64.DecodeString encTag with
      | None => Err ErrMalformedSignature
      | Some gotTag =>
          if negb (bool_decide (gotTag = mac encPayload)) then Err ErrSignature
          else match Base64.DecodeString encPayload with
               | None => Err ErrMalformedPayload
               | Some raw => Ok raw
               end
      end
  end.

(** [json.Unmarshal] into a struct, of a sealed value. *)
Definition unmarshal {A} (names : list string) (set : string → json → A → option A) (zero : A) (raw : string) :
    result token_error A :=
  match v ← parse raw; into_struct names set zero v with Some a => Ok a | None => Err ErrMalformedPayload end.

Definition into_bool (cur : bool) (v : json) : option bool :=
  match v with JBool b => Some b | JNull => Some cur | _ => None end.

(** ** Preview links *)

Record Claims := { SandboxID : string; Port : Z; ExpiresAt : Z }.

(** The expiry is in seconds. *)
Record payload := { pl_SandboxID : string; pl_Port : Z; pl_ExpiresAt : Z }.

Definition payload_json (pl : payload) : json :=
  JObj [("s", JStr (pl_SandboxID pl)); ("p", JNum (fmt_int (pl_Port pl))); ("e", JNum (fmt_int (pl_ExpiresAt pl)))].

Definition set_payload (n : string) (v : json) (pl : payload) : option payload :=
  if bool_decide (n = "s") then
    x ← into_string (pl_SandboxID pl) v;
    Some {| pl_SandboxID := x; pl_Port := pl_Port pl; pl_ExpiresAt := pl_ExpiresAt pl |}
  else if bool_decide (n = "p") then
    x ← into_int64 (pl_Port pl) v;
    Some {| pl_SandboxID := pl_SandboxID pl; pl_Port := x; pl_ExpiresAt := pl_ExpiresAt pl |}
  else
    x ← into_int64 (pl_ExpiresAt pl) v;
    Some {| pl_SandboxID := pl_SandboxID pl; pl_Port := pl_Port pl; pl_ExpiresAt := x |}.

Definition zero_payload : payload := {| pl_SandboxID := ""; pl_Port := 0; pl_ExpiresAt := 0 |}.

Definition Mint (secret sandboxID : string) (port expiresAt : Z) : result token_error string :=
  if bool_decide (sandboxID = "") then Err ErrEmptyID
  else if (port <? 1) || (65535 <? port) then Err ErrPort
  else
    Ok (seal (tag secret)
             (render (payload_json {| pl_SandboxID := sandboxID; pl_Port := port; pl_ExpiresAt := Unix expiresAt |}))).

Definition VerifyAt (secret token : string) (now : Z) : result token_error Claims :=
  let? raw := unseal (tag secret) token in
  let? pl := unmarshal ["s"; "p"; "e"] set_payload zero_payload raw in
  let exp := time_Unix (pl_ExpiresAt pl) in
  if exp <? now then Err ErrExpired
  else Ok {| SandboxID := pl_SandboxID pl; Port := pl_Port pl; ExpiresAt := exp |}.

(** The link a caller dials.  The host is not escaped: identifiers and domains have no
    character that a host escapes. *)
Inductive url_error := ErrEmptyDomain | ErrMint (e : token_error).

Definition MintURL (secret domain sandboxID : string) (port expiresAt : Z) : result url_error string :=
  if bool_decide (domain = "") then Err ErrEmptyDomain
  else match Mint secret sandboxID port expiresAt with
       | Err e => Err (ErrMint e)
       | Ok tok => Ok ("https://" +:+ sandboxID +:+ "." +:+ domain +:+ "/?" +:+ Encode {["token" := [tok]]})
       end.

(** ** Sessions *)

Record Identity := { Sub : string; Email : string; EmailVerified : bool; OrgIDs : list string }.

Definition zero_identity : Identity := {| Sub := ""; Email := ""; EmailVerified := false; OrgIDs := [] |}.

(** The members of an identity; an empty list of organizations is left out. *)
Definition identity_members (id : Identity) : list (string * json) :=
  [("sub", JStr (Sub id)); ("email", JStr (Email id)); ("email_verified", JBool (EmailVerified id))] ++
  (if bool_decide (OrgIDs id = []) then [] else [("org_ids", JArr (JStr <$> OrgIDs id))]).

Definition identity_fields : list string := ["sub"; "email"; "email_verified"; "org_ids"].

Definition set_identity (n : string) (v : json) (id : Identity) : option Identity :=
  if bool_decide (n = "sub") then
    x ← into_string (Sub id) v;
    Some {| Sub := x; Email := Email id; EmailVerified := EmailVerified id; OrgIDs := OrgIDs id |}
  else if bool_decide (n = "email") then
    x ← into_string (Email id) v;
    Some {| Sub := Sub id; Email := x; EmailVerified := EmailVerified id; OrgIDs := OrgIDs id |}
  else if bool_decide (n = "email_verified") then
    x ← into_bool (EmailVerified id) v;
    Some {| Sub := Sub id; Email := Email id; EmailVerified := x; OrgIDs := OrgIDs id |}
  else
    x ← into_list (into_string "") (OrgIDs id) v;
    Some {| Sub := Sub id; Email := Email id; EmailVerified := EmailVerified id; OrgIDs := x |}.

Record sessionPayload := { sp_id : Identity; sp_Exp : Z }.

Definition session_json (pl : sessionPayload) : json :=
  JObj (identity_members (sp_id pl) ++ [("exp", JNum (fmt_int (sp_Exp pl)))]).

Definition set_session (n : string) (v : json) (pl : sessionPayload) : option sessionPayload :=
  if bool_decide (n = "exp") then x ← into_int64 (sp_Exp pl) v; Some {| sp_id := sp_id pl; sp_Exp := x |}
  else x ← set_identity n v (sp_id pl); Some {| sp_id := x; sp_Exp := sp_Exp pl |}.

Definition zero_session : sessionPayload := {| sp_id := zero_identity; sp_Exp := 0 |}.

Definition Encode_session (secret : string) (id : Identity) (expiresAt : Z) : string :=
  seal (sessionTag secret) (render (session_json {| sp_id := id; sp_Exp := Unix expiresAt |})).

Definition Decode (secret value : string) (now : Z) : result token_error Identity :=
  let? raw := unseal (sessionTag secret) value in
  let? pl := unmarshal (identity_fields ++ ["exp"]) set_session zero_session raw in
  if time_Unix (sp_Exp pl) <? now then Err ErrExpired else Ok (sp_id pl).

Definition SessionCookieName : string := "__Host-mitos_expose".

(** The cookies the handlers set are all secure, for HTTP only, with the path / and no
    domain. *)
Record Cookie := { ck_Name : string; ck_Value : string; ck_MaxAge : Z }.

(** [ttl] is a whole number of seconds. *)
Definition NewSessionCookie (value : string) (ttl : Z) : Cookie :=
  {| ck_Name := SessionCookieName; ck_Value := value; ck_MaxAge := ttl / second |}.

(** ** Grants *)

Record grantPayload := { gp_Label : string; gp_id : Identity; gp_Exp : Z; gp_Nonce : string }.

Definition grant_json (pl : grantPayload) : json :=
  JObj ([("label", JStr (gp_Label pl))] ++ identity_members (gp_id pl) ++
        [("exp", JNum (fmt_int (gp_Exp pl))); ("nonce", JStr (gp_Nonce pl))]).

Definition set_grant (n : string) (v : json) (pl : grantPayload) : option grantPayload :=
  if bool_decide (n = "label") then
    x ← into_string (gp_Label pl) v;
    Some {| gp_Label := x; gp_id := gp_id pl; gp_Exp := gp_Exp pl; gp_Nonce := gp_Nonce pl |}
  else if bool_decide (n = "exp") then
    x ← into_int64 (gp_Exp pl) v;
    Some {| gp_Label := gp_Label pl; gp_id := gp_id pl; gp_Exp := x; gp_Nonce := gp_Nonce pl |}
  else if bool_decide (n = "nonce") then
    x ← into_string (gp_Nonce pl) v;
    Some {| gp_Label := gp_Label pl; gp_id := gp_id pl; gp_Exp := gp_Exp pl; gp_Nonce := x |}
  else
    x ← set_identity n v (gp_id pl);
    Some {| gp_Label := gp_Label pl; gp_id := x; gp_Exp := gp_Exp pl; gp_Nonce := gp_Nonce pl |}.

Definition grant_fields : list string := ["label"] ++ identity_fields ++ ["exp"; "nonce"].

Definition zero_grant : grantPayload := {| gp_Label := ""; gp_id := zero_identity; gp_Exp := 0; gp_Nonce := "" |}.

(** [rnd] is what [rand.Read] delivered. *)
Definition Mint_grant (secret : string) (rnd : option string) (label : string) (id : Identity) (expiresAt : Z) :
    result token_error string :=
  if bool_decide (label = "") then Err ErrEmptyLabel
  else match rnd with
       | None => Err ErrRand
       | Some nonceBuf =>
           Ok (seal (grantTag secret)
                    (render (grant_json {| gp_Label := label; gp_id := id; gp_Exp := Unix expiresAt;
                                           gp_Nonce := Base64.EncodeToString nonceBuf |})))
       end.

(** The nonces seen, with their expiries. *)
Abbreviation nonces := (gmap string Z).

Definition evict (now : Z) (used : nonces) : nonces := filter (λ kv, now ≤ kv.2) used.

Definition Verify_grant (secret token label : string) (now : Z) (used : nonces) : result token_error Identity * nonces :=
  match (let? raw := unseal (grantTag secret) token in unmarshal grant_fields set_grant zero_grant raw) with
  | Err e => (Err e, used)
  | Ok pl =>
      let exp := time_Unix (gp_Exp pl) in
      if exp <? now then (Err ErrExpired, used)
      else if negb (bool_decide (gp_Label pl = label)) then (Err ErrLabel, used)
      else if bool_decide (is_Some (used !! gp_Nonce pl)) then (Err ErrUsed, used)
      else (Ok (gp_id pl), evict now (<[gp_Nonce pl := exp]> used))
  end.

End Preview.
