(* ===== verification/PreviewTheorems.v ===== *)
(** * Preview tokens: theorems

    What is signed is accepted until it expires, and nothing else is; a token of one kind
    is none of another; a grant is redeemed once. *)

From Stdlib Require Import Ascii.
From S2P Require Import Prelude Sha256 Json Base64 GoStrings GoNet GoUrl Preview.
Import Sha256 Json Base64 GoStrings GoStringsTheorems GoNet GoUrl GoUrlTheorems Preview.

Module PreviewTheorems.

(** ** The wire form *)

Definition base64_char (c : ascii) : bool := contains_char Base64.alphabet c.

Lemma EncodeToString_chars s : Forall (λ c, base64_char c = true) (chars (Base64.EncodeToString s)).
Proof.
  unfold Base64.EncodeToString. rewrite String.list_ascii_of_string_of_list_ascii. apply Forall_fmap.
  destruct (Base64.decode_encode (length (bytes_of s)) (bytes_of s)) as [_ H]; [done|apply bytes_of_range|].
  eapply Forall_impl; [exact H|]. intros z Hz. cbv beta in Hz |- *.
  assert (Forall (λ z, base64_char (Base64.digit z) = true) (seqZ 0 64)) as Hall by (by repeat constructor).
  rewrite Forall_forall in Hall. apply Hall, elem_of_seqZ. lia.
Qed.

Lemma EncodeToString_free s c : base64_char c = false → c ∉ chars (Base64.EncodeToString s).
Proof. intros Hc Hin. pose proof (EncodeToString_chars s) as H. rewrite Forall_forall in H. specialize (H c Hin). congruence. Qed.

Lemma EncodeToString_nonempty s : s ≠ "" → Base64.EncodeToString s ≠ "".
Proof. intros Hs H%(f_equal Base64.DecodeString). rewrite Base64.base64_roundtrip in H. by injection H. Qed.

Lemma hmac_nonempty k m : hmac_sha256 k m ≠ "".
Proof. unfold hmac_sha256. intros H%(f_equal String.length). rewrite length_string_of_bytes, length_sum_bytes in H. done. Qed.

Lemma splitToken_spec token p t :
  splitToken token = Some (p, t) ↔ token = p +:+ "." +:+ t ∧ p ≠ "" ∧ t ≠ "" ∧ ("."%char ∉ chars p) ∧ ("."%char ∉ chars t).
Proof.
  unfold splitToken. rewrite bind_Some. split.
  - intros ([p' t'] & (Hp & ->)%Cut_spec & H). destruct (bool_decide (p' = "")) eqn:E1; [done|].
    destruct (bool_decide (t' = "")) eqn:E2; [done|]. simpl in H. destruct (contains_char t' ".") eqn:E3; [done|].
    rewrite bool_decide_eq_false in E1, E2. apply contains_char_false in E3. by injection H as -> ->.
  - intros (-> & Hp & Ht & Hdp & Hdt). exists (p, t). split; [by apply Cut_spec|].
    by rewrite !bool_decide_eq_false_2, (proj2 (contains_char_false _ _)).
Qed.

(** What is accepted carries the tag of its payload. *)
Lemma unseal_ok mac token raw : unseal mac token = Ok raw ↔
  ∃ p t, splitToken token = Some (p, t) ∧ Base64.DecodeString t = Some (mac p) ∧ Base64.DecodeString p = Some raw.
Proof.
  unfold unseal. destruct (splitToken token) as [[p t]|]; [|naive_solver].
  destruct (Base64.DecodeString t) as [got|] eqn:Et; [|naive_solver]. case_bool_decide as Hm; simpl; [|naive_solver].
  subst got. destruct (Base64.DecodeString p) eqn:Ep; naive_solver.
Qed.

Lemma unseal_seal mac raw : raw ≠ "" → (∀ p, mac p ≠ "") → unseal mac (seal mac raw) = Ok raw.
Proof.
  intros Hr Hm. apply unseal_ok. unfold seal. eexists _, _. rewrite !Base64.base64_roundtrip. split; [|done].
  apply splitToken_spec. split_and!; auto using EncodeToString_nonempty; by apply EncodeToString_free.
Qed.

(** ** The payloads *)

Definition identity_ok (id : Identity) : Prop :=
  ascii_only (Sub id) = true ∧ ascii_only (Email id) = true ∧ Forall (λ s, ascii_only s = true) (OrgIDs id).

#[global] Instance identity_ok_dec id : Decision (identity_ok id).
Proof. unfold identity_ok. apply _. Defined.

Lemma into_strings cur l : into_list (into_string "") cur (JArr (JStr <$> l)) = Some l.
Proof.
  change (JStr <$> l) with (map JStr l). rewrite (into_list_map (into_string "") JStr (λ s, s)) by (by apply Forall_forall).
  by rewrite map_id.
Qed.

Ltac members := repeat (progress (closed_fields; cbn [mbind option_bind foldl app sp_id sp_Exp gp_Label gp_id gp_Exp gp_Nonce];
  unfold set_payload, set_session, set_grant, set_identity;
  closed_fields; cbn [into_string into_bool mbind option_bind]; rewrite ?into_int64_fmt, ?into_strings by done)).

Lemma wf_members id : identity_ok id → Forall (λ kv, ascii_only kv.1 = true ∧ wf kv.2) (identity_members id).
Proof.
  intros (Hs & He & Ho). unfold identity_members. apply Forall_app. split; [by repeat constructor|].
  case_bool_decide; [constructor|]. constructor; [|constructor]. split; [done|]. constructor. apply Forall_fmap.
  eapply Forall_impl; [exact Ho|]. intros x Hx. by constructor.
Qed.

Lemma unmarshal_payload pl : is_int64 (pl_Port pl) → is_int64 (pl_ExpiresAt pl) →
  into_struct ["s"; "p"; "e"] set_payload zero_payload (payload_json pl) = Some pl.
Proof. intros Hp He. unfold into_struct, payload_json. members. by destruct pl. Qed.

Lemma unmarshal_session pl : is_int64 (sp_Exp pl) →
  into_struct (identity_fields ++ ["exp"]) set_session zero_session (session_json pl) = Some pl.
Proof.
  intros He. unfold into_struct, session_json, identity_members. destruct pl as [[su em ev orgs] exp].
  cbn [sp_id sp_Exp Sub Email EmailVerified OrgIDs] in *. case_bool_decide as Ho; members; [by subst orgs|done].
Qed.

Lemma unmarshal_grant pl : is_int64 (gp_Exp pl) →
  into_struct grant_fields set_grant zero_grant (grant_json pl) = Some pl.
Proof.
  intros He. unfold into_struct, grant_json, identity_members. destruct pl as [l [su em ev orgs] exp n].
  cbn [gp_Label gp_id gp_Exp gp_Nonce Sub Email EmailVerified OrgIDs] in *.
  case_bool_decide as Ho; members; [by subst orgs|done].
Qed.

(** ** Acceptance *)

(** Times a Unix second can name, from the zero time on. *)
Definition time_ok (t : Z) : Prop := 0 ≤ t < 2 ^ 62 * second.

#[global] Instance time_ok_dec t : Decision (time_ok t).
Proof. unfold time_ok. apply _. Defined.

(** A token lasts until the second its expiry is in. *)
Definition whole_second (t : Z) : Z := t / second * second.

Lemma time_Unix_Unix t : time_ok t → time_Unix (Unix t) = whole_second t.
Proof.
  unfold time_ok, time_Unix, Unix, whole_second, second, unix_epoch. intros Ht.
  assert (0 ≤ t / 1000000000 < 2 ^ 62) as Hq by (split; [apply Z.div_pos; lia|apply Z.div_lt_upper_bound; lia]).
  rewrite !int64_id; [f_equal; lia| |]; rewrite ?int64_id; unfold is_int64, min_int64, max_int64; lia.
Qed.

Lemma Unix_int64 t : is_int64 (Unix t).
Proof. apply int64_range. Qed.

Lemma render_nonempty l : render (JObj l) ≠ "".
Proof. done. Qed.

Lemma unmarshal_render {A} names (set : string → json → A → option A) zero v a :
  wf v → into_struct names set zero v = Some a → unmarshal names set zero (render v) = Ok a.
Proof. intros Hw Ha. unfold unmarshal. rewrite parse_render by done. cbn [mbind option_bind]. by rewrite Ha. Qed.

Lemma Decode_Encode secret id expiresAt now : identity_ok id → time_ok expiresAt →
  Decode secret (Encode_session secret id expiresAt) now = if whole_second expiresAt <? now then Err ErrExpired else Ok id.
Proof.
  intros Hid Ht. unfold Decode, Encode_session. rewrite unseal_seal; [|apply render_nonempty|intros; apply hmac_nonempty].
  cbn [rbind]. rewrite (unmarshal_render _ _ _ _ {| sp_id := id; sp_Exp := Unix expiresAt |}).
  - cbn [rbind sp_id sp_Exp]. by rewrite time_Unix_Unix.
  - constructor. apply Forall_app. split; [by apply wf_members|]. by repeat constructor.
  - apply unmarshal_session, Unix_int64.
Qed.

Definition link_ok (sandboxID : string) (port : Z) : Prop :=
  sandboxID ≠ "" ∧ ascii_only sandboxID = true ∧ 1 ≤ port ≤ 65535.

Lemma VerifyAt_Mint secret sandboxID port expiresAt now : link_ok sandboxID port → time_ok expiresAt →
  ∃ token, Mint secret sandboxID port expiresAt = Ok token ∧
    VerifyAt secret token now =
      if whole_second expiresAt <? now then Err ErrExpired
      else Ok {| SandboxID := sandboxID; Port := port; ExpiresAt := whole_second expiresAt |}.
Proof.
  intros (Hne & Ha & Hp) Ht. unfold Mint. rewrite bool_decide_eq_false_2 by done.
  rewrite (proj2 (Z.ltb_ge port 1)), (proj2 (Z.ltb_ge 65535 port)) by lia. cbn [orb]. eexists. split; [done|].
  unfold VerifyAt. rewrite unseal_seal; [|apply render_nonempty|intros; apply hmac_nonempty]. cbn [rbind].
  rewrite (unmarshal_render _ _ _ _ {| pl_SandboxID := sandboxID; pl_Port := port; pl_ExpiresAt := Unix expiresAt |}).
  - cbn [rbind pl_SandboxID pl_Port pl_ExpiresAt]. by rewrite time_Unix_Unix.
  - constructor. repeat constructor. done.
  - apply unmarshal_payload; [|apply Unix_int64]. cbn [pl_Port]. unfold is_int64, min_int64, max_int64. lia.
Qed.

(** The payload of a grant that carries its tag. *)
Definition grant_payload (secret token : string) : result token_error grantPayload :=
  let? raw := unseal (grantTag secret) token in unmarshal grant_fields set_grant zero_grant raw.

Definition minted (label : string) (id : Identity) (expiresAt : Z) (nonceBuf : string) : grantPayload :=
  {| gp_Label := label; gp_id := id; gp_Exp := Unix expiresAt; gp_Nonce := Base64.EncodeToString nonceBuf |}.

Lemma grant_payload_Mint secret nonceBuf label id expiresAt : label ≠ "" → ascii_only label = true → identity_ok id →
  ∃ token, Mint_grant secret (Some nonceBuf) label id expiresAt = Ok token ∧
    grant_payload secret token = Ok (minted label id expiresAt nonceBuf).
Proof.
  intros Hne Ha Hid. unfold Mint_grant. rewrite bool_decide_eq_false_2 by done. eexists. split; [done|].
  unfold grant_payload. rewrite unseal_seal; [|apply render_nonempty|intros; apply hmac_nonempty]. cbn [rbind].
  apply unmarshal_render; [|apply unmarshal_grant, Unix_int64].
  constructor. constructor; [split; [done|by constructor]|]. apply Forall_app. split; [by apply wf_members|].
  constructor; [by repeat constructor|]. constructor; [|constructor]. split; [done|]. constructor. apply Base64.base64_ascii.
Qed.

Lemma Verify_grant_payload secret token label now used :
  Verify_grant secret token label now used =
  match grant_payload secret token with
  | Err e => (Err e, used)
  | Ok pl =>
      let exp := time_Unix (gp_Exp pl) in
      if exp <? now then (Err ErrExpired, used)
      else if negb (bool_decide (gp_Label pl = label)) then (Err ErrLabel, used)
      else if bool_decide (is_Some (used !! gp_Nonce pl)) then (Err ErrUsed, used)
      else (Ok (gp_id pl), evict now (<[gp_Nonce pl := exp]> used))
  end.
Proof. done. Qed.

Lemma Verify_grant_ok secret token label now used id used' :
  Verify_grant secret token label now used = (Ok id, used') ↔
  ∃ pl, grant_payload secret token = Ok pl ∧ now ≤ time_Unix (gp_Exp pl) ∧ gp_Label pl = label ∧
        used !! gp_Nonce pl = None ∧ id = gp_id pl ∧ used' = evict now (<[gp_Nonce pl := time_Unix (gp_Exp pl)]> used).
Proof.
  rewrite Verify_grant_payload. destruct (grant_payload secret token) as [pl|e]; [|naive_solver]. cbv zeta.
  destruct (Z.ltb_spec (time_Unix (gp_Exp pl)) now); [naive_solver lia|].
  case_bool_decide as Hl; simpl; [|naive_solver]. case_bool_decide as Hu.
  - split; [done|]. intros (pl' & [= <-] & _ & _ & Hn & _). rewrite Hn in Hu. by destruct Hu.
  - apply eq_None_not_Some in Hu. naive_solver.
Qed.

(** C30: what the signers sign is accepted, with exactly what was signed, until the second
    its expiry is in has begun, and as expired from then on: a preview link, a session
    and, under a nonce not seen before and for its own label, a grant. *)
Theorem tokens_roundtrip secret id sandboxID port label nonceBuf expiresAt now used :
  identity_ok id → link_ok sandboxID port → label ≠ "" → ascii_only label = true → time_ok expiresAt →
  used !! Base64.EncodeToString nonceBuf = None →
  let expired {A} (r : result token_error A) := if whole_second expiresAt <? now then Err ErrExpired else r in
  (∃ token, Mint secret sandboxID port expiresAt = Ok token ∧
     VerifyAt secret token now =
       expired (Ok {| SandboxID := sandboxID; Port := port; ExpiresAt := whole_second expiresAt |})) ∧
  Decode secret (Encode_session secret id expiresAt) now = expired (Ok id) ∧
  (∃ token, Mint_grant secret (Some nonceBuf) label id expiresAt = Ok token ∧
     (Verify_grant secret token label now used).1 = expired (Ok id) ∧
     ∀ other, other ≠ label → (Verify_grant secret token other now used).1 = expired (Err ErrLabel)).
Proof.
  intros Hid Hl Hne Ha Ht Hn. cbv zeta. split_and!.
  - by apply VerifyAt_Mint.
  - by apply Decode_Encode.
  - destruct (grant_payload_Mint secret nonceBuf label id expiresAt Hne Ha Hid) as (token & Hm & Hp). exists token.
    split; [done|]. rewrite Verify_grant_payload, Hp. cbn [minted gp_Label gp_id gp_Exp gp_Nonce].
    rewrite time_Unix_Unix by done. split.
    + destruct (_ <? _); [done|]. by rewrite Hn, bool_decide_eq_true_2, bool_decide_eq_false_2 by (done || by intros []).
    + intros other Ho. rewrite Verify_grant_payload, Hp. cbn [minted gp_Label gp_id gp_Exp gp_Nonce].
      rewrite time_Unix_Unix by done. destruct (_ <? _); [done|]. by rewrite bool_decide_eq_false_2.
Qed.

(** ** Signatures bind *)

Inductive kind := Link | Session | Grant.

Definition kind_tag (k : kind) : string :=
  match k with Link => domainTag | Session => sessionDomainTag | Grant => grantDomainTag end.

Definition kind_mac (k : kind) (secret : string) : string → string :=
  match k with Link => tag secret | Session => sessionTag secret | Grant => grantTag secret end.

(** A token passes the checks of its signature and of its payload. *)
Definition passes (k : kind) (secret token : string) : Prop :=
  match k with
  | Link => ∃ now c, VerifyAt secret token now = Ok c
  | Session => ∃ now id, Decode secret token now = Ok id
  | Grant => ∃ label now used id, (Verify_grant secret token label now used).1 = Ok id
  end.

Lemma kind_mac_eq k secret p : kind_mac k secret p = hmac_sha256 secret (kind_tag k +:+ p).
Proof. by destruct k. Qed.

Lemma passes_tagged k secret token : passes k secret token →
  ∃ p t, splitToken token = Some (p, t) ∧ Base64.DecodeString t = Some (kind_mac k secret p).
Proof.
  assert (∀ raw, unseal (kind_mac k secret) token = Ok raw →
    ∃ p t, splitToken token = Some (p, t) ∧ Base64.DecodeString t = Some (kind_mac k secret p)) as H.
  { intros raw (p & t & ? & ? & _)%unseal_ok. eauto. }
  destruct k; simpl.
  - intros (now & c & (raw & Hr & _)%rbind_ok). by eapply H.
  - intros (now & id & (raw & Hr & _)%rbind_ok). by eapply H.
  - intros (label & now & used & id & Hv). destruct (Verify_grant secret token label now used) as [r used'] eqn:E.
    simpl in Hv. subst r. apply Verify_grant_ok in E as (pl & (raw & Hr & _)%rbind_ok & _). by eapply H.
Qed.

(** No message of one kind is a message of another. *)
Lemma kind_tags_apart k k' p p' : kind_tag k +:+ p = kind_tag k' +:+ p' → k = k' ∧ p = p'.
Proof.
  intros H. assert (k = k') as ->.
  { apply (f_equal (String.get 13)) in H as H13. apply (f_equal (String.get 6)) in H.
    destruct k, k'; try done; vm_compute in H, H13; discriminate. }
  split; [done|]. by apply str_app_inj_l in H.
Qed.

Definition signature (token : string) : option string := '(_, t) ← splitToken token; Base64.DecodeString t.
Definition signed_part (token : string) : option string := fst <$> splitToken token.

(** What the signature of a token of a kind is the MAC of. *)
Definition message (k : kind) (token : string) : string := kind_tag k +:+ default "" (signed_part token).

(** Two different messages with one MAC. *)
Definition mac_collision (secret m m' : string) : Prop := m ≠ m' ∧ hmac_sha256 secret m = hmac_sha256 secret m'.

(** C31: a signature that is accepted on two tokens was made for one message: the tokens
    are of one kind and have one payload.  The alternative is that the messages of the two
    collide under the secret. *)
Theorem signature_binds secret k k' token token' :
  passes k secret token → passes k' secret token' → signature token = signature token' →
  (k = k' ∧ signed_part token = signed_part token') ∨
  mac_collision secret (message k token) (message k' token').
Proof.
  intros (p & t & Hs & Ht)%passes_tagged (p' & t' & Hs' & Ht')%passes_tagged Hsig.
  unfold signature in Hsig. rewrite Hs, Hs' in Hsig. cbn [mbind option_bind] in Hsig. rewrite Ht, Ht', !kind_mac_eq in Hsig.
  apply (inj Some) in Hsig. unfold mac_collision, message, signed_part. rewrite Hs, Hs'. cbn [fmap option_fmap option_map fst default].
  destruct (decide (kind_tag k +:+ p = kind_tag k' +:+ p')) as [He|Hne]; [left|by right].
  by apply kind_tags_apart in He as [-> ->].
Qed.

(** ** Single use *)

Record redemption := { re_token : string; re_label : string; re_now : Z }.

(** The answers to redemptions in order. *)
Fixpoint redeem (secret : string) (used : nonces) (calls : list redemption) : list (result token_error Identity) :=
  match calls with
  | [] => []
  | c :: calls' =>
      let '(r, used') := Verify_grant secret (re_token c) (re_label c) (re_now c) used in
      r :: redeem secret used' calls'
  end.

(** No later redemption of a payload that was stored, or that has expired, succeeds. *)
Definition spent (now : Z) (pl : grantPayload) (used : nonces) : Prop :=
  used !! gp_Nonce pl = Some (time_Unix (gp_Exp pl)) ∨ time_Unix (gp_Exp pl) < now.

Lemma evict_lookup now used k : evict now used !! k = (e ← used !! k; if decide (now ≤ e) then Some e else None).
Proof.
  unfold evict. rewrite map_lookup_filter. destruct (used !! k) as [e|]; [|done]. simpl.
  by destruct (decide (now ≤ e)); [rewrite option_guard_True|rewrite option_guard_False].
Qed.

Lemma spent_later secret c now pl used r used' : now ≤ re_now c → spent now pl used →
  Verify_grant secret (re_token c) (re_label c) (re_now c) used = (r, used') →
  spent (re_now c) pl used' ∧ (∀ id, r = Ok id → grant_payload secret (re_token c) ≠ Ok pl).
Proof.
  intros Hn Hs Hv. destruct r as [id|e].
  - apply Verify_grant_ok in Hv as (pl' & Hp & Hexp & _ & Hfree & -> & ->). split.
    + unfold spent. rewrite evict_lookup. destruct Hs as [Hs|Hs]; [|right; lia].
      assert (gp_Nonce pl' ≠ gp_Nonce pl) as Hne by congruence. rewrite lookup_insert_ne, Hs by done. simpl.
      destruct (decide (re_now c ≤ time_Unix (gp_Exp pl))); [by left|right; lia].
    + intros _ _ He. rewrite Hp in He. injection He as ->. destruct Hs as [Hs|Hs]; [congruence|lia].
  - split; [|done]. assert (used' = used) as ->.
    { rewrite Verify_grant_payload in Hv. destruct (grant_payload secret (re_token c)) as [pl'|]; [|congruence].
      cbv zeta in Hv. repeat case_match; congruence. }
    destruct Hs as [Hs|Hs]; [by left|right; lia].
Qed.

Lemma spent_for_good secret calls now pl used j c id : Forall (λ c, now ≤ re_now c) calls →
  StronglySorted (λ c c', re_now c ≤ re_now c') calls → spent now pl used →
  calls !! j = Some c → redeem secret used calls !! j = Some (Ok id) → grant_payload secret (re_token c) ≠ Ok pl.
Proof.
  revert now used j. induction calls as [|c0 calls IH]; intros now used j Hle Hs Hsp Hc Hr; [done|].
  apply Forall_cons in Hle as [Hle0 Hle]. apply StronglySorted_inv in Hs as [Hs Hs0]. cbn [redeem] in Hr.
  destruct (Verify_grant secret (re_token c0) (re_label c0) (re_now c0) used) as [r used'] eqn:E.
  destruct (spent_later secret c0 now pl used r used' Hle0 Hsp E) as [Hsp' Hno]. destruct j as [|j]; simpl in *.
  - injection Hc as <-. injection Hr as ->. by eapply Hno.
  - by eapply (IH (re_now c0) used' j).
Qed.

(** C32: no grant is redeemed twice: of the redemptions made in the order of their clock
    readings, at most one with a given payload succeeds, whatever the labels and the
    encodings of its signature. *)
Theorem grant_once secret used calls i j c c' id id' pl :
  StronglySorted (λ c c', re_now c ≤ re_now c') calls → (i < j)%nat →
  calls !! i = Some c → calls !! j = Some c' →
  redeem secret used calls !! i = Some (Ok id) → redeem secret used calls !! j = Some (Ok id') →
  grant_payload secret (re_token c) = Ok pl → grant_payload secret (re_token c') ≠ Ok pl.
Proof.
  revert used i j. induction calls as [|c0 calls IH]; intros used i j Hs Hij Hi Hj Hri Hrj Hpl; [done|].
  apply StronglySorted_inv in Hs as [Hs Hs0]. cbn [redeem] in Hri, Hrj.
  destruct (Verify_grant secret (re_token c0) (re_label c0) (re_now c0) used) as [r used'] eqn:E.
  destruct j as [|j]; [lia|]. destruct i as [|i]; simpl in *; [|by eapply (IH used' i j); eauto with lia].
  injection Hi as ->. injection Hri as ->. eapply (spent_for_good secret calls (re_now c) pl used'); [done|done| |done|done].
  apply Verify_grant_ok in E as (pl' & Hp & Hexp & _ & _ & _ & ->). rewrite Hpl in Hp. injection Hp as <-.
  left. rewrite evict_lookup, lookup_insert_eq. simpl. by rewrite decide_True.
Qed.

(** ** Examples *)

Definition ex_secret : string := "0123456789abcdef".
Definition ex_id : Identity := {| Sub := "u-1"; Email := "ada@example.com"; EmailVerified := true; OrgIDs := ["acme"] |}.
Definition ex_now : Z := (unix_epoch + 1000) * second.

Definition ex_grant : string :=
  match Mint_grant ex_secret (Some "nonce") "app1" ex_id (ex_now + 30 * second) with Ok t => t | Err _ => "" end.
Definition ex_other : string :=
  match Mint_grant ex_secret (Some "other") "app1" ex_id (ex_now + 90 * second) with Ok t => t | Err _ => "" end.

Lemma ex_grant_payload : grant_payload ex_secret ex_grant = Ok (minted "app1" ex_id (ex_now + 30 * second) "nonce").
Proof.
  destruct (grant_payload_Mint ex_secret "nonce" "app1" ex_id (ex_now + 30 * second)) as (t & Ht & Hp); [done|done|by_eval|].
  unfold ex_grant. by rewrite Ht.
Qed.

Lemma ex_other_payload : grant_payload ex_secret ex_other = Ok (minted "app1" ex_id (ex_now + 90 * second) "other").
Proof.
  destruct (grant_payload_Mint ex_secret "other" "app1" ex_id (ex_now + 90 * second)) as (t & Ht & Hp); [done|done|by_eval|].
  unfold ex_other. by rewrite Ht.
Qed.

Definition at_time (token : string) (s : Z) : redemption := {| re_token := token; re_label := "app1"; re_now := ex_now + s * second |}.

(** Evaluate redemptions of the two grants. *)
Ltac redemptions := cbn [redeem at_time re_token re_label re_now];
  repeat (rewrite Verify_grant_payload, ?ex_grant_payload, ?ex_other_payload; match goal with
    |- context [let '(_, _) := ?x in _] => let v := eval vm_compute in x in change x with v end; cbv beta iota).

(** A clock reading taken before the expiry, and used after another redemption has evicted
    the expired nonce, redeems the grant again. *)
Example stale_reading_redeems_again :
  redeem ex_secret ∅ [at_time ex_grant 29; at_time ex_other 31; at_time ex_grant 30] = [Ok ex_id; Ok ex_id; Ok ex_id].
Proof.
  by redemptions.
Qed.

Lemma tokens_roundtrip_witness :
  Decode ex_secret (Encode_session ex_secret ex_id ex_now) ex_now = Ok ex_id ∧
  Decode ex_secret (Encode_session ex_secret ex_id ex_now) (ex_now + 1) = Err ErrExpired.
Proof.
  split.
  - apply (tokens_roundtrip ex_secret ex_id "sb" 80 "app1" "n" ex_now ex_now ∅); (done || by_eval).
  - apply (tokens_roundtrip ex_secret ex_id "sb" 80 "app1" "n" ex_now (ex_now + 1) ∅); (done || by_eval).
Defined.

Lemma grant_once_witness :
  redeem ex_secret ∅ [at_time ex_grant 29; at_time ex_other 31] = [Ok ex_id; Ok ex_id] ∧
  grant_payload ex_secret ex_other ≠ Ok (minted "app1" ex_id (ex_now + 30 * second) "nonce").
Proof.
  assert (redeem ex_secret ∅ [at_time ex_grant 29; at_time ex_other 31] = [Ok ex_id; Ok ex_id]) as H.
  { by redemptions. }
  split; [exact H|].
  apply (grant_once ex_secret ∅ [at_time ex_grant 29; at_time ex_other 31] 0 1 (at_time ex_grant 29) (at_time ex_other 31)
           ex_id ex_id (minted "app1" ex_id (ex_now + 30 * second) "nonce")); [|lia|done|done|by rewrite H|by rewrite H|].
  - repeat constructor; unfold at_time; simpl; unfold second; lia.
  - exact ex_grant_payload.
Defined.

Definition ex_session : string := Encode_session ex_secret ex_id ex_now.

Lemma signature_binds_witness : passes Session ex_secret ex_session ∧
  ((Session = Session ∧ signed_part ex_session = signed_part ex_session) ∨
   mac_collision ex_secret (message Session ex_session) (message Session ex_session)).
Proof.
  assert (passes Session ex_secret ex_session) as H.
  { exists ex_now, ex_id. unfold ex_session. rewrite Decode_Encode by by_eval. reflexivity. }
  split; [exact H|]. exact (signature_binds ex_secret Session Session ex_session ex_session H H eq_refl).
Defined.

End PreviewTheorems.
