(* ===== verification/PreviewRoutes.v ===== *)
(** * internal/preview: routes, and the controller that pushes them

    route.go, authz.go and admin.go of internal/preview, and of internal/controller
    expose_routes.go, expose_controller.go and expose_poster.go.  The Kubernetes API and
    the network between the controller and the proxy are arguments. *)

From Stdlib Require Import Ascii.
From S2P Require Import Prelude Sha256 Json GoStrings GoNet GoUrl Preview.
Import Sha256 Json GoStrings GoNet GoUrl Preview.

Module PreviewRoutes.

(** ** Hosts *)

Section hosts.
Context `{!Unicode}.

(** The label of a host <label>.<domain>. *)
Definition ParseHost (host domain : string) : option string :=
  let host := ToLower (TrimSpace host) in
  let domain := ToLower (TrimSpace domain) in
  if bool_decide (host = "") || bool_decide (domain = "") then None
  else
    let host := match CutLast host ":" with Some (h, _) => h | None => host end in
    match CutSuffix host ("." +:+ domain) with
    | None => None
    | Some label => if bool_decide (label = "") || contains_char label "." then None else Some label
    end.

Definition reservedLabels : list string :=
  ["www"; "app"; "api"; "console"; "gateway"; "admin"; "auth"; "login"; "account"; "mail";
   "static"; "assets"; "cdn"; "status"].

Definition IsReservedLabel (label : string) : bool := bool_decide (ToLower label ∈ reservedLabels).

End hosts.

(** ** The route table *)

Record Route := {
  rt_Label : string;
  rt_SandboxID : string;
  rt_NodeEndpoint : string;
  rt_Port : Z;
  rt_Token : string;
  rt_Sharing : string;
  rt_OrgID : string;
  rt_Network : list string;
  rt_ForwardAuthURL : string;
  rt_AllowedPrincipals : list string;
  rt_AllowedEmailDomains : list string;
}.

(** A [ClaimState], and the controller's [ExposeRoute], which has the same fields. *)
Record ClaimState := { cs_route : Route; cs_Ready : bool }.

Abbreviation RouteTable := (gmap string Route).

Definition Upsert (r : Route) (t : RouteTable) : RouteTable := <[rt_Label r := r]> t.
Definition Remove (label : string) (t : RouteTable) : RouteTable := delete label t.
Definition Lookup (t : RouteTable) (label : string) : option Route := t !! label.

Definition wanted (c : ClaimState) : bool := cs_Ready c && negb (bool_decide (rt_NodeEndpoint (cs_route c) = "")).

(** A later state with a label replaces an earlier one. *)
Definition want (states : list ClaimState) : RouteTable :=
  foldl (λ m c, if wanted c then <[rt_Label (cs_route c) := cs_route c]> m else m) ∅ states.

Definition Sync (states : list ClaimState) (t : RouteTable) : RouteTable :=
  let want := want states in
  map_fold (λ lbl r t, <[lbl := r]> t) (filter (λ kv, is_Some (want !! kv.1)) t) want.

(** ** Who may pass *)

Inductive Decision := Allow | DenyUnauthenticated | DenyForbidden.

Section authorize.
Context `{!Unicode}.

Definition emailDomain (email : string) : string :=
  match CutLast email "@" with None => "" | Some (_, d) => ToLower d end.

(** A nil address is [None]. *)
Definition ipInCIDRs (ip : option IP) (cidrs : list string) : bool :=
  match ip with
  | None => false
  | Some ip => existsb (λ cidr, match ParseCIDR cidr with Some (_, network) => Contains network ip | None => false end) cidrs
  end.

Definition NetworkAllows (route : Route) (clientIP : option IP) : bool :=
  if bool_decide (rt_Network route = []) then true else ipInCIDRs clientIP (rt_Network route).

Definition containsString (slice : list string) (s : string) : bool := existsb (λ v, bool_decide (v = s)) slice.

(** [containsEmailFolded] and [containsDomainFolded]. *)
Definition containsFolded (entries : list string) (target : string) : bool :=
  existsb (λ e, negb (bool_decide (e = "")) && EqualFold e target) entries.

Definition nonempty_list {A} (l : list A) : bool := match l with [] => false | _ => true end.

Definition audience (route : Route) (id : Identity) : Decision :=
  if nonempty_list (rt_AllowedPrincipals route) && negb (containsFolded (rt_AllowedPrincipals route) (Email id))
  then DenyForbidden
  else if nonempty_list (rt_AllowedEmailDomains route) &&
          (negb (EmailVerified id) || negb (containsFolded (rt_AllowedEmailDomains route) (emailDomain (Email id))))
  then DenyForbidden
  else Allow.

Definition Authorize (route : Route) (id : option Identity) (clientIP : option IP) : Decision :=
  if negb (NetworkAllows route clientIP) then DenyForbidden
  else
    let tier := rt_Sharing route in
    if bool_decide (tier = "public") then
      if nonempty_list (rt_AllowedPrincipals route) || nonempty_list (rt_AllowedEmailDomains route) then DenyForbidden
      else Allow
    else if bool_decide (tier = "authenticated") then
      match id with None => DenyUnauthenticated | Some id => audience route id end
    else if bool_decide (tier = "private") || bool_decide (tier = "org") then
      match id with
      | None => DenyUnauthenticated
      | Some id =>
          if bool_decide (rt_OrgID route = "") || negb (containsString (OrgIDs id) (rt_OrgID route)) then DenyForbidden
          else audience route id
      end
    else if bool_decide (tier = "link") then
      match id with None => DenyUnauthenticated | Some id => audience route id end
    else DenyForbidden.

End authorize.

(** ** The push of the routes

    Both structs are encoded under their bare field names, a nil slice as null; slices
    are never distinguished from empty ones here. *)

Definition strings_json (l : list string) : json := if bool_decide (l = []) then JNull else JArr (JStr <$> l).

Definition state_json (c : ClaimState) : json :=
  let r := cs_route c in
  JObj [("Label", JStr (rt_Label r)); ("SandboxID", JStr (rt_SandboxID r)); ("NodeEndpoint", JStr (rt_NodeEndpoint r));
        ("Port", JNum (fmt_int (rt_Port r))); ("Token", JStr (rt_Token r)); ("Sharing", JStr (rt_Sharing r));
        ("OrgID", JStr (rt_OrgID r)); ("Network", strings_json (rt_Network r));
        ("ForwardAuthURL", JStr (rt_ForwardAuthURL r));
        ("AllowedPrincipals", strings_json (rt_AllowedPrincipals r));
        ("AllowedEmailDomains", strings_json (rt_AllowedEmailDomains r)); ("Ready", JBool (cs_Ready c))].

Definition state_fields : list string :=
  ["Label"; "SandboxID"; "NodeEndpoint"; "Port"; "Token"; "Sharing"; "OrgID"; "Network"; "ForwardAuthURL";
   "AllowedPrincipals"; "AllowedEmailDomains"; "Ready"].

Definition zero_route : Route :=
  {| rt_Label := ""; rt_SandboxID := ""; rt_NodeEndpoint := ""; rt_Port := 0; rt_Token := ""; rt_Sharing := "";
     rt_OrgID := ""; rt_Network := []; rt_ForwardAuthURL := ""; rt_AllowedPrincipals := [];
     rt_AllowedEmailDomains := [] |}.

(** A route whose fields are given: strings in order, the port, then the lists. *)
Definition set_route_string (n : string) (x : string) (r : Route) : Route :=
  let pick f cur := if bool_decide (n = f) then x else cur in
  {| rt_Label := pick "Label" (rt_Label r); rt_SandboxID := pick "SandboxID" (rt_SandboxID r);
     rt_NodeEndpoint := pick "NodeEndpoint" (rt_NodeEndpoint r); rt_Port := rt_Port r;
     rt_Token := pick "Token" (rt_Token r); rt_Sharing := pick "Sharing" (rt_Sharing r);
     rt_OrgID := pick "OrgID" (rt_OrgID r); rt_Network := rt_Network r;
     rt_ForwardAuthURL := pick "ForwardAuthURL" (rt_ForwardAuthURL r);
     rt_AllowedPrincipals := rt_AllowedPrincipals r; rt_AllowedEmailDomains := rt_AllowedEmailDomains r |}.

Definition set_route_list (n : string) (x : list string) (r : Route) : Route :=
  let pick f cur := if bool_decide (n = f) then x else cur in
  {| rt_Label := rt_Label r; rt_SandboxID := rt_SandboxID r; rt_NodeEndpoint := rt_NodeEndpoint r;
     rt_Port := rt_Port r; rt_Token := rt_Token r; rt_Sharing := rt_Sharing r; rt_OrgID := rt_OrgID r;
     rt_Network := pick "Network" (rt_Network r); rt_ForwardAuthURL := rt_ForwardAuthURL r;
     rt_AllowedPrincipals := pick "AllowedPrincipals" (rt_AllowedPrincipals r);
     rt_AllowedEmailDomains := pick "AllowedEmailDomains" (rt_AllowedEmailDomains r) |}.

Definition set_route_port (x : Z) (r : Route) : Route :=
  {| rt_Label := rt_Label r; rt_SandboxID := rt_SandboxID r; rt_NodeEndpoint := rt_NodeEndpoint r; rt_Port := x;
     rt_Token := rt_Token r; rt_Sharing := rt_Sharing r; rt_OrgID := rt_OrgID r; rt_Network := rt_Network r;
     rt_ForwardAuthURL := rt_ForwardAuthURL r; rt_AllowedPrincipals := rt_AllowedPrincipals r;
     rt_AllowedEmailDomains := rt_AllowedEmailDomains r |}.

(** A member that is null leaves a string, the port and the flag, and clears a list. *)
Definition set_state (n : string) (v : json) (c : ClaimState) : option ClaimState :=
  let with_route r := Some {| cs_route := r; cs_Ready := cs_Ready c |} in
  if bool_decide (n = "Ready") then
    x ← into_bool (cs_Ready c) v; Some {| cs_route := cs_route c; cs_Ready := x |}
  else if bool_decide (n = "Port") then x ← into_int64 (rt_Port (cs_route c)) v; with_route (set_route_port x (cs_route c))
  else if bool_decide (n ∈ ["Network"; "AllowedPrincipals"; "AllowedEmailDomains"]) then
    x ← into_list (into_string "") [] v; with_route (set_route_list n x (cs_route c))
  else match v with
       | JNull => Some c
       | JStr x => with_route (set_route_string n x (cs_route c))
       | _ => None
       end.

Definition zero_state : ClaimState := {| cs_route := zero_route; cs_Ready := false |}.

Definition routes_body (states : list ClaimState) : string :=
  render (JObj [("routes", if bool_decide (states = []) then JNull else JArr (state_json <$> states))]).

Definition maxAdminBody : Z := 8 * 2 ^ 20.

Definition set_routes (_ : string) (v : json) (cur : list ClaimState) : option (list ClaimState) :=
  into_list (into_struct state_fields set_state zero_state) cur v.

(** The handler of POST /internal/routes: its status and the table.  [body] is what can
    be read of the request, [None] when reading fails. *)
Definition admin_sync (token : string) (authorization : string) (body : option string) (t : RouteTable) : Z * RouteTable :=
  match CutPrefix authorization "Bearer " with
  | Some presented =>
      if bool_decide (token = "") || negb (bool_decide (presented = token)) then (401, t)
      else match body with
           | None => (400, t)
           | Some body =>
               let body := if Z.of_nat (String.length body) <=? maxAdminBody then body
                           else String.substring 0 (Z.to_nat maxAdminBody) body in
               match v ← parse body; into_struct ["routes"] set_routes [] v with
               | None => (400, t)
               | Some states => (204, Sync states t)
               end
           end
  | None => (401, t)
  end.

(** ** The controller *)

(** What the reconciler reads of a Sandbox; the expose block may be missing. *)
Record SandboxExpose := {
  ex_Port : Z;
  ex_Label : string;
  ex_Sharing : string;
  ex_Network : list string;
  ex_ForwardAuthURL : string;
  ex_AllowedPrincipals : list string;
  ex_AllowedEmailDomains : list string;
}.

Record Sandbox := {
  sb_Namespace : string;
  sb_Name : string;
  sb_Expose : option SandboxExpose;
  sb_Phase : string;
  sb_Endpoint : string;
  sb_SandboxID : string;
}.

Definition SandboxReady : string := "Ready".

Definition namespacePrefix : string := "mitos-org-".

Definition NamespaceForOrg (orgID : string) : string := namespacePrefix +:+ orgID.

Definition OrgFromNamespace (ns : string) : option string :=
  match CutPrefix ns namespacePrefix with
  | Some org => if bool_decide (org = "") then None else Some org
  | None => None
  end.

Definition expose_route (sb : Sandbox) (ex : SandboxExpose) (tok : string) : ClaimState :=
  {| cs_route := {| rt_Label := ex_Label ex; rt_SandboxID := sb_SandboxID sb; rt_NodeEndpoint := sb_Endpoint sb;
                    rt_Port := ex_Port ex; rt_Token := tok;
                    rt_Sharing := if bool_decide (ex_Sharing ex = "") then "private" else ex_Sharing ex;
                    rt_OrgID := default "" (OrgFromNamespace (sb_Namespace sb)); rt_Network := ex_Network ex;
                    rt_ForwardAuthURL := ex_ForwardAuthURL ex; rt_AllowedPrincipals := ex_AllowedPrincipals ex;
                    rt_AllowedEmailDomains := ex_AllowedEmailDomains ex |};
     cs_Ready := true |}.

Definition BuildExposeRoutes (tokenFor : Sandbox → option string) (sandboxes : list Sandbox) : list ClaimState :=
  omap (λ sb,
          if negb (bool_decide (sb_Phase sb = SandboxReady)) then None
          else match sb_Expose sb with
               | None => None
               | Some ex => if bool_decide (sb_Endpoint sb = "") then None else expose_route sb ex <$> tokenFor sb
               end) sandboxes.

(** One attempt to push: a URL that no request can be made of, no answer, or its status. *)
Inductive attempt := BadURL | NoAnswer | Answer (status : Z).

Definition post_failed (a : attempt) : option bool :=
  match a with
  | BadURL => Some false
  | NoAnswer => Some true
  | Answer status =>
      if (200 <=? status) && (status <? 300) then None else if 500 <=? status then Some true else Some false
  end.

(** The attempts made from the [k]th on, and whether the push succeeded; [cancelled k]
    says whether the context is done in the wait before the [k]th attempt. *)
Fixpoint push (cancelled : nat → bool) (answer : nat → attempt) (k attempts : nat) : nat * bool :=
  match attempts with
  | O => (0%nat, false)
  | S n =>
      if (0 <? k)%nat && cancelled k then (0%nat, false)
      else match post_failed (answer k) with
           | None => (1%nat, true)
           | Some false => (1%nat, false)
           | Some true => let '(made, ok) := push cancelled answer (S k) n in (S made, ok)
           end
  end.

Definition exposePosterDefaultMaxAttempts : Z := 3.

Definition Poster_Sync (url : string) (MaxAttempts : Z) (cancelled : nat → bool) (answer : nat → attempt) : nat * bool :=
  if bool_decide (url = "") then (0%nat, true)
  else push cancelled answer 0
            (Z.to_nat (if MaxAttempts <=? 0 then exposePosterDefaultMaxAttempts else MaxAttempts)).

(** [get] reads the token of a sandbox's Secret: not found, another failure or the token. *)
Inductive secret_read := Found (token : string) | NotFound | Failed.

Definition qualifies (sb : Sandbox) : bool :=
  bool_decide (sb_Phase sb = SandboxReady) && bool_decide (is_Some (sb_Expose sb)) &&
  negb (bool_decide (sb_Endpoint sb = "")).

(** The tokens by namespace and name, and whether a Secret is missing. *)
Definition object_key (sb : Sandbox) : string := sb_Namespace sb +:+ "/" +:+ sb_Name sb.

Definition tokens_step (get : string → string → secret_read) (acc : option (gmap string string * bool)) (sb : Sandbox) :
    option (gmap string string * bool) :=
  '(tokens, missing) ← acc;
  if negb (qualifies sb) then Some (tokens, missing)
  else match get (sb_Namespace sb) (sb_Name sb +:+ "-sandbox-token") with
       | Found tok => Some (<[object_key sb := tok]> tokens, missing)
       | NotFound => Some (tokens, true)
       | Failed => None
       end.

Definition tokens (get : string → string → secret_read) (sandboxes : list Sandbox) : option (gmap string string * bool) :=
  foldl (tokens_step get) (Some (∅, false)) sandboxes.

(** The routes to push and whether to look again in a second; [None] when a list or a
    read of a Secret fails. *)
Definition Reconcile (listed : option (list Sandbox)) (get : string → string → secret_read) :
    option (list ClaimState * bool) :=
  sandboxes ← listed;
  '(toks, missing) ← tokens get sandboxes;
  Some (BuildExposeRoutes (λ sb, toks !! object_key sb) sandboxes, missing).

End PreviewRoutes.
