(* ===== verification/PreviewRoutesTheorems.v ===== *)
(** * Preview routes: theorems

    The table is exactly the ready states last pushed; what the controller pushes arrives
    unchanged; who passes a route is what its tier, its networks and its audience say. *)

From Stdlib Require Import Ascii.
From S2P Require Import Prelude Sha256 Json Base64 GoStrings GoNet GoUrl.
From S2P Require Import Preview PreviewTheorems PreviewRoutes.
Import Sha256 Json Base64 GoStrings GoStringsTheorems GoNet GoUrl Preview PreviewTheorems PreviewRoutes.

Module PreviewRoutesTheorems.

(** ** The table *)

Lemma Sync_want states t : Sync states t = want states.
Proof.
  unfold Sync. set (w := want states). apply map_eq. intros l.
  assert (∀ (m t : RouteTable), map_fold (λ l r t, <[l := r]> t) t m = m ∪ t) as Hfold.
  { intros m t0. induction m as [|k r m Hk IH] using map_ind; [by rewrite map_fold_empty, (left_id_L ∅ _)|].
    rewrite map_fold_insert_L; [by rewrite IH, insert_union_l| |done].
    intros k1 k2 r1 r2 y Hne _ _. by rewrite insert_insert_ne. }
  rewrite Hfold, lookup_union. destruct (w !! l) as [r|] eqn:E; [by rewrite union_Some_l|].
  rewrite (left_id None _). apply map_lookup_filter_None. right. intros r _ [r' Hr']. simpl in Hr'. congruence.
Qed.

Lemma want_snoc states c :
  want (states ++ [c]) = if wanted c then <[rt_Label (cs_route c) := cs_route c]> (want states) else want states.
Proof. unfold want. by rewrite foldl_app. Qed.

Lemma want_lookup states l : want states !! l =
  cs_route <$> last (filter (λ c, wanted c = true ∧ rt_Label (cs_route c) = l) states).
Proof.
  induction states as [|c states IH] using rev_ind; [done|]. rewrite want_snoc, filter_app.
  destruct (wanted c) eqn:Hw.
  - destruct (decide (rt_Label (cs_route c) = l)) as [<-|Hne].
    + rewrite lookup_insert_eq, filter_cons_True, filter_nil, last_snoc by done. done.
    + rewrite lookup_insert_ne by done. rewrite filter_cons_False by (intros [? ?]; congruence). rewrite filter_nil, app_nil_r. done.
  - rewrite filter_cons_False by (intros [? ?]; congruence). by rewrite filter_nil, app_nil_r.
Qed.

(** After a push the table routes a label exactly when a ready state with an endpoint
    carries it, whatever was there before, and to the last such state. *)
Theorem Sync_exact states t l :
  Lookup (Sync states t) l =
  cs_route <$> last (filter (λ c, (cs_Ready c = true ∧ rt_NodeEndpoint (cs_route c) ≠ "") ∧ rt_Label (cs_route c) = l) states).
Proof.
  unfold Lookup. rewrite Sync_want, want_lookup. do 2 f_equal. apply list_filter_iff. intros c. unfold wanted.
  rewrite andb_true_iff, negb_true_iff, bool_decide_eq_false. done.
Qed.

(** ** The push *)

Definition route_ok (r : Route) : Prop :=
  Forall (λ s, ascii_only s = true)
    [rt_Label r; rt_SandboxID r; rt_NodeEndpoint r; rt_Token r; rt_Sharing r; rt_OrgID r; rt_ForwardAuthURL r] ∧
  Forall (λ s, ascii_only s = true) (rt_Network r ++ rt_AllowedPrincipals r ++ rt_AllowedEmailDomains r) ∧
  is_int64 (rt_Port r).

Lemma wf_strings l : Forall (λ s, ascii_only s = true) l → wf (strings_json l).
Proof.
  intros H. unfold strings_json. case_bool_decide; constructor. apply Forall_fmap. eapply Forall_impl; [exact H|].
  intros x Hx. by constructor.
Qed.

Lemma wf_state c : route_ok (cs_route c) → wf (state_json c).
Proof.
  intros (Hs & Hl & _). rewrite !Forall_app in Hl. destruct Hl as (H1 & H2 & H3).
  rewrite !Forall_cons in Hs. destruct Hs as (S1 & S2 & S3 & S4 & S5 & S6 & S7 & _).
  assert (∀ s, ascii_only s = true → wf (JStr s)) by (intros; by constructor).
  constructor. repeat apply Forall_cons_2; try apply Forall_nil_2; simpl; (split; [done|]); auto using wf_strings; constructor.
Qed.

Lemma into_strings_json l : into_list (into_string "") [] (strings_json l) = Some l.
Proof. unfold strings_json. case_bool_decide as Hl; [by subst l|]. apply into_strings. Qed.

Lemma unmarshal_state c : route_ok (cs_route c) → into_struct state_fields set_state zero_state (state_json c) = Some c.
Proof.
  intros (_ & _ & Hp). unfold into_struct, state_json. cbn [foldl].
  repeat match goal with
  | |- context [field_for ?l ?k] => let v := eval vm_compute in (field_for l k) in change (field_for l k) with v
  end.
  assert (∀ n l c, n ∈ ["Network"; "AllowedPrincipals"; "AllowedEmailDomains"] → set_state n (strings_json l) c =
    Some {| cs_route := set_route_list n l (cs_route c); cs_Ready := cs_Ready c |}) as Hlist.
  { intros n l c0 Hn. unfold set_state. rewrite !bool_decide_eq_false_2 by (intros ->; set_solver).
    rewrite bool_decide_eq_true_2 by done. by rewrite into_strings_json. }
  assert (∀ n s c, n ∉ ["Ready"; "Port"; "Network"; "AllowedPrincipals"; "AllowedEmailDomains"] → set_state n (JStr s) c =
    Some {| cs_route := set_route_string n s (cs_route c); cs_Ready := cs_Ready c |}) as Hstr.
  { intros n s c0 Hn. unfold set_state. rewrite !bool_decide_eq_false_2 by set_solver. done. }
  assert (∀ z c, is_int64 z → set_state "Port" (JNum (fmt_int z)) c =
    Some {| cs_route := set_route_port z (cs_route c); cs_Ready := cs_Ready c |}) as Hport.
  { intros z c0 Hz. unfold set_state. rewrite bool_decide_eq_false_2, bool_decide_eq_true_2 by done. by rewrite into_int64_fmt. }
  repeat (cbn [mbind option_bind]; rewrite ?Hlist, ?Hstr, ?Hport by (done || set_solver)).
  cbn. by destruct c as [[] ?].
Qed.

Lemma routes_body_read states : Forall (λ c, route_ok (cs_route c)) states →
  (v ← parse (routes_body states); into_struct ["routes"] set_routes [] v) = Some states.
Proof.
  intros Hok. unfold routes_body. rewrite parse_render.
  - cbn [mbind option_bind]. unfold into_struct. cbn [foldl]. closed_fields. cbn [mbind option_bind]. unfold set_routes.
    case_bool_decide as Hs; [by subst states|].
    change (state_json <$> states) with (map state_json states).
    rewrite (into_list_map _ state_json (λ c, c)) by (eapply Forall_impl; [exact Hok|]; apply unmarshal_state).
    by rewrite map_id.
  - constructor. constructor; [|constructor]. split; [done|]. simpl. case_bool_decide; [constructor|]. constructor.
    apply Forall_fmap. eapply Forall_impl; [exact Hok|]. intros c. apply wf_state.
Qed.

Definition fits (states : list ClaimState) : Prop := Z.of_nat (String.length (routes_body states)) ≤ maxAdminBody.

Lemma admin_sync_push token states t : token ≠ "" → Forall (λ c, route_ok (cs_route c)) states → fits states →
  admin_sync token ("Bearer " +:+ token) (Some (routes_body states)) t = (204, Sync states t).
Proof.
  intros Hne Hok Hfit. unfold admin_sync, CutPrefix. rewrite (proj2 (strip_prefix_spec "Bearer " _ token)) by done.
  rewrite (bool_decide_eq_false_2 (token = "")), (bool_decide_eq_true_2 (token = token)) by done. cbn [negb orb].
  unfold fits in Hfit. rewrite (proj2 (Z.leb_le _ _)) by done. by rewrite routes_body_read.
Qed.

Lemma admin_sync_401 token authorization body t : authorization ≠ "Bearer " +:+ token ∨ token = "" →
  admin_sync token authorization body t = (401, t).
Proof.
  intros H. unfold admin_sync, CutPrefix. destruct (strip_prefix "Bearer " authorization) as [p|] eqn:E; [|done].
  apply strip_prefix_spec in E as ->. destruct (decide (token = "")) as [->|Hne]; [by rewrite bool_decide_eq_true_2|].
  rewrite bool_decide_eq_false_2 by done. rewrite bool_decide_eq_false_2; [done|]. intros ->. destruct H; done.
Qed.

(** ** The controller *)

(** Kubernetes names have no slash. *)
Definition named (sb : Sandbox) : Prop := "/"%char ∉ chars (sb_Namespace sb).

Lemma object_key_inj sb sb' : named sb → named sb' → object_key sb = object_key sb' →
  sb_Namespace sb = sb_Namespace sb' ∧ sb_Name sb = sb_Name sb'.
Proof.
  intros H H' He. unfold object_key in He. change ("/" +:+ sb_Name sb) with (String "/" (sb_Name sb)) in He.
  change ("/" +:+ sb_Name sb') with (String "/" (sb_Name sb')) in He.
  assert (Cut (sb_Namespace sb +:+ String "/" (sb_Name sb)) "/" = Some (sb_Namespace sb, sb_Name sb)) as E by (by apply Cut_spec).
  assert (Cut (sb_Namespace sb' +:+ String "/" (sb_Name sb')) "/" = Some (sb_Namespace sb', sb_Name sb')) as E' by (by apply Cut_spec).
  rewrite He, E' in E. by injection E.
Qed.

Definition secret_of (get : string → string → secret_read) (sb : Sandbox) : secret_read :=
  get (sb_Namespace sb) (sb_Name sb +:+ "-sandbox-token").

Lemma tokens_snoc get sbs sb : tokens get (sbs ++ [sb]) = tokens_step get (tokens get sbs) sb.
Proof. unfold tokens. by rewrite foldl_app. Qed.

Lemma tokens_sound get sbs toks missing : Forall named sbs → tokens get sbs = Some (toks, missing) →
  ∀ sb, named sb → ∀ tok, toks !! object_key sb = Some tok → secret_of get sb = Found tok.
Proof.
  revert toks missing. induction sbs as [|sb0 sbs IH] using rev_ind; intros toks missing Hn Ht sb Hsb tok Htok.
  { injection Ht as <- <-. done. }
  apply Forall_app in Hn as [Hn Hn0]. apply Forall_cons in Hn0 as [Hn0 _]. rewrite tokens_snoc in Ht. unfold tokens_step in Ht.
  destruct (tokens get sbs) as [[toks0 m0]|] eqn:E; [|done]. cbn [mbind option_bind] in Ht.
  destruct (qualifies sb0); simpl in Ht; [|injection Ht as <- <-; by eapply IH].
  destruct (get (sb_Namespace sb0) (sb_Name sb0 +:+ "-sandbox-token")) as [tok0| |] eqn:Eg; [|injection Ht as <- <-; by eapply IH|done].
  injection Ht as <- <-. destruct (decide (object_key sb0 = object_key sb)) as [He|Hne].
  - rewrite He, lookup_insert_eq in Htok. injection Htok as <-. apply object_key_inj in He as [H1 H2]; [|done|done].
    unfold secret_of. by rewrite <- H1, <- H2.
  - rewrite lookup_insert_ne in Htok by done. by eapply IH.
Qed.

Lemma tokens_complete get sbs toks missing sb tok : Forall named sbs → tokens get sbs = Some (toks, missing) →
  sb ∈ sbs → qualifies sb = true → secret_of get sb = Found tok → toks !! object_key sb = Some tok.
Proof.
  revert toks missing. induction sbs as [|sb0 sbs IH] using rev_ind; intros toks missing Hn Ht Hin Hq Hg; [by apply elem_of_nil in Hin|].
  assert (named sb) as Hsb by (rewrite Forall_forall in Hn; by apply Hn).
  apply Forall_app in Hn as [Hn Hn0]. apply Forall_cons in Hn0 as [Hn0 _]. rewrite tokens_snoc in Ht. unfold tokens_step in Ht.
  destruct (tokens get sbs) as [[toks0 m0]|] eqn:E; [|done]. cbn [mbind option_bind] in Ht.
  assert (toks0 !! object_key sb = Some tok ∨ sb = sb0) as Hold.
  { apply elem_of_app in Hin as [Hin|Hin%list_elem_of_singleton]; [left; by eapply IH|by right]. }
  destruct Hold as [Hold| <-].
  - destruct (qualifies sb0); simpl in Ht; [|by injection Ht as <- <-].
    destruct (get (sb_Namespace sb0) (sb_Name sb0 +:+ "-sandbox-token")) as [tok0| |] eqn:Eg; [|by injection Ht as <- <-|done].
    injection Ht as <- <-. destruct (decide (object_key sb0 = object_key sb)) as [He|Hne]; [|by rewrite lookup_insert_ne].
    rewrite He, lookup_insert_eq. apply object_key_inj in He as [H1 H2]; [|done|done].
    unfold secret_of in Hg. rewrite <- H1, <- H2 in Hg. congruence.
  - rewrite Hq in Ht. simpl in Ht. unfold secret_of in Hg. rewrite Hg in Ht. injection Ht as <- <-. apply lookup_insert_eq.
Qed.

Lemma BuildExposeRoutes_elem tokenFor sbs c : c ∈ BuildExposeRoutes tokenFor sbs ↔
  ∃ sb ex tok, sb ∈ sbs ∧ qualifies sb = true ∧ sb_Expose sb = Some ex ∧ tokenFor sb = Some tok ∧ c = expose_route sb ex tok.
Proof.
  unfold BuildExposeRoutes, qualifies. rewrite list_elem_of_omap. split.
  - intros (sb & Hin & Hc). case_bool_decide as Hp; simpl in Hc; [|done]. destruct (sb_Expose sb) as [ex|] eqn:Ee; [|done].
    case_bool_decide as Hend; [done|]. apply fmap_Some in Hc as (tok & Ht & ->). exists sb, ex, tok.
    rewrite Ee, (bool_decide_eq_true_2 _ Hp), (bool_decide_eq_false_2 _ Hend). done.
  - intros (sb & ex & tok & Hin & Hq & He & Ht & ->). exists sb. split; [done|]. rewrite !andb_true_iff in Hq.
    destruct Hq as [[Hp _] Hend]. rewrite Hp, He. simpl. rewrite negb_true_iff in Hend. by rewrite Hend, Ht.
Qed.

Lemma filter_last_unique {A} (P : A → Prop) `{!∀ x, base.Decision (P x)} (l : list A) x :
  x ∈ l → P x → (∀ y, y ∈ l → P y → y = x) → last (filter P l) = Some x.
Proof.
  intros Hx HP Hu. destruct (last (filter P l)) as [y|] eqn:E.
  - apply last_Some_elem_of, list_elem_of_filter in E as [Hy Hin]. by rewrite (Hu y).
  - apply last_None in E. assert (x ∈ filter P l) as Hf by (by apply list_elem_of_filter). rewrite E in Hf. by apply elem_of_nil in Hf.
Qed.

Lemma last_filter_elem {A} (P : A → Prop) `{!∀ x, base.Decision (P x)} (l : list A) x : last (filter P l) = Some x → x ∈ l ∧ P x.
Proof. intros [? ?]%last_Some_elem_of%list_elem_of_filter. done. Qed.

(** C19: from the cluster to the proxy.  A reconcile whose push arrives leaves a table in
    which every label belongs to an exposed, ready sandbox with an endpoint, whose route
    carries the token of that sandbox's own Secret and the organization of its namespace;
    such a sandbox is served under its label when it alone asks for it and its Secret is
    there. *)
Theorem routes_follow_sandboxes sbs get states missing admin t :
  Forall named sbs → Reconcile (Some sbs) get = Some (states, missing) → admin ≠ "" →
  Forall (λ c, route_ok (cs_route c)) states → fits states →
  let '(status, t') := admin_sync admin ("Bearer " +:+ admin) (Some (routes_body states)) t in
  status = 204 ∧
  (∀ l r, Lookup t' l = Some r → ∃ sb ex tok, sb ∈ sbs ∧ qualifies sb = true ∧ sb_Expose sb = Some ex ∧ ex_Label ex = l ∧
     secret_of get sb = Found tok ∧ r = cs_route (expose_route sb ex tok)) ∧
  (∀ sb ex tok, sb ∈ sbs → qualifies sb = true → sb_Expose sb = Some ex → secret_of get sb = Found tok →
     (∀ sb' ex', sb' ∈ sbs → sb_Expose sb' = Some ex' → ex_Label ex' = ex_Label ex → sb' = sb) →
     Lookup t' (ex_Label ex) = Some (cs_route (expose_route sb ex tok))).
Proof.
  intros Hn Hr Ha Hok Hfit. rewrite admin_sync_push by done. split; [done|]. unfold Reconcile in Hr. simpl in Hr.
  destruct (tokens get sbs) as [[toks m]|] eqn:Et; [|done]. simpl in Hr. injection Hr as <- <-.
  unfold Lookup. rewrite Sync_want. setoid_rewrite want_lookup. split.
  - intros l r (c & (Hc & Hw & Hl)%last_filter_elem & ->)%fmap_Some.
    apply BuildExposeRoutes_elem in Hc as (sb & ex & tok & Hin & Hq & He & Htok & ->). exists sb, ex, tok.
    split_and!; try done. eapply tokens_sound; [done|done| |done]. rewrite Forall_forall in Hn. by apply Hn.
  - intros sb ex tok Hin Hq He Hs Hu. pose proof (tokens_complete _ _ _ _ _ _ Hn Et Hin Hq Hs) as Htok.
    rewrite (filter_last_unique _ _ (expose_route sb ex tok)); [done| | |].
    + apply BuildExposeRoutes_elem. by exists sb, ex, tok.
    + split; [|done]. unfold wanted. simpl. unfold qualifies in Hq. rewrite !andb_true_iff in Hq. apply Hq.
    + intros c Hc [_ Hl]. apply BuildExposeRoutes_elem in Hc as (sb' & ex' & tok' & Hin' & _ & He' & Htok' & ->).
      assert (sb' = sb) as -> by (by eapply Hu). rewrite He in He'. injection He' as <-. congruence.
Qed.

(** ** Who passes *)

Section passing.
Context `{!Unicode}.

Lemma existsb_elem {A} (f : A → bool) l : existsb f l = true ↔ ∃ x, x ∈ l ∧ f x = true.
Proof. rewrite existsb_exists. by setoid_rewrite <- list_elem_of_In. Qed.

(** The address is in one of the route's networks, if it has any. *)
Definition in_network (r : Route) (ip : option IP) : Prop :=
  rt_Network r = [] ∨ ∃ a cidr base net, ip = Some a ∧ cidr ∈ rt_Network r ∧ ParseCIDR cidr = Some (base, net) ∧ Contains net a = true.

(** The identity is one the route's audience lists, as far as it has any. *)
Definition in_audience (r : Route) (id : Identity) : Prop :=
  (rt_AllowedPrincipals r = [] ∨ ∃ e, e ∈ rt_AllowedPrincipals r ∧ e ≠ "" ∧ EqualFold e (Email id) = true) ∧
  (rt_AllowedEmailDomains r = [] ∨
   EmailVerified id = true ∧ ∃ e, e ∈ rt_AllowedEmailDomains r ∧ e ≠ "" ∧ EqualFold e (emailDomain (Email id)) = true).

Definition needs_login (tier : string) : bool := bool_decide (tier ∈ ["authenticated"; "private"; "org"; "link"]).
Definition needs_org (tier : string) : bool := bool_decide (tier ∈ ["private"; "org"]).

(** The identity serves for the route. *)
Definition serves (r : Route) (i : Identity) : Prop :=
  in_audience r i ∧ (needs_org (rt_Sharing r) = true → rt_OrgID r ≠ "" ∧ rt_OrgID r ∈ OrgIDs i).

Definition allowed (r : Route) (id : option Identity) (ip : option IP) : Prop :=
  in_network r ip ∧
  (rt_Sharing r = "public" ∧ rt_AllowedPrincipals r = [] ∧ rt_AllowedEmailDomains r = [] ∨
   needs_login (rt_Sharing r) = true ∧ ∃ i, id = Some i ∧ serves r i).

Lemma NetworkAllows_spec r ip : NetworkAllows r ip = true ↔ in_network r ip.
Proof.
  unfold NetworkAllows, in_network, ipInCIDRs. case_bool_decide as Hn; [naive_solver|]. destruct ip as [a|]; [|naive_solver].
  rewrite existsb_elem. split.
  - intros (cidr & Hin & Hc). destruct (ParseCIDR cidr) as [[base net]|] eqn:E; [|done]. right. by exists a, cidr, base, net.
  - intros [?|(a' & cidr & base & net & [= <-] & Hin & E & Hc)]; [done|]. exists cidr. split; [done|]. by rewrite E.
Qed.

Lemma containsFolded_spec l s : containsFolded l s = true ↔ ∃ e, e ∈ l ∧ e ≠ "" ∧ EqualFold e s = true.
Proof. unfold containsFolded. rewrite existsb_elem. setoid_rewrite andb_true_iff. setoid_rewrite negb_true_iff. by setoid_rewrite bool_decide_eq_false. Qed.

Lemma containsString_spec l s : containsString l s = true ↔ s ∈ l.
Proof. unfold containsString. rewrite existsb_elem. setoid_rewrite bool_decide_eq_true. naive_solver. Qed.

Lemma nonempty_list_false {A} (l : list A) : nonempty_list l = false ↔ l = [].
Proof. by destruct l. Qed.

Lemma audience_spec r id : (audience r id = Allow ↔ in_audience r id) ∧ audience r id ≠ DenyUnauthenticated.
Proof.
  unfold audience, in_audience. rewrite <- !nonempty_list_false, <- !containsFolded_spec.
  destruct (nonempty_list (rt_AllowedPrincipals r)), (containsFolded (rt_AllowedPrincipals r) _),
    (nonempty_list (rt_AllowedEmailDomains r)), (EmailVerified id), (containsFolded (rt_AllowedEmailDomains r) _); simpl;
    (split; [|done]); naive_solver.
Qed.

(** The tiers, each with what decides in it. *)
Definition with_identity (r : Route) (id : option Identity) : Decision :=
  match id with
  | None => DenyUnauthenticated
  | Some i =>
      if needs_org (rt_Sharing r) && (bool_decide (rt_OrgID r = "") || negb (containsString (OrgIDs i) (rt_OrgID r)))
      then DenyForbidden else audience r i
  end.

Lemma Authorize_tiers r id ip : Authorize r id ip =
  if negb (NetworkAllows r ip) then DenyForbidden
  else if bool_decide (rt_Sharing r = "public") then
    if nonempty_list (rt_AllowedPrincipals r) || nonempty_list (rt_AllowedEmailDomains r) then DenyForbidden else Allow
  else if needs_login (rt_Sharing r) then with_identity r id else DenyForbidden.
Proof.
  unfold Authorize, with_identity, needs_login, needs_org. destruct (NetworkAllows r ip); [|done]. cbn [negb].
  generalize (rt_Sharing r). intros tier.
  destruct (bool_decide (tier = "public")); [done|].
  destruct (decide (tier = "authenticated")) as [->|Ha]; [done|]. rewrite (bool_decide_eq_false_2 _ Ha).
  destruct (decide (tier = "private")) as [->|Hb]; [done|]. rewrite (bool_decide_eq_false_2 _ Hb).
  destruct (decide (tier = "org")) as [->|Hc]; [done|]. rewrite (bool_decide_eq_false_2 _ Hc).
  destruct (decide (tier = "link")) as [->|Hd]; [done|]. rewrite (bool_decide_eq_false_2 _ Hd). cbn [orb].
  rewrite bool_decide_eq_false_2; [done|].
  rewrite !not_elem_of_cons. split_and!; (done || apply not_elem_of_nil).
Qed.

Lemma with_identity_spec r id :
  (with_identity r id = Allow ↔ ∃ i, id = Some i ∧ serves r i) ∧ (with_identity r id = DenyUnauthenticated ↔ id = None).
Proof.
  destruct id as [i|]; simpl; [|naive_solver]. destruct (audience_spec r i) as [H1 H2].
  assert ((∃ i', Some i = Some i' ∧ serves r i') ↔ serves r i) as -> by naive_solver.
  unfold serves. rewrite <- containsString_spec, <- H1. destruct (needs_org (rt_Sharing r)); simpl; [|naive_solver].
  case_bool_decide; simpl; [naive_solver|]. destruct (containsString (OrgIDs i) (rt_OrgID r)); simpl; naive_solver.
Qed.

Lemma Authorize_spec r id ip :
  (Authorize r id ip = Allow ↔ allowed r id ip) ∧
  (Authorize r id ip = DenyUnauthenticated ↔ in_network r ip ∧ needs_login (rt_Sharing r) = true ∧ id = None).
Proof.
  rewrite Authorize_tiers. unfold allowed. rewrite <- NetworkAllows_spec. destruct (NetworkAllows r ip); cbn [negb]; [|naive_solver].
  destruct (with_identity_spec r id) as [H1 H2]. case_bool_decide as Hp.
  - assert (needs_login (rt_Sharing r) = false) as -> by (by rewrite Hp). rewrite <- !nonempty_list_false.
    destruct (nonempty_list _), (nonempty_list _); simpl; naive_solver.
  - destruct (needs_login (rt_Sharing r)); [rewrite H1, H2|]; naive_solver.
Qed.

(** C29: exactly who passes a route.  The client is in one of the route's networks, if it
    has any; then a public route lets everyone pass, unless it names an audience, and one
    of the other tiers those with an identity, of the route's organization for a private
    one, that is in the route's audience.  Only a client without an identity is sent to
    log in, and only where logging in may help. *)
Theorem Authorize_exact r id ip :
  (Authorize r id ip = Allow ↔ allowed r id ip) ∧
  (Authorize r id ip = DenyUnauthenticated ↔ in_network r ip ∧ needs_login (rt_Sharing r) = true ∧ id = None).
Proof. apply Authorize_spec. Qed.

End passing.

(** ** Examples *)

Definition ex_expose (label : string) : SandboxExpose :=
  {| ex_Port := 8080; ex_Label := label; ex_Sharing := ""; ex_Network := []; ex_ForwardAuthURL := "";
     ex_AllowedPrincipals := []; ex_AllowedEmailDomains := [] |}.

Definition ex_sandbox (ns endpoint id label : string) : Sandbox :=
  {| sb_Namespace := ns; sb_Name := "dup"; sb_Expose := Some (ex_expose label); sb_Phase := SandboxReady;
     sb_Endpoint := endpoint; sb_SandboxID := id |}.

Definition ex_a : Sandbox := ex_sandbox "mitos-org-a" "10.0.0.10:9091" "sbx-a" "tenant-a".
Definition ex_b : Sandbox := ex_sandbox "mitos-org-b" "10.0.0.11:9091" "sbx-b" "tenant-b".

Definition ex_get (ns name : string) : secret_read :=
  if bool_decide (ns = "mitos-org-a") then Found "tok-a" else Found "tok-b".

Definition ex_states : list ClaimState :=
  [expose_route ex_a (ex_expose "tenant-a") "tok-a"; expose_route ex_b (ex_expose "tenant-b") "tok-b"].

Lemma routes_follow_sandboxes_witness :
  Reconcile (Some [ex_a; ex_b]) ex_get = Some (ex_states, false) ∧
  (admin_sync "admintok" ("Bearer " +:+ "admintok") (Some (routes_body ex_states)) ∅).1 = 204.
Proof.
  assert (Reconcile (Some [ex_a; ex_b]) ex_get = Some (ex_states, false)) as H by reflexivity. split; [exact H|].
  pose proof (routes_follow_sandboxes [ex_a; ex_b] ex_get ex_states false "admintok" ∅) as Ht.
  destruct (admin_sync "admintok" ("Bearer " +:+ "admintok") (Some (routes_body ex_states)) ∅) as [status t'].
  destruct Ht as (Hs & _); [|exact H|done| | |exact Hs].
  - repeat constructor; unfold named; by_eval.
  - unfold route_ok. repeat constructor; by_eval.
  - unfold fits. by_eval.
Defined.

(** Two tenants may ask for one label: the one listed last has it. *)
Example label_taken_over :
  Reconcile (Some [ex_a; ex_sandbox "mitos-org-b" "10.0.0.11:9091" "sbx-b" "tenant-a"]) ex_get =
    Some ([expose_route ex_a (ex_expose "tenant-a") "tok-a"; expose_route ex_b (ex_expose "tenant-a") "tok-b"], false) ∧
  rt_SandboxID <$> Lookup (Sync [expose_route ex_a (ex_expose "tenant-a") "tok-a";
                                 expose_route ex_b (ex_expose "tenant-a") "tok-b"] ∅) "tenant-a" = Some "sbx-b".
Proof. by split. Qed.

(** An address that its provider has not verified passes a list of principals. *)
Example unverified_principal `{!Unicode} :
  Authorize {| rt_Label := "app1"; rt_SandboxID := "sb"; rt_NodeEndpoint := "n:9091"; rt_Port := 80; rt_Token := "tok";
               rt_Sharing := "authenticated"; rt_OrgID := ""; rt_Network := []; rt_ForwardAuthURL := "";
               rt_AllowedPrincipals := ["ceo@example.com"]; rt_AllowedEmailDomains := [] |}
            (Some {| Sub := "u-2"; Email := "ceo@example.com"; EmailVerified := false; OrgIDs := [] |}) None = Allow.
Proof.
  unfold Authorize, audience, NetworkAllows, containsFolded. cbn [rt_Sharing rt_Network rt_AllowedPrincipals rt_AllowedEmailDomains Email].
  closed_fields. simpl. rewrite EqualFold_refl. reflexivity.
Qed.

End PreviewRoutesTheorems.
