(* ===== verification/PreviewProxy.v ===== *)
(** * internal/preview: the proxy and its login

    proxy.go, forwardauth.go, oidc.go and resolve.go.  A handler returns the response it
    writes, and the nonces the grant signer has then seen.  The clock is read several times
    while a request is served: [clock k] is the [k]th reading.  The identity provider, the
    resolver's service and the servers of forward authentication are arguments. *)

From Stdlib Require Import Ascii.
From S2P Require Import Prelude Sha256 Json GoStrings GoNet GoUrl GoHttp Sessions Preview PreviewRoutes.
Import Sessions Sha256 Json GoStrings GoNet GoUrl GoHttp Preview PreviewRoutes.

Module PreviewProxy.

(** What a handler writes; [Forward] hands the request to the backend. *)
Inductive response :=
| Error (status : Z) (cookies : list Cookie)
| Redirect (cookies : list Cookie) (location : string)
| Forward (out : Outgoing).

(** ** The resolver *)

Record Resolver := { rs_URL : string; rs_Token : string }.

Inductive resolve_error := ErrResolveDisabled | ErrResolve.

Record resolved := { rd_AccountID : string; rd_OrgIDs : list string }.

Definition set_resolved (n : string) (v : json) (o : resolved) : option resolved :=
  if bool_decide (n = "accountId") then
    x ← into_string (rd_AccountID o) v; Some {| rd_AccountID := x; rd_OrgIDs := rd_OrgIDs o |}
  else x ← into_list (into_string "") (rd_OrgIDs o) v; Some {| rd_AccountID := rd_AccountID o; rd_OrgIDs := x |}.

(** [post url token body] is the answer to the request: no answer, or its status and body. *)
Definition Resolve (post : string → string → string → option (Z * string)) (r : Resolver) (email : string) :
    result resolve_error (string * list string) :=
  if bool_decide (rs_URL r = "") then Err ErrResolveDisabled
  else
    let body := render (JObj [("email", JStr email)]) in
    match post (rs_URL r +:+ "/internal/identity/resolve") (rs_Token r) body with
    | None => Err ErrResolve
    | Some (status, answer) =>
        if (status <? 200) || (299 <? status) then Err ErrResolve
        else match v ← decode_first answer;
                   into_struct ["accountId"; "orgIds"] set_resolved {| rd_AccountID := ""; rd_OrgIDs := [] |} v with
             | None => Err ErrResolve
             | Some o => Ok (rd_AccountID o, rd_OrgIDs o)
             end
    end.

(** ** The auth origin *)

Record AuthOrigin := {
  ao_Verify : string → option OIDCClaims;
  ao_AuthCodeURL : string → string;
  ao_Exchange : string → option string;
  ao_Grants : string;
  ao_SSO : string;
  ao_StateCodec : string;
  ao_Resolver : option Resolver;
  ao_post : string → string → string → option (Z * string);
  ao_ExposeDomain : string;
  ao_GroupsToOrgs : option (OIDCClaims → list string);
}.

Definition ssoCookieName : string := "__Host-mitos_sso".
Definition ssoStateCookieName : string := "__Host-mitos_oidc_state".
Definition stateTTL : Z := 10 * minute.
Definition grantTTL : Z := 30 * second.
Definition ssoTTL : Z := 12 * hour.

Definition resolveOrgs (a : AuthOrigin) (claims : OIDCClaims) : option (list string) :=
  let groups := match ao_GroupsToOrgs a with Some f => f claims | None => [] end in
  if negb (oc_EmailVerified claims) then Some []
  else match ao_Resolver a with
       | None => Some groups
       | Some r =>
           match Resolve (ao_post a) r (oc_Email claims) with
           | Ok (_, orgIDs) => Some orgIDs
           | Err ErrResolveDisabled => Some groups
           | Err ErrResolve => None
           end
       end.

Definition mintGrantAndRedirect (a : AuthOrigin) (rnd : option string) (now : Z) (cookies : list Cookie)
    (id : Identity) (label path : string) : response :=
  match Mint_grant (ao_Grants a) rnd label id (now + grantTTL) with
  | Err _ => Error 500 cookies
  | Ok grant =>
      let dest := "https://" +:+ label +:+ "." +:+ ao_ExposeDomain a +:+ "/__mitos_auth/cb" in
      Redirect cookies (redirect_location (dest +:+ "?" +:+ Encode {["grant" := [grant]; "path" := [path]]}))
  end.

Definition state_payload (rd path : string) : string := render (JObj [("rd", JStr rd); ("path", JStr path)]).

Definition set_state_payload (n : string) (v : json) (pl : string * string) : option (string * string) :=
  if bool_decide (n = "rd") then x ← into_string pl.1 v; Some (x, pl.2) else x ← into_string pl.2 v; Some (pl.1, x).

Definition or_root (path : string) : string := if bool_decide (path = "") then "/" else path.

Definition state_identity (s : string) : Identity := {| Sub := s; Email := ""; EmailVerified := false; OrgIDs := [] |}.

Definition ServeStart (a : AuthOrigin) (routes : RouteTable) (rnd : option string) (clock : nat → Z) (r : Request) : response :=
  let rd := Get (Query (r_URL r)) "rd" in
  let path := or_root (Get (Query (r_URL r)) "path") in
  match Lookup routes rd with
  | None => Error 400 []
  | Some route =>
      let sso := v ← request_Cookie r ssoCookieName;
                 if bool_decide (v = "") then None
                 else match Decode (ao_SSO a) v (clock 0%nat) with Ok id => Some id | Err _ => None end in
      match sso with
      | Some id => mintGrantAndRedirect a rnd (clock 1%nat) [] id (rt_Label route) path
      | None =>
          let stateVal := Encode_session (ao_StateCodec a) (state_identity (state_payload rd path)) (clock 1%nat + stateTTL) in
          Redirect [{| ck_Name := ssoStateCookieName; ck_Value := stateVal; ck_MaxAge := stateTTL / second |}]
                   (redirect_location (ao_AuthCodeURL a stateVal))
      end
  end.

Definition claims_identity (claims : OIDCClaims) (orgIDs : list string) : Identity :=
  {| Sub := oc_Subject claims; Email := oc_Email claims; EmailVerified := oc_EmailVerified claims; OrgIDs := orgIDs |}.

Definition ServeCallback (a : AuthOrigin) (routes : RouteTable) (rnd : option string) (clock : nat → Z) (r : Request) : response :=
  let stateParam := Get (Query (r_URL r)) "state" in
  match request_Cookie r ssoStateCookieName with
  | None | Some "" => Error 400 []
  | Some stateCookie =>
      if negb (bool_decide (stateParam = stateCookie)) then Error 400 []
      else match Decode (ao_StateCodec a) stateCookie (clock 0%nat) with
      | Err _ => Error 400 []
      | Ok stateID =>
          match v ← parse (Sub stateID); into_struct ["rd"; "path"] set_state_payload ("", "") v with
          | None => Error 400 []
          | Some (rd, path) =>
              match Lookup routes rd with
              | None => Error 400 []
              | Some route =>
                  match raw ← ao_Exchange a (Get (Query (r_URL r)) "code"); ao_Verify a raw with
                  | None => Error 502 []
                  | Some claims =>
                      match resolveOrgs a claims with
                      | None => Error 502 []
                      | Some orgIDs =>
                          let id := claims_identity claims orgIDs in
                          let ssoVal := Encode_session (ao_SSO a) id (clock 1%nat + ssoTTL) in
                          let cookies :=
                            [{| ck_Name := ssoCookieName; ck_Value := ssoVal; ck_MaxAge := ssoTTL / second |};
                             {| ck_Name := ssoStateCookieName; ck_Value := ""; ck_MaxAge := -1 |}] in
                          mintGrantAndRedirect a rnd (clock 2%nat) cookies id (rt_Label route) (or_root path)
                      end
                  end
              end
          end
      end
  end.

(** ** Forward authentication *)

Definition auth_prefix : string := "X-Auth-Request-".

Definition is_auth_header (k : string) : bool := HasPrefix (CanonicalHeaderKey k) auth_prefix.

Definition StripForwardAuthHeaders (h : Header) : Header := filter (λ kv, is_auth_header kv.1 = false) h.

Definition auth_request (r : Request) : Header :=
  let h := header_Set ∅ "X-Forwarded-Method" (r_Method r) in
  let h := header_Set h "X-Forwarded-Uri" (RequestURI (r_URL r)) in
  let h := header_Set h "X-Forwarded-Host" (r_Host r) in
  let h := header_Set h "X-Forwarded-For"
             (match SplitHostPort (r_RemoteAddr r) with Some (host, _) => host | None => r_RemoteAddr r end) in
  let cookie := header_Get (r_Header r) "Cookie" in
  if bool_decide (cookie = "") then h else header_Set h "Cookie" cookie.

Section serve.
Context {UC : Unicode} {MR : MapRange} {HC : HttpClient}.

Definition auth_identity (h : Header) : Identity :=
  let groups := header_Get h "X-Auth-Request-Groups" in
  {| Sub := header_Get h "X-Auth-Request-User"; Email := header_Get h "X-Auth-Request-Email";
     EmailVerified := bool_decide (header_Get h "X-Auth-Request-Verified-Email" = "true");
     OrgIDs := if bool_decide (groups = "") then [] else filter (λ p, p ≠ "") (TrimSpace <$> Split groups ",") |}.

(** Under their canonical names. *)
Definition copy_headers (h : Header) : Header :=
  foldl (λ out '(k, vs), if is_auth_header k then <[CanonicalHeaderKey k := vs]> out else out) ∅
        (map_range "forwardauth.go:74" h).

Inductive auth_outcome :=
| AuthFailed
| AuthDenied (status : Z)
| AuthAllowed (id : Identity) (copyHeaders : Header).

Definition ForwardAuth (authURL : string) (r : Request) : auth_outcome :=
  match client_Do 10 authURL (auth_request r) with
  | None => AuthFailed
  | Some resp =>
      if (resp_StatusCode resp <? 200) || (299 <? resp_StatusCode resp) then AuthDenied (resp_StatusCode resp)
      else AuthAllowed (auth_identity (resp_Header resp)) (copy_headers (resp_Header resp))
  end.

(** ** The proxy *)

(** Secrets of the signers that are configured. *)
Record Proxy := {
  p_domain : string;
  p_signer : string;
  p_routes : RouteTable;
  p_authOrigin : option AuthOrigin;
  p_sessions : option string;
  p_grantSigner : option string;
}.

Definition parseClientIP (addr : string) : option IP :=
  match SplitHostPort addr with None => ParseIP addr | Some (host, _) => ParseIP host end.

Definition safeRelPath (p : string) : string :=
  if bool_decide (p = "") || negb (HasPrefix p "/") || HasPrefix p "//" || contains_char p backslash ||
     contains_char p "013" || contains_char p "010"
  then "/" else p.

Definition extractToken (r : Request) : string :=
  let t := Get (Query (r_URL r)) "token" in
  if negb (bool_decide (t = "")) then t
  else match CutPrefix (header_Get (r_Header r) "Authorization") "Bearer " with
       | Some auth => TrimSpace auth
       | None => ""
       end.

Definition stripQueryParam (rawQuery key : string) : string :=
  let q := ParseQuery rawQuery in if Has q key then Encode (Del q key) else rawQuery.

Definition readSession (p : Proxy) (now : Z) (r : Request) : option Identity :=
  secret ← p_sessions p;
  c ← request_Cookie r SessionCookieName;
  match Decode secret c now with Ok id => Some id | Err _ => None end.

Definition redirectToLogin (p : Proxy) (r : Request) (label : string) : response :=
  match p_sessions p with
  | None => Error 401 []
  | Some _ =>
      let q := u_RawQuery (r_URL r) in
      let reqPath := u_Path (r_URL r) +:+ (if bool_decide (q = "") then "" else "?" +:+ q) in
      Redirect [] (redirect_location ("https://auth." +:+ p_domain p +:+ "/start?" +:+
                                      Encode {["rd" := [label]; "path" := [reqPath]]}))
  end.

Definition clean_url (u : URL) : string :=
  let encoded := Encode (Del (Query u) "token") in
  or_root (u_Path u +:+ (if bool_decide (encoded = "") then "" else "?" +:+ encoded)).

Definition mintSessionAndRedirect (secret : string) (now : Z) (r : Request) (id : Identity) : response :=
  Redirect [NewSessionCookie (Encode_session secret id (now + hour)) hour] (redirect_location (clean_url (r_URL r))).

Definition serveAuthCallback (p : Proxy) (clock : nat → Z) (r : Request) (label : string) (used : nonces) :
    response * nonces :=
  match p_grantSigner p, p_sessions p with
  | Some grants, Some secret =>
      let grant := Get (Query (r_URL r)) "grant" in
      if bool_decide (grant = "") then (Error 400 [], used)
      else match Verify_grant grants grant label (clock 0%nat) used with
           | (Err _, used) => (Error 401 [], used)
           | (Ok id, used) =>
               (Redirect [NewSessionCookie (Encode_session secret id (clock 1%nat + hour)) hour]
                         (redirect_location (safeRelPath (Get (Query (r_URL r)) "path"))), used)
           end
  | _, _ => (Error 401 [], used)
  end.

(** The director's work on a copy of the request; the target has no path or query. *)
Definition expose_prefix (route : Route) : string :=
  "/v1/sandboxes/" +:+ rt_SandboxID route +:+ "/expose/" +:+ fmt_int (rt_Port route).

(** The client's headers with the public host and scheme, and the sandbox's bearer in place
    of what the client sent. *)
Definition public_host (r : Request) (h : Header) : Header :=
  if bool_decide (header_Get h "X-Forwarded-Host" = "") then header_Set h "X-Forwarded-Host" (r_Host r) else h.

Definition public_proto (r : Request) (h : Header) : Header :=
  if bool_decide (header_Get h "X-Forwarded-Proto" = "")
  then header_Set h "X-Forwarded-Proto" (if r_TLS r then "https" else "http") else h.

Definition set_bearer (bearer : string) (h : Header) : Header :=
  let h := header_Del h "Authorization" in
  if bool_decide (bearer = "") then h else header_Set h "Authorization" ("Bearer " +:+ bearer).

Definition director (r : Request) (route : Route) (forwardAuthHeaders : Header) : Outgoing :=
  let path := u_Path (r_URL r) in
  let joined := if HasPrefix path "/" then path else "/" +:+ path in
  {| o_Endpoint := rt_NodeEndpoint route; o_Host := rt_NodeEndpoint route;
     o_Path := expose_prefix route +:+ clean_rooted ("/" +:+ joined);
     o_RawQuery := stripQueryParam (u_RawQuery (r_URL r)) "token";
     o_Header := forwardAuthHeaders ∪ set_bearer (rt_Token route) (public_proto r (public_host r (r_Header r))) |}.

Definition reverseProxy (r : Request) (route : Route) (forwardAuthHeaders : Header) : response :=
  match forwarded r (director r route forwardAuthHeaders) with Some out => Forward out | None => Error 502 [] end.

(** The identity of a request by the route's tier: it, or the answer that ends the request. *)
Definition link_identity (orgs : list string) : Identity :=
  {| Sub := "link"; Email := ""; EmailVerified := false; OrgIDs := orgs |}.

Definition tier_identity (p : Proxy) (clock : nat → Z) (r : Request) (label : string) (route : Route) :
    result response (option Identity) :=
  let tier := rt_Sharing route in
  if bool_decide (tier = "private") || bool_decide (tier = "org") || bool_decide (tier = "authenticated") then
    match readSession p (clock 0%nat) r with Some id => Ok (Some id) | None => Err (redirectToLogin p r label) end
  else if bool_decide (tier = "link") then
    match readSession p (clock 0%nat) r with
    | Some id => Ok (Some id)
    | None =>
        let token := extractToken r in
        if bool_decide (token = "") then Err (Error 401 [])
        else match VerifyAt (p_signer p) token (clock 1%nat) with
             | Err _ => Err (Error 401 [])
             | Ok claims =>
                 if negb (bool_decide (SandboxID claims = rt_SandboxID route)) || negb (Port claims =? rt_Port route)
                 then Err (Error 403 [])
                 else match p_sessions p with
                      | Some secret => Err (mintSessionAndRedirect secret (clock 2%nat) r (link_identity [rt_OrgID route]))
                      | None => Ok (Some (link_identity []))
                      end
             end
    end
  else if bool_decide (tier = "public") then Ok None
  else Err (Error 403 []).

(** The identity, with the headers that go to the backend. *)
Definition resolve_identity (p : Proxy) (clock : nat → Z) (r : Request) (label : string) (route : Route) :
    result response (option Identity * Header) :=
  if negb (bool_decide (rt_ForwardAuthURL route = "")) then
    match ForwardAuth (rt_ForwardAuthURL route) r with
    | AuthFailed => Err (Error 502 [])
    | AuthDenied status => Err (Error status [])
    | AuthAllowed id h => Ok (Some id, h)
    end
  else let? id := tier_identity p clock r label route in Ok (id, ∅).

Definition strip_request (r : Request) : Request :=
  {| r_Method := r_Method r; r_Host := r_Host r; r_URL := r_URL r;
     r_Header := StripForwardAuthHeaders (r_Header r); r_RemoteAddr := r_RemoteAddr r; r_TLS := r_TLS r |}.

(** Steps 4 to 6: an app's request. *)
Definition serve_app (p : Proxy) (clock : nat → Z) (r : Request) (label : string) : response :=
  let r := strip_request r in
  let clientIP := parseClientIP (r_RemoteAddr r) in
  match Lookup (p_routes p) label with
  | None => Error 404 []
  | Some route =>
      if negb (NetworkAllows route clientIP) then Error 403 []
      else match resolve_identity p clock r label route with
           | Err resp => resp
           | Ok (id, forwardAuthHeaders) =>
               match Authorize route id clientIP with
               | Allow => reverseProxy r route forwardAuthHeaders
               | DenyForbidden => Error 403 []
               | DenyUnauthenticated => redirectToLogin p r label
               end
           end
  end.

Definition ServeHTTP (p : Proxy) (rnd : option string) (clock : nat → Z) (r : Request) (used : nonces) : response * nonces :=
  let authHost := "auth." +:+ p_domain p in
  let reqHost := ToLower (TrimSpace (r_Host r)) in
  if HasPrefix reqHost (authHost +:+ ":") || bool_decide (reqHost = authHost) then
    (match p_authOrigin p with
     | None => Error 404 []
     | Some a =>
         if bool_decide (u_Path (r_URL r) = "/start") then ServeStart a (p_routes p) rnd clock r
         else if bool_decide (u_Path (r_URL r) = "/auth/callback") then ServeCallback a (p_routes p) rnd clock r
         else Error 404 []
     end, used)
  else match ParseHost (r_Host r) (p_domain p) with
       | None => (Error 404 [], used)
       | Some label =>
           if IsReservedLabel label then (Error 404 [], used)
           else if bool_decide (u_Path (r_URL r) = "/__mitos_auth/cb") then serveAuthCallback p clock r label used
           else (serve_app p clock r label, used)
       end.

End serve.

End PreviewProxy.
