(* ===== verification/PreviewProxyTheorems.v ===== *)
(** * The preview proxy: theorems

    Exactly which requests reach a sandbox, and what of them does. *)

From Stdlib Require Import Ascii.
From S2P Require Import Prelude Sha256 Json Base64 GoStrings GoNet GoUrl GoHttp.
From S2P Require Import Sessions Preview PreviewTheorems PreviewRoutes PreviewRoutesTheorems PreviewProxy.
Import Sessions Sha256 Json Base64 GoStrings GoStringsTheorems GoNet GoUrl GoUrlTheorems GoHttp.
Import Preview PreviewTheorems PreviewRoutes PreviewRoutesTheorems PreviewProxy.

Module PreviewProxyTheorems.

(** Compare names of tiers. *)
Ltac tier_names := repeat match goal with
  | |- context [@bool_decide (@eq string (String ?a ?b) (String ?c ?d)) ?i] =>
      let v := eval vm_compute in (@bool_decide (@eq string (String a b) (String c d)) i) in
      change (@bool_decide (@eq string (String a b) (String c d)) i) with v
  end.

(** ** Names of headers *)

Lemma token_upper c : token_char (to_upper c) = token_char c.
Proof.
  apply (proj1 (eqb_true_iff _ _)). revert c. apply (all_ascii_spec (λ c, eqb (token_char (to_upper c)) (token_char c))).
  vm_compute. reflexivity.
Qed.

Lemma token_lower c : token_char (lower c) = token_char c.
Proof.
  apply (proj1 (eqb_true_iff _ _)). revert c. apply (all_ascii_spec (λ c, eqb (token_char (lower c)) (token_char c))).
  vm_compute. reflexivity.
Qed.

Lemma canon_case (up : bool) c :
  (if up then to_upper (to_upper c) else lower (lower c)) = (if up then to_upper c else lower c) ∧
  bool_decide ((if up then to_upper c else lower c) = "-"%char) = bool_decide (c = "-"%char).
Proof.
  assert (∀ c, bool_decide (to_upper (to_upper c) = to_upper c) && bool_decide (lower (lower c) = lower c) &&
    eqb (bool_decide (to_upper c = "-"%char)) (bool_decide (c = "-"%char)) &&
    eqb (bool_decide (lower c = "-"%char)) (bool_decide (c = "-"%char)) = true) as Hall.
  { apply (all_ascii_spec (λ c, _)). vm_compute. reflexivity. }
  specialize (Hall c). rewrite !andb_true_iff, !bool_decide_eq_true, !eqb_true_iff in Hall. destruct up; naive_solver.
Qed.

Lemma canon_idemp up s : canon up (canon up s) = canon up s.
Proof.
  revert up. induction s as [|c s IH]; intros up; [done|]. cbn [canon]. destruct (canon_case up c) as [H1 H2].
  rewrite H2, IH. f_equal. by destruct up.
Qed.

Lemma canon_token up s : forallb token_char (chars (canon up s)) = forallb token_char (chars s).
Proof.
  revert up. induction s as [|c s IH]; intros up; [done|]. simpl. rewrite IH. f_equal. destruct up; [apply token_upper|apply token_lower].
Qed.

Lemma canonical_idemp s : CanonicalHeaderKey (CanonicalHeaderKey s) = CanonicalHeaderKey s.
Proof.
  unfold CanonicalHeaderKey at 2 3. destruct (forallb token_char (chars s)) eqn:E.
  - unfold CanonicalHeaderKey. rewrite canon_token, E. apply canon_idemp.
  - unfold CanonicalHeaderKey. by rewrite E.
Qed.

Section gate.
Context {UC : Unicode} {MR : MapRange} {HC : HttpClient}.

(** The request is for the auth origin. *)
Definition for_auth (p : Proxy) (r : Request) : bool :=
  HasPrefix (ToLower (TrimSpace (r_Host r))) (("auth." +:+ p_domain p) +:+ ":") ||
  bool_decide (ToLower (TrimSpace (r_Host r)) = "auth." +:+ p_domain p).

(** The request carries a link's token for the sandbox and the port of the route. *)
Definition links_to (p : Proxy) (now : Z) (r : Request) (route : Route) : Prop :=
  extractToken r ≠ "" ∧ ∃ c, VerifyAt (p_signer p) (extractToken r) now = Ok c ∧
    SandboxID c = rt_SandboxID route ∧ Port c = rt_Port route.

(** How a request comes to an identity, with the headers that the backend is told it by. *)
Inductive identified (p : Proxy) (clock : nat → Z) (r : Request) (route : Route) : option Identity → Header → Prop :=
| by_auth_server id h :
    rt_ForwardAuthURL route ≠ "" → ForwardAuth (rt_ForwardAuthURL route) r = AuthAllowed id h →
    identified p clock r route (Some id) h
| by_session id :
    rt_ForwardAuthURL route = "" → needs_login (rt_Sharing route) = true → readSession p (clock 0%nat) r = Some id →
    identified p clock r route (Some id) ∅
| by_link :
    rt_ForwardAuthURL route = "" → rt_Sharing route = "link" → p_sessions p = None → links_to p (clock 1%nat) r route →
    identified p clock r route (Some (link_identity [])) ∅
| anonymous :
    rt_ForwardAuthURL route = "" → rt_Sharing route = "public" → identified p clock r route None ∅.

Lemma tier_identity_ok p clock r label route id :
  tier_identity p clock r label route = Ok id ↔
  (needs_login (rt_Sharing route) = true ∧ id ≠ None ∧ readSession p (clock 0%nat) r = id) ∨
  (rt_Sharing route = "link" ∧ p_sessions p = None ∧ links_to p (clock 1%nat) r route ∧ id = Some (link_identity [])) ∨
  (rt_Sharing route = "public" ∧ id = None).
Proof.
  unfold tier_identity, needs_login, links_to. generalize (rt_Sharing route). intros tier.
  destruct (decide (tier = "public")) as [->|Hp].
  { tier_names. simpl. split; [intros [= <-]; by do 2 right|].
    intros [(? & _)|[(? & _)|[_ ->]]]; [by vm_compute in *|done|done]. }
  destruct (decide (tier = "link")) as [->|Hl].
  { tier_names. cbn [orb]. change (bool_decide ("link" ∈ ["authenticated"; "private"; "org"; "link"])) with true.
    destruct (readSession p (clock 0%nat) r) as [i|] eqn:Es.
    { split; [intros [= <-]; by left|]. intros [(_ & _ & <-)|[(_ & Hn & _)|[? _]]]; [done| |done].
      unfold readSession in Es. by rewrite Hn in Es. }
    case_bool_decide as Ht; [split; [done|]; intros [(_ & ? & <-)|[(_ & _ & [? _] & _)|[? _]]]; done|].
    destruct (VerifyAt _ _ _) as [c|e];
      [|split; [done|]; intros [(_ & ? & <-)|[(_ & _ & (_ & ? & ? & _) & _)|[? _]]]; done].
    destruct (decide (SandboxID c = rt_SandboxID route ∧ Port c = rt_Port route)) as [[E1 E2]|Hne].
    - rewrite bool_decide_eq_true_2, (proj2 (Z.eqb_eq _ _)) by done. cbn [negb orb]. destruct (p_sessions p).
      + split; [done|]. intros [(_ & ? & <-)|[(_ & ? & _)|[? _]]]; done.
      + split; [intros [= <-]; right; left; do 2 (split; [done|]); split; [split; [done|by exists c]|done]|].
        intros [(_ & ? & <-)|[(_ & _ & _ & ->)|[? _]]]; done.
    - assert (negb (bool_decide (SandboxID c = rt_SandboxID route)) || negb (Port c =? rt_Port route) = true) as ->.
      { destruct (decide (SandboxID c = rt_SandboxID route)) as [E1|E1]; [|by rewrite bool_decide_eq_false_2].
        rewrite bool_decide_eq_true_2 by done. simpl. apply negb_true_iff, Z.eqb_neq. naive_solver. }
      split; [done|]. intros [(_ & ? & <-)|[(_ & _ & (_ & c' & [= <-] & ? & ?) & _)|[? _]]]; [done|by destruct Hne|done]. }
  destruct (bool_decide (tier = "private") || bool_decide (tier = "org") || bool_decide (tier = "authenticated")) eqn:E.
  - assert (bool_decide (tier ∈ ["authenticated"; "private"; "org"; "link"]) = true) as ->.
    { apply bool_decide_eq_true. rewrite !orb_true_iff, !bool_decide_eq_true in E. set_solver. }
    destruct (readSession p (clock 0%nat) r) as [i|].
    + split; [intros [= <-]; by left|]. intros [(_ & _ & <-)|[[? _]|[? _]]]; done.
    + split; [done|]. intros [(_ & ? & <-)|[[? _]|[? _]]]; done.
  - rewrite !orb_false_iff, !bool_decide_eq_false in E. destruct E as [[E1 E2] E3].
    rewrite (bool_decide_eq_false_2 (tier = "link")), (bool_decide_eq_false_2 (tier = "public")) by done.
    rewrite bool_decide_eq_false_2 by (rewrite !not_elem_of_cons; split_and!; (done || apply not_elem_of_nil)).
    split; [done|]. intros [[? _]|[[? _]|[? _]]]; done.
Qed.

Lemma resolve_identity_ok p clock r label route id h :
  resolve_identity p clock r label route = Ok (id, h) ↔ identified p clock r route id h.
Proof.
  unfold resolve_identity. case_bool_decide as Hf; simpl.
  - rewrite rbind_ok. setoid_rewrite tier_identity_ok. split.
    + intros (i & Hi & [= <- <-]). destruct Hi as [(Hn & Hne & Hs)|[(Ht & Hp & Hl & ->)|(Ht & ->)]].
      * destruct i; [|done]. by apply by_session.
      * by apply by_link.
      * by apply anonymous.
    + intros Hi. exists id. destruct Hi; naive_solver.
  - split.
    + intros Hr. destruct (ForwardAuth _ _) as [|?|i hh] eqn:E; try done. injection Hr as <- <-. by apply by_auth_server.
    + intros Hi. destruct Hi as [? ? ? ->| | |]; naive_solver.
Qed.

(** The request, without what only an auth server may say. *)
Abbreviation told r := (strip_request r).

(** A request is admitted to a route with an identity. *)
Definition admitted (p : Proxy) (clock : nat → Z) (r : Request) (route : Route) (id : option Identity) (h : Header) : Prop :=
  identified p clock (told r) route id h ∧ allowed route id (parseClientIP (r_RemoteAddr r)).

Lemma serve_app_forwards p clock r label out :
  serve_app p clock r label = Forward out ↔
  ∃ route id h, Lookup (p_routes p) label = Some route ∧ admitted p clock r route id h ∧
    forwarded (told r) (director (told r) route h) = Some out.
Proof.
  unfold serve_app, admitted. change (r_RemoteAddr (told r)) with (r_RemoteAddr r).
  assert (∀ r l, redirectToLogin p r l ≠ Forward out) as Hlogin by (intros; unfold redirectToLogin; by case_match).
  destruct (Lookup (p_routes p) label) as [route|]; [|naive_solver].
  destruct (NetworkAllows route _) eqn:Hn; simpl.
  2:{ split; [done|]. intros (? & id & h & [= <-] & (_ & [Hin _]) & _). apply NetworkAllows_spec in Hin. congruence. }
  destruct (resolve_identity p clock (told r) label route) as [[id h]|resp] eqn:Er.
  - pose proof Er as Hi. apply resolve_identity_ok in Hi. destruct (Authorize_spec route id (parseClientIP (r_RemoteAddr r))) as [Ha _].
    split.
    + intros Hf. exists route, id, h. destruct (Authorize _ _ _) eqn:Ea; [|by apply Hlogin in Hf|done].
      unfold reverseProxy in Hf. destruct (forwarded _ _); [|done]. injection Hf as ->. naive_solver.
    + intros (? & id' & h' & [= <-] & (Hi' & Ha') & Hf). apply (resolve_identity_ok _ _ _ label) in Hi'.
      rewrite Er in Hi'. injection Hi' as <- <-. apply Ha in Ha' as ->. unfold reverseProxy. by rewrite Hf.
  - split.
    + intros ->. unfold resolve_identity in Er. destruct (negb _); [by case_match|]. unfold tier_identity in Er.
      exfalso. revert Er. repeat case_match; simpl; try done; intros [= Er]; try (by apply Hlogin in Er).
    + intros (? & id' & h' & [= <-] & (Hi' & _) & _). apply (resolve_identity_ok _ _ _ label) in Hi'. congruence.
Qed.

(** The auth origin answers itself. *)
Lemma mintGrant_answers a rnd now cookies id label path out : mintGrantAndRedirect a rnd now cookies id label path ≠ Forward out.
Proof. unfold mintGrantAndRedirect. by case_match. Qed.

Lemma ServeStart_answers a routes rnd clock r out : ServeStart a routes rnd clock r ≠ Forward out.
Proof. unfold ServeStart. destruct (Lookup _ _); [|done]. case_match; [apply mintGrant_answers|done]. Qed.

Lemma ServeCallback_answers a routes rnd clock r out : ServeCallback a routes rnd clock r ≠ Forward out.
Proof. unfold ServeCallback. repeat case_match; try done; apply mintGrant_answers. Qed.

Lemma ServeHTTP_forwards p rnd clock r used out :
  (ServeHTTP p rnd clock r used).1 = Forward out ↔
  for_auth p r = false ∧ u_Path (r_URL r) ≠ "/__mitos_auth/cb" ∧
  ∃ label route id h, ParseHost (r_Host r) (p_domain p) = Some label ∧ IsReservedLabel label = false ∧
    Lookup (p_routes p) label = Some route ∧ admitted p clock r route id h ∧
    forwarded (told r) (director (told r) route h) = Some out.
Proof.
  unfold ServeHTTP. fold (for_auth p r). destruct (for_auth p r).
  { split; [|intros [? _]; done]. intros Hf. exfalso. revert Hf. cbn [fst]. destruct (p_authOrigin p) as [a|]; [|done].
    case_bool_decide; [apply ServeStart_answers|]. case_bool_decide; [apply ServeCallback_answers|done]. }
  destruct (ParseHost _ _) as [label|]; [|split; [done|]; intros (_ & _ & ? & ? & ? & ? & ? & _); done].
  destruct (IsReservedLabel label) eqn:Hr.
  { split; [done|]. intros (_ & _ & ? & ? & ? & ? & [= <-] & ? & _). congruence. }
  case_bool_decide as Hcb.
  - split; [|intros (_ & ? & _); done]. intros Hf. exfalso. revert Hf. unfold serveAuthCallback. repeat case_match; done.
  - cbn [fst]. rewrite serve_app_forwards. split.
    + intros (route & id & h & Hl & Ha & Ho). split_and!; [done..|]. by exists label, route, id, h.
    + intros (_ & _ & label' & route & id & h & [= <-] & _ & Hl & Ha & Ho). by exists route, id, h.
Qed.

(** C10: exactly which requests reach a sandbox.  The host names a label of the domain that
    is neither reserved nor the auth origin, the label has a route, the request comes to an
    identity the way the route asks for, by its auth server, a session, or a link for its
    sandbox and port, and that identity is allowed on the route; then the route's request
    is sent, and no other. *)
Theorem ServeHTTP_forwards_iff p rnd clock r used out :
  (ServeHTTP p rnd clock r used).1 = Forward out ↔
  for_auth p r = false ∧ u_Path (r_URL r) ≠ "/__mitos_auth/cb" ∧
  ∃ label route id h, ParseHost (r_Host r) (p_domain p) = Some label ∧ IsReservedLabel label = false ∧
    Lookup (p_routes p) label = Some route ∧ admitted p clock r route id h ∧
    forwarded (told r) (director (told r) route h) = Some out.
Proof. apply ServeHTTP_forwards. Qed.

(** ** What reaches the backend *)

Lemma strip_lookup h k : is_auth_header k = false → StripForwardAuthHeaders h !! k = h !! k.
Proof.
  intros Hk. unfold StripForwardAuthHeaders. destruct (h !! k) as [vs|] eqn:E.
  - by apply map_lookup_filter_Some.
  - apply map_lookup_filter_None. by left.
Qed.

(** The other headers are sent on as they came. *)
Lemma director_lookup r route h k : (∀ k vs, h !! k = Some vs → is_auth_header k = true) → is_auth_header k = false →
  k ∉ ["Authorization"; "X-Forwarded-Proto"; "X-Forwarded-Host"] → o_Header (director (told r) route h) !! k = r_Header r !! k.
Proof.
  intros Hh Hk Hne. rewrite !not_elem_of_cons in Hne. destruct Hne as (H1 & H2 & H3 & _). cbn [director o_Header]. rewrite lookup_union_r.
  2:{ destruct (h !! k) eqn:E; [|done]. apply Hh in E. congruence. }
  unfold set_bearer, header_Del. change (CanonicalHeaderKey "Authorization") with "Authorization".
  transitivity (public_proto (told r) (public_host (told r) (r_Header (told r))) !! k).
  { case_bool_decide; [|rewrite header_Set_ne by done]; by rewrite lookup_delete_ne. }
  transitivity (public_host (told r) (r_Header (told r)) !! k).
  { unfold public_proto. case_bool_decide; [by rewrite header_Set_ne|done]. }
  transitivity (r_Header (told r) !! k).
  { unfold public_host. case_bool_decide; [by rewrite header_Set_ne|done]. }
  by apply strip_lookup.
Qed.

Lemma copy_headers_auth h k vs : copy_headers h !! k = Some vs → is_auth_header k = true.
Proof.
  unfold copy_headers. generalize (map_range "forwardauth.go:74" h). intros l.
  assert (∀ (out : Header), (∀ k vs, out !! k = Some vs → is_auth_header k = true) →
    ∀ k vs, foldl (λ out '(k, vs), if is_auth_header k then <[CanonicalHeaderKey k := vs]> out else out) out l !! k = Some vs →
    is_auth_header k = true) as Hl; [|apply Hl; intros ? ?; by rewrite lookup_empty].
  induction l as [|[k0 vs0] l IH]; intros out Hout; [done|]. cbn [foldl]. apply IH. intros k1 vs1.
  destruct (is_auth_header k0) eqn:E; [|apply Hout]. destruct (decide (k1 = CanonicalHeaderKey k0)) as [->|Hne].
  - intros _. unfold is_auth_header in *. by rewrite canonical_idemp.
  - rewrite lookup_insert_ne by done. apply Hout.
Qed.

Lemma identified_headers p clock r route id h k vs :
  identified p clock r route id h → h !! k = Some vs → is_auth_header k = true.
Proof.
  intros Hi Hk. destruct Hi as [id h _ Hf|id|_ _ _ _|_ _]; try by rewrite lookup_empty in Hk.
  unfold ForwardAuth in Hf. destruct (client_Do _ _ _) as [resp|]; [|done]. destruct (_ || _); [done|]. injection Hf as <- <-.
  by apply copy_headers_auth in Hk.
Qed.

Lemma set_bearer_auth tok h : set_bearer tok h !! "Authorization" = if bool_decide (tok = "") then None else Some ["Bearer " +:+ tok].
Proof.
  unfold set_bearer, header_Del, header_Set. change (CanonicalHeaderKey "Authorization") with "Authorization".
  case_bool_decide; [apply lookup_delete_eq|apply lookup_insert_eq].
Qed.

(** Headers of an auth server that a client sent are gone. *)
Lemma edge_header_auth r route k : is_auth_header k = true →
  set_bearer (rt_Token route) (public_proto (told r) (public_host (told r) (r_Header (told r)))) !! k = None.
Proof.
  intros Hk. assert (k ≠ "Authorization" ∧ k ≠ "X-Forwarded-Proto" ∧ k ≠ "X-Forwarded-Host") as (H1 & H2 & H3).
  { split_and!; intros ->; done. }
  unfold set_bearer, header_Del. change (CanonicalHeaderKey "Authorization") with "Authorization".
  transitivity (public_proto (told r) (public_host (told r) (r_Header (told r))) !! k).
  { case_bool_decide; [|rewrite header_Set_ne by done]; by rewrite lookup_delete_ne. }
  transitivity (public_host (told r) (r_Header (told r)) !! k).
  { unfold public_proto. case_bool_decide; [by rewrite header_Set_ne|done]. }
  transitivity (r_Header (told r) !! k).
  { unfold public_host. case_bool_decide; [by rewrite header_Set_ne|done]. }
  cbn [strip_request r_Header]. unfold StripForwardAuthHeaders. apply map_lookup_filter_None. right. intros vs _. simpl. congruence.
Qed.

Lemma expose_path_elems r route h :
  ∃ es, Forall clean_elem es ∧
    Split (o_Path (director r route h)) "/" = Split (expose_prefix route) "/" ++ match es with [] => [""] | _ => es end.
Proof.
  cbn [director o_Path]. generalize ("/" +:+ (if HasPrefix (u_Path (r_URL r)) "/" then u_Path (r_URL r) else "/" +:+ u_Path (r_URL r))).
  intros sub. exists (clean_elems sub). split; [apply clean_elems_ok|].
  pose proof (clean_rooted_elems sub) as Hs. unfold clean_rooted in *. fold (clean_elems sub) in *.
  change ("/" +:+ join "/" (clean_elems sub)) with (String "/" (join "/" (clean_elems sub))) in *. rewrite Split_app. f_equal. cbn [Split] in Hs.
  destruct (Split (join "/" (clean_elems sub)) "/") as [|e es] eqn:E; [by apply Split_ne in E|].
  rewrite bool_decide_eq_true_2 in Hs by done. destruct (clean_elems sub); congruence.
Qed.

Lemma stripQueryParam_gone q k : ParseQuery (stripQueryParam q k) !! k = None.
Proof.
  unfold stripQueryParam, Has. case_bool_decide as Hk; [|by apply eq_None_not_Some].
  rewrite ParseQuery_Encode; [apply lookup_delete_eq|]. apply map_Forall_delete, ParseQuery_encodable.
Qed.

(** C11: what reaches a sandbox of a request.  It goes to the route's node, below the path of
    the route's sandbox and port whatever dots and slashes the client wrote; its bearer is
    the route's or none; its identity headers are the auth server's; the link's token is
    gone from its query. *)
Theorem backend_request p rnd clock r used out :
  (ServeHTTP p rnd clock r used).1 = Forward out →
  ∃ label route id h, ParseHost (r_Host r) (p_domain p) = Some label ∧ Lookup (p_routes p) label = Some route ∧
    admitted p clock r route id h ∧
    o_Endpoint out = rt_NodeEndpoint route ∧
    (∃ es, Forall clean_elem es ∧
       Split (o_Path out) "/" = Split (expose_prefix route) "/" ++ match es with [] => [""] | _ => es end) ∧
    (∀ vs, o_Header out !! "Authorization" = Some vs → rt_Token route ≠ "" ∧ vs = ["Bearer " +:+ rt_Token route]) ∧
    (∀ k vs, is_auth_header k = true → o_Header out !! k = Some vs → h !! k = Some vs) ∧
    ParseQuery (o_RawQuery out) !! "token" = None.
Proof.
  intros (_ & _ & label & route & id & h & Hp & _ & Hl & Ha & Hf)%ServeHTTP_forwards.
  exists label, route, id, h. do 3 (split; [done|]). pose proof Ha as [Hi _].
  assert (∀ k vs, h !! k = Some vs → is_auth_header k = true) as Hh by (intros; by eapply identified_headers).
  unfold forwarded in Hf. destruct (is_print _); [|done]. cbn [negb] in Hf.
  injection Hf as <-. cbn [o_Endpoint o_Path o_RawQuery o_Header]. split; [done|]. split; [apply (expose_path_elems (told r) route h)|].
  assert (∀ k, is_auth_header k = true ∨ k = "Authorization" → (k ∉ own_headers) ∧ (k ∉ hopHeaders)) as Hk.
  { intros k Hk. split; intros Hin; repeat (apply elem_of_cons in Hin as [->|Hin]; [by destruct Hk|]); by apply elem_of_nil in Hin. }
  split_and!; [| |apply stripQueryParam_gone].
  - intros vs. destruct (Hk "Authorization") as [Ho Hho]; [by right|]. rewrite forwarded_header_lookup by done. case_match; [done|].
    cbn [director o_Header]. rewrite lookup_union_r, set_bearer_auth; [case_bool_decide; [done|]; by intros [= <-]|].
    destruct (h !! "Authorization") as [vs'|] eqn:E; [|done]. by apply Hh in E.
  - intros k vs Hak. destruct (Hk k) as [Ho Hho]; [by left|]. rewrite forwarded_header_lookup by done. case_match; [done|].
    cbn [director o_Header]. intros [Hv|[_ Hv]]%lookup_union_Some_raw; [done|]. by rewrite edge_header_auth in Hv.
Qed.

End gate.

(** ** Examples *)

Definition ex_route (label sharing org : string) : Route :=
  {| rt_Label := label; rt_SandboxID := "sb-" +:+ label; rt_NodeEndpoint := "10.0.0.7:9091"; rt_Port := 8080; rt_Token := "tok";
     rt_Sharing := sharing; rt_OrgID := org; rt_Network := []; rt_ForwardAuthURL := ""; rt_AllowedPrincipals := [];
     rt_AllowedEmailDomains := [] |}.

Definition ex_url (path query : string) : URL := {| u_Path := path; u_RawPath := ""; u_RawQuery := query; u_ForceQuery := false |}.

Definition ex_request (host path query : string) (h : Header) : Request :=
  {| r_Method := "GET"; r_Host := host; r_URL := ex_url path query; r_Header := h; r_RemoteAddr := "192.0.2.1:5000"; r_TLS := true |}.

(** No server answers. *)
Definition no_servers : HttpClient := {| roundTrip _ _ := None; follow _ _ _ := None |}.

Definition ex_public : Proxy :=
  {| p_domain := "mitos.app"; p_signer := ex_secret; p_routes := {["site" := ex_route "site" "public" ""]};
     p_authOrigin := None; p_sessions := None; p_grantSigner := None |}.

Definition ex_spoof : Header := {["Authorization" := ["Bearer guess"]; "X-Auth-Request-Email" := ["root@example.com"]]}.

Lemma backend_request_witness :
  ∃ out, (ServeHTTP (HC := no_servers) ex_public None (λ _, 0)
            (ex_request "site.mitos.app" "/a/../../../b" "token=t&x=1" ex_spoof) ∅).1 = Forward out ∧
    o_Path out = "/v1/sandboxes/sb-site/expose/8080/b" ∧ o_Header out !! "Authorization" = Some ["Bearer tok"] ∧
    ParseQuery (o_RawQuery out) !! "token" = None.
Proof.
  assert (∃ out, (ServeHTTP (HC := no_servers) ex_public None (λ _, 0)
            (ex_request "site.mitos.app" "/a/../../../b" "token=t&x=1" ex_spoof) ∅).1 = Forward out ∧
    o_Path out = "/v1/sandboxes/sb-site/expose/8080/b" ∧ o_Header out !! "Authorization" = Some ["Bearer tok"])
    as (out & Ho & H1 & H2) by (eexists; split; [vm_compute; reflexivity|]; split; reflexivity).
  exists out. do 3 (split; [assumption|]).
  destruct (backend_request (HC := no_servers) _ _ _ _ _ out Ho) as (_ & _ & _ & _ & _ & _ & _ & _ & _ & _ & _ & H). exact H.
Defined.

(** An auth server that sends the visitor to its login page lets every visitor pass: the
    client follows the redirection, and the page answers. *)
Definition login_page : HttpClient := {|
  roundTrip url _ :=
    if bool_decide (url = "http://auth/check")
    then Some {| resp_StatusCode := 302; resp_Header := {["Location" := ["http://auth/login"]]} |}
    else Some {| resp_StatusCode := 200; resp_Header := ∅ |};
  follow _ h location := Some (location, h);
|}.

Definition ex_guarded : Route :=
  {| rt_Label := "wiki"; rt_SandboxID := "sb-wiki"; rt_NodeEndpoint := "10.0.0.7:9091"; rt_Port := 8080; rt_Token := "tok";
     rt_Sharing := "authenticated"; rt_OrgID := ""; rt_Network := []; rt_ForwardAuthURL := "http://auth/check";
     rt_AllowedPrincipals := []; rt_AllowedEmailDomains := [] |}.

Example login_page_admits :
  ∃ out, (ServeHTTP (HC := login_page)
            {| p_domain := "mitos.app"; p_signer := ex_secret; p_routes := {["wiki" := ex_guarded]};
               p_authOrigin := None; p_sessions := None; p_grantSigner := None |} None (λ _, 0)
            (ex_request "wiki.mitos.app" "/" "" ∅) ∅).1 = Forward out.
Proof. eexists. vm_compute. reflexivity. Qed.

(** The headers a client lists in Connection go after they were set: here the bearer. *)
Example connection_drops_bearer :
  ∃ out, (ServeHTTP (HC := no_servers) ex_public None (λ _, 0)
            (ex_request "site.mitos.app" "/" "" {["Connection" := ["authorization, x-forwarded-host"]]}) ∅).1 = Forward out ∧
    o_Header out !! "Authorization" = None ∧ o_Header out !! "X-Forwarded-Host" = None.
Proof. eexists. split; [vm_compute; reflexivity|]. by split. Qed.

(** With sessions and without an auth origin a visitor is sent to a host that answers 404. *)
Definition ex_no_origin : Proxy :=
  {| p_domain := "mitos.app"; p_signer := ex_secret; p_routes := {["app1" := ex_route "app1" "private" "acme"]};
     p_authOrigin := None; p_sessions := Some ex_secret; p_grantSigner := None |}.

Example login_without_origin :
  (ServeHTTP (HC := no_servers) ex_no_origin None (λ _, 0) (ex_request "app1.mitos.app" "/x" "" ∅) ∅).1 =
    Redirect [] "https://auth.mitos.app/start?path=%2Fx&rd=app1" ∧
  (ServeHTTP (HC := no_servers) ex_no_origin None (λ _, 0)
     (ex_request "auth.mitos.app" "/start" "path=%2Fx&rd=app1" ∅) ∅).1 = Error 404 [].
Proof. by split. Qed.

End PreviewProxyTheorems.
