(* ===== verification/PreviewLoginTheorems.v ===== *)
(** * The login of the preview proxy: theorems

    A visitor without a session is led through the auth origin back to the app, with a
    session that opens it; where the redirections lead. *)

From Stdlib Require Import Ascii.
From S2P Require Import Prelude Sha256 Json Base64 GoStrings GoNet GoUrl GoHttp.
From S2P Require Import Sessions Preview PreviewTheorems PreviewRoutes PreviewRoutesTheorems PreviewProxy PreviewProxyTheorems.
Import Sessions Sha256 Json Base64 GoStrings GoStringsTheorems GoNet GoUrl GoUrlTheorems GoHttp.
Import Preview PreviewTheorems PreviewRoutes PreviewRoutesTheorems PreviewProxy PreviewProxyTheorems.

Module PreviewLoginTheorems.

(** ** Texts of ASCII *)

Lemma ascii_only_spec s : ascii_only s = true ↔ ∀ c, c ∈ chars s → byte_of c < 128.
Proof.
  unfold ascii_only. rewrite all_chars_chars, forallb_forall. setoid_rewrite <- list_elem_of_In. by setoid_rewrite Z.ltb_lt.
Qed.

Lemma ascii_only_app s t : ascii_only (s +:+ t) = ascii_only s && ascii_only t.
Proof. unfold ascii_only. rewrite !all_chars_chars, chars_app. apply forallb_app. Qed.

Lemma hexEscape_ascii s : ascii_only s = true → hexEscapeNonASCII s = s.
Proof.
  induction s as [|c s IH]; [done|]. unfold ascii_only in *. simpl. intros [Hc Hs]%andb_true_iff.
  unfold escape_non_ascii_char. rewrite Hc, IH by done. by rewrite str_app_cons, str_app_nil_l.
Qed.

Lemma query_char_ascii c : query_char c = true → byte_of c < 128.
Proof.
  assert (∀ c, implb (query_char c) (byte_of c <? 128) = true) as Hall.
  { apply (all_ascii_spec (λ c, implb (query_char c) (byte_of c <? 128))). vm_compute. reflexivity. }
  intros H. specialize (Hall c). rewrite H in Hall. by apply Z.ltb_lt.
Qed.

Lemma join_chars sep l c : c ∈ chars (join sep l) → c ∈ chars sep ∨ ∃ s, s ∈ l ∧ c ∈ chars s.
Proof.
  induction l as [|s l IH]; [by intros ?%elem_of_nil|]. destruct l as [|t l].
  - intros Hc. right. exists s. split; [apply list_elem_of_here|done].
  - change (join sep (s :: t :: l)) with (s +:+ sep +:+ join sep (t :: l)). rewrite !chars_app, !elem_of_app.
    intros [Hc|[Hc|Hc]]; [right; exists s; split; [apply list_elem_of_here|done]|by left|].
    destruct (IH Hc) as [?|(x & Hx & Hxc)]; [by left|]. right. exists x. split; [by apply list_elem_of_further|done].
Qed.

(** The characters of an encoded query. *)
Lemma Encode_chars v c : c ∈ chars (Encode v) → query_char c = true ∨ c = "="%char ∨ c = "&"%char.
Proof.
  unfold Encode. intros [Hc|(s & Hs & Hc)]%join_chars; [simpl in Hc; apply list_elem_of_singleton in Hc; auto|].
  apply list_elem_of_bind in Hs as (k & Hs & _). apply list_elem_of_fmap in Hs as (x & -> & _).
  unfold encode_pair in Hc. rewrite !chars_app, !elem_of_app in Hc.
  pose proof (QueryEscape_chars k) as Hk. pose proof (QueryEscape_chars x) as Hx. rewrite Forall_forall in Hk, Hx.
  destruct Hc as [Hc|[Hc|Hc]]; [left; by apply Hk|simpl in Hc; apply list_elem_of_singleton in Hc; auto|left; by apply Hx].
Qed.

Lemma Encode_ascii v : ascii_only (Encode v) = true.
Proof. apply ascii_only_spec. intros c [Hc|[->| ->]]%Encode_chars; [by apply query_char_ascii|done|done]. Qed.

Lemma Encode_free v c : query_char c = false → c ≠ "="%char → c ≠ "&"%char → c ∉ chars (Encode v).
Proof. intros Hq H1 H2 [Hc|[->| ->]]%Encode_chars; congruence. Qed.

(** An absolute location is sent as it is. *)
Lemma redirect_absolute s : ascii_only s = true → HasPrefix s "/" = false → redirect_location s = s.
Proof. intros Ha Hp. unfold redirect_location. rewrite Hp. cbn [andb]. by apply hexEscape_ascii. Qed.

(** ** Where redirections lead *)

(** A browser reads a location without its tabs and line breaks and takes backslashes for
    slashes; two of them at its start name another host. *)
Definition browser_ignores (c : ascii) : bool := (byte_of c =? 9) || (byte_of c =? 10) || (byte_of c =? 13).
Definition slashy (c : ascii) : bool := bool_decide (c ∈ ["/"%char; backslash]).

Definition leaves_origin (location : string) : bool :=
  match filter (λ c, browser_ignores c = false) (chars location) with
  | a :: b :: _ => slashy a && slashy b
  | _ => false
  end.

(** One slash, and nothing a browser would turn into another. *)
Definition local_path (s : string) : Prop :=
  ∃ rest, s = String "/" rest ∧ HasPrefix rest "/" = false ∧ ∀ c, c ∈ chars s → browser_ignores c = false ∧ c ≠ backslash.

Lemma hexEscape_unignored s : (∀ c, c ∈ chars s → browser_ignores c = false) →
  ∀ c, c ∈ chars (hexEscapeNonASCII s) → browser_ignores c = false.
Proof.
  intros H. induction s as [|d s IH]; intros c Hc; [by apply elem_of_nil in Hc|]. cbn [hexEscapeNonASCII] in Hc.
  rewrite chars_app, elem_of_app in Hc. destruct Hc as [Hc|Hc].
  - destruct (Z.ltb_spec (byte_of d) 128) as [Hd|Hd].
    + unfold escape_non_ascii_char in Hc. rewrite (proj2 (Z.ltb_lt _ _)) in Hc by done. simpl in Hc.
      apply list_elem_of_singleton in Hc as ->. apply H. apply list_elem_of_here.
    + assert (∀ d, implb (128 <=? byte_of d) (forallb (λ c, negb (browser_ignores c)) (chars (escape_non_ascii_char d))) = true) as Hall.
      { apply (all_ascii_spec (λ d, implb (128 <=? byte_of d) _)). vm_compute. reflexivity. }
      specialize (Hall d). rewrite (proj2 (Z.leb_le _ _)) in Hall by done. simpl in Hall. rewrite forallb_forall in Hall.
      apply negb_true_iff, Hall. by apply list_elem_of_In.
  - apply IH; [|done]. intros x Hx. apply H. simpl. by apply list_elem_of_further.
Qed.

Lemma filter_whole {A} (P : A → Prop) `{!∀ x, base.Decision (P x)} l : Forall P l → filter P l = l.
Proof. induction 1 as [|x l Hx _ IH]; [done|]. by rewrite filter_cons_True, IH. Qed.

Lemma local_path_stays s : local_path s → leaves_origin (hexEscapeNonASCII s) = false.
Proof.
  intros (rest & -> & Hp & Hc). unfold leaves_origin. rewrite filter_whole.
  2:{ apply Forall_forall. apply hexEscape_unignored. intros c Hin. by apply Hc. }
  cbn [hexEscapeNonASCII]. change (escape_non_ascii_char "/") with "/". rewrite str_app_cons, str_app_nil_l. cbn [String.list_ascii_of_string].
  destruct rest as [|c rest]; [done|]. cbn [hexEscapeNonASCII]. unfold escape_non_ascii_char.
  destruct (byte_of c <? 128); rewrite !str_app_cons; cbn [String.list_ascii_of_string]; [|done].
  change (slashy "/") with true. cbn [andb]. unfold slashy. apply bool_decide_eq_false. intros Hin.
  apply elem_of_cons in Hin as [->|Hin]; [by destruct rest|]. apply list_elem_of_singleton in Hin as ->.
  destruct (Hc backslash) as [_ ?]; [|done]. simpl. by apply list_elem_of_further, list_elem_of_here.
Qed.

Lemma HasPrefix_slash x t : HasPrefix (String x t) "/" = bool_decide (x = "/"%char).
Proof.
  case_bool_decide as Hx; [apply prefix_spec; exists t; by rewrite Hx|]. apply not_true_iff_false. intros [u Hu]%prefix_spec.
  rewrite str_app_cons in Hu. congruence.
Qed.

Lemma Split_elem_chars s c e d : e ∈ Split s c → d ∈ chars e → d ∈ chars s.
Proof.
  revert e. induction s as [|x s IH]; intros e He Hd; simpl in *.
  { apply list_elem_of_singleton in He as ->. by apply elem_of_nil in Hd. }
  destruct (Split s c) as [|p ps]; [by apply elem_of_nil in He|]. case_bool_decide as Hx.
  - apply elem_of_cons in He as [->|He]; [by apply elem_of_nil in Hd|]. apply list_elem_of_further. by eapply IH.
  - apply elem_of_cons in He as [->|He].
    + simpl in Hd. apply elem_of_cons in Hd as [->|Hd]; [apply list_elem_of_here|]. apply list_elem_of_further.
      eapply IH; [apply list_elem_of_here|done].
    + apply list_elem_of_further. eapply IH; [by apply list_elem_of_further|done].
Qed.

Lemma clean_elems_from p e : e ∈ clean_elems p → e ∈ Split p "/".
Proof.
  unfold clean_elems. generalize (Split p "/"). intros es.
  assert (∀ out, e ∈ foldl clean_step out es → e ∈ out ∨ e ∈ es) as H; [|intros [Hn|?]%H; [by apply elem_of_nil in Hn|done]].
  induction es as [|x es IH]; intros out; cbn [foldl]; [by left|]. intros [Hin|Hin]%IH; [|right; by apply list_elem_of_further].
  unfold clean_step in Hin. destruct (_ || _); [by left|]. case_bool_decide.
  - left. eapply elem_of_take in Hin as (i & Hi & _). by eapply list_elem_of_lookup_2.
  - apply elem_of_app in Hin as [?|Hx%list_elem_of_singleton]; [by left|]. subst x. right. apply list_elem_of_here.
Qed.

(** A local path stays local when it is cleaned. *)
Lemma redirect_local s : local_path s → leaves_origin (redirect_location s) = false.
Proof.
  intros Hs. unfold redirect_location. destruct (HasPrefix s "/" && parses_local s); [|by apply local_path_stays].
  destruct (match Cut s "?" with Some (p, q) => (p, "?" +:+ q) | None => (s, "") end) as [p query] eqn:E.
  assert (s = p +:+ query ∧ (query = "" ∨ ∃ q, query = String "?" q)) as [Hpq Hq].
  { destruct (Cut s "?") as [[a b]|] eqn:Ec; injection E as <- <-; [|by rewrite str_app_nil_r; auto].
    apply Cut_spec in Ec as [_ ->]. split; [done|]. right. by exists b. }
  clear E. destruct Hs as (rest & -> & Hr & Hc). apply local_path_stays.
  assert (∀ c, c ∈ chars (clean_rooted p) → browser_ignores c = false ∧ c ≠ backslash) as Hcl.
  { intros c Hin. unfold clean_rooted in Hin. fold (clean_elems p) in Hin. rewrite chars_app, elem_of_app in Hin.
    assert (c = "/"%char ∨ c ∈ chars p) as [->|Hp].
    { destruct Hin as [Hx%list_elem_of_singleton|[Hx%list_elem_of_singleton|(e & He & Hce)]%join_chars]; [by left|by left|].
      right. eapply Split_elem_chars; [by apply clean_elems_from|done]. }
    - done.
    - apply Hc. rewrite Hpq, chars_app, elem_of_app. by left. }
  assert (∀ c, c ∈ chars query → browser_ignores c = false ∧ c ≠ backslash) as Hcq.
  { intros c Hin. apply Hc. rewrite Hpq, chars_app, elem_of_app. by right. }
  unfold clean_rooted in *. fold (clean_elems p) in *. change ("/" +:+ join "/" (clean_elems p)) with (String "/" (join "/" (clean_elems p))) in *.
  set (slash := HasSuffix p "/" && negb (HasSuffix (String "/" (join "/" (clean_elems p))) "/")).
  replace (_ +:+ query) with (String "/" (join "/" (clean_elems p) +:+ (if slash then "/" else "") +:+ query))
    by (destruct slash; by str_simpl).
  eexists. split; [reflexivity|split].
  - pose proof (clean_elems_ok p) as Hok. unfold slash. destruct (clean_elems p) as [|e es].
    + cbn [join]. rewrite str_app_nil_l. change (HasSuffix (String "/" "") "/") with true. rewrite andb_false_r, str_app_nil_l.
      by destruct Hq as [->|[q ->]].
    + apply Forall_cons in Hok as [(Hne & _ & _ & Hsl) _]. destruct e as [|x e]; [done|].
      assert (∃ t, join "/" (String x e :: es) = String x t) as [t ->] by (destruct es; eexists; reflexivity).
      rewrite str_app_cons, HasPrefix_slash. apply bool_decide_eq_false. intros ->. destruct Hsl. simpl. apply list_elem_of_here.
  - intros c Hin. simpl in Hin.
    apply elem_of_cons in Hin as [->|Hin]; [done|]. rewrite !chars_app, !elem_of_app in Hin.
    destruct Hin as [Hin|[Hin|Hin]]; [apply Hcl; simpl; by apply list_elem_of_further| |by apply Hcq].
    destruct slash; [apply list_elem_of_singleton in Hin as ->; done|by apply elem_of_nil in Hin].
Qed.

Lemma safeRelPath_local p : "009"%char ∉ chars p → local_path (safeRelPath p).
Proof.
  intros Htab. unfold safeRelPath. destruct (_ || _) eqn:E.
  { exists "". split_and!; [done..|]. intros c ->%list_elem_of_singleton. done. }
  rewrite !orb_false_iff, negb_false_iff in E. destruct E as (((((H1 & H2) & H3) & H4) & H5) & H6).
  apply prefix_spec in H2 as [rest ->]. rewrite str_app_cons, str_app_nil_l in *. exists rest. split_and!; [done| |].
  - apply not_true_iff_false. intros [t ->]%prefix_spec. apply not_true_iff_false in H3. apply H3. apply prefix_spec. by exists t.
  - rewrite !contains_char_false in *. intros c Hc. split; [|congruence]. unfold browser_ignores.
    assert (∀ n, byte_of c = n → of_byte n ∉ chars (String "/" rest) → False) as Hn.
    { intros n <- Hin. apply Hin. by rewrite of_byte_of. }
    rewrite !orb_false_iff, !Z.eqb_neq. split_and!; intros Hb; eapply Hn; try exact Hb; done.
Qed.

(** ** Hosts and cookies *)

(** Lower-case names of hosts. *)
Definition host_char (c : ascii) : bool :=
  let n := byte_of c in is_digit c || ((97 <=? n) && (n <=? 122)) || (n =? 45) || (n =? 46).

Definition host_name (s : string) : Prop := s ≠ "" ∧ Forall (λ c, host_char c = true) (chars s).

Lemma host_char_facts c : host_char c = true →
  byte_of c < 128 ∧ lower c = c ∧ is_space c = false ∧ c ≠ ":"%char ∧ c ≠ "/"%char.
Proof.
  assert (∀ c, implb (host_char c) ((byte_of c <? 128) && bool_decide (lower c = c) && negb (is_space c) &&
    negb (bool_decide (c = ":"%char)) && negb (bool_decide (c = "/"%char))) = true) as Hall.
  { apply (all_ascii_spec (λ c, implb (host_char c) _)). vm_compute. reflexivity. }
  intros H. specialize (Hall c). rewrite H in Hall. cbn [implb] in Hall.
  rewrite !andb_true_iff, !negb_true_iff, bool_decide_eq_true, !bool_decide_eq_false, Z.ltb_lt in Hall. naive_solver.
Qed.

Lemma ascii_lower_host s : Forall (λ c, host_char c = true) (chars s) → ascii_lower s = s.
Proof.
  induction s as [|c s IH]; [done|]. simpl. intros [Hc Hs]%Forall_cons. rewrite IH by done.
  by destruct (host_char_facts c Hc) as (_ & -> & _).
Qed.

Lemma trim_left_host s : Forall (λ c, host_char c = true) (chars s) → trim_left s = s.
Proof. destruct s as [|c s]; [done|]. simpl. intros [Hc _]%Forall_cons. by destruct (host_char_facts c Hc) as (_ & _ & -> & _). Qed.

Lemma rev_string_chars s : chars (rev_string s) = reverse (chars s).
Proof. unfold rev_string. apply String.list_ascii_of_string_of_list_ascii. Qed.

Lemma ascii_trim_host s : Forall (λ c, host_char c = true) (chars s) → ascii_trim s = s.
Proof.
  intros Hs. unfold ascii_trim. rewrite (trim_left_host s) by done. rewrite trim_left_host.
  - apply chars_inj. rewrite !rev_string_chars. apply reverse_involutive.
  - rewrite rev_string_chars. by apply Forall_reverse.
Qed.

Lemma host_ascii s : Forall (λ c, host_char c = true) (chars s) → ascii_only s = true.
Proof. intros Hs. apply ascii_only_spec. intros c Hc. rewrite Forall_forall in Hs. by apply (host_char_facts c), Hs. Qed.

Lemma host_free s c : Forall (λ c, host_char c = true) (chars s) → host_char c = false → c ∉ chars s.
Proof. intros Hs Hc Hin. rewrite Forall_forall in Hs. specialize (Hs c Hin). congruence. Qed.

(** The values that the signers make need no quotes in a cookie. *)
Definition value_char (c : ascii) : bool := base64_char c || bool_decide (c = "."%char).

Lemma seal_chars mac raw : Forall (λ c, value_char c = true) (chars (seal mac raw)).
Proof.
  unfold seal. rewrite !chars_app, !Forall_app. unfold value_char. split_and!.
  - eapply Forall_impl; [apply EncodeToString_chars|]. intros c Hc. simpl. by rewrite Hc.
  - by repeat constructor.
  - eapply Forall_impl; [apply EncodeToString_chars|]. intros c Hc. simpl. by rewrite Hc.
Qed.

Lemma value_char_facts c : value_char c = true →
  cookie_char c = true ∧ is_ascii_space c = false ∧ c ≠ ";"%char ∧ c ≠ dquote.
Proof.
  assert (∀ c, implb (value_char c) (cookie_char c && negb (is_ascii_space c) && negb (bool_decide (c = ";"%char)) &&
    negb (bool_decide (c = dquote))) = true) as Hall.
  { apply (all_ascii_spec (λ c, implb (value_char c) _)). vm_compute. reflexivity. }
  intros H. specialize (Hall c). rewrite H in Hall. cbn [implb] in Hall.
  rewrite !andb_true_iff, !negb_true_iff, !bool_decide_eq_false in Hall. naive_solver.
Qed.

(** The header with which a browser sends one cookie back. *)
Definition sent_back (name value : string) : Header := {["Cookie" := [name +:+ "=" +:+ value]]}.

Lemma TrimString_id s : Forall (λ c, is_ascii_space c = false) (chars s) → TrimString s = s.
Proof.
  assert (∀ s, Forall (λ c, is_ascii_space c = false) (chars s) → trim_space_left s = s) as Hl.
  { intros [|c t]; [done|]. simpl. by intros [-> _]%Forall_cons. }
  intros Hs. unfold TrimString. rewrite (Hl s) by done. rewrite Hl by (rewrite rev_string_chars; by apply Forall_reverse).
  apply chars_inj. rewrite !rev_string_chars. apply reverse_involutive.
Qed.

Definition cookie_name (name : string) : Prop :=
  name ≠ "" ∧ Forall (λ c, is_ascii_space c = false ∧ c ≠ ";"%char ∧ c ≠ "="%char) (chars name).

Lemma request_Cookie_sent r name value : cookie_name name → Forall (λ c, value_char c = true) (chars value) → value ≠ "" →
  r_Header r = sent_back name value → request_Cookie r name = Some value.
Proof.
  intros [Hn Hnc] Hv Hne Hr. unfold request_Cookie. rewrite Hr. unfold sent_back. rewrite lookup_singleton_eq. cbn [default id].
  rewrite bind_cons, app_nil_r. unfold cookies_of. set (part := name +:+ "=" +:+ value).
  assert (Forall (λ c, is_ascii_space c = false ∧ c ≠ ";"%char) (chars part)) as Hp.
  { unfold part. rewrite !chars_app, !Forall_app. split_and!.
    - eapply Forall_impl; [exact Hnc|]. naive_solver.
    - by repeat constructor.
    - eapply Forall_impl; [exact Hv|]. intros c Hc%value_char_facts. naive_solver. }
  rewrite Split_one by (intros Hin; rewrite Forall_forall in Hp; by apply Hp in Hin as [_ ?]). cbn [omap list_omap].
  rewrite TrimString_id by (eapply Forall_impl; [exact Hp|]; naive_solver).
  rewrite (proj2 (Cut_spec part "=" name value)).
  2:{ split; [|done]. intros Hin. rewrite Forall_forall in Hnc. by apply Hnc in Hin as (_ & _ & ?). }
  rewrite TrimString_id by (eapply Forall_impl; [exact Hnc|]; naive_solver).
  rewrite bool_decide_eq_false_2 by (unfold part; by destruct name). rewrite bool_decide_eq_true_2 by done. cbn [negb orb].
  unfold parse_cookie_value. assert (unquote_cookie value = value) as ->.
  { destruct value as [|c v]; [done|]. unfold unquote_cookie. apply Forall_cons in Hv as [Hc _].
    destruct (value_char_facts c Hc) as (_ & _ & _ & Hq). rewrite bool_decide_eq_false_2 by done. by destruct (CutSuffix _ _). }
  assert (forallb cookie_char (chars value) = true) as ->; [|done].
  apply forallb_forall. intros c Hc%list_elem_of_In. rewrite Forall_forall in Hv. by apply value_char_facts, Hv.
Qed.

(** The first cookie of a name that a request with these headers carries. *)
Definition cookie_in (h : Header) (name : string) : option string := head (default [] (h !! "Cookie") ≫= cookies_of name).

Lemma session_sent r name sess id expiry : cookie_name name →
  r_Header r = sent_back name (Encode_session sess id expiry) → cookie_in (r_Header r) name = Some (Encode_session sess id expiry).
Proof.
  intros Hn. apply request_Cookie_sent; [done|apply seal_chars|]. unfold Encode_session, seal. by destruct (Base64.EncodeToString _).
Qed.

Lemma session_cookie_name : cookie_name SessionCookieName.
Proof. split; [done|]. by_eval. Qed.

Lemma sent_back_prints name value : is_print (upgradeType (sent_back name value)) = true.
Proof. by_eval. Qed.

Section login.
Context {UC : Unicode} {MR : MapRange} {HC : HttpClient}.

(** After a login the visitor stays on the app's own origin: whatever path the callback
    is given, unless it has a tab in it, the location it answers with is a path of the
    same host also for a browser, which drops line breaks and takes backslashes for
    slashes. *)
Theorem callback_stays p rnd clock r used cookies location :
  for_auth p r = false → u_Path (r_URL r) = "/__mitos_auth/cb" → "009"%char ∉ chars (Get (Query (r_URL r)) "path") →
  (ServeHTTP p rnd clock r used).1 = Redirect cookies location → leaves_origin location = false.
Proof.
  intros Hf Hp Ht. unfold ServeHTTP. fold (for_auth p r). rewrite Hf. destruct (ParseHost _ _) as [label|]; [|done].
  destruct (IsReservedLabel label); [done|]. rewrite bool_decide_eq_true_2 by done. unfold serveAuthCallback.
  destruct (p_grantSigner p), (p_sessions p); try done. case_bool_decide; [done|].
  destruct (Verify_grant _ _ _ _ _) as [[id|e] used']; [|done]. cbn [fst]. intros [= <- <-]. apply redirect_local, safeRelPath_local, Ht.
Qed.

(** ** The way through the login *)

Definition app_host (label domain : string) : string := label +:+ "." +:+ domain.

Lemma lowered s : Forall (λ c, host_char c = true) (chars s) → ToLower (TrimSpace s) = s.
Proof.
  intros Hs. pose proof (host_ascii s Hs) as Ha. rewrite TrimSpace_ascii, ascii_trim_host by done.
  by rewrite ToLower_ascii, ascii_lower_host.
Qed.

(** A label of a domain. *)
Definition app_label (label : string) : Prop :=
  host_name label ∧ ("."%char ∉ chars label) ∧ IsReservedLabel label = false.

Lemma app_host_chars label domain : host_name label → host_name domain →
  Forall (λ c, host_char c = true) (chars (app_host label domain)).
Proof. intros [_ Hl] [_ Hd]. unfold app_host. rewrite !chars_app, !Forall_app. split_and!; [done|by repeat constructor|done]. Qed.

Lemma ParseHost_app label domain : app_label label → host_name domain → ParseHost (app_host label domain) domain = Some label.
Proof.
  intros (Hl & Hdot & _) Hd. unfold ParseHost. rewrite !lowered by (by apply app_host_chars || apply Hd).
  rewrite (bool_decide_eq_false_2 (domain = "")) by apply Hd.
  rewrite bool_decide_eq_false_2 by (unfold app_host; destruct Hl; by destruct label). cbn [orb].
  rewrite (proj2 (CutLast_None _ _)) by (by eapply host_free; [apply app_host_chars|]).
  rewrite (proj2 (CutSuffix_spec _ _ label)) by done. rewrite bool_decide_eq_false_2 by apply Hl.
  by rewrite (proj2 (contains_char_false _ _)).
Qed.

Lemma for_auth_app p r label : app_label label → host_name (p_domain p) → r_Host r = app_host label (p_domain p) → for_auth p r = false.
Proof.
  intros (Hl & Hdot & Hres) Hd Hr. unfold for_auth. rewrite Hr, lowered by (by apply app_host_chars). apply orb_false_iff. split.
  - apply not_true_iff_false. intros [t Ht]%prefix_spec. assert (":"%char ∉ chars (app_host label (p_domain p))) as Hc.
    { eapply host_free; [by apply app_host_chars|done]. }
    apply Hc. rewrite Ht, !chars_app, !elem_of_app. left. right. apply list_elem_of_here.
  - apply bool_decide_eq_false. unfold app_host. intros He.
    assert (Cut (label +:+ String "." (p_domain p)) "." = Some (label, p_domain p)) as E by (by apply Cut_spec).
    change (String "." (p_domain p)) with ("." +:+ p_domain p) in E. rewrite He in E.
    change ("auth." +:+ p_domain p) with ("auth" +:+ String "." (p_domain p)) in E.
    rewrite (proj2 (Cut_spec _ "." "auth" (p_domain p))) in E by (split; [by_eval|done]). injection E as <-.
    unfold IsReservedLabel in Hres. rewrite ToLower_ascii in Hres by done. done.
Qed.

Lemma for_auth_auth p r : host_name (p_domain p) → r_Host r = "auth." +:+ p_domain p → for_auth p r = true.
Proof.
  intros Hd Hr. unfold for_auth. rewrite Hr, lowered; [by rewrite (bool_decide_eq_true_2 (_ = _)), orb_true_r by done|].
  rewrite chars_app, Forall_app. split; [by repeat constructor|apply Hd].
Qed.

(** The request of a browser for a location, with the cookies it has for the host.  The
    paths of the locations here have no escapes. *)
Definition visit (addr location : string) (cookies : Header) : option Request :=
  rest ← strip_prefix "https://" location;
  '(host, target) ← Cut rest "/";
  let '(p, q) := match Cut target "?" with Some pq => pq | None => (target, "") end in
  Some {| r_Method := "GET"; r_Host := host;
          r_URL := {| u_Path := "/" +:+ p; u_RawPath := ""; u_RawQuery := q; u_ForceQuery := false |};
          r_Header := cookies; r_RemoteAddr := addr; r_TLS := true |}.

Lemma visit_encoded addr host p v cookies : Forall (λ c, host_char c = true) (chars host) → "?"%char ∉ chars p →
  visit addr ("https://" +:+ host +:+ "/" +:+ p +:+ "?" +:+ Encode v) cookies =
  Some {| r_Method := "GET"; r_Host := host;
          r_URL := {| u_Path := "/" +:+ p; u_RawPath := ""; u_RawQuery := Encode v; u_ForceQuery := false |};
          r_Header := cookies; r_RemoteAddr := addr; r_TLS := true |}.
Proof.
  intros Hh Hp. unfold visit. rewrite (proj2 (strip_prefix_spec "https://" _ _)) by reflexivity. cbn [mbind option_bind].
  rewrite (proj2 (Cut_spec _ "/" host (p +:+ "?" +:+ Encode v))) by (split; [by eapply host_free|done]). cbn [mbind option_bind].
  by rewrite (proj2 (Cut_spec _ "?" p (Encode v))).
Qed.

(** A proxy with its auth origin, as it is wired, and a route that asks for a login. *)
Record wired (p : Proxy) (a : AuthOrigin) (sess label : string) (route : Route) : Prop := {
  w_origin : p_authOrigin p = Some a;
  w_domain : ao_ExposeDomain a = p_domain p;
  w_grants : p_grantSigner p = Some (ao_Grants a);
  w_sessions : p_sessions p = Some sess;
  w_host : host_name (p_domain p);
  w_label : app_label label;
  w_route : Lookup (p_routes p) label = Some route;
  w_named : rt_Label route = label;
  w_tier : rt_Sharing route ∈ ["private"; "org"; "authenticated"];
  w_forward : rt_ForwardAuthURL route = "";
}.

(** The path and the query the visitor asked for. *)
Definition asked (r : Request) : string :=
  let q := u_RawQuery (r_URL r) in u_Path (r_URL r) +:+ (if bool_decide (q = "") then "" else "?" +:+ q).

Definition start_url (p : Proxy) (label : string) (r : Request) : string :=
  "https://" +:+ ("auth." +:+ p_domain p) +:+ "/" +:+ "start" +:+ "?" +:+ Encode {["rd" := [label]; "path" := [asked r]]}.

Lemma wired_login p a sess label route : wired p a sess label route → needs_login (rt_Sharing route) = true.
Proof.
  intros Hw. pose proof (w_tier _ _ _ _ _ Hw) as Ht. unfold needs_login. apply bool_decide_eq_true.
  repeat (apply elem_of_cons in Ht as [->|Ht]; [by_eval|]). by apply elem_of_nil in Ht.
Qed.

Lemma serve_app_eq p a sess label route rnd clock r used : wired p a sess label route →
  r_Host r = app_host label (p_domain p) → u_Path (r_URL r) ≠ "/__mitos_auth/cb" →
  ServeHTTP p rnd clock r used = (serve_app p clock r label, used).
Proof.
  intros Hw Hh Hp. unfold ServeHTTP. fold (for_auth p r). rewrite (for_auth_app p r label) by (done || apply Hw).
  rewrite Hh, ParseHost_app by apply Hw. destruct (w_label _ _ _ _ _ Hw) as (_ & _ & ->). by rewrite bool_decide_eq_false_2.
Qed.

(** First to the auth origin. *)
Lemma login_starts p a sess label route rnd clock r used : wired p a sess label route →
  r_Host r = app_host label (p_domain p) → u_Path (r_URL r) ≠ "/__mitos_auth/cb" →
  in_network route (parseClientIP (r_RemoteAddr r)) → readSession p (clock 0%nat) (strip_request r) = None →
  ServeHTTP p rnd clock r used = (Redirect [] (start_url p label r), used).
Proof.
  intros Hw Hh Hp Hn Hs. rewrite (serve_app_eq p a sess label route) by done. f_equal. unfold serve_app.
  rewrite (w_route _ _ _ _ _ Hw). change (r_RemoteAddr (strip_request r)) with (r_RemoteAddr r).
  rewrite (proj2 (NetworkAllows_spec _ _)) by done. cbn [negb]. unfold resolve_identity. rewrite (w_forward _ _ _ _ _ Hw). cbn [negb].
  rewrite bool_decide_eq_true_2 by done. cbn [negb]. unfold tier_identity.
  assert (bool_decide (rt_Sharing route = "private") || bool_decide (rt_Sharing route = "org") ||
    bool_decide (rt_Sharing route = "authenticated") = true) as ->.
  { pose proof (w_tier _ _ _ _ _ Hw) as Ht. repeat (apply elem_of_cons in Ht as [->|Ht]; [done|]). by apply elem_of_nil in Ht. }
  rewrite Hs. cbn [rbind]. unfold redirectToLogin. rewrite (w_sessions _ _ _ _ _ Hw). f_equal. unfold start_url, asked.
  change (r_URL (strip_request r)) with (r_URL r).
  rewrite redirect_absolute; [by rewrite !str_app_assoc| |done].
  rewrite !ascii_only_app, Encode_ascii, (host_ascii (p_domain p)) by apply Hw. done.
Qed.

(** There the session of the auth origin makes a grant for the app. *)
Definition callback_url (p : Proxy) (label grant path : string) : string :=
  "https://" +:+ app_host label (p_domain p) +:+ "/" +:+ "__mitos_auth/cb" +:+ "?" +:+ Encode {["grant" := [grant]; "path" := [path]]}.

Lemma two_values k1 k2 v1 v2 : encodable {[k1 := [v1]; k2 := [v2]]}.
Proof. unfold encodable. apply map_Forall_insert_2; [done|]. by apply map_Forall_singleton. Qed.

Lemma or_root_asked r : HasPrefix (u_Path (r_URL r)) "/" = true → or_root (asked r) = asked r.
Proof. intros [t Ht]%prefix_spec. unfold or_root, asked. rewrite bool_decide_eq_false_2; [done|]. by rewrite Ht. Qed.

Lemma login_grants p a sess label route addr h clock r used id expiry nonce : wired p a sess label route →
  HasPrefix (u_Path (r_URL r)) "/" = true → cookie_in h ssoCookieName = Some (Encode_session (ao_SSO a) id expiry) → identity_ok id → time_ok expiry → clock 0%nat ≤ whole_second expiry →
  ∃ r1 grant, visit addr (start_url p label r) h = Some r1 ∧
    Mint_grant (ao_Grants a) (Some nonce) label id (clock 1%nat + grantTTL) = Ok grant ∧
    ServeHTTP p (Some nonce) clock r1 used = (Redirect [] (callback_url p label grant (asked r)), used).
Proof.
  intros Hw Hp Hck Hid Ht Hc. unfold start_url. rewrite visit_encoded.
  2:{ rewrite chars_app, Forall_app. split; [by repeat constructor|apply (w_host _ _ _ _ _ Hw)]. }
  2:{ by_eval. }
  destruct (w_label _ _ _ _ _ Hw) as ([Hne Hlc] & _ & _).
  destruct (grant_payload_Mint (ao_Grants a) nonce label id (clock 1%nat + grantTTL)) as (grant & Hm & _); [done|by apply host_ascii|done|].
  eexists _, grant. split; [done|]. split; [done|]. unfold ServeHTTP. set (r1 := Build_Request _ _ _ _ _ _).
  fold (for_auth p r1). rewrite for_auth_auth by (done || apply Hw). rewrite (w_origin _ _ _ _ _ Hw).
  rewrite bool_decide_eq_true_2 by done. f_equal. unfold ServeStart, Query. cbn [r1 r_URL u_RawQuery].
  rewrite ParseQuery_Encode by apply two_values. unfold Get at 1 2. rewrite lookup_insert_eq, lookup_insert_ne, lookup_singleton_eq by done.
  rewrite (w_route _ _ _ _ _ Hw), or_root_asked by done.
  change (request_Cookie r1 ssoCookieName) with (cookie_in h ssoCookieName). rewrite Hck.
  cbn [mbind option_bind]. rewrite bool_decide_eq_false_2 by (unfold Encode_session, seal; by destruct (Base64.EncodeToString _)).
  rewrite Decode_Encode by done. rewrite (proj2 (Z.ltb_ge _ _)) by done. unfold mintGrantAndRedirect.
  rewrite (w_named _ _ _ _ _ Hw), Hm, (w_domain _ _ _ _ _ Hw). f_equal. unfold callback_url, app_host.
  rewrite redirect_absolute; [by rewrite !str_app_assoc| |done].
  rewrite !ascii_only_app, Encode_ascii, (host_ascii label), (host_ascii (p_domain p)) by (done || apply Hw). done.
Qed.

(** Back at the app the grant becomes a session. *)
Lemma login_returns p a sess label route addr cookies rnd clock used id nonce expiry grant path : wired p a sess label route →
  identity_ok id → time_ok expiry → Mint_grant (ao_Grants a) (Some nonce) label id expiry = Ok grant →
  used !! Base64.EncodeToString nonce = None → clock 0%nat ≤ whole_second expiry →
  ∃ r2, visit addr (callback_url p label grant path) cookies = Some r2 ∧
    (ServeHTTP p rnd clock r2 used).1 =
      Redirect [NewSessionCookie (Encode_session sess id (clock 1%nat + hour)) hour] (redirect_location (safeRelPath path)).
Proof.
  intros Hw Hid Ht Hm Hn Hc. destruct (w_label _ _ _ _ _ Hw) as (Hl & Hdot & Hres). unfold callback_url.
  rewrite visit_encoded; [|by apply app_host_chars; [|apply Hw]|by_eval]. eexists. split; [done|]. unfold ServeHTTP.
  set (r2 := Build_Request _ _ _ _ _ _). fold (for_auth p r2). rewrite (for_auth_app p r2 label) by (done || apply Hw).
  cbn [r2 r_Host r_URL u_Path]. rewrite ParseHost_app by apply Hw. rewrite Hres, bool_decide_eq_true_2 by done.
  unfold serveAuthCallback. rewrite (w_grants _ _ _ _ _ Hw), (w_sessions _ _ _ _ _ Hw). unfold Query. cbn [r2 r_URL u_RawQuery].
  rewrite ParseQuery_Encode by apply two_values. unfold Get. rewrite lookup_insert_eq, lookup_insert_ne, lookup_singleton_eq by done.
  destruct (grant_payload_Mint (ao_Grants a) nonce label id expiry) as (grant' & Hm' & Hp); [apply Hl|apply host_ascii, Hl|done|].
  rewrite Hm in Hm'. injection Hm' as <-.
  rewrite bool_decide_eq_false_2.
  2:{ intros ->. unfold Mint_grant in Hm. rewrite bool_decide_eq_false_2 in Hm by apply Hl. injection Hm as Hm. unfold seal in Hm.
      by destruct (Base64.EncodeToString _) in Hm. }
  rewrite Verify_grant_payload, Hp. cbn [minted gp_Label gp_id gp_Exp gp_Nonce]. rewrite time_Unix_Unix by done.
  rewrite (proj2 (Z.ltb_ge _ _)) by done. rewrite (bool_decide_eq_true_2 (label = label)) by done. cbn [negb].
  rewrite Hn. rewrite bool_decide_eq_false_2 by (by intros []). done.
Qed.

(** With the session the app opens. *)
Lemma login_opens p a sess label route rnd clock used r id expiry : wired p a sess label route →
  r_Host r = app_host label (p_domain p) → u_Path (r_URL r) ≠ "/__mitos_auth/cb" →
  cookie_in (r_Header r) SessionCookieName = Some (Encode_session sess id expiry) → is_print (upgradeType (r_Header r)) = true →
  identity_ok id → time_ok expiry → clock 0%nat ≤ whole_second expiry →
  in_network route (parseClientIP (r_RemoteAddr r)) → serves route id →
  ∃ out, (ServeHTTP p rnd clock r used).1 = Forward out.
Proof.
  intros Hw Hh Hp Hr Hu Hid Ht Hc Hn Hs.
  assert (readSession p (clock 0%nat) (strip_request r) = Some id) as Hread.
  { unfold readSession. rewrite (w_sessions _ _ _ _ _ Hw). cbn [mbind option_bind].
    assert (request_Cookie (strip_request r) SessionCookieName = cookie_in (r_Header r) SessionCookieName) as ->.
    { unfold request_Cookie, cookie_in. cbn [strip_request r_Header]. by rewrite strip_lookup by by_eval. }
    rewrite Hr. cbn [mbind option_bind]. rewrite Decode_Encode by done. by rewrite (proj2 (Z.ltb_ge _ _)). }
  rewrite (serve_app_eq p a sess label route) by done. cbn [fst].
  assert (∃ out, forwarded (strip_request r) (director (strip_request r) route ∅) = Some out) as [out Ho].
  { unfold forwarded. assert (upgradeType (o_Header (director (strip_request r) route ∅)) = upgradeType (r_Header r)) as ->.
    { unfold upgradeType, header_Get. change (CanonicalHeaderKey "Upgrade") with "Upgrade".
      by rewrite !director_lookup by (by_eval || by intros ? ? ?). }
    rewrite Hu. by eexists. }
  exists out. apply serve_app_forwards. exists route, (Some id), ∅. split; [apply Hw|]. split; [|done]. split.
  - apply by_session; [apply Hw|by eapply wired_login|done].
  - split; [done|]. right. split; [by eapply wired_login|]. by exists id.
Qed.


(** ** Sessions are for every app *)

Lemma forwarded_cookie p rnd clock r used out : (ServeHTTP p rnd clock r used).1 = Forward out →
  r_Header r !! "Connection" = None → o_Header out !! "Cookie" = r_Header r !! "Cookie".
Proof.
  intros (_ & _ & label & route & id & h & _ & _ & _ & [Hi _] & Hf)%ServeHTTP_forwards Hc.
  assert (∀ k vs, h !! k = Some vs → is_auth_header k = true) as Hh by (intros k vs; by eapply identified_headers).
  unfold forwarded in Hf. destruct (is_print _); [|done]. cbn [negb] in Hf. injection Hf as <-. cbn [o_Header].
  rewrite forwarded_header_lookup by by_eval. unfold connection_names. rewrite !(director_lookup r route h) by (done || by_eval). rewrite Hc.
  by rewrite decide_False by (by apply not_elem_of_nil).
Qed.

(** An app is handed the session of every visitor it serves, and the session is good at
    every other app: what the first app receives in the header Cookie, sent to a second
    one that serves the visitor, reaches that one's sandbox. *)
Theorem session_travels p a sess label route label' route' rnd clock clock' r r' used used' id expiry :
  wired p a sess label route → wired p a sess label' route' →
  r_Host r = app_host label (p_domain p) → u_Path (r_URL r) ≠ "/__mitos_auth/cb" →
  r_Header r = sent_back SessionCookieName (Encode_session sess id expiry) →
  in_network route (parseClientIP (r_RemoteAddr r)) → serves route id →
  identity_ok id → time_ok expiry → clock 0%nat ≤ whole_second expiry → clock' 0%nat ≤ whole_second expiry →
  in_network route' (parseClientIP (r_RemoteAddr r')) → serves route' id →
  r_Host r' = app_host label' (p_domain p) → u_Path (r_URL r') ≠ "/__mitos_auth/cb" →
  ∃ out, (ServeHTTP p rnd clock r used).1 = Forward out ∧
    ∀ cookie, o_Header out !! "Cookie" = Some cookie → r_Header r' = {["Cookie" := cookie]} →
    ∃ out', (ServeHTTP p rnd clock' r' used').1 = Forward out'.
Proof.
  intros Hw Hw' Hh Hp Hr Hn Hs Hid Ht Hc Hc' Hn' Hs' Hh' Hp'.
  destruct (login_opens p a sess label route rnd clock used r id expiry) as [out Ho];
    try done; [by apply session_sent; [apply session_cookie_name|]|rewrite Hr; apply sent_back_prints|]. exists out. split; [done|].
  intros cookie Hco Hr'. rewrite (forwarded_cookie p rnd clock r used out Ho), Hr in Hco by (by rewrite Hr).
  unfold sent_back in Hco. rewrite lookup_singleton_eq in Hco. injection Hco as <-.
  apply (login_opens p a sess label' route' rnd clock' used' r' id expiry); try done; [|rewrite Hr'; apply sent_back_prints].
  by apply session_sent; [apply session_cookie_name|].
Qed.

Lemma link_identity_ok orgs : Forall (λ s, ascii_only s = true) orgs → identity_ok (link_identity orgs).
Proof. done. Qed.

(** C33: who has a link to one app has a session for others.  The session that a link is
    exchanged for names the link's organization, and opens every app of that organization
    that is not shared by link, and every one for any authenticated visitor, unless they
    have an audience. *)
Theorem link_opens_other_apps p a sess label route link_label link rnd clock clock' r r' used used' :
  wired p a sess label route → app_label link_label → Lookup (p_routes p) link_label = Some link →
  rt_Sharing link = "link" → rt_ForwardAuthURL link = "" → ascii_only (rt_OrgID link) = true →
  r_Host r = app_host link_label (p_domain p) → u_Path (r_URL r) ≠ "/__mitos_auth/cb" →
  in_network link (parseClientIP (r_RemoteAddr r)) →
  request_Cookie (strip_request r) SessionCookieName = None → links_to p (clock 1%nat) (strip_request r) link →
  rt_AllowedPrincipals route = [] → rt_AllowedEmailDomains route = [] →
  (rt_Sharing route = "authenticated" ∨ rt_OrgID route = rt_OrgID link ∧ rt_OrgID route ≠ "") →
  in_network route (parseClientIP (r_RemoteAddr r')) →
  r_Host r' = app_host label (p_domain p) → u_Path (r_URL r') ≠ "/__mitos_auth/cb" →
  time_ok (clock 2%nat + hour) → clock' 0%nat ≤ whole_second (clock 2%nat + hour) →
  ∃ cookie location, (ServeHTTP p rnd clock r used).1 = Redirect [cookie] location ∧
    (r_Header r' = sent_back (ck_Name cookie) (ck_Value cookie) →
     ∃ out, (ServeHTTP p rnd clock' r' used').1 = Forward out).
Proof.
  intros Hw Hll Hlk Htier Hfwd Hasc Hh Hp Hn Hnc Hto Ha1 Ha2 Horg Hn' Hh' Hp' Ht Hc. eexists _, _. split.
  - unfold ServeHTTP. fold (for_auth p r). rewrite (for_auth_app p r link_label) by (done || apply Hw).
    rewrite Hh, ParseHost_app by (done || apply Hw). destruct Hll as (_ & _ & ->). rewrite bool_decide_eq_false_2 by done. cbn [fst].
    unfold serve_app. rewrite Hlk. change (r_RemoteAddr (strip_request r)) with (r_RemoteAddr r).
    rewrite (proj2 (NetworkAllows_spec _ _)) by done. cbn [negb]. unfold resolve_identity. rewrite Hfwd.
    rewrite (bool_decide_eq_true_2 ("" = "")) by done. cbn [negb]. unfold tier_identity. rewrite Htier. tier_names. cbn [orb].
    unfold readSession. rewrite (w_sessions _ _ _ _ _ Hw). cbn [mbind option_bind]. rewrite Hnc. cbn [mbind option_bind].
    destruct Hto as (Hne & c & Hv & Hsb & Hpt). rewrite bool_decide_eq_false_2 by done. rewrite Hv.
    rewrite bool_decide_eq_true_2, (proj2 (Z.eqb_eq _ _)) by done. cbn [negb orb rbind]. reflexivity.
  - intros Hr'. eapply (login_opens p a sess label route rnd clock' used' r' (link_identity [rt_OrgID link]) (clock 2%nat + hour)); try done.
    + by apply session_sent; [apply session_cookie_name|].
    + rewrite Hr'. apply sent_back_prints.
    + apply link_identity_ok. by repeat constructor.
    + split; [by split; left|]. intros Ho. destruct Horg as [Hau|[He Hne]]; [by rewrite Hau in Ho|]. split; [done|].
      rewrite He. apply list_elem_of_here.
Qed.

End login.

(** ** Examples *)

Definition ex_origin : AuthOrigin :=
  {| ao_Verify _ := None; ao_AuthCodeURL _ := "https://idp.example/auth"; ao_Exchange _ := None; ao_Grants := ex_secret;
     ao_SSO := "sso-secret-0123456"; ao_StateCodec := "state-secret-01234"; ao_Resolver := None; ao_post _ _ _ := None;
     ao_ExposeDomain := "mitos.app"; ao_GroupsToOrgs := None |}.

Definition ex_proxy : Proxy :=
  {| p_domain := "mitos.app"; p_signer := ex_secret;
     p_routes := {["app1" := ex_route "app1" "private" "acme"; "app2" := ex_route "app2" "org" "acme";
                   "demo" := ex_route "demo" "link" "acme"]};
     p_authOrigin := Some ex_origin; p_sessions := Some ex_secret; p_grantSigner := Some ex_secret |}.

Lemma ex_wired label tier : In (label, tier) [("app1", "private"); ("app2", "org")] →
  wired ex_proxy ex_origin ex_secret label (ex_route label tier "acme").
Proof. intros [[= <- <-]|[[= <- <-]|[]]]; split; try done; unfold app_label, host_name; by_eval. Qed.

Definition ex_clock (n : nat) : Z := ex_now.

Lemma ex_serves label tier : In (label, tier) [("app1", "private"); ("app2", "org")] → serves (ex_route label tier "acme") ex_id.
Proof. intros _. split; [by split; left|]. intros _. split; [done|]. by_eval. Qed.

(** A browser with other cookies and headers. *)
Definition ex_browser (name value : string) : Header :=
  {["Cookie" := ["theme=dark; " +:+ name +:+ "=" +:+ value]; "User-Agent" := ["Mozilla/5.0"]]}.


Lemma callback_stays_witness :
  ∃ r cookies location,
    (ServeHTTP (HC := no_servers) ex_proxy None ex_clock r ∅).1 = Redirect cookies location ∧ leaves_origin location = false.
Proof.
  destruct (grant_payload_Mint ex_secret "nonce" "app1" ex_id (ex_now + grantTTL)) as (grant & Hm & _); [done|done|by_eval|].
  destruct (login_returns (HC := no_servers) ex_proxy ex_origin ex_secret "app1" (ex_route "app1" "private" "acme") "192.0.2.1:5000" ∅
    None ex_clock ∅ ex_id "nonce" (ex_now + grantTTL) grant "/a") as (r2 & Hv & Hr);
    [apply ex_wired; by left|by_eval|by_eval|exact Hm|done|by_eval|].
  unfold callback_url in Hv. rewrite visit_encoded in Hv by by_eval. injection Hv as <-.
  eexists _, _, _. split; [exact Hr|]. eapply (callback_stays (HC := no_servers) ex_proxy None ex_clock _ ∅); [| | |exact Hr].
  - by apply (for_auth_app _ _ "app1"); [unfold app_label, host_name; by_eval|unfold host_name; by_eval|].
  - done.
  - unfold Query. cbn [r_URL u_RawQuery]. rewrite ParseQuery_Encode by apply two_values. by_eval.
Defined.

Lemma session_travels_witness :
  ∃ out, (ServeHTTP (HC := no_servers) ex_proxy None ex_clock
    (ex_request "app1.mitos.app" "/" "" (sent_back SessionCookieName (Encode_session ex_secret ex_id ex_now))) ∅).1 = Forward out.
Proof.
  destruct (session_travels (HC := no_servers) ex_proxy ex_origin ex_secret "app1" (ex_route "app1" "private" "acme")
    "app2" (ex_route "app2" "org" "acme") None ex_clock ex_clock
    (ex_request "app1.mitos.app" "/" "" (sent_back SessionCookieName (Encode_session ex_secret ex_id ex_now)))
    (ex_request "app2.mitos.app" "/" "" ∅) ∅ ∅ ex_id ex_now) as (out & H & _);
    [apply ex_wired; by left|apply ex_wired; by right; left|done|done|done|by left|by apply ex_serves; left
    |by_eval|by_eval|by_eval|by_eval|by left|by apply ex_serves; right; left|done|done|]. by exists out.
Defined.

Lemma link_opens_other_apps_witness :
  ∃ token cookie location,
    (ServeHTTP (HC := no_servers) ex_proxy None ex_clock (ex_request "demo.mitos.app" "/" (Encode {["token" := [token]]}) ∅) ∅).1 =
      Redirect [cookie] location.
Proof.
  destruct (VerifyAt_Mint ex_secret "sb-demo" 8080 ex_now ex_now) as (token & _ & Hv); [unfold link_ok; by_eval|by_eval|].
  exists token. rewrite (proj2 (Z.ltb_ge _ _)) in Hv by by_eval.
  assert (extractToken (strip_request (ex_request "demo.mitos.app" "/" (Encode {["token" := [token]]}) ∅)) = token) as Htok.
  { unfold extractToken, Query. cbn [strip_request ex_request ex_url r_URL u_RawQuery].
    rewrite ParseQuery_Encode by (by apply map_Forall_singleton). unfold Get. rewrite lookup_singleton_eq.
    rewrite bool_decide_eq_false_2; [done|]. intros ->. by vm_compute in Hv. }
  set (r := ex_request "demo.mitos.app" "/" (Encode {["token" := [token]]}) ∅) in *.
  assert (links_to ex_proxy (ex_clock 1%nat) (strip_request r) (ex_route "demo" "link" "acme")) as Hto.
  { split; rewrite Htok; [intros ->; by vm_compute in Hv|]. eexists. split; [exact Hv|]. by split. }
  assert (request_Cookie (strip_request r) SessionCookieName = None) as Hc by reflexivity.
  assert (app_label "demo") as Hl by (unfold app_label, host_name; by_eval).
  destruct (link_opens_other_apps (HC := no_servers) ex_proxy ex_origin ex_secret "app1" (ex_route "app1" "private" "acme")
    "demo" (ex_route "demo" "link" "acme") None ex_clock ex_clock r (ex_request "app1.mitos.app" "/" "" ∅) ∅ ∅
    (ex_wired "app1" "private" (or_introl eq_refl)) Hl eq_refl eq_refl eq_refl eq_refl eq_refl) as (cookie & location & H & _);
    [discriminate|left; reflexivity|exact Hc|exact Hto|reflexivity|reflexivity|right; split; [reflexivity|discriminate]
    |left; reflexivity|reflexivity|discriminate|by_eval|by_eval|].
  exists cookie, location. exact H.
Defined.

(** A path with a tab in it leaves the origin after a login, and so does one with two
    slashes at its start when a link is exchanged. *)
Definition tab : string := String "009" "".

Example tab_leaves_origin :
  safeRelPath ("/" +:+ tab +:+ "/evil.example") = "/" +:+ tab +:+ "/evil.example" ∧
  leaves_origin (redirect_location (safeRelPath ("/" +:+ tab +:+ "/evil.example"))) = true.
Proof. by split. Qed.

Example link_exchange_leaves_origin :
  redirect_location (clean_url (ex_url "//evil.example/x" "token=t")) = "//evil.example/x" ∧
  leaves_origin (redirect_location (clean_url (ex_url "//evil.example/x" "token=t"))) = true.
Proof. by split. Qed.

End PreviewLoginTheorems.
