(* ===== verification/GoMux.v ===== *)
(** * The request multiplexer of net/http

    [ServeMux] of Go 1.22 and later.  A multiplexer is the list of its patterns with what
    they lead to; a pattern is a method, or none, and a path of literals and wildcards that
    may end in a slash, which stands for everything below it.  Of several patterns that
    match a request the most specific one is taken: going from left to right a literal is
    preferred to a wildcard, and both to the rest of the path.

    A request whose path is not clean, or that lacks the final slash of a pattern, is
    redirected; the location of these redirections is left out, and so are the host part of
    patterns and the requests that name no path. *)

From Stdlib Require Import Ascii.
From S2P Require Import Prelude Sha256 Json GoStrings GoUrl GoHttp.
Import Sha256 Json GoStrings GoUrl GoHttp.

Module GoMux.

Inductive segment := Lit (s : string) | Wild | Rest.

#[global] Instance segment_eq_dec : EqDecision segment.
Proof. solve_decision. Defined.

Record pattern := { pt_method : string; pt_segments : list segment }.

Definition is_wild (s : string) : bool := HasPrefix s "{" && HasSuffix s "}".

(** The elements of a pattern after its first slash; an empty one is the final slash. *)
Fixpoint segments (l : list string) : list segment :=
  match l with
  | [] => []
  | [""] => [Rest]
  | s :: l' => (if is_wild s then Wild else Lit s) :: segments l'
  end.

Definition parse_pattern (s : string) : pattern :=
  let '(method, path) := match Cut s " " with Some mp => mp | None => ("", s) end in
  {| pt_method := method; pt_segments := segments (tail (Split path "/")) |}.

(** [cleanPath] *)
Definition cleanPath (p : string) : string :=
  if bool_decide (p = "") then "/"
  else
    let np := clean_rooted p in
    if HasSuffix p "/" && negb (bool_decide (np = "/")) then np +:+ "/" else np.

(** An element of an escaped path as it is compared: unescaped, if that is possible. *)
Definition pathUnescape (s : string) : string := default s (PathUnescape s).

(** The elements of a path after its first slash against the segments of a pattern: what
    the wildcards match.  An empty last element is the final slash of the path, which no
    literal or wildcard matches. *)
Fixpoint match_segments (segs : list segment) (elems : list string) : option (list string) :=
  match segs, elems with
  | [], [] => Some []
  | [Rest], _ :: _ => Some []
  | Lit l :: segs', e :: elems' =>
      if negb (bool_decide (e = "")) && bool_decide (pathUnescape e = l) then match_segments segs' elems' else None
  | Wild :: segs', e :: elems' =>
      if bool_decide (e = "") || bool_decide (pathUnescape e = "/") then None
      else ms ← match_segments segs' elems'; Some (pathUnescape e :: ms)
  | _, _ => None
  end.

Definition rank (s : segment) : nat := match s with Lit _ => 0 | Wild => 1 | Rest => 2 end.

(** Whether one pattern is tried before another; the patterns match one path. *)
Fixpoint before (a b : list segment) : bool :=
  match a, b with
  | x :: a', y :: b' => if (rank x <? rank y)%nat then true else if (rank y <? rank x)%nat then false else before a' b'
  | _, _ => false
  end.

Section mux.
Context {H : Type}.

(** A multiplexer: the patterns as they are written, with their handlers. *)
Abbreviation ServeMux := (list (string * H)).

Definition candidate : Type := list segment * (H * list string).

(** The patterns for a method that match the path. *)
Definition candidates (mux : ServeMux) (method : string) (elems : list string) : list candidate :=
  omap (λ '(s, h),
          let p := parse_pattern s in
          if bool_decide (pt_method p = method) then
            ms ← match_segments (pt_segments p) elems; Some (pt_segments p, (h, ms))
          else None) mux.

Definition better (best : option candidate) (c : candidate) : option candidate :=
  match best with Some b => if before c.1 b.1 then Some c else best | None => Some c end.

Definition best (cs : list candidate) : option candidate := foldl better None cs.

Definition or_else {A} (o o' : option A) : option A := match o with Some a => Some a | None => o' end.

(** Patterns with the method come before those without one; HEAD is also GET. *)
Definition tree_match (mux : ServeMux) (method path : string) : option candidate :=
  let elems := tail (Split path "/") in
  or_else (best (candidates mux method elems))
    (or_else (if bool_decide (method = "HEAD") then best (candidates mux "GET" elems) else None)
             (best (candidates mux "" elems))).

Definition count_slashes (path : string) : nat := pred (length (Split path "/")).

Definition exactMatch (c : option candidate) (path : string) : bool :=
  match c with
  | None => false
  | Some (segs, _) =>
      if negb (bool_decide (last segs = Some Rest)) then true
      else if negb (HasSuffix path "/") then false
      else (length segs =? count_slashes path)%nat
  end.

Inductive found := Found (h : H) (matches : list string) | Moved | NotAllowed | NotFound.

(** [ServeMux.findHandler] *)
Definition findHandler (mux : ServeMux) (r : Request) : found :=
  let escapedPath := EscapedPath (r_URL r) in
  let connect := bool_decide (r_Method r = "CONNECT") in
  let path := if connect then escapedPath else cleanPath escapedPath in
  let n := tree_match mux (r_Method r) path in
  let slashed := path +:+ "/" in
  if negb (exactMatch n path) && negb (HasSuffix path "/") && exactMatch (tree_match mux (r_Method r) slashed) slashed
  then Moved
  else if negb (bool_decide (path = escapedPath)) then Moved
  else match n with
       | Some (_, (h, ms)) => Found h ms
       | None =>
           if existsb (λ '(s, _), let p := parse_pattern s in
                        bool_decide (is_Some (match_segments (pt_segments p) (tail (Split path "/"))))) mux
           then NotAllowed else NotFound
       end.

End mux.
Arguments found : clear implicits.
Arguments candidate : clear implicits.

(** ** What is found matches *)

Section found.
Context {H : Type}.
Implicit Types (mux : list (string * H)) (cs : list (candidate H)).

Lemma foldl_better_elem cs b c : foldl better b cs = Some c → b = Some c ∨ c ∈ cs.
Proof.
  revert b. induction cs as [|c0 cs IH]; intros b; simpl; [by left|]. intros [Hb|Hin]%IH; [|right; by constructor].
  destruct b as [b|]; simpl in Hb; [|injection Hb as ->; right; by constructor].
  destruct (before c0.1 b.1); [injection Hb as ->; right; by constructor|by left].
Qed.

Lemma best_elem cs c : best cs = Some c → c ∈ cs.
Proof. by intros [?|?]%foldl_better_elem. Qed.

Lemma candidates_elem mux method elems segs h ms : (segs, (h, ms)) ∈ candidates mux method elems →
  ∃ s, (s, h) ∈ mux ∧ segs = pt_segments (parse_pattern s) ∧ match_segments segs elems = Some ms.
Proof.
  unfold candidates. intros ([s h'] & Hin & Hc)%list_elem_of_omap. exists s. case_bool_decide; [|done].
  destruct (match_segments _ elems) as [ms'|] eqn:E; [|done]. by injection Hc as <- <- <-.
Qed.

Lemma tree_match_sound mux method path segs h ms : tree_match mux method path = Some (segs, (h, ms)) →
  ∃ s, (s, h) ∈ mux ∧ segs = pt_segments (parse_pattern s) ∧ match_segments segs (tail (Split path "/")) = Some ms.
Proof.
  unfold tree_match, or_else. destruct (best _) as [c|] eqn:E1.
  { intros [= ->]. by eapply candidates_elem, best_elem. }
  case_bool_decide; [destruct (best (candidates mux "GET" _)) as [c|] eqn:E2|].
  - intros [= ->]. by eapply candidates_elem, best_elem.
  - intros ?%best_elem. by eapply candidates_elem.
  - intros ?%best_elem. by eapply candidates_elem.
Qed.

(** The path's elements, as they are escaped. *)
Definition elements (r : Request) : list string := tail (Split (EscapedPath (r_URL r)) "/").

Lemma findHandler_sound mux r h ms : findHandler mux r = Found h ms →
  ∃ s, (s, h) ∈ mux ∧ match_segments (pt_segments (parse_pattern s)) (elements r) = Some ms.
Proof.
  unfold findHandler, elements. set (path := if bool_decide (r_Method r = "CONNECT") then _ else _).
  destruct (_ && _ && _); [done|]. destruct (bool_decide (path = _)) eqn:Hp; [|done]. apply bool_decide_eq_true in Hp. cbn [negb].
  destruct (tree_match mux (r_Method r) path) as [[segs [h' ms']]|] eqn:E; [|by destruct (existsb _ _)].
  intros [= -> ->]. apply tree_match_sound in E as (s & Hin & -> & Hm). exists s. by rewrite <- Hp.
Qed.

End found.

Definition ex_mux : list (string * nat) :=
  [("GET /v1/metering", 0%nat); ("/v1/", 1%nat); ("/v1/sandboxes/{id}/expose/{port}/", 2%nat);
   ("/v1/sandboxes/{id}/expose/{port}", 3%nat)].

Definition ex_request (method path : string) : Request :=
  {| r_Method := method; r_Host := ""; r_URL := {| u_Path := path; u_RawPath := ""; u_RawQuery := ""; u_ForceQuery := false |};
     r_Header := ∅; r_RemoteAddr := ""; r_TLS := false |}.

Example mux_examples :
  findHandler ex_mux (ex_request "GET" "/v1/metering") = Found 0%nat [] ∧
  findHandler ex_mux (ex_request "POST" "/v1/metering") = Found 1%nat [] ∧
  findHandler ex_mux (ex_request "GET" "/v1/sandboxes/a b/expose/80/x/y") = Found 2%nat ["a b"; "80"] ∧
  findHandler ex_mux (ex_request "GET" "/v1/sandboxes/sb/expose/80") = Found 3%nat ["sb"; "80"] ∧
  findHandler ex_mux (ex_request "GET" "/v1/sandboxes/sb/../expose") = Moved ∧
  findHandler ex_mux (ex_request "GET" "/v1") = Moved ∧
  findHandler ex_mux (ex_request "GET" "/v2") = NotFound.
Proof. vm_compute. done. Qed.

End GoMux.
