(* ===== verification/Daemon.v ===== *)
(** * internal/daemon: the sandbox API of a node

    What forkd, and the stub inside a husk pod, serve over HTTP for the sandboxes they run:
    the registrations of sandbox_api.go, the four gates in front of them (requireBearer,
    ptyAuth, checkBearer and the interceptor of internal/sandboxrpc), the lifecycle handlers
    of lifecycle_api.go, the route and the rewriting of the guest proxy (expose_route.go,
    expose.go) and the frames of exec_ws.go.

    The registrations are guarded by one lock and each access is an operation on
    [registry]; the counters and connections are in DaemonConns.  A handler returns what it
    does with a request, [answer]: the guest agents behind it, the copying of streams, the
    audit log and the texts of errors are left out. *)

From Stdlib Require Import Ascii.
From S2P Require Import Prelude Sha256 Json GoStrings GoNet GoUrl GoHttp GoMux.
Import Sha256 Json GoStrings GoNet GoUrl GoHttp GoMux.

Module Daemon.

(** ** The settings, fixed before the API serves *)

Definition defaultMaxExecTimeoutSeconds : Z := 86400.
Definition defaultMaxForwards : Z := 16.
Definition defaultMaxExpose : Z := 16.

Record settings := {
  s_allowTokenless : bool;
  s_singleSandbox : bool;
  s_singleSandboxID : string;
  s_maxStreams : Z;
  s_maxExecTimeout : Z;
  s_maxForwards : Z;
  s_maxExpose : Z;
}.

(** forkd uses these settings, up to the limits. *)
Definition NewSandboxAPI : settings := {|
  s_allowTokenless := false; s_singleSandbox := false; s_singleSandboxID := ""; s_maxStreams := 0;
  s_maxExecTimeout := defaultMaxExecTimeoutSeconds; s_maxForwards := defaultMaxForwards; s_maxExpose := defaultMaxExpose |}.

Definition SetSingleSandbox (id : string) (s : settings) : settings := {|
  s_allowTokenless := s_allowTokenless s; s_singleSandbox := true; s_singleSandboxID := id; s_maxStreams := s_maxStreams s;
  s_maxExecTimeout := s_maxExecTimeout s; s_maxForwards := s_maxForwards s; s_maxExpose := s_maxExpose s |}.

(** ** What is registered for a sandbox *)

Record VitalsLabels := { vl_Claim : string; vl_Pool : string; vl_Workspace : string; vl_Namespace : string }.

Record registry := {
  a_tokens : gmap string string;
  a_streamPaths : gmap string string;
  a_lastActivity : gmap string Z;
  a_deadlines : gmap string Z;
  a_paused : gset string;
  a_vitalsLabels : gmap string VitalsLabels;
}.

Definition no_registrations : registry := {|
  a_tokens := ∅; a_streamPaths := ∅; a_lastActivity := ∅; a_deadlines := ∅; a_paused := ∅; a_vitalsLabels := ∅ |}.

Definition with_tokens (f : gmap string string → gmap string string) (a : registry) : registry := {|
  a_tokens := f (a_tokens a); a_streamPaths := a_streamPaths a; a_lastActivity := a_lastActivity a;
  a_deadlines := a_deadlines a; a_paused := a_paused a; a_vitalsLabels := a_vitalsLabels a |}.
Definition with_streamPaths (f : gmap string string → gmap string string) (a : registry) : registry := {|
  a_tokens := a_tokens a; a_streamPaths := f (a_streamPaths a); a_lastActivity := a_lastActivity a;
  a_deadlines := a_deadlines a; a_paused := a_paused a; a_vitalsLabels := a_vitalsLabels a |}.
Definition with_lastActivity (f : gmap string Z → gmap string Z) (a : registry) : registry := {|
  a_tokens := a_tokens a; a_streamPaths := a_streamPaths a; a_lastActivity := f (a_lastActivity a);
  a_deadlines := a_deadlines a; a_paused := a_paused a; a_vitalsLabels := a_vitalsLabels a |}.
Definition with_deadlines (f : gmap string Z → gmap string Z) (a : registry) : registry := {|
  a_tokens := a_tokens a; a_streamPaths := a_streamPaths a; a_lastActivity := a_lastActivity a;
  a_deadlines := f (a_deadlines a); a_paused := a_paused a; a_vitalsLabels := a_vitalsLabels a |}.
Definition with_paused (f : gset string → gset string) (a : registry) : registry := {|
  a_tokens := a_tokens a; a_streamPaths := a_streamPaths a; a_lastActivity := a_lastActivity a;
  a_deadlines := a_deadlines a; a_paused := f (a_paused a); a_vitalsLabels := a_vitalsLabels a |}.
Definition with_labels (f : gmap string VitalsLabels → gmap string VitalsLabels) (a : registry) : registry := {|
  a_tokens := a_tokens a; a_streamPaths := a_streamPaths a; a_lastActivity := a_lastActivity a;
  a_deadlines := a_deadlines a; a_paused := a_paused a; a_vitalsLabels := f (a_vitalsLabels a) |}.

Definition RegisterToken (sandboxID token : string) (a : registry) : registry :=
  if bool_decide (token = "") then a else with_tokens (insert sandboxID token) a.

Definition RegisterSandbox (sandboxID vsockPath : string) (a : registry) : registry :=
  with_streamPaths (insert sandboxID vsockPath) a.

Definition RegisterStreamPath : string → string → registry → registry := RegisterSandbox.

Definition SetVitalsLabels (sandboxID : string) (labels : VitalsLabels) (a : registry) : registry :=
  with_labels (insert sandboxID labels) a.

(** [now] is the clock's reading. *)
Definition touch (now : Z) (sandboxID : string) (a : registry) : registry := with_lastActivity (insert sandboxID now) a.

Definition SetTimeout (now : Z) (sandboxID : string) (d : Z) (a : registry) : registry :=
  with_deadlines (insert sandboxID (now + d)) a.

Definition MarkPaused (sandboxID : string) (paused : bool) (a : registry) : registry :=
  with_paused (λ s, if paused then {[sandboxID]} ∪ s else s ∖ {[sandboxID]}) a.

(** The last of the three locked parts of [UnregisterSandbox]. *)
Definition forget_sandbox (sandboxID : string) (a : registry) : registry := {|
  a_tokens := delete sandboxID (a_tokens a); a_streamPaths := delete sandboxID (a_streamPaths a);
  a_lastActivity := delete sandboxID (a_lastActivity a); a_deadlines := delete sandboxID (a_deadlines a);
  a_paused := a_paused a ∖ {[sandboxID]}; a_vitalsLabels := delete sandboxID (a_vitalsLabels a) |}.

Definition registered (sandboxID : string) (a : registry) : bool := bool_decide (is_Some (a_streamPaths a !! sandboxID)).

(** ** The gates *)

Section api.
Variable cfg : settings.

Definition resolveSandboxID (requested : string) : string :=
  if s_singleSandbox cfg then s_singleSandboxID cfg else requested.

(** The comparison is in constant time, which is not visible here. *)
Definition presents (token : string) (h : Header) : bool :=
  match CutPrefix (header_Get h "Authorization") "Bearer " with
  | Some presented => bool_decide (presented = token)
  | None => false
  end.

(** In front of the guest proxy. *)
Definition checkBearer (sandboxID : string) (r : Request) (a : registry) : bool :=
  match a_tokens a !! resolveSandboxID sandboxID with
  | None => s_allowTokenless cfg
  | Some token => presents token (r_Header r)
  end.

(** In front of the WebSocket: the sandbox, or the status. *)
Definition ptyAuth (r : Request) (a : registry) : result Z string :=
  let requested := Get (Query (r_URL r)) "sandbox" in
  if bool_decide (requested = "") then Err 400
  else
    let sandbox := resolveSandboxID requested in
    match a_tokens a !! sandbox with
    | None => if s_allowTokenless cfg then Ok sandbox else Err 401
    | Some token => if presents token (r_Header r) then Ok sandbox else Err 401
    end.

(** In front of the Connect service: [BearerInterceptor] with [connectLookupToken], or
    [AllowTokenlessInterceptor]; then the resolver.  An identifier that is empty is not in
    the context for the resolver. *)
Definition connectLookupToken (sandboxID : string) (a : registry) : option string := a_tokens a !! resolveSandboxID sandboxID.

Definition bearer_interceptor (r : Request) (a : registry) : option string :=
  let sandboxID := header_Get (r_Header r) "X-Sandbox-Id" in
  match connectLookupToken sandboxID a with
  | None => None
  | Some token => if bool_decide (token = "") then None else if presents token (r_Header r) then Some sandboxID else None
  end.

Definition connect_sandbox (r : Request) (a : registry) : option string :=
  let resolve id := if bool_decide (id = "") then "" else resolveSandboxID id in
  if s_allowTokenless cfg then Some (resolve (header_Get (r_Header r) "X-Sandbox-Id"))
  else resolve <$> bearer_interceptor r a.

(** In front of the lifecycle routes.  The body is read as JSON first; a husk's stub
    replaces the sandbox it names.  The values of the other members are kept as they are,
    here as what they mean. *)
Definition maxAuthBodyBytes : Z := 32 * 2 ^ 20.

Definition peek (body : string) : option string :=
  v ← parse body; into_struct ["sandbox"] (λ _ x cur, into_string cur x) "" v.

Definition raw_members (v : json) : option (gmap string json) :=
  match v with
  | JObj ms => Some (foldl (λ m kv, <[kv.1 := kv.2]> m) ∅ ms)
  | JNull => Some ∅
  | _ => None
  end.

Definition marshal_map (m : gmap string json) : json := JObj (omap (λ k, v ← m !! k; Some (k, v)) (sorted_keys m)).

Definition rewriteSandboxField (body id : string) : option string :=
  v ← parse body; m ← raw_members v; Some (render (marshal_map (<["sandbox" := JStr id]> m))).

(** The body for the handler, or the status; [body] is none when it cannot be read. *)
Definition requireBearer (r : Request) (body : option string) (a : registry) : result Z string :=
  match body with
  | None => Err 400
  | Some body =>
      if maxAuthBodyBytes <? Z.of_nat (String.length body) then Err 413
      else match peek body with
           | None => Err 400
           | Some requested =>
               let sandboxID := resolveSandboxID requested in
               match a_tokens a !! sandboxID with
               | None => if s_allowTokenless cfg then Ok body else Err 401
               | Some token =>
                   if negb (presents token (r_Header r)) then Err 401
                   else if s_singleSandbox cfg && negb (bool_decide (requested = sandboxID)) then
                     match rewriteSandboxField body sandboxID with Some body' => Ok body' | None => Err 400 end
                   else Ok body
               end
           end
  end.

(** ** The lifecycle routes *)

(** What a request comes to: a status without an effect on a sandbox, something done to
    one, or a sample of the vitals of some. *)
Inductive action :=
| Executes
| Calls
| Proxies (port : Z) (out : Outgoing)
| SetsTimeout (seconds : Z)
| Pauses
| Resumes.

Inductive answer :=
| Status (code : Z)
| Redirects
| Acts (sandbox : string) (what : action)
| Samples (sandboxes : gset string).

(** Whether a timeout is honoured. *)
Definition checkTimeout (timeout : Z) : bool := (s_maxExecTimeout cfg <=? 0) || (timeout <=? s_maxExecTimeout cfg).

Record setTimeoutRequest := { st_Sandbox : string; st_TimeoutSeconds : Z }.

Definition set_timeout_field (n : string) (v : json) (q : setTimeoutRequest) : option setTimeoutRequest :=
  if bool_decide (n = "sandbox") then
    x ← into_string (st_Sandbox q) v; Some {| st_Sandbox := x; st_TimeoutSeconds := st_TimeoutSeconds q |}
  else x ← into_int64 (st_TimeoutSeconds q) v; Some {| st_Sandbox := st_Sandbox q; st_TimeoutSeconds := x |}.

Definition timeout_request (body : string) : option setTimeoutRequest :=
  v ← decode_first body;
  into_struct ["sandbox"; "timeout_seconds"] set_timeout_field {| st_Sandbox := ""; st_TimeoutSeconds := 0 |} v.

Definition pause_request (body : string) : option string :=
  v ← decode_first body; into_struct ["sandbox"] (λ _ x cur, into_string cur x) "" v.

(** The status of [CodeTimeoutTooLarge] in the catalogue of internal/apierr is 400. *)
Definition handleSetTimeout (now : Z) (body : string) (a : registry) : answer * registry :=
  match timeout_request body with
  | None => (Status 400, a)
  | Some q =>
      if st_TimeoutSeconds q <=? 0 then (Status 400, a)
      else if negb (checkTimeout (st_TimeoutSeconds q)) then (Status 400, a)
      else (Acts (st_Sandbox q) (SetsTimeout (st_TimeoutSeconds q)),
            SetTimeout now (st_Sandbox q) (int64 (st_TimeoutSeconds q * second)) a)
  end.

(** [pauser] is whether the engine's call succeeds; without an engine there is none. *)
Definition handlePause (pauser : string → option bool) (body : string) (a : registry) : answer * registry :=
  match pause_request body with
  | None => (Status 400, a)
  | Some sandbox =>
      if bool_decide (pauser sandbox = Some false) then (Status 500, a)
      else (Acts sandbox Pauses, MarkPaused sandbox true a)
  end.

Definition handleResume (pauser : string → option bool) (now : Z) (body : string) (a : registry) : answer * registry :=
  match pause_request body with
  | None => (Status 400, a)
  | Some sandbox =>
      if bool_decide (pauser sandbox = Some false) then (Status 500, a)
      else (Acts sandbox Resumes, touch now sandbox (MarkPaused sandbox false a))
  end.

(** ** The guest proxy *)

(** The hook that [ReverseProxy] calls after it has removed the headers of the connection
    and those on forwarding. *)
Definition SetXForwarded (r : Request) (h : Header) : Header :=
  let h := match SplitHostPort (r_RemoteAddr r) with
           | Some (clientIP, _) =>
               header_Set h "X-Forwarded-For" (join ", " (default [] (h !! "X-Forwarded-For") ++ [clientIP]))
           | None => header_Del h "X-Forwarded-For"
           end in
  header_Set (header_Set h "X-Forwarded-Host" (r_Host r)) "X-Forwarded-Proto" (if r_TLS r then "https" else "http").

Definition pubHost (r : Request) : string :=
  let h := header_Get (r_Header r) "X-Forwarded-Host" in if bool_decide (h = "") then r_Host r else h.

Definition pubProto (r : Request) : string :=
  let p := header_Get (r_Header r) "X-Forwarded-Proto" in
  if bool_decide (p = "") then if r_TLS r then "https" else "http" else p.

Definition rewrite_header (r : Request) (h : Header) : Header :=
  let h := SetXForwarded r h in
  header_Set (if bool_decide (pubHost r = "") then h else header_Set h "X-Forwarded-Host" (pubHost r))
             "X-Forwarded-Proto" (pubProto r).

Definition or_guest (host : string) : string := if bool_decide (host = "") then "guest" else host.
Definition or_slash (path : string) : string := if bool_decide (path = "") then "/" else path.

(** The headers that [ReverseProxy] hands to the hook. *)
Definition without_forwarding (r : Request) : Header :=
  foldl header_Del (upgrade_header (upgradeType (r_Header r)) (trailers_header r (removeHopByHopHeaders (r_Header r))))
    ["Forwarded"; "X-Forwarded-For"; "X-Forwarded-Host"; "X-Forwarded-Proto"].

(** The request that the guest is sent; none when the upgrade it asks for cannot be
    printed.  The endpoint is a placeholder: the tunnel leads to the guest. *)
Definition proxied (prefix : string) (r : Request) : option Outgoing :=
  if negb (is_print (upgradeType (r_Header r))) then None
  else Some {|
    o_Endpoint := "guest";
    o_Host := or_guest (pubHost r);
    o_Path := or_slash (TrimPrefix (u_Path (r_URL r)) prefix);
    o_RawQuery := u_RawQuery (r_URL r);
    o_Header := agent_header (rewrite_header r (without_forwarding r)) |}.

Definition port_ok (port : Z) : bool := (1 <=? port) && (port <=? 65535).

(** [ProxyHTTP]: whether there is a proxy for the guest's port. *)
Definition ProxyHTTP (sandboxID : string) (guestPort : Z) (a : registry) : bool := port_ok guestPort && registered sandboxID a.

(** Up to the cap: the port, or the status. *)
Definition expose_port (id portStr : string) (r : Request) (a : registry) : result Z Z :=
  if bool_decide (id = "") || bool_decide (portStr = "") then Err 400
  else if negb (checkBearer id r a) then Err 401
  else match Atoi portStr with
       | Some port => if port_ok port then Ok port else Err 400
       | None => Err 400
       end.

(** After it. *)
Definition proxy_guest (id portStr : string) (port : Z) (r : Request) (a : registry) : answer :=
  let sandbox := resolveSandboxID id in
  if negb (ProxyHTTP sandbox port a) then Status 502
  else match proxied ("/v1/sandboxes/" +:+ id +:+ "/expose/" +:+ portStr) r with
       | Some out => Acts sandbox (Proxies port out)
       | None => Status 502
       end.

(** [granted] is the answer of the cap. *)
Definition handleExpose (granted : bool) (id portStr : string) (r : Request) (a : registry) : answer :=
  match expose_port id portStr r a with
  | Err code => Status code
  | Ok port => if granted then proxy_guest id portStr port r a else Status 429
  end.

(** ** The routes *)

Inductive api_route := ExecWS | Connect | Expose | Lifecycle.
Inductive lifecycle_route := SetTimeoutRoute | PauseRoute | ResumeRoute.

Definition connectPath : string := "/sandbox.v1.Sandbox/".

Definition api_mux : list (string * api_route) :=
  [("GET /sandbox.v1.Sandbox/Exec", ExecWS); (connectPath, Connect);
   ("/v1/sandboxes/{id}/expose/{port}/", Expose); ("/v1/sandboxes/{id}/expose/{port}", Expose); ("/", Lifecycle)].

Definition json_mux : list (string * lifecycle_route) :=
  [("POST /v1/set_timeout", SetTimeoutRoute); ("POST /v1/pause", PauseRoute); ("POST /v1/resume", ResumeRoute)].

(** What the process around the API answers with. *)
Record world := { w_now : Z; w_pauser : string → option bool; w_admit : bool }.

Definition lifecycle (w : world) (r : Request) (body : string) (a : registry) : answer * registry :=
  match findHandler json_mux r with
  | Found SetTimeoutRoute _ => handleSetTimeout (w_now w) body a
  | Found PauseRoute _ => handlePause (w_pauser w) body a
  | Found ResumeRoute _ => handleResume (w_pauser w) (w_now w) body a
  | Moved => (Redirects, a)
  | NotAllowed => (Status 405, a)
  | NotFound => (Status 404, a)
  end.

(** A WebSocket that is refused has touched the sandbox. *)
Definition handleExecWS (w : world) (r : Request) (a : registry) : answer * registry :=
  match ptyAuth r a with
  | Err code => (Status code, a)
  | Ok sandbox =>
      let a' := touch (w_now w) sandbox a in
      (if registered sandbox a' then Acts sandbox Executes else Status 404, a')
  end.

Definition Handler (w : world) (r : Request) (body : option string) (a : registry) : answer * registry :=
  match findHandler api_mux r with
  | Found ExecWS _ => handleExecWS w r a
  | Found Connect _ => (match connect_sandbox r a with Some sandbox => Acts sandbox Calls | None => Status 401 end, a)
  | Found Expose [id; port] => (handleExpose (w_admit w) id port r a, a)
  | Found Expose _ => (Status 400, a)
  | Found Lifecycle _ => match requireBearer r body a with Err code => (Status code, a) | Ok body => lifecycle w r body a end
  | Moved => (Redirects, a)
  | NotAllowed => (Status 405, a)
  | NotFound => (Status 404, a)
  end.

(** The sandboxes with a guest that can be reached. *)
Definition registeredSandboxIDs (a : registry) : gset string := dom (a_streamPaths a).

(** Every guest is asked for its vitals and its processes, of which the report has the
    numbers. *)
Definition handleNodeVitals (a : registry) : answer := Samples (registeredSandboxIDs a).

(** [ServeHTTP] of server.go: the listener of forkd.  The node's own endpoints are for
    operators and carry no token; of them only the vitals reach the guests. *)
Inductive forkd_route := Metrics | Healthz | Readyz | Metering | NodeVitals | Api.

Definition forkd_mux : list (string * forkd_route) :=
  [("/metrics", Metrics); ("/healthz", Healthz); ("/readyz", Readyz); ("GET /v1/metering", Metering);
   ("GET /v1/vitals/node", NodeVitals); ("/v1/", Api)].

Definition forkd (w : world) (r : Request) (body : option string) (a : registry) : answer * registry :=
  match findHandler forkd_mux r with
  | Found Api _ => Handler w r body a
  | Found NodeVitals _ => (handleNodeVitals a, a)
  | Found _ _ => (Status 200, a)
  | Moved => (Redirects, a)
  | NotAllowed => (Status 405, a)
  | NotFound => (Status 404, a)
  end.

End api.

(** ** The frames of the WebSocket

    One flag byte, the length of the payload as a big-endian uint32, and the payload. *)

Definition connectFlagEndStream : Z := 2.

Definition encodeConnectFrame (last : bool) (payload : string) : string :=
  let n := Z.of_nat (String.length payload) mod 2 ^ 32 in
  string_of_bytes [if last then connectFlagEndStream else 0; n / 2 ^ 24; n / 2 ^ 16 mod 256; n / 2 ^ 8 mod 256; n mod 256] +:+ payload.

(** The flags and the payload. *)
Definition decodeConnectFrame (b : string) : option (Z * string) :=
  match b with
  | String f (String b3 (String b2 (String b1 (String b0 payload)))) =>
      let n := byte_of b3 * 2 ^ 24 + byte_of b2 * 2 ^ 16 + byte_of b1 * 2 ^ 8 + byte_of b0 in
      if n =? Z.of_nat (String.length payload) then Some (byte_of f, payload) else None
  | _ => None
  end.

End Daemon.
