(* ===== verification/DaemonTheorems.v ===== *)
(** * The gates of the sandbox API

    A request reaches a sandbox only with that sandbox's own token, whichever of the four
    gates it goes through, but for the vitals that forkd samples for the report on its node;
    what forkd's listener leads to; the frames of the WebSocket. *)

From Stdlib Require Import Ascii.
From S2P Require Import Prelude Sha256 Json GoStrings GoNet GoUrl GoHttp GoMux Daemon.
Import Sha256 Json GoStrings GoStringsTheorems GoNet GoUrl GoHttp GoMux Daemon.

Module DaemonTheorems.

(** ** What is registered for one sandbox *)

Definition view (id : string) (a : registry) :=
  (a_tokens a !! id, a_streamPaths a !! id, a_lastActivity a !! id, a_deadlines a !! id, bool_decide (id ∈ a_paused a),
   a_vitalsLabels a !! id).

Lemma view_touch now id id' a : id ≠ id' → view id (touch now id' a) = view id a.
Proof. intros Hne. unfold view. simpl. by rewrite lookup_insert_ne. Qed.

Lemma view_SetTimeout now id id' d a : id ≠ id' → view id (SetTimeout now id' d a) = view id a.
Proof. intros Hne. unfold view. simpl. by rewrite lookup_insert_ne. Qed.

Lemma view_MarkPaused id id' b a : id ≠ id' → view id (MarkPaused id' b a) = view id a.
Proof.
  intros Hne. unfold view. simpl. do 2 f_equal. apply bool_decide_ext. destruct b; set_solver.
Qed.

(** ** The identifier that is checked is the one that is used *)

(** A whole document is also what a decoder reads first. *)
Lemma decode_parse s v : parse s = Some v → decode_first s = Some v.
Proof.
  unfold parse, decode_first. intros ([v' rest] & -> & H)%bind_Some. simpl. destruct (skip_ws rest); [by injection H as ->|done].
Qed.

Lemma pause_request_peek body id : peek body = Some id → pause_request body = Some id.
Proof. unfold peek, pause_request. intros (v & Hv & H)%bind_Some. by rewrite (decode_parse _ _ Hv). Qed.

(** Assigning a second field leaves the first one as it is. *)
Lemma field_for_sandbox k :
  field_for ["sandbox"] k = if bool_decide (field_for ["sandbox"; "timeout_seconds"] k = Some "sandbox") then Some "sandbox" else None.
Proof.
  unfold field_for. cbn [list_find]. destruct (decide ("sandbox" = k)) as [|Hk]; [done|]. cbn [fmap option_fmap option_map].
  destruct (decide ("timeout_seconds" = k)) as [<-|Ht]; [done|]. cbn [prod_map fmap option_fmap option_map].
  by destruct (decide (str_fold "sandbox" = str_fold k)), (decide (str_fold "timeout_seconds" = str_fold k)).
Qed.

Lemma field_for_timeout k n : field_for ["sandbox"; "timeout_seconds"] k = Some n → n = "sandbox" ∨ n = "timeout_seconds".
Proof.
  unfold field_for. cbn [list_find]. repeat (destruct (decide _); cbn; try (intros [= <-]; auto; fail)); done.
Qed.

Lemma timeout_fields ms q q' :
  foldl (λ acc '(k, x), a ← acc; match field_for ["sandbox"; "timeout_seconds"] k with Some n => set_timeout_field n x a | None => Some a end)
    (Some q) ms = Some q' →
  foldl (λ acc '(k, x), a ← acc; match field_for ["sandbox"] k with Some n => into_string a x | None => Some a end)
    (Some (st_Sandbox q)) ms = Some (st_Sandbox q').
Proof.
  revert q. induction ms as [|[k x] ms IH]; intros q; cbn [foldl mbind option_bind]; [by intros [= ->]|]. rewrite field_for_sandbox.
  assert (∀ f : option setTimeoutRequest → string * json → option setTimeoutRequest,
            (∀ kx, f None kx = None) → foldl f None ms = None) as Hnone.
  { intros f Hf. clear -Hf. induction ms as [|m ms IH]; [done|]. simpl. by rewrite Hf. }
  destruct (field_for ["sandbox"; "timeout_seconds"] k) as [n|] eqn:E; [|by apply IH].
  apply field_for_timeout in E as [->| ->].
  - rewrite bool_decide_eq_true_2 by done.
    change (set_timeout_field "sandbox" x q)
      with (y ← into_string (st_Sandbox q) x; Some {| st_Sandbox := y; st_TimeoutSeconds := st_TimeoutSeconds q |}).
    destruct (into_string (st_Sandbox q) x) as [y|]; [apply (IH {| st_Sandbox := y; st_TimeoutSeconds := _ |})|].
    cbn [mbind option_bind]. rewrite Hnone; [done|by intros []].
  - rewrite bool_decide_eq_false_2 by done.
    change (set_timeout_field "timeout_seconds" x q)
      with (y ← into_int64 (st_TimeoutSeconds q) x; Some {| st_Sandbox := st_Sandbox q; st_TimeoutSeconds := y |}).
    destruct (into_int64 (st_TimeoutSeconds q) x) as [y|]; [apply (IH {| st_Sandbox := _; st_TimeoutSeconds := y |})|].
    cbn [mbind option_bind]. rewrite Hnone; [done|by intros []].
Qed.

Lemma timeout_request_peek body id q : peek body = Some id → timeout_request body = Some q → st_Sandbox q = id.
Proof.
  unfold peek, timeout_request. intros (v & Hv & Hp)%bind_Some. rewrite (decode_parse _ _ Hv). cbn [mbind option_bind].
  destruct v; cbn [into_struct] in *; try done; [intros [= <-]; by injection Hp as <-|].
  intros Hq%timeout_fields. cbn in Hq. rewrite Hp in Hq. by injection Hq as ->.
Qed.

(** ** The gates *)

Section gates.
Context (cfg : settings) (Hclosed : s_allowTokenless cfg = false).

(** The request carries the token of the sandbox that the identifier stands for. *)
Definition carries (r : Request) (a : registry) (id : string) : Prop :=
  ∃ token, a_tokens a !! resolveSandboxID cfg id = Some token ∧ presents token (r_Header r) = true.

Lemma resolve_idem id : resolveSandboxID cfg (resolveSandboxID cfg id) = resolveSandboxID cfg id.
Proof. unfold resolveSandboxID. by destruct (s_singleSandbox cfg). Qed.

Lemma carries_resolve r a id : carries r a (resolveSandboxID cfg id) ↔ carries r a id.
Proof. unfold carries. by rewrite resolve_idem. Qed.

Lemma checkBearer_carries id r a : checkBearer cfg id r a = true ↔ carries r a id.
Proof.
  unfold checkBearer, carries. rewrite Hclosed. destruct (a_tokens a !! _) as [token|]; [|split; [done|by intros (? & ? & _)]].
  split; [by exists token|]. by intros (token' & [= <-] & ?).
Qed.

Lemma ptyAuth_carries r a sandbox : ptyAuth cfg r a = Ok sandbox → carries r a sandbox.
Proof.
  unfold ptyAuth. rewrite Hclosed. case_bool_decide; [done|]. destruct (a_tokens a !! _) as [token|] eqn:E; [|done].
  destruct (presents token _) eqn:Hp; [|done]. intros [= <-]. exists token. by rewrite resolve_idem.
Qed.

Lemma connect_carries r a sandbox : connect_sandbox cfg r a = Some sandbox → carries r a sandbox.
Proof.
  unfold connect_sandbox, bearer_interceptor, connectLookupToken. rewrite Hclosed.
  set (id := header_Get (r_Header r) "X-Sandbox-Id"). destruct (a_tokens a !! _) as [token|] eqn:E; [|done].
  case_bool_decide; [done|]. destruct (presents token _) eqn:Hp; [|done]. intros [= <-]. exists token. split; [|done].
  destruct (bool_decide (id = "")) eqn:Hid; [|by rewrite resolve_idem]. apply bool_decide_eq_true in Hid. by rewrite Hid in E.
Qed.

Lemma handleExpose_carries granted id port r a sandbox what : handleExpose cfg granted id port r a = Acts sandbox what → carries r a sandbox.
Proof.
  unfold handleExpose, expose_port, proxy_guest. destruct (_ || _); [done|].
  destruct (checkBearer cfg id r a) eqn:Hb; [|done]. apply checkBearer_carries in Hb. cbn [negb].
  destruct (Atoi port) as [n|]; [|done]. destruct (port_ok n), granted; try done. destruct (negb _); [done|].
  destruct (proxied _ r); [|done]. intros [= <- _]. by apply carries_resolve.
Qed.

Lemma requireBearer_carries r body a body' : requireBearer cfg r body a = Ok body' →
  ∃ requested, carries r a requested ∧ (s_singleSandbox cfg = false → peek body' = Some requested).
Proof.
  unfold requireBearer. rewrite Hclosed. destruct body as [body|]; [|done]. destruct (_ <? _); [done|].
  destruct (peek body) as [requested|] eqn:Hpk; [|done]. destruct (a_tokens a !! _) as [token|] eqn:E; [|done].
  destruct (presents token _) eqn:Hp; [|done]. cbn [negb]. intros Hb. exists requested. split; [by exists token|].
  intros Hm. rewrite Hm in Hb. cbn [andb] in Hb. by injection Hb as <-.
Qed.

(** What a lifecycle handler acts on, when the body has passed the gate. *)
Lemma acts_requested r a body requested id : carries r a requested → (s_singleSandbox cfg = false → peek body = Some requested) →
  (∀ requested, peek body = Some requested → id = requested) → carries r a id.
Proof.
  intros Hc Hm Hid. destruct (s_singleSandbox cfg) eqn:Hs; [|by rewrite (Hid _ (Hm eq_refl))].
  revert Hc. unfold carries, resolveSandboxID. by rewrite Hs.
Qed.

(** Every effect of a lifecycle handler is on one sandbox, whose token is carried. *)
Lemma lifecycle_spares w r body a requested id :
  carries r a requested → (s_singleSandbox cfg = false → peek body = Some requested) → ¬ carries r a id →
  (∀ what, (lifecycle cfg w r body a).1 ≠ Acts id what) ∧ (∀ ids, (lifecycle cfg w r body a).1 ≠ Samples ids) ∧
  view id (lifecycle cfg w r body a).2 = view id a.
Proof.
  intros Hc Hm Hid.
  assert (∀ id', pause_request body = Some id' → id ≠ id') as Hpause.
  { intros id' Hp ->. apply Hid. eapply acts_requested; [done..|]. intros q Hq%pause_request_peek. congruence. }
  assert (∀ q, timeout_request body = Some q → id ≠ st_Sandbox q) as Htimeout.
  { intros q Hq ->. apply Hid. eapply acts_requested; [done..|]. intros q' Hq'. by eapply timeout_request_peek. }
  unfold lifecycle. destruct (findHandler json_mux r) as [[] ms| | |]; try done.
  - unfold handleSetTimeout. destruct (timeout_request body) as [q|] eqn:Eq; [|done]. destruct (_ <=? 0); [done|].
    destruct (checkTimeout cfg _); [|done]. specialize (Htimeout q eq_refl). cbn [negb fst snd]. rewrite view_SetTimeout by done.
    split_and!; [congruence|done..].
  - unfold handlePause. destruct (pause_request body) as [id'|] eqn:Eq; [|done]. case_bool_decide; [done|].
    specialize (Hpause id' eq_refl). cbn [fst snd]. rewrite view_MarkPaused by done. split_and!; [congruence|done..].
  - unfold handleResume. destruct (pause_request body) as [id'|] eqn:Eq; [|done]. case_bool_decide; [done|].
    specialize (Hpause id' eq_refl). cbn [fst snd]. rewrite view_touch, view_MarkPaused by done. split_and!; [congruence|done..].
Qed.

Lemma Handler_spares w r body a id : ¬ carries r a id →
  (∀ what, (Handler cfg w r body a).1 ≠ Acts id what) ∧ (∀ ids, (Handler cfg w r body a).1 ≠ Samples ids) ∧
  view id (Handler cfg w r body a).2 = view id a.
Proof.
  intros Hid. unfold Handler. destruct (findHandler api_mux r) as [[] ms| | |]; try done.
  - unfold handleExecWS. destruct (ptyAuth cfg r a) as [sandbox|] eqn:E; [|done]. apply ptyAuth_carries in E.
    assert (id ≠ sandbox) as Hne by congruence. cbn [fst snd]. rewrite view_touch by done.
    split_and!; [| |done]; intros ?; destruct (registered _ _); congruence.
  - cbn [fst snd]. destruct (connect_sandbox cfg r a) eqn:E; [|done]. apply connect_carries in E. split_and!; [congruence|done..].
  - destruct ms as [|i [|p []]]; try done. split_and!; [intros what Ha%handleExpose_carries; done| |done].
    intros ids. cbn [fst]. unfold handleExpose, proxy_guest. by repeat case_match.
  - destruct (requireBearer cfg r body a) as [body'|] eqn:E; [|done]. apply requireBearer_carries in E as (requested & Hc & Hm).
    by eapply lifecycle_spares.
Qed.

End gates.

(** Only the report on the node samples guests. *)
Lemma Handler_samples cfg w r body a ids : (Handler cfg w r body a).1 ≠ Samples ids.
Proof.
  unfold Handler, handleExecWS, handleExpose, proxy_guest, lifecycle, handleSetTimeout, handlePause, handleResume.
  by repeat case_match; simplify_eq/=; repeat case_match.
Qed.

(** C5: a request has no effect on a sandbox whose token it does not carry.  Whatever else
    it carries, and whichever route it takes, forkd neither acts on the sandbox nor changes
    what is registered for it; in a husk pod, which serves one sandbox under any name,
    that holds for every name.  The one request that reaches the guests without a token is
    the node's own [GET /v1/vitals/node], which asks each for its vitals. *)
Theorem token_or_nothing cfg w r body a id :
  s_allowTokenless cfg = false →
  (∀ token, a_tokens a !! resolveSandboxID cfg id = Some token → header_Get (r_Header r) "Authorization" ≠ "Bearer " +:+ token) →
  (∀ what, (forkd cfg w r body a).1 ≠ Acts id what ∧ (Handler cfg w r body a).1 ≠ Acts id what) ∧
  (view id (forkd cfg w r body a).2 = view id a ∧ view id (Handler cfg w r body a).2 = view id a) ∧
  ∀ ids, (Handler cfg w r body a).1 ≠ Samples ids ∧
    ((forkd cfg w r body a).1 = Samples ids → ∃ ms, findHandler forkd_mux r = Found NodeVitals ms).
Proof.
  intros Hcl Hno. assert (¬ carries cfg r a id) as Hid.
  { intros (token & Ht & Hp). apply (Hno token Ht). unfold presents, CutPrefix in Hp.
    destruct (strip_prefix _ _) as [p|] eqn:E; [|done]. apply bool_decide_eq_true in Hp as ->. by apply strip_prefix_spec in E. }
  destruct (Handler_spares cfg Hcl w r body a id Hid) as (H1 & H2 & H3). unfold forkd.
  destruct (findHandler forkd_mux r) as [[] ms| | |]; split_and!; try (intros what; split); auto; try done; try by eauto.
  by intros ?%H2.
Qed.

(** ** What forkd's listener leads to *)

Ltac read_pattern :=
  repeat match goal with
  | H : context [pt_segments ?p] |- _ => let v := eval vm_compute in (pt_segments p) in change (pt_segments p) with v in H
  | |- context [pt_segments ?p] => let v := eval vm_compute in (pt_segments p) in change (pt_segments p) with v
  end.

(** The first element of a path that a pattern with a literal first segment matches. *)
Lemma match_first l segs elems ms : match_segments (Lit l :: segs) elems = Some ms → ∃ e es, elems = e :: es ∧ pathUnescape e = l.
Proof.
  destruct elems as [|e es]; [by destruct segs|]. simpl. destruct (bool_decide (pathUnescape e = l)) eqn:E.
  - apply bool_decide_eq_true in E. by exists e, es.
  - rewrite andb_false_r. by destruct segs.
Qed.

Lemma api_first r ms : findHandler forkd_mux r = Found Api ms → ∃ e es, elements r = e :: es ∧ pathUnescape e = "v1".
Proof.
  intros (s & Hin & Hm)%findHandler_sound. unfold forkd_mux in Hin.
  repeat (apply elem_of_cons in Hin as [[= ->]|Hin]); [|by apply elem_of_nil in Hin]. read_pattern. by eapply match_first.
Qed.

Lemma runtime_first h r ms : findHandler api_mux r = Found h ms → h = ExecWS ∨ h = Connect →
  ∃ e es, elements r = e :: es ∧ pathUnescape e = "sandbox.v1.Sandbox".
Proof.
  intros (s & Hin & Hm)%findHandler_sound Hh. unfold api_mux in Hin.
  repeat (apply elem_of_cons in Hin as [[= -> ->]|Hin]); try (by destruct Hh); try (by apply elem_of_nil in Hin); read_pattern; by eapply match_first.
Qed.

(** The runtime of a sandbox is not served by forkd.  Its listener passes on what is
    below /v1/ only, and the commands and calls of the Connect service are not below it:
    whatever a client sends, none of them is carried out. *)
Theorem forkd_serves_no_runtime cfg w r body a sandbox what :
  (forkd cfg w r body a).1 = Acts sandbox what → what ≠ Executes ∧ what ≠ Calls.
Proof.
  unfold forkd. destruct (findHandler forkd_mux r) as [[] ms| | |] eqn:Ef; try done. apply api_first in Ef as (e & es & He & Hv1).
  unfold Handler. destruct (findHandler api_mux r) as [[] ms'| | |] eqn:Ea; try done.
  1,2: apply runtime_first in Ea as (e' & es' & He' & Hs); [|by auto]; rewrite He in He'; injection He' as <- _; congruence.
  - destruct ms' as [|i [|p []]]; try done. cbn [fst]. unfold handleExpose, proxy_guest. repeat case_match; try done. by intros [= _ <-].
  - destruct (requireBearer cfg r body a); [|done]. unfold lifecycle, handleSetTimeout, handlePause, handleResume.
    repeat case_match; try done; by intros [= _ <-].
Qed.

(** ** Frames *)

Lemma bytes4 n : 0 ≤ n < 2 ^ 32 →
  n / 2 ^ 24 * 2 ^ 24 + n / 2 ^ 16 mod 256 * 2 ^ 16 + n / 2 ^ 8 mod 256 * 2 ^ 8 + n mod 256 = n ∧ 0 ≤ n / 2 ^ 24 < 256.
Proof. intros H. split; [|split; [apply Z.div_pos|apply Z.div_lt_upper_bound]; lia]. Z.to_euclidean_division_equations. lia. Qed.

Lemma byte_of_of_byte n : 0 ≤ n < 256 → byte_of (of_byte n) = n.
Proof.
  intros H. assert (Forall (λ k, byte_of (of_byte (Z.of_nat k)) = Z.of_nat k) (seq 0 256)) as Hk.
  { apply (bool_decide_unpack _). vm_compute. exact I. }
  rewrite Forall_forall in Hk. specialize (Hk (Z.to_nat n)). rewrite Z2Nat.id in Hk by lia. apply Hk, elem_of_seq. lia.
Qed.

(** A frame is read as it was written. *)
Lemma frame_roundtrip final payload : Z.of_nat (String.length payload) < 2 ^ 32 →
  decodeConnectFrame (encodeConnectFrame final payload) = Some (if final then connectFlagEndStream else 0, payload).
Proof.
  intros Hl. unfold encodeConnectFrame. rewrite Z.mod_small by lia.
  set (n := Z.of_nat (String.length payload)) in *. destruct (bytes4 n) as [Hn Hb]; [lia|].
  assert (∀ m, 0 ≤ m mod 256 < 256) as Hmod by (intros; apply Z.mod_pos_bound; lia).
  cbn [string_of_bytes String.append]. rewrite !str_app_cons, str_app_nil_l. unfold decodeConnectFrame.
  rewrite !byte_of_of_byte by (auto || by destruct final). rewrite Hn. subst n. rewrite Z.eqb_refl. by destruct final.
Qed.

(** ** Examples *)

Definition ex_two : registry :=
  RegisterToken "sb-a" "ta" (RegisterSandbox "sb-a" "/run/a" (RegisterToken "sb-b" "tb" (RegisterSandbox "sb-b" "/run/b" no_registrations))).

Definition ex_world : world := {| w_now := 1000; w_pauser := λ _, Some true; w_admit := true |}.

Definition ex_post (path token : string) : Request :=
  {| r_Method := "POST"; r_Host := "node:9091"; r_URL := {| u_Path := path; u_RawPath := ""; u_RawQuery := ""; u_ForceQuery := false |};
     r_Header := {["Authorization" := ["Bearer " +:+ token]]}; r_RemoteAddr := "10.0.0.9:4000"; r_TLS := false |}.

Definition ex_body (key sandbox : string) : option string := Some (render (JObj [(key, JStr sandbox)])).

Example pause_own : (forkd NewSandboxAPI ex_world (ex_post "/v1/pause" "ta") (ex_body "sandbox" "sb-a") ex_two).1 = Acts "sb-a" Pauses.
Proof. vm_compute. reflexivity. Qed.

Lemma token_or_nothing_witness :
  (forkd NewSandboxAPI ex_world (ex_post "/v1/pause" "ta") (ex_body "sandbox" "sb-b") ex_two).1 ≠ Acts "sb-b" Pauses ∧
  view "sb-b" (forkd NewSandboxAPI ex_world (ex_post "/v1/pause" "ta") (ex_body "sandbox" "sb-b") ex_two).2 = view "sb-b" ex_two.
Proof.
  destruct (token_or_nothing NewSandboxAPI ex_world (ex_post "/v1/pause" "ta") (ex_body "sandbox" "sb-b") ex_two "sb-b")
    as [H1 [[H2 _] _]]; [reflexivity| |split; [apply H1|exact H2]].
  intros token Ht. vm_compute in Ht. injection Ht as <-. vm_compute. discriminate.
Defined.

Lemma forkd_serves_no_runtime_witness :
  (forkd NewSandboxAPI ex_world (ex_post "/v1/pause" "ta") (ex_body "sandbox" "sb-a") ex_two).1 = Acts "sb-a" Pauses ∧
  Pauses ≠ Executes ∧ Pauses ≠ Calls.
Proof.
  split; [vm_compute; reflexivity|].
  apply (forkd_serves_no_runtime NewSandboxAPI ex_world (ex_post "/v1/pause" "ta") (ex_body "sandbox" "sb-a") ex_two "sb-a").
  vm_compute. reflexivity.
Defined.

(** The names of members are compared without regard to case, and the long s is one of the
    cases of s: it sorts behind the member that the stub of a husk pod writes, and wins. *)
Example long_s_wins :
  (Handler (SetSingleSandbox "local" NewSandboxAPI) ex_world (ex_post "/v1/pause" "tl") (ex_body "ſandbox" "other")
     (RegisterToken "local" "tl" no_registrations)).1 = Acts "other" Pauses.
Proof. vm_compute. reflexivity. Qed.

(** A server without tokens does not ask for the token of a sandbox that has one, when the
    call is one of the Connect service. *)
Example tokenless_skips_token :
  (Handler {| s_allowTokenless := true; s_singleSandbox := false; s_singleSandboxID := ""; s_maxStreams := 0; s_maxExecTimeout := 0;
              s_maxForwards := 0; s_maxExpose := 0 |} ex_world
     {| r_Method := "POST"; r_Host := ""; r_URL := {| u_Path := "/sandbox.v1.Sandbox/List"; u_RawPath := ""; u_RawQuery := ""; u_ForceQuery := false |};
        r_Header := {["X-Sandbox-Id" := ["sb-a"]]}; r_RemoteAddr := ""; r_TLS := false |} None ex_two).1 = Acts "sb-a" Calls.
Proof. vm_compute. reflexivity. Qed.

(** Without a ceiling a long timeout wraps round and is over at once. *)
Example timeout_wraps :
  a_deadlines (forkd {| s_allowTokenless := false; s_singleSandbox := false; s_singleSandboxID := ""; s_maxStreams := 0; s_maxExecTimeout := 0;
              s_maxForwards := 0; s_maxExpose := 0 |} ex_world (ex_post "/v1/set_timeout" "ta")
     (Some (render (JObj [("sandbox", JStr "sb-a"); ("timeout_seconds", JNum "9223372037")]))) ex_two).2 !! "sb-a"
  = Some (1000 - 9223372036709551616).
Proof. vm_compute. reflexivity. Qed.

End DaemonTheorems.
