(* ===== verification/ExposeTheorems.v ===== *)
(** * From a visitor to a port in a guest

    The preview proxy and forkd together: a request that the proxy forwards for a route is
    handled by forkd as a request for the port of the route's sandbox and for nothing else,
    and the guest is sent the clean path that the visitor asked for. *)

From Stdlib Require Import Ascii.
From S2P Require Import Prelude Sha256 Json GoStrings GoNet GoUrl GoHttp GoMux Sessions.
From S2P Require Import Preview PreviewRoutes PreviewProxy PreviewRoutesTheorems PreviewProxyTheorems Daemon DaemonTheorems.
Import Sha256 Json GoStrings GoStringsTheorems GoNet GoUrl GoUrlTheorems GoHttp.
Import Sessions Preview PreviewRoutes PreviewProxy PreviewRoutesTheorems PreviewProxyTheorems GoMux Daemon DaemonTheorems.

Module ExposeTheorems.

(** ** Escaped paths *)

Lemma escape_path_plain s : Forall (λ c, path_char c = true) (chars s) → escape_path s = s.
Proof.
  induction s as [|c s IH]; [done|]. cbn [String.list_ascii_of_string escape_path]. intros [-> Hs]%Forall_cons.
  by rewrite str_app_cons, str_app_nil_l, IH.
Qed.

Lemma escape_path_inj s t : escape_path s = escape_path t → s = t.
Proof. intros H. apply (f_equal PathUnescape) in H. rewrite !path_roundtrip in H. by injection H. Qed.

Lemma pathUnescape_escape s : pathUnescape (escape_path s) = s.
Proof. unfold pathUnescape. by rewrite path_roundtrip. Qed.

Lemma clean_elem_escape e : clean_elem e → clean_elem (escape_path e).
Proof.
  intros (H1 & H2 & H3 & H4). split_and!; [intros ?; by apply H1, escape_path_inj|intros ?; by apply H2, escape_path_inj|
    intros ?; by apply H3, escape_path_inj|].
  pose proof (Split_free (escape_path e) "/") as Hf. rewrite Split_escape_path, (Split_one _ _ H4) in Hf. by apply Forall_cons in Hf as [? _].
Qed.

Lemma join_Split s c : join (String c "") (Split s c) = s.
Proof.
  induction s as [|d s IH]; [done|]. cbn [Split]. pose proof (Split_ne s c) as Hne. destruct (Split s c) as [|p ps]; [done|].
  case_bool_decide as Hd.
  - subst d. change (join (String c "") ("" :: p :: ps)) with ("" +:+ String c "" +:+ join (String c "") (p :: ps)).
    by rewrite str_app_nil_l, str_app_cons, str_app_nil_l, IH.
  - rewrite <- IH. destruct ps; [done|]. change (join (String c "") (String d p :: s0 :: ps))
      with (String d p +:+ String c "" +:+ join (String c "") (s0 :: ps)). by rewrite str_app_cons.
Qed.

Lemma join_snoc x es : join "/" (x :: es ++ [""]) = join "/" (x :: es) +:+ "/".
Proof.
  revert x. induction es as [|e es IH]; intros x; [done|].
  change (join "/" (x :: (e :: es) ++ [""])) with (x +:+ "/" +:+ join "/" (e :: es ++ [""])).
  change (join "/" (x :: e :: es)) with (x +:+ "/" +:+ join "/" (e :: es)). rewrite IH. by rewrite !str_app_assoc.
Qed.

(** ** Clean paths *)

(** The elements of a clean path, and whether it ends in a slash. *)
Definition clean_path (path : string) (es : list string) (slash : bool) : Prop :=
  es ≠ [] ∧ Forall clean_elem es ∧ Split path "/" = "" :: es ++ (if slash then [""] else []).

Lemma clean_path_join path es slash : clean_path path es slash → path = join "/" ("" :: es) +:+ (if slash then "/" else "").
Proof.
  intros (_ & _ & Hs). rewrite <- (join_Split path "/"), Hs. destruct slash; [apply join_snoc|by rewrite app_nil_r, str_app_nil_r].
Qed.

Lemma clean_path_suffix path es slash : clean_path path es slash → HasSuffix path "/" = slash.
Proof.
  intros Hp. pose proof (clean_path_join _ _ _ Hp) as Hj. destruct Hp as (Hne & Hes & Hs). destruct (HasSuffix path "/") eqn:E.
  - apply HasSuffix_spec in E as [t Ht]. destruct slash; [done|]. rewrite Ht in Hs.
    change (t +:+ "/") with (t +:+ String "/" "") in Hs. rewrite Split_app in Hs. change (Split "" "/") with [""] in Hs.
    apply (f_equal last) in Hs. rewrite last_snoc, app_nil_r, last_cons in Hs.
    destruct (last es) as [e|] eqn:El; [|by apply last_None in El]. injection Hs as <-.
    apply last_Some_elem_of in El. rewrite Forall_forall in Hes. by destruct (Hes _ El).
  - destruct slash; [|done]. by rewrite (proj2 (HasSuffix_spec _ _)) in E by eauto.
Qed.

Lemma clean_path_clean path es slash : clean_path path es slash → cleanPath path = path.
Proof.
  intros Hp. pose proof (clean_path_suffix _ _ _ Hp) as Hsuf. pose proof (clean_path_join _ _ _ Hp) as Hj.
  destruct Hp as (Hne & Hes & Hs).
  assert (clean_rooted path = join "/" ("" :: es)) as Hc.
  { unfold clean_rooted. rewrite Hs. change (foldl clean_step [] ("" :: es ++ (if slash then [""] else [])))
      with (foldl clean_step [] (es ++ (if slash then [""] else []))). rewrite foldl_app, (clean_steps_ok [] es) by done.
    destruct es as [|e es]; [done|]. by destruct slash. }
  assert (join "/" ("" :: es) ≠ "/") as Hroot.
  { destruct es as [|e [|e' es]]; [done|..]; apply Forall_cons in Hes as [[Hn _] _]; destruct e; done. }
  unfold cleanPath. rewrite bool_decide_eq_false_2 by (intros ->; destruct es; [done|by destruct slash]).
  rewrite Hsuf, Hc, bool_decide_eq_false_2, Hj by done. destruct slash; [done|by rewrite str_app_nil_r].
Qed.

(** ** The routes of an exposed port *)

(** The elements of a path below a port's, which are at least one. *)
Definition below_port (id port : string) (rest : list string) : list string := ["v1"; "sandboxes"; id; "expose"; port] ++ rest.

(** A name that is itself in a path. *)
Definition plain_name (s : string) : Prop := clean_elem s ∧ escape_path s = s.

Lemma plain_name_wild s segs es : plain_name s → match_segments (Wild :: segs) (s :: es) = ms ← match_segments segs es; Some (s :: ms).
Proof.
  intros [(H1 & _ & _ & H4) He]. cbn [match_segments]. rewrite bool_decide_eq_false_2 by done.
  assert (pathUnescape s = s) as -> by (rewrite <- He at 1; apply pathUnescape_escape).
  rewrite bool_decide_eq_false_2; [done|]. intros ->. apply H4. by constructor.
Qed.

Lemma match_lit l segs es : l ≠ "" → pathUnescape l = l → match_segments (Lit l :: segs) (l :: es) = match_segments segs es.
Proof. intros H1 H2. cbn [match_segments]. by rewrite bool_decide_eq_false_2, bool_decide_eq_true_2. Qed.

Lemma match_lit_ne l segs e es : pathUnescape e ≠ l → match_segments (Lit l :: segs) (e :: es) = None.
Proof. intros H. cbn [match_segments]. by rewrite (bool_decide_eq_false_2 (_ = l)), andb_false_r. Qed.

Definition forkd_segments : list segment := [Lit "v1"; Rest].
Definition expose_segments : list segment := [Lit "v1"; Lit "sandboxes"; Wild; Lit "expose"; Wild; Rest].

(** Only patterns without a method match. *)
Lemma tree_match_any {H} (mux : list (string * H)) path cs c :
  (∀ m, candidates mux m (tail (Split path "/")) = if bool_decide ("" = m) then cs else []) → best cs = Some c →
  ∀ method, tree_match mux method path = Some c.
Proof.
  intros Hc Hb method. unfold tree_match. rewrite !Hc. destruct (bool_decide ("" = method)); [by rewrite Hb|].
  rewrite (bool_decide_eq_true_2 ("" = "")), Hb by done. by destruct (bool_decide (method = "HEAD")).
Qed.

Ltac pattern_of s := let v := eval vm_compute in (parse_pattern s) in change (parse_pattern s) with v.

Lemma forkd_candidates id port f fs m :
  candidates forkd_mux m (below_port id port (f :: fs)) = if bool_decide ("" = m) then [(forkd_segments, (Api, []))] else [].
Proof.
  unfold candidates, forkd_mux, below_port. cbn [omap list_omap app].
  repeat match goal with |- context [parse_pattern ?s] => pattern_of s end. cbn [pt_method pt_segments].
  rewrite !(match_lit "v1") by done. rewrite !(match_lit_ne _ _ "v1"), !(match_lit_ne _ _ "sandboxes") by done.
  change (match_segments [Rest] ("sandboxes" :: id :: "expose" :: port :: f :: fs)) with (Some ([] : list string)).
  cbn [mbind option_bind]. repeat case_bool_decide; done.
Qed.

Lemma api_candidates id port f fs m : plain_name id → plain_name port →
  candidates api_mux m (below_port id port (f :: fs)) =
  if bool_decide ("" = m) then [(expose_segments, (Expose, [id; port])); ([Rest], (Lifecycle, []))] else [].
Proof.
  intros Hid Hport. unfold candidates, api_mux, below_port. cbn [omap list_omap app].
  repeat match goal with |- context [parse_pattern ?s] => pattern_of s end. cbn [pt_method pt_segments].
  rewrite !(match_lit "v1"), !(match_lit "sandboxes"), !(match_lit_ne _ _ "v1") by done.
  rewrite !plain_name_wild by done. rewrite !(match_lit "expose"), !plain_name_wild by done.
  change (match_segments [Rest] (f :: fs)) with (Some ([] : list string)).
  change (match_segments [] (f :: fs)) with (None : option (list string)).
  change (match_segments [Rest] ("v1" :: "sandboxes" :: id :: "expose" :: port :: f :: fs)) with (Some ([] : list string)).
  cbn [mbind option_bind]. repeat case_bool_decide; done.
Qed.

(** A multiplexer that finds the same below every path below a port's finds it without a
    redirection. *)
Lemma finds {H} (mux : list (string * H)) r id port es slash cs segs h ms :
  (∀ f fs m, candidates mux m (below_port id port (f :: fs)) = if bool_decide ("" = m) then cs else []) →
  best cs = Some (segs, (h, ms)) → last segs = Some Rest → (length segs ≤ 6)%nat → es ≠ [] ∨ slash = true →
  clean_path (EscapedPath (r_URL r)) (below_port id port es) slash →
  findHandler mux r = Found h ms.
Proof.
  intros Hcs Hbest Hlast Hlen Hne Hp. unfold findHandler. set (path := EscapedPath (r_URL r)) in *.
  pose proof (clean_path_suffix _ _ _ Hp) as Hsuf. pose proof (clean_path_clean _ _ _ Hp) as Hclean. destruct Hp as (_ & _ & Hs).
  assert (∀ path', (∃ f fs, tail (Split path' "/") = below_port id port (f :: fs)) → ∀ m, tree_match mux m path' = Some (segs, (h, ms))) as Htree.
  { intros path' (f & fs & Hf). eapply tree_match_any; [|exact Hbest]. intros m. by rewrite Hf. }
  rewrite Hclean. replace (if bool_decide (r_Method r = "CONNECT") then path else path) with path by (by destruct (bool_decide _)).
  rewrite (bool_decide_eq_true_2 (path = path)) by done. cbn [negb]. rewrite Hsuf.
  rewrite (Htree path). 2:{ rewrite Hs. unfold below_port. rewrite <- app_assoc. cbn [tail].
    destruct es as [|e es]; [|by eexists _, _]. destruct Hne as [?| ->]; [done|]. by eexists _, _. }
  destruct slash; [by rewrite andb_false_r|]. destruct Hne as [Hne|?]; [|done]. destruct es as [|e es]; [done|].
  assert (Split (path +:+ "/") "/" = "" :: below_port id port (e :: es ++ [""])) as Hs'.
  { change (path +:+ "/") with (path +:+ String "/" ""). rewrite Split_app, Hs, app_nil_r. done. }
  rewrite (Htree (path +:+ "/")) by (rewrite Hs'; by eexists _, _).
  assert (exactMatch (Some (segs, (h, ms))) (path +:+ "/") = false) as ->; [|by rewrite andb_false_r].
  unfold exactMatch. rewrite Hlast, bool_decide_eq_true_2 by done. cbn [negb].
  rewrite (proj2 (HasSuffix_spec _ _)) by eauto. cbn [negb]. unfold count_slashes. rewrite Hs'.
  apply Nat.eqb_neq. unfold below_port. cbn [length pred app]. rewrite length_app. simpl. lia.
Qed.

(** ** The node's side of a forwarded request *)

(** The request as the node receives it.  The proxy's transport escapes the path in the
    standard way, so that no other form of it is kept. *)
Definition received (method addr : string) (out : Outgoing) : Request :=
  {| r_Method := method; r_Host := o_Host out;
     r_URL := {| u_Path := o_Path out; u_RawPath := ""; u_RawQuery := o_RawQuery out; u_ForceQuery := false |};
     r_Header := o_Header out; r_RemoteAddr := addr; r_TLS := false |}.

(** The path that a visitor asks for, cleaned. *)
Definition asked_path (r : Request) : string := clean_rooted (u_Path (r_URL r)).

Lemma plain_port z : 0 < z → plain_name (fmt_int z).
Proof.
  intros Hz. destruct (fmt_int_digits z Hz) as [Hne Hd].
  assert (Forall (λ c, path_char c = true ∧ c ≠ "/"%char ∧ c ≠ "."%char) (chars (fmt_int z))) as Hall.
  { eapply Forall_impl; [exact Hd|]. intros c Hc. split_and!; [|intros ->; done|intros ->; done].
    unfold path_char, unreserved. by rewrite Hc, ?orb_true_l, ?orb_true_r. }
  split; [|apply escape_path_plain; eapply Forall_impl; [exact Hall|]; by intros c [? _]]. split_and!; [done|..].
  - intros He. rewrite He in Hall. apply Forall_cons in Hall as [(_ & _ & ?) _]. done.
  - intros He. rewrite He in Hall. apply Forall_cons in Hall as [(_ & _ & ?) _]. done.
  - intros Hin. rewrite Forall_forall in Hall. by destruct (Hall _ Hin) as (_ & ? & _).
Qed.

Lemma clean_of_joined r : clean_rooted ("/" +:+ (if HasPrefix (u_Path (r_URL r)) "/" then u_Path (r_URL r) else "/" +:+ u_Path (r_URL r)))
  = asked_path r.
Proof.
  unfold asked_path, clean_rooted. do 2 f_equal. fold (clean_elems (u_Path (r_URL r))).
  match goal with |- foldl clean_step [] (Split ?p "/") = _ => change (clean_elems p = clean_elems (u_Path (r_URL r))) end.
  rewrite clean_elems_slash. destruct (HasPrefix _ _); [done|]. apply clean_elems_slash.
Qed.

Section node.
Context (route : Route) (Hid : plain_name (rt_SandboxID route)) (Hport : 1 ≤ rt_Port route ≤ 65535).

Lemma prefix_elems : Split (expose_prefix route) "/" = "" :: below_port (rt_SandboxID route) (fmt_int (rt_Port route)) [].
Proof.
  unfold expose_prefix. destruct Hid as [(_ & _ & _ & H1) _]. destruct (plain_port (rt_Port route)) as [(_ & _ & _ & H2) _]; [lia|].
  change ("/v1/sandboxes/" +:+ rt_SandboxID route +:+ "/expose/" +:+ fmt_int (rt_Port route))
    with ("/v1/sandboxes" +:+ String "/" (rt_SandboxID route +:+ "/expose/" +:+ fmt_int (rt_Port route))).
  rewrite Split_app. rewrite str_app_cons.
  change ("expose/" +:+ fmt_int (rt_Port route)) with ("expose" +:+ String "/" (fmt_int (rt_Port route))).
  rewrite Split_app, (Split_one _ _ H1), Split_app, (Split_one _ _ H2). done.
Qed.

(** The escaped path of a forwarded request. *)
Lemma received_path sub method addr out :
  o_Path out = expose_prefix route +:+ clean_rooted sub →
  clean_path (EscapedPath (r_URL (received method addr out)))
    (below_port (rt_SandboxID route) (fmt_int (rt_Port route)) (escape_path <$> clean_elems sub))
    (bool_decide (clean_elems sub = [])).
Proof.
  intros Ho. pose proof (plain_port (rt_Port route)) as [Hp1 Hp2]; [lia|]. destruct Hid as [Hi1 Hi2].
  assert (Split (o_Path out) "/" = "" :: below_port (rt_SandboxID route) (fmt_int (rt_Port route))
            (match clean_elems sub with [] => [""] | es => es end)) as Hs.
  { rewrite Ho. pose proof (clean_rooted_elems sub) as Hc. unfold clean_rooted in *. fold (clean_elems sub) in *.
    change ("/" +:+ join "/" (clean_elems sub)) with (String "/" (join "/" (clean_elems sub))) in *. rewrite Split_app, prefix_elems.
    cbn [Split] in Hc. pose proof (Split_ne (join "/" (clean_elems sub)) "/"). destruct (Split (join "/" (clean_elems sub)) "/"); [done|].
    rewrite bool_decide_eq_true_2 in Hc by done. injection Hc as ->. by destruct (clean_elems sub). }
  assert (EscapedPath (r_URL (received method addr out)) = escape_path (o_Path out)) as ->.
  { unfold EscapedPath. cbn [r_URL received u_RawPath u_Path]. rewrite (bool_decide_eq_true_2 ("" = "")) by done. cbn [negb andb].
    rewrite bool_decide_eq_false_2; [done|]. intros He. rewrite He in Hs. done. }
  split_and!; [done| |].
  - unfold below_port. rewrite Forall_app. split.
    + repeat (constructor; [first [done | split_and!; [done..|]; apply contains_char_false; reflexivity]|]). constructor.
    + apply Forall_fmap. eapply Forall_impl; [apply clean_elems_ok|]. apply clean_elem_escape.
  - rewrite Split_escape_path, Hs. unfold below_port. cbn [app fmap list_fmap]. rewrite Hi2, Hp2.
    do 6 f_equal. destruct (clean_elems sub) as [|e es]; [done|].
    rewrite bool_decide_eq_false_2 by done. by rewrite app_nil_r.
Qed.

End node.

(** ** Headers on the way *)

(** The request, without what only an auth server may say. *)
Abbreviation told r := (strip_request r).

Lemma forwarded_inv r o out : forwarded r o = Some out →
  is_print (upgradeType (o_Header o)) = true ∧ o_Path out = o_Path o ∧ o_RawQuery out = o_RawQuery o ∧
  o_Header out = forwarded_header r (o_Header o).
Proof. unfold forwarded. destruct (is_print _); [|done]. by intros [= <-]. Qed.

(** What is left of the upgrade that a client asks for. *)
Lemma forwarded_upgrade r h : upgradeType (forwarded_header r h) = upgradeType h.
Proof.
  assert (∀ k, k = "Connection" ∨ k = "Upgrade" → forwarded_header r h !! k =
    upgrade_header (upgradeType h) (trailers_header r (removeHopByHopHeaders h)) !! k) as Hl.
  { intros k Hk. unfold forwarded_header, agent_header, forwarded_for. case_bool_decide; [|rewrite header_Set_ne by (by destruct Hk; subst)];
      (destruct (SplitHostPort _) as [[? ?]|]; [by rewrite header_Set_ne by (by destruct Hk; subst)|done]). }
  unfold upgradeType at 1, header_Get. change (CanonicalHeaderKey "Upgrade") with "Upgrade". rewrite !Hl by auto.
  unfold upgrade_header. destruct (bool_decide (upgradeType h = "")) eqn:E.
  - apply bool_decide_eq_true in E. rewrite E.
    assert (trailers_header r (removeHopByHopHeaders h) !! "Connection" = None) as ->; [|done].
    unfold trailers_header. destruct (has_token _ _); [rewrite header_Set_ne by done|];
      unfold removeHopByHopHeaders; rewrite header_Dels_lookup; rewrite decide_True by by_eval; done.
  - unfold header_Set. change (CanonicalHeaderKey "Upgrade") with "Upgrade". change (CanonicalHeaderKey "Connection") with "Connection".
    rewrite lookup_insert_ne, !lookup_insert_eq by done. done.
Qed.

Section way.
Context {UC : Unicode} {MR : MapRange} {HC : HttpClient}.

(** The client does not ask for these headers to be dropped. *)
Definition ordinary (r : Request) : Prop :=
  ∀ k, k ∈ ["Authorization"; "X-Forwarded-Host"] → k ∉ CanonicalHeaderKey <$> connection_names (r_Header r).

Lemma forwarded_at p clock r route id h out k : identified p clock (told r) route id h →
  forwarded (told r) (director (told r) route h) = Some out → k ∈ ["Authorization"; "X-Forwarded-Host"] →
  o_Header out !! k = if decide (k ∈ CanonicalHeaderKey <$> connection_names (r_Header r)) then None
                      else o_Header (director (told r) route h) !! k.
Proof.
  intros Hi (_ & _ & _ & ->)%forwarded_inv Hk. assert ((k ∉ own_headers) ∧ k ∉ hopHeaders) as [H1 H2].
  { apply elem_of_cons in Hk as [->|Hk]; [by split; by_eval|]. apply list_elem_of_singleton in Hk as ->. by split; by_eval. }
  rewrite forwarded_header_lookup by done.
  assert (connection_names (o_Header (director (told r) route h)) = connection_names (r_Header r)) as ->; [|done].
  unfold connection_names. rewrite director_lookup; [done| |by_eval|by_eval]. intros k' vs Hv. by eapply identified_headers.
Qed.

(** The proxy's own request for a route, as the node's listener and the stub of a husk pod
    handle it. *)
Lemma expose_routed cfg w method addr body a route sub out :
  plain_name (rt_SandboxID route) → 1 ≤ rt_Port route ≤ 65535 → o_Path out = expose_prefix route +:+ clean_rooted sub →
  let answer := handleExpose cfg (w_admit w) (rt_SandboxID route) (fmt_int (rt_Port route)) (received method addr out) a in
  (forkd cfg w (received method addr out) body a).1 = answer ∧ (Handler cfg w (received method addr out) body a).1 = answer.
Proof.
  intros Hid Hport Ho. pose proof (received_path route Hid Hport sub method addr out Ho) as Hp.
  assert (escape_path <$> clean_elems sub ≠ [] ∨ bool_decide (clean_elems sub = []) = true) as Hne.
  { destruct (clean_elems sub); [right|left]; done. }
  cbv zeta. apply and_comm. split.
  - unfold Handler. erewrite (finds api_mux _ (rt_SandboxID route) (fmt_int (rt_Port route)));
      [|intros; apply api_candidates; [done|apply plain_port; lia]|reflexivity|reflexivity|apply Nat.leb_le; reflexivity|exact Hne|exact Hp].
    reflexivity.
  - unfold forkd. erewrite finds; [|intros; apply forkd_candidates|reflexivity|reflexivity|apply Nat.leb_le; reflexivity|exact Hne|exact Hp].
    unfold Handler. erewrite (finds api_mux _ (rt_SandboxID route) (fmt_int (rt_Port route)));
      [|intros; apply api_candidates; [done|apply plain_port; lia]|reflexivity|reflexivity|apply Nat.leb_le; reflexivity|exact Hne|exact Hp].
    reflexivity.
Qed.

(** What the guest is sent of it. *)
Lemma proxied_route method addr route sub out : is_print (upgradeType (o_Header out)) = true →
  o_Path out = expose_prefix route +:+ clean_rooted sub →
  ∃ out', proxied ("/v1/sandboxes/" +:+ rt_SandboxID route +:+ "/expose/" +:+ fmt_int (rt_Port route)) (received method addr out) = Some out' ∧
    o_Path out' = clean_rooted sub ∧ o_RawQuery out' = o_RawQuery out ∧ o_Host out' = or_guest (pubHost (received method addr out)).
Proof.
  intros Hu Ho. unfold proxied. cbn [received r_Header]. rewrite Hu. cbn [negb]. eexists. split; [reflexivity|].
  cbn [o_Path o_RawQuery o_Host received r_URL u_Path u_RawQuery]. split_and!; [|done..].
  fold (expose_prefix route). unfold TrimPrefix. rewrite Ho, (proj2 (strip_prefix_spec _ _ _) eq_refl). cbn [default].
  unfold or_slash, clean_rooted. by rewrite bool_decide_eq_false_2.
Qed.

Lemma handleExpose_route cfg granted method addr route sub out a : is_print (upgradeType (o_Header out)) = true →
  1 ≤ rt_Port route ≤ 65535 → o_Path out = expose_prefix route +:+ clean_rooted sub →
  ∃ out', o_Path out' = clean_rooted sub ∧ o_RawQuery out' = o_RawQuery out ∧ o_Host out' = or_guest (pubHost (received method addr out)) ∧
    ∀ answer, handleExpose cfg granted (rt_SandboxID route) (fmt_int (rt_Port route)) (received method addr out) a = answer →
    (∀ sandbox what, answer = Acts sandbox what →
       sandbox = resolveSandboxID cfg (rt_SandboxID route) ∧ what = Proxies (rt_Port route) out') ∧
    (rt_SandboxID route ≠ "" → checkBearer cfg (rt_SandboxID route) (received method addr out) a = true → granted = true →
     registered (resolveSandboxID cfg (rt_SandboxID route)) a = true →
     answer = Acts (resolveSandboxID cfg (rt_SandboxID route)) (Proxies (rt_Port route) out')).
Proof.
  intros Hu Hport Ho. destruct (proxied_route method addr route sub out Hu Ho) as (out' & Hp & H1 & H2 & H3). exists out'.
  split_and!; [done..|]. intros answer <-. unfold handleExpose, expose_port, proxy_guest, ProxyHTTP.
  rewrite Atoi_fmt_int by (unfold is_int64, min_int64, max_int64; lia). rewrite Hp. cbv beta iota zeta.
  assert (port_ok (rt_Port route) = true) as Hpo by (unfold port_ok; lia). rewrite Hpo.
  assert (fmt_int (rt_Port route) ≠ "") as Hne by (apply fmt_int_digits; lia). rewrite (bool_decide_eq_false_2 (fmt_int _ = "")) by done.
  rewrite orb_false_r. split.
  - intros sandbox what. case_bool_decide; [done|]. destruct (checkBearer _ _ _ _); [|done]. destruct granted; [|done]. cbn [negb]. rewrite Hpo.
    destruct (registered _ _); [|done]. by intros [= <- <-].
  - intros Hid -> -> ->. rewrite bool_decide_eq_false_2 by done. cbn [negb]. by rewrite Hpo.
Qed.

(** The host that a visitor asks for is the one the guest is told. *)
Lemma guest_host p clock r route id h out method addr : identified p clock (told r) route id h →
  forwarded (told r) (director (told r) route h) = Some out → ordinary r →
  header_Get (r_Header r) "X-Forwarded-Host" = "" → r_Host r ≠ "" → or_guest (pubHost (received method addr out)) = r_Host r.
Proof.
  intros Hi Hf Hr Hn Hh. unfold or_guest, pubHost. cbn [received r_Header r_Host].
  assert (header_Get (o_Header out) "X-Forwarded-Host" = r_Host r) as ->; [|by rewrite !(bool_decide_eq_false_2 (r_Host r = "") Hh)].
  unfold header_Get. change (CanonicalHeaderKey "X-Forwarded-Host") with "X-Forwarded-Host".
  rewrite (forwarded_at p clock r route id h) by (done || by_eval). rewrite decide_False by (apply Hr; by_eval).
  cbn [director o_Header]. rewrite lookup_union_r. 2:{ destruct (h !! _) eqn:E; [|done]. by eapply identified_headers in E. }
  unfold set_bearer, header_Del. change (CanonicalHeaderKey "Authorization") with "Authorization".
  assert (header_Get (StripForwardAuthHeaders (r_Header r)) "X-Forwarded-Host" = "") as Hs.
  { etrans; [|exact Hn]. unfold header_Get. change (CanonicalHeaderKey "X-Forwarded-Host") with "X-Forwarded-Host".
    unfold StripForwardAuthHeaders. destruct (r_Header r !! "X-Forwarded-Host") as [vs|] eqn:E.
    - by rewrite (proj2 (map_lookup_filter_Some _ _ _ _)) by (split; [exact E|reflexivity]).
    - by rewrite (proj2 (map_lookup_filter_None _ _ _)) by (by left). }
  assert (public_proto (told r) (public_host (told r) (r_Header (told r))) !! "X-Forwarded-Host" = Some [r_Host r]) as Hp.
  { unfold public_proto, public_host. cbn [strip_request r_Header r_Host]. rewrite Hs, (bool_decide_eq_true_2 ("" = "")) by done.
    case_bool_decide; [rewrite header_Set_ne by done|]; apply lookup_insert_eq. }
  case_bool_decide; [|rewrite header_Set_ne by done]; rewrite lookup_delete_ne, Hp by done; done.
Qed.

(** C6: from a visitor to the guest.  A request that the proxy forwards for a route comes,
    at the node or in the husk pod, to the port of the route's sandbox or to nothing; and
    when the node has the sandbox registered with the route's token, a tunnel is free and
    the client does not have the proxy's headers dropped by naming them in Connection, it
    does come there.  The guest is sent the path that the visitor asked for as [path.Clean]
    leaves it, so without dots, doubled slashes and a final slash; the query without its
    parameters named token, encoded anew if it had one; and the host that the visitor asked
    for, if the client neither sent an X-Forwarded-Host of its own nor had it dropped. *)
Theorem visitor_reaches_guest p rnd clock r used out :
  (ServeHTTP p rnd clock r used).1 = Forward out →
  ∃ label route id h, ParseHost (r_Host r) (p_domain p) = Some label ∧ Lookup (p_routes p) label = Some route ∧
    admitted p clock r route id h ∧
    ∀ cfg w method addr body a answer,
      plain_name (rt_SandboxID route) → 1 ≤ rt_Port route ≤ 65535 →
      answer = (forkd cfg w (received method addr out) body a).1 ∨ answer = (Handler cfg w (received method addr out) body a).1 →
      ∃ out', o_Path out' = asked_path r ∧ o_RawQuery out' = stripQueryParam (u_RawQuery (r_URL r)) "token" ∧
        (ordinary r → header_Get (r_Header r) "X-Forwarded-Host" = "" → r_Host r ≠ "" → o_Host out' = r_Host r) ∧
        (∀ sandbox what, answer = Acts sandbox what →
           sandbox = resolveSandboxID cfg (rt_SandboxID route) ∧ what = Proxies (rt_Port route) out') ∧
        (ordinary r → rt_Token route ≠ "" → a_tokens a !! resolveSandboxID cfg (rt_SandboxID route) = Some (rt_Token route) →
         registered (resolveSandboxID cfg (rt_SandboxID route)) a = true → w_admit w = true →
         answer = Acts (resolveSandboxID cfg (rt_SandboxID route)) (Proxies (rt_Port route) out')).
Proof.
  intros (_ & _ & label & route & id & h & Hp & _ & Hl & Ha & Hf)%ServeHTTP_forwards. exists label, route, id, h.
  do 3 (split; [done|]). intros cfg w method addr body a answer Hid Hport Hans. destruct Ha as [Hi _].
  destruct (forwarded_inv _ _ _ Hf) as (Hu & Ho & Hq & Hhd).
  assert (o_Path out = expose_prefix route +:+ asked_path r) as Hpath.
  { rewrite Ho. cbn [director o_Path]. f_equal. exact (clean_of_joined r). }
  destruct (handleExpose_route cfg (w_admit w) method addr route (u_Path (r_URL r)) out a) as (out' & H1 & H2 & H3 & H4); [|done|done|].
  { rewrite Hhd. by rewrite forwarded_upgrade. }
  exists out'. split; [done|]. split; [by rewrite H2, Hq|]. split; [intros; rewrite H3; by eapply guest_host|].
  destruct (expose_routed cfg w method addr body a route _ out Hid Hport Hpath) as [Hr1 Hr2].
  destruct (H4 answer) as [H5 H6]; [by destruct Hans as [-> | ->]; rewrite ?Hr1, ?Hr2|]. split; [done|].
  intros Hr Htok Ht Hreg Hadm. apply H6; [by destruct Hid as [[? _] _]| |done|done]. unfold checkBearer. rewrite Ht.
  unfold presents, header_Get. change (CanonicalHeaderKey "Authorization") with "Authorization". cbn [received r_Header].
  rewrite (forwarded_at p clock r route id h) by (done || by_eval). rewrite decide_False by (apply Hr; by_eval).
  cbn [director o_Header]. rewrite lookup_union_r. 2:{ destruct (h !! _) eqn:E; [|done]. by eapply identified_headers in E. }
  rewrite set_bearer_auth, bool_decide_eq_false_2 by done. unfold CutPrefix. rewrite (proj2 (strip_prefix_spec _ _ _) eq_refl).
  by apply bool_decide_eq_true_2.
Qed.

End way.

(** ** Examples *)

Definition ex_node : registry := RegisterToken "sb-site" "tok" (RegisterSandbox "sb-site" "/run/site" no_registrations).

Definition ex_visit (path : string) : Request := PreviewProxyTheorems.ex_request "site.mitos.app" path "token=t&x=1" ∅.

(** What the guest is sent of a visit. *)
Definition ex_guest (path : string) : option Outgoing :=
  match (ServeHTTP (HC := no_servers) ex_public None (λ _, 0) (ex_visit path) ∅).1 with
  | Forward out =>
      match (forkd NewSandboxAPI ex_world (received "GET" "10.0.0.1:6000" out) None ex_node).1 with
      | Acts _ (Proxies _ out') => Some out'
      | _ => None
      end
  | _ => None
  end.

Lemma visitor_reaches_guest_witness :
  ∃ out out', (ServeHTTP (HC := no_servers) ex_public None (λ _, 0) (ex_visit "/a/../b") ∅).1 = Forward out ∧
    (forkd NewSandboxAPI ex_world (received "GET" "10.0.0.1:6000" out) None ex_node).1 = Acts "sb-site" (Proxies 8080 out') ∧
    o_Path out' = "/b" ∧ o_Host out' = "site.mitos.app".
Proof.
  assert (∃ out, (ServeHTTP (HC := no_servers) ex_public None (λ _, 0) (ex_visit "/a/../b") ∅).1 = Forward out) as [out Ho]
    by (eexists; vm_compute; reflexivity).
  exists out. destruct (visitor_reaches_guest (HC := no_servers) _ _ _ _ _ out Ho) as (label & route & id & h & Hl & Hr & _ & H).
  vm_compute in Hl. injection Hl as <-. vm_compute in Hr. injection Hr as <-.
  assert (ordinary (ex_visit "/a/../b")) as Hord by (intros k Hk; vm_compute; apply not_elem_of_nil).
  destruct (H NewSandboxAPI ex_world "GET" "10.0.0.1:6000" None ex_node
    (forkd NewSandboxAPI ex_world (received "GET" "10.0.0.1:6000" out) None ex_node).1) as (out' & H1 & _ & H2 & _ & H3);
    [|cbn; lia|left; reflexivity|].
  { split; [|vm_compute; reflexivity]. split_and!; [discriminate..|]. apply contains_char_false. reflexivity. }
  exists out'. split; [exact Ho|]. split; [|split; [exact H1|apply H2; [exact Hord|reflexivity|discriminate]]].
  apply H3; [exact Hord|discriminate|reflexivity|reflexivity|reflexivity].
Defined.

(** The guest's own code is sent the token that commands its sandbox. *)
Example guest_is_sent_token : (ex_guest "/") ≫= (λ out, o_Header out !! "Authorization") = Some ["Bearer tok"].
Proof. vm_compute. reflexivity. Qed.

(** The last slash of a path is lost on the way: an app that redirects /docs to /docs/ sends
    its visitor round in a circle. *)
Example last_slash_lost : o_Path <$> ex_guest "/docs/" = Some "/docs".
Proof. vm_compute. reflexivity. Qed.

End ExposeTheorems.
