(* ===== verification/DaemonConns.v ===== *)
(** * internal/daemon: streams, forwards and tunnels of a sandbox

    The part of the sandbox API that opens things: the slots of streams and of the guest
    proxy (sandbox_api.go, expose_cap.go), the tunnels of the guest proxy (expose.go), the
    host ports of forward.go, and [UnregisterSandbox], which closes what a sandbox has open.

    All of it runs concurrently: the maps are guarded by the lock of the API, a forward by
    its own, and sockets have none.  A handler is a program over the registrations of
    Daemon and [conns], in which each locked section and each call on a socket is one
    operation.  Listeners, accepted connections and tunnels to a guest are handles, open or
    not; what flows through them is left out, so a session may end at any time. *)

From S2P Require Import Prelude Atomic Json GoStrings GoNet GoUrl GoHttp Daemon.
Import Json GoStrings GoNet GoUrl GoHttp Daemon.

Module DaemonConns.

(** A forward is known by the handle of its listener. *)
Record portForward := { pf_guestPort : Z; pf_conns : gset Z; pf_closed : bool }.

Record conns := {
  c_openStreams : gmap string Z;
  c_openExpose : gmap string Z;
  c_exposeConns : gmap string (gset Z);
  c_forwards : gmap string (list Z);
  c_pfs : gmap Z portForward;
  c_open : gset Z;
  c_next : Z;
}.

Definition no_conns : conns := {|
  c_openStreams := ∅; c_openExpose := ∅; c_exposeConns := ∅; c_forwards := ∅; c_pfs := ∅; c_open := ∅; c_next := 0 |}.

Definition with_openStreams (m : gmap string Z) (c : conns) : conns := {|
  c_openStreams := m; c_openExpose := c_openExpose c; c_exposeConns := c_exposeConns c; c_forwards := c_forwards c;
  c_pfs := c_pfs c; c_open := c_open c; c_next := c_next c |}.
Definition with_openExpose (m : gmap string Z) (c : conns) : conns := {|
  c_openStreams := c_openStreams c; c_openExpose := m; c_exposeConns := c_exposeConns c; c_forwards := c_forwards c;
  c_pfs := c_pfs c; c_open := c_open c; c_next := c_next c |}.
Definition with_exposeConns (m : gmap string (gset Z)) (c : conns) : conns := {|
  c_openStreams := c_openStreams c; c_openExpose := c_openExpose c; c_exposeConns := m; c_forwards := c_forwards c;
  c_pfs := c_pfs c; c_open := c_open c; c_next := c_next c |}.
Definition with_forwards (m : gmap string (list Z)) (c : conns) : conns := {|
  c_openStreams := c_openStreams c; c_openExpose := c_openExpose c; c_exposeConns := c_exposeConns c; c_forwards := m;
  c_pfs := c_pfs c; c_open := c_open c; c_next := c_next c |}.
Definition with_pfs (m : gmap Z portForward) (c : conns) : conns := {|
  c_openStreams := c_openStreams c; c_openExpose := c_openExpose c; c_exposeConns := c_exposeConns c; c_forwards := c_forwards c;
  c_pfs := m; c_open := c_open c; c_next := c_next c |}.
Definition with_open (o : gset Z) (c : conns) : conns := {|
  c_openStreams := c_openStreams c; c_openExpose := c_openExpose c; c_exposeConns := c_exposeConns c; c_forwards := c_forwards c;
  c_pfs := c_pfs c; c_open := o; c_next := c_next c |}.

(** ** Sockets *)

(** A new handle, open. *)
Definition opened (c : conns) : Z * conns :=
  (c_next c, {|
    c_openStreams := c_openStreams c; c_openExpose := c_openExpose c; c_exposeConns := c_exposeConns c;
    c_forwards := c_forwards c; c_pfs := c_pfs c; c_open := {[c_next c]} ∪ c_open c; c_next := c_next c + 1 |}).

(** Closing twice is harmless. *)
Definition close (h : Z) (c : conns) : unit * conns := (tt, with_open (c_open c ∖ {[h]}) c).

(** A listener accepts until it is closed. *)
Definition accept (l : Z) (c : conns) : option Z * conns :=
  if bool_decide (l ∈ c_open c) then let '(h, c') := opened c in (Some h, c') else (None, c).

Definition close_all (hs : list Z) : prog conns unit :=
  foldr (λ h p, do _ := op (close h); p) (Ret tt) hs.

(** ** Slots *)

(** One of at most [max] slots for a sandbox; no bound when [max] is not positive. *)
Definition acquire (max : Z) (id : string) (m : gmap string Z) : bool * gmap string Z :=
  let n := default 0 (m !! id) in
  if (0 <? max) && (max <=? n) then (false, m) else (true, <[id := n + 1]> m).

Definition release (id : string) (m : gmap string Z) : gmap string Z :=
  let n := default 0 (m !! id) - 1 in if 0 <? n then <[id := n]> m else delete id m.

Section conns.
Context `{!MapRange}.
Variable cfg : settings.

(** The connections of a map, in an order of the runtime's choice. *)
Definition range_conns (site : string) (hs : gset Z) : list Z := (map_range site (gset_to_gmap tt hs)).*1.

Definition acquireStream (id : string) (c : conns) : bool * conns :=
  let '(ok, m) := acquire (s_maxStreams cfg) id (c_openStreams c) in (ok, with_openStreams m c).
Definition releaseStream (id : string) (c : conns) : unit * conns := (tt, with_openStreams (release id (c_openStreams c)) c).

Definition acquireExpose (id : string) (c : conns) : bool * conns :=
  let '(ok, m) := acquire (s_maxExpose cfg) id (c_openExpose c) in (ok, with_openExpose m c).
Definition releaseExpose (id : string) (c : conns) : unit * conns := (tt, with_openExpose (release id (c_openExpose c)) c).

(** ** The state of the API, and its programs *)

Definition api : Type := registry * conns.

Definition on_conns {A} (f : conns → A * conns) : prog api A := on_snd (op f).

(** [connect] and the call that opens a stream to the guest's agent: the path is looked up
    when the connection is dialled; [agent] is whether the agent takes it.  A handle, or
    none. *)
Definition dial_guest (sandboxID : string) (agent : bool) : prog api (option Z) :=
  do path := rd (λ s : api, registered sandboxID s.1);
  if path && agent then do h := on_conns opened; Ret (Some h) else Ret None.

(** [Exec] and [ExecPTY] up to their return: the connection holds a slot.  [sent] is
    whether the first message goes through. *)
Definition Exec (sandboxID : string) (agent sent : bool) : prog api (option Z) :=
  do ok := on_conns (acquireStream sandboxID);
  if negb ok then Ret None
  else
    do h := dial_guest sandboxID agent;
    match h with
    | None => do _ := on_conns (releaseStream sandboxID); Ret None
    | Some h =>
        if sent then Ret (Some h)
        else do _ := on_conns (close h); do _ := on_conns (releaseStream sandboxID); Ret None
    end.

(** A call of the Connect service, or the session of a WebSocket: the stream is closed when
    it ends, whatever ends it. *)
Definition exec_session (sandboxID : string) (agent sent : bool) : prog api bool :=
  do h := Exec sandboxID agent sent;
  match h with
  | None => Ret false
  | Some h => do _ := on_conns (releaseStream sandboxID); do _ := on_conns (close h); Ret true
  end.

(** ** The guest proxy *)

Definition trackExposeConn (sandboxID : string) (h : Z) (c : conns) : unit * conns :=
  (tt, with_exposeConns (<[sandboxID := {[h]} ∪ default ∅ (c_exposeConns c !! sandboxID)]> (c_exposeConns c)) c).

Definition untrackExposeConn (sandboxID : string) (h : Z) (c : conns) : unit * conns :=
  (tt, match c_exposeConns c !! sandboxID with
       | None => c
       | Some hs =>
           let hs := hs ∖ {[h]} in
           with_exposeConns (if bool_decide (hs = ∅) then delete sandboxID (c_exposeConns c)
                             else <[sandboxID := hs]> (c_exposeConns c)) c
       end).

Definition take_exposeConns (sandboxID : string) (c : conns) : list Z * conns :=
  (range_conns "CloseExpose" (default ∅ (c_exposeConns c !! sandboxID)), with_exposeConns (delete sandboxID (c_exposeConns c)) c).

Definition CloseExpose (sandboxID : string) : prog conns unit :=
  do hs := op (take_exposeConns sandboxID); close_all hs.

(** [ServeHTTP] of the proxy: one tunnel per request, which the transport closes at the end
    of the exchange. *)
Definition exchange (sandboxID : string) (port : Z) (out : Outgoing) (agent : bool) : prog api answer :=
  do h := dial_guest sandboxID agent;
  match h with
  | None => Ret (Status 502)
  | Some h =>
      do _ := on_conns (trackExposeConn sandboxID h);
      do _ := on_conns (close h);
      do _ := on_conns (untrackExposeConn sandboxID h);
      Ret (Acts sandboxID (Proxies port out))
  end.

Definition serveExpose (id portStr : string) (r : Request) (agent : bool) : prog api answer :=
  do port := rd (λ s : api, expose_port cfg id portStr r s.1);
  match port with
  | Err code => Ret (Status code)
  | Ok port =>
      do ok := on_conns (acquireExpose id);
      if negb ok then Ret (Status 429)
      else
        do found := rd (λ s : api, ProxyHTTP (resolveSandboxID cfg id) port s.1);
        do path := rd (λ s : api, registered (resolveSandboxID cfg id) s.1);
        do ans := match proxied ("/v1/sandboxes/" +:+ id +:+ "/expose/" +:+ portStr) r with
                  | Some out => if found && path then exchange (resolveSandboxID cfg id) port out agent else Ret (Status 502)
                  | None => Ret (Status 502)
                  end;
        do _ := on_conns (releaseExpose id);
        Ret ans
  end.

(** ** Forwarded ports *)

Definition at_forward_limit (sandboxID : string) (c : conns) : bool :=
  (0 <? s_maxForwards cfg) && (s_maxForwards cfg <=? Z.of_nat (length (default [] (c_forwards c !! sandboxID)))).

Definition add_forward (sandboxID : string) (guestPort l : Z) (c : conns) : bool * conns :=
  if at_forward_limit sandboxID c then (false, c)
  else (true, with_forwards (<[sandboxID := default [] (c_forwards c !! sandboxID) ++ [l]]> (c_forwards c))
                (with_pfs (<[l := {| pf_guestPort := guestPort; pf_conns := ∅; pf_closed := false |}]> (c_pfs c)) c)).

(** The forward, or none; [bound] is whether the host has a port.  The goroutine that
    accepts is [acceptForward]. *)
Definition ForwardPort (sandboxID : string) (guestPort : Z) (bound : bool) : prog api (option Z) :=
  if negb (port_ok guestPort) then Ret None
  else
    do found := rd (λ s : api, registered sandboxID s.1);
    do path := rd (λ s : api, registered sandboxID s.1);
    if negb (found && path) then Ret None
    else
      do full := rd (λ s : api, at_forward_limit sandboxID s.2);
      if full || negb bound then Ret None
      else
        do l := on_conns opened;
        do ok := on_conns (add_forward sandboxID guestPort l);
        if ok then Ret (Some l) else do _ := on_conns (close l); Ret None.

Definition trackConn (pf h : Z) (c : conns) : bool * conns :=
  match c_pfs c !! pf with
  | Some f =>
      if pf_closed f then (false, c)
      else (true, with_pfs (<[pf := {| pf_guestPort := pf_guestPort f; pf_conns := {[h]} ∪ pf_conns f; pf_closed := false |}]> (c_pfs c)) c)
  | None => (false, c)
  end.

Definition untrackConn (pf h : Z) (c : conns) : unit * conns :=
  (tt, match c_pfs c !! pf with
       | Some f => with_pfs (<[pf := {| pf_guestPort := pf_guestPort f; pf_conns := pf_conns f ∖ {[h]}; pf_closed := pf_closed f |}]> (c_pfs c)) c
       | None => c
       end).

(** The splicing ends by closing both sides; what is deferred closes them again. *)
Definition bridgeForwardConn (sandboxID : string) (pf h : Z) (agent : bool) : prog api unit :=
  do ok := on_conns (trackConn pf h);
  if negb ok then on_conns (close h)
  else
    do t := dial_guest sandboxID agent;
    do _ := match t with
            | Some t => do _ := on_conns (close t); do _ := on_conns (close h); on_conns (close t)
            | None => Ret tt
            end;
    do _ := on_conns (untrackConn pf h);
    on_conns (close h).

(** One turn of the accept loop and the goroutine it starts. *)
Definition acceptForward (sandboxID : string) (pf : Z) (agent : bool) : prog api unit :=
  do h := on_conns (accept pf);
  match h with
  | Some h => bridgeForwardConn sandboxID pf h agent
  | None => Ret tt
  end.

(** [portForward.close]: the listener and the connections to close, unless it was closed
    before. *)
Definition shut (pf : Z) (c : conns) : option (list Z) * conns :=
  match c_pfs c !! pf with
  | Some f =>
      if pf_closed f then (None, c)
      else (Some (range_conns "portForward.close" (pf_conns f)), with_pfs (<[pf := {| pf_guestPort := pf_guestPort f; pf_conns := ∅; pf_closed := true |}]> (c_pfs c)) c)
  | None => (None, c)
  end.

Definition close_forward (pf : Z) : prog conns unit :=
  do hs := op (shut pf);
  match hs with
  | None => Ret tt
  | Some hs => do _ := op (close pf); close_all hs
  end.

Definition take_forwards (sandboxID : string) (c : conns) : list Z * conns :=
  (default [] (c_forwards c !! sandboxID), with_forwards (delete sandboxID (c_forwards c)) c).

Definition close_forwards (pfs : list Z) : prog conns unit := foldr (λ pf p, do _ := close_forward pf; p) (Ret tt) pfs.

Definition CloseForwards (sandboxID : string) : prog conns unit :=
  do pfs := op (take_forwards sandboxID); close_forwards pfs.

(** ** The end of a sandbox *)

Definition UnregisterSandbox (sandboxID : string) : prog api unit :=
  do _ := on_snd (CloseForwards sandboxID);
  do _ := on_snd (CloseExpose sandboxID);
  on_fst (op (λ a, (tt, forget_sandbox sandboxID a))).

(** What clients ask for, and, with the registrations, what runs at the same time. *)
Inductive client_request : prog api unit → Prop :=
| exec_request id agent sent : client_request (do _ := exec_session id agent sent; Ret tt)
| expose_request id port r agent : client_request (do _ := serveExpose id port r agent; Ret tt)
| forward_request id port bound : client_request (do _ := ForwardPort id port bound; Ret tt)
| accept_request id pf agent : client_request (acceptForward id pf agent)
| close_request id : client_request (on_snd (CloseForwards id)).

Inductive request : prog api unit → Prop :=
| register_request id path : request (on_fst (op (λ a, (tt, RegisterSandbox id path a))))
| token_request id token : request (on_fst (op (λ a, (tt, RegisterToken id token a))))
| end_request id : request (UnregisterSandbox id)
| client_is_request p : client_request p → request p.

End conns.

End DaemonConns.
