(* ===== verification/DaemonConnsTheorems.v ===== *)
(** * What the sandbox API has open, in every interleaving

    Theorems on DaemonConns: the limits hold at any time for each requested identifier, and when the handlers
    have returned nothing is open but the ports that are forwarded still. *)

From S2P Require Import Prelude Atomic Ownership Json GoStrings GoNet GoUrl GoHttp Daemon DaemonConns.
Import Json GoStrings GoNet GoUrl GoHttp Daemon DaemonConns.

Module DaemonConnsTheorems.

Section theorems.
Context `{!MapRange}.
Variable cfg : settings.

Lemma elem_of_range_conns site (hs : gset Z) h : h ∈ range_conns site hs ↔ h ∈ hs.
Proof.
  unfold range_conns. rewrite list_elem_of_fmap. split.
  - intros ([h' []] & -> & Hin%elem_of_map_range). by apply lookup_gset_to_gmap_Some in Hin as [? _].
  - intros Hh. exists (h, tt). split; [done|]. apply elem_of_map_range. by apply lookup_gset_to_gmap_Some.
Qed.

(** ** The limits *)

Definition bounded (max : Z) (m : gmap string Z) : Prop := ∀ id n, m !! id = Some n → 0 < n ∧ (0 < max → n ≤ max).

Lemma bounded_default max m id : bounded max m → 0 ≤ default 0 (m !! id).
Proof. intros Hm. destruct (m !! id) as [n|] eqn:E; simpl; [|lia]. destruct (Hm id n E). lia. Qed.

Lemma acquire_bounded max id m : bounded max m → bounded max (acquire max id m).2.
Proof.
  intros Hm. unfold acquire. pose proof (bounded_default max m id Hm).
  destruct (Z.ltb_spec 0 max); [destruct (Z.leb_spec max (default 0 (m !! id))); [done|]|]; simpl;
    intros id' n [[-> <-]|[? ?]]%lookup_insert_Some; (lia || eauto).
Qed.

Lemma release_bounded max id m : bounded max m → bounded max (release id m).
Proof.
  intros Hm. unfold release. destruct (Z.ltb_spec 0 (default 0 (m !! id) - 1)); intros id' n.
  - intros [[-> <-]|[? ?]]%lookup_insert_Some; [|by eauto]. destruct (m !! id') as [k|] eqn:E; simpl in *; [|lia].
    destruct (Hm _ _ E). lia.
  - intros [? ?]%lookup_delete_Some. eauto.
Qed.

Lemma acquire_count max id id0 m :
  default 0 ((acquire max id m).2 !! id0) = default 0 (m !! id0) + (if (acquire max id m).1 then if decide (id = id0) then 1 else 0 else 0).
Proof.
  unfold acquire. destruct (_ && _); simpl; [lia|]. destruct (decide (id = id0)) as [<-|].
  - by rewrite lookup_insert_eq.
  - rewrite lookup_insert_ne by done. lia.
Qed.

Lemma release_count id id0 m :
  (if decide (id = id0) then 1 else 0) ≤ default 0 (m !! id0) →
  default 0 (release id m !! id0) = default 0 (m !! id0) - (if decide (id = id0) then 1 else 0).
Proof.
  unfold release. destruct (decide (id = id0)) as [<-|]; intros Hn.
  - destruct (Z.ltb_spec 0 (default 0 (m !! id) - 1)); [by rewrite lookup_insert_eq|]. rewrite lookup_delete_eq. simpl. lia.
  - destruct (_ <? _); [rewrite lookup_insert_ne by done|rewrite lookup_delete_ne by done]; lia.
Qed.

(** What holds at any time. *)
Record within (c : conns) : Prop := {
  within_streams : bounded (s_maxStreams cfg) (c_openStreams c);
  within_expose : bounded (s_maxExpose cfg) (c_openExpose c);
  within_forwards id ls : c_forwards c !! id = Some ls → 0 < s_maxForwards cfg → Z.of_nat (length ls) ≤ s_maxForwards cfg;
  within_tracked id hs : c_exposeConns c !! id = Some hs → hs ≠ ∅;
}.

Lemma opened_within c : within c → within (opened c).2.
Proof. intros []. by constructor. Qed.
Lemma close_within h c : within c → within (close h c).2.
Proof. intros []. by constructor. Qed.
Lemma accept_within l c : within c → within (accept l c).2.
Proof. intros Hc. unfold accept. case_bool_decide; [by apply opened_within|done]. Qed.
Lemma acquireStream_within id c : within c → within (acquireStream cfg id c).2.
Proof.
  intros []. unfold acquireStream. destruct (acquire _ id _) as [ok m] eqn:E. constructor; [|done..]. simpl.
  replace m with (acquire (s_maxStreams cfg) id (c_openStreams c)).2 by by rewrite E. by apply acquire_bounded.
Qed.
Lemma acquireExpose_within id c : within c → within (acquireExpose cfg id c).2.
Proof.
  intros []. unfold acquireExpose. destruct (acquire _ id _) as [ok m] eqn:E. constructor; [done| |done..]. simpl.
  replace m with (acquire (s_maxExpose cfg) id (c_openExpose c)).2 by by rewrite E. by apply acquire_bounded.
Qed.
Lemma releaseStream_within id c : within c → within (releaseStream id c).2.
Proof. intros []. constructor; [by apply release_bounded|done..]. Qed.
Lemma releaseExpose_within id c : within c → within (releaseExpose id c).2.
Proof. intros []. constructor; [done|by apply release_bounded|done..]. Qed.
Lemma trackExposeConn_within id h c : within c → within (trackExposeConn id h c).2.
Proof. intros []. constructor; [done..|]. simpl. intros id' hs [[-> <-]|[? ?]]%lookup_insert_Some; [set_solver|eauto]. Qed.
Lemma untrackExposeConn_within id h c : within c → within (untrackExposeConn id h c).2.
Proof.
  intros Hc. unfold untrackExposeConn. simpl. destruct (c_exposeConns c !! id) as [hs|] eqn:E; [|done]. destruct Hc.
  constructor; [done..|]. simpl. intros id' hs'. case_bool_decide.
  - intros [? ?]%lookup_delete_Some. eauto.
  - intros [[-> <-]|[? ?]]%lookup_insert_Some; eauto.
Qed.
Lemma take_exposeConns_within id c : within c → within (take_exposeConns id c).2.
Proof. intros []. constructor; [done..|]. simpl. intros id' hs [? ?]%lookup_delete_Some. eauto. Qed.
Lemma add_forward_within id port l c : within c → within (add_forward cfg id port l c).2.
Proof.
  intros Hc. unfold add_forward, at_forward_limit. destruct (_ && _) eqn:E; [done|]. destruct Hc. constructor; [done..| |done]. simpl.
  intros id' ls [[-> <-]|[? ?]]%lookup_insert_Some Hmax; [|by eauto]. rewrite length_app. simpl.
  apply andb_false_iff in E as [E|E]; [apply Z.ltb_ge in E; lia|apply Z.leb_gt in E; lia].
Qed.
Lemma trackConn_within pf h c : within c → within (trackConn pf h c).2.
Proof. intros Hc. unfold trackConn. destruct (c_pfs c !! pf) as [f|]; [destruct (pf_closed f)|]; [done| |done]. by destruct Hc. Qed.
Lemma untrackConn_within pf h c : within c → within (untrackConn pf h c).2.
Proof. intros Hc. unfold untrackConn. simpl. destruct (c_pfs c !! pf); [by destruct Hc|done]. Qed.
Lemma shut_within pf c : within c → within (shut pf c).2.
Proof. intros Hc. unfold shut. destruct (c_pfs c !! pf) as [f|]; [destruct (pf_closed f)|]; [done| |done]. by destruct Hc. Qed.
Lemma take_forwards_within id c : within c → within (take_forwards id c).2.
Proof. intros []. constructor; [done..| |done]. simpl. intros id' ls [? ?]%lookup_delete_Some. eauto. Qed.

#[local] Create HintDb conns.
#[local] Hint Resolve opened_within close_within accept_within acquireStream_within acquireExpose_within releaseStream_within
  releaseExpose_within trackExposeConn_within untrackExposeConn_within take_exposeConns_within add_forward_within
  trackConn_within untrackConn_within shut_within take_forwards_within : conns.

(** ** Slots are given back *)

Definition fits (s : api) : Prop := within s.2.

Lemma honest_conns {A} count t (f : conns → A * conns) (Q : A → Z → Prop) :
  (∀ c, within c → within (f c).2) → (∀ a c, count (a, (f c).2) = count (a, c)) → 0 ≤ t → (∀ x, Q x t) →
  honest count fits t (on_conns f) Q.
Proof.
  intros Hw Hc Ht HQ [a c] Hf _. simpl. pose proof (Hw c Hf). pose proof (Hc a c).
  destruct (f c) as [x c'] eqn:E. simpl in *. split; [done|]. exists t. split_and!; [done|lia|apply HQ].
Qed.

Lemma honest_read {A} count t (f : api → A) (Q : A → Z → Prop) : 0 ≤ t → (∀ x, Q x t) → honest count fits t (rd f) Q.
Proof. intros Ht HQ s Hs _. split; [done|]. exists t. split_and!; [done|simpl; lia|apply HQ]. Qed.

Lemma honest_registry count t (f : registry → unit * registry) (Q : unit → Z → Prop) :
  (∀ a c, count ((f a).2, c) = count (a, c)) → 0 ≤ t → (∀ x, Q x t) → honest count fits t (on_fst (op f)) Q.
Proof.
  intros Hc Ht HQ [a c] Hf _. simpl. pose proof (Hc a c). destruct (f a) as [x a'] eqn:E. simpl in *. split; [done|].
  exists t. split_and!; [done|lia|apply HQ].
Qed.

Section slots.
Variables (slots : conns → gmap string Z) (max : Z) (id0 : string).

Definition taken (s : api) : Z := default 0 (slots s.2 !! id0).
Definition share (id : string) : Z := if decide (id = id0) then 1 else 0.

Lemma share_nonneg id : 0 ≤ share id.
Proof. unfold share. destruct (decide _); lia. Qed.

Lemma honest_acquire t id f (Q : bool → Z → Prop) :
  (∀ c, within c → within (f c).2) → (∀ c, (f c).1 = (acquire max id (slots c)).1 ∧ slots (f c).2 = (acquire max id (slots c)).2) →
  0 ≤ t → Q true (t + share id) → Q false t → honest taken fits t (on_conns f) Q.
Proof.
  intros Hw Hf Ht H1 H0 [a c] Hs _. pose proof (Hw c Hs) as Hs'. destruct (Hf c) as [Ha Hm].
  pose proof (acquire_count max id id0 (slots c)) as Hc. pose proof (share_nonneg id). unfold share in *. simpl.
  destruct (f c) as [ok c'] eqn:E. simpl in *. split; [done|]. unfold taken. simpl. rewrite Hm, Hc, <- Ha.
  destruct ok; eexists; (split_and!; [| |eassumption]); lia.
Qed.

Lemma honest_release t id f (Q : unit → Z → Prop) :
  (∀ c, within c → within (f c).2) → (∀ c, slots (f c).2 = release id (slots c)) →
  share id ≤ t → Q tt (t - share id) → honest taken fits t (on_conns f) Q.
Proof.
  intros Hw Hf Ht HQ [a c] Hs Hle. pose proof (Hw c Hs) as Hs'. pose proof (Hf c) as Hm. pose proof (share_nonneg id).
  unfold taken in *. simpl in *. pose proof (release_count id id0 (slots c)) as Hc. unfold share in *. simpl.
  destruct (f c) as [[] c'] eqn:E. simpl in *. split; [done|]. eexists. split_and!; [| |exact HQ]; [lia|]. rewrite Hm, Hc; lia.
Qed.

End slots.

(** ** Closing, whatever is closed *)

Section closing.
Variables (I : conns → Prop).
Hypotheses (Hclose : ∀ h c, I c → I (close h c).2) (Hshut : ∀ pf c, I c → I (shut pf c).2).

Lemma close_all_keeps hs : keeps I (close_all hs).
Proof. induction hs as [|h hs IH]; [done|]. split; [apply Hclose|done]. Qed.

Lemma close_forwards_keeps pfs : keeps I (close_forwards pfs).
Proof.
  induction pfs as [|pf pfs IH]; [done|]. apply keeps_bind; [|done]. split; [apply Hshut|]. intros [hs|]; [|done].
  split; [apply Hclose|]. intros []. apply close_all_keeps.
Qed.

Lemma CloseForwards_keeps id : (∀ c, I c → I (take_forwards id c).2) → keeps I (CloseForwards id).
Proof. intros Htake. split; [done|]. apply close_forwards_keeps. Qed.

Lemma CloseExpose_keeps id : (∀ c, I c → I (take_exposeConns id c).2) → keeps I (CloseExpose id).
Proof. intros Htake. split; [done|]. apply close_all_keeps. Qed.

End closing.

Lemma honest_snd {A} count t (p : prog conns A) (Q : A → Z → Prop) :
  (∀ n a, keeps (λ c, within c ∧ count (a, c) = n) p) → 0 ≤ t → (∀ x, Q x t) → honest count fits t (on_snd p) Q.
Proof.
  intros Hp Ht HQ. induction p as [x|B f k IH]; simpl; [apply HQ|]. intros [a c] Hs _.
  destruct (Hp (count (a, c)) a) as [Hf _]. destruct (Hf c (conj Hs eq_refl)) as [Hs' Hc]. destruct (f c) as [b c']. simpl in *.
  split; [done|]. exists t. split_and!; [done|lia|]. apply IH. intros n a'. apply (Hp n a').
Qed.

(** No operation but its own changes a kind of slots. *)
Ltac same_slots := intros; unfold taken; simpl; unfold accept, acquireStream, acquireExpose, add_forward, trackConn, untrackConn, shut; repeat case_match; done.
Ltac honest_step := first
  [ apply honest_bind
  | apply honest_read; [lia|intros ?]
  | apply honest_conns; [auto with conns|same_slots|lia|intros ?]
  | apply honest_registry; [done|lia|intros ?]
  | eapply honest_release; [auto with conns|done|lia|] ].
Ltac honest_walk := cbv beta iota; repeat (honest_step; cbv beta iota); simpl; try lia; try done.

Section honest.
Variable id0 : string.

Lemma dial_honest slots t id agent (Q : option Z → Z → Prop) :
  (∀ c, slots (opened c).2 = slots c) → 0 ≤ t → (∀ x, Q x t) → honest (taken slots id0) fits t (dial_guest id agent) Q.
Proof.
  intros Hs Ht HQ. unfold dial_guest. repeat honest_step. destruct (_ && _); [|apply HQ].
  apply honest_bind, honest_conns; [auto with conns|intros; unfold taken; cbn [snd]; by rewrite Hs|done|intros h; apply HQ].
Qed.

Lemma exec_session_streams id agent sent : honest (taken c_openStreams id0) fits 0 (exec_session cfg id agent sent) (λ _ t, t = 0).
Proof.
  unfold exec_session, Exec. apply honest_bind, honest_bind. pose proof (share_nonneg id0 id).
  apply (honest_acquire _ (s_maxStreams cfg) _ _ id); [auto with conns|intros c; unfold acquireStream; by destruct (acquire _ _ _)|done| |done].
  apply honest_bind, dial_honest; [done|lia|]. 
  intros [h|]; [destruct sent|]; honest_walk.
Qed.

Lemma exec_session_expose id agent sent : honest (taken c_openExpose id0) fits 0 (exec_session cfg id agent sent) (λ _ t, t = 0).
Proof.
  unfold exec_session, Exec. apply honest_bind, honest_bind. repeat honest_step. destruct x; [|done].
  apply honest_bind, dial_honest; [done|lia|]. intros [h|]; [destruct sent|]; honest_walk.
Qed.

Section other.
Variable slots : conns → gmap string Z.
Hypothesis (Hopened : ∀ c, slots (opened c).2 = slots c) (Hclose : ∀ h c, slots (close h c).2 = slots c)
  (Hshut : ∀ pf c, slots (shut pf c).2 = slots c) (Hadd : ∀ id port l c, slots (add_forward cfg id port l c).2 = slots c)
  (Htrack : ∀ pf h c, slots (trackConn pf h c).2 = slots c) (Huntrack : ∀ pf h c, slots (untrackConn pf h c).2 = slots c)
  (Htake : ∀ id c, slots (take_forwards id c).2 = slots c) (Htake' : ∀ id c, slots (take_exposeConns id c).2 = slots c).

Lemma same_taken {A} t (f : conns → A * conns) (Q : A → Z → Prop) :
  (∀ c, slots (f c).2 = slots c) → (∀ c, within c → within (f c).2) → 0 ≤ t → (∀ x, Q x t) →
  honest (taken slots id0) fits t (on_conns f) Q.
Proof. intros Hf Hw Ht HQ. apply honest_conns; try done. intros a c. unfold taken. cbn [snd]. by rewrite Hf. Qed.

Lemma ForwardPort_honest id port bound : honest (taken slots id0) fits 0 (ForwardPort cfg id port bound) (λ _ t, t = 0).
Proof.
  unfold ForwardPort. destruct (negb (port_ok port)); [done|]. repeat honest_step. destruct (negb _); [done|].
  repeat honest_step. destruct (_ || _); [done|]. apply honest_bind, same_taken; [done|auto with conns|done|]. intros l.
  apply honest_bind, same_taken; [done|auto with conns|done|]. intros []; [done|].
  apply honest_bind, same_taken; [done|auto with conns|done|]. done.
Qed.

Lemma acceptForward_honest id pf agent : honest (taken slots id0) fits 0 (acceptForward id pf agent) (λ _ t, t = 0).
Proof.
  unfold acceptForward, bridgeForwardConn. apply honest_bind, same_taken; [|auto with conns|done|].
  { intros c. unfold accept. case_bool_decide; [|done]. apply Hopened. }
  intros [h|]; [|done]. apply honest_bind, same_taken; [done|auto with conns|done|]. intros []; cbv beta iota delta [negb].
  - apply honest_bind, dial_honest; [done|done|]. intros t. apply honest_bind.
    assert (honest (taken slots id0) fits 0 (do _ := on_conns (untrackConn pf h); on_conns (close h)) (λ _ t, t = 0)) as Hend.
    { apply honest_bind, same_taken; [done|auto with conns|done|]. intros _. apply same_taken; [done|auto with conns|done|done]. }
    destruct t as [t|]; [|exact Hend]. do 2 (apply honest_bind, same_taken; [done|auto with conns|done|]; intros _).
    apply same_taken; [done|auto with conns|done|]. by intros _.
  - apply same_taken; [done|auto with conns|done|done].
Qed.

Lemma closing_honest id : honest (taken slots id0) fits 0 (on_snd (CloseForwards id)) (λ _ t, t = 0).
Proof.
  apply honest_snd; [|done|done]. intros n a. unfold taken. cbn [snd].
  apply CloseForwards_keeps; intros; (match goal with H : _ ∧ _ |- _ => destruct H as [? <-] end);
    (split; [auto with conns|]); [by rewrite Hclose|by rewrite Hshut|by rewrite Htake].
Qed.

Lemma UnregisterSandbox_honest id : honest (taken slots id0) fits 0 (UnregisterSandbox id) (λ _ t, t = 0).
Proof.
  unfold UnregisterSandbox. apply honest_bind. eapply honest_mono; [|apply closing_honest]. intros [] t ->.
  apply honest_bind, honest_snd; [|done|].
  - intros n a. unfold taken. cbn [snd].
    apply CloseExpose_keeps; intros; (match goal with H : _ ∧ _ |- _ => destruct H as [? <-] end);
      (split; [auto with conns|]); [by rewrite Hclose|by rewrite Htake'].
  - intros []. by apply honest_registry.
Qed.

End other.

Lemma exchange_honest slots t id port out agent (Q : answer → Z → Prop) :
  (∀ c, slots (opened c).2 = slots c) → (∀ h c, slots (close h c).2 = slots c) →
  (∀ h c, slots (trackExposeConn id h c).2 = slots c) → (∀ h c, slots (untrackExposeConn id h c).2 = slots c) →
  0 ≤ t → (∀ x, Q x t) → honest (taken slots id0) fits t (exchange id port out agent) Q.
Proof.
  intros Ho Hc Ht Hu H0 HQ. unfold exchange. apply honest_bind, dial_honest; [done|done|]. intros [h|]; [|apply HQ].
  do 3 (apply honest_bind, same_taken; [done|auto with conns|done|]; intros _). apply HQ.
Qed.

Lemma untrack_slots (slots : conns → gmap string Z) id h c :
  (∀ m c, slots (with_exposeConns m c) = slots c) → slots (untrackExposeConn id h c).2 = slots c.
Proof. intros Hw. unfold untrackExposeConn. simpl. destruct (c_exposeConns c !! id); [apply Hw|done]. Qed.

Lemma serveExpose_expose id portStr r agent :
  honest (taken c_openExpose id0) fits 0 (serveExpose cfg id portStr r agent) (λ _ t, t = 0).
Proof.
  unfold serveExpose. repeat honest_step. destruct x as [port|code]; [|done]. pose proof (share_nonneg id0 id).
  apply honest_bind, (honest_acquire _ (s_maxExpose cfg) _ _ id); [auto with conns|intros c; unfold acquireExpose; by destruct (acquire _ _ _)|done| |done].
  cbv beta iota delta [negb]. repeat honest_step.
  assert (∀ ans : answer, honest (taken c_openExpose id0) fits (0 + share id0 id) (do _ := on_conns (releaseExpose id); Ret ans) (λ _ t, t = 0)) as Hend.
  { intros ans. honest_walk. }
  destruct (proxied _ r) as [out|]; [destruct (_ && _)|]; [|apply Hend..].
  apply exchange_honest; [done|done|done|intros; by apply untrack_slots|lia|apply Hend].
Qed.

Lemma serveExpose_streams id portStr r agent :
  honest (taken c_openStreams id0) fits 0 (serveExpose cfg id portStr r agent) (λ _ t, t = 0).
Proof.
  unfold serveExpose. repeat honest_step. destruct x as [port|code]; [|done]. repeat honest_step. destruct x; [|done].
  cbv beta iota delta [negb]. repeat honest_step.
  assert (∀ ans : answer, honest (taken c_openStreams id0) fits 0 (do _ := on_conns (releaseExpose id); Ret ans) (λ _ t, t = 0)) as Hend.
  { intros ans. honest_walk. }
  destruct (proxied _ r) as [out|]; [destruct (_ && _)|]; [|apply Hend..].
  apply exchange_honest; [done|done|done|intros; by apply untrack_slots|done|apply Hend].
Qed.

Lemma honest_unit {A} count (p : prog api A) :
  honest count fits 0 p (λ _ t, t = 0) → honest count fits 0 (do _ := p; Ret tt) (λ _ t, t = 0).
Proof. intros Hp. apply honest_bind. exact Hp. Qed.

Ltac slots_same := intros; unfold add_forward, trackConn, untrackConn, shut; simpl; repeat case_match; done.

Lemma requests_streams p : request cfg p → honest (taken c_openStreams id0) fits 0 p (λ _ t, t = 0).
Proof.
  intros [| | |p' []].
  - by apply honest_registry.
  - by apply honest_registry.
  - apply UnregisterSandbox_honest; slots_same.
  - apply honest_unit, exec_session_streams.
  - apply honest_unit, serveExpose_streams.
  - apply honest_unit, ForwardPort_honest; slots_same.
  - apply acceptForward_honest; slots_same.
  - apply closing_honest; slots_same.
Qed.

Lemma requests_expose p : request cfg p → honest (taken c_openExpose id0) fits 0 p (λ _ t, t = 0).
Proof.
  intros [| | |p' []].
  - by apply honest_registry.
  - by apply honest_registry.
  - apply UnregisterSandbox_honest; slots_same.
  - apply honest_unit, exec_session_expose.
  - apply honest_unit, serveExpose_expose.
  - apply honest_unit, ForwardPort_honest; slots_same.
  - apply acceptForward_honest; slots_same.
  - apply closing_honest; slots_same.
Qed.

End honest.

(** ** What is opened is closed *)

Definition listed (h : Z) (c : conns) : Prop := ∃ id ls, c_forwards c !! id = Some ls ∧ h ∈ ls.

(** What somebody has to clean up: a socket that is open, the listener of a forward that is
    in no table, or that is being closed, and the entries of connections in a map. *)
Inductive debt :=
| Handle (h : Z) | Forward (h : Z) | Closing (h : Z) | Tracked (id : string) (h : Z) | Bridged (pf h : Z).

Definition leaves (s : api) (x : debt) : Prop :=
  let c := s.2 in
  match x with
  | Handle h => h ∈ c_open c ∧ c_pfs c !! h = None
  | Forward h => h ∈ c_open c ∧ ¬ listed h c ∧ ∃ f, c_pfs c !! h = Some f ∧ pf_closed f = false
  | Closing h => h ∈ c_open c ∧ ∃ f, c_pfs c !! h = Some f ∧ pf_closed f = true
  | Tracked id h => ∃ hs, c_exposeConns c !! id = Some hs ∧ h ∈ hs
  | Bridged pf h => ∃ f, c_pfs c !! pf = Some f ∧ h ∈ pf_conns f
  end.

Definition sockets (h : Z) : list debt := [Handle h; Forward h; Closing h].

Lemma not_open h c x : (h ∉ c_open c.2) → leaves c x → x ∉ sockets h.
Proof. unfold sockets. intros Hh Hx [->|[->|[->|[]%not_elem_of_nil]%elem_of_cons]%elem_of_cons]%elem_of_cons; simpl in Hx; naive_solver. Qed.

Abbreviation pays := (answers leaves fits).

Lemma pays_conns {A} t t' (f : conns → A * conns) (Q : A → list debt → Prop) :
  (∀ c, within c → within (f c).2) →
  (∀ a c x, leaves (a, (f c).2) x → (x ∈ t' (f c).1 ∨ leaves (a, c) x) ∧ (x ∈ t → x ∈ t' (f c).1)) →
  (∀ r, Q r (t' r)) → pays t (on_conns f) Q.
Proof.
  intros Hw Hf HQ [a c] Hs. simpl. pose proof (Hw c Hs) as Hs'. pose proof (Hf a c) as Hx. destruct (f c) as [r c'] eqn:E.
  simpl in *. split; [done|]. exists (t' r). auto.
Qed.

(** An operation after which less is left behind. *)
Lemma pays_less {A} t (f : conns → A * conns) (Q : A → list debt → Prop) :
  (∀ c, within c → within (f c).2) → (∀ a c x, leaves (a, (f c).2) x → leaves (a, c) x) → (∀ r, Q r t) → pays t (on_conns f) Q.
Proof. intros Hw Hf HQ. apply (pays_conns t (λ _, t)); [done| |done]. eauto. Qed.

Lemma pays_opened t (Q : Z → list debt → Prop) : (∀ h, Q h (sockets h ++ t)) → pays t (on_conns opened) Q.
Proof.
  intros HQ. apply (pays_conns t (λ h, sockets h ++ t)); [auto with conns| |done]. unfold opened. simpl. intros a c x Hx.
  split; [|intros ?; by do 3 right]. destruct x as [h|h|h|id h|pf h]; simpl in *; unfold listed in *; simpl in *; set_solver.
Qed.

Lemma pays_close h t0 t (Q : unit → list debt → Prop) :
  (∀ x, x ∈ t0 → x ∈ sockets h ∨ x ∈ t) → Q tt t → pays t0 (on_conns (close h)) Q.
Proof.
  intros Ht HQ. apply (pays_conns _ (λ _, t)); [auto with conns| |by intros []]. intros a c x Hx. split.
  - right. destruct x; simpl in *; unfold listed in *; simpl in *; set_solver.
  - intros [Hs|]%Ht; [|done]. exfalso. revert Hs. apply (not_open h (a, (close h c).2)); [|done]. simpl. set_solver.
Qed.

Lemma close_less h (a : registry) c x : leaves (a, (close h c).2) x → leaves (a, c) x.
Proof. destruct x; simpl; unfold listed; simpl; set_solver. Qed.

Lemma pays_slots {A} t (f : conns → A * conns) (Q : A → list debt → Prop) :
  (∀ c, within c → within (f c).2) →
  (∀ c, c_exposeConns (f c).2 = c_exposeConns c ∧ c_forwards (f c).2 = c_forwards c ∧ c_pfs (f c).2 = c_pfs c ∧ c_open (f c).2 = c_open c) →
  (∀ r, Q r t) → pays t (on_conns f) Q.
Proof.
  intros Hw Hf HQ. apply pays_less; [done| |done]. intros a c x. destruct (Hf c) as (He & Hfw & Hp & Ho).
  destruct x; simpl; unfold listed; rewrite ?He, ?Hfw, ?Hp, ?Ho; done.
Qed.

Lemma pays_dial t id agent (Q : option Z → list debt → Prop) :
  Q None t → (∀ h, Q (Some h) (sockets h ++ t)) → pays t (dial_guest id agent) Q.
Proof.
  intros H0 H1. unfold dial_guest. apply answers_bind, answers_rd. intros path. destruct (path && agent); [|done].
  apply answers_bind, pays_opened. done.
Qed.

Lemma pays_track t id h (Q : unit → list debt → Prop) : Q tt (Tracked id h :: t) → pays t (on_conns (trackExposeConn id h)) Q.
Proof.
  intros HQ. apply (pays_conns t (λ _, Tracked id h :: t)); [auto with conns| |by intros []]. intros a c x Hx.
  split; [|by right]. destruct x as [| | |id' h'|]; simpl in *; [by right..| |by right].
  destruct Hx as (hs & [[<- <-]|[? ?]]%lookup_insert_Some & Hin); [|by eauto]. apply elem_of_union in Hin as [->%elem_of_singleton|Hin].
  - left. constructor.
  - right. destruct (c_exposeConns c !! id) as [hs|] eqn:E; simpl in Hin; [by eauto|set_solver].
Qed.

Lemma untrack_lookup id h (c : conns) id' hs :
  c_exposeConns (untrackExposeConn id h c).2 !! id' = Some hs →
  ∃ hs', c_exposeConns c !! id' = Some hs' ∧ ∀ h', h' ∈ hs → h' ∈ hs' ∧ (id' = id → h' ≠ h).
Proof.
  unfold untrackExposeConn. simpl. destruct (c_exposeConns c !! id) as [hs0|] eqn:E; simpl.
  - case_bool_decide.
    + intros [? ?]%lookup_delete_Some. exists hs. naive_solver.
    + intros [[<- <-]|[? ?]]%lookup_insert_Some; [exists hs0; set_solver|]. exists hs. naive_solver.
  - intros Hl. exists hs. split; [done|]. intros h' ?. split; [done|]. intros ->. congruence.
Qed.

Lemma untrack_else id h (c : conns) : let c' := (untrackExposeConn id h c).2 in
  c_forwards c' = c_forwards c ∧ c_pfs c' = c_pfs c ∧ c_open c' = c_open c.
Proof. unfold untrackExposeConn. simpl. by destruct (c_exposeConns c !! id). Qed.

Lemma pays_untrack t id h (Q : unit → list debt → Prop) : Q tt t → pays (Tracked id h :: t) (on_conns (untrackExposeConn id h)) Q.
Proof.
  intros HQ. apply (pays_conns _ (λ _, t)); [auto with conns| |by intros []]. intros a c x Hx.
  destruct (untrack_else id h c) as (Hfw & Hp & Ho). split.
  - right. destruct x as [| | |id' h'|]; unfold leaves, listed in *; cbn [snd] in *; rewrite ?Hfw, ?Hp, ?Ho in Hx; try done.
    destruct Hx as (hs & (hs' & ? & Hsub)%untrack_lookup & Hin). naive_solver.
  - intros [->|]%elem_of_cons; [|done]. unfold leaves in Hx. cbn [snd] in Hx. destruct Hx as (hs & (hs' & ? & Hsub)%untrack_lookup & Hin). naive_solver.
Qed.

Lemma pays_nil {A} (p : prog api A) : pays [] p (λ _ t, t = []) → pays [] (do _ := p; Ret tt) (λ _ t, t = []).
Proof. intros Hp. apply answers_bind. exact Hp. Qed.

Lemma acquireStream_else id c : let c' := (acquireStream cfg id c).2 in
  c_exposeConns c' = c_exposeConns c ∧ c_forwards c' = c_forwards c ∧ c_pfs c' = c_pfs c ∧ c_open c' = c_open c.
Proof. unfold acquireStream. by destruct (acquire _ _ _). Qed.

Lemma acquireExpose_else id c : let c' := (acquireExpose cfg id c).2 in
  c_exposeConns c' = c_exposeConns c ∧ c_forwards c' = c_forwards c ∧ c_pfs c' = c_pfs c ∧ c_open c' = c_open c.
Proof. unfold acquireExpose. by destruct (acquire _ _ _). Qed.

Lemma exec_session_pays id agent sent : pays [] (exec_session cfg id agent sent) (λ _ t, t = []).
Proof.
  unfold exec_session, Exec. do 2 apply answers_bind. apply pays_slots; [auto with conns|apply acquireStream_else|].
  intros []; [|done]. apply answers_bind, pays_dial; [|intros h; destruct sent].
  - by apply answers_bind, pays_slots; [auto with conns|done|].
  - apply answers_bind, pays_slots; [auto with conns|done|]. intros _.
    apply answers_bind, (pays_close h _ []); [set_solver|done].
  - apply answers_bind, (pays_close h _ []); [set_solver|]. by apply answers_bind, pays_slots; [auto with conns|done|].
Qed.

Lemma exchange_pays id port out agent (Q : answer → list debt → Prop) : (∀ ans, Q ans []) → pays [] (exchange id port out agent) Q.
Proof.
  intros HQ. unfold exchange. apply answers_bind, pays_dial; [apply HQ|]. intros h. apply answers_bind.
  apply pays_track, answers_bind, (pays_close h _ [Tracked id h]); [set_solver|]. apply answers_bind, pays_untrack, HQ.
Qed.

Lemma serveExpose_pays id portStr r agent : pays [] (serveExpose cfg id portStr r agent) (λ _ t, t = []).
Proof.
  unfold serveExpose. apply answers_bind, answers_rd. intros [port|code]; [|done].
  apply answers_bind, pays_slots; [auto with conns|apply acquireExpose_else|]. intros []; [|done].
  do 2 (apply answers_bind, answers_rd; intros ?). apply answers_bind.
  assert (∀ ans : answer, pays [] (do _ := on_conns (releaseExpose id); Ret ans) (λ _ t, t = [])) as Hend.
  { intros ans. by apply answers_bind, pays_slots; [auto with conns|done|]. }
  destruct (proxied _ r) as [out|]; [destruct (_ && _)|]; [by apply exchange_pays|apply Hend..].
Qed.

Lemma pays_add id port l (Q : bool → list debt → Prop) :
  Q true [] → Q false (sockets l) → pays (sockets l) (on_conns (add_forward cfg id port l)) Q.
Proof.
  intros H1 H0. apply (pays_conns _ (λ ok, if ok : bool then [] else sockets l)); [auto with conns| |by intros []].
  intros a c x. unfold add_forward. destruct (at_forward_limit cfg id c); simpl; [by auto|]. intros Hx.
  assert (∀ h, listed h c → listed h (with_forwards (<[id := default [] (c_forwards c !! id) ++ [l]]> (c_forwards c)) c)) as Hmono.
  { intros h (id' & ls & Hl & Hin). destruct (decide (id = id')) as [<-|].
    - exists id, (ls ++ [l]). simpl. rewrite lookup_insert_eq, Hl. set_solver.
    - exists id', ls. simpl. by rewrite lookup_insert_ne. }
  assert (listed l (with_forwards (<[id := default [] (c_forwards c !! id) ++ [l]]> (c_forwards c)) c)) as Hl.
  { exists id, (default [] (c_forwards c !! id) ++ [l]). simpl. rewrite lookup_insert_eq. set_solver. }
  unfold listed in Hmono, Hl. destruct x as [h|h|h|id' h|pf h]; simpl in *; unfold listed in *; simpl in *.
  - destruct Hx as [? [? ?]%lookup_insert_None]. set_solver.
  - destruct Hx as (? & Hn & f & [[-> <-]|[? ?]]%lookup_insert_Some & ?); [done|]. split; [right; naive_solver|set_solver].
  - destruct Hx as (? & f & [[-> <-]|[? ?]]%lookup_insert_Some & ?); [done|]. split; [right; naive_solver|set_solver].
  - set_solver.
  - destruct Hx as (f & [[-> <-]|[? ?]]%lookup_insert_Some & ?); [set_solver|]. split; [right; naive_solver|set_solver].
Qed.

Lemma ForwardPort_pays id port bound : pays [] (ForwardPort cfg id port bound) (λ _ t, t = []).
Proof.
  unfold ForwardPort. destruct (negb (port_ok port)); [done|]. do 2 (apply answers_bind, answers_rd; intros ?).
  destruct (negb _); [done|]. apply answers_bind, answers_rd. intros full. destruct (_ || _); [done|].
  apply answers_bind, pays_opened. intros l. rewrite app_nil_r. apply answers_bind, pays_add; [done|].
  apply answers_bind, (pays_close l _ []); [auto|done].
Qed.

Lemma pays_bridge pf h t (Q : bool → list debt → Prop) :
  Q true (Bridged pf h :: t) → Q false t → pays t (on_conns (trackConn pf h)) Q.
Proof.
  intros H1 H0. apply (pays_conns _ (λ ok, if ok : bool then Bridged pf h :: t else t)); [auto with conns| |by intros []].
  intros a c x. unfold trackConn. destruct (c_pfs c !! pf) as [f|] eqn:E; [destruct (pf_closed f) eqn:Ec|]; simpl; [by auto| |by auto].
  intros Hx. split; [|by right]. destruct x as [h'|h'|h'|id' h'|pf' h']; simpl in *.
  - destruct Hx as [? [? ?]%lookup_insert_None]. auto.
  - destruct Hx as (? & Hn & f' & [[-> <-]|[? ?]]%lookup_insert_Some & ?); naive_solver.
  - destruct Hx as (? & f' & [[-> <-]|[? ?]]%lookup_insert_Some & ?); naive_solver.
  - auto.
  - destruct Hx as (f' & [[-> <-]|[? ?]]%lookup_insert_Some & Hin); [|by eauto]. simpl in Hin. set_solver.
Qed.

Lemma pays_unbridge pf h t (Q : unit → list debt → Prop) : Q tt t → pays (Bridged pf h :: t) (on_conns (untrackConn pf h)) Q.
Proof.
  intros HQ. apply (pays_conns _ (λ _, t)); [auto with conns| |by intros []]. intros a c x. unfold untrackConn. simpl.
  destruct (c_pfs c !! pf) as [f|] eqn:E; intros Hx; (split; [right|intros [->|]%elem_of_cons; [|done]]).
  - destruct x as [h'|h'|h'|id' h'|pf' h']; simpl in *.
    + destruct Hx as [? [? ?]%lookup_insert_None]. auto.
    + destruct Hx as (? & Hn & f' & [[-> <-]|[? ?]]%lookup_insert_Some & ?); naive_solver.
    + destruct Hx as (? & f' & [[-> <-]|[? ?]]%lookup_insert_Some & ?); naive_solver.
    + auto.
    + destruct Hx as (f' & [[-> <-]|[? ?]]%lookup_insert_Some & Hin); [|by eauto]. exists f. simpl in Hin. set_solver.
  - destruct Hx as (f' & Hl & Hin). simpl in Hl. rewrite lookup_insert_eq in Hl. simplify_eq. simpl in Hin. set_solver.
  - done.
  - simpl in Hx. rewrite E in Hx. naive_solver.
Qed.

Lemma acceptForward_pays id pf agent : pays [] (acceptForward id pf agent) (λ _ t, t = []).
Proof.
  unfold acceptForward, bridgeForwardConn. apply answers_bind.
  apply (pays_conns _ (λ h, match h with Some h => sockets h | None => [] end)); [auto with conns| |].
  { intros a c x. unfold accept. case_bool_decide; simpl; [|by auto]. intros Hx. split; [|set_solver].
    destruct x; simpl in *; unfold listed in *; simpl in *; set_solver. }
  intros [h|]; [|done]. apply answers_bind, pays_bridge; cbv beta iota delta [negb]; [|apply (pays_close h _ []); [auto|done]].
  assert (pays (Bridged pf h :: sockets h) (do _ := on_conns (untrackConn pf h); on_conns (close h)) (λ _ t, t = [])) as Hend.
  { apply answers_bind, pays_unbridge, (pays_close h _ []); [auto|done]. }
  apply answers_bind, pays_dial; [exact Hend|]. intros t. apply answers_bind.
  apply answers_bind, (pays_close t _ (Bridged pf h :: sockets h)); [set_solver|].
  apply answers_bind, pays_less; [auto with conns|intros; by eapply close_less|]. intros _.
  apply pays_less; [auto with conns|intros; by eapply close_less|]. intros _. exact Hend.
Qed.

(** What a shutdown does, on the connections alone. *)
Abbreviation pays_conn := (answers (λ c, leaves (no_registrations, c)) within).

Lemma pays_snd {A} t (p : prog conns A) Q : pays_conn t p Q → pays t (on_snd p) Q.
Proof.
  revert t. induction p as [x|B f k IH]; intros t; simpl; [done|]. intros Hp [a c] Hs. destruct (Hp c Hs) as (Hs' & t' & Hx & Hk).
  destruct (f c) as [b c']. simpl in *. split; [done|]. exists t'. split; [exact Hx|]. by apply IH.
Qed.

Lemma close_all_pays t hs : pays_conn t (close_all hs) (λ _ t', t' = t).
Proof.
  induction hs as [|h hs IH]; [done|]. intros c Hc. split; [by apply close_within|]. exists t. split; [|exact IH].
  intros x Hx. split; [|done]. right. by eapply close_less.
Qed.

Lemma close_forward_pays pf t : pays_conn (Forward pf :: t) (close_forward pf) (λ _ t', t' = t).
Proof.
  unfold close_forward. apply answers_bind.
  apply (answers_op _ _ _ (λ hs, match hs with Some _ => Closing pf :: t | None => t end)). intros c Hc.
  split; [by apply shut_within|]. split.
  - unfold shut. destruct (c_pfs c !! pf) as [f|] eqn:E; [destruct (pf_closed f) eqn:Ec|]; simpl; intros x Hx.
    + split; [by right|]. intros [->|]%elem_of_cons; [|done]. destruct Hx as (_ & _ & f' & Hl & ?). simpl in Hl. congruence.
    + split; [|intros [->|]%elem_of_cons; [|by right];
        destruct Hx as (_ & _ & f' & Hl & ?); simpl in Hl; rewrite lookup_insert_eq in Hl; by simplify_eq].
      destruct x as [h'|h'|h'|id' h'|pf' h']; simpl in *.
      * destruct Hx as [? [? ?]%lookup_insert_None]. auto.
      * destruct Hx as (? & Hn & f' & [[-> <-]|[? ?]]%lookup_insert_Some & ?); naive_solver.
      * destruct Hx as (? & f' & [[-> <-]|[? ?]]%lookup_insert_Some & ?); [left; constructor|naive_solver].
      * auto.
      * destruct Hx as (f' & [[-> <-]|[? ?]]%lookup_insert_Some & ?); [set_solver|naive_solver].
    + split; [by right|]. intros [->|]%elem_of_cons; [|done]. destruct Hx as (_ & _ & f' & Hl & ?). simpl in Hl. congruence.
  - destruct (shut pf c).1 as [hs|]; [|done]. apply answers_bind, (answers_op _ _ _ (λ _, t)). intros c' Hc'.
    split; [by apply close_within|]. split; [|apply close_all_pays]. intros x Hx. split; [right; by eapply close_less|].
    intros [->|]%elem_of_cons; [|done]. simpl in Hx. set_solver.
Qed.

Lemma close_forwards_pays pfs : pays_conn (Forward <$> pfs) (close_forwards pfs) (λ _ t, t = []).
Proof.
  induction pfs as [|pf pfs IH]; [done|]. apply answers_bind. eapply answers_mono; [|apply close_forward_pays]. by intros [] t ->.
Qed.

Lemma CloseForwards_pays id : pays_conn [] (CloseForwards id) (λ _ t, t = []).
Proof.
  unfold CloseForwards. apply answers_bind, (answers_op _ _ _ (λ pfs : list Z, Forward <$> pfs)). intros c Hc.
  split; [by apply take_forwards_within|]. split; [|apply close_forwards_pays]. intros x Hx. split; [|set_solver].
  destruct x as [h'|h'|h'|id' h'|pf' h']; simpl in *; [by right| |by right..]. destruct Hx as (Ho & Hn & Hf).
  destruct (decide (h' ∈ default [] (c_forwards c !! id))) as [Hin|Hni]; [left; by apply list_elem_of_fmap_2|].
  right. split_and!; [done| |done]. intros (id' & ls & Hl & Hin). apply Hn. exists id', ls. split; [|done]. simpl.
  rewrite lookup_delete_ne; [done|]. intros <-. by rewrite Hl in Hni.
Qed.

Lemma CloseExpose_pays id : pays_conn [] (CloseExpose id) (λ _ t, t = []).
Proof.
  unfold CloseExpose. apply answers_bind, (answers_op _ _ _ (λ _, [])). intros c Hc.
  split; [by apply take_exposeConns_within|]. split; [|apply close_all_pays]. intros x Hx. split; [right|done].
  destruct x; simpl in *; [done..| |done]. destruct Hx as (hs & [? ?]%lookup_delete_Some & ?). eauto.
Qed.

Lemma UnregisterSandbox_pays id : pays [] (UnregisterSandbox id) (λ _ t, t = []).
Proof.
  unfold UnregisterSandbox. apply answers_bind. eapply answers_mono; [|apply pays_snd, CloseForwards_pays]. intros [] t ->.
  apply answers_bind. eapply answers_mono; [|apply pays_snd, CloseExpose_pays]. intros [] t ->.
  intros [a c] Hs. split; [done|]. exists []. split; [|done]. intros x Hx. split; [by right|done].
Qed.

Lemma requests_pay p : request cfg p → pays [] p (λ _ t, t = []).
Proof.
  intros [| | |p' []].
  - intros [a c] Hs. split; [done|]. exists []. split; [|done]. intros x Hx. split; [by right|done].
  - intros [a c] Hs. split; [done|]. exists []. split; [|done]. intros x Hx. split; [by right|done].
  - apply UnregisterSandbox_pays.
  - apply pays_nil, exec_session_pays.
  - apply pays_nil, serveExpose_pays.
  - apply pays_nil, ForwardPort_pays.
  - apply acceptForward_pays.
  - apply pays_snd, CloseForwards_pays.
Qed.

(** ** In every interleaving *)

Definition start : api := (no_registrations, no_conns).

Lemma start_fits : fits start.
Proof. constructor; intros id ? [=]. Qed.

Lemma start_covered : covered leaves fits (A := unit) (start, []).
Proof.
  split; [apply start_fits|]. exists []. split; [constructor|]. intros x Hx.
  destruct x; simpl in Hx; set_solver || (destruct Hx as (? & [=] & _)).
Qed.

Lemma slots_returned slots s ps :
  (∀ id, taken slots id start = 0) → (∀ id p, request cfg p → honest (taken slots id) fits 0 p (λ _ t, t = 0)) →
  reaches (request cfg) (start, []) (s, ps) → Forall (λ p, ∃ a, p = Ret a) ps → ∀ id, default 0 (slots s.2 !! id) = 0.
Proof.
  intros H0 Hp Hr Hf id.
  apply (accounted_finished (taken slots id) fits (s, ps)); [|done].
  apply (reaches_accounted _ _ (request cfg) (start, [])); [by apply Hp|done|]. split; [apply start_fits|]. exists [].
  split; [constructor|]. symmetry. apply H0.
Qed.

Lemma listed_stable h c : ¬ ¬ listed h c → listed h c.
Proof.
  intros Hn. destruct (decide (map_Exists (λ _ ls, h ∈ ls) (c_forwards c))) as [(id & ls & ? & ?)|He]; [by exists id, ls|].
  destruct Hn. intros (id & ls & ? & ?). apply He. by exists id, ls.
Qed.

Lemma bounded_empty max m : bounded max m → (∀ id, default 0 (m !! id) = 0) → m = ∅.
Proof.
  intros Hb H0. apply map_eq. intros id. rewrite lookup_empty. specialize (H0 id). destruct (m !! id) as [n|] eqn:E; [|done].
  destruct (Hb id n E). simpl in H0. lia.
Qed.

(** C8: in every interleaving of executions, requests to the guest proxy, forwards of
    ports, connections to them, registrations and terminations of sandboxes, no identifier
    that was asked for has more streams, proxied requests or forwards than the limits of one
    (the identifier is the sandbox, but for the proxied requests of a husk pod, where all
    identifiers mean its one sandbox: see [cap_by_requested_id]); and when all of them have
    returned, no slot is taken, no connection is tracked, and no socket or tunnel is open
    but the listeners of the ports that are in the table of forwards. *)
Theorem nothing_left_open s ps :
  reaches (request cfg) (start, []) (s, ps) →
  let c := s.2 in
  (∀ id n, c_openStreams c !! id = Some n → 0 < s_maxStreams cfg → n ≤ s_maxStreams cfg) ∧
  (∀ id n, c_openExpose c !! id = Some n → 0 < s_maxExpose cfg → n ≤ s_maxExpose cfg) ∧
  (∀ id ls, c_forwards c !! id = Some ls → 0 < s_maxForwards cfg → Z.of_nat (length ls) ≤ s_maxForwards cfg) ∧
  (Forall (λ p, ∃ a, p = Ret a) ps →
   c_openStreams c = ∅ ∧ c_openExpose c = ∅ ∧ c_exposeConns c = ∅ ∧
   ∀ h, h ∈ c_open c → ∃ id ls, c_forwards c !! id = Some ls ∧ h ∈ ls).
Proof.
  intros Hr. pose proof (reaches_covered leaves fits _ _ _ requests_pay Hr start_covered) as Hcov. simpl.
  assert (within s.2) as Hw by exact (proj1 Hcov). destruct Hw as [Hs He Hfw Ht]. split_and!.
  - intros id n Hn. apply (Hs id n Hn).
  - intros id n Hn. apply (He id n Hn).
  - exact Hfw.
  - intros Hf. assert (∀ x, ¬ leaves s x) as Hno by (intros x; by apply (covered_finished leaves fits (s, ps))). split_and!.
    + apply (bounded_empty _ _ Hs), (slots_returned c_openStreams s ps); [done|apply requests_streams|done|done].
    + apply (bounded_empty _ _ He), (slots_returned c_openExpose s ps); [done|apply requests_expose|done|done].
    + apply map_eq. intros id. rewrite lookup_empty. destruct (c_exposeConns s.2 !! id) as [hs|] eqn:E; [|done]. exfalso.
      destruct (set_choose_L hs (Ht id hs E)) as [h Hh]. apply (Hno (Tracked id h)). by exists hs.
    + intros h Hh. destruct (c_pfs s.2 !! h) as [f|] eqn:E; [|by destruct (Hno (Handle h))].
      destruct (pf_closed f) eqn:Ec; [destruct (Hno (Closing h)); split; eauto|].
      apply (listed_stable h s.2). intros Hn. apply (Hno (Forward h)). split_and!; eauto.
Qed.

(** ** The program alone *)

Lemma exchange_run id port out a c : registered id a = true → ∃ c',
  run (exchange id port out true) (a, c) = (Acts id (Proxies port out), (a, c')) ∧ c_openExpose c' = c_openExpose c.
Proof.
  intros Hr. simpl. rewrite Hr. simpl. eexists. split; [reflexivity|]. unfold untrackExposeConn. simpl. rewrite lookup_insert_eq.
  by case_bool_decide.
Qed.

Lemma release_acquire max id m : bounded max m → (acquire max id m).1 = true → release id (acquire max id m).2 = m.
Proof.
  intros Hb. pose proof (bounded_default max m id Hb). unfold acquire, release. destruct (_ && _); [done|]. simpl. intros _.
  rewrite lookup_insert_eq. simpl. replace (default 0 (m !! id) + 1 - 1) with (default 0 (m !! id)) by lia.
  destruct (m !! id) as [n|] eqn:E; simpl in *.
  - destruct (Hb id n E) as [Hn _]. apply Z.ltb_lt in Hn as ->. by rewrite insert_insert_eq, insert_id.
  - by rewrite delete_insert_id.
Qed.

(** Without others, the program of the guest proxy answers as the handler of Daemon does,
    and leaves the registrations and the slots as they were. *)
Theorem serveExpose_alone id portStr r a c : within c → ∃ c',
  run (serveExpose cfg id portStr r true) (a, c) = (handleExpose cfg (acquireExpose cfg id c).1 id portStr r a, (a, c')) ∧
  c_openExpose c' = c_openExpose c.
Proof.
  intros Hw. unfold serveExpose, handleExpose, proxy_guest. rewrite run_bind. cbn [run rd op fst].
  destruct (expose_port cfg id portStr r a) as [port|code] eqn:Ep; [|by eexists].
  assert (port_ok port = true) as Hp.
  { unfold expose_port in Ep. repeat case_match; by simplify_eq. }
  pose proof (release_acquire (s_maxExpose cfg) id (c_openExpose c) (within_expose _ Hw)) as Hra.
  rewrite run_bind. unfold on_conns, acquireExpose. cbn [run on_snd op]. destruct (acquire _ id _) as [[] m] eqn:E; cbn [fst snd] in *.
  2: { exists (with_openExpose m c). split; [done|]. unfold acquire in E. destruct (_ && _); by simplify_eq. }
  cbn [negb]. rewrite !run_bind. cbn [run rd op fst]. unfold ProxyHTTP. rewrite Hp. cbn [andb].
  rewrite run_bind. cbn [run rd op fst]. rewrite run_bind. destruct (registered _ a) eqn:Er; cbn [andb negb].
  - destruct (proxied _ r) as [out|].
    + destruct (exchange_run (resolveSandboxID cfg id) port out a (with_openExpose m c) Er) as (c' & -> & Hc').
      cbn. eexists. split; [done|]. simpl. rewrite Hc'. by apply Hra.
    + cbn. eexists. split; [done|]. by apply Hra.
  - destruct (proxied _ r) as [out|]; cbn; (eexists; split; [done|]; by apply Hra).
Qed.

End theorems.

(** ** Examples *)

Definition ex_register : prog api unit := on_fst (op (λ a, (tt, RegisterSandbox "sb" "/run/sb.sock" a))).

(** A port is forwarded, a connection to it is bridged, and a command runs meanwhile. *)
Definition ex_schedule : list (prog api unit + nat) :=
  [inl ex_register; inr 0%nat; inl (do _ := ForwardPort NewSandboxAPI "sb" 8080 true; Ret tt)] ++ replicate 5 (inr 0%nat) ++
  [inl (acceptForward "sb" 0 true); inl (do _ := exec_session NewSandboxAPI "sb" true true; Ret tt)] ++
  concat (replicate 9 [inr 0%nat; inr 1%nat]).

Definition ex_after : api * list (prog api unit) := schedule ex_schedule (start, []).

Lemma nothing_left_open_witness :
  ex_after.2 = [Ret tt; Ret tt; Ret tt; Ret tt] ∧ c_forwards ex_after.1.2 !! "sb" = Some [0] ∧
  c_openStreams ex_after.1.2 = ∅ ∧ ∃ id ls, c_forwards ex_after.1.2 !! id = Some ls ∧ 0 ∈ ls.
Proof.
  assert (ex_after.2 = [Ret tt; Ret tt; Ret tt; Ret tt]) as Hf by (vm_compute; reflexivity).
  assert (reaches (request NewSandboxAPI) (start, []) (ex_after.1, ex_after.2)) as Hr.
  { rewrite <- (surjective_pairing ex_after). apply schedule_reaches. repeat constructor. }
  pose proof (nothing_left_open NewSandboxAPI ex_after.1 ex_after.2 Hr) as (_ & _ & _ & H).
  rewrite Hf in H. destruct H as (Hs & _ & _ & Ho); [repeat constructor; by eexists|].
  split_and!; [done|vm_compute; reflexivity|done|]. apply Ho. vm_compute. reflexivity.
Defined.

(** The forward that [UnregisterSandbox] does not see: it is added to the table after the
    shutdown has emptied it, and its listener stays open for a sandbox that is gone. *)
Example forward_outlives_sandbox :
  let c := schedule ([inl ex_register; inr 0%nat; inl (do _ := ForwardPort NewSandboxAPI "sb" 8080 true; Ret tt)] ++
                     replicate 4 (inr 0%nat) ++ [inl (UnregisterSandbox "sb")] ++ replicate 3 (inr 0%nat) ++ [inr 1%nat]) (start, []) in
  c.2 = [Ret tt; Ret tt; Ret tt] ∧ registered "sb" c.1.1 = false ∧ c_forwards c.1.2 !! "sb" = Some [0] ∧ c_open c.1.2 = {[0]}.
Proof. vm_compute. split_and!; reflexivity. Qed.

(** The cap counts requests by the identifier in the path.  Inside a husk pod all of them
    mean the one sandbox. *)
Example cap_by_requested_id :
  let cfg := SetSingleSandbox "husk" NewSandboxAPI in
  let full := with_openExpose {["sb" := defaultMaxExpose]} no_conns in
  (acquireExpose cfg "sb" full).1 = false ∧ (acquireExpose cfg "sb2" full).1 = true ∧
  resolveSandboxID cfg "sb" = resolveSandboxID cfg "sb2".
Proof. vm_compute. split_and!; reflexivity. Qed.

End DaemonConnsTheorems.
