(* ===== verification/DaemonServer.v ===== *)
(** * internal/daemon: the fork service of forkd

    server.go, validate.go and the requests of grpc_service.go that start and end sandboxes:
    a fork runs on the engine of Engine, is introduced to its guest agent (a new generation
    and entropy, the network identity, then environment and secrets), and is registered with
    the sandbox API of Daemon; a fork whose guest does not answer as it must is reaped.

    The state is the engine's, the sandbox API's, and [calls]: the counter of generations and
    what the agents have acknowledged, by the socket they were reached at, the last first.
    What the machine and the agents answer is an argument, [guest]; [generation] counts
    without wrapping, what is sent is the count modulo 2^64.  Left out: tracing, gauges, gRPC
    codes, and the stash of encryption keys. *)

From Stdlib Require Import Ascii.
From S2P Require Import Prelude Json GoStrings GoNet GoUrl GoHttp Atomic Netconf Allowlist Nft Firewall EgressProxy Engine Daemon DaemonConns.
Import Json GoStrings GoNet Netconf Engine Daemon DaemonConns.

Module DaemonServer.

(** ** Requests *)

(** [validateSandboxID] and [validateVolumeName] match the pattern of the engine. *)
Definition validateSandboxID (s : string) : bool := safeSandboxIDComponent s.
Definition validateVolumeName (s : string) : bool := safeSandboxIDComponent s.
Definition validateIDs (ids : list string) : bool := forallb validateSandboxID ids.

Record NetworkConfig := {
  nc_EgressPolicy : string;
  nc_AllowList : list string;
  nc_BlockNetwork : bool;
  nc_AllowCidrs : list string;
  nc_Inbound : string;
  nc_InboundCidrs : list string;
}.

Definition networkOpts (c : option NetworkConfig) : option NetworkOpts :=
  c ← c;
  if bool_decide (nc_EgressPolicy c = "") && bool_decide (nc_AllowList c = []) && negb (nc_BlockNetwork c) &&
     bool_decide (nc_AllowCidrs c = []) && bool_decide (nc_Inbound c = "") && bool_decide (nc_InboundCidrs c = []) then None
  else Some {|
    no_EgressPolicy := nc_EgressPolicy c; no_AllowList := nc_AllowList c; no_AllowCIDRs := nc_AllowCidrs c;
    no_BlockNetwork := nc_BlockNetwork c; no_Inbound := nc_Inbound c; no_InboundCIDRs := nc_InboundCidrs c |}.

Record VolumeMount := { vm_Name : string; vm_Size : string; vm_MountPath : string; vm_ReadOnly : bool; vm_ForkPolicy : string }.
Record Spec := { sp_Name : string; sp_SizeMB : Z; sp_MountPath : string; sp_ReadOnly : bool; sp_Policy : string }.

Definition DefaultSizeMB : Z := 1024.
Definition bytesPerMB : Z := 1024 * 1024.

Inductive server_error := BadID | BadVolumeName | BadVolumeSize | EngineError (err : fork_error) | Undelivered.

Record ForkRequest := {
  fr_SnapshotId : string;
  fr_SandboxId : string;
  fr_Env : list (string * string);
  fr_Secrets : list (string * string);
  fr_Network : option NetworkConfig;
  fr_Volumes : list VolumeMount;
  fr_ApiToken : string;
  fr_VitalsLabels : option VitalsLabels;
}.

(** [envMap] and [secretMap]. *)
Definition envMap (vars : list (string * string)) : gmap string string := foldl (λ m kv, <[kv.1 := kv.2]> m) ∅ vars.

Definition vitalsLabels (l : option VitalsLabels) : VitalsLabels :=
  default {| vl_Claim := ""; vl_Pool := ""; vl_Workspace := ""; vl_Namespace := "" |} l.

Definition withSelfServiceEnv (env : gmap string string) (sandboxID : string) : gmap string string :=
  let env := if bool_decide (is_Some (env !! "MITOS_SOCKET")) then env else <["MITOS_SOCKET" := "/run/mitos.sock"]> env in
  if bool_decide (is_Some (env !! "MITOS_SANDBOX_ID")) then env else <["MITOS_SANDBOX_ID" := sandboxID]> env.

(** ** Guests *)

Record NotifyForkedNetwork := {
  nf_GuestIP : string;
  nf_GatewayIP : string;
  nf_PrefixLen : Z;
  nf_GuestMAC : string;
  nf_ResolverIP : string;
  nf_ProxyEndpoint : string;
  nf_ResetUpstreams : bool;
}.

(** What the engine hands over with a fork; a sandbox without options has no network. *)
Definition guestNet (cfg : Engine.config) (live : bool) (sb : Sandbox) : option NotifyForkedNetwork :=
  _ ← sb_netOpts sb;
  Some {|
    nf_GuestIP := IP_String (id_GuestIP (sb_netID sb));
    nf_GatewayIP := IP_String (id_HostIP (sb_netID sb));
    nf_PrefixLen := 30;
    nf_GuestMAC := id_GuestMAC (sb_netID sb);
    nf_ResolverIP := if dnsEgressEnabled cfg then match c_resolverIP cfg with Some ip => IP_String ip | None => "" end else "";
    nf_ProxyEndpoint := if egressProxyEnabled cfg then JoinHostPort (IP_String (c_proxySentinel cfg)) (fmt_int (c_proxyPort cfg)) else "";
    nf_ResetUpstreams := live |}.

(** The host path of the socket that leads to the agent of a sandbox: [vsock.sock] in the
    directory the virtual machine runs in.  The directories are clean. *)
Definition VsockRelPath : string := "vsock.sock".

Definition jailerChrootDir (baseDir vmID : string) : string := baseDir +:+ "/firecracker/" +:+ vmID +:+ "/root".

Record dirs := { d_dataDir : string; d_chrootBaseDir : string }.

Definition VsockHostPath (cfg : Engine.config) (d : dirs) (sandboxID : string) : string :=
  (if c_jailer cfg then jailerChrootDir (d_chrootBaseDir d) sandboxID else d_dataDir d +:+ "/sandboxes/" +:+ sandboxID) +:+
  "/" +:+ VsockRelPath.

(** The outcomes outside: whether there is entropy, and what the agent behind the socket at a
    path answers to the notification (whether it has reseeded) and to the configuration. *)
Record guest := { g_entropy : bool; g_notified : string → option bool; g_configured : string → bool }.

Inductive event :=
| Notified (path : string) (generation : Z) (network : option NotifyForkedNetwork) (reseeded : bool)
| Configured (path : string) (env secrets : gmap string string).

Record calls := { cl_generation : Z; cl_events : list event }.

Definition no_calls : calls := {| cl_generation := 0; cl_events := [] |}.

Definition next_generation (c : calls) : Z * calls :=
  (cl_generation c + 1, {| cl_generation := cl_generation c + 1; cl_events := cl_events c |}).
Definition acknowledge (ev : event) (c : calls) : unit * calls :=
  (tt, {| cl_generation := cl_generation c; cl_events := ev :: cl_events c |}).

(** ** The server *)

Section server.
Context {unicode : Unicode} {sliceSort : SliceSort} {mapRange : MapRange} {K : Type} {manager : Manager K}.
Variable cfg : Engine.config.

(** [resource.ParseQuantity] of Kubernetes: the bytes. *)
Variable ParseQuantity : string → option Z.

(** Whether the engine attaches volumes, and where it keeps its files. *)
Variable enableVolumes : bool.
Variable d : dirs.

Definition node : Type := Engine K * api * calls.

Definition on_engine {A} (p : prog (Engine K) A) : prog node A := on_fst (on_fst p).
Definition on_api {A} (p : prog api A) : prog node A := on_fst (on_snd p).
Definition on_registry (f : registry → registry) : prog node unit := on_api (on_fst (op (λ a, (tt, f a)))).
Definition on_calls {A} (f : calls → A * calls) : prog node A := on_snd (op f).

Definition ParseSizeMB (s : string) : option Z :=
  if bool_decide (s = "") then Some DefaultSizeMB else bytes ← ParseQuantity s; Some (Z.quot bytes bytesPerMB).

Fixpoint volumeSpecs (mounts : list VolumeMount) : result server_error (list Spec) :=
  match mounts with
  | [] => Ok []
  | m :: mounts =>
      if negb (validateVolumeName (vm_Name m)) then Err BadVolumeName
      else match ParseSizeMB (vm_Size m) with
           | None => Err BadVolumeSize
           | Some mb =>
               match volumeSpecs mounts with
               | Ok specs => Ok ({| sp_Name := vm_Name m; sp_SizeMB := mb; sp_MountPath := vm_MountPath m;
                                    sp_ReadOnly := vm_ReadOnly m; sp_Policy := vm_ForkPolicy m |} :: specs)
               | Err err => Err err
               end
           end
  end.

(** [SandboxAPI.NotifyForked] and [Configure]: the path of the agent's socket is looked up in
    the registrations, and the agent behind it is called.  None is an error.  forkd does not
    enable the fixed socket that [dialGuestGRPC] can fall back on. *)
Definition dialGuestGRPC (sandboxID : string) : prog node (option string) := rd (λ s : node, a_streamPaths s.1.2.1 !! sandboxID).

Definition NotifyForked (sandboxID : string) (gen : Z) (net : option NotifyForkedNetwork) (g : guest) : prog node (option bool) :=
  do path := dialGuestGRPC sandboxID;
  match path with
  | Some path =>
      match g_notified g path with
      | Some reseeded => do _ := on_calls (acknowledge (Notified path gen net reseeded)); Ret (Some reseeded)
      | None => Ret None
      end
  | None => Ret None
  end.

Definition Configure (sandboxID : string) (env secrets : gmap string string) (g : guest) : prog node bool :=
  do path := dialGuestGRPC sandboxID;
  match path with
  | Some path => if g_configured g path then do _ := on_calls (acknowledge (Configured path env secrets)); Ret true else Ret false
  | None => Ret false
  end.

Definition notifyForked (sandboxID : string) (net : option NotifyForkedNetwork) (g : guest) : prog node (result server_error unit) :=
  if negb (g_entropy g) then Ret (Err Undelivered)
  else
    do gen := on_calls next_generation;
    do resp := NotifyForked sandboxID gen net g;
    match resp with
    | Some true => Ret (Ok tt)
    | _ => Ret (Err Undelivered)
    end.

(** On an engine with virtual machines. *)
Definition deliverConfig (sandboxID vsockPath : string) (env secrets : gmap string string) (net : option NotifyForkedNetwork) (g : guest) :
    prog node (result server_error unit) :=
  do _ := on_registry (RegisterSandbox sandboxID vsockPath);
  do _ := on_registry (RegisterStreamPath sandboxID vsockPath);
  do? _ := notifyForked sandboxID net g;
  do ok := Configure sandboxID (withSelfServiceEnv env sandboxID) secrets g;
  Ret (if ok then Ok tt else if bool_decide (secrets = ∅) then Ok tt else Err Undelivered).

Definition notifyForkedRunning (sandboxID vsockPath : string) (net : option NotifyForkedNetwork) (g : guest) : prog node (result server_error unit) :=
  do _ := on_registry (RegisterSandbox sandboxID vsockPath);
  do _ := on_registry (RegisterStreamPath sandboxID vsockPath);
  notifyForked sandboxID net g.

(** What a fork does when its guest cannot be introduced; the error of [Terminate] is
    dropped. *)
Definition reap (sys : system) (sandboxID : string) : prog node unit :=
  do _ := on_engine (Terminate cfg sys sandboxID);
  on_api (UnregisterSandbox sandboxID).

Definition Fork (sys : system) (snapshotID sandboxID : string) (env secrets : gmap string string)
    (netConf : option NetworkConfig) (volumes : list VolumeMount) (apiToken : string) (labels : VitalsLabels)
    (bt : boot) (g : guest) : prog node (result server_error Sandbox) :=
  match volumeSpecs volumes with
  | Err err => Ret (Err err)
  | Ok vols =>
      do r := on_engine (Engine.Fork cfg snapshotID sandboxID
                {| fo_Network := networkOpts netConf; fo_Volumes := enableVolumes && negb (bool_decide (vols = [])); fo_LiveFork := false |} bt);
      match r with
      | Err err => Ret (Err (EngineError err))
      | Ok sb =>
          do u := deliverConfig (sb_ID sb) (VsockHostPath cfg d (sb_ID sb)) env secrets (guestNet cfg false sb) g;
          match u with
          | Err err => do _ := reap sys (sb_ID sb); Ret (Err err)
          | Ok _ =>
              do _ := on_registry (RegisterToken (sb_ID sb) apiToken);
              do _ := on_registry (SetVitalsLabels (sb_ID sb) labels);
              Ret (Ok sb)
          end
      end
  end.

Definition ForkRunning (sys : system) (sourceID newID apiToken : string) (checkpointed : bool)
    (bt : boot) (g : guest) : prog node (result server_error Sandbox) :=
  do r := on_engine (Engine.ForkRunning cfg sourceID newID checkpointed bt);
  match r with
  | Err err => Ret (Err (EngineError err))
  | Ok sb =>
      do u := notifyForkedRunning (sb_ID sb) (VsockHostPath cfg d (sb_ID sb)) (guestNet cfg true sb) g;
      match u with
      | Err err => do _ := reap sys (sb_ID sb); Ret (Err err)
      | Ok _ =>
          do _ := on_registry (RegisterToken (sb_ID sb) apiToken);
          Ret (Ok sb)
      end
  end.

Definition Terminate (sys : system) (sandboxID : string) : prog node (result server_error unit) :=
  do _ := on_api (UnregisterSandbox sandboxID);
  do r := on_engine (Engine.Terminate cfg sys sandboxID);
  Ret (match r with Ok _ => Ok tt | Err err => Err (EngineError err) end).

(** ** The gRPC service *)

Definition grpc_Fork (sys : system) (req : ForkRequest) (bt : boot) (g : guest) : prog node (result server_error Sandbox) :=
  if negb (validateIDs [fr_SnapshotId req; fr_SandboxId req]) then Ret (Err BadID)
  else Fork sys (fr_SnapshotId req) (fr_SandboxId req) (envMap (fr_Env req)) (envMap (fr_Secrets req)) (fr_Network req)
         (fr_Volumes req) (fr_ApiToken req) (vitalsLabels (fr_VitalsLabels req)) bt g.

Definition grpc_ForkRunning (sys : system) (sourceID newID apiToken : string) (checkpointed : bool)
    (bt : boot) (g : guest) : prog node (result server_error Sandbox) :=
  if negb (validateIDs [sourceID; newID]) then Ret (Err BadID)
  else ForkRunning sys sourceID newID apiToken checkpointed bt g.

Definition grpc_Terminate (sys : system) (sandboxID : string) : prog node (result server_error unit) :=
  if negb (validateIDs [sandboxID]) then Ret (Err BadID) else Terminate sys sandboxID.

End server.

End DaemonServer.
