(* ===== verification/DaemonServerTheorems.v ===== *)
(** * The fork service: theorems

    Whatever else the node does meanwhile, when a fork is reported the agent behind the socket
    of its sandbox was told so: it has reseeded under a generation of its own, and has the
    secrets.  And when calls do not overlap, what is registered with the sandbox API is what
    the engine runs, each at its own socket. *)

From Stdlib Require Import Ascii.
From S2P Require Import Prelude Json GoStrings GoNet GoUrl GoHttp Atomic Ownership Netconf NetconfTheorems Allowlist Nft Firewall EgressProxy.
From S2P Require Import Engine EngineTheorems ForkTheorems RecoveryTheorems GoMux Daemon DaemonTheorems DaemonConns DaemonServer.
Import Json GoStrings GoNet GoUrl GoHttp Netconf NetconfTheorems Engine RecoveryTheorems Daemon DaemonConns DaemonServer.

Module DaemonServerTheorems.

#[local] Arguments pbind : simpl never.
#[local] Arguments op : simpl never.
#[local] Arguments assures : simpl never.
#[local] Arguments owns : simpl never.

Section theorems.
Context {unicode : Unicode} {sliceSort : SliceSort} {mapRange : MapRange} {K : Type} {manager : Manager K}.
Context (cfg : Engine.config) (ParseQuantity : string → option Z) (enableVolumes : bool) (d : dirs) (apicfg : settings).

Abbreviation node := (node (K := K)).
Abbreviation host_path := (VsockHostPath cfg d).

(** ** The calls of a node *)

Inductive outcome :=
| Forked (req : ForkRequest) (r : result server_error Sandbox)
| LiveForked (newID : string) (r : result server_error Sandbox)
| Otherwise.

Inductive call : prog node outcome → Prop :=
| fork_call sys req bt g :
    call (do r := grpc_Fork cfg ParseQuantity enableVolumes d sys req bt g; Ret (Forked req r))
| live_call sys sourceID newID apiToken checkpointed bt g :
    call (do r := grpc_ForkRunning cfg d sys sourceID newID apiToken checkpointed bt g; Ret (LiveForked newID r))
| terminate_call sys id : call (do _ := grpc_Terminate cfg sys id; Ret Otherwise)
| api_call p : client_request apicfg p → call (do _ := on_api p; Ret Otherwise).

(** ** Results of the engine *)

Definition named (id : string) (r : result fork_error Sandbox) : Prop := match r with Ok sb => sb_ID sb = id | Err _ => True end.

Lemma body_named snap id opts bt : yields (fork_body cfg snap id opts bt) (named id).
Proof.
  unfold fork_body. destruct (bt_snapshot bt); [|done]. apply yields_bind_ok, yields_true. intros [[pid uid]|]; [|done].
  apply yields_bind, yields_true. intros [fnet|]; [|by apply yields_bind, yields_true].
  assert (∀ err, yields (do _ := cleanupFork (K := K) cfg id pid uid fnet; Ret (Err err)) (named id)) as Hfail.
  { intros err. by apply yields_bind, yields_true. }
  destruct (bt_volumes bt); cbn [negb]; [|apply Hfail]. destruct (bt_load bt); cbn [negb]; [|apply Hfail].
  destruct (bt_rebind bt); cbn [negb]; [|apply Hfail]. destruct (bt_resume bt); cbn [negb]; [|apply Hfail].
  do 3 (apply yields_bind, yields_true; intros ?). done.
Qed.

Lemma fork_named snap id opts bt reserved : yields (fork cfg snap id opts bt reserved) (named id).
Proof.
  unfold fork. destruct (safeSandboxIDComponent id); [|done]. apply yields_bind_ok, yields_true. intros [|]; [|done].
  apply yields_bind. eapply yields_mono; [|apply body_named]. intros [sb|err] Hr; [done|]. by apply yields_bind, yields_true.
Qed.

Lemma Fork_named snap id opts bt : yields (Engine.Fork cfg snap id opts bt) (named id).
Proof.
  unfold Engine.Fork. destruct (safeSandboxIDComponent snap); [|done]. destruct (safeSandboxIDComponent id); [|done]. cbn [negb].
  apply yields_bind_ok, yields_true. intros [|]; [|done].
  assert (∀ err, yields (do _ := op (releaseReservation (K := K) cfg); Ret (Err err)) (named id)) as Hr by (intros err; by apply yields_bind, yields_true).
  destruct (bt_verified bt); cbn [negb]; [|apply Hr]. destruct (bt_compatible bt); cbn [negb]; [|apply Hr].
  destruct (bt_opened bt); cbn [negb]; [|apply Hr]. apply fork_named.
Qed.

Lemma ForkRunning_named src id cp bt : yields (Engine.ForkRunning cfg src id cp bt) (named id).
Proof.
  unfold Engine.ForkRunning. apply yields_bind, yields_true. intros [source|]; [|done]. destruct (_ && _); [done|].
  destruct cp; [|done]. apply fork_named.
Qed.

(** ** A fork that is reported has been introduced *)

(** Every registered path is that of the sandbox's own socket. *)
Definition own_paths (s : node) : Prop := map_Forall (λ id path, path = host_path id) (a_streamPaths s.1.2.1).

(** What agents have acknowledged, they have; and paths stay their own. *)
Definition grows (s s' : node) : Prop := (∀ ev, ev ∈ cl_events s.2 → ev ∈ cl_events s'.2) ∧ (own_paths s → own_paths s').

Definition said (ev : event) (s : node) : Prop := ev ∈ cl_events s.2.

Lemma said_stable ev : stable grows (said ev).
Proof. intros s s' [Hg _]. apply Hg. Qed.

Lemma own_stable : stable grows own_paths.
Proof. intros s s' [_ Hg]. exact Hg. Qed.

Lemma both_stable (P P' : node → Prop) : stable grows P → stable grows P' → stable grows (λ s, P s ∧ P' s).
Proof. intros H1 H2 s s' Hg [? ?]. split; [by eapply H1|by eapply H2]. Qed.

Definition told (id : string) (net : option NotifyForkedNetwork) (s : node) : Prop := ∃ gen, said (Notified (host_path id) gen net true) s.

Lemma told_stable id net : stable grows (told id net).
Proof. intros s s' Hg [gen Hs]. exists gen. by eapply said_stable. Qed.

Lemma grows_within (s s' : node) : s'.2 = s.2 → a_streamPaths s'.1.2.1 ⊆ a_streamPaths s.1.2.1 → grows s s'.
Proof. intros He Hp. split; [by rewrite He|]. intros H id path Hl. apply H. by eapply lookup_weaken. Qed.

Lemma on_engine_grows {A} (p : prog (Engine K) A) : moves grows (on_engine p).
Proof.
  unfold on_engine. induction p as [a|B f k IH]; simpl; [done|]. split; [|done]. intros [[e a] c]. destruct (f e). by apply grows_within.
Qed.

(** Programs of the sandbox API that register nothing. *)
Definition loses (a a' : api) : Prop := a_streamPaths a'.1 ⊆ a_streamPaths a.1.

Lemma on_api_grows {A} (p : prog api A) : moves loses p → moves grows (on_api p).
Proof.
  unfold on_api. induction p as [a|B f k IH]; simpl; [done|]. intros [Hf Hk]. split; [|auto]. intros [[e a] c].
  specialize (Hf a). destruct (f a). by apply grows_within.
Qed.

Lemma conns_loses {A} (p : prog conns A) : moves loses (on_snd p).
Proof. induction p as [a|B f k IH]; simpl; [done|]. split; [|done]. intros [a c]. destruct (f c). unfold loses. simpl. reflexivity. Qed.

Lemma read_loses {A} (f : api → A) : moves loses (rd f).
Proof. split; [|done]. intros s. unfold loses. reflexivity. Qed.

Lemma Unregister_loses id : moves loses (UnregisterSandbox id).
Proof.
  do 2 (apply moves_bind; [apply conns_loses|intros []]). split; [|done]. intros [a c]. apply delete_subseteq.
Qed.

Lemma dial_loses id agent : moves loses (dial_guest id agent).
Proof. apply moves_bind; [apply read_loses|]. intros path. destruct (_ && _); [|done]. by apply moves_bind; [apply conns_loses|]. Qed.

Ltac loses_walk :=
  repeat first [apply moves_bind; [first [done|apply conns_loses|apply read_loses|apply dial_loses]|intros ?]|apply conns_loses
               |done|case_match].

Lemma client_loses p : client_request apicfg p → moves loses p.
Proof.
  intros [id agent sent|id port r agent|id port bound|id pf agent|id]; [apply moves_bind; [|done]..| |].
  - unfold exec_session. apply moves_bind; [unfold Exec|intros ?]; loses_walk.
  - unfold serveExpose. loses_walk. apply moves_bind; [unfold exchange|intros ans]; loses_walk.
  - unfold ForwardPort. loses_walk.
  - unfold acceptForward, bridgeForwardConn. loses_walk. apply moves_bind; [|intros []]; loses_walk.
  - apply conns_loses.
Qed.

(** Programs of the engine or the sandbox API keep what is known, and yield what they may. *)
Lemma assures_grows {A} P (p : prog node A) : stable grows P → moves grows p → assures grows P p (λ _ s, P s).
Proof.
  intros HP Hp. eapply assures_mono; [|apply (assures_moves _ P p (λ _, True) HP Hp), yields_true; done]. by intros a s [_ Hs].
Qed.

Lemma assures_engine {A} P (p : prog (Engine K) A) φ : stable grows P → yields p φ →
  assures grows P (on_engine p) (λ a s, φ a ∧ P s).
Proof. intros HP Hφ. apply assures_moves; [done|apply on_engine_grows|by apply yields_fst, yields_fst]. Qed.

Lemma registry_assures P f : stable grows P → (∀ a, map_Forall (λ id path, path = host_path id) (a_streamPaths a) →
    map_Forall (λ id path, path = host_path id) (a_streamPaths (f a))) →
  assures grows P (on_registry f) (λ _ s, P s).
Proof. intros HP Hf. apply assures_grows; [done|]. split; [|done]. intros [[e [a c]] cl]. split; [done|]. apply Hf. Qed.

Lemma register_assures P id : stable grows P → assures grows P (on_registry (RegisterSandbox id (host_path id))) (λ _ s, P s).
Proof. intros HP. apply registry_assures; [done|]. intros a Ha. by apply map_Forall_insert_2. Qed.

Lemma token_assures P id token : stable grows P → assures grows P (on_registry (RegisterToken id token)) (λ _ s, P s).
Proof. intros HP. apply registry_assures; [done|]. intros a Ha. unfold RegisterToken. by case_bool_decide. Qed.

Lemma acknowledge_assures P ev : stable grows P → assures grows P (on_calls (acknowledge ev)) (λ _ s, P s ∧ said ev s).
Proof.
  intros HP. apply (assures_op _ P (λ s : node, let '(e, c) := s in let '(u, c') := acknowledge ev c in (u, (e, c')))).
  - intros _. apply both_stable; [done|apply said_stable].
  - intros [e c] Hs. assert (grows (e, c) (e, (acknowledge ev c).2)) as Hg.
    { split; [|done]. intros ev' Hev. simpl in *. set_solver. }
    split; [done|]. split; [by eapply HP|]. unfold said. simpl. set_solver.
Qed.

Lemma dial_assures P id : stable grows P → (∀ s, P s → own_paths s) →
  assures grows P (dialGuestGRPC id) (λ path s, from_option (λ p, p = host_path id) True path ∧ P s).
Proof.
  intros HP Hown. split; [by intros s _; apply grows_within|].
  exists (λ path s, from_option (λ p, p = host_path id) True path ∧ P s). split_and!; [| |by intros b s].
  - intros path s s' Hg [? ?]. split; [done|by eapply HP].
  - intros s Hs. split; [|done]. simpl. destruct (_ !! id) as [path|] eqn:E; [|done]. by apply (Hown s Hs).
Qed.

Lemma NotifyForked_assures P id gen net g : stable grows P → (∀ s, P s → own_paths s) →
  assures grows P (NotifyForked id gen net g) (λ r s, P s ∧ (r = Some true → told id net s)).
Proof.
  intros HP Hown. unfold NotifyForked. eapply assures_bind; [by apply (dial_assures P)|].
  intros [path|]; [|by intros s [_ Hs]]. apply (assures_pure _ (path = host_path id) P). intros ->.
  destruct (g_notified g _) as [reseeded|]; [|by intros s Hs].
  eapply assures_bind; [by apply (acknowledge_assures P)|]. intros _ s [Hs Hev]. split; [done|]. intros [= ->]. by exists gen.
Qed.

Definition introduced (id : string) (net : option NotifyForkedNetwork) (r : result server_error unit) (s : node) : Prop :=
  match r with Ok _ => told id net s | Err _ => True end.

Lemma notifyForked_assures P id net g : stable grows P → (∀ s, P s → own_paths s) →
  assures grows P (notifyForked id net g) (λ r s, P s ∧ introduced id net r s).
Proof.
  intros HP Hown. unfold notifyForked. destruct (g_entropy g); [|by intros s Hs].
  eapply assures_bind.
  { apply (assures_grows P); [done|]. split; [|done]. intros [e c]. by split. }
  intros gen. eapply assures_bind; [by apply (NotifyForked_assures P)|]. intros [[]|] s [Hs Hn]; (split; [done|]); [by apply Hn|done|done].
Qed.

Lemma Configure_assures P id env secrets g : stable grows P → (∀ s, P s → own_paths s) →
  assures grows P (Configure id env secrets g) (λ ok s, P s ∧ (ok = true → said (Configured (host_path id) env secrets) s)).
Proof.
  intros HP Hown. unfold Configure. eapply assures_bind; [by apply (dial_assures P)|].
  intros [path|]; [|by intros s [_ Hs]]. apply (assures_pure _ (path = host_path id) P). intros ->.
  destruct (g_configured g _); [|by intros s Hs].
  eapply assures_bind; [by apply (acknowledge_assures P)|]. by intros _ s [Hs Hev].
Qed.

Definition delivered (id : string) (env secrets : gmap string string) (r : result server_error unit) (s : node) : Prop :=
  match r with Ok _ => secrets = ∅ ∨ said (Configured (host_path id) (withSelfServiceEnv env id) secrets) s | Err _ => True end.

Lemma deliverConfig_assures id env secrets net g :
  assures grows own_paths (deliverConfig id (host_path id) env secrets net g)
    (λ r s, own_paths s ∧ introduced id net r s ∧ delivered id env secrets r s).
Proof.
  unfold deliverConfig. do 2 (eapply assures_bind; [apply (register_assures own_paths), own_stable|]; intros []).
  eapply assures_bind; [apply (notifyForked_assures own_paths); [apply own_stable|done]|]. intros [u|err]; [|by intros s [? ?]].
  eapply assures_bind; [apply (Configure_assures (λ s, own_paths s ∧ told id net s))|].
  - apply both_stable; [apply own_stable|apply told_stable].
  - by intros s [? _].
  - intros [] s [[? Ht] Hc]; [by split_and!; [| |right; apply Hc]|]. case_bool_decide; [by split_and!; [| |left]|done].
Qed.

Lemma reap_assures sys id : assures grows own_paths (reap cfg sys id) (λ _, own_paths).
Proof.
  apply assures_grows; [apply own_stable|]. apply moves_bind; [apply on_engine_grows|]. intros _.
  apply on_api_grows, Unregister_loses.
Qed.

(** What is known of a fork that has returned. *)
Definition reported (o : outcome) (s : node) : Prop :=
  match o with
  | Forked req (Ok sb) =>
      let id := fr_SandboxId req in
      sb_ID sb = id ∧ told id (guestNet cfg false sb) s ∧
      (envMap (fr_Secrets req) = ∅ ∨ said (Configured (host_path id) (withSelfServiceEnv (envMap (fr_Env req)) id) (envMap (fr_Secrets req))) s)
  | LiveForked newID (Ok sb) => sb_ID sb = newID ∧ told newID (guestNet cfg true sb) s
  | _ => True
  end.

Lemma reported_stable o : stable grows (reported o).
Proof.
  intros s s' Hg. destruct o as [req [sb|]|id [sb|]|]; simpl; [|done| |done..].
  - intros (Hid & Ht & Hc). split_and!; [done|by eapply told_stable|]. destruct Hc; [by left|right; by eapply said_stable].
  - intros (Hid & Ht). split; [done|by eapply told_stable].
Qed.

Lemma call_assures p : call p → assures grows own_paths p reported.
Proof.
  intros [sys req bt g|sys src id token cp bt g|sys id|p' Hp'].
  - apply (assures_bind _ _ _ (λ r s, reported (Forked req r) s)); [|by intros r s].
    unfold grpc_Fork. destruct (validateIDs _); [|by intros s]. cbn [negb]. unfold DaemonServer.Fork.
    destruct (volumeSpecs _ _) as [vols|]; [|by intros s].
    eapply assures_bind; [apply assures_engine; [apply own_stable|apply Fork_named]|]. intros [sb|err]; [|by intros s].
    apply (assures_pure _ (sb_ID sb = fr_SandboxId req) own_paths). intros Hid. rewrite Hid.
    eapply assures_bind; [apply deliverConfig_assures|]. intros [u|err].
    + set (P := λ s, reported (Forked req (Ok sb)) s). apply (assures_pre _ _ P); [by intros s (_ & Ht & Hc)|].
      eapply assures_bind; [apply (token_assures P), reported_stable|]. intros [].
      eapply assures_bind; [apply (registry_assures P); [apply reported_stable|done]|]. intros []. by intros s.
    + apply (assures_pre _ _ own_paths); [by intros s [? _]|]. eapply assures_bind; [apply reap_assures|]. by intros _ s.
  - apply (assures_bind _ _ _ (λ r s, reported (LiveForked id r) s)); [|by intros r s].
    unfold grpc_ForkRunning. destruct (validateIDs _); [|by intros s]. cbn [negb]. unfold DaemonServer.ForkRunning.
    eapply assures_bind; [apply assures_engine; [apply own_stable|apply ForkRunning_named]|]. intros [sb|err]; [|by intros s].
    apply (assures_pure _ (sb_ID sb = id) own_paths). intros Hid. rewrite Hid. unfold notifyForkedRunning.
    eapply assures_bind; [do 2 (eapply assures_bind; [apply (register_assures own_paths), own_stable|]; intros []);
                          apply (notifyForked_assures own_paths); [apply own_stable|done]|].
    intros [u|err].
    + set (P := λ s, reported (LiveForked id (Ok sb)) s). apply (assures_pre _ _ P); [by intros s [_ Ht]|].
      eapply assures_bind; [apply (token_assures P), reported_stable|]; intros []. by intros s.
    + apply (assures_pre _ _ own_paths); [by intros s [? _]|]. eapply assures_bind; [apply reap_assures|]. by intros _ s.
  - eapply (assures_bind _ _ _ (λ _, own_paths)); [|by intros r s]. apply assures_grows; [apply own_stable|]. unfold grpc_Terminate.
    destruct (validateIDs _); [|done]. apply moves_bind; [apply on_api_grows, Unregister_loses|]. intros _.
    by apply moves_bind; [apply on_engine_grows|].
  - eapply (assures_bind _ _ _ (λ _, own_paths)); [|by intros r s]. apply assures_grows; [apply own_stable|]. by apply on_api_grows, client_loses.
Qed.

(** ** Generations *)

Definition generation_of (ev : event) : option Z := match ev with Notified _ gen _ _ => Some gen | Configured _ _ _ => None end.
Definition generations (evs : list event) : list Z := omap generation_of evs.

Record counted (s : node) : Prop := {
  counted_pos : 0 ≤ cl_generation s.2;
  counted_once : NoDup (generations (cl_events s.2));
  counted_range gen : gen ∈ generations (cl_events s.2) → 1 ≤ gen ≤ cl_generation s.2;
}.

(** The generations that were taken, and no guest has acknowledged. *)
Definition unsent (s : node) : gset Z :=
  list_to_set (seqZ 1 (cl_generation s.2)) ∖ list_to_set (generations (cl_events s.2)).

Lemma elem_of_unsent gen s : gen ∈ unsent s ↔ (1 ≤ gen ≤ cl_generation s.2) ∧ gen ∉ generations (cl_events s.2).
Proof. unfold unsent. rewrite elem_of_difference, !elem_of_list_to_set, elem_of_seqZ. split; intros [? ?]; (split; [lia|done]). Qed.

Abbreviation owns' := (owns unsent counted).

Lemma owns_fst {A} t (p : prog (Engine K * api) A) (Q : A → gset Z → Prop) : (∀ a, Q a t) → owns' t (on_fst p) Q.
Proof.
  intros HQ. apply (owns_moves _ _ (λ s s' : node, s'.2 = s.2)); [|apply on_fst_moves|done].
  intros s s' Hs [H1 H2 H3]. split; [constructor|unfold unsent]; by rewrite Hs.
Qed.

Lemma owns_read {A} t (f : node → A) (Q : A → gset Z → Prop) : (∀ a, Q a t) → owns' t (rd f) Q.
Proof. intros HQ s HI Ht. split; [done|]. exists t. split_and!; [done|done|apply HQ]. Qed.

Lemma owns_next (Q : Z → gset Z → Prop) : (∀ gen, Q gen {[gen]}) → owns' ∅ (on_calls next_generation) Q.
Proof.
  intros HQ [e c] [H1 H2 H3] _. simpl in *. split; [constructor; simpl; [lia|done|]; intros gen Hg; specialize (H3 gen Hg); lia|].
  assert (cl_generation c + 1 ∉ generations (cl_events c)) as Hn by (intros Hg; specialize (H3 _ Hg); lia).
  exists {[cl_generation c + 1]}. split_and!; [| |apply HQ].
  - intros gen ->%elem_of_singleton. apply elem_of_unsent. simpl. split; [lia|done].
  - apply set_eq. intros gen. rewrite difference_empty_L, elem_of_difference, !elem_of_unsent, elem_of_singleton. simpl.
    split; [intros [[? ?] ?]|intros [? ?]]; split_and?; (done || lia).
Qed.

Lemma owns_acknowledge id gen net reseeded (Q : unit → gset Z → Prop) :
  Q tt ∅ → owns' {[gen]} (on_calls (acknowledge (Notified id gen net reseeded))) Q.
Proof.
  intros HQ [e c] [H1 H2 H3] Hsub. simpl in *.
  assert (gen ∈ unsent (e, c)) as [Hr Hn]%elem_of_unsent by set_solver. simpl in *.
  split; [constructor; simpl; [done|by constructor|]; intros gen' [->|Hg]%elem_of_cons; [done|by apply H3]|].
  exists ∅. split_and!; [set_solver| |done]. apply set_eq. intros gen'.
  rewrite difference_empty_L, elem_of_difference, !elem_of_unsent, elem_of_singleton. simpl. rewrite not_elem_of_cons.
  split; [intros [? [? ?]]|intros [[? ?] ?]]; done.
Qed.

Lemma owns_configured id env secrets t (Q : unit → gset Z → Prop) :
  Q tt t → owns' t (on_calls (acknowledge (Configured id env secrets))) Q.
Proof. intros HQ [e c] [H1 H2 H3] Hsub. split; [by constructor|]. exists t. by split_and!. Qed.

Lemma notifyForked_owns id net g (Q : result server_error unit → gset Z → Prop) :
  (∀ r t, Q r t) → owns' ∅ (notifyForked id net g) Q.
Proof.
  intros HQ. unfold notifyForked, NotifyForked. destruct (g_entropy g); [|apply HQ]. apply owns_bind, owns_next. intros gen.
  apply owns_bind, owns_bind, owns_read. intros [path|]; [|apply HQ]. destruct (g_notified g path) as [reseeded|]; [|apply HQ].
  apply owns_bind, owns_acknowledge. destruct reseeded; apply HQ.
Qed.

Lemma Configure_owns t id env secrets g (Q : bool → gset Z → Prop) : (∀ ok, Q ok t) → owns' t (Configure id env secrets g) Q.
Proof.
  intros HQ. unfold Configure. apply owns_bind, owns_read. intros [path|]; [|apply HQ]. destruct (g_configured g path); [|apply HQ].
  apply owns_bind, owns_configured, HQ.
Qed.

Lemma fork_reap_owns t sys id (Q : unit → gset Z → Prop) : (∀ r, Q r t) → owns' t (reap cfg sys id) Q.
Proof. intros HQ. apply owns_bind, owns_fst. intros _. by apply owns_fst. Qed.

Lemma daemon_call_owns p : call p → owns' ∅ p (λ _ _, True).
Proof.
  intros [sys req bt g|sys src id token cp bt g|sys id|p' _]; apply owns_bind.
  - unfold grpc_Fork. destruct (validateIDs _); [|done]. cbn [negb]. unfold DaemonServer.Fork.
    destruct (volumeSpecs _ _) as [vols|]; [|done]. apply owns_bind, owns_fst. intros [sb|err]; [|done]. apply owns_bind.
    unfold deliverConfig. do 2 (apply owns_bind, owns_fst; intros []). apply owns_bind_ok, notifyForked_owns.
    assert (∀ t err, owns' t (do _ := reap cfg sys (sb_ID sb); Ret (Err err)) (λ a t, owns' t (Ret (Forked req a)) (λ _ _, True))) as Hreap
      by (intros t err; by apply owns_bind, fork_reap_owns).
    intros [u|err] t; [|apply Hreap]. apply owns_bind, Configure_owns. intros ok. 
    assert (owns' t (do _ := on_registry (RegisterToken (sb_ID sb) (fr_ApiToken req));
                     do _ := on_registry (SetVitalsLabels (sb_ID sb) (vitalsLabels (fr_VitalsLabels req))); Ret (Ok sb))
              (λ a t, owns' t (Ret (Forked req a)) (λ _ _, True))) as Hok.
    { do 2 (apply owns_bind, owns_fst; intros []). done. }
    destruct ok; [exact Hok|]. case_bool_decide; [exact Hok|apply Hreap].
  - unfold grpc_ForkRunning. destruct (validateIDs _); [|done]. cbn [negb]. unfold DaemonServer.ForkRunning, notifyForkedRunning.
    apply owns_bind, owns_fst. intros [sb|err]; [|done]. apply owns_bind. do 2 (apply owns_bind, owns_fst; intros []).
    apply notifyForked_owns. intros [u|err] t; [by apply owns_bind, owns_fst|by apply owns_bind, fork_reap_owns].
  - unfold grpc_Terminate. destruct (validateIDs _); [|done]. apply owns_bind, owns_fst. intros []. by apply owns_bind, owns_fst.
  - by apply owns_fst.
Qed.

Lemma append_cancel_r (s s' t : string) : s +:+ t = s' +:+ t → s = s'.
Proof.
  assert (∀ u v : string, String.length (u +:+ v) = (String.length u + String.length v)%nat) as Hlen.
  { intros u v. induction u as [|c u IH]; simpl; [done|]. by rewrite IH. }
  revert s'. induction s as [|c s IH]; intros [|c' s']; simpl; intros H; [done| | |].
  - apply (f_equal String.length) in H. simpl in H. rewrite !Hlen in H. simpl in H. lia.
  - apply (f_equal String.length) in H. simpl in H. rewrite !Hlen in H. simpl in H. lia.
  - injection H as -> H. by rewrite (IH s').
Qed.

(** No two sandboxes have the same socket. *)
Lemma VsockHostPath_inj id id' : host_path id = host_path id' → id = id'.
Proof.
  unfold VsockHostPath, jailerChrootDir. destruct (c_jailer cfg); intros H%append_cancel_r; apply (inj (String.append _)) in H.
  - apply (inj (String.append _)) in H. by apply append_cancel_r in H.
  - by apply (inj (String.append _)) in H.
Qed.

(** C7: in every interleaving of forks, live forks, terminations and requests of clients to
    the sandbox API, when a fork was reported the agent behind the socket of its sandbox,
    which is the socket of no other identifier, has reseeded its random numbers and was given
    the network identity of this very sandbox (for a live fork, with the order to drop the
    connections it inherited), and was given the secrets if there are any.  No two
    notifications that agents have acknowledged carry the same generation, up to 2^64 of
    them.  Which machine is behind the socket is the engine's affair: two forks of one
    identifier at the same time have one socket between them. *)
Theorem forks_introduced e c s ps :
  reaches call ((e, (no_registrations, c), no_calls) : node, []) (s, ps) →
  let said ev := ev ∈ cl_events s.2 in
  (∀ req sb, Ret (Forked req (Ok sb)) ∈ ps →
     let id := fr_SandboxId req in
     sb_ID sb = id ∧ (∃ gen, said (Notified (host_path id) gen (guestNet cfg false sb) true)) ∧
     (envMap (fr_Secrets req) = ∅ ∨
      said (Configured (host_path id) (withSelfServiceEnv (envMap (fr_Env req)) id) (envMap (fr_Secrets req))))) ∧
  (∀ newID sb, Ret (LiveForked newID (Ok sb)) ∈ ps →
     sb_ID sb = newID ∧ ∃ gen, said (Notified (host_path newID) gen (guestNet cfg true sb) true)) ∧
  (∀ id id', host_path id = host_path id' → id = id') ∧
  (cl_generation s.2 < 2 ^ 64 → NoDup ((λ gen, gen mod 2 ^ 64) <$> generations (cl_events s.2))).
Proof.
  intros Hr. simpl.
  assert (assured grows reported (s, ps)) as Ha.
  { eapply reaches_assured; [apply own_stable|apply call_assures|exact Hr|by intros id path ?|constructor]. }
  assert (shared unsent counted (λ _, True) (s, ps)) as [[H1 H2 H3] _].
  { eapply reaches_shared; [apply daemon_call_owns|exact Hr|]. split; [by constructor; [|constructor|intros gen ?%not_elem_of_nil]|].
    exists []. split; [constructor|]. done. }
  split_and!.
  - intros req sb Hin. exact (assured_result _ _ _ _ _ Ha Hin).
  - intros newID sb Hin. exact (assured_result _ _ _ _ _ Ha Hin).
  - apply VsockHostPath_inj.
  - intros Hlt. simpl in *. apply (NoDup_fmap_2_strong _ _); [|done]. intros g1 g2 Hg1 Hg2.
    pose proof (H3 _ Hg1). pose proof (H3 _ Hg2). rewrite !Z.mod_small by lia. done.
Qed.

End theorems.

(** ** One call after the other *)

Section sequential.
Context {unicode : Unicode} {sliceSort : SliceSort} {mapRange : MapRange} {K : Type} {manager : Manager K}.
Context (cfg : Engine.config) (ParseQuantity : string → option Z) (enableVolumes : bool) (d : dirs).

Abbreviation node := (node (K := K)).
Abbreviation host_path := (VsockHostPath cfg d).

Inductive server_call :=
| SFork (sys : system) (req : ForkRequest) (bt : boot) (g : guest)
| SForkRunning (sys : system) (sourceID newID apiToken : string) (checkpointed : bool) (bt : boot) (g : guest)
| STerminate (sys : system) (id : string).

(** Its error, none when it succeeds. *)
Definition error_of {A} (r : result server_error A) : option server_error := match r with Ok _ => None | Err err => Some err end.

Definition run_call (c : server_call) (s : node) : option server_error * node :=
  match c with
  | SFork sys req bt g => let '(r, s') := run (grpc_Fork cfg ParseQuantity enableVolumes d sys req bt g) s in (error_of r, s')
  | SForkRunning sys sourceID newID apiToken checkpointed bt g =>
      let '(r, s') := run (grpc_ForkRunning cfg d sys sourceID newID apiToken checkpointed bt g) s in (error_of r, s')
  | STerminate sys id => let '(r, s') := run (grpc_Terminate cfg sys id) s in (error_of r, s')
  end.

(** What a node promises: which sandboxes it runs, and which token opens each. *)
Record promise := { pr_live : gset string; pr_tokens : gmap string string }.

Definition begun (id token : string) (r : option server_error) (pr : promise) : promise :=
  match r with
  | None => {| pr_live := {[id]} ∪ pr_live pr; pr_tokens := if bool_decide (token = "") then pr_tokens pr else <[id := token]> (pr_tokens pr) |}
  | Some Undelivered => {| pr_live := pr_live pr ∖ {[id]}; pr_tokens := delete id (pr_tokens pr) |}
  | Some _ => pr
  end.

Definition ended (id : string) (r : option server_error) (pr : promise) : promise :=
  match r with
  | Some BadID => pr
  | _ => {| pr_live := pr_live pr ∖ {[id]}; pr_tokens := delete id (pr_tokens pr) |}
  end.

Definition promised (c : server_call) (r : option server_error) (pr : promise) : promise :=
  match c with
  | SFork _ req _ _ => begun (fr_SandboxId req) (fr_ApiToken req) r pr
  | SForkRunning _ _ newID apiToken _ _ _ => begun newID apiToken r pr
  | STerminate _ id => ended id r pr
  end.

(** The node and its promise after a list of calls. *)
Fixpoint serve (cs : list server_call) (s : node) (pr : promise) : node * promise :=
  match cs with
  | [] => (s, pr)
  | c :: cs => let '(r, s') := run_call c s in serve cs s' (promised c r pr)
  end.

(** The socket of each of them, and of nothing else. *)
Definition sockets (ids : gset string) : gmap string string := set_to_map (λ id, (id, host_path id)) ids.

Lemma lookup_sockets ids id : sockets ids !! id = if decide (id ∈ ids) then Some (host_path id) else None.
Proof.
  unfold sockets. destruct (decide (id ∈ ids)) as [Hin|Hni].
  - apply lookup_set_to_map; [by intros ? ? _ _ ?|]. by exists id.
  - apply eq_None_not_Some. intros [path Hl]. apply lookup_set_to_map in Hl as (id' & ? & ?); [|by intros ? ? _ _ ?]. by simplify_eq.
Qed.

Lemma sockets_insert ids id : <[id := host_path id]> (sockets ids) = sockets ({[id]} ∪ ids).
Proof.
  apply map_eq. intros id'. rewrite lookup_insert, !lookup_sockets.
  repeat case_decide; subst; (done || set_solver).
Qed.

Lemma sockets_delete ids id : delete id (sockets ids) = sockets (ids ∖ {[id]}).
Proof.
  apply map_eq. intros id'. rewrite lookup_delete, !lookup_sockets.
  repeat case_decide; subst; (done || set_solver).
Qed.

Record keeps_promise (pr : promise) (s : node) : Prop := {
  kp_live : dom (e_sandboxes s.1.1) = pr_live pr;
  kp_paths : a_streamPaths s.1.2.1 = sockets (pr_live pr);
  kp_tokens : a_tokens s.1.2.1 = pr_tokens pr;
  kp_open : dom (pr_tokens pr) ⊆ pr_live pr;
  kp_alloc : alloc_ok (e_netAlloc s.1.1);
}.

Lemma Terminate_run sys id e : safeSandboxIDComponent id = true → alloc_ok (e_netAlloc e) →
  let e' := (run (Engine.Terminate cfg sys id) e).2 in
  e_sandboxes e' = delete id (e_sandboxes e) ∧ alloc_ok (e_netAlloc e').
Proof.
  intros Hid Ha. pose proof (Terminate_ends cfg sys id _ _ e (conj eq_refl (conj eq_refl Ha))) as H. unfold ends in H.
  revert H. unfold Engine.Terminate. rewrite Hid. cbn [negb]. rewrite run_bind, run_op.
  destruct (e_sandboxes e !! id) as [sb|] eqn:E; [|cbn; intros _; by split].
  match goal with |- context [run ?p ?e1] => pose proof (yields_run p (λ r, r = Ok (E := fork_error) tt) e1) as Hy; destruct (run p e1) as [r e2] end.
  cbn [fst snd] in *. rewrite Hy; [intros (? & _ & ?); done|]. do 3 (apply yields_bind, yields_true; intros ?). done.
Qed.

Lemma Unregister_run id (ac : api) : (run (UnregisterSandbox id) ac).2.1 = forget_sandbox id ac.1.
Proof.
  destruct ac as [a c]. unfold UnregisterSandbox, api. rewrite run_bind, run_on_snd. destruct (run (CloseForwards id) c) as [u1 c1].
  rewrite run_bind, run_on_snd. destruct (run (CloseExpose id) c1) as [u2 c2]. done.
Qed.

(** Which part of the node a program is about. *)
Lemma run_engine {A} (p : prog (Engine K) A) (s : node) :
  run (on_engine p) s = let '(r, e) := run p s.1.1 in (r, (e, s.1.2, s.2)).
Proof.
  destruct s as [[e a] c]. unfold on_engine, DaemonServer.node. cbn [fst snd]. rewrite !run_on_fst. by destruct (run p e).
Qed.

Lemma run_api {A} (p : prog api A) (s : node) : run (on_api p) s = let '(r, a) := run p s.1.2 in (r, (s.1.1, a, s.2)).
Proof.
  destruct s as [[e a] c]. unfold on_api, DaemonServer.node. cbn [fst snd]. rewrite run_on_fst, run_on_snd. by destruct (run p a).
Qed.

Lemma run_registry f (s : node) : run (on_registry f) s = (tt, (s.1.1, (f s.1.2.1, s.1.2.2), s.2)).
Proof.
  unfold on_registry. rewrite run_api. destruct s as [[e [a c]] cl]. unfold api. cbn [fst snd]. rewrite run_on_fst, run_op. done.
Qed.

Lemma ends_engine {A} (p : prog (Engine K) A) Q (s : node) :
  ends p (λ r e, Q r (e, s.1.2, s.2)) s.1.1 → ends (on_engine p) Q s.
Proof. unfold ends. rewrite run_engine. by destruct (run p s.1.1). Qed.

Lemma ends_registry f Q (s : node) : Q tt (s.1.1, (f s.1.2.1, s.1.2.2), s.2) → ends (on_registry f) Q s.
Proof. unfold ends. by rewrite run_registry. Qed.

Lemma ends_unregister id Q (s : node) :
  (∀ c, Q tt (s.1.1, (forget_sandbox id s.1.2.1, c), s.2)) → ends (on_api (UnregisterSandbox id)) Q s.
Proof.
  intros HQ. unfold ends. rewrite run_api. pose proof (Unregister_run id s.1.2) as Hr.
  destruct (run (UnregisterSandbox id) s.1.2) as [[] [a c]]. cbn [fst snd] in *. rewrite Hr. apply HQ.
Qed.

(** Talking to a guest changes nothing else. *)
Lemma keeps_calls {A} x (f : calls → A * calls) : keeps (λ s : node, s.1 = x) (on_calls f).
Proof. split; [|done]. intros [ea c]. simpl. by destruct (f c). Qed.

Lemma notifyForked_keeps x id net g : keeps (λ s : node, s.1 = x) (notifyForked id net g).
Proof.
  unfold notifyForked, NotifyForked. destruct (g_entropy g); [|done]. apply keeps_bind; [apply keeps_calls|]. intros gen.
  apply keeps_bind; [|intros [[]|]; done]. apply keeps_bind; [apply keeps_rd|]. intros [path|]; [|done].
  destruct (g_notified g path) as [reseeded|]; [|done]. apply keeps_bind; [apply keeps_calls|done].
Qed.

Lemma Configure_keeps x id env secrets g : keeps (λ s : node, s.1 = x) (Configure id env secrets g).
Proof.
  unfold Configure. apply keeps_bind; [apply keeps_rd|]. intros [path|]; [|done]. destruct (g_configured g path); [|done].
  apply keeps_bind; [apply keeps_calls|done].
Qed.

Definition undelivered (r : result server_error unit) : Prop := match r with Ok _ => True | Err err => err = Undelivered end.

Lemma notifyForked_yields id net g : yields (notifyForked (K := K) id net g) undelivered.
Proof.
  unfold notifyForked. destruct (g_entropy g); [|done]. apply yields_bind, yields_true. intros gen. apply yields_bind, yields_true.
  by intros [[]|].
Qed.

(** The engine runs [id] too; the sandbox API does not know. *)
Record half (pr : promise) (paths : gset string) (id : string) (s : node) : Prop := {
  ha_live : dom (e_sandboxes s.1.1) = {[id]} ∪ pr_live pr;
  ha_paths : a_streamPaths s.1.2.1 = sockets paths;
  ha_tokens : a_tokens s.1.2.1 = pr_tokens pr;
  ha_open : dom (pr_tokens pr) ⊆ pr_live pr;
  ha_alloc : alloc_ok (e_netAlloc s.1.1);
}.

Lemma half_calls pr paths id (s s' : node) : s'.1 = s.1 → half pr paths id s → half pr paths id s'.
Proof. intros Hs [H1 H2 H3 H4 H5]. constructor; by rewrite ?Hs. Qed.

Lemma registered_half pr paths id s :
  half pr paths id s → half pr ({[id]} ∪ paths) id (s.1.1, (RegisterSandbox id (host_path id) s.1.2.1, s.1.2.2), s.2).
Proof. intros [H1 H2 H3 H4 H5]. constructor; [done| |done..]. simpl. by rewrite H2, sockets_insert. Qed.

Lemma reap_keeps pr id sys (s : node) : safeSandboxIDComponent id = true → half pr ({[id]} ∪ pr_live pr) id s →
  ends (reap cfg sys id) (λ _ s', keeps_promise (begun id "" (Some Undelivered) pr) s') s.
Proof.
  intros Hid [H1 H2 H3 H4 H5]. unfold reap. apply ends_bind, ends_engine. destruct (Terminate_run sys id s.1.1 Hid H5) as [Hs Ha].
  unfold ends at 1. apply ends_unregister. intros c. constructor; simpl; [| | |set_solver|done].
  - rewrite Hs, dom_delete_L, H1. set_solver.
  - rewrite H2, sockets_delete. f_equal. set_solver.
  - by rewrite H3.
Qed.

Lemma registered_twice pr id (p : prog node (result server_error unit)) s :
  half pr (pr_live pr) id s → (∀ x, keeps (λ s : node, s.1 = x) p) → yields p undelivered →
  ends (do _ := on_registry (RegisterSandbox id (host_path id)); do _ := on_registry (RegisterStreamPath id (host_path id)); p)
    (λ r s', undelivered r ∧ half pr ({[id]} ∪ pr_live pr) id s') s.
Proof.
  intros Hs Hk Hy. apply ends_bind, ends_registry, ends_bind, ends_registry.
  match goal with |- ends _ _ ?s1 => set (s2 := s1) end.
  assert (half pr ({[id]} ∪ pr_live pr) id s2) as H2.
  { apply registered_half, registered_half in Hs. by replace ({[id]} ∪ ({[id]} ∪ pr_live pr)) with ({[id]} ∪ pr_live pr) in Hs by set_solver. }
  split; [by apply yields_run|]. eapply half_calls; [|exact H2]. by apply (run_keeps (λ s : node, s.1 = s2.1)).
Qed.

Lemma deliver_half pr id env secrets net g s :
  half pr (pr_live pr) id s →
  ends (deliverConfig id (host_path id) env secrets net g) (λ r s', undelivered r ∧ half pr ({[id]} ∪ pr_live pr) id s') s.
Proof.
  intros Hs. unfold deliverConfig. apply registered_twice; [done| |].
  - intros x. apply keeps_bind_ok; [apply notifyForked_keeps|]. intros u. apply keeps_bind; [apply Configure_keeps|done].
  - apply yields_bind_ok. eapply yields_mono; [|apply notifyForked_yields]. intros [u|err] Hr; [|done].
    apply yields_bind, yields_true. intros []; [done|]. by case_bool_decide.
Qed.

Lemma token_begun pr id token (s : node) : half pr ({[id]} ∪ pr_live pr) id s →
  keeps_promise (begun id token None pr) (s.1.1, (RegisterToken id token s.1.2.1, s.1.2.2), s.2).
Proof.
  intros [H1 H2 H3 H4 H5]. unfold RegisterToken, begun. case_bool_decide; constructor; simpl; try done.
  - by apply union_subseteq_r'.
  - by rewrite H3.
  - rewrite dom_insert_L. by apply union_mono_l.
Qed.

(** From the engine's fork to the answer. *)
Lemma begun_keeps pr id token sys (s : node) (p : prog node (result server_error unit)) (k : prog node (result server_error Sandbox)) sb :
  safeSandboxIDComponent id = true →
  ends p (λ r s', undelivered r ∧ half pr ({[id]} ∪ pr_live pr) id s') s →
  (∀ s', half pr ({[id]} ∪ pr_live pr) id s' → ends k (λ r s'', r = Ok sb ∧ keeps_promise (begun id token None pr) s'') s') →
  ends (do r := p; match r with Err err => do _ := reap cfg sys id; Ret (Err err) | Ok _ => k end)
    (λ r s', keeps_promise (begun id token (error_of r) pr) s') s.
Proof.
  intros Hid Hd Hk. apply ends_bind. eapply ends_mono; [|exact Hd]. intros [u|err] s1 [Hr H1].
  - eapply ends_mono; [|by apply Hk]. by intros r s2 [-> H2].
  - simpl in Hr. subst err. apply ends_bind. eapply ends_mono; [|by apply (reap_keeps pr)]. done.
Qed.

Lemma added_half w pr id j sb e (s : node) : keeps_promise pr s →
  added cfg w (e_sandboxes s.1.1) j id (Ok sb) e → half pr (pr_live pr) id (e, s.1.2, s.2).
Proof. intros [H1 H2 H3 H4 H5] [(E1 & E2 & Ha) Hid]. constructor; simpl; try done. by rewrite E1, dom_insert_L, H1. Qed.

Lemma refused_keeps w pr id j err e (s : node) : keeps_promise pr s →
  added cfg w (e_sandboxes s.1.1) j id (Err err) e → keeps_promise pr (e, s.1.2, s.2).
Proof. intros [H1 H2 H3 H4 H5] (E1 & E2 & Ha). constructor; simpl; try done. by rewrite E1. Qed.

Lemma volumeSpecs_err mounts err : volumeSpecs ParseQuantity mounts = Err err → err = BadVolumeName ∨ err = BadVolumeSize.
Proof.
  induction mounts as [|m mounts IH]; simpl; [done|]. destruct (negb _); [intros [= <-]; by left|].
  destruct (ParseSizeMB _ _); [|intros [= <-]; by right]. destruct (volumeSpecs _ _); [done|]. intros [= <-]. by apply IH.
Qed.

Lemma grpc_Fork_keeps pr sys req bt g s : keeps_promise pr s →
  ends (grpc_Fork cfg ParseQuantity enableVolumes d sys req bt g)
    (λ r s', keeps_promise (begun (fr_SandboxId req) (fr_ApiToken req) (error_of r) pr) s') s.
Proof.
  intros Hs. pose proof (kp_alloc _ _ Hs) as Ha. unfold grpc_Fork. destruct (validateIDs _) eqn:Hv; cbn [negb]; [|done].
  cbn [validateIDs forallb] in Hv. apply andb_true_iff in Hv as [_ Hid]. rewrite andb_true_r in Hid. unfold DaemonServer.Fork.
  destruct (volumeSpecs _ _) as [vols|err] eqn:Ev; [|by destruct (volumeSpecs_err _ _ Ev) as [-> | ->]].
  apply ends_bind, ends_engine. eapply ends_mono; [|by apply Fork_ends]. intros [sb|err] e Hadd.
  - assert (sb_ID sb = fr_SandboxId req) as -> by apply Hadd. apply (added_half _ _ _ _ _ _ s Hs) in Hadd.
    apply (begun_keeps _ _ _ _ _ _ _ sb); [done|by apply deliver_half|]. intros s1 H1.
    apply ends_bind, ends_registry, ends_bind, ends_registry. split; [done|]. by destruct (token_begun _ _ (fr_ApiToken req) _ H1).
  - by apply (refused_keeps _ _ _ _ _ _ s Hs) in Hadd.
Qed.

Lemma grpc_ForkRunning_keeps pr sys src id token cp bt g s : keeps_promise pr s →
  ends (grpc_ForkRunning cfg d sys src id token cp bt g) (λ r s', keeps_promise (begun id token (error_of r) pr) s') s.
Proof.
  intros Hs. pose proof (kp_alloc _ _ Hs) as Ha. unfold grpc_ForkRunning. destruct (validateIDs _) eqn:Hv; cbn [negb]; [|done].
  cbn [validateIDs forallb] in Hv. apply andb_true_iff in Hv as [_ Hid]. rewrite andb_true_r in Hid. unfold DaemonServer.ForkRunning.
  apply ends_bind, ends_engine. eapply ends_mono; [|by apply ForkRunning_ends]. intros [sb|err] e Hadd.
  - assert (sb_ID sb = id) as -> by apply Hadd. apply (added_half _ _ _ _ _ _ s Hs) in Hadd.
    apply (begun_keeps _ _ _ _ _ _ _ sb); [done| |].
    + apply registered_twice; [done|intros x; apply notifyForked_keeps|apply notifyForked_yields].
    + intros s1 H1. apply ends_bind, ends_registry. split; [done|]. by apply token_begun.
  - by apply (refused_keeps _ _ _ _ _ _ s Hs) in Hadd.
Qed.

Lemma grpc_Terminate_keeps pr sys id s : keeps_promise pr s →
  ends (grpc_Terminate cfg sys id) (λ r s', keeps_promise (ended id (error_of r) pr) s') s.
Proof.
  intros [H1 H2 H3 H4 H5]. unfold grpc_Terminate. destruct (validateIDs _) eqn:Hid; cbn [negb]; [|done].
  cbn [validateIDs forallb] in Hid. rewrite andb_true_r in Hid. unfold DaemonServer.Terminate. apply ends_bind, ends_unregister. intros c.
  apply ends_bind, ends_engine. destruct (Terminate_run sys id s.1.1 Hid H5) as [Hs Ha]. unfold ends at 1. cbn [fst snd].
  assert (keeps_promise {| pr_live := pr_live pr ∖ {[id]}; pr_tokens := delete id (pr_tokens pr) |}
    ((run (Engine.Terminate cfg sys id) s.1.1).2, (forget_sandbox id s.1.2.1, c), s.2)) as Hk.
  { constructor; simpl; [by rewrite Hs, dom_delete_L, H1|by rewrite H2, sockets_delete|by rewrite H3| |done]. rewrite dom_delete_L. set_solver. }
  unfold ends. cbn [run fst snd]. by destruct (run _ s.1.1) as [[u|err] e].
Qed.

Lemma run_call_keeps pr c s : keeps_promise pr s → keeps_promise (promised c (run_call c s).1 pr) (run_call c s).2.
Proof.
  intros Hs. destruct c as [sys req bt g|sys src id token cp bt g|sys id]; simpl.
  - pose proof (grpc_Fork_keeps pr sys req bt g s Hs) as H. unfold ends in H. by destruct (run _ s).
  - pose proof (grpc_ForkRunning_keeps pr sys src id token cp bt g s Hs) as H. unfold ends in H. by destruct (run _ s).
  - pose proof (grpc_Terminate_keeps pr sys id s Hs) as H. unfold ends in H. by destruct (run _ s).
Qed.

Lemma serve_keeps cs s pr : keeps_promise pr s → keeps_promise (serve cs s pr).2 (serve cs s pr).1.
Proof.
  revert s pr. induction cs as [|c cs IH]; intros s pr Hs; simpl; [done|]. apply run_call_keeps with (c := c) in Hs.
  destruct (run_call c s) as [r s']. by apply IH.
Qed.

(** A request that acts carries the token. *)
Lemma acts_carries apicfg w r body a id what : s_allowTokenless apicfg = false →
  (forkd apicfg w r body a).1 = Acts id what → DaemonTheorems.carries apicfg r a id.
Proof.
  intros Hcl Hact. assert ((Handler apicfg w r body a).1 = Acts id what) as Hh.
  { revert Hact. unfold forkd. by destruct (GoMux.findHandler _ r) as [[] ms| | |]. }
  assert (¬ ¬ DaemonTheorems.carries apicfg r a id) as Hn.
  { intros Hn. destruct (DaemonTheorems.Handler_spares apicfg Hcl w r body a id Hn) as [H _]. by apply (H what). }
  unfold DaemonTheorems.carries in *. destruct (a_tokens a !! _) as [token|]; [|naive_solver].
  exists token. split; [done|]. destruct (presents token (r_Header r)) eqn:Ep; [done|].
  destruct Hn. intros (token' & [= <-] & ?). congruence.
Qed.

Lemma samples_registered apicfg w r body a ids :
  (forkd apicfg w r body a).1 = Samples ids → ids = dom (a_streamPaths a).
Proof.
  unfold forkd. destruct (GoMux.findHandler _ r) as [[] ms| | |]; try done; [by intros [= <-]|].
  intros H. by destruct (DaemonTheorems.Handler_samples apicfg w r body a ids).
Qed.

Lemma presents_bearer token h : presents token h = true → header_Get h "Authorization" = "Bearer " +:+ token.
Proof.
  unfold presents, CutPrefix. destruct (strip_prefix _ _) as [p|] eqn:E; [|done]. intros ->%bool_decide_eq_true.
  by apply GoStringsTheorems.strip_prefix_spec in E.
Qed.

(** C9: a node whose calls do not overlap keeps the promise of its answers.  After any
    sequence of forks, live forks and terminations, with whatever outcomes, the engine runs
    exactly the sandboxes whose forks were reported and that no call has ended since; the
    sandbox API knows exactly those, each at its own socket, and their tokens are those of
    the forks.  A request to forkd acts only on such a sandbox, and only with its token; and
    the report on the node, which asks for none, samples exactly those sandboxes. *)
Theorem node_keeps_promise apicfg cs e c cl cidr prefix :
  NewAllocator cidr prefix = Ok (e_netAlloc e) → e_sandboxes e = ∅ →
  s_allowTokenless apicfg = false → s_singleSandbox apicfg = false →
  let '(s, pr) := serve cs (e, (no_registrations, c), cl) {| pr_live := ∅; pr_tokens := ∅ |} in
  dom (e_sandboxes s.1.1) = pr_live pr ∧ (∀ id, a_streamPaths s.1.2.1 !! id = if decide (id ∈ pr_live pr) then Some (host_path id) else None) ∧
  a_tokens s.1.2.1 = pr_tokens pr ∧
  (∀ w r body id what, (forkd apicfg w r body s.1.2.1).1 = Acts id what →
    id ∈ pr_live pr ∧ ∃ token, pr_tokens pr !! id = Some token ∧ header_Get (r_Header r) "Authorization" = "Bearer " +:+ token) ∧
  (∀ w r body ids, (forkd apicfg w r body s.1.2.1).1 = Samples ids → ids = pr_live pr).
Proof.
  intros Ha He Hcl Hsg. assert (keeps_promise (serve cs (e, (no_registrations, c), cl) {| pr_live := ∅; pr_tokens := ∅ |}).2
                             (serve cs (e, (no_registrations, c), cl) {| pr_live := ∅; pr_tokens := ∅ |}).1) as Hk.
  { apply serve_keeps. constructor; simpl; [by rewrite He, dom_empty_L|done|done|by rewrite dom_empty_L|].
    by apply (NewAllocator_ok cidr prefix). }
  destruct (serve cs _ _) as [s pr]. destruct Hk as [H1 H2 H3 H4 H5]. cbn [fst snd] in *. split_and!; [done| |done| |].
  - intros id. by rewrite H2, lookup_sockets.
  - intros w r body id what (token & Ht & Hp)%acts_carries; [|done]. unfold resolveSandboxID in Ht. rewrite Hsg, H3 in Ht.
    split; [apply H4, elem_of_dom; by exists token|]. exists token. split; [done|by apply presents_bearer].
  - intros w r body ids ->%samples_registered. rewrite H2. apply set_eq. intros id. rewrite elem_of_dom, lookup_sockets.
    case_decide; [by split; [|eauto]|]. by split; [intros [? ?]|].
Qed.

End sequential.

(** ** Examples *)

Abbreviation ex_engine := EngineTheorems.ex_node.
Abbreviation ex_config := EngineTheorems.ex_config.
Abbreviation boots := EngineTheorems.boots.

Definition ex_guest : guest := {| g_entropy := true; g_notified := λ _, Some true; g_configured := λ _, true |}.
Definition ex_deaf : guest := {| g_entropy := true; g_notified := λ _, Some false; g_configured := λ _, true |}.

Definition ex_fork (id token : string) : ForkRequest := {|
  fr_SnapshotId := "snap"; fr_SandboxId := id; fr_Env := [("A", "1")]; fr_Secrets := [("KEY", "s3")];
  fr_Network := Some {| nc_EgressPolicy := "deny"; nc_AllowList := []; nc_BlockNetwork := false; nc_AllowCidrs := []; nc_Inbound := "";
                        nc_InboundCidrs := [] |};
  fr_Volumes := []; fr_ApiToken := token; fr_VitalsLabels := None |}.

Definition ex_sys : system := running (λ _ _, true).
Definition ex_dirs : dirs := {| d_dataDir := "/var/lib/mitos"; d_chrootBaseDir := "/srv/jailer" |}.
Definition ex_start : node := (ex_engine, (no_registrations, no_conns), no_calls).

Definition ex_two_forks : node * list (prog node outcome) :=
  schedule ([inl (do r := grpc_Fork ex_config (λ _, None) false ex_dirs ex_sys (ex_fork "a" "ta") (boots 11) ex_guest; Ret (Forked (ex_fork "a" "ta") r));
             inl (do r := grpc_Fork ex_config (λ _, None) false ex_dirs ex_sys (ex_fork "b" "tb") (boots 12) ex_deaf; Ret (Forked (ex_fork "b" "tb") r))] ++
            concat (replicate 40 [inr 0%nat; inr 1%nat])) (ex_start, []).

Definition ex_results : list (option (result server_error Sandbox)) :=
  (λ p, match p with Ret (Forked _ r) => Some r | _ => None end) <$> ex_two_forks.2.

(** The first guest answers; the second has not reseeded, and its fork is reaped. *)
Lemma forks_introduced_witness :
  ∃ sb, ex_results = [Some (Err Undelivered); Some (Ok sb)] ∧ sb_ID sb = "a" ∧
    (∃ gen, Notified "/srv/jailer/firecracker/a/root/vsock.sock" gen (guestNet ex_config false sb) true ∈ cl_events ex_two_forks.1.2) ∧
    dom (e_sandboxes ex_two_forks.1.1.1) = {["a"]}.
Proof.
  destruct (forks_introduced ex_config (λ _, None) false ex_dirs NewSandboxAPI ex_engine no_conns ex_two_forks.1 ex_two_forks.2)
    as [H _].
  { rewrite <- surjective_pairing. apply schedule_reaches. repeat constructor. }
  eexists. split; [vm_compute; reflexivity|].
  match goal with |- sb_ID ?sb = _ ∧ _ => destruct (H (ex_fork "a" "ta") sb) as (H1 & H2 & _) end.
  { vm_compute. right. left. }
  split; [exact H1|]. split; [exact H2|]. vm_compute. reflexivity.
Defined.

Lemma node_keeps_promise_witness :
  let fork id token pid g := SFork ex_sys (ex_fork id token) (boots pid) g in
  let '(s, pr) := serve ex_config (λ _, None) false ex_dirs [fork "a" "ta" 11 ex_guest; fork "b" "tb" 12 ex_deaf; fork "c" "tc" 13 ex_guest; STerminate ex_sys "a"]
                    ex_start {| pr_live := ∅; pr_tokens := ∅ |} in
  pr_live pr = {["c"]} ∧ pr_tokens pr = {["c" := "tc"]} ∧ dom (e_sandboxes s.1.1) = pr_live pr ∧ a_tokens s.1.2.1 = pr_tokens pr.
Proof.
  intros fork.
  pose proof (node_keeps_promise ex_config (λ _, None) false ex_dirs NewSandboxAPI
    [fork "a" "ta" 11 ex_guest; fork "b" "tb" 12 ex_deaf; fork "c" "tc" 13 ex_guest; STerminate ex_sys "a"]
    ex_engine no_conns no_calls "10.200.0.0/16" "sbtap" EngineTheorems.ex_alloc_new eq_refl eq_refl eq_refl) as H.
  change (ex_engine, (no_registrations, no_conns), no_calls) with ex_start in H.
  assert (pr_live (serve ex_config (λ _, None) false ex_dirs [fork "a" "ta" 11 ex_guest; fork "b" "tb" 12 ex_deaf; fork "c" "tc" 13 ex_guest; STerminate ex_sys "a"]
    ex_start {| pr_live := ∅; pr_tokens := ∅ |}).2 = {["c"]} ∧
    pr_tokens (serve ex_config (λ _, None) false ex_dirs [fork "a" "ta" 11 ex_guest; fork "b" "tb" 12 ex_deaf; fork "c" "tc" 13 ex_guest; STerminate ex_sys "a"]
    ex_start {| pr_live := ∅; pr_tokens := ∅ |}).2 = {["c" := "tc"]}) as [H1 H2] by (vm_compute; split; reflexivity).
  destruct (serve _ _ _ _ _ _) as [s pr]. destruct H as (Hl & _ & Ht & _). split; [exact H1|]. split; [exact H2|]. split; [exact Hl|exact Ht].
Defined.

(** When calls overlap the promise breaks: a termination that comes between the start of a
    machine and the registration of its token leaves the token behind, and it opens the next
    sandbox of that name, if its fork brings none. *)
Example stale_token_opens :
  let fork token pid : prog node outcome :=
    do r := grpc_Fork ex_config (λ _, None) false ex_dirs ex_sys (ex_fork "a" token) (boots pid) ex_guest; Ret (Forked (ex_fork "a" token) r) in
  let stop : prog node outcome := do _ := grpc_Terminate ex_config ex_sys "a"; Ret Otherwise in
  let c := schedule ([inl (fork "old" 11)] ++ replicate 14 (inr 0%nat) ++ [inl stop] ++ replicate 20 (inr 0%nat) ++ replicate 20 (inr 1%nat))
             (ex_start, []) in
  let s := (run (fork "" 12) c.1).2 in
  e_sandboxes c.1.1.1 !! "a" = None ∧ sb_Pid <$> e_sandboxes s.1.1 !! "a" = Some 12 ∧
  (forkd NewSandboxAPI DaemonTheorems.ex_world (DaemonTheorems.ex_post "/v1/pause" "old") (DaemonTheorems.ex_body "sandbox" "a") s.1.2.1).1 = Acts "a" Pauses.
Proof. vm_compute. split_and!; reflexivity. Qed.

End DaemonServerTheorems.
